(* ===== verification/_CoqProject ===== *)
-Q . S2P
Prelude.v
Layouts.v
BitwiseHacks.v
MarkBits.v
Memory.v
Bytes.v
Effects.v
InstructionOperands.v
FreeList.v
Sweep.v
ObjectStartMap.v
Spaces.v
DataHeap.v
Objects.v
CodeBlocks.v
Relocation.v
Callbacks.v
SlotVisitor.v
Collectors.v
Compaction.v
Frames.v
GC.v
Cheney.v
Dispatch.v
Arrays.v
Bignum.v
BignumAdd.v
BignumMul.v
BignumDiv.v
BignumKnuthD.v
BignumDivide.v
BignumBits.v
BignumConv.v
BignumGcd.v
Integers.v
Math.v
VM.v
Room.v
Aliens.v
Contexts.v
ContextPool.v
HeapArrays.v
Errors.v
Tuples.v
Strings.v
ObjectPrimitives.v
Jit.v
Quotations.v
InlineCache.v
Callstacks.v
Io.v
Image.v
ImageFixup.v
Profiler.v
Signals.v
HeapChecker.v
Doubles.v
Floats.v
Startup.v
Console.v
Printing.v
Debugger.v
