(* ===== verification/Prelude.v ===== *)
(** * A verification of the Factor virtual machine

    Factor is a stack-based language whose runtime is the C++ program under
    src/vm/.  Its parts, and how they work together:

    - every value is a 64-bit [cell] with a 4-bit tag (layouts.hpp,
      tagged.hpp); integers are tagged fixnums or heap-allocated bignums
      (math.cpp, bignum.cpp), and the compiled code calls the primitives of
      math.cpp when an operation on fixnums overflows;
    - objects live in a data heap of three generations (data_heap.cpp): a
      nursery that allocates by advancing a pointer, two aging spaces that do
      the same, and a tenured space that is a free-list allocator
      (free_list.hpp) with mark bits (mark_bits.hpp); a write barrier marks
      the cards that old objects were stored to (vm.hpp, write_barrier.hpp),
      and an object-start map finds the objects on a card
      (object_start_map.cpp);
    - machine code lives in a code heap (code_heap.cpp), a free-list allocator
      of code blocks (code_blocks.hpp) whose instructions refer to objects and
      to other blocks through operands (instruction_operands.cpp);
    - the collectors (nursery_collector.cpp, aging_collector.cpp,
      to_tenured_collector.cpp, full_collector.cpp) visit every place that
      holds a pointer with the slot visitor (slot_visitor.hpp) and replace the
      pointer by its image under a fixup: a copy, or the object itself after
      marking it.
    - compiled code runs on contexts (contexts.cpp), each with a data stack, a
      retain stack and a call stack, and calls primitives that take their
      arguments from the data stack; the compiler (jit.cpp, quotations.cpp,
      words.cpp) makes code blocks from quotations with the templates of the
      image, and generic words are called through dispatch tables and inline
      caches (dispatch.cpp, inline_cache.cpp);
    - an image file holds both heaps (image.cpp); signals become errors, samples
      of the profiler or safepoints (errors.cpp, cpu-x86.cpp, safepoints.cpp,
      sampling_profiler.cpp); streams, the console thread and the low-level
      debugger (io.cpp, os-unix.cpp, debug.cpp) talk to the user.

    ** Files

    - [Prelude]: errors, machine integers with their wrap-around, bit
      operations, loops.
    - [Layouts]: layouts.hpp and tagged.hpp: tags, alignment, object headers.
    - [BitwiseHacks], [MarkBits]: bitwise_hacks.hpp, mark_bits.hpp.
    - [Memory], [Bytes]: the words of memory, and accesses narrower than a
      word; [Effects]: the monad of the collectors, with the exception
      [must_start_gc_again].
    - [FreeList], [Sweep]: free_list.hpp: the allocator and its invariant,
      and its sweep and compaction.
    - [ObjectStartMap]: object_start_map.cpp, and the constants of
      write_barrier.hpp.
    - [Spaces]: bump_allocator.hpp, aging_space.hpp, tenured_space.hpp, and
      the walk over the objects of a generation.
    - [DataHeap]: data_heap.cpp, segments.hpp, and the write barrier.
    - [Objects]: the sizes and slots of objects in memory (slot_visitor.hpp,
      layouts.hpp, generic_arrays.hpp, objects.cpp).
    - [InstructionOperands]: instruction_operands.{hpp,cpp}.
    - [CodeBlocks]: code_blocks.hpp, gc_info.hpp, code_heap.cpp,
      code_roots.hpp, and the walks of callstack.hpp.
    - [Relocation]: code_blocks.cpp: the operands of code blocks; [Callbacks]:
      callbacks.cpp.
    - [SlotVisitor]: slot_visitor.hpp; a fixup is the class [Fixup].
    - [Collectors]: the copiers of the four collectors (instances of [Fixup])
      and the collections.
    - [Compaction]: compaction.cpp; [Frames]: what the visitor and the
      collections leave alone.
    - [GC]: gc.cpp and allot.hpp: the driver of the collections, and
      allocation.
    - [Cheney]: the correctness of copying collection.
    - [Dispatch]: dispatch.cpp.
    - [Arrays]: arrays.cpp, generic_arrays.hpp, byte_arrays.cpp.
    - [Bignum], [BignumAdd], [BignumMul], [BignumDiv], [BignumKnuthD],
      [BignumDivide], [BignumBits], [BignumConv], [BignumGcd]: bignum.cpp;
      [Integers]: its refinement of the integers; [Doubles]: doubles and
      their conversion to bignums.
    - [Math]: math.cpp on the integers; [Floats]: on doubles, and float_bits.hpp.
    - [VM]: the state of the vm, the data stack, data roots and boxed integers;
      [Room]: what an allocation needs and leaves alone.
    - [Contexts], [ContextPool]: contexts.cpp; [Aliens]: alien.cpp;
      [HeapArrays]: arrays and byte arrays in the heap; [Errors]: errors.cpp;
      [Tuples], [Strings]: tuples.cpp, strings.cpp; [ObjectPrimitives]:
      objects.cpp.
    - [Jit], [Quotations]: jit.cpp, quotations.cpp, words.cpp;
      [InlineCache]: inline_cache.cpp and the rest of dispatch.cpp;
      [Callstacks]: callstack.cpp and the primitives of code_heap.cpp.
    - [Io]: io.cpp over the class [stdio]; [Image], [ImageFixup]: image.cpp over
      the class [image_os], and the relocation of a loaded heap.
    - [Profiler]: sampling_profiler.cpp and safepoints.cpp; [Signals]:
      cpu-x86.cpp and the signal handlers of errors.cpp and os-unix.cpp;
      [HeapChecker]: data_heap_checker.cpp; [Startup]: factor.cpp,
      run.cpp, entry_points.cpp and the primitives of callbacks, heap statistics and gc events;
      [Console]: the console thread of os-unix.cpp; [Printing], [Debugger]:
      debug.cpp.

    A definition that models code has a comment with the lines and the name of
    the code.

    ** Conventions

    The models are of the 64-bit build for Unix with a GNU compiler.  A
    [cell] and a [fixnum] are integers of [Z] in range, and operations that
    can leave the range wrap explicitly ([u64], [s64]).  [FACTOR_ASSERT] is
    checked, as in debug builds, and fails with [ASSERTION_FAILED]; the
    patterns that debug builds fill free memory with are left out.  An access
    outside an array or to memory that does not exist is [BAD_ACCESS], so a
    theorem that a result is [Ok] also says that every access is in bounds.  A
    loop that is not a recursion on a list runs at most [2^64] turns
    ([while_loop]); every theorem about a loop proves that it ends before, by
    a measure, so the bound is never the reason a result is reached.

    Memory ([gmap Z Z]) maps the addresses of words to their contents.  In
    the heap files an object or a free block is an address and its fields are
    read from memory.  In the bignum and array files, where the code never
    compares addresses but for one test of pointer equality (an argument
    there), an object is its contents: the digits of a bignum are listed least
    significant first, and what the allocator decides is the class
    [alloc_env].

    From [VM] on, a primitive is a computation ([eff]) on memory and the state
    of the vm.  A data root is a handle in memory, so a collection in the middle
    of a primitive updates it, and a value that the code keeps without a root
    is kept without one in the model.

    Addresses that the operating system chooses (segments), its page size, the
    resolution of external symbols, the C library's streams, files and
    allocator, and the formatting of doubles are arguments, or the classes
    [linkage], [os_memory], [c_heap], [dynamic_linker], [stdio], [image_os] and
    [iostream].
    Threads and signals are explicit sequences of events: [sampler_step] and
    [console_step] take one atomic step, and the theorems are about every
    sequence.  Recursion of the C code that only its stack bounds takes the
    depth of that stack as an argument.

    ** Theorems

    - Integers: each bignum operation of [Integers] maps the bignums of
      integers to the bignum of the result in [Z], for division with Knuth's
      algorithm D and its correction steps; exclusive or has one exceptional
      case, which the theorem gives.  [Math] shows the same of the primitives,
      of overflow into bignums and of the conversions to machine integers; the
      gcd is Lehmer's algorithm, and agrees with the Euclidean one of the Windows
      build ([bignum_gcd_of_Z]).  [double_to_bignum_spec] and
      [float_box_roundtrip] are about doubles.
    - Allocation: [FreeList], [Sweep] and [Spaces] show that a block allotted
      was free, that no other word is written, that the free lists keep their
      invariant, that [can_allot_p] promises what [allot] then does, that a
      sweep frees exactly the unmarked blocks and that compaction moves every
      marked block to its forwarding address with its contents.
    - Generations: walks over a generation visit each object once and end; the
      object-start map finds the last object that starts before a card; the
      write barrier marks every card of an object and no other.
    - Collection: [Cheney] shows that a nursery collection copies exactly what
      the handles reach, each object once, and replaces every reference by its
      image ([copy_reachable_spec]).
    - The driver: a call of [gc] makes at most three attempts, in a fixed
      order ([gc_attempts]), and leaves an empty nursery and the state of the
      vm restored ([gc_leaves]); an object that does not fit is allotted after
      a collection ([allot_object_spec]).  The condition that [gc] asserts does
      not ensure that promotion finds room ([promotion_can_fail]).
    - Code: a relocation entry and an operand give back what was stored in
      them, the operands of a new block have their values after its
      initialization ([initialize_code_block_spec]), and an address in a
      block's code leads to the block.
    - Dispatch: method lookup in the tables in memory is lookup of the deepest
      superclass with a method ([lookup_method_spec]).

    - Contexts and errors: contexts are reused from a pool without sharing
      ([context_pool_invariant]), a saved data stack can be restored
      ([datastack_roundtrip]), and [general_error] reaches its handler with
      the stacks repaired ([general_error_spec]).
    - Objects: new strings, tuples and clones have the contents asked for
      ([allot_string_spec], [primitive_tuple_spec], which also gives the word
      that is overwritten behind the tuple, [primitive_clone_spec]); a captured
      call stack has the frames of the original ([capture_callstack_spec]).
    - Images: after loading, every reference in the data heap is moved by the
      distance of the heaps ([fixup_data_heap_spec]).
    - Streams: [raw_fread_spec] gives where the bytes of partial reads end up.
    - Signals and the profiler: a handler runs on the interrupted stack with the
      frames intact ([dispatch_signal_handler_spec]); no sample is lost or
      counted twice in any interleaving ([samples_conserved]).
    - Checking and debugging: a heap whose stores went through the barrier
      passes the checker ([barrier_satisfies_checker]); printing and the
      debugger end and leave the console as they should
      ([print_nested_obj_terminates], [factorbug_spec]); byte arrays are
      printed with a wrong length ([print_byte_array_spec]).
    - The console thread: input arrives once and in order
      ([console_forwards]); [lock_console_spec] tells when the lock keeps the
      thread from reading, and when it does not.

    ** Not modelled

    The layers of Windows, macOS, FreeBSD, PowerPC and ARM, and of Unix what is
    only a call of the operating system: mapping and protecting pages,
    creating threads and pipes.  The machine code that the compiler's templates
    hold is data of the image, and a call from C into it (entry_points.cpp) ends
    the model, with the address and the arguments of the call.
    primitive_format_float formats with the C++ library.  Flushing the
    instruction cache changes nothing that the model has.  The collections are
    modelled without the timers between their phases, whose records are in
    [Startup].  Tables of primitives, macros and the test library of the foreign
    function interface (ffi_test.c) have no behaviour of their own. *)

From stdpp Require Export base list numbers gmap.
From Stdlib Require Export ZArith Lia Znumtheory.

#[global] Open Scope Z_scope.
#[global] Set Default Proof Using "Type".

#[global] Arguments Nat.ltb : simpl never.
#[global] Arguments Nat.leb : simpl never.
#[global] Arguments Nat.eqb : simpl never.
#[global] Arguments Nat.sub : simpl never.
#[global] Arguments Z.ltb : simpl never.
#[global] Arguments Z.leb : simpl never.
#[global] Arguments Z.eqb : simpl never.

(** * Errors

    The VM signals an error by unwinding ([general_error]) or by aborting the
    process (a failed assertion).  Code that can do either returns a
    [result].  [BAD_ACCESS] is not an error of the VM: it is the value a
    model takes when the source would read or write outside an array, so a
    theorem that an operation returns [Ok] also says it stays in bounds.
    [LOOP_BOUND] likewise is the value of a [while_loop] below that does not
    terminate, and [PROCESS_EXIT] that of a call of [exit]. *)

Inductive vm_error :=
  | ASSERTION_FAILED
  | BAD_ACCESS
  | ERROR_DIVIDE_BY_ZERO
  | ERROR_OUT_OF_FIXNUM_RANGE
  | ERROR_ARRAY_SIZE
  | ERROR_TYPE (expected : Z)
  | ERROR_UNDEFINED_SYMBOL (symbol library : Z)
  | ERROR_CALLBACK_SPACE_OVERFLOW
  | ERROR_EXPIRED
  | ERROR_IO
  | ERROR_SIGNAL
  | ERROR_FFI
  | ERROR_DATASTACK_UNDERFLOW
  | ERROR_DATASTACK_OVERFLOW
  | ERROR_RETAINSTACK_UNDERFLOW
  | ERROR_RETAINSTACK_OVERFLOW
  | ERROR_CALLSTACK_UNDERFLOW
  | ERROR_CALLSTACK_OVERFLOW
  | ERROR_MEMORY
  | ERROR_FP_TRAP
  | ERROR_INTERRUPT
  | CRITICAL_ERROR
  | FATAL_ERROR
  | PROCESS_EXIT (status : Z)
  | LOOP_BOUND.

#[export] Instance vm_error_eq_dec : EqDecision vm_error.
Proof. solve_decision. Defined.

Inductive result (A : Type) :=
  | Ok (a : A)
  | Err (e : vm_error).
Arguments Ok {A} a.
Arguments Err {A} e.

#[export] Instance result_eq_dec {A} `{!EqDecision A} : EqDecision (result A).
Proof. solve_decision. Defined.

#[export] Instance result_ret : MRet result := @Ok.
#[export] Instance result_bind : MBind result := λ A B f c,
  match c with Ok a => f a | Err e => Err e end.
#[export] Instance result_fmap : FMap result := λ A B f c,
  match c with Ok a => Ok (f a) | Err e => Err e end.

(** [FACTOR_ASSERT] and [BIGNUM_ASSERT]. *)
Definition check (b : bool) : result unit :=
  if b then Ok () else Err ASSERTION_FAILED.

(** A read through a pointer into an array. *)
Definition read {A} (l : list A) (i : nat) : result A :=
  match l !! i with Some a => Ok a | None => Err BAD_ACCESS end.

(** A write through a pointer into an array. *)
Definition write {A} (l : list A) (i : nat) (a : A) : result (list A) :=
  if decide (i < length l)%nat then Ok (<[i := a]> l) else Err BAD_ACCESS.

Lemma check_true : check true = Ok ().
Proof. reflexivity. Qed.

Lemma result_bind_ok {A B} (f : A → result B) (a : A) : (Ok a ≫= f) = f a.
Proof. reflexivity. Qed.

Lemma Ok_inj {A} (a b : A) : Ok a = Ok b → a = b.
Proof. by injection 1. Qed.

Lemma result_bind_inv {A B} (c : result A) (f : A → result B) b :
  (c ≫= f) = Ok b → ∃ a, c = Ok a ∧ f a = Ok b.
Proof. destruct c; cbn; [eauto | discriminate]. Qed.

Lemma read_Ok {A} (l : list A) i a : read l i = Ok a ↔ l !! i = Some a.
Proof. unfold read. destruct (l !! i); naive_solver. Qed.

Lemma write_Ok {A} (l : list A) i a :
  (i < length l)%nat → write l i a = Ok (<[i := a]> l).
Proof. intros. unfold write. by rewrite decide_True. Qed.

(** * Machine integers

    The models are of the 64-bit build ([FACTOR_64]): [cell] is an unsigned
    and [fixnum] a signed 64-bit integer; both are kept as [Z], and every
    operation that can leave the range writes out its wrap-around. *)

Definition u64 (z : Z) : Z := z mod 2 ^ 64.
Definition s64 (z : Z) : Z := (z + 2 ^ 63) mod 2 ^ 64 - 2 ^ 63.
Definition s128 (z : Z) : Z := (z + 2 ^ 127) mod 2 ^ 128 - 2 ^ 127.
Definition s32 (z : Z) : Z := (z + 2 ^ 31) mod 2 ^ 32 - 2 ^ 31.
Definition u32 (z : Z) : Z := z mod 2 ^ 32.
Definition u16 (z : Z) : Z := z mod 2 ^ 16.
Definition u8 (z : Z) : Z := z mod 2 ^ 8.

Definition is_cell (z : Z) : Prop := 0 ≤ z < 2 ^ 64.
Definition is_fixnum (z : Z) : Prop := - 2 ^ 63 ≤ z < 2 ^ 63.

Declare Scope fixnum_scope.
Delimit Scope fixnum_scope with fixnum.
Notation "x +! y" := (s64 (x + y)) (at level 50, left associativity) : fixnum_scope.
Notation "x -! y" := (s64 (x - y)) (at level 50, left associativity) : fixnum_scope.
Notation "x *! y" := (s64 (x * y)) (at level 40, left associativity) : fixnum_scope.
Notation "x <<! n" := (s64 (Z.shiftl x n)) (at level 38, left associativity) : fixnum_scope.

Declare Scope cell_scope.
Delimit Scope cell_scope with cell.
Notation "x +& y" := (u64 (x + y)) (at level 50, left associativity) : cell_scope.
Notation "x -& y" := (u64 (x - y)) (at level 50, left associativity) : cell_scope.
Notation "x *& y" := (u64 (x * y)) (at level 40, left associativity) : cell_scope.
Notation "x <<& n" := (u64 (Z.shiftl x n)) (at level 38, left associativity) : cell_scope.

Lemma s64_id z : is_fixnum z → s64 z = z.
Proof. unfold s64, is_fixnum. intros. rewrite Z.mod_small; lia. Qed.

Lemma u64_id z : is_cell z → u64 z = z.
Proof. unfold u64, is_cell. intros. rewrite Z.mod_small; lia. Qed.

Lemma s128_id z : - 2 ^ 127 ≤ z < 2 ^ 127 → s128 z = z.
Proof. unfold s128. intros. rewrite Z.mod_small; lia. Qed.

Lemma s32_id z : - 2 ^ 31 ≤ z < 2 ^ 31 → s32 z = z.
Proof. unfold s32. intros. rewrite Z.mod_small; lia. Qed.

(** [lia] with divisions and remainders by positive constants. *)
Ltac dlia := Z.to_euclidean_division_equations; lia.

Lemma u64_range z : is_cell (u64 z).
Proof. unfold u64, is_cell. dlia. Qed.

Lemma s64_range z : is_fixnum (s64 z).
Proof. unfold s64, is_fixnum. dlia. Qed.

(** A cell and a fixnum with the same bits. *)
Lemma u64_s64 z : u64 (s64 z) = u64 z.
Proof.
  unfold u64, s64. rewrite Zminus_mod_idemp_l. f_equal. lia.
Qed.

Lemma s64_u64 z : s64 (u64 z) = s64 z.
Proof. unfold u64, s64. by rewrite Zplus_mod_idemp_l. Qed.

(** Removes the wrap-around of every signed operation whose result [tac]
    shows to be in range, innermost operations first. *)
Ltac wrap_free e :=
  lazymatch e with
  | context [s64 _] => fail
  | context [s128 _] => fail
  | _ => idtac
  end.
Ltac no_overflow tac :=
  repeat match goal with
  | |- context [s64 ?e] => wrap_free e; rewrite (s64_id e) by (unfold is_fixnum; tac)
  | |- context [s128 ?e] => wrap_free e; rewrite (s128_id e) by tac
  end.

(** Decides a closed side condition by evaluation. *)
Ltac eval_side :=
  first [reflexivity
        | vm_compute; repeat split; first [reflexivity | discriminate]].

(** * Division and bit operations on [Z]

    Bridges between the bit operations of the source and arithmetic. *)

Lemma land_ones_mod z n : 0 ≤ n → Z.land z (2 ^ n - 1) = z mod 2 ^ n.
Proof. intros. by rewrite <- Z.land_ones, Z.ones_equiv by lia. Qed.

(** The low bits of a wrapped result. *)
Lemma s64_mod z n : 0 ≤ n ≤ 64 → s64 z mod 2 ^ n = z mod 2 ^ n.
Proof.
  intros Hn. assert (2 ^ 64 = 2 ^ n * 2 ^ (64 - n)) as E
    by (rewrite <- Z.pow_add_r by lia; f_equal; lia).
  assert (0 < 2 ^ n) by (apply Z.pow_pos_nonneg; lia).
  assert (0 < 2 ^ (64 - n)) by (apply Z.pow_pos_nonneg; lia).
  assert (s64 z = z + (- ((z + 2 ^ 63) / 2 ^ 64) * 2 ^ (64 - n)) * 2 ^ n) as ->.
  { unfold s64. rewrite Z.mod_eq by lia. set (k := (z + 2 ^ 63) / 2 ^ 64). clearbody k. rewrite E. ring. }
  apply Z_mod_plus_full.
Qed.

Lemma opp_mod_idemp a m : (- (a mod m)) mod m = (- a) mod m.
Proof. by rewrite <- !(Z.sub_0_l (a mod m)), Zminus_mod_idemp_r, Z.sub_0_l. Qed.

Lemma testbit_small z n i : 0 ≤ z < 2 ^ n → n ≤ i → Z.testbit z i = false.
Proof.
  intros Hz Hi. destruct (decide (0 ≤ n)) as [Hn|Hn].
  - rewrite <- (Z.mod_small z (2 ^ n)) by done. by apply Z.mod_pow2_bits_high.
  - rewrite Z.pow_neg_r in Hz; lia.
Qed.

(** Testing one bit with a mask. *)
Lemma land_pow2_eqb x b : 0 ≤ b → (Z.land x (2 ^ b) =? 2 ^ b) = Z.testbit x b.
Proof.
  intros Hb. destruct (Z.testbit x b) eqn:E.
  - apply Z.eqb_eq. apply Z.bits_inj'. intros i Hi. rewrite Z.land_spec.
    destruct (decide (i = b)) as [->|]; [by rewrite E, Z.pow2_bits_true|].
    by rewrite Z.pow2_bits_false, andb_false_r.
  - apply Z.eqb_neq. intros H. apply (f_equal (λ z, Z.testbit z b)) in H.
    by rewrite Z.land_spec, E, Z.pow2_bits_true in H by done.
Qed.

Lemma land_pow2_nonzero x b : 0 ≤ b → negb (Z.land x (2 ^ b) =? 0) = Z.testbit x b.
Proof.
  intros Hb. destruct (Z.testbit x b) eqn:E.
  - apply negb_true_iff, Z.eqb_neq. intros H. apply (f_equal (λ z, Z.testbit z b)) in H.
    by rewrite Z.land_spec, E, Z.pow2_bits_true, Z.bits_0 in H by done.
  - apply negb_false_iff, Z.eqb_eq. apply Z.bits_inj'. intros i Hi.
    rewrite Z.land_spec, Z.bits_0. destruct (decide (i = b)) as [->|]; [by rewrite E|].
    by rewrite Z.pow2_bits_false, andb_false_r.
Qed.

(** [hi << n | lo] is [hi * 2^n + lo] when [lo] has at most [n] bits. *)
Lemma lor_shiftl_add hi lo n :
  0 ≤ n → 0 ≤ lo < 2 ^ n → Z.lor (Z.shiftl hi n) lo = hi * 2 ^ n + lo.
Proof.
  intros Hn Hlo.
  assert (Z.land (Z.shiftl hi n) lo = 0) as Hdisj.
  { apply Z.bits_inj'. intros i Hi. rewrite Z.land_spec, Z.bits_0.
    destruct (decide (i < n)).
    - by rewrite Z.shiftl_spec_low by lia.
    - rewrite (testbit_small lo n) by lia. apply andb_false_r. }
  rewrite <- Z.lxor_lor, <- Z.add_nocarry_lxor by done.
  by rewrite Z.shiftl_mul_pow2 by lia.
Qed.

(** A field of [n] bits above the low [k] ones. *)
Lemma land_field x n k :
  0 ≤ k → 0 ≤ n → Z.land x (2 ^ (n + k) - 2 ^ k) = (x / 2 ^ k) mod 2 ^ n * 2 ^ k.
Proof.
  intros Hk Hn. assert (2 ^ (n + k) - 2 ^ k = Z.shiftl (2 ^ n - 1) k) as ->
    by (rewrite Z.shiftl_mul_pow2, Z.pow_add_r by lia; ring).
  rewrite <- (land_ones_mod _ n), <- Z.shiftr_div_pow2, <- Z.shiftl_mul_pow2 by lia.
  apply Z.bits_inj'. intros i Hi. rewrite Z.land_spec, !Z.shiftl_spec by lia.
  destruct (decide (i < k)).
  - rewrite !(Z.testbit_neg_r _ (i - k)) by lia. by rewrite andb_false_r.
  - rewrite Z.land_spec, Z.shiftr_spec by lia. by replace (i - k + k) with i by lia.
Qed.

(** * Loops

    A [while] loop that is not a recursion on a list is [while_loop body a]:
    [body] maps the loop's state to the next state ([inl]) or to the value the
    loop leaves with ([inr]).  The model runs at most [2^64] turns, counted in
    binary so that the bound costs nothing when the definition is evaluated;
    [while_loop_ok] proves termination from a decreasing measure below
    [2^64]. *)

Fixpoint iter_until {A B} (p : positive) (body : A → A + B) (a : A) : A + B :=
  match p with
  | xH => body a
  | xO p' =>
      match iter_until p' body a with
      | inl a' => iter_until p' body a'
      | inr b => inr b
      end
  | xI p' =>
      match body a with
      | inl a1 =>
          match iter_until p' body a1 with
          | inl a' => iter_until p' body a'
          | inr b => inr b
          end
      | inr b => inr b
      end
  end.

Definition while_loop {A B} (body : A → A + B) (a : A) : result B :=
  match iter_until (2 ^ 64)%positive body a with
  | inr b => Ok b
  | inl _ => Err LOOP_BOUND
  end.

Section loops.
Context {A B : Type} (body : A → A + B).

Fixpoint iter_nat (n : nat) (a : A) : A + B :=
  match n with
  | 0%nat => inl a
  | S n' => match body a with inl a' => iter_nat n' a' | inr b => inr b end
  end.

Lemma iter_nat_add n m a :
  iter_nat (n + m) a = match iter_nat n a with inl a' => iter_nat m a' | inr b => inr b end.
Proof. revert a. induction n as [|n IH]; intros a; cbn; [done|]. by destruct (body a). Qed.

Lemma iter_until_nat p a : iter_until p body a = iter_nat (Pos.to_nat p) a.
Proof.
  revert a. induction p as [p IH|p IH|]; intros a; cbn [iter_until].
  - rewrite Pos2Nat.inj_xI. cbn [iter_nat]. destruct (body a) as [a1|]; [|done].
    rewrite IH. replace (2 * Pos.to_nat p)%nat with (Pos.to_nat p + Pos.to_nat p)%nat by lia.
    rewrite iter_nat_add. destruct (iter_nat _ a1); [apply IH|done].
  - rewrite Pos2Nat.inj_xO, IH.
    replace (2 * Pos.to_nat p)%nat with (Pos.to_nat p + Pos.to_nat p)%nat by lia.
    rewrite iter_nat_add. destruct (iter_nat _ a); [apply IH|done].
  - rewrite Pos2Nat.inj_1. cbn. by destruct (body a).
Qed.

(** Total correctness of a loop: an invariant, and a measure that decreases. *)
Lemma while_loop_ok (I : A → Prop) (m : A → Z) (Q : B → Prop) a :
  (∀ a, I a → match body a with
              | inl a' => I a' ∧ 0 ≤ m a' < m a
              | inr b => Q b
              end) →
  I a → m a < 2 ^ 64 →
  ∃ b, while_loop body a = Ok b ∧ Q b.
Proof.
  intros Hbody HI Hm. unfold while_loop. rewrite iter_until_nat.
  assert (∀ n a, I a → m a ≤ Z.of_nat n → ∃ b, iter_nat (S n) a = inr b ∧ Q b) as Hiter.
  { induction n as [|n IH]; intros a' HI' Hm'; cbn [iter_nat];
      specialize (Hbody a' HI') as Hb; destruct (body a') as [a1|b]; eauto.
    - destruct Hb as [_ Hb]. lia.
    - destruct Hb as [HI1 Hb]. apply IH; [done|lia]. }
  replace (Pos.to_nat (2 ^ 64)) with (S (Z.to_nat (2 ^ 64 - 1))) by lia.
  destruct (Hiter (Z.to_nat (2 ^ 64 - 1)) a HI ltac:(lia)) as (b & -> & HQ). eauto.
Qed.
End loops.

(** A loop that leaves after [n] turns. *)
Lemma while_loop_iter {A B} (body : A → A + B) n a b :
  Z.of_nat n < 2 ^ 64 → iter_nat body n a = inr b → while_loop body a = Ok b.
Proof.
  intros Hn E. unfold while_loop. rewrite iter_until_nat.
  replace (Pos.to_nat (2 ^ 64)) with (n + (Pos.to_nat (2 ^ 64) - n))%nat by lia.
  by rewrite iter_nat_add, E.
Qed.

(** An invariant of a loop that ends. *)
Lemma while_loop_inv {A B} (body : A → A + B) (I : A → Prop) (Q : B → Prop) a b :
  (∀ a, I a → match body a with inl a' => I a' | inr b => Q b end) →
  I a → while_loop body a = Ok b → Q b.
Proof.
  intros H. unfold while_loop. rewrite iter_until_nat. generalize (Pos.to_nat (2 ^ 64)). intros n.
  revert a. induction n as [|n IH]; intros a Ha; cbn [iter_nat]; [done|].
  specialize (H a Ha). destruct (body a); [by apply IH|]. intros E%Ok_inj. by subst.
Qed.

(** A loop whose body does what another's does, but for turns that fail. *)
Lemma while_loop_agree {A B} (body body' : A → A + result B) a b :
  (∀ a, body' a = body a ∨ ∃ e, body a = inr (Err e)) →
  while_loop body a = Ok (Ok b) → while_loop body' a = Ok (Ok b).
Proof.
  intros H. unfold while_loop. rewrite !iter_until_nat. generalize (Pos.to_nat (2 ^ 64)). intros n.
  revert a. induction n as [|n IH]; intros a; cbn [iter_nat]; [done|].
  destruct (H a) as [->|(e & ->)]; [|done]. destruct (body a); auto.
Qed.
