(* ===== verification/Layouts.v ===== *)
(** Tagged cells, object headers and object sizes: vm/layouts.hpp,
    vm/tagged.hpp, vm/objects.hpp.

    A [cell] is an unsigned 64-bit integer.  Its low 4 bits are a type tag; a
    fixnum is kept in the other 60 bits. *)

From S2P Require Import Prelude.
Local Open Scope cell_scope.

(** * Constants *)

(** src/vm/layouts.hpp:10-10 [data_alignment] *)
Definition data_alignment : Z := 16.
(** src/vm/layouts.hpp:15-15 [WORD_SIZE] *)
Definition WORD_SIZE : Z := 64.
(** src/vm/layouts.hpp:17-17 [TAG_MASK] *)
Definition TAG_MASK : Z := 15.
(** src/vm/layouts.hpp:18-18 [TAG_BITS] *)
Definition TAG_BITS : Z := 4.

(** src/vm/layouts.hpp:25-25 [FIXNUM_TYPE] *)
Definition FIXNUM_TYPE : Z := 0.
(** src/vm/layouts.hpp:26-26 [F_TYPE] *)
Definition F_TYPE : Z := 1.
(** src/vm/layouts.hpp:27-27 [ARRAY_TYPE] *)
Definition ARRAY_TYPE : Z := 2.
(** src/vm/layouts.hpp:28-28 [FLOAT_TYPE] *)
Definition FLOAT_TYPE : Z := 3.
(** src/vm/layouts.hpp:29-29 [QUOTATION_TYPE] *)
Definition QUOTATION_TYPE : Z := 4.
(** src/vm/layouts.hpp:30-30 [BIGNUM_TYPE] *)
Definition BIGNUM_TYPE : Z := 5.
(** src/vm/layouts.hpp:31-31 [ALIEN_TYPE] *)
Definition ALIEN_TYPE : Z := 6.
(** src/vm/layouts.hpp:32-32 [TUPLE_TYPE] *)
Definition TUPLE_TYPE : Z := 7.
(** src/vm/layouts.hpp:33-33 [WRAPPER_TYPE] *)
Definition WRAPPER_TYPE : Z := 8.
(** src/vm/layouts.hpp:34-34 [BYTE_ARRAY_TYPE] *)
Definition BYTE_ARRAY_TYPE : Z := 9.
(** src/vm/layouts.hpp:35-35 [CALLSTACK_TYPE] *)
Definition CALLSTACK_TYPE : Z := 10.
(** src/vm/layouts.hpp:36-36 [STRING_TYPE] *)
Definition STRING_TYPE : Z := 11.
(** src/vm/layouts.hpp:37-37 [WORD_TYPE] *)
Definition WORD_TYPE : Z := 12.
(** src/vm/layouts.hpp:38-38 [DLL_TYPE] *)
Definition DLL_TYPE : Z := 13.
(** src/vm/layouts.hpp:40-40 [TYPE_COUNT] *)
Definition TYPE_COUNT : Z := 14.

(** src/vm/layouts.hpp:94-94 [false_object] *)
Definition false_object : Z := F_TYPE.

(** src/vm/math.hpp:3-4 [fixnum_max] *)
Definition fixnum_max : Z := Z.shiftl 1 (WORD_SIZE - TAG_BITS - 1) - 1.
(** src/vm/math.hpp:5-5 [fixnum_min] *)
Definition fixnum_min : Z := - Z.shiftl 1 (WORD_SIZE - TAG_BITS - 1).
(** src/vm/math.hpp:6-6 [array_size_max] *)
Definition array_size_max : Z := Z.shiftl 1 (WORD_SIZE - TAG_BITS - 2).

(** * Alignment *)

Definition lnot64 (x : Z) : Z := u64 (Z.lnot x).

(** src/vm/layouts.hpp:6-6 [align] *)
Definition align (a b : Z) : Z := Z.land (a +& (b -& 1)) (lnot64 (b -& 1)).

(** src/vm/layouts.hpp:8-8 [alignment_for] *)
Definition alignment_for (a b : Z) : Z := align a b -& a.

(** * Tags *)

(** src/vm/layouts.hpp:19-19 [TAG] *)
Definition TAG (x : Z) : Z := Z.land x TAG_MASK.
(** src/vm/layouts.hpp:20-20 [UNTAG] *)
Definition UNTAG (x : Z) : Z := Z.land x (lnot64 TAG_MASK).
(** src/vm/layouts.hpp:21-21 [RETAG] *)
Definition RETAG (x tag : Z) : Z := Z.lor (UNTAG x) tag.

(** src/vm/layouts.hpp:96-99 [immediate_p] *)
Definition immediate_p (obj : Z) : bool := TAG obj <=? F_TYPE.

(** src/vm/layouts.hpp:101-104 [untag_fixnum] *)
Definition untag_fixnum (tagged : Z) : result Z :=
  check (TAG tagged =? FIXNUM_TYPE) ≫= λ _, Ok (Z.shiftr (s64 tagged) TAG_BITS).

(** src/vm/layouts.hpp:106-108 [tag_fixnum] *)
Definition tag_fixnum (untagged : Z) : Z := Z.lor (u64 untagged <<& TAG_BITS) FIXNUM_TYPE.

(** src/vm/tagged.hpp:3-5 [tag] *)
Definition tag (type value : Z) : Z := RETAG value type.

(** src/vm/tagged.hpp:54-56 [untag] *)
Definition untag (type value : Z) : result Z :=
  check ((type =? TYPE_COUNT) || (TAG value =? type)) ≫= λ _, Ok (UNTAG value).

(** src/vm/booleans.hpp:4-4 [to_boolean] *)
Definition to_boolean (value : Z) : bool := negb (value =? false_object).

(** * Object headers *)

(** src/vm/layouts.hpp:135-137 [object::free_p] *)
Definition free_p (header : Z) : bool := Z.land header 1 =? 1.
(** src/vm/layouts.hpp:139-139 [object::type] *)
Definition header_type (header : Z) : Z := Z.land (Z.shiftr header 2) TAG_MASK.
(** src/vm/layouts.hpp:141-141 [object::initialize] *)
Definition initialize (type : Z) : Z := type <<& 2.
(** src/vm/layouts.hpp:143-143 [object::hashcode] *)
Definition hashcode (header : Z) : Z := Z.shiftr header 6.
(** src/vm/layouts.hpp:145-147 [object::set_hashcode] *)
Definition set_hashcode (header hash : Z) : Z := Z.lor (Z.land header 0x3f) (hash <<& 6).
(** src/vm/layouts.hpp:149-149 [object::forwarding_pointer_p] *)
Definition forwarding_pointer_p (header : Z) : bool := Z.land header 2 =? 2.
(** src/vm/layouts.hpp:151-151 [object::forwarding_pointer] *)
Definition forwarding_pointer (header : Z) : Z := UNTAG header.
(** src/vm/layouts.hpp:153-153 [object::forward_to] *)
Definition forward_to (pointer : Z) : Z := Z.lor pointer 2.

(** * Lemmas *)

(** Clearing the low [k] bits of a cell. *)
Lemma land_lnot_ones x k :
  is_cell x → 0 ≤ k ≤ 64 → Z.land x (lnot64 (2 ^ k - 1)) = x - x mod 2 ^ k.
Proof.
  intros [Hx0 Hx] Hk. unfold lnot64, u64.
  assert (0 < 2 ^ k) by (apply Z.pow_pos_nonneg; lia).
  assert (x - x mod 2 ^ k = Z.shiftl (Z.shiftr x k) k) as ->.
  { rewrite Z.shiftr_div_pow2, Z.shiftl_mul_pow2 by lia.
    pose proof (Z.div_mod x (2 ^ k) ltac:(lia)). lia. }
  replace (2 ^ k - 1) with (Z.ones k) by (rewrite Z.ones_equiv; lia).
  apply Z.bits_inj'. intros i Hi. rewrite Z.land_spec.
  destruct (decide (i < 64)).
  - rewrite Z.mod_pow2_bits_low, Z.lnot_spec by lia.
    destruct (decide (i < k)).
    + rewrite Z.ones_spec_low, Z.shiftl_spec_low by lia. by rewrite andb_false_r.
    + rewrite Z.ones_spec_high, Z.shiftl_spec, Z.shiftr_spec by lia.
      rewrite andb_true_r. f_equal. lia.
  - rewrite (testbit_small x 64 i) by lia. rewrite Z.shiftl_spec, Z.shiftr_spec by lia.
    cbn. symmetry. replace (i - k + k) with i by lia. apply (testbit_small x 64); lia.
Qed.

(** The fixnum a tagged cell holds: the integer modulo [2^60]. *)
Definition s60 (z : Z) : Z := (z + 2 ^ 59) mod 2 ^ 60 - 2 ^ 59.

Definition fixnum_range (z : Z) : Prop := fixnum_min ≤ z ≤ fixnum_max.

#[export] Instance fixnum_range_dec z : Decision (fixnum_range z).
Proof. unfold fixnum_range. apply _. Defined.

Lemma fixnum_range_eq z : fixnum_range z ↔ - 2 ^ 59 ≤ z < 2 ^ 59.
Proof.
  unfold fixnum_range. change fixnum_min with (- 2 ^ 59). change fixnum_max with (2 ^ 59 - 1). lia.
Qed.

Lemma s60_id z : fixnum_range z → s60 z = z.
Proof.
  unfold fixnum_range, s60. change fixnum_min with (- 2 ^ 59). change fixnum_max with (2 ^ 59 - 1).
  intros. rewrite Z.mod_small; lia.
Qed.

Lemma s60_range z : fixnum_range (s60 z).
Proof.
  unfold fixnum_range, s60. change fixnum_min with (- 2 ^ 59). change fixnum_max with (2 ^ 59 - 1). dlia.
Qed.

Lemma TAG_mod x : TAG x = x mod 16.
Proof. apply (land_ones_mod x 4). lia. Qed.

Lemma UNTAG_sub x : is_cell x → UNTAG x = x - x mod 16.
Proof. intros. apply (land_lnot_ones x 4); [done|lia]. Qed.

Lemma tag_fixnum_eq n : tag_fixnum n = 16 * (n mod 2 ^ 60).
Proof.
  unfold tag_fixnum, FIXNUM_TYPE, TAG_BITS, u64. rewrite Z.lor_0_r, Z.shiftl_mul_pow2 by lia.
  rewrite Z.mul_comm. change (2 ^ 64) with (2 ^ 4 * 2 ^ 60) at 2.
  rewrite Z.mul_mod_distr_l by lia. change (2 ^ 4) with 16. f_equal.
  apply Z.mod_mod_divide. exists (2 ^ 4). reflexivity.
Qed.

Lemma untag_tag_fixnum n : untag_fixnum (tag_fixnum n) = Ok (s60 n).
Proof.
  unfold untag_fixnum. rewrite TAG_mod, tag_fixnum_eq.
  rewrite (Z.mul_comm 16), Z_mod_mult. cbn [Z.eqb]. change (0 =? FIXNUM_TYPE) with true.
  rewrite check_true, result_bind_ok. f_equal. unfold TAG_BITS. rewrite Z.shiftr_div_pow2 by lia.
  unfold s64, s60. dlia.
Qed.

Lemma cell_fits_type (type v : Z) :
  is_cell v → v mod 16 = 0 → 0 ≤ type < 16 → Z.lor v type = v + type.
Proof.
  intros Hv Hm Ht. assert (v = Z.shiftl (v / 16) 4) as E.
  { rewrite Z.shiftl_mul_pow2 by lia. change (2 ^ 4) with 16. dlia. }
  rewrite E at 1. rewrite lor_shiftl_add by lia. change (2 ^ 4) with 16. dlia.
Qed.

Lemma align_eq a k :
  0 ≤ k < 64 → is_cell a → a + (2 ^ k - 1) < 2 ^ 64 →
  align a (2 ^ k) = (a + (2 ^ k - 1)) - (a + (2 ^ k - 1)) mod 2 ^ k.
Proof.
  intros Hk Ha Hfit. unfold align, is_cell in *.
  assert (0 < 2 ^ k) by (apply Z.pow_pos_nonneg; lia).
  assert (2 ^ k < 2 ^ 64) by (apply Z.pow_lt_mono_r; lia).
  rewrite (u64_id (2 ^ k - 1)), (u64_id (a + _)) by (unfold is_cell; lia).
  apply land_lnot_ones; [unfold is_cell|]; lia.
Qed.

Lemma align_bounds a k :
  0 ≤ k < 64 → is_cell a → a + (2 ^ k - 1) < 2 ^ 64 →
  a ≤ align a (2 ^ k) < a + 2 ^ k ∧ align a (2 ^ k) mod 2 ^ k = 0.
Proof.
  intros Hk Ha Hfit. rewrite align_eq by done. assert (0 < 2 ^ k) by (apply Z.pow_pos_nonneg; lia).
  pose proof (Z.mod_pos_bound (a + (2 ^ k - 1)) (2 ^ k) ltac:(lia)). split; [lia|].
  pose proof (Z.div_mod (a + (2 ^ k - 1)) (2 ^ k) ltac:(lia)) as E.
  replace (_ - _) with ((a + (2 ^ k - 1)) / 2 ^ k * 2 ^ k) by lia. apply Z_mod_mult.
Qed.

Lemma header_type_eq h : header_type h = (h / 4) mod 16.
Proof.
  unfold header_type. change TAG_MASK with (2 ^ 4 - 1). rewrite land_ones_mod by lia.
  by rewrite Z.shiftr_div_pow2 by lia.
Qed.

Lemma free_p_odd h : free_p h = Z.odd h.
Proof. unfold free_p. change 1 with (2 ^ 0). rewrite land_pow2_eqb by lia. apply Z.bit0_odd. Qed.

Lemma forwarding_pointer_p_odd h : forwarding_pointer_p h = Z.odd (h / 2).
Proof.
  unfold forwarding_pointer_p. change 2 with (2 ^ 1). rewrite land_pow2_eqb by lia.
  by rewrite Z.testbit_odd, Z.shiftr_div_pow2 by lia.
Qed.

Lemma set_hashcode_eq h c :
  is_cell h → 0 ≤ c → set_hashcode h c = (c mod 2 ^ 58) * 64 + h mod 64.
Proof.
  intros Hh Hc. unfold set_hashcode. change 0x3f with (2 ^ 6 - 1). rewrite land_ones_mod by lia.
  assert (c <<& 6 = Z.shiftl (c mod 2 ^ 58) 6) as ->.
  { unfold u64. rewrite !Z.shiftl_mul_pow2 by lia. change (2 ^ 64) with (2 ^ 58 * 2 ^ 6).
    by rewrite Z.mul_mod_distr_r by lia. }
  rewrite Z.lor_comm, lor_shiftl_add; [done|lia|]. apply Z.mod_pos_bound. lia.
Qed.

(** * Theorems *)

(** A fixnum survives tagging and untagging, and a cell made by
    [tag_fixnum] carries the fixnum tag. *)
Theorem fixnum_roundtrip n :
  fixnum_range n →
  untag_fixnum (tag_fixnum n) = Ok n ∧ TAG (tag_fixnum n) = FIXNUM_TYPE ∧
  immediate_p (tag_fixnum n) = true ∧ is_cell (tag_fixnum n).
Proof.
  intros Hn. rewrite untag_tag_fixnum, s60_id by done. split; [done|].
  assert (TAG (tag_fixnum n) = 0) as HT
    by (rewrite TAG_mod, tag_fixnum_eq, (Z.mul_comm 16); apply Z_mod_mult).
  unfold immediate_p. rewrite HT. split_and!; [done|done|].
  rewrite tag_fixnum_eq. unfold is_cell. dlia.
Qed.

Lemma fixnum_roundtrip_witness :
  untag_fixnum (tag_fixnum (-5)) = Ok (-5) ∧ TAG (tag_fixnum (-5)) = FIXNUM_TYPE ∧
  immediate_p (tag_fixnum (-5)) = true ∧ is_cell (tag_fixnum (-5)).
Proof. apply (fixnum_roundtrip (-5)). eval_side. Defined.

(** [align a b] for a power of two [b] is the least multiple of [b] that is
    not below [a], as long as the sum does not overflow a cell. *)
Theorem align_least a k c :
  0 ≤ k < 64 → is_cell a → a + (2 ^ k - 1) < 2 ^ 64 →
  (2 ^ k | align a (2 ^ k)) ∧ a ≤ align a (2 ^ k) ∧
  ((2 ^ k | c) → a ≤ c → align a (2 ^ k) ≤ c) ∧
  alignment_for a (2 ^ k) = align a (2 ^ k) - a.
Proof.
  intros Hk Ha Hfit. destruct (align_bounds a k Hk Ha Hfit) as [Hb Hm].
  assert (0 < 2 ^ k) by (apply Z.pow_pos_nonneg; lia).
  apply Z.mod_divide in Hm; [|lia]. split_and!; [done|lia| |].
  - intros [x ->] Hc. destruct Hm as [y E]. rewrite E in *.
    apply Z.mul_le_mono_nonneg_r; [lia|]. apply Z.lt_succ_r, (Z.mul_lt_mono_pos_r (2 ^ k)); lia.
  - unfold alignment_for. apply u64_id. unfold is_cell in *.
    assert (2 ^ k < 2 ^ 64) by (apply Z.pow_lt_mono_r; lia). lia.
Qed.

Lemma align_least_witness :
  (2 ^ 4 | align 37 (2 ^ 4)) ∧ 37 ≤ align 37 (2 ^ 4) ∧
  ((2 ^ 4 | 64) → 37 ≤ 64 → align 37 (2 ^ 4) ≤ 64) ∧
  alignment_for 37 (2 ^ 4) = align 37 (2 ^ 4) - 37.
Proof. apply (align_least 37 4 64); unfold is_cell; lia. Defined.

(** A pointer to an aligned object survives [tag] and [untag] at the
    object's type, the tag can be read back, and [untag] at another type fails
    its assertion. *)
Theorem object_tag_roundtrip type type' p :
  is_cell p → p mod data_alignment = 0 → 0 ≤ type < TYPE_COUNT → 0 ≤ type' < TYPE_COUNT →
  TAG (tag type p) = type ∧
  untag type' (tag type p) = if type' =? type then Ok p else Err ASSERTION_FAILED.
Proof.
  intros Hp Hm Ht Ht'. unfold tag, untag, RETAG, TYPE_COUNT, data_alignment in *.
  rewrite (UNTAG_sub p Hp), Hm, Z.sub_0_r, cell_fits_type by (done || lia).
  assert ((p + type) mod 16 = type) as E by dlia.
  assert (is_cell (p + type)) by (unfold is_cell in *; dlia).
  rewrite TAG_mod, E, UNTAG_sub, E by done. split; [done|].
  destruct (Z.eqb_spec type' 14); [lia|]. cbn [orb].
  rewrite (Z.eqb_sym type' type). destruct (Z.eqb_spec type type'); [|done]. cbn. f_equal. lia.
Qed.

Lemma object_tag_roundtrip_witness :
  TAG (tag BIGNUM_TYPE 4096) = BIGNUM_TYPE ∧
  untag ARRAY_TYPE (tag BIGNUM_TYPE 4096) =
    if ARRAY_TYPE =? BIGNUM_TYPE then Ok 4096 else Err ASSERTION_FAILED.
Proof. apply (object_tag_roundtrip BIGNUM_TYPE ARRAY_TYPE 4096); eval_side. Defined.

(** The header of an initialized object holds its type and the hashcode
    stored in it (modulo [2^58]) and is neither free nor forwarding; a
    forwarding header holds the pointer it was given. *)
Theorem header_fields t c p :
  0 ≤ t < TYPE_COUNT → 0 ≤ c → is_cell p → p mod data_alignment = 0 →
  let h := set_hashcode (initialize t) c in
  header_type h = t ∧ hashcode h = c mod 2 ^ 58 ∧ free_p h = false ∧
  forwarding_pointer_p h = false ∧
  forwarding_pointer_p (forward_to p) = true ∧ forwarding_pointer (forward_to p) = p.
Proof.
  intros Ht Hc Hp Hm h. unfold TYPE_COUNT, data_alignment in Ht, Hm.
  assert (initialize t = 4 * t) as Ei.
  { unfold initialize. rewrite Z.shiftl_mul_pow2, u64_id by (unfold is_cell; lia). lia. }
  assert (h = (c mod 2 ^ 58) * 64 + 4 * t) as Eh.
  { unfold h. rewrite Ei, set_hashcode_eq by (unfold is_cell; lia). rewrite (Z.mod_small (4 * t)); lia. }
  assert (forward_to p = p + 2) as Ef by (unfold forward_to; rewrite cell_fits_type; (done || lia)).
  unfold forwarding_pointer, hashcode.
  rewrite free_p_odd, !forwarding_pointer_p_odd, header_type_eq, Ef, UNTAG_sub by (unfold is_cell in *; dlia).
  rewrite Z.shiftr_div_pow2, Eh by lia. change (2 ^ 6) with 64.
  set (m := c mod 2 ^ 58). assert (0 ≤ m) by (apply Z.mod_pos_bound; lia). clearbody m.
  split_and!; [dlia|dlia| | | |dlia].
  - replace (m * 64 + 4 * t) with (2 * (m * 32 + 2 * t)) by lia. by rewrite Z.odd_mul.
  - replace (m * 64 + 4 * t) with (2 * (2 * (m * 16 + t))) by lia.
    rewrite Z.mul_comm, Z.div_mul by lia. by rewrite Z.odd_mul.
  - replace ((p + 2) / 2) with (2 * (4 * (p / 16)) + 1) by dlia. by rewrite Z.odd_add, Z.odd_mul.
Qed.

Lemma header_fields_witness :
  let h := set_hashcode (initialize STRING_TYPE) 77 in
  header_type h = STRING_TYPE ∧ hashcode h = 77 mod 2 ^ 58 ∧ free_p h = false ∧
  forwarding_pointer_p h = false ∧
  forwarding_pointer_p (forward_to 8192) = true ∧ forwarding_pointer (forward_to 8192) = 8192.
Proof. apply (header_fields STRING_TYPE 77 8192); eval_side. Defined.
