(* ===== verification/BitwiseHacks.v ===== *)
(** Bit scanning and counting on cells: vm/bitwise_hacks.hpp. *)

From S2P Require Import Prelude.
Local Open Scope cell_scope.

(** * Definitions *)

(** src/vm/bitwise_hacks.hpp:3-34 [log2]: the [bsr] instruction, which finds the
    highest set bit of a nonzero operand. *)
Definition log2 (x : Z) : Z := Z.log2 x.

(** src/vm/bitwise_hacks.hpp:36-36 [rightmost_clear_bit] *)
Definition rightmost_clear_bit (x : Z) : Z := log2 (Z.land (u64 (Z.lnot x)) (x +& 1)).

(** src/vm/bitwise_hacks.hpp:38-38 [rightmost_set_bit] *)
Definition rightmost_set_bit (x : Z) : Z := log2 (Z.land x (u64 (Z.lnot x) +& 1)).

(** Bits set among the first [n] of [f]. *)
Fixpoint count (f : nat → bool) (n : nat) : Z :=
  match n with 0%nat => 0 | S n' => count f n' + Z.b2z (f n') end.

(** [__builtin_popcountll] *)
Definition popcount (x : Z) : Z := count (λ i, Z.testbit x (Z.of_nat i)) 64.

(** src/vm/bitwise_hacks.hpp:40-70 [popcount]: the portable version. *)
Definition popcount_portable (x : Z) : Z :=
  let k1 := 0x5555555555555555 in
  let k2 := 0x3333333333333333 in
  let k4 := 0x0f0f0f0f0f0f0f0f in
  let kf := 0x0101010101010101 in
  let ks := 56 in
  let x := x -& Z.land (Z.shiftr x 1) k1 in
  let x := Z.land x k2 +& Z.land (Z.shiftr x 2) k2 in
  let x := Z.land (x +& Z.shiftr x 4) k4 in
  Z.shiftr (x *& kf) ks.

(** src/vm/bitwise_hacks.hpp:72-76 [bitmap_p]: [bitmap] is an array of bytes. *)
Definition bitmap_p (bitmap : list Z) (index : Z) : result bool :=
  let byte := Z.shiftr index 3 in
  let bit := Z.land index 7 in
  b ← read bitmap (Z.to_nat byte);
  Ok (negb (Z.land b (Z.shiftl 1 bit) =? 0)).

(** * Counting *)

Lemma count_ext f g n : (∀ i, (i < n)%nat → f i = g i) → count f n = count g n.
Proof.
  induction n as [|n IH]; intros H; [done|]. cbn. rewrite H by lia. rewrite IH; [done|].
  intros i Hi. apply H. lia.
Qed.

Lemma count_add f n m : count f (n + m) = count f n + count (λ i, f (n + i)%nat) m.
Proof.
  induction m as [|m IH]; cbn; [rewrite Nat.add_0_r; lia|]. rewrite Nat.add_succ_r. cbn. lia.
Qed.

Lemma count_bounds f n : 0 ≤ count f n ≤ Z.of_nat n.
Proof. induction n as [|n IH]; cbn [count]; [lia|]. destruct (f n); cbn; lia. Qed.

Lemma count_mono f n m : (n ≤ m)%nat → count f n ≤ count f m ≤ count f n + Z.of_nat (m - n).
Proof.
  intros H. replace m with (n + (m - n))%nat at 1 2 by lia. rewrite count_add.
  pose proof (count_bounds (λ i, f (n + i)%nat) (m - n)). lia.
Qed.

Lemma count_none f n : (∀ i, (i < n)%nat → f i = false) → count f n = 0.
Proof. induction n as [|n IH]; intros H; [done|]. cbn. rewrite IH, H by (intros; try apply H; lia). done. Qed.

Lemma count_all f n : (∀ i, (i < n)%nat → f i = true) → count f n = Z.of_nat n.
Proof. induction n as [|n IH]; intros H; [done|]. cbn. rewrite IH, H by (intros; try apply H; lia). cbn. lia. Qed.

Lemma popcount_bounds x : 0 ≤ popcount x ≤ 64.
Proof. apply count_bounds. Qed.

(** Counting under a mask of the low [s] bits. *)
Lemma popcount_land_ones w s :
  (s ≤ 64)%nat →
  popcount (Z.land w (2 ^ Z.of_nat s - 1)) = count (λ i, Z.testbit w (Z.of_nat i)) s.
Proof.
  intros Hs. unfold popcount. replace 64%nat with (s + (64 - s))%nat by lia. rewrite count_add.
  rewrite (count_none (λ i, Z.testbit _ (Z.of_nat (s + i)))), Z.add_0_r.
  - apply count_ext. intros i Hi. rewrite land_ones_mod, Z.mod_pow2_bits_low by lia. done.
  - intros i Hi. rewrite land_ones_mod, Z.mod_pow2_bits_high by lia. done.
Qed.

(** * The lowest set bit *)

Lemma lowest_set_bit x : 0 < x → ∃ k m, 0 ≤ k ∧ 0 ≤ m ∧ x = (2 * m + 1) * 2 ^ k.
Proof.
  intros Hx. destruct x as [|p|p]; try lia. induction p as [p _|p IH|].
  - exists 0, (Zpos p). lia.
  - destruct IH as (k & m & Hk & Hm & E); [lia|]. exists (k + 1), m.
    rewrite Z.pow_add_r by lia. lia.
  - exists 0, 0. lia.
Qed.

(** The bits of [x] and of [-x] above and below the lowest set bit of [x]. *)
Lemma land_opp k m :
  0 ≤ k → Z.land ((2 * m + 1) * 2 ^ k) (- ((2 * m + 1) * 2 ^ k)) = 2 ^ k.
Proof.
  intros Hk. assert (0 < 2 ^ k) by (apply Z.pow_pos_nonneg; lia).
  replace (- ((2 * m + 1) * 2 ^ k)) with (Z.shiftl (- (2 * m + 1)) k) by (rewrite Z.shiftl_mul_pow2 by lia; lia).
  replace ((2 * m + 1) * 2 ^ k) with (Z.shiftl (2 * m + 1) k) by (rewrite Z.shiftl_mul_pow2 by lia; lia).
  rewrite <- Z.shiftl_land. assert (Z.land (2 * m + 1) (- (2 * m + 1)) = 1) as ->; [|by rewrite Z.shiftl_1_l].
  apply Z.bits_inj'. intros i Hi. rewrite Z.land_spec.
  replace (- (2 * m + 1)) with (2 * (- m - 1) + 1) by lia.
  destruct (decide (i = 0)) as [->|Hi0]; [by rewrite !Z.testbit_odd_0|].
  replace i with (Z.succ (i - 1)) by lia. rewrite !Z.testbit_odd_succ by lia.
  replace (- m - 1) with (Z.lnot m) by (unfold Z.lnot; lia). rewrite Z.lnot_spec by lia.
  rewrite andb_negb_r. symmetry. change 1 with (2 * 0 + 1) at 1. rewrite Z.testbit_odd_succ by lia. apply Z.testbit_0_l.
Qed.

Lemma low_bits k m i :
  0 ≤ k → 0 ≤ i ≤ k → Z.testbit ((2 * m + 1) * 2 ^ k) i = (i =? k).
Proof.
  intros Hk Hi. rewrite <- Z.shiftl_mul_pow2 by lia. destruct (Z.eqb_spec i k) as [->|].
  - rewrite Z.shiftl_spec, Z.sub_diag by lia. apply Z.testbit_odd_0.
  - by rewrite Z.shiftl_spec_low by lia.
Qed.

Lemma rightmost_set_bit_spec x :
  is_cell x → x ≠ 0 →
  let b := rightmost_set_bit x in
  0 ≤ b < 64 ∧ Z.testbit x b = true ∧ ∀ i, 0 ≤ i < b → Z.testbit x i = false.
Proof.
  intros [Hx0 Hx] Hne b. destruct (lowest_set_bit x ltac:(lia)) as (k & m & Hk & Hm & E).
  assert (0 < 2 ^ k) by (apply Z.pow_pos_nonneg; lia).
  assert (b = k) as ->.
  { unfold b, rightmost_set_bit, log2. rewrite <- (Z.log2_pow2 k) by done. f_equal.
    assert (u64 (u64 (Z.lnot x) + 1) = 2 ^ 64 - x) as ->.
    { unfold u64, Z.lnot, Z.pred. rewrite Zplus_mod_idemp_l. symmetry.
      apply (Z.mod_unique_pos _ _ (-1)); lia. }
    rewrite <- (land_opp k m) by done. rewrite <- E.
    transitivity (Z.land x ((- x) mod 2 ^ 64)); [f_equal; apply (Z.mod_unique_pos _ _ (-1)); lia|].
    apply Z.bits_inj'. intros i Hi. rewrite !Z.land_spec. destruct (decide (i < 64)).
    - by rewrite Z.mod_pow2_bits_low by lia.
    - by rewrite (testbit_small x 64 i) by lia. }
  rewrite E. split_and!; [done| | |].
  - apply (Z.pow_lt_mono_r_iff 2); [lia..|]. nia.
  - rewrite low_bits by lia. apply Z.eqb_refl.
  - intros i Hi. rewrite low_bits by lia. apply Z.eqb_neq. lia.
Qed.

Lemma rightmost_clear_bit_spec x :
  is_cell x → x ≠ 2 ^ 64 - 1 →
  let b := rightmost_clear_bit x in
  0 ≤ b < 64 ∧ Z.testbit x b = false ∧ ∀ i, 0 ≤ i < b → Z.testbit x i = true.
Proof.
  intros [Hx0 Hx] Hne b. set (y := 2 ^ 64 - 1 - x).
  assert (u64 (Z.lnot x) = y) as Ey.
  { unfold u64, Z.lnot, Z.pred, y. symmetry. apply (Z.mod_unique_pos _ _ (-1)); lia. }
  assert (b = rightmost_set_bit y) as ->.
  { unfold b, rightmost_clear_bit, rightmost_set_bit. rewrite Ey. f_equal. f_equal.
    unfold u64, Z.lnot, Z.pred, y. rewrite Zplus_mod_idemp_l.
    replace (- (2 ^ 64 - 1 - x) + -1 + 1) with (x + 1 + (-1) * 2 ^ 64) by lia. by rewrite Z_mod_plus_full. }
  assert (∀ i, 0 ≤ i < 64 → Z.testbit y i = negb (Z.testbit x i)) as Hbits.
  { intros i Hi. rewrite <- Ey. unfold u64. rewrite Z.mod_pow2_bits_low, Z.lnot_spec by lia. done. }
  destruct (rightmost_set_bit_spec y) as (Hb & Ht & Hlow); [unfold is_cell, y; lia|unfold y; lia|].
  split_and!; [lia|lia| |].
  - rewrite Hbits in Ht by lia. by apply negb_true_iff.
  - intros i Hi. specialize (Hlow i Hi). rewrite Hbits in Hlow by lia. by apply negb_false_iff.
Qed.

(** * The portable population count

    Its first three steps work on the bytes of the word independently; on a
    byte they are checked by evaluation. *)

Definition byte_ok (b : Z) : Prop := 0 ≤ b < 256.

Fixpoint bytes_value (bs : list Z) : Z :=
  match bs with [] => 0 | b :: bs' => b + 256 * bytes_value bs' end.

Lemma land_byte_cons p q r s :
  byte_ok p → byte_ok r → Z.land (p + 256 * q) (r + 256 * s) = Z.land p r + 256 * Z.land q s.
Proof.
  assert (∀ a z, byte_ok a → a + 256 * z = Z.lor (Z.shiftl z 8) a) as Hcons.
  { intros a z [? ?]. rewrite lor_shiftl_add by lia. lia. }
  intros Hp Hr. assert (byte_ok (Z.land p r)) as Hpr.
  { split; [apply Z.land_nonneg; left; apply Hp|]. unfold byte_ok in *.
    replace p with (p mod 2 ^ 8) by (apply Z.mod_small; lia).
    rewrite <- (Z.land_ones p 8), <- Z.land_assoc, (Z.land_comm (Z.ones 8)), Z.land_assoc, Z.land_ones by lia.
    change 256 with (2 ^ 8). apply Z.mod_pos_bound. lia. }
  rewrite !Hcons by done. unfold byte_ok in *. apply Z.bits_inj'. intros i Hi.
  rewrite !Z.land_spec, !Z.lor_spec, Z.land_spec. destruct (decide (i < 8)).
  - by rewrite !Z.shiftl_spec_low by lia.
  - rewrite !Z.shiftl_spec, Z.land_spec by lia.
    rewrite (testbit_small p 8 i), (testbit_small r 8 i) by lia.
    by rewrite !orb_false_r.
Qed.

(** Evaluates a boolean property of all bytes. *)
Lemma byte_forall (P : Z → bool) :
  forallb P (seqZ 0 256) = true → ∀ b, byte_ok b → P b = true.
Proof.
  intros H b Hb. rewrite forallb_forall in H. apply H, list_elem_of_In, elem_of_seqZ.
  unfold byte_ok in Hb. lia.
Qed.

Definition byte_step1 (b : Z) : Z := b - Z.land (b / 2) 0x55.
Definition byte_step2 (b : Z) : Z := Z.land b 0x33 + Z.land (b / 4) 0x33.
Definition byte_step3 (b : Z) : Z := Z.land (b + b / 16) 0x0f.

(** What one byte goes through. *)
Lemma byte_steps b :
  byte_ok b →
  byte_ok (byte_step1 b) ∧
  0 ≤ byte_step2 (byte_step1 b) ≤ 0x44 ∧ byte_step2 (byte_step1 b) mod 16 ≤ 4 ∧
  byte_step3 (byte_step2 (byte_step1 b)) = count (λ i, Z.testbit b (Z.of_nat i)) 8.
Proof.
  intros Hb. pose proof (byte_forall (λ b,
    (0 <=? byte_step1 b) && (byte_step1 b <? 256) &&
    (0 <=? byte_step2 (byte_step1 b)) && (byte_step2 (byte_step1 b) <=? 0x44) &&
    (byte_step2 (byte_step1 b) mod 16 <=? 4) &&
    (byte_step3 (byte_step2 (byte_step1 b)) =? count (λ i, Z.testbit b (Z.of_nat i)) 8))
    ltac:(vm_compute; reflexivity) b Hb) as H.
  rewrite !andb_true_iff, !Z.leb_le, Z.ltb_lt, Z.eqb_eq in H. unfold byte_ok. tauto.
Qed.

Lemma bytes_step1 bs :
  Forall byte_ok bs →
  bytes_value bs - Z.land (bytes_value bs / 2) (bytes_value (replicate (length bs) 0x55)) =
    bytes_value (map byte_step1 bs).
Proof.
  induction 1 as [|b bs Hb Hbs IH]; [done|]. cbn [bytes_value map length replicate].
  rewrite <- IH. set (v := bytes_value bs) in *. clearbody v.
  replace ((b + 256 * v) / 2) with ((b / 2 + 128 * (v mod 2)) + 256 * (v / 2)) by dlia.
  unfold byte_ok in Hb. rewrite land_byte_cons by (unfold byte_ok; dlia). unfold byte_step1.
  assert (Z.land (b / 2 + 128 * (v mod 2)) 0x55 = Z.land (b / 2) 0x55) as ->.
  { assert (v mod 2 = 0 ∨ v mod 2 = 1) as [-> | ->] by dlia; [f_equal; lia|].
    pose proof (byte_forall (λ b, Z.land (b / 2 + 128 * 1) 0x55 =? Z.land (b / 2) 0x55)
      ltac:(vm_compute; reflexivity) b Hb) as H. by apply Z.eqb_eq in H. }
  lia.
Qed.

Lemma bytes_step2 bs :
  Forall byte_ok bs →
  let k := bytes_value (replicate (length bs) 0x33) in
  Z.land (bytes_value bs) k + Z.land (bytes_value bs / 4) k = bytes_value (map byte_step2 bs).
Proof.
  cbv zeta. induction 1 as [|b bs Hb Hbs IH]; [done|]. cbn [bytes_value map length replicate].
  rewrite <- IH. set (v := bytes_value bs) in *. clearbody v.
  replace ((b + 256 * v) / 4) with ((b / 4 + 64 * (v mod 4)) + 256 * (v / 4)) by dlia.
  unfold byte_ok in Hb. rewrite !land_byte_cons by (unfold byte_ok; dlia). unfold byte_step2.
  assert (Z.land (b / 4 + 64 * (v mod 4)) 0x33 = Z.land (b / 4) 0x33) as ->.
  { pose proof (byte_forall (λ b, forallb (λ k, Z.land (b / 4 + 64 * k) 0x33 =? Z.land (b / 4) 0x33) [0; 1; 2; 3])
      ltac:(vm_compute; reflexivity) b Hb) as H.
    cbn [forallb] in H. rewrite !andb_true_iff, !Z.eqb_eq in H.
    assert (v mod 4 = 0 ∨ v mod 4 = 1 ∨ v mod 4 = 2 ∨ v mod 4 = 3) as [-> | [-> | [-> | ->]]] by dlia; tauto. }
  lia.
Qed.

Lemma bytes_step3 bs :
  Forall (λ b, 0 ≤ b ≤ 0x44 ∧ b mod 16 ≤ 4) bs →
  Z.land (bytes_value bs + bytes_value bs / 16) (bytes_value (replicate (length bs) 0x0f)) =
    bytes_value (map byte_step3 bs).
Proof.
  induction 1 as [|b bs [Hb Hb'] Hbs IH]; [done|]. cbn [bytes_value map length replicate].
  rewrite <- IH. assert (bytes_value bs mod 16 ≤ 4) as Hv.
  { destruct Hbs as [|b' bs' [_ Hm] _]; [done|]. cbn [bytes_value]. dlia. }
  set (v := bytes_value bs) in *. clearbody v.
  replace (b + 256 * v + (b + 256 * v) / 16) with ((b + b / 16 + 16 * (v mod 16)) + 256 * (v + v / 16)) by dlia.
  rewrite land_byte_cons by (unfold byte_ok; dlia). unfold byte_step3. f_equal.
  change 15 with (2 ^ 4 - 1). rewrite !land_ones_mod by lia.
  replace (b + b / 16 + 16 * (v mod 16)) with (b + b / 16 + (v mod 16) * 2 ^ 4) by lia. apply Z_mod_plus_full.
Qed.

Lemma bytes_range bs : Forall byte_ok bs → 0 ≤ bytes_value bs < 256 ^ Z.of_nat (length bs).
Proof.
  induction 1 as [|b bs [? ?] ? IH]; cbn [bytes_value length]; [cbn; lia|].
  rewrite Nat2Z.inj_succ, Z.pow_succ_r by lia. lia.
Qed.

Lemma popcount_bytes bs :
  Forall byte_ok bs →
  count (λ i, Z.testbit (bytes_value bs) (Z.of_nat i)) (8 * length bs) =
    foldr (λ b s, count (λ i, Z.testbit b (Z.of_nat i)) 8 + s) 0 bs.
Proof.
  induction 1 as [|b bs [? ?] ? IH]; [done|]. cbn [bytes_value length foldr].
  replace (8 * S (length bs))%nat with (8 + 8 * length bs)%nat by lia. rewrite count_add, <- IH.
  replace (b + 256 * bytes_value bs) with (bytes_value bs * 2 ^ 8 + b) by lia.
  rewrite <- lor_shiftl_add by lia. f_equal; apply count_ext; intros i Hi; rewrite Z.lor_spec.
  - by rewrite Z.shiftl_spec_low by lia.
  - rewrite Z.shiftl_spec, (testbit_small b 8) by lia. rewrite orb_false_r. f_equal. lia.
Qed.

(** The eight bytes of a cell. *)
Lemma cell_bytes x : is_cell x → ∃ bs, length bs = 8%nat ∧ Forall byte_ok bs ∧ bytes_value bs = x.
Proof.
  intros Hx. unfold is_cell in Hx.
  assert (∀ n x, 0 ≤ x < 256 ^ Z.of_nat n → ∃ bs, length bs = n ∧ Forall byte_ok bs ∧ bytes_value bs = x) as H.
  { clear x Hx. induction n as [|n IH]; intros x Hx; [exists []; cbn in *; split_and!; [done|done|lia]|].
    rewrite Nat2Z.inj_succ, Z.pow_succ_r in Hx by lia.
    destruct (IH (x / 256)) as (bs & Hl & Hok & Hv);
      [split; [apply Z.div_pos; lia|apply Z.div_lt_upper_bound; lia]|].
    exists (x mod 256 :: bs). cbn [length bytes_value]. rewrite Hv.
    split_and!; [lia|constructor; [unfold byte_ok; dlia|done]|dlia]. }
  apply (H 8%nat). done.
Qed.

(** The multiplication by [0x0101010101010101] adds the bytes up in the highest
    one. *)
Lemma byte_sum c0 c1 c2 c3 c4 c5 c6 c7 :
  0 ≤ c0 ≤ 8 → 0 ≤ c1 ≤ 8 → 0 ≤ c2 ≤ 8 → 0 ≤ c3 ≤ 8 →
  0 ≤ c4 ≤ 8 → 0 ≤ c5 ≤ 8 → 0 ≤ c6 ≤ 8 → 0 ≤ c7 ≤ 8 →
  bytes_value [c0; c1; c2; c3; c4; c5; c6; c7] *& 0x0101010101010101 / 2 ^ 56 =
    c0 + (c1 + (c2 + (c3 + (c4 + (c5 + (c6 + (c7 + 0))))))).
Proof.
  intros. unfold u64. cbn [bytes_value].
  set (low := bytes_value [c0; c0 + c1; c0 + c1 + c2; c0 + c1 + c2 + c3; c0 + c1 + c2 + c3 + c4;
    c0 + c1 + c2 + c3 + c4 + c5; c0 + c1 + c2 + c3 + c4 + c5 + c6]).
  set (high := bytes_value [c1 + c2 + c3 + c4 + c5 + c6 + c7; c2 + c3 + c4 + c5 + c6 + c7;
    c3 + c4 + c5 + c6 + c7; c4 + c5 + c6 + c7; c5 + c6 + c7; c6 + c7; c7]).
  set (sum := c0 + (c1 + (c2 + (c3 + (c4 + (c5 + (c6 + (c7 + 0)))))))). cbn [bytes_value] in low, high.
  rewrite <- (Z.mod_unique_pos _ (2 ^ 64) high (low + 2 ^ 56 * sum)); unfold low, high, sum; [|lia..].
  symmetry. apply (Z.div_unique_pos _ _ _ low); unfold low; lia.
Qed.

(** The portable population count agrees with counting the bits one by
    one, on every 64-bit word. *)
Theorem popcount_portable_correct x : is_cell x → popcount_portable x = popcount x.
Proof.
  intros Hx. destruct (cell_bytes x Hx) as (bs & Hl & Hok & <-).
  unfold popcount. replace 64%nat with (8 * length bs)%nat by lia. rewrite popcount_bytes by done.
  unfold popcount_portable. rewrite !Z.shiftr_div_pow2 by lia.
  change (2 ^ 1) with 2. change (2 ^ 2) with 4. change (2 ^ 4) with 16.
  change 0x5555555555555555 with (bytes_value (replicate 8 0x55)).
  change 0x3333333333333333 with (bytes_value (replicate 8 0x33)).
  change 0x0f0f0f0f0f0f0f0f with (bytes_value (replicate 8 0x0f)).
  rewrite <- Hl, bytes_step1 by done.
  assert (Forall byte_ok (map byte_step1 bs)) as Hok1.
  { apply Forall_map. eapply Forall_impl; [exact Hok|]. intros b Hb. by apply byte_steps. }
  rewrite (u64_id (bytes_value (map byte_step1 bs)))
    by (apply bytes_range in Hok1; rewrite length_map, Hl in Hok1; exact Hok1).
  rewrite <- (length_map byte_step1 bs), bytes_step2 by done.
  set (bs2 := map byte_step2 (map byte_step1 bs)).
  assert (Forall (λ b, 0 ≤ b ≤ 0x44 ∧ b mod 16 ≤ 4) bs2) as Hok2.
  { unfold bs2. rewrite map_map. apply Forall_map. eapply Forall_impl; [exact Hok|]. intros b Hb.
    destruct (byte_steps b Hb) as (_ & ? & ? & _). done. }
  assert (length bs2 = 8%nat) as Hl2 by (unfold bs2; by rewrite !length_map).
  assert (0 ≤ bytes_value bs2 < 2 ^ 63) as Hr2.
  { destruct bs2 as [|? [|? [|? [|? [|? [|? [|? [|? [|? ?]]]]]]]]]; try done.
    rewrite !Forall_cons in Hok2. cbn [bytes_value]. lia. }
  rewrite (u64_id (bytes_value bs2)), (u64_id (bytes_value bs2 + _)) by (unfold is_cell; dlia).
  rewrite length_map, Hl, <- Hl2, bytes_step3 by done.
  unfold bs2. rewrite !map_map. clear bs2 Hok1 Hok2 Hl2 Hr2 Hx.
  assert (map (λ b, byte_step3 (byte_step2 (byte_step1 b))) bs =
          map (λ b, count (λ i, Z.testbit b (Z.of_nat i)) 8) bs) as ->.
  { apply map_ext_in. intros b Hb. apply list_elem_of_In in Hb. rewrite Forall_forall in Hok.
    by destruct (byte_steps b (Hok b Hb)) as (_ & _ & _ & ?). }
  destruct bs as [|b0 [|b1 [|b2 [|b3 [|b4 [|b5 [|b6 [|b7 [|? ?]]]]]]]]]; try done.
  cbn [map foldr bytes_value length].
  apply byte_sum; apply count_bounds.
Qed.

Lemma popcount_portable_correct_witness : popcount_portable 0xfedcba9876543210 = popcount 0xfedcba9876543210.
Proof. apply popcount_portable_correct. eval_side. Defined.
