(* ===== verification/MarkBits.v ===== *)
(** The mark bitmap of a heap and the forwarding table of compaction:
    vm/mark_bits.hpp.

    A heap of [mb_size] bytes at address [mb_start] is divided in lines of
    [data_alignment] bytes; [marked] has one bit for each line, 64 to a word. *)

From S2P Require Import Prelude.
From S2P Require Import Layouts.
From S2P Require Import BitwiseHacks.
Local Open Scope cell_scope.

(** * Definitions *)

(** src/vm/mark_bits.hpp:3-3 [mark_bits_granularity] *)
Definition mark_bits_granularity : Z := 8 * 8.
(** src/vm/mark_bits.hpp:4-4 [mark_bits_mask] *)
Definition mark_bits_mask : Z := 8 * 8 - 1.

(** src/vm/mark_bits.hpp:6-11 [mark_bits] (part): [bits_size] is the length of the two
    arrays. *)
Record mark_bits := mk_mark_bits {
  mb_size : Z;
  mb_start : Z;
  marked : list Z;
  forwarding : list Z
}.

Definition bits_size (mb : mark_bits) : nat := length (marked mb).

(** src/vm/mark_bits.hpp:17-25 [mark_bits] *)
Definition new_mark_bits (size start : Z) : mark_bits :=
  let bits_size := Z.to_nat (size / data_alignment / mark_bits_granularity) in
  mk_mark_bits size start (replicate bits_size 0) (replicate bits_size 0).

(** src/vm/mark_bits.hpp:13-13 [clear_mark_bits] *)
Definition clear_mark_bits (mb : mark_bits) : mark_bits :=
  mk_mark_bits (mb_size mb) (mb_start mb) (replicate (bits_size mb) 0) (forwarding mb).

(** src/vm/mark_bits.hpp:15-15 [clear_forwarding] *)
Definition clear_forwarding (mb : mark_bits) : mark_bits :=
  mk_mark_bits (mb_size mb) (mb_start mb) (marked mb) (replicate (bits_size mb) 0).

(** src/vm/mark_bits.hpp:34-36 [block_line] *)
Definition block_line (mb : mark_bits) (address : Z) : Z := (address -& mb_start mb) / data_alignment.

(** src/vm/mark_bits.hpp:38-40 [line_block] *)
Definition line_block (mb : mark_bits) (line : Z) : Z := (line *& data_alignment) +& mb_start mb.

(** src/vm/mark_bits.hpp:42-47 [bitmap_deref] *)
Definition bitmap_deref (mb : mark_bits) (address : Z) : nat * Z :=
  let line_number := block_line mb address in
  (Z.to_nat (line_number / mark_bits_granularity), Z.land line_number mark_bits_mask).

(** src/vm/mark_bits.hpp:49-52 [bitmap_elt] *)
Definition bitmap_elt (mb : mark_bits) (bits : list Z) (address : Z) : result bool :=
  let '(word_index, word_shift) := bitmap_deref mb address in
  w ← read bits word_index;
  Ok (negb (Z.land w (1 <<& word_shift) =? 0)).

(** src/vm/mark_bits.hpp:67-68 [set_bitmap_range] (part):
    The loop that sets whole words, [n] of them from [index] on. *)
Fixpoint fill_words (bits : list Z) (index n : nat) : result (list Z) :=
  match n with
  | 0%nat => Ok bits
  | S n' => bits ← write bits index (u64 (-1)); fill_words bits (S index) n'
  end.

(** src/vm/mark_bits.hpp:54-75 [set_bitmap_range] *)
Definition set_bitmap_range (mb : mark_bits) (bits : list Z) (address size : Z) : result (list Z) :=
  let '(start_first, start_second) := bitmap_deref mb address in
  let '(end_first, end_second) := bitmap_deref mb (address +& size) in
  let start_mask := (1 <<& start_second) -& 1 in
  let end_mask := (1 <<& end_second) -& 1 in
  if (start_first =? end_first)%nat then
    w ← read bits start_first;
    write bits start_first (Z.lor w (Z.lxor start_mask end_mask))
  else
    check (start_first <? bits_size mb)%nat ≫= λ _,
    w ← read bits start_first;
    bits ← write bits start_first (Z.lor w (u64 (Z.lnot start_mask)));
    bits ← fill_words bits (S start_first) (end_first - S start_first);
    if negb (end_mask =? 0) then
      check (end_first <? bits_size mb)%nat ≫= λ _,
      w ← read bits end_first;
      write bits end_first (Z.lor w end_mask)
    else Ok bits.

(** src/vm/mark_bits.hpp:77-77 [marked_p] *)
Definition marked_p (mb : mark_bits) (address : Z) : result bool := bitmap_elt mb (marked mb) address.

(** src/vm/mark_bits.hpp:79-81 [set_marked_p] *)
Definition set_marked_p (mb : mark_bits) (address size : Z) : result mark_bits :=
  bits ← set_bitmap_range mb (marked mb) address size;
  Ok (mk_mark_bits (mb_size mb) (mb_start mb) bits (forwarding mb)).

(** src/vm/mark_bits.hpp:87-90 [compute_forwarding] (part):
    The loop of [compute_forwarding]. *)
Fixpoint forwarding_loop (ws : list Z) (accum : Z) : list Z :=
  match ws with
  | [] => []
  | w :: ws' => accum :: forwarding_loop ws' (accum +& popcount w)
  end.

(** src/vm/mark_bits.hpp:83-91 [compute_forwarding] *)
Definition compute_forwarding (mb : mark_bits) : mark_bits :=
  mk_mark_bits (mb_size mb) (mb_start mb) (marked mb) (forwarding_loop (marked mb) 0).

(** src/vm/mark_bits.hpp:93-108 [forward_block] *)
Definition forward_block (mb : mark_bits) (original : Z) : result Z :=
  m ← marked_p mb original;
  check m ≫= λ _,
  let '(position_first, position_second) := bitmap_deref mb original in
  let offset := Z.land original (data_alignment - 1) in
  approx_popcount ← read (forwarding mb) position_first;
  let mask := (1 <<& position_second) -& 1 in
  w ← read (marked mb) position_first;
  let new_line_number := approx_popcount +& popcount (Z.land w mask) in
  let new_block := line_block mb new_line_number +& offset in
  check (new_block <=? original) ≫= λ _,
  Ok new_block.

(** src/vm/mark_bits.hpp:114-124 [next_unmarked_block_after] (part):
    The loops that look for the next clear or set bit, over the words from
    [index] on. *)
Fixpoint next_unmarked_loop (mb : mark_bits) (ws : list Z) (index : nat) (bit_index : Z) : Z :=
  match ws with
  | [] => mb_start mb +& mb_size mb
  | w :: ws' =>
      let mask := u64 (Z.shiftr (s64 w) bit_index) in
      if negb (u64 (Z.lnot mask) =? 0) then
        let clear_bit := rightmost_clear_bit mask in
        line_block mb ((Z.of_nat index *& mark_bits_granularity) +& bit_index +& clear_bit)
      else next_unmarked_loop mb ws' (S index) 0
  end.

(** src/vm/mark_bits.hpp:134-143 [next_marked_block_after] (part) *)
Fixpoint next_marked_loop (mb : mark_bits) (ws : list Z) (index : nat) (bit_index : Z) : Z :=
  match ws with
  | [] => mb_start mb +& mb_size mb
  | w :: ws' =>
      let mask := Z.shiftr w bit_index in
      if negb (mask =? 0) then
        let set_bit := rightmost_set_bit mask in
        line_block mb ((Z.of_nat index *& mark_bits_granularity) +& bit_index +& set_bit)
      else next_marked_loop mb ws' (S index) 0
  end.

(** src/vm/mark_bits.hpp:110-128 [next_unmarked_block_after] *)
Definition next_unmarked_block_after (mb : mark_bits) (original : Z) : Z :=
  let '(position_first, bit_index) := bitmap_deref mb original in
  next_unmarked_loop mb (drop position_first (marked mb)) position_first bit_index.

(** src/vm/mark_bits.hpp:130-147 [next_marked_block_after] *)
Definition next_marked_block_after (mb : mark_bits) (original : Z) : Z :=
  let '(position_first, bit_index) := bitmap_deref mb original in
  next_marked_loop mb (drop position_first (marked mb)) position_first bit_index.

(** src/vm/mark_bits.hpp:149-152 [unmarked_block_size] *)
Definition unmarked_block_size (mb : mark_bits) (original : Z) : Z :=
  next_marked_block_after mb original -& original.

(** * The set of marked lines *)

(** Bit [i] of a bitmap. *)
Definition bit (ws : list Z) (i : nat) : bool :=
  match ws !! (i / 64)%nat with Some w => Z.testbit w (Z.of_nat (i mod 64)) | None => false end.

(** A heap whose size is a whole number of words of lines. *)
Record mark_bits_ok (mb : mark_bits) : Prop := {
  mb_start_cell : is_cell (mb_start mb);
  mb_size_eq : mb_size mb = 1024 * Z.of_nat (bits_size mb);
  mb_end : mb_start mb + mb_size mb < 2 ^ 64;
  mb_aligned : mb_start mb mod data_alignment = 0;
  mb_words : Forall is_cell (marked mb)
}.

(** The address of a line. *)
Definition line_address (mb : mark_bits) (i : nat) : Z := mb_start mb + 16 * Z.of_nat i.

Definition lines (mb : mark_bits) : nat := (64 * bits_size mb)%nat.

Lemma bit_cons_lo w ws i : (i < 64)%nat → bit (w :: ws) i = Z.testbit w (Z.of_nat i).
Proof. intros Hi. unfold bit. by rewrite Nat.div_small, Nat.mod_small. Qed.

Lemma bit_cons_hi w ws i : bit (w :: ws) (64 + i) = bit ws i.
Proof.
  unfold bit. replace (64 + i)%nat with (i + 1 * 64)%nat by lia.
  rewrite Nat.div_add, Nat.Div0.mod_add by lia. by rewrite Nat.add_1_r.
Qed.

Lemma bit_drop ws k i : bit (drop k ws) i = bit ws (64 * k + i).
Proof.
  unfold bit. rewrite lookup_drop. replace (64 * k + i)%nat with (i + k * 64)%nat by lia.
  rewrite Nat.div_add, Nat.Div0.mod_add by lia. by rewrite Nat.add_comm.
Qed.

Lemma bit_ge ws i : (64 * length ws ≤ i)%nat → bit ws i = false.
Proof.
  intros Hi. unfold bit. rewrite lookup_ge_None_2; [done|].
  apply Nat.div_le_lower_bound; lia.
Qed.

(** Any bitmap word is a cell. *)
Lemma word_cell ws k w : Forall is_cell ws → ws !! k = Some w → is_cell w.
Proof. intros H Hk. rewrite Forall_lookup in H. eauto. Qed.

Section addresses.
Context (mb : mark_bits) (Hmb : mark_bits_ok mb).

Lemma line_block_eq i : (i ≤ lines mb)%nat → line_block mb (Z.of_nat i) = line_address mb i.
Proof using Hmb.
  intros Hi. destruct Hmb as [Hs Hsz He _ _]. unfold line_block, line_address, lines, data_alignment, is_cell in *.
  rewrite (u64_id (_ * 16)) by (unfold is_cell; lia). rewrite u64_id by (unfold is_cell; lia). lia.
Qed.

Lemma block_line_eq i off :
  (i ≤ lines mb)%nat → 0 ≤ off < 16 → line_address mb i + off < 2 ^ 64 →
  block_line mb (line_address mb i + off) = Z.of_nat i.
Proof using Hmb.
  intros Hi Ho Hfit. destruct Hmb as [Hs Hsz He _ _]. unfold block_line, line_address, lines, data_alignment, is_cell in *.
  rewrite u64_id by (unfold is_cell; lia). dlia.
Qed.

Lemma bitmap_deref_eq i off :
  (i ≤ lines mb)%nat → 0 ≤ off < 16 → line_address mb i + off < 2 ^ 64 →
  bitmap_deref mb (line_address mb i + off) = ((i / 64)%nat, Z.of_nat (i mod 64)).
Proof using Hmb.
  intros Hi Ho Hfit. unfold bitmap_deref. rewrite block_line_eq by done.
  unfold mark_bits_granularity, mark_bits_mask. change (8 * 8 - 1) with (2 ^ 6 - 1).
  rewrite land_ones_mod by lia. change (8 * 8) with (Z.of_nat 64). change (2 ^ 6) with (Z.of_nat 64).
  by rewrite <- Nat2Z.inj_div, Nat2Z.id, <- Nat2Z.inj_mod.
Qed.

Lemma line_address_fits i off : (i < lines mb)%nat → 0 ≤ off < 16 → line_address mb i + off < 2 ^ 64.
Proof using Hmb. intros Hi Ho. destruct Hmb as [_ Hsz He _ _]. unfold line_address, lines in *. lia. Qed.

Lemma line_address_end i : (i ≤ lines mb)%nat → line_address mb i + 0 < 2 ^ 64.
Proof using Hmb. intros Hi. destruct Hmb as [_ Hsz He _ _]. unfold line_address, lines in *. lia. Qed.

Lemma bitmap_deref_line i :
  (i ≤ lines mb)%nat → bitmap_deref mb (line_address mb i) = ((i / 64)%nat, Z.of_nat (i mod 64)).
Proof using Hmb.
  intros Hi. rewrite <- (Z.add_0_r (line_address mb i)).
  apply bitmap_deref_eq; [done|lia|by apply line_address_end].
Qed.
End addresses.

(** The mask of the low [s] bits. *)
Lemma low_mask s : 0 ≤ s < 64 → (1 <<& s) -& 1 = 2 ^ s - 1.
Proof.
  intros Hs. assert (0 < 2 ^ s) by (apply Z.pow_pos_nonneg; lia).
  assert (2 ^ s < 2 ^ 64) by (apply Z.pow_lt_mono_r; lia).
  rewrite Z.shiftl_1_l, (u64_id (2 ^ s)), u64_id by (unfold is_cell; lia). done.
Qed.

Lemma low_mask_testbit s i : 0 ≤ s → 0 ≤ i → Z.testbit (2 ^ s - 1) i = (i <? s).
Proof.
  intros Hs Hi. replace (2 ^ s - 1) with (Z.ones s) by (rewrite Z.ones_equiv; lia).
  destruct (Z.ltb_spec i s); [by apply Z.ones_spec_low|by apply Z.ones_spec_high].
Qed.

Lemma div_mod_64 i : (i = 64 * (i / 64) + i mod 64 ∧ i mod 64 < 64)%nat.
Proof. split; [apply Nat.div_mod_eq|apply Nat.mod_upper_bound; lia]. Qed.

Lemma bit_insert ws k w i :
  (k < length ws)%nat →
  bit (<[k := w]> ws) i = if (i / 64 =? k)%nat then Z.testbit w (Z.of_nat (i mod 64)) else bit ws i.
Proof.
  intros Hk. unfold bit. destruct (Nat.eqb_spec (i / 64) k) as [E|E].
  - by rewrite E, list_lookup_insert_eq.
  - by rewrite list_lookup_insert_ne.
Qed.

Lemma bit_lookup ws k w i : ws !! k = Some w → (i / 64)%nat = k → bit ws i = Z.testbit w (Z.of_nat (i mod 64)).
Proof. intros Hw <-. unfold bit. by rewrite Hw. Qed.

Lemma fill_words_spec n : ∀ bits index,
  (index + n ≤ length bits)%nat → Forall is_cell bits →
  ∃ bits', fill_words bits index n = Ok bits' ∧ length bits' = length bits ∧ Forall is_cell bits' ∧
    ∀ i, bit bits' i = bit bits i || ((index <=? i / 64)%nat && (i / 64 <? index + n)%nat).
Proof.
  induction n as [|n IH]; intros bits index Hl Hc; cbn [fill_words].
  { exists bits. split_and!; try done. intros i.
    destruct (Nat.leb_spec index (i / 64)), (Nat.ltb_spec (i / 64) (index + 0)); try lia; by rewrite orb_false_r. }
  rewrite write_Ok, result_bind_ok by lia.
  destruct (IH (<[index := u64 (-1)]> bits) (S index)) as (bits' & -> & Hl' & Hc' & Hb).
  { rewrite length_insert. lia. }
  { apply Forall_insert; [done|]. apply u64_range. }
  rewrite length_insert in Hl'. exists bits'. split_and!; try done. intros i. rewrite Hb, bit_insert by lia.
  destruct (div_mod_64 i) as [_ Hm].
  destruct (Nat.eqb_spec (i / 64) index) as [E|E].
  - change (u64 (-1)) with (2 ^ 64 - 1). rewrite low_mask_testbit by lia.
    destruct (Z.ltb_spec (Z.of_nat (i mod 64)) 64); [|lia]. rewrite E. cbn [orb].
    destruct (Nat.leb_spec index index), (Nat.ltb_spec index (index + S n)); try lia; by rewrite orb_true_r.
  - f_equal. destruct (Nat.leb_spec (S index) (i / 64)), (Nat.ltb_spec (i / 64) (S index + n)),
      (Nat.leb_spec index (i / 64)), (Nat.ltb_spec (i / 64) (index + S n)); (done || lia).
Qed.

Lemma is_cell_lor a b : is_cell a → is_cell b → is_cell (Z.lor a b).
Proof.
  unfold is_cell. intros Ha Hb. split; [apply Z.lor_nonneg; lia|].
  destruct (decide (Z.lor a b = 0)) as [->|Hne]; [lia|].
  assert (0 < Z.lor a b) by (assert (0 ≤ Z.lor a b) by (apply Z.lor_nonneg; lia); lia).
  apply Z.log2_lt_pow2; [done|]. rewrite Z.log2_lor by lia.
  assert (∀ z, 0 ≤ z < 2 ^ 64 → Z.log2 z < 64) as Hlog.
  { intros z Hz. destruct (decide (z = 0)) as [->|]; [done|]. apply Z.log2_lt_pow2; lia. }
  pose proof (Hlog a Ha). pose proof (Hlog b Hb). lia.
Qed.

(** The bits a whole range sets, word by word. *)
Definition in_range (l n i : nat) : bool := (l <=? i)%nat && (i <? l + n)%nat.

Ltac nat_cases :=
  repeat match goal with
  | |- context [(?a <=? ?b)%nat] => destruct (Nat.leb_spec a b)
  | |- context [(?a <? ?b)%nat] => destruct (Nat.ltb_spec a b)
  | |- context [?a <? ?b] => destruct (Z.ltb_spec a b)
  end; cbn [andb orb xorb negb]; rewrite ?orb_true_r, ?orb_false_r; (done || lia).

Lemma low_mask_cell s : 0 ≤ s < 64 → is_cell (2 ^ s - 1).
Proof.
  intros Hs. unfold is_cell. assert (0 < 2 ^ s) by (apply Z.pow_pos_nonneg; lia).
  assert (2 ^ s < 2 ^ 64) by (apply Z.pow_lt_mono_r; lia). lia.
Qed.

Lemma lnot_testbit x i : 0 ≤ i < 64 → Z.testbit (u64 (Z.lnot x)) i = negb (Z.testbit x i).
Proof. intros Hi. unfold u64. rewrite Z.mod_pow2_bits_low, Z.lnot_spec by lia. done. Qed.

Lemma is_cell_lxor_masks s e : 0 ≤ s < 64 → 0 ≤ e < 64 → is_cell (Z.lxor (2 ^ s - 1) (2 ^ e - 1)).
Proof.
  intros Hs He. replace (Z.lxor (2 ^ s - 1) (2 ^ e - 1)) with (u64 (Z.lxor (2 ^ s - 1) (2 ^ e - 1))); [apply u64_range|].
  unfold u64. apply Z.bits_inj'. intros i Hi. destruct (decide (i < 64)).
  - by rewrite Z.mod_pow2_bits_low by lia.
  - rewrite Z.mod_pow2_bits_high, Z.lxor_spec, !low_mask_testbit by lia.
    destruct (Z.ltb_spec i s), (Z.ltb_spec i e); (done || lia).
Qed.

Lemma set_bitmap_range_spec mb bits l n :
  mark_bits_ok mb → length bits = bits_size mb → Forall is_cell bits →
  (0 < n)%nat → (l + n ≤ lines mb)%nat →
  ∃ bits', set_bitmap_range mb bits (line_address mb l) (16 * Z.of_nat n) = Ok bits' ∧
    length bits' = length bits ∧ Forall is_cell bits' ∧
    ∀ i, bit bits' i = bit bits i || in_range l n i.
Proof.
  intros Hmb Hlen Hc Hn Hfit. unfold set_bitmap_range.
  rewrite (bitmap_deref_line mb Hmb l) by lia.
  assert (u64 (line_address mb l + 16 * Z.of_nat n) = line_address mb (l + n)) as ->.
  { rewrite u64_id; [unfold line_address; lia|]. pose proof (line_address_end mb Hmb (l + n) Hfit).
    destruct Hmb as [Hs _ _ _ _]. unfold line_address, is_cell in *. lia. }
  rewrite (bitmap_deref_line mb Hmb (l + n)) by lia.
  destruct (div_mod_64 l) as [El Hl]. destruct (div_mod_64 (l + n)) as [Ee He].
  set (sf := (l / 64)%nat) in *. set (ss := (l mod 64)%nat) in *.
  set (ef := ((l + n) / 64)%nat) in *. set (es := ((l + n) mod 64)%nat) in *.
  rewrite !low_mask by lia. unfold lines in Hfit.
  assert (sf < length bits)%nat as Hsf by lia.
  destruct (lookup_lt_is_Some_2 bits sf Hsf) as [w Hw].
  pose proof (word_cell _ _ _ Hc Hw) as Hwc.
  destruct (Nat.eqb_spec sf ef) as [E|E].
  - rewrite (proj2 (read_Ok _ _ _) Hw), result_bind_ok, write_Ok by done.
    eexists; split_and!; [done|by rewrite length_insert| |].
    { apply Forall_insert; [done|]. apply is_cell_lor; [done|]. apply is_cell_lxor_masks; lia. }
    intros i. rewrite bit_insert by done. destruct (div_mod_64 i) as [Ei Hi]. unfold in_range.
    destruct (Nat.eqb_spec (i / 64) sf) as [Ek|Ek].
    + rewrite (bit_lookup bits sf w i Hw Ek), Z.lor_spec, Z.lxor_spec, !low_mask_testbit by lia.
      f_equal. nat_cases.
    + nat_cases.
  - rewrite (proj2 (Nat.ltb_lt sf (bits_size mb))) by lia. rewrite check_true, result_bind_ok.
    rewrite (proj2 (read_Ok _ _ _) Hw), result_bind_ok, write_Ok, result_bind_ok by done.
    destruct (fill_words_spec (ef - S sf) (<[sf := Z.lor w (u64 (Z.lnot (2 ^ Z.of_nat ss - 1)))]> bits) (S sf))
      as (bits' & -> & Hl' & Hc' & Hb); [rewrite length_insert; lia| |].
    { apply Forall_insert; [done|]. apply is_cell_lor; [done|apply u64_range]. }
    rewrite result_bind_ok. rewrite length_insert in Hl'.
    assert (∀ i, bit bits' i = bit bits i || in_range l (64 * ef - l) i) as Hb'.
    { intros i. rewrite Hb, bit_insert by done. destruct (div_mod_64 i) as [Ei Hi]. unfold in_range.
      destruct (Nat.eqb_spec (i / 64) sf) as [Ek|Ek].
      - rewrite (bit_lookup bits sf w i Hw Ek), Z.lor_spec, lnot_testbit, low_mask_testbit by lia. nat_cases.
      - f_equal. nat_cases. }
    clear Hb. destruct (Z.eqb_spec (2 ^ Z.of_nat es - 1) 0) as [E0|E0]; cbn [negb].
    + assert (es = 0%nat) as Hes0.
      { destruct (decide (es = 0%nat)); [done|].
        assert (2 ^ 1 ≤ 2 ^ Z.of_nat es) by (apply Z.pow_le_mono_r; lia). lia. }
      exists bits'. split_and!; [done|done|done|]. intros i. rewrite Hb'. unfold in_range. f_equal. nat_cases.
    + assert (es ≠ 0%nat) as Hes0 by (intros Hz; rewrite Hz in E0; done).
      rewrite (proj2 (Nat.ltb_lt ef (bits_size mb))) by lia. rewrite check_true, result_bind_ok.
      destruct (lookup_lt_is_Some_2 bits' ef) as [w' Hw']; [lia|]. rewrite (proj2 (read_Ok _ _ _) Hw'), result_bind_ok, write_Ok by lia.
      eexists; split_and!; [done|by rewrite length_insert| |].
      { apply Forall_insert; [done|]. apply is_cell_lor; [by eapply word_cell|apply low_mask_cell; lia]. }
      intros i. rewrite bit_insert by lia. destruct (div_mod_64 i) as [Ei Hi]. unfold in_range in *.
      destruct (Nat.eqb_spec (i / 64) ef) as [Ek|Ek].
      * rewrite Z.lor_spec, low_mask_testbit, <- (bit_lookup bits' ef w' i Hw' Ek), Hb' by lia.
        rewrite <- orb_assoc. f_equal. nat_cases.
      * rewrite Hb'. f_equal. nat_cases.
Qed.

(** * Forwarding addresses *)

Lemma count_bit_cons w ws m : count (bit (w :: ws)) (64 + m) = popcount w + count (bit ws) m.
Proof.
  rewrite count_add. unfold popcount.
  rewrite (count_ext (bit (w :: ws)) (λ i, Z.testbit w (Z.of_nat i)) 64) by (intros; by apply bit_cons_lo).
  rewrite (count_ext (λ i, bit (w :: ws) (64 + i)%nat) (bit ws) m) by (intros; apply bit_cons_hi).
  reflexivity.
Qed.

Lemma forwarding_loop_spec ws : ∀ accum k,
  0 ≤ accum → accum + 64 * Z.of_nat (length ws) < 2 ^ 64 → (k < length ws)%nat →
  forwarding_loop ws accum !! k = Some (accum + count (bit ws) (64 * k)).
Proof.
  induction ws as [|w ws IH]; intros accum k Ha Hfit Hk; [cbn in Hk; lia|]. cbn [forwarding_loop length] in *.
  pose proof (popcount_bounds w) as Hc.
  destruct k as [|k]; [cbn; f_equal; lia|]. cbn [lookup list_lookup].
  rewrite u64_id by (unfold is_cell; lia). rewrite IH by lia. f_equal.
  replace (64 * S k)%nat with (64 + 64 * k)%nat by lia. rewrite count_bit_cons. lia.
Qed.

Lemma count_bit_word ws k w s :
  ws !! k = Some w → (s ≤ 64)%nat →
  count (bit ws) (64 * k + s) = count (bit ws) (64 * k) + popcount (Z.land w (2 ^ Z.of_nat s - 1)).
Proof.
  intros Hw Hs. rewrite count_add, popcount_land_ones by done. f_equal. apply count_ext. intros i Hi.
  rewrite <- bit_drop. rewrite (drop_S _ _ _ Hw). apply bit_cons_lo. lia.
Qed.

Lemma bitmap_elt_spec mb bits i off :
  mark_bits_ok mb → length bits = bits_size mb → (i < lines mb)%nat → 0 ≤ off < 16 →
  bitmap_elt mb bits (line_address mb i + off) = Ok (bit bits i).
Proof.
  intros Hmb Hl Hi Ho. unfold bitmap_elt.
  rewrite (bitmap_deref_eq mb Hmb) by (try apply (line_address_fits mb Hmb); lia || done).
  destruct (div_mod_64 i) as [Ei Hm]. unfold lines in Hi.
  destruct (lookup_lt_is_Some_2 bits (i / 64)) as [w Hw]; [lia|].
  rewrite (proj2 (read_Ok _ _ _) Hw), result_bind_ok, (bit_lookup bits _ w i Hw) by done.
  assert (2 ^ Z.of_nat (i mod 64) < 2 ^ 64) by (apply Z.pow_lt_mono_r; lia).
  assert (0 < 2 ^ Z.of_nat (i mod 64)) by (apply Z.pow_pos_nonneg; lia).
  rewrite Z.shiftl_1_l, u64_id by (unfold is_cell; lia). by rewrite land_pow2_nonzero by lia.
Qed.

(** The number of marked lines before line [i]. *)
Definition rank (mb : mark_bits) (i : nat) : Z := count (bit (marked mb)) i.

Lemma rank_bounds mb i : 0 ≤ rank mb i ≤ Z.of_nat i.
Proof. apply count_bounds. Qed.

Lemma forward_block_spec mb i off :
  mark_bits_ok mb → forwarding mb = forwarding_loop (marked mb) 0 →
  (i < lines mb)%nat → bit (marked mb) i = true → 0 ≤ off < 16 →
  forward_block mb (line_address mb i + off) = Ok (mb_start mb + 16 * rank mb i + off).
Proof.
  intros Hmb Hf Hi Hbit Ho. unfold forward_block, marked_p.
  rewrite bitmap_elt_spec, Hbit by done. rewrite result_bind_ok, check_true, result_bind_ok.
  rewrite (bitmap_deref_eq mb Hmb) by (try apply (line_address_fits mb Hmb); lia || done).
  destruct (div_mod_64 i) as [Ei Hm]. pose proof Hmb as [Hs Hsz He Hal Hw]. unfold lines, bits_size, is_cell in *.
  destruct (lookup_lt_is_Some_2 (marked mb) (i / 64)) as [w Hw']; [lia|].
  rewrite Hf, (proj2 (read_Ok _ _ _) (forwarding_loop_spec (marked mb) 0 (i / 64) ltac:(lia) ltac:(lia) ltac:(lia))).
  rewrite result_bind_ok, (proj2 (read_Ok _ _ _) Hw'), result_bind_ok, low_mask by lia.
  rewrite Z.add_0_l, <- (count_bit_word (marked mb) (i / 64) w (i mod 64) Hw') by lia.
  rewrite <- Ei. pose proof (rank_bounds mb i) as Hr. change (count (bit (marked mb)) i) with (rank mb i).
  assert (Z.land (line_address mb i + off) (data_alignment - 1) = off) as ->.
  { change (data_alignment - 1) with (2 ^ 4 - 1). rewrite land_ones_mod by lia. change (2 ^ 4) with 16.
    unfold line_address. unfold data_alignment in Hal. dlia. }
  unfold line_block, data_alignment, line_address, is_cell in *.
  rewrite (u64_id (rank mb i)), (u64_id (rank mb i * 16)), (u64_id (rank mb i * 16 + _)), u64_id
    by (unfold is_cell; lia).
  destruct (Z.leb_spec (rank mb i * 16 + mb_start mb + off) (mb_start mb + 16 * Z.of_nat i + off)); [|lia].
  cbn. f_equal. lia.
Qed.

(** * The next line with a given mark *)

Lemma testbit_shiftr_cell w b i : 0 ≤ b → 0 ≤ i → Z.testbit (Z.shiftr w b) i = Z.testbit w (i + b).
Proof. intros. by rewrite Z.shiftr_spec. Qed.

(** The result of a search from line [i]: the first line at or after [i]
    whose mark is [v], or the end of the heap. *)
Definition first_line (mb : mark_bits) (v : bool) (i : nat) (address : Z) : Prop :=
  ∃ j, (i ≤ j ≤ lines mb)%nat ∧ address = line_address mb j ∧
    (∀ k, (i ≤ k < j)%nat → bit (marked mb) k = negb v) ∧
    ((j < lines mb)%nat → bit (marked mb) j = v).

Lemma line_of_bit mb index b s :
  mark_bits_ok mb → 0 ≤ b → 0 ≤ s → b + s < 64 → (index < bits_size mb)%nat →
  line_block mb ((Z.of_nat index *& mark_bits_granularity) +& b +& s) =
    line_address mb (64 * index + Z.to_nat (b + s)).
Proof.
  intros Hmb Hb Hs Hbs Hi. pose proof Hmb as [Hst Hsz He _ _]. unfold is_cell in Hst.
  change mark_bits_granularity with 64.
  rewrite (u64_id (Z.of_nat index * 64)), (u64_id (_ + b)), (u64_id (_ + s)) by (unfold is_cell; lia).
  replace (Z.of_nat index * 64 + b + s) with (Z.of_nat (64 * index + Z.to_nat (b + s))) by lia.
  apply line_block_eq; [done|]. unfold lines. lia.
Qed.

(** One step of either search: the word at [index] has no line with mark [v]
    from bit [b] on, so the search goes on in the next word. *)
Lemma first_line_skip mb v index b address :
  (index < bits_size mb)%nat → (b ≤ 64)%nat →
  (∀ k, (b ≤ k < 64)%nat → bit (marked mb) (64 * index + k) = negb v) →
  first_line mb v (64 * S index) address → first_line mb v (64 * index + b) address.
Proof.
  intros Hi Hb Hskip (j & Hj & -> & Hno & Hyes). exists j. split_and!; [lia|lia|done| |done].
  intros k Hk. destruct (decide (64 * S index ≤ k)%nat); [apply Hno; lia|].
  replace k with (64 * index + (k - 64 * index))%nat by lia. apply Hskip. lia.
Qed.

Lemma drop_cons_inv {A} (l : list A) k w ws :
  drop k l = w :: ws → l !! k = Some w ∧ drop (S k) l = ws.
Proof.
  intros Hd. assert (l !! k = Some w) as Hw by (by rewrite <- (Nat.add_0_r k), <- lookup_drop, Hd).
  split; [done|]. rewrite (drop_S _ _ _ Hw) in Hd. by injection Hd.
Qed.

Lemma first_line_end mb v : mark_bits_ok mb → first_line mb v (lines mb) (mb_start mb +& mb_size mb).
Proof.
  intros [Hs Hsz He _ _]. exists (lines mb). split_and!; [lia|lia| |lia|lia].
  unfold is_cell, line_address, lines in *. rewrite u64_id by (unfold is_cell; lia). lia.
Qed.

Lemma next_marked_loop_spec mb ws : ∀ index b,
  mark_bits_ok mb → drop index (marked mb) = ws → (index + length ws = bits_size mb)%nat → 0 ≤ b < 64 →
  first_line mb true (64 * index + Z.to_nat b) (next_marked_loop mb ws index b) ∨ ws = [].
Proof.
  induction ws as [|w ws IH]; intros index b Hmb Hd Hl Hb; [by right|left]. cbn [next_marked_loop length] in *.
  destruct (drop_cons_inv _ _ _ _ Hd) as [Hw Hd'].
  assert (is_cell w) as Hwc by (eapply word_cell; [apply Hmb|done]).
  assert (∀ k, (k < 64)%nat → bit (marked mb) (64 * index + k) = Z.testbit w (Z.of_nat k)) as Hbit.
  { intros k Hk. rewrite <- bit_drop, Hd. by apply bit_cons_lo. }
  assert (is_cell (Z.shiftr w b)) as Hmc.
  { unfold is_cell in *. rewrite Z.shiftr_div_pow2 by lia. assert (0 < 2 ^ b) by (apply Z.pow_pos_nonneg; lia).
    split; [apply Z.div_pos; lia|]. apply Z.div_lt_upper_bound; nia. }
  destruct (Z.eqb_spec (Z.shiftr w b) 0) as [E|E]; cbn [negb].
  - apply first_line_skip; [lia|lia| |].
    { intros k Hk. rewrite Hbit by lia. replace (Z.of_nat k) with ((Z.of_nat k - b) + b) by lia.
      rewrite <- testbit_shiftr_cell, E by lia. apply Z.testbit_0_l. }
    destruct (IH (S index) 0 Hmb Hd') as [H|Hnil]; [lia|lia| |].
    + by rewrite Nat.add_0_r in H.
    + rewrite Hnil in *. cbn [next_marked_loop length] in *.
      replace (64 * S index)%nat with (lines mb) by (unfold lines; lia). by apply first_line_end.
  - destruct (rightmost_set_bit_spec (Z.shiftr w b) Hmc E) as (Hr & Ht & Hlow).
    set (s := rightmost_set_bit (Z.shiftr w b)) in *. rewrite testbit_shiftr_cell in Ht by lia.
    assert (s + b < 64) as Hsb.
    { destruct (decide (s + b < 64)); [done|]. unfold is_cell in Hwc. rewrite (testbit_small w 64) in Ht by lia. done. }
    rewrite line_of_bit by (done || lia). exists (64 * index + Z.to_nat (b + s))%nat. unfold lines.
    split_and!; [lia|lia|done| |].
    + intros k Hk. replace k with (64 * index + (k - 64 * index))%nat by lia. rewrite Hbit by lia.
      replace (Z.of_nat (k - 64 * index)) with ((Z.of_nat (k - 64 * index) - b) + b) by lia.
      rewrite <- testbit_shiftr_cell by lia. apply Hlow. lia.
    + intros _. rewrite Hbit by lia. rewrite Z2Nat.id by lia. by rewrite Z.add_comm.
Qed.

(** The arithmetic shift repeats the top bit. *)
Lemma arithmetic_shift_bits w b i :
  is_cell w → 0 ≤ b < 64 → 0 ≤ i < 64 →
  Z.testbit (u64 (Z.shiftr (s64 w) b)) i = Z.testbit w (Z.min (i + b) 63).
Proof.
  unfold is_cell. intros Hw Hb Hi. unfold u64. rewrite Z.mod_pow2_bits_low, Z.shiftr_spec by lia.
  destruct (decide (i + b < 64)).
  { rewrite Z.min_l by lia.
    rewrite <- (Z.mod_pow2_bits_low (s64 w) 64), s64_mod, Z.mod_pow2_bits_low by lia. done. }
  rewrite Z.min_r by lia. destruct (decide (2 ^ 63 ≤ w)).
  - assert (s64 w = Z.lnot (2 ^ 64 - 1 - w)) as -> by (unfold s64, Z.lnot; dlia).
    rewrite Z.lnot_spec, (testbit_small (2 ^ 64 - 1 - w) 63) by lia.
    rewrite Z.testbit_odd, Z.shiftr_div_pow2 by lia. by replace (w / 2 ^ 63) with 1 by dlia.
  - rewrite s64_id by (unfold is_fixnum; lia). by rewrite !(testbit_small w 63) by lia.
Qed.

Lemma next_unmarked_loop_spec mb ws : ∀ index b,
  mark_bits_ok mb → drop index (marked mb) = ws → (index + length ws = bits_size mb)%nat → 0 ≤ b < 64 →
  first_line mb false (64 * index + Z.to_nat b) (next_unmarked_loop mb ws index b) ∨ ws = [].
Proof.
  induction ws as [|w ws IH]; intros index b Hmb Hd Hl Hb; [by right|left]. cbn [next_unmarked_loop length] in *.
  destruct (drop_cons_inv _ _ _ _ Hd) as [Hw Hd'].
  assert (is_cell w) as Hwc by (eapply word_cell; [apply Hmb|done]).
  assert (∀ k, (k < 64)%nat → bit (marked mb) (64 * index + k) = Z.testbit w (Z.of_nat k)) as Hbit.
  { intros k Hk. rewrite <- bit_drop, Hd. by apply bit_cons_lo. }
  set (mask := u64 (Z.shiftr (s64 w) b)). pose proof (u64_range (Z.shiftr (s64 w) b)) as Hmc. fold mask in Hmc.
  assert (∀ i, 0 ≤ i < 64 → Z.testbit mask i = Z.testbit w (Z.min (i + b) 63)) as Hmask
    by (intros; by apply arithmetic_shift_bits).
  clearbody mask. destruct (Z.eqb_spec (u64 (Z.lnot mask)) 0) as [E|E]; cbn [negb].
  - apply first_line_skip; [lia|lia| |].
    { intros k Hk. rewrite Hbit by lia. specialize (Hmask (Z.of_nat k - b) ltac:(lia)).
      replace (Z.min (Z.of_nat k - b + b) 63) with (Z.of_nat k) in Hmask by lia. rewrite <- Hmask.
      rewrite <- (negb_involutive (Z.testbit mask _)), <- lnot_testbit, E by lia. by rewrite Z.testbit_0_l. }
    destruct (IH (S index) 0 Hmb Hd') as [H|Hnil]; [lia|lia| |].
    + by rewrite Nat.add_0_r in H.
    + rewrite Hnil in *. cbn [next_unmarked_loop length] in *.
      replace (64 * S index)%nat with (lines mb) by (unfold lines; lia). by apply first_line_end.
  - destruct (rightmost_clear_bit_spec mask Hmc) as (Hr & Ht & Hlow).
    { intros Hm. rewrite Hm in E. done. }
    set (s := rightmost_clear_bit mask) in *. rewrite Hmask in Ht by lia.
    assert (s + b < 64) as Hsb.
    { destruct (decide (s + b < 64)); [done|]. specialize (Hlow (63 - b) ltac:(lia)).
      rewrite Hmask in Hlow by lia. replace (Z.min (63 - b + b) 63) with 63 in Hlow by lia.
      rewrite Z.min_r in Ht by lia. congruence. }
    rewrite Z.min_l in Ht by lia.
    rewrite line_of_bit by (done || lia). exists (64 * index + Z.to_nat (b + s))%nat. unfold lines.
    split_and!; [lia|lia|done| |].
    + intros k Hk. replace k with (64 * index + (k - 64 * index))%nat by lia. rewrite Hbit by lia.
      specialize (Hlow (Z.of_nat (k - 64 * index) - b) ltac:(lia)). rewrite Hmask in Hlow by lia.
      by replace (Z.min (Z.of_nat (k - 64 * index) - b + b) 63) with (Z.of_nat (k - 64 * index)) in Hlow by lia.
    + intros _. rewrite Hbit by lia. rewrite Z2Nat.id by lia. by rewrite Z.add_comm.
Qed.

Lemma search_start mb v i (loop : list Z → nat → Z → Z) :
  mark_bits_ok mb → (i ≤ lines mb)%nat →
  (∀ ws index b, drop index (marked mb) = ws → (index + length ws = bits_size mb)%nat → 0 ≤ b < 64 →
     first_line mb v (64 * index + Z.to_nat b) (loop ws index b) ∨ ws = []) →
  (∀ index b, loop [] index b = mb_start mb +& mb_size mb) →
  first_line mb v i (loop (drop (i / 64) (marked mb)) (i / 64)%nat (Z.of_nat (i mod 64))).
Proof.
  intros Hmb Hi Hloop Hend. destruct (div_mod_64 i) as [Ei Hm]. unfold lines in Hi.
  destruct (decide (i / 64 < bits_size mb)%nat) as [Hlt|Hge].
  - destruct (Hloop (drop (i / 64) (marked mb)) (i / 64)%nat (Z.of_nat (i mod 64))) as [H|Hnil];
      [done|rewrite length_drop; unfold bits_size in *; lia|lia| |].
    + by rewrite Nat2Z.id, <- Ei in H.
    + apply (f_equal length) in Hnil. rewrite length_drop in Hnil. unfold bits_size in *. cbn [length] in Hnil. lia.
  - rewrite drop_ge by (unfold bits_size in *; lia). rewrite Hend.
    replace i with (lines mb) by (unfold lines; lia). by apply first_line_end.
Qed.

Lemma next_marked_first mb i :
  mark_bits_ok mb → (i ≤ lines mb)%nat →
  first_line mb true i (next_marked_block_after mb (line_address mb i)).
Proof.
  intros Hmb Hi. unfold next_marked_block_after. rewrite (bitmap_deref_line mb Hmb) by done.
  apply search_start; [done|done|intros; by apply next_marked_loop_spec|done].
Qed.

Lemma next_unmarked_first mb i :
  mark_bits_ok mb → (i ≤ lines mb)%nat →
  first_line mb false i (next_unmarked_block_after mb (line_address mb i)).
Proof.
  intros Hmb Hi. unfold next_unmarked_block_after. rewrite (bitmap_deref_line mb Hmb) by done.
  apply search_start; [done|done|intros; by apply next_unmarked_loop_spec|done].
Qed.

(** * Theorems *)

(** Marking a block sets the bits of exactly its lines, whatever words it
    starts and ends in, and keeps the bitmap well formed; the accesses stay
    inside the bitmap even for a block that ends at the end of the heap. *)
Theorem set_marked_p_spec mb l n :
  mark_bits_ok mb → (0 < n)%nat → (l + n ≤ lines mb)%nat →
  ∃ mb', set_marked_p mb (line_address mb l) (16 * Z.of_nat n) = Ok mb' ∧ mark_bits_ok mb' ∧
    lines mb' = lines mb ∧
    ∀ i, bit (marked mb') i = bit (marked mb) i || ((l <=? i)%nat && (i <? l + n)%nat).
Proof.
  intros Hmb Hn Hfit. pose proof Hmb as [Hs Hsz He Hal Hw]. unfold set_marked_p.
  destruct (set_bitmap_range_spec mb (marked mb) l n Hmb eq_refl Hw Hn Hfit) as (bits & -> & Hl & Hc & Hb).
  eexists; split; [done|]. unfold lines, bits_size. cbn [marked]. rewrite Hl.
  split_and!; [|done|exact Hb]. split; cbn; try done. unfold bits_size. cbn. by rewrite Hl.
Qed.

(** After [compute_forwarding], every live address moves to the address
    obtained by sliding the marked lines down: the line becomes the number of
    marked lines before it and the offset in the line is kept.  The assertions
    of [forward_block] hold.  Forwarding never moves a block up, keeps the
    order of blocks apart, and keeps adjacent marked lines adjacent, so a
    marked object moves as a whole. *)
Theorem forward_block_compacts mb i j off :
  mark_bits_ok mb → (i < j < lines mb)%nat → 0 ≤ off < 16 →
  bit (marked mb) i = true → bit (marked mb) j = true →
  let mb' := compute_forwarding mb in
  ∃ a b, forward_block mb' (line_address mb i + off) = Ok (a + off) ∧
    forward_block mb' (line_address mb j + off) = Ok (b + off) ∧
    a = mb_start mb + 16 * rank mb i ∧ a ≤ line_address mb i ∧ a + 16 ≤ b ∧
    (j = S i → b = a + 16).
Proof.
  intros Hmb Hij Ho Hi Hj mb'. exists (mb_start mb + 16 * rank mb i), (mb_start mb + 16 * rank mb j).
  assert (mark_bits_ok mb') as Hmb' by (destruct Hmb; by split).
  assert (rank mb i + 1 ≤ rank mb j ∧ (j = S i → rank mb j = rank mb i + 1)) as [Hr HrS].
  { assert (rank mb (S i) = rank mb i + 1) as ES by (unfold rank; cbn [count]; by rewrite Hi).
    split; [|by intros ->]. rewrite <- ES. apply (count_mono (bit (marked mb)) (S i) j). lia. }
  pose proof (rank_bounds mb i).
  change (line_address mb i) with (line_address mb' i). change (line_address mb j) with (line_address mb' j).
  rewrite !forward_block_spec by (done || unfold lines, bits_size in *; cbn; lia).
  change (rank mb' i) with (rank mb i). change (rank mb' j) with (rank mb j). change (mb_start mb') with (mb_start mb).
  split_and!; [done|done|done|unfold line_address; cbn; lia|lia|]. intros E. rewrite (HrS E). lia.
Qed.

(** The searches find the first line at or after the given one that is
    marked (or is not), looking at 64 lines at a time, and answer the end of
    the heap when there is none; the size of a free block is its distance to
    the next marked line. *)
Theorem next_block_after_spec mb i :
  mark_bits_ok mb → (i ≤ lines mb)%nat →
  first_line mb true i (next_marked_block_after mb (line_address mb i)) ∧
  first_line mb false i (next_unmarked_block_after mb (line_address mb i)) ∧
  unmarked_block_size mb (line_address mb i) =
    next_marked_block_after mb (line_address mb i) - line_address mb i.
Proof.
  intros Hmb Hi. pose proof (next_marked_first mb i Hmb Hi) as Hm.
  split_and!; [done|by apply next_unmarked_first|].
  destruct Hm as (j & Hj & E & _). unfold unmarked_block_size. rewrite E.
  pose proof (line_address_end mb Hmb j ltac:(lia)).
  destruct Hmb as [Hs _ _ _ _]. unfold is_cell, line_address in *. apply u64_id. unfold is_cell. lia.
Qed.

(** * Witnesses *)

Definition example_bits : mark_bits := mk_mark_bits 2048 4096 [2 ^ 63 + 6; 1] [0; 0].

Lemma example_bits_ok : mark_bits_ok example_bits.
Proof.
  split; [eval_side|reflexivity|eval_side|reflexivity|].
  repeat constructor; eval_side.
Qed.

Lemma set_marked_p_spec_witness :
  ∃ mb', set_marked_p example_bits (line_address example_bits 60) (16 * Z.of_nat 10) = Ok mb' ∧ mark_bits_ok mb' ∧
    lines mb' = lines example_bits ∧
    ∀ i, bit (marked mb') i = bit (marked example_bits) i || ((60 <=? i)%nat && (i <? 60 + 10)%nat).
Proof. apply (set_marked_p_spec example_bits 60 10); [exact example_bits_ok|lia|cbn; lia]. Defined.

Lemma forward_block_compacts_witness :
  let mb' := compute_forwarding example_bits in
  ∃ a b, forward_block mb' (line_address example_bits 63 + 5) = Ok (a + 5) ∧
    forward_block mb' (line_address example_bits 64 + 5) = Ok (b + 5) ∧
    a = mb_start example_bits + 16 * rank example_bits 63 ∧ a ≤ line_address example_bits 63 ∧ a + 16 ≤ b ∧
    (64%nat = S 63 → b = a + 16).
Proof. apply (forward_block_compacts example_bits 63 64 5); [exact example_bits_ok|cbn; lia|lia|reflexivity|reflexivity]. Defined.

Lemma next_block_after_spec_witness :
  first_line example_bits true 3 (next_marked_block_after example_bits (line_address example_bits 3)) ∧
  first_line example_bits false 3 (next_unmarked_block_after example_bits (line_address example_bits 3)) ∧
  unmarked_block_size example_bits (line_address example_bits 3) =
    next_marked_block_after example_bits (line_address example_bits 3) - line_address example_bits 3.
Proof. apply (next_block_after_spec example_bits 3); [exact example_bits_ok|cbn; lia]. Defined.
