(* ===== verification/Memory.v ===== *)
(** The words of the heap, and the headers of free blocks.

    Memory is a finite map from the addresses of the words that exist to
    their 64-bit contents; reading or writing an address that is not in the
    map is [BAD_ACCESS].  The VM accesses its heaps a word at a time at
    addresses that are multiples of 8. *)

From S2P Require Import Prelude.
From S2P Require Import Layouts.
Local Open Scope cell_scope.

Notation memory := (gmap Z Z).

Definition load (m : memory) (a : Z) : result Z :=
  match m !! a with Some w => Ok w | None => Err BAD_ACCESS end.

Definition store (m : memory) (a w : Z) : result memory :=
  match m !! a with Some _ => Ok (<[a := w]> m) | None => Err BAD_ACCESS end.

(** Every word of [[lo, hi)] exists. *)
Definition mapped (m : memory) (lo hi : Z) : Prop :=
  ∀ a, lo ≤ a < hi → a mod 8 = 0 → is_Some (m !! a).

(** A region of [n] zeroed words from [a] on, for closed examples. *)
Definition zeroed_region (a : Z) (n : nat) : memory :=
  list_to_map ((λ i, (a + 8 * Z.of_nat i, 0)) <$> seq 0 n).

(** * Headers of free blocks *)

(** src/vm/free_list.hpp:11-15 [free_heap_block::size] *)
Definition free_block_size (m : memory) (block : Z) : result Z :=
  header ← load m block;
  let size := Z.land header (lnot64 7) in
  check (0 <? size) ≫= λ _, Ok size.

(** src/vm/free_list.hpp:17-20 [free_heap_block::make_free] *)
Definition make_free (m : memory) (block size : Z) : result memory :=
  check (0 <? size) ≫= λ _, store m block (Z.lor size 1).

(** * Lemmas *)

Lemma load_Ok m a w : load m a = Ok w ↔ m !! a = Some w.
Proof. unfold load. destruct (m !! a); naive_solver. Qed.

Lemma store_Ok m a w : is_Some (m !! a) → store m a w = Ok (<[a := w]> m).
Proof. intros [v E]. unfold store. by rewrite E. Qed.

(** ** Computations that only read

    A computation that reads memory and succeeds does the same in a larger
    memory. *)
Definition persists {A} (f : memory → result A) : Prop :=
  ∀ m m' a, m ⊆ m' → f m = Ok a → f m' = Ok a.

Lemma persists_const {A} (r : result A) : persists (λ _, r).
Proof. by intros m m' a _. Qed.

Lemma persists_load (a : Z) : persists (λ m, load m a).
Proof. intros m m' w Hsub E%load_Ok. apply load_Ok. by eapply lookup_weaken. Qed.

Lemma persists_bind {A B} (f : memory → result A) (g : A → memory → result B) :
  persists f → (∀ a, persists (g a)) → persists (λ m, a ← f m; g a m).
Proof.
  intros Hf Hg m m' b Hsub (a & Ea & Eb)%result_bind_inv.
  rewrite (Hf m m' a Hsub Ea). cbn. by eapply Hg.
Qed.

Lemma persists_while_loop {A B} (body : memory → A → A + result B) (a : A) :
  (∀ m m' a, m ⊆ m' → body m' a = body m a ∨ ∃ e, body m a = inr (Err e)) →
  persists (λ m, r ← while_loop (body m) a; r).
Proof.
  intros H m m' b Hsub (r & E & ->)%result_bind_inv.
  by rewrite (while_loop_agree (body m) (body m') a b) by eauto.
Qed.

Create HintDb persist.
#[export] Hint Resolve persists_const persists_load : persist.
#[export] Hint Extern 2 (persists (λ m, _ ≫= _)) => apply persists_bind : persist.

(** Follows the definition of a computation. *)
Ltac persist :=
  repeat first
    [ progress (intros; cbv zeta)
    | solve [auto with persist]
    | apply persists_bind
    | match goal with
      | |- persists (λ m, if ?b then _ else _) => destruct b eqn:?
      | |- persists (λ m, match ?x with _ => _ end) => destruct x eqn:?
      | |- persists (λ m, let '(_, _) := ?x in _) => destruct x
      end ].

Lemma mapped_insert m lo hi a w : mapped m lo hi → mapped (<[a := w]> m) lo hi.
Proof.
  intros Hm b Hb H8. destruct (decide (a = b)) as [->|];
    [rewrite lookup_insert_eq; eauto|rewrite lookup_insert_ne by done; by apply Hm].
Qed.

Lemma mapped_zeroed_region a n :
  a mod 8 = 0 → mapped (zeroed_region a n) a (a + 8 * Z.of_nat n).
Proof.
  intros Ha b Hb H8. unfold zeroed_region.
  assert (∃ i, (i < n)%nat ∧ b = a + 8 * Z.of_nat i) as (i & Hi & ->).
  { exists (Z.to_nat ((b - a) / 8)). dlia. }
  apply not_eq_None_Some.
  intros Hn. apply not_elem_of_list_to_map in Hn. apply Hn.
  rewrite <- list_fmap_compose. apply list_elem_of_fmap. exists i. split; [done|]. apply elem_of_seq. lia.
Qed.

(** The header of a free block of size [s]. *)
Definition free_header (s : Z) : Z := s + 1.

Definition size_ok (s : Z) : Prop := 0 < s < 2 ^ 64 ∧ s mod 16 = 0.

Lemma make_free_spec m b s :
  size_ok s → is_Some (m !! b) → make_free m b s = Ok (<[b := free_header s]> m).
Proof.
  intros [Hs H16] Hb. unfold make_free, free_header.
  rewrite (proj2 (Z.ltb_lt 0 s)) by lia. cbn. rewrite store_Ok by done. repeat f_equal.
  pose proof (lor_shiftl_add (s / 2) 1 1 ltac:(lia) ltac:(lia)) as H.
  rewrite Z.shiftl_mul_pow2 in H by lia. replace (s / 2 * 2 ^ 1) with s in H by dlia. done.
Qed.

Lemma free_block_size_spec m b s :
  size_ok s → m !! b = Some (free_header s) → free_block_size m b = Ok s.
Proof.
  intros [Hs H16] Hb. unfold free_block_size, load, free_header in *. rewrite Hb. cbn.
  change 7 with (2 ^ 3 - 1). rewrite land_lnot_ones by (unfold is_cell; dlia).
  replace (s + 1 - (s + 1) mod 2 ^ 3) with s by dlia.
  by rewrite (proj2 (Z.ltb_lt 0 s)) by lia.
Qed.
