(* ===== verification/Bytes.v ===== *)
(** Accesses narrower than a word: instruction operands and the tables at the
    end of a code block are read and written 1, 2, 4 or 8 bytes at a time, at
    any address.  A word of the memory holds its bytes in little-endian
    order. *)

From S2P Require Import Prelude.
From S2P Require Import Memory.

(** * Definitions *)

Definition word_address (a : Z) : Z := a - a mod 8.

(** The byte with index [k] of a word, and the word with that byte replaced. *)
Definition byte_of (w k : Z) : Z := Z.shiftr w (8 * k) mod 256.
Definition with_byte (w k b : Z) : Z := w + Z.shiftl (b - byte_of w k) (8 * k).

Definition load_byte (m : memory) (a : Z) : result Z :=
  w ← load m (word_address a);
  Ok (byte_of w (a mod 8)).

Definition store_byte (m : memory) (a b : Z) : result memory :=
  w ← load m (word_address a);
  store m (word_address a) (with_byte w (a mod 8) b).

(** An [n]-byte unsigned integer. *)
Fixpoint load_bytes (n : nat) (m : memory) (a : Z) : result Z :=
  match n with
  | 0%nat => Ok 0
  | S n =>
      b ← load_byte m a;
      v ← load_bytes n m (a + 1);
      Ok (b + 256 * v)
  end.

Fixpoint store_bytes (n : nat) (m : memory) (a v : Z) : result memory :=
  match n with
  | 0%nat => Ok m
  | S n =>
      m ← store_byte m a (v mod 256);
      store_bytes n m (a + 1) (v / 256)
  end.

(** Every byte of [[lo, hi)] exists. *)
Definition bytes_mapped (m : memory) (lo hi : Z) : Prop :=
  ∀ a, lo ≤ a < hi → is_Some (m !! word_address a).

(** [m'] has the words of [m], and its bytes outside [[lo, hi)]. *)
Definition same_bytes_outside (m m' : memory) (lo hi : Z) : Prop :=
  (∀ a, is_Some (m' !! a) ↔ is_Some (m !! a)) ∧
  ∀ a, ¬ (lo ≤ a < hi) → load_byte m' a = load_byte m a.

(** * Lemmas *)

Lemma byte_of_range w k : 0 ≤ byte_of w k < 256.
Proof. apply Z.mod_pos_bound. lia. Qed.

Lemma pow2_8_pos k : 0 < 2 ^ (8 * k) ∨ k < 0.
Proof. destruct (decide (k < 0)); [by right|left]. apply Z.pow_pos_nonneg; lia. Qed.

Lemma byte_of_with_byte w k b : 0 ≤ k → 0 ≤ b < 256 → byte_of (with_byte w k b) k = b.
Proof.
  intros Hk Hb. unfold with_byte, byte_of at 1. destruct (pow2_8_pos k); [|lia].
  rewrite Z.shiftl_mul_pow2, Z.shiftr_div_pow2, Z.div_add by lia.
  unfold byte_of. rewrite Z.shiftr_div_pow2 by lia. set (q := w / 2 ^ (8 * k)). dlia.
Qed.

Lemma byte_of_with_byte_other w k j b :
  0 ≤ k → 0 ≤ j → k ≠ j → 0 ≤ b < 256 → byte_of (with_byte w k b) j = byte_of w j.
Proof.
  intros Hk Hj Hne Hb. unfold with_byte. rewrite Z.shiftl_mul_pow2 by lia.
  pose proof (byte_of_range w k) as Hold. unfold byte_of at 1 3. rewrite !Z.shiftr_div_pow2 by lia.
  destruct (pow2_8_pos k); [|lia]. destruct (pow2_8_pos j); [|lia].
  destruct (decide (j < k)).
  - set (d := b - byte_of w k).
    replace (d * 2 ^ (8 * k)) with ((d * 2 ^ (8 * (k - j - 1)) * 256) * 2 ^ (8 * j)).
    + rewrite Z.div_add by lia. apply Z_mod_plus_full.
    + change 256 with (2 ^ 8). rewrite <- !Z.mul_assoc, <- !Z.pow_add_r by lia. do 2 f_equal. lia.
  - assert (∀ c, 0 ≤ c < 256 →
      (w + (c - byte_of w k) * 2 ^ (8 * k)) / 2 ^ (8 * j) = w / 2 ^ (8 * k) / 256 / 2 ^ (8 * (j - k - 1))) as E.
    { intros c Hc. replace (2 ^ (8 * j)) with (2 ^ (8 * k) * (256 * 2 ^ (8 * (j - k - 1)))).
      2:{ change 256 with (2 ^ 8). rewrite <- !Z.pow_add_r by lia. f_equal. lia. }
      assert (0 < 2 ^ (8 * (j - k - 1))) by (apply Z.pow_pos_nonneg; lia).
      rewrite <- !Z.div_div by lia. rewrite Z.div_add by lia. f_equal.
      unfold byte_of. rewrite Z.shiftr_div_pow2 by lia. set (q := w / 2 ^ (8 * k)). dlia. }
    rewrite E by lia. specialize (E (byte_of w k) Hold). rewrite Z.sub_diag, Z.mul_0_l, Z.add_0_r in E.
    by rewrite E.
Qed.

Lemma load_byte_range m a b : load_byte m a = Ok b → 0 ≤ b < 256.
Proof.
  unfold load_byte. intros (w & _ & E)%result_bind_inv. apply Ok_inj in E. subst.
  apply byte_of_range.
Qed.

Lemma load_byte_Ok m a : is_Some (m !! word_address a) → ∃ b, load_byte m a = Ok b.
Proof. intros [w E]. unfold load_byte, load. rewrite E. cbn. eauto. Qed.

Lemma word_address_byte a b : word_address a = word_address b → a mod 8 = b mod 8 → a = b.
Proof. unfold word_address. lia. Qed.

Lemma store_byte_spec m a b :
  is_Some (m !! word_address a) → 0 ≤ b < 256 →
  ∃ m', store_byte m a b = Ok m' ∧ load_byte m' a = Ok b ∧ same_bytes_outside m m' a (a + 1).
Proof.
  intros [w Ew] Hb. unfold store_byte, store, load. rewrite Ew, result_bind_ok.
  eexists. split; [reflexivity|]. split.
  - unfold load_byte, load. rewrite lookup_insert_eq. cbn. by rewrite byte_of_with_byte by dlia.
  - split.
    + intros c. rewrite lookup_insert_is_Some. split; [intros [<-|[_ ?]]; eauto|].
      intros ?. destruct (decide (word_address a = c)); eauto.
    + intros c Hc. unfold load_byte, load. destruct (decide (word_address a = word_address c)) as [E|].
      * rewrite <- E, lookup_insert_eq, Ew. cbn. rewrite byte_of_with_byte_other; [done|dlia|dlia| |done].
        intros E'. apply Hc. rewrite (word_address_byte a c) by done. lia.
      * by rewrite lookup_insert_ne.
Qed.

Lemma same_bytes_refl m lo hi : same_bytes_outside m m lo hi.
Proof. done. Qed.

Lemma same_bytes_trans m1 m2 m3 lo mid hi :
  lo ≤ mid ≤ hi → same_bytes_outside m1 m2 lo mid → same_bytes_outside m2 m3 mid hi →
  same_bytes_outside m1 m3 lo hi.
Proof.
  intros Hm [D1 S1] [D2 S2]. split.
  - intros a. by rewrite D2, D1.
  - intros a Ha. rewrite S2, S1 by lia. done.
Qed.

Lemma same_bytes_weaken m m' lo hi lo' hi' :
  lo' ≤ lo → hi ≤ hi' → same_bytes_outside m m' lo hi → same_bytes_outside m m' lo' hi'.
Proof. intros ?? [D S]. split; [done|]. intros a Ha. apply S. lia. Qed.

Lemma same_bytes_mapped m m' lo hi a b :
  same_bytes_outside m m' lo hi → bytes_mapped m a b → bytes_mapped m' a b.
Proof. intros [D _] H c Hc. apply D. by apply H. Qed.

(** A load from bytes that did not change. *)
Lemma load_bytes_same n m m' lo hi a :
  same_bytes_outside m m' lo hi → (a + Z.of_nat n ≤ lo ∨ hi ≤ a) →
  load_bytes n m' a = load_bytes n m a.
Proof.
  intros [D S]. revert a. induction n as [|n IH]; intros a Ha; cbn [load_bytes]; [done|].
  rewrite S, IH by lia. done.
Qed.

Lemma load_bytes_range n m a v : load_bytes n m a = Ok v → 0 ≤ v < 2 ^ (8 * Z.of_nat n).
Proof.
  revert a v. induction n as [|n IH]; intros a v; cbn [load_bytes].
  - intros E%Ok_inj. subst. lia.
  - intros (b & Hb & (v' & Hv' & E%Ok_inj)%result_bind_inv)%result_bind_inv. subst.
    apply load_byte_range in Hb. apply IH in Hv'.
    replace (8 * Z.of_nat (S n)) with (8 + 8 * Z.of_nat n) by lia.
    rewrite Z.pow_add_r by lia. change (2 ^ 8) with 256. lia.
Qed.

Lemma load_bytes_Ok n m a :
  bytes_mapped m a (a + Z.of_nat n) →
  ∃ v, load_bytes n m a = Ok v ∧ 0 ≤ v < 2 ^ (8 * Z.of_nat n).
Proof.
  intros H. assert (∃ v, load_bytes n m a = Ok v) as [v E].
  { revert a H. induction n as [|n IH]; intros a H; cbn [load_bytes]; [eauto|].
    destruct (load_byte_Ok m a) as [b ->]; [apply H; lia|]. rewrite result_bind_ok.
    destruct (IH (a + 1)) as [v ->]; [intros c Hc; apply H; lia|]. rewrite result_bind_ok. eauto. }
  eauto using load_bytes_range.
Qed.

(** A store changes only its own bytes, and they hold the value stored, at
    the width of the access. *)
Lemma store_bytes_spec n m a v :
  bytes_mapped m a (a + Z.of_nat n) →
  ∃ m', store_bytes n m a v = Ok m' ∧ load_bytes n m' a = Ok (v mod 2 ^ (8 * Z.of_nat n)) ∧
    same_bytes_outside m m' a (a + Z.of_nat n).
Proof.
  revert m a v. induction n as [|n IH]; intros m a v H.
  - exists m. cbn [store_bytes load_bytes]. split_and!; [done| |apply same_bytes_refl].
    by rewrite Z.mod_1_r.
  - cbn [store_bytes]. destruct (store_byte_spec m a (v mod 256)) as (m1 & -> & L1 & S1);
      [apply H; lia|dlia|]. rewrite result_bind_ok.
    destruct (IH m1 (a + 1) (v / 256)) as (m2 & -> & L2 & S2).
    { eapply same_bytes_mapped; [done|]. intros c Hc. apply H. lia. }
    exists m2. split_and!; [done| |].
    + cbn [load_bytes]. rewrite (proj2 S2), L1 by lia. rewrite !result_bind_ok, L2, result_bind_ok.
      f_equal. replace (8 * Z.of_nat (S n)) with (8 + 8 * Z.of_nat n) by lia.
      assert (0 < 2 ^ (8 * Z.of_nat n)) by (apply Z.pow_pos_nonneg; lia).
      rewrite Z.pow_add_r by lia. change (2 ^ 8) with 256. symmetry. apply Z.rem_mul_r; lia.
    + eapply same_bytes_trans; [|done|eapply same_bytes_weaken; [| |done]]; lia.
Qed.

Lemma load_bytes_ext n m m' a :
  (∀ b, a ≤ b < a + Z.of_nat n → load_byte m' b = load_byte m b) → load_bytes n m' a = load_bytes n m a.
Proof.
  revert a. induction n as [|n IH]; intros a H; cbn [load_bytes]; [done|].
  rewrite H by lia. destruct (load_byte m a); [|done]. cbn. rewrite IH; [done|]. intros b Hb. apply H. lia.
Qed.

(** ** Words that a store does not touch *)

(** [m'] has the words of [m] that have no byte in [[lo, hi)]. *)
Definition same_words_outside (m m' : memory) (lo hi : Z) : Prop :=
  ∀ w, w mod 8 = 0 → w + 8 ≤ lo ∨ hi ≤ w → m' !! w = m !! w.

Lemma same_words_trans m1 m2 m3 lo hi :
  same_words_outside m1 m2 lo hi → same_words_outside m2 m3 lo hi → same_words_outside m1 m3 lo hi.
Proof. intros H12 H23 w Hw Ho. by rewrite H23, H12. Qed.

Lemma same_words_weaken m m' lo hi lo' hi' :
  lo' ≤ lo → hi ≤ hi' → same_words_outside m m' lo hi → same_words_outside m m' lo' hi'.
Proof. intros ?? H w Hw Ho. apply H; [done|lia]. Qed.

Lemma store_bytes_words n m a v m' :
  store_bytes n m a v = Ok m' → same_words_outside m m' a (a + Z.of_nat n).
Proof.
  revert m a v. induction n as [|n IH]; intros m a v; cbn [store_bytes].
  { intros E%Ok_inj w _ _. by subst. }
  intros (m1 & E1 & E2)%result_bind_inv. apply (same_words_trans _ m1).
  - unfold store_byte in E1. apply result_bind_inv in E1 as (w & _ & E1). unfold store in E1.
    destruct (m !! word_address a); [|done]. apply Ok_inj in E1. subst m1. intros x Hx Ho.
    apply lookup_insert_ne. unfold word_address. dlia.
  - eapply same_words_weaken; [| |by eapply IH]; lia.
Qed.

(** Words that exist and are not touched. *)
Lemma same_words_subseteq (d m m' : memory) lo hi :
  (∀ w, is_Some (d !! w) → w mod 8 = 0 ∧ (w + 8 ≤ lo ∨ hi ≤ w)) →
  same_words_outside m m' lo hi → d ⊆ m → d ⊆ m'.
Proof.
  intros Hd Hs Hsub. apply map_subseteq_spec. intros w v Hw. destruct (Hd w ltac:(eauto)) as [H8 Ho].
  rewrite Hs by done. by eapply lookup_weaken.
Qed.
