(* ===== verification/Effects.v ===== *)
(** State and exceptions.

    The collectors change memory and the state of a generation, and leave by
    the exception [must_start_gc_again] when the generation they copy to is
    full; the changes made before the exception stay.  [eff X A] is a
    computation on memory and a state [X] of its own, with an outcome for
    each way it can end. *)

From S2P Require Import Prelude.
From S2P Require Import Memory.

Section outcomes.
Context {S : Type}.

Inductive outcome (A : Type) :=
  | Done (s : S) (a : A)
  | Again (s : S)               (* throw must_start_gc_again() *)
  | Fatal (e : vm_error).
End outcomes.
Arguments outcome S A : clear implicits.
Arguments Done {S A} s a.
Arguments Again {S A} s.
Arguments Fatal {S A} e.

Definition eff (X A : Type) : Type := memory * X → outcome (memory * X) A.

#[export] Instance eff_ret X : MRet (eff X) := λ A a s, Done s a.
#[export] Instance eff_bind X : MBind (eff X) := λ A B f c s,
  match c s with
  | Done s' a => f a s'
  | Again s' => Again s'
  | Fatal e => Fatal e
  end.

Section effects.
Context {X : Type}.

(** A step of a sequence whose outcome is known. *)
Lemma bind_Done {A B} (c : eff X A) (f : A → eff X B) s s' a :
  c s = Done s' a → (a ← c; f a) s = f a s'.
Proof. unfold mbind, eff_bind. by intros ->. Qed.

Lemma bind_Fatal {A B} (c : eff X A) (f : A → eff X B) s e :
  c s = Fatal e → (a ← c; f a) s = Fatal e.
Proof. unfold mbind, eff_bind. by intros ->. Qed.

(** A computation that reads memory, one that replaces it, and one on the
    other state. *)
Definition reads {A} (f : memory → result A) : eff X A := λ s,
  match f s.1 with Ok a => Done s a | Err e => Fatal e end.

Definition writes (f : memory → result memory) : eff X () := λ s,
  match f s.1 with Ok m => Done (m, s.2) () | Err e => Fatal e end.

Definition get_state : eff X X := λ s, Done s s.2.
Definition put_state (x : X) : eff X () := λ s, Done (s.1, x) ().
Definition must_start_gc_again {A} : eff X A := λ s, Again s.

Lemma reads_Ok {A} (f : memory → result A) s a : f s.1 = Ok a → reads f s = Done s a.
Proof. unfold reads. by intros ->. Qed.

Lemma reads_Err {A} (f : memory → result A) s e : f s.1 = Err e → reads f s = Fatal e.
Proof. unfold reads. by intros ->. Qed.

Lemma writes_Ok f s m : f s.1 = Ok m → writes f s = Done (m, s.2) ().
Proof. unfold writes. by intros ->. Qed.

Lemma bind_reads {A B} (f : memory → result A) (k : A → eff X B) m x a :
  f m = Ok a → (a ← reads f; k a) (m, x) = k a (m, x).
Proof. intros E. by rewrite (bind_Done _ _ _ (m, x) a) by by apply reads_Ok. Qed.

Lemma bind_writes {B} f (k : () → eff X B) m x m' :
  f m = Ok m' → (a ← writes f; k a) (m, x) = k () (m', x).
Proof. intros E. by rewrite (bind_Done _ _ _ (m', x) ()) by by apply (writes_Ok f (m, x)). Qed.

Fixpoint for_each {A} (l : list A) (f : A → eff X ()) : eff X () :=
  match l with
  | [] => mret ()
  | a :: l => _ ← f a; for_each l f
  end.

(** A loop: the body maps the loop's variables to the next ones or leaves. *)
Definition loop_body {V A} (body : V → eff X (V + A)) (st : (memory * X) * V)
    : (memory * X) * V + outcome (memory * X) A :=
  match body st.2 st.1 with
  | Done s (inl v) => inl (s, v)
  | Done s (inr a) => inr (Done s a)
  | Again s => inr (Again s)
  | Fatal e => inr (Fatal e)
  end.

Definition loop {V A} (body : V → eff X (V + A)) (v : V) : eff X A := λ s,
  match while_loop (loop_body body) (s, v) with
  | Ok o => o
  | Err e => Fatal e
  end.

(** ** Reasoning

    [ends R c s Q] holds when [c] run in [s] ends, normally in a state and
    with a result that satisfy [Q], or, if [R] holds, by the exception; it
    does not hold of a computation that fails. *)

Section ending.
Context (R : Prop).

Definition ends {A} (c : eff X A) (s : memory * X) (Q : memory * X → A → Prop) : Prop :=
  match c s with
  | Done s' a => Q s' a
  | Again _ => R
  | Fatal _ => False
  end.

Lemma ends_bind {A B} (c : eff X A) (f : A → eff X B) s Q :
  ends c s (λ s' a, ends (f a) s' Q) → ends (a ← c; f a) s Q.
Proof. unfold ends, mbind, eff_bind. destruct (c s); auto. Qed.

Lemma ends_mono {A} (c : eff X A) s (P Q : memory * X → A → Prop) :
  ends c s P → (∀ s' a, P s' a → Q s' a) → ends c s Q.
Proof. unfold ends. destruct (c s); auto. Qed.

Lemma ends_ret {A} (a : A) s (Q : memory * X → A → Prop) : Q s a → ends (mret a) s Q.
Proof. done. Qed.

Lemma ends_reads {A} (f : memory → result A) s a (Q : memory * X → A → Prop) :
  f s.1 = Ok a → Q s a → ends (reads f) s Q.
Proof. unfold ends, reads. by intros ->. Qed.

Lemma ends_writes f s m (Q : memory * X → () → Prop) :
  f s.1 = Ok m → Q (m, s.2) () → ends (writes f) s Q.
Proof. unfold ends, writes. by intros ->. Qed.

(** A step of a sequence that reads. *)
Lemma ends_bind_reads {A B} (f : memory → result A) (g : A → eff X B) s a Q :
  f s.1 = Ok a → ends (g a) s Q → ends (a ← reads f; g a) s Q.
Proof. intros E H. apply ends_bind. by apply (ends_reads f s a). Qed.

Lemma ends_bind_writes {B} f (g : () → eff X B) s m Q :
  f s.1 = Ok m → ends (g ()) (m, s.2) Q → ends (a ← writes f; g a) s Q.
Proof. intros E H. apply ends_bind. by apply (ends_writes f s m). Qed.

Lemma ends_bind_get {B} (g : X → eff X B) s Q : ends (g s.2) s Q → ends (a ← get_state; g a) s Q.
Proof. done. Qed.

Lemma ends_bind_put {B} x (g : () → eff X B) s Q :
  ends (g ()) (s.1, x) Q → ends (a ← put_state x; g a) s Q.
Proof. done. Qed.

(** An invariant of a loop over a list, indexed by the elements done. *)
Lemma ends_for_each {A} (l : list A) (f : A → eff X ()) (I : list A → memory * X → Prop) s :
  I [] s →
  (∀ done a rest s, l = done ++ a :: rest → I done s → ends (f a) s (λ s' _, I (done ++ [a]) s')) →
  ends (for_each l f) s (λ s' _, I l s').
Proof.
  intros H0 Hstep.
  assert (∀ rest done s, l = done ++ rest → I done s → ends (for_each rest f) s (λ s' _, I l s')) as H.
  { induction rest as [|a rest IH]; intros dn s' E Hs; cbn [for_each].
    - apply ends_ret. by rewrite E, app_nil_r.
    - apply ends_bind. eapply ends_mono; [by eapply Hstep|]. intros s1 u H1.
      apply (IH (dn ++ [a])); [by rewrite <- app_assoc|done]. }
  by apply (H l []).
Qed.

(** A loop ends when a measure decreases. *)
Lemma ends_loop {V A} (body : V → eff X (V + A)) (I : V → memory * X → Prop)
    (mu : V → Z) (Q : memory * X → A → Prop) v s :
  I v s → mu v < 2 ^ 64 →
  (∀ v s, I v s → ends (body v) s (λ s' r,
     match r with inl v' => I v' s' ∧ 0 ≤ mu v' < mu v | inr a => Q s' a end)) →
  ends (loop body v) s Q.
Proof.
  intros HI Hm Hstep. unfold ends, loop.
  destruct (while_loop_ok (loop_body body) (λ st, I st.2 st.1) (λ st, mu st.2)
    (λ o, match o with Done s' a => Q s' a | Again _ => R | Fatal _ => False end) (s, v))
    as (o & -> & Ho); [|done|done|done].
  intros [s' v'] H'. cbn in H'. specialize (Hstep v' s' H'). unfold loop_body, ends in *. cbn.
  destruct (body v' s') as [s1 [v1|a]|s1|e]; done.
Qed.
End ending.

(** ** Properties of the state that a computation keeps

    [stays P c] holds when [c] leads from states with [P] to states with [P],
    whether it ends normally or by the exception. *)

Section staying.
Context (P : X → Prop).

Definition stays {A} (c : eff X A) : Prop :=
  ∀ s, P s.2 → match c s with Done s' _ => P s'.2 | Again s' => P s'.2 | Fatal _ => True end.

Lemma stays_ret {A} (a : A) : stays (mret a).
Proof. by intros s. Qed.

Lemma stays_bind {A B} (c : eff X A) (f : A → eff X B) :
  stays c → (∀ a, stays (f a)) → stays (a ← c; f a).
Proof.
  intros Hc Hf s Hs. specialize (Hc s Hs). unfold mbind, eff_bind.
  destruct (c s) as [s' a| |]; [by apply Hf|done|done].
Qed.

Lemma stays_reads {A} (f : memory → result A) : stays (reads f).
Proof. intros s Hs. unfold reads. by destruct (f s.1). Qed.

Lemma stays_writes f : stays (writes f).
Proof. intros s Hs. unfold writes. by destruct (f s.1). Qed.

Lemma stays_get {B} (f : X → eff X B) : (∀ x, P x → stays (f x)) → stays (x ← get_state; f x).
Proof. intros Hf s Hs. by apply Hf. Qed.

Lemma stays_put x : P x → stays (put_state x).
Proof. by intros Hx s _. Qed.

Lemma stays_again {A} : stays (must_start_gc_again (A := A)).
Proof. by intros s. Qed.

Lemma stays_for_each {A} (l : list A) (f : A → eff X ()) : (∀ a, stays (f a)) → stays (for_each l f).
Proof. intros Hf. induction l; cbn [for_each]; [apply stays_ret|by apply stays_bind]. Qed.

Lemma stays_loop {V A} (body : V → eff X (V + A)) (v : V) : (∀ v, stays (body v)) → stays (loop body v).
Proof.
  intros Hb s Hs. unfold loop, while_loop. rewrite iter_until_nat. generalize (Pos.to_nat (2 ^ 64)). intros n.
  revert v s Hs. induction n as [|n IH]; intros v s Hs; cbn [iter_nat]; [done|].
  unfold loop_body at 1. cbn [fst snd]. specialize (Hb v s Hs).
  destruct (body v s) as [s' [v'|a]|s'|e]; [by apply IH|done|done|done].
Qed.

(** [after c] holds when [P] holds after [c] has ended normally. *)
Definition after {A} (c : eff X A) : Prop :=
  ∀ s, match c s with Done s' _ => P s'.2 | _ => True end.

Lemma after_bind {A B} (c : eff X A) (f : A → eff X B) : (∀ a, after (f a)) → after (a ← c; f a).
Proof. intros Hf s. unfold mbind, eff_bind. destruct (c s); [by apply Hf|done|done]. Qed.

Lemma after_then {A B} (c : eff X A) (f : A → eff X B) :
  after c → (∀ a, stays (f a)) → after (a ← c; f a).
Proof.
  intros Hc Hf s. specialize (Hc s). unfold mbind, eff_bind. destruct (c s) as [s' a| |]; [|done|done].
  specialize (Hf a s' Hc). by destruct (f a s').
Qed.
End staying.
End effects.

Create HintDb stays discriminated.
#[export] Hint Constants Opaque : stays.
#[export] Hint Resolve stays_ret stays_reads stays_writes stays_again : stays.

(** Follows the definition of a computation; what is left are computations
    without a lemma in [stays], and the properties of states that are put. *)
Ltac stays :=
  repeat first
    [ progress (intros; cbv zeta)
    | match goal with
      | |- stays _ (get_state ≫= _) => apply stays_get
      | |- stays _ (_ ≫= _) => apply stays_bind
      | |- stays _ (put_state _) => apply stays_put
      | |- stays _ (for_each _ _) => apply stays_for_each
      | |- stays _ (loop _ _) => apply stays_loop
      | |- stays _ (if ?b then _ else _) => destruct b
      | |- stays _ (match ?x with _ => _ end) => destruct x
      | |- stays _ (let '(_, _) := ?x in _) => destruct x
      end
    | solve [auto with stays] ].
