(* ===== verification/InstructionOperands.v ===== *)
(** Relocation entries and instruction operands: vm/instruction_operands.hpp
    and vm/instruction_operands.cpp.

    A relocation entry packs a type, a class and an offset into 32 bits.  An
    operand is the field of an instruction that ends at an address [pointer];
    the class says how wide it is, how it is encoded and whether it is
    relative to the address.  [sizeof(cell)] is 8. *)

From S2P Require Import Prelude.
From S2P Require Import Layouts.
From S2P Require Import Memory.
From S2P Require Import Bytes.
Local Open Scope cell_scope.

(** * Relocation entries *)

(** src/vm/instruction_operands.hpp:3-36 [relocation_type] *)
Inductive relocation_type :=
  | RT_DLSYM
  | RT_ENTRY_POINT
  | RT_ENTRY_POINT_PIC
  | RT_ENTRY_POINT_PIC_TAIL
  | RT_HERE
  | RT_THIS
  | RT_LITERAL
  | RT_UNTAGGED
  | RT_MEGAMORPHIC_CACHE_HITS
  | RT_VM
  | RT_CARDS_OFFSET
  | RT_DECKS_OFFSET
  | RT_UNUSED
  | RT_DLSYM_TOC
  | RT_INLINE_CACHE_MISS
  | RT_SAFEPOINT.

(** src/vm/instruction_operands.hpp:38-65 [relocation_class] *)
Inductive relocation_class :=
  | RC_ABSOLUTE_CELL
  | RC_ABSOLUTE
  | RC_RELATIVE
  | RC_ABSOLUTE_PPC_2_2
  | RC_ABSOLUTE_PPC_2
  | RC_RELATIVE_PPC_2_PC
  | RC_RELATIVE_PPC_3_PC
  | RC_RELATIVE_ARM_3
  | RC_INDIRECT_ARM
  | RC_INDIRECT_ARM_PC
  | RC_ABSOLUTE_2
  | RC_ABSOLUTE_1
  | RC_ABSOLUTE_PPC_2_2_2_2.

#[export] Instance relocation_type_eq_dec : EqDecision relocation_type.
Proof. solve_decision. Defined.
#[export] Instance relocation_class_eq_dec : EqDecision relocation_class.
Proof. solve_decision. Defined.

(** The enumerators in order: an enumerator's value is its position. *)
Definition relocation_types : list relocation_type :=
  [RT_DLSYM; RT_ENTRY_POINT; RT_ENTRY_POINT_PIC; RT_ENTRY_POINT_PIC_TAIL; RT_HERE; RT_THIS;
   RT_LITERAL; RT_UNTAGGED; RT_MEGAMORPHIC_CACHE_HITS; RT_VM; RT_CARDS_OFFSET; RT_DECKS_OFFSET;
   RT_UNUSED; RT_DLSYM_TOC; RT_INLINE_CACHE_MISS; RT_SAFEPOINT].

Definition relocation_classes : list relocation_class :=
  [RC_ABSOLUTE_CELL; RC_ABSOLUTE; RC_RELATIVE; RC_ABSOLUTE_PPC_2_2; RC_ABSOLUTE_PPC_2;
   RC_RELATIVE_PPC_2_PC; RC_RELATIVE_PPC_3_PC; RC_RELATIVE_ARM_3; RC_INDIRECT_ARM;
   RC_INDIRECT_ARM_PC; RC_ABSOLUTE_2; RC_ABSOLUTE_1; RC_ABSOLUTE_PPC_2_2_2_2].

Definition enum_value {A} `{!EqDecision A} (enum : list A) (a : A) : Z :=
  match list_find (eq a) enum with Some (i, _) => Z.of_nat i | None => 0 end.

Definition enum_of {A} (enum : list A) (v : Z) : option A := enum !! Z.to_nat v.

(** src/vm/instruction_operands.hpp:67-67 [rel_absolute_ppc_2_mask] *)
Definition rel_absolute_ppc_2_mask : Z := 0x0000ffff.
(** src/vm/instruction_operands.hpp:68-68 [rel_relative_ppc_2_mask] *)
Definition rel_relative_ppc_2_mask : Z := 0x0000fffc.
(** src/vm/instruction_operands.hpp:69-69 [rel_relative_ppc_3_mask] *)
Definition rel_relative_ppc_3_mask : Z := 0x03fffffc.
(** src/vm/instruction_operands.hpp:70-70 [rel_indirect_arm_mask] *)
Definition rel_indirect_arm_mask : Z := 0x00000fff.
(** src/vm/instruction_operands.hpp:71-71 [rel_relative_arm_3_mask] *)
Definition rel_relative_arm_3_mask : Z := 0x00ffffff.

(** src/vm/instruction_operands.hpp:79-82 [relocation_entry]: The
    enumerators are shifted as [int]s, whose sign is extended when [offset] is
    joined to them. *)
Definition relocation_entry (rel_type : relocation_type) (rel_class : relocation_class) (offset : Z) : Z :=
  u32 (Z.lor (u64 (Z.lor (s32 (Z.shiftl (enum_value relocation_types rel_type) 28))
                         (s32 (Z.shiftl (enum_value relocation_classes rel_class) 24))))
             offset).

(** src/vm/instruction_operands.hpp:84-86 [relocation_entry::type] *)
Definition rel_type (value : Z) : option relocation_type :=
  enum_of relocation_types (Z.shiftr (Z.land value 0xf0000000) 28).

(** src/vm/instruction_operands.hpp:88-90 [relocation_entry::klass]: [None]
    is a value that is no enumerator. *)
Definition klass (value : Z) : option relocation_class :=
  enum_of relocation_classes (Z.shiftr (Z.land value 0x0f000000) 24).

(** src/vm/instruction_operands.hpp:92-92 [relocation_entry::offset] *)
Definition rel_offset (value : Z) : Z := Z.land value 0x00ffffff.

(** src/vm/instruction_operands.hpp:94-118 [number_of_parameters] *)
Definition number_of_parameters (value : Z) : result Z :=
  match rel_type value with
  | Some RT_VM => Ok 1
  | Some RT_DLSYM | Some RT_DLSYM_TOC => Ok 2
  | Some RT_ENTRY_POINT | Some RT_ENTRY_POINT_PIC | Some RT_ENTRY_POINT_PIC_TAIL
  | Some RT_LITERAL | Some RT_HERE | Some RT_UNTAGGED | Some RT_THIS
  | Some RT_MEGAMORPHIC_CACHE_HITS | Some RT_CARDS_OFFSET | Some RT_DECKS_OFFSET
  | Some RT_INLINE_CACHE_MISS | Some RT_SAFEPOINT => Ok 0
  | _ => Err CRITICAL_ERROR
  end.

(** * Operands *)

(** src/vm/instruction_operands.hpp:121-125 [instruction_operand] (part) *)
Record instruction_operand := mk_operand {
  rel : Z;
  compiled : Z;
  index : Z;
  pointer : Z
}.

(** src/vm/instruction_operands.cpp:5-10 [instruction_operand::instruction_operand]:
    The header of a code block, 32 bytes, precedes its code. *)
Definition new_instruction_operand (rel compiled index : Z) : instruction_operand :=
  mk_operand rel compiled index ((compiled +& 32) +& rel_offset rel).

Section accesses.
Context (m : memory) (op : instruction_operand).

(** src/vm/instruction_operands.cpp:13-18 [load_value_2_2] *)
Definition load_value_2_2 : result Z :=
  p2 ← load_bytes 4 m (pointer op - 8);
  p1 ← load_bytes 4 m (pointer op - 4);
  let hi := Z.land p2 0xffff in
  let lo := Z.land p1 0xffff in
  Ok (s64 (Z.lor (hi <<& 16) lo)).

(** src/vm/instruction_operands.cpp:21-29 [load_value_2_2_2_2] *)
Definition load_value_2_2_2_2 : result Z :=
  p5 ← load_bytes 4 m (pointer op - 20);
  p4 ← load_bytes 4 m (pointer op - 16);
  p2 ← load_bytes 4 m (pointer op - 8);
  p1 ← load_bytes 4 m (pointer op - 4);
  let hhi := Z.land p5 0xffff in
  let hlo := Z.land p4 0xffff in
  let lhi := Z.land p2 0xffff in
  let llo := Z.land p1 0xffff in
  Ok (s64 (Z.lor (Z.lor (Z.lor (hhi <<& 48) (hlo <<& 32)) (lhi <<& 16)) llo)).

(** src/vm/instruction_operands.cpp:32-37 [load_value_masked]: The shifts are
    those of a signed 32-bit integer. *)
Definition load_value_masked (mask bits shift : Z) : result Z :=
  v ← load_bytes 4 m (pointer op - 4);
  let field := Z.land (s32 v) (s32 mask) in
  Ok (s32 (Z.shiftl (Z.shiftr (s32 (Z.shiftl field bits)) bits) shift)).

(** src/vm/instruction_operands.cpp:39-74 [load_value] *)
Definition load_value (relative_to : Z) : result Z :=
  match klass (rel op) with
  | Some RC_ABSOLUTE_CELL => v ← load_bytes 8 m (pointer op - 8); Ok (s64 v)
  | Some RC_ABSOLUTE => v ← load_bytes 4 m (pointer op - 4); Ok v
  | Some RC_RELATIVE => v ← load_bytes 4 m (pointer op - 4); Ok (s64 (s32 v + relative_to))
  | Some RC_ABSOLUTE_PPC_2_2 => load_value_2_2
  | Some RC_ABSOLUTE_PPC_2 => load_value_masked rel_absolute_ppc_2_mask 16 0
  | Some RC_RELATIVE_PPC_2_PC =>
      v ← load_value_masked rel_relative_ppc_2_mask 16 0; Ok (s64 (v + relative_to - 4))
  | Some RC_RELATIVE_PPC_3_PC =>
      v ← load_value_masked rel_relative_ppc_3_mask 6 0; Ok (s64 (v + relative_to - 4))
  | Some RC_RELATIVE_ARM_3 =>
      v ← load_value_masked rel_relative_arm_3_mask 6 2; Ok (s64 (v + relative_to + 8))
  | Some RC_INDIRECT_ARM =>
      v ← load_value_masked rel_indirect_arm_mask 20 0; Ok (s64 (v + relative_to))
  | Some RC_INDIRECT_ARM_PC =>
      v ← load_value_masked rel_indirect_arm_mask 20 0; Ok (s64 (v + relative_to + 8))
  | Some RC_ABSOLUTE_2 => load_bytes 2 m (pointer op - 2)
  | Some RC_ABSOLUTE_1 => load_bytes 1 m (pointer op - 1)
  | Some RC_ABSOLUTE_PPC_2_2_2_2 => load_value_2_2_2_2
  | None => Err CRITICAL_ERROR
  end.

(** src/vm/instruction_operands.cpp:76-78 [load_code_block] *)
Definition load_code_block : result Z :=
  v ← load_value (pointer op);
  Ok (u64 v -& 32).
End accesses.

(** A field of an instruction, [(word & ~mask) | field]. *)
Definition set_field (word mask field : Z) : Z := Z.lor (Z.land word (u32 (Z.lnot mask))) field.

Section stores.
Context (op : instruction_operand).

(** src/vm/instruction_operands.cpp:83-83 [store_value_2_2] (part): One
    16-bit field at [ptr]. *)
Definition store_half (m : memory) (ptr half : Z) : result memory :=
  word ← load_bytes 4 m ptr;
  store_bytes 4 m ptr (u32 (set_field word 0xffff half)).

(** src/vm/instruction_operands.cpp:81-85 [store_value_2_2] *)
Definition store_value_2_2 (m : memory) (value : Z) : result memory :=
  m ← store_half m (pointer op - 8) (Z.land (Z.shiftr value 16) 0xffff);
  store_half m (pointer op - 4) (Z.land value 0xffff).

(** src/vm/instruction_operands.cpp:88-95 [store_value_2_2_2_2] *)
Definition store_value_2_2_2_2 (m : memory) (value : Z) : result memory :=
  let val := u64 value in
  m ← store_half m (pointer op - 20) (Z.land (Z.shiftr val 48) 0xffff);
  m ← store_half m (pointer op - 16) (Z.land (Z.shiftr val 32) 0xffff);
  m ← store_half m (pointer op - 8) (Z.land (Z.shiftr val 16) 0xffff);
  store_half m (pointer op - 4) (Z.land (Z.shiftr val 0) 0xffff).

(** src/vm/instruction_operands.cpp:98-102 [store_value_masked] *)
Definition store_value_masked (m : memory) (value mask shift : Z) : result memory :=
  word ← load_bytes 4 m (pointer op - 4);
  store_bytes 4 m (pointer op - 4)
    (u32 (Z.lor (Z.land word (lnot64 mask)) (Z.land (Z.shiftr value shift) mask))).

(** src/vm/instruction_operands.cpp:104-153 [store_value] *)
Definition store_value (m : memory) (absolute_value : Z) : result memory :=
  let relative_value := s64 (absolute_value - pointer op) in
  match klass (rel op) with
  | Some RC_ABSOLUTE_CELL => store_bytes 8 m (pointer op - 8) (u64 absolute_value)
  | Some RC_ABSOLUTE => store_bytes 4 m (pointer op - 4) (u32 absolute_value)
  | Some RC_RELATIVE => store_bytes 4 m (pointer op - 4) (u32 relative_value)
  | Some RC_ABSOLUTE_PPC_2_2 => store_value_2_2 m absolute_value
  | Some RC_ABSOLUTE_PPC_2 => store_value_masked m absolute_value rel_absolute_ppc_2_mask 0
  | Some RC_RELATIVE_PPC_2_PC =>
      store_value_masked m (s64 (relative_value + 4)) rel_relative_ppc_2_mask 0
  | Some RC_RELATIVE_PPC_3_PC =>
      store_value_masked m (s64 (relative_value + 4)) rel_relative_ppc_3_mask 0
  | Some RC_RELATIVE_ARM_3 =>
      store_value_masked m (s64 (relative_value - 8)) rel_relative_arm_3_mask 2
  | Some RC_INDIRECT_ARM => store_value_masked m relative_value rel_indirect_arm_mask 0
  | Some RC_INDIRECT_ARM_PC =>
      store_value_masked m (s64 (relative_value - 8)) rel_indirect_arm_mask 0
  | Some RC_ABSOLUTE_2 => store_bytes 2 m (pointer op - 2) (u16 absolute_value)
  | Some RC_ABSOLUTE_1 => store_bytes 1 m (pointer op - 1) (u8 absolute_value)
  | Some RC_ABSOLUTE_PPC_2_2_2_2 => store_value_2_2_2_2 m absolute_value
  | None => Err CRITICAL_ERROR
  end.
End stores.

(** * Lemmas *)

Lemma enum_type t : enum_of relocation_types (enum_value relocation_types t) = Some t ∧
  0 ≤ enum_value relocation_types t < 16.
Proof. destruct t; vm_compute; (split; [reflexivity|split; [discriminate|reflexivity]]). Qed.

Lemma enum_class c : enum_of relocation_classes (enum_value relocation_classes c) = Some c ∧
  0 ≤ enum_value relocation_classes c < 16.
Proof. destruct c; vm_compute; (split; [reflexivity|split; [discriminate|reflexivity]]). Qed.

Lemma relocation_entry_eq t c offset :
  0 ≤ offset < 2 ^ 24 →
  relocation_entry t c offset =
    enum_value relocation_types t * 2 ^ 28 + enum_value relocation_classes c * 2 ^ 24 + offset.
Proof.
  intros Ho. unfold relocation_entry. set (k := u64 _).
  assert (k mod 2 ^ 24 = 0 ∧ k mod 2 ^ 32 =
    enum_value relocation_types t * 2 ^ 28 + enum_value relocation_classes c * 2 ^ 24) as [K0 <-]
    by (subst k; destruct t, c; vm_compute; split; reflexivity).
  clearbody k. assert (k = Z.shiftl (k / 2 ^ 24) 24) as E.
  { rewrite Z.shiftl_mul_pow2 by lia. dlia. }
  rewrite E at 1. rewrite lor_shiftl_add by lia. unfold u32. dlia.
Qed.

(** The field a mask of contiguous bits selects. *)
Lemma land_high_field v n k :
  0 ≤ k → 0 ≤ n → 0 ≤ v → Z.shiftr (Z.land v (Z.shiftl (Z.ones n) k)) k = (v / 2 ^ k) mod 2 ^ n.
Proof.
  intros Hk Hn Hv. rewrite Z.shiftr_land, Z.shiftr_shiftl_l, Z.sub_diag, Z.shiftl_0_r by lia.
  by rewrite Z.land_ones, Z.shiftr_div_pow2 by lia.
Qed.

Lemma s32_bits z i : 0 ≤ i < 32 → Z.testbit (s32 z) i = Z.testbit z i.
Proof.
  intros Hi. rewrite <- (Z.mod_pow2_bits_low (s32 z) 32), <- (Z.mod_pow2_bits_low z 32) by lia.
  f_equal. unfold s32. rewrite Zminus_mod_idemp_l. f_equal. lia.
Qed.

Lemma u32_bits z i : 0 ≤ i < 32 → Z.testbit (u32 z) i = Z.testbit z i.
Proof. intros Hi. unfold u32. by rewrite Z.mod_pow2_bits_low by lia. Qed.

Lemma lnot64_bits z i : 0 ≤ i < 64 → Z.testbit (lnot64 z) i = negb (Z.testbit z i).
Proof. intros Hi. unfold lnot64, u64. by rewrite Z.mod_pow2_bits_low, Z.lnot_spec by lia. Qed.

(** A field written into an instruction is read back, and the instruction's
    other bits are kept. *)
Lemma masked_read_back word x mask :
  0 ≤ mask < 2 ^ 31 →
  Z.land (s32 (u32 (Z.lor (Z.land word (lnot64 mask)) (Z.land x mask)))) (s32 mask) = Z.land x mask.
Proof.
  intros Hm. rewrite (s32_id mask) by lia. apply Z.bits_inj'. intros i Hi. rewrite !Z.land_spec.
  destruct (decide (i < 31)).
  - rewrite s32_bits, u32_bits, Z.lor_spec, !Z.land_spec, lnot64_bits by lia.
    destruct (Z.testbit word i), (Z.testbit x i), (Z.testbit mask i); reflexivity.
  - rewrite (testbit_small mask 31) by lia. by rewrite !andb_false_r.
Qed.

Lemma masked_keeps word x mask :
  0 ≤ word < 2 ^ 32 → 0 ≤ mask < 2 ^ 31 →
  Z.land (u32 (Z.lor (Z.land word (lnot64 mask)) (Z.land x mask))) (lnot64 mask) =
    Z.land word (lnot64 mask).
Proof.
  intros Hw Hm. apply Z.bits_inj'. intros i Hi. rewrite !Z.land_spec. destruct (decide (i < 32)).
  - rewrite u32_bits, Z.lor_spec, !Z.land_spec, lnot64_bits by lia.
    destruct (Z.testbit word i), (Z.testbit x i), (Z.testbit mask i); reflexivity.
  - unfold u32. rewrite Z.mod_pow2_bits_high, (testbit_small word 32) by lia. by rewrite !andb_false_l.
Qed.

Lemma half_word word x :
  0 ≤ word < 2 ^ 32 →
  set_field word 0xffff (Z.land x 0xffff) = Z.lor (Z.land word (lnot64 0xffff)) (Z.land x 0xffff).
Proof.
  intros Hw. unfold set_field. f_equal. apply Z.bits_inj'. intros i Hi. rewrite !Z.land_spec.
  destruct (decide (i < 32)).
  - rewrite u32_bits, lnot64_bits, Z.lnot_spec by lia. done.
  - rewrite (testbit_small word 32) by lia. by rewrite !andb_false_l.
Qed.

(** The masks of the classes whose field is part of one instruction. *)
Definition field_mask (c : relocation_class) : option Z :=
  match c with
  | RC_ABSOLUTE_PPC_2 => Some rel_absolute_ppc_2_mask
  | RC_RELATIVE_PPC_2_PC => Some rel_relative_ppc_2_mask
  | RC_RELATIVE_PPC_3_PC => Some rel_relative_ppc_3_mask
  | RC_RELATIVE_ARM_3 => Some rel_relative_arm_3_mask
  | RC_INDIRECT_ARM | RC_INDIRECT_ARM_PC => Some rel_indirect_arm_mask
  | _ => None
  end.

Lemma land_mask_low x n : 2 ≤ n → x mod 4 = 0 → Z.land x (2 ^ n - 4) = x mod 2 ^ n.
Proof.
  intros Hn Hx. assert (x = Z.shiftl (x / 4) 2) as E
    by (rewrite Z.shiftl_mul_pow2 by lia; change (2 ^ 2) with 4; dlia).
  assert (2 ^ n = 4 * 2 ^ (n - 2)) as E2.
  { change 4 with (2 ^ 2). rewrite <- Z.pow_add_r by lia. f_equal. lia. }
  assert (2 ^ n - 4 = Z.shiftl (2 ^ (n - 2) - 1) 2) as ->
    by (rewrite Z.shiftl_mul_pow2 by lia; change (2 ^ 2) with 4; lia).
  assert (0 < 2 ^ (n - 2)) by (apply Z.pow_pos_nonneg; lia).
  rewrite E at 1. rewrite <- Z.shiftl_land, land_ones_mod, Z.shiftl_mul_pow2, E2 by lia.
  change (2 ^ 2) with 4. rewrite (Z.mul_comm _ 4), <- Z.mul_mod_distr_l by lia. f_equal. dlia.
Qed.

(** What a masked store leaves, and what a masked load then returns. *)
Lemma store_value_masked_spec op m value mask shift :
  bytes_mapped m (pointer op - 4) (pointer op) → 0 ≤ mask < 2 ^ 31 →
  ∃ m' w, store_value_masked op m value mask shift = Ok m' ∧
    same_bytes_outside m m' (pointer op - 4) (pointer op) ∧
    load_bytes 4 m (pointer op - 4) = Ok w ∧
    load_bytes 4 m' (pointer op - 4) =
      Ok (u32 (Z.lor (Z.land w (lnot64 mask)) (Z.land (Z.shiftr value shift) mask))) ∧
    Z.land (u32 (Z.lor (Z.land w (lnot64 mask)) (Z.land (Z.shiftr value shift) mask))) (lnot64 mask) =
      Z.land w (lnot64 mask) ∧
    ∀ bits sh, load_value_masked m' op mask bits sh =
      Ok (s32 (Z.shiftl (Z.shiftr (s32 (Z.shiftl (Z.land (Z.shiftr value shift) mask) bits)) bits) sh)).
Proof.
  intros Hm Hmask.
  assert (bytes_mapped m (pointer op - 4) (pointer op - 4 + Z.of_nat 4)) as Hm'
    by (replace (pointer op - 4 + Z.of_nat 4) with (pointer op) by lia; done).
  destruct (load_bytes_Ok 4 m _ Hm') as (w & Ew & Hw).
  unfold store_value_masked. rewrite Ew, result_bind_ok.
  set (v := u32 _). destruct (store_bytes_spec 4 m _ v Hm') as (m' & E & L & S).
  replace (pointer op - 4 + Z.of_nat 4) with (pointer op) in S by lia.
  rewrite Z.mod_small in L by (unfold v, u32; apply Z.mod_pos_bound; lia).
  exists m', w. split_and!; [done|done|done|done|by apply masked_keeps|].
  intros bits sh. unfold load_value_masked. rewrite L, result_bind_ok. unfold v.
  by rewrite masked_read_back.
Qed.

Lemma store_half_spec m ptr x :
  bytes_mapped m ptr (ptr + 4) →
  ∃ m' w', store_half m ptr (Z.land x 0xffff) = Ok m' ∧ same_bytes_outside m m' ptr (ptr + 4) ∧
    load_bytes 4 m' ptr = Ok w' ∧ Z.land w' 0xffff = x mod 2 ^ 16.
Proof.
  intros Hm. destruct (load_bytes_Ok 4 m ptr Hm) as (w & Ew & Hw).
  unfold store_half. rewrite Ew, result_bind_ok, half_word by done.
  set (v := u32 _). destruct (store_bytes_spec 4 m ptr v Hm) as (m' & E & L & S).
  assert (0 ≤ v < 2 ^ 32) as Hv by (unfold v, u32; apply Z.mod_pos_bound; lia).
  rewrite Z.mod_small in L by done. exists m', v. split_and!; [done|done|done|].
  rewrite <- (land_ones_mod x 16) by lia. change (2 ^ 16 - 1) with 0xffff.
  unfold v. apply Z.bits_inj'. intros i Hi. rewrite !Z.land_spec. destruct (decide (i < 16)).
  - rewrite u32_bits, Z.lor_spec, !Z.land_spec, lnot64_bits by lia.
    destruct (Z.testbit w i), (Z.testbit x i), (Z.testbit 0xffff i); reflexivity.
  - rewrite (testbit_small 0xffff 16) by lia. by rewrite !andb_false_r.
Qed.

(** The number of bytes before [pointer] an operand extends over. *)
Definition operand_width (c : relocation_class) : Z :=
  match c with
  | RC_ABSOLUTE_CELL | RC_ABSOLUTE_PPC_2_2 => 8
  | RC_ABSOLUTE_2 => 2
  | RC_ABSOLUTE_1 => 1
  | RC_ABSOLUTE_PPC_2_2_2_2 => 20
  | _ => 4
  end.

(** The values an operand of class [c] that ends at [ptr] can hold. *)
Definition operand_fits (c : relocation_class) (ptr v : Z) : Prop :=
  match c with
  | RC_ABSOLUTE_CELL | RC_ABSOLUTE_PPC_2_2_2_2 => is_fixnum v
  | RC_ABSOLUTE | RC_ABSOLUTE_PPC_2_2 => 0 ≤ v < 2 ^ 32
  | RC_RELATIVE => - 2 ^ 31 ≤ v - ptr < 2 ^ 31
  | RC_ABSOLUTE_PPC_2 => - 2 ^ 15 ≤ v < 2 ^ 15
  | RC_RELATIVE_PPC_2_PC => - 2 ^ 15 ≤ v - ptr + 4 < 2 ^ 15 ∧ (v - ptr) mod 4 = 0
  | RC_RELATIVE_PPC_3_PC => - 2 ^ 25 ≤ v - ptr + 4 < 2 ^ 25 ∧ (v - ptr) mod 4 = 0
  | RC_RELATIVE_ARM_3 => 0 ≤ v - ptr - 8 < 2 ^ 26 ∧ (v - ptr) mod 4 = 0
  | RC_INDIRECT_ARM => - 2 ^ 11 ≤ v - ptr < 2 ^ 11
  | RC_INDIRECT_ARM_PC => - 2 ^ 11 ≤ v - ptr - 8 < 2 ^ 11
  | RC_ABSOLUTE_2 => 0 ≤ v < 2 ^ 16
  | RC_ABSOLUTE_1 => 0 ≤ v < 2 ^ 8
  end.

(** What [store_value] promises for a value the operand can hold. *)
Definition stored (c : relocation_class) (op : instruction_operand) (m m' : memory) (v : Z) : Prop :=
  load_value m' op (pointer op) = Ok v ∧
  same_bytes_outside m m' (pointer op - operand_width c) (pointer op) ∧
  ∀ mask, field_mask c = Some mask → ∃ w w',
    load_bytes 4 m (pointer op - 4) = Ok w ∧ load_bytes 4 m' (pointer op - 4) = Ok w' ∧
    Z.land w' (lnot64 mask) = Z.land w (lnot64 mask).

(** A class whose operand is a plain integer of [n] bytes. *)
Lemma stored_plain n c op m x v (of_bytes : Z → Z) :
  operand_width c = Z.of_nat n → field_mask c = None →
  bytes_mapped m (pointer op - operand_width c) (pointer op) →
  (∀ m', load_value m' op (pointer op) = (w ← load_bytes n m' (pointer op - Z.of_nat n); Ok (of_bytes w))) →
  of_bytes (x mod 2 ^ (8 * Z.of_nat n)) = v →
  ∃ m', store_bytes n m (pointer op - Z.of_nat n) x = Ok m' ∧ stored c op m m' v.
Proof.
  intros Hw Hf Hm Hl Hv. unfold stored. rewrite Hw, Hf in *.
  destruct (store_bytes_spec n m (pointer op - Z.of_nat n) x) as (m' & E & L & S).
  { by replace (pointer op - Z.of_nat n + Z.of_nat n) with (pointer op) by lia. }
  replace (pointer op - Z.of_nat n + Z.of_nat n) with (pointer op) in S by lia.
  exists m'. split_and!; [done| |done|done]. by rewrite Hl, L, result_bind_ok, Hv.
Qed.

(** A class whose operand is a field of one instruction. *)
Lemma stored_masked c op m value mask shift bits (of_field : Z → Z) v :
  operand_width c = 4 → field_mask c = Some mask → 0 ≤ mask < 2 ^ 31 →
  bytes_mapped m (pointer op - operand_width c) (pointer op) →
  (∀ m', load_value m' op (pointer op) = (w ← load_value_masked m' op mask bits shift; Ok (of_field w))) →
  of_field (s32 (Z.shiftl (Z.shiftr (s32 (Z.shiftl (Z.land (Z.shiftr value shift) mask) bits)) bits) shift)) = v →
  ∃ m', store_value_masked op m value mask shift = Ok m' ∧ stored c op m m' v.
Proof.
  intros Hw Hf Hmask Hm Hl Hv. unfold stored. rewrite Hw, Hf in *.
  destruct (store_value_masked_spec op m value mask shift Hm Hmask) as (m' & w & E & S & L0 & L1 & K & R).
  exists m'. split_and!; [done| |done|].
  - by rewrite Hl, R, result_bind_ok, Hv.
  - intros k [= <-]. eauto.
Qed.

(** Sign extension of the low bits of [x], for the widths in use. *)
Ltac sign_extension :=
  intros Hx; rewrite Z.shiftr_div_pow2, Z.shiftl_mul_pow2 by lia; unfold s32; dlia.

Lemma sign_extend_16 x : - 2 ^ 15 ≤ x < 2 ^ 15 → Z.shiftr (s32 (Z.shiftl (x mod 2 ^ 16) 16)) 16 = x.
Proof. sign_extension. Qed.
Lemma sign_extend_26 x : - 2 ^ 25 ≤ x < 2 ^ 25 → Z.shiftr (s32 (Z.shiftl (x mod 2 ^ 26) 6)) 6 = x.
Proof. sign_extension. Qed.
Lemma sign_extend_12 x : - 2 ^ 11 ≤ x < 2 ^ 11 → Z.shiftr (s32 (Z.shiftl (x mod 2 ^ 12) 20)) 20 = x.
Proof. sign_extension. Qed.
Lemma no_sign_24 x : 0 ≤ x < 2 ^ 24 → Z.shiftr (s32 (Z.shiftl (x mod 2 ^ 24) 6)) 6 = x.
Proof. sign_extension. Qed.

Lemma stored_2_2 c op m v :
  klass (rel op) = Some RC_ABSOLUTE_PPC_2_2 → c = RC_ABSOLUTE_PPC_2_2 → 0 ≤ v < 2 ^ 32 →
  bytes_mapped m (pointer op - 8) (pointer op) →
  ∃ m', store_value_2_2 op m v = Ok m' ∧ stored c op m m' v.
Proof.
  intros Hk -> Hv Hm. unfold store_value_2_2, stored, load_value. rewrite Hk. cbn [operand_width field_mask].
  destruct (store_half_spec m (pointer op - 8) (Z.shiftr v 16)) as (m1 & w2 & -> & S1 & L1 & E1).
  { intros a Ha. apply Hm. lia. }
  rewrite result_bind_ok.
  destruct (store_half_spec m1 (pointer op - 4) v) as (m2 & w1 & -> & S2 & L2 & E2).
  { eapply same_bytes_mapped; [done|]. intros a Ha. apply Hm. lia. }
  exists m2. split_and!; [done| | |done].
  - unfold load_value_2_2. rewrite (load_bytes_same 4 _ _ _ _ (pointer op - 8) S2) by lia.
    rewrite L1, L2, !result_bind_ok, E1, E2. rewrite Z.shiftr_div_pow2 by lia.
    rewrite (u64_id (Z.shiftl _ _)) by (unfold is_cell; rewrite Z.shiftl_mul_pow2 by lia; dlia).
    rewrite lor_shiftl_add by dlia. rewrite s64_id by (unfold is_fixnum; dlia). f_equal. dlia.
  - apply (same_bytes_trans _ m1 _ _ (pointer op - 4)); [lia| |];
      eapply same_bytes_weaken; [| |done| | |done]; lia.
Qed.

(** Four 16-bit parts make up a cell. *)
Lemma join_halves x :
  is_cell x →
  Z.lor (Z.lor (Z.lor ((Z.shiftr x 48 mod 2 ^ 16) <<& 48) ((Z.shiftr x 32 mod 2 ^ 16) <<& 32))
               ((Z.shiftr x 16 mod 2 ^ 16) <<& 16)) (Z.shiftr x 0 mod 2 ^ 16) = x.
Proof.
  intros Hx. unfold is_cell in Hx. rewrite !Z.shiftr_div_pow2 by lia. change (2 ^ 0) with 1.
  rewrite Z.div_1_r. set (a := (x / 2 ^ 48) mod 2 ^ 16). set (b := (x / 2 ^ 32) mod 2 ^ 16).
  set (c := (x / 2 ^ 16) mod 2 ^ 16). set (d := x mod 2 ^ 16).
  assert (0 ≤ a < 2 ^ 16 ∧ 0 ≤ b < 2 ^ 16 ∧ 0 ≤ c < 2 ^ 16 ∧ 0 ≤ d < 2 ^ 16) as (? & ? & ? & ?)
    by (split_and!; apply Z.mod_pos_bound; lia).
  assert (x = a * 2 ^ 48 + b * 2 ^ 32 + c * 2 ^ 16 + d) as E by (subst a b c d; dlia).
  clearbody a b c d. clear Hx. subst x.
  rewrite !u64_id by (unfold is_cell; rewrite Z.shiftl_mul_pow2 by lia; lia).
  rewrite <- !Z.lor_assoc.
  rewrite (lor_shiftl_add c d 16) by lia.
  rewrite (lor_shiftl_add b _ 32), (lor_shiftl_add a _ 48) by lia. lia.
Qed.

Lemma stored_2_2_2_2 c op m v :
  klass (rel op) = Some RC_ABSOLUTE_PPC_2_2_2_2 → c = RC_ABSOLUTE_PPC_2_2_2_2 → is_fixnum v →
  bytes_mapped m (pointer op - 20) (pointer op) →
  ∃ m', store_value_2_2_2_2 op m v = Ok m' ∧ stored c op m m' v.
Proof.
  intros Hk -> Hv Hm. unfold store_value_2_2_2_2, stored, load_value. rewrite Hk.
  cbn [operand_width field_mask]. set (p := pointer op) in *.
  destruct (store_half_spec m (p - 20) (Z.shiftr (u64 v) 48)) as (m1 & w5 & -> & S1 & L1 & E1).
  { intros a Ha. apply Hm. lia. }
  rewrite result_bind_ok. apply (same_bytes_mapped _ _ _ _ _ _ S1) in Hm as Hm1.
  destruct (store_half_spec m1 (p - 16) (Z.shiftr (u64 v) 32)) as (m2 & w4 & -> & S2 & L2 & E2).
  { intros a Ha. apply Hm1. lia. }
  rewrite result_bind_ok. apply (same_bytes_mapped _ _ _ _ _ _ S2) in Hm1 as Hm2.
  destruct (store_half_spec m2 (p - 8) (Z.shiftr (u64 v) 16)) as (m3 & w2 & -> & S3 & L3 & E3).
  { intros a Ha. apply Hm2. lia. }
  rewrite result_bind_ok. apply (same_bytes_mapped _ _ _ _ _ _ S3) in Hm2 as Hm3.
  destruct (store_half_spec m3 (p - 4) (Z.shiftr (u64 v) 0)) as (m4 & w1 & -> & S4 & L4 & E4).
  { intros a Ha. apply Hm3. lia. }
  exists m4. split_and!; [done| | |done].
  - unfold load_value_2_2_2_2. fold p. rewrite (load_bytes_same 4 _ _ _ _ (p - 20) S4), (load_bytes_same 4 _ _ _ _ (p - 16) S4),
      (load_bytes_same 4 _ _ _ _ (p - 8) S4), (load_bytes_same 4 _ _ _ _ (p - 20) S3),
      (load_bytes_same 4 _ _ _ _ (p - 16) S3), (load_bytes_same 4 _ _ _ _ (p - 20) S2) by lia.
    rewrite L1, L2, L3, L4, !result_bind_ok, E1, E2, E3, E4.
    by rewrite join_halves, s64_u64, s64_id by auto using u64_range.
  - apply (same_bytes_trans _ m1 _ _ (p - 16)); [lia|eapply same_bytes_weaken; [| |done]; lia|].
    apply (same_bytes_trans _ m2 _ _ (p - 8)); [lia|eapply same_bytes_weaken; [| |done]; lia|].
    apply (same_bytes_trans _ m3 _ _ (p - 4)); [lia| |]; eapply same_bytes_weaken; [| |done| | |done]; lia.
Qed.

(** A field at the low end of an instruction. *)
Lemma low_field mask bits x :
  Z.shiftr (s32 (Z.shiftl (Z.land x mask) bits)) bits = x → - 2 ^ 31 ≤ x < 2 ^ 31 →
  s32 (Z.shiftl (Z.shiftr (s32 (Z.shiftl (Z.land (Z.shiftr x 0) mask) bits)) bits) 0) = x.
Proof. intros E Hx. rewrite Z.shiftr_0_r, Z.shiftl_0_r, E. by apply s32_id. Qed.

Lemma result_eta {A} (r : result A) : r = (a ← r; Ok a).
Proof. by destruct r. Qed.

(** Reduces a class of a plain integer, or of a field of one instruction, to
    the arithmetic of its encoding. *)
Tactic Notation "operand_class" uconstr(spec) hyp(Hk) :=
  eapply spec; [reflexivity|reflexivity|try done|..];
  try (intros m'; unfold load_value; rewrite Hk; first [reflexivity | apply result_eta]); try done.

(** ** What loads and stores depend on *)

Definition op_width (op : instruction_operand) : Z :=
  match klass (rel op) with Some c => operand_width c | None => 0 end.

Lemma load_value_ext m m' op r :
  (∀ a, pointer op - op_width op ≤ a < pointer op → load_byte m' a = load_byte m a) →
  load_value m' op r = load_value m op r.
Proof.
  unfold op_width, load_value, load_value_2_2, load_value_2_2_2_2, load_value_masked.
  destruct (klass (rel op)) as [[]|]; cbn [operand_width]; intros H; [..|done];
    repeat match goal with
    | |- context [load_bytes ?n m' ?a] =>
        rewrite (load_bytes_ext n m m' a) by (intros b Hb; apply H; lia)
    end; reflexivity.
Qed.

Lemma store_half_words m ptr h m' : store_half m ptr h = Ok m' → same_words_outside m m' ptr (ptr + 4).
Proof. unfold store_half. intros (w & _ & E)%result_bind_inv. by apply store_bytes_words in E. Qed.

Lemma store_value_words op m v m' :
  store_value op m v = Ok m' → same_words_outside m m' (pointer op - op_width op) (pointer op).
Proof.
  unfold op_width, store_value, store_value_2_2, store_value_2_2_2_2, store_value_masked.
  destruct (klass (rel op)) as [[]|]; cbn [operand_width]; [..|done]; intros E;
    repeat match goal with
    | E : (_ ≫= _) = Ok _ |- _ => apply result_bind_inv in E as (? & ? & E)
    end;
    repeat match goal with
    | E : store_half _ _ _ = Ok _ |- _ => apply store_half_words in E
    | E : store_bytes _ _ _ _ = Ok _ |- _ => apply store_bytes_words in E
    end;
    repeat match goal with
    | E : same_words_outside ?m0 ?m1 _ _ |- same_words_outside ?m0 ?m2 _ _ =>
        tryif constr_eq m1 m2 then (eapply same_words_weaken; [| |exact E]; lia)
        else (apply (same_words_trans _ m1); [eapply same_words_weaken; [| |exact E]; lia|clear E])
    end.
Qed.

(** * Theorems *)

(** A relocation entry gives back the type, the class and the offset it
    was made from, for every offset of 24 bits. *)
Theorem relocation_entry_roundtrip t c offset :
  0 ≤ offset < 2 ^ 24 →
  let value := relocation_entry t c offset in
  rel_type value = Some t ∧ klass value = Some c ∧ rel_offset value = offset ∧ 0 ≤ value < 2 ^ 32.
Proof.
  intros Ho value. destruct (enum_type t) as [Et Ht], (enum_class c) as [Ec Hc].
  assert (value = enum_value relocation_types t * 2 ^ 28 + enum_value relocation_classes c * 2 ^ 24 + offset)
    as E by (apply relocation_entry_eq; done).
  set (tv := enum_value relocation_types t) in *. set (cv := enum_value relocation_classes c) in *.
  unfold rel_type, klass, rel_offset. clearbody value tv cv. split_and!; try lia.
  - change 0xf0000000 with (Z.shiftl (Z.ones 4) 28). rewrite land_high_field by lia.
    replace ((value / 2 ^ 28) mod 2 ^ 4) with tv by dlia. done.
  - change 0x0f000000 with (Z.shiftl (Z.ones 4) 24). rewrite land_high_field by lia.
    replace ((value / 2 ^ 24) mod 2 ^ 4) with cv by dlia. done.
  - change 0x00ffffff with (2 ^ 24 - 1). rewrite land_ones_mod by lia. dlia.
Qed.

Lemma relocation_entry_roundtrip_witness :
  let value := relocation_entry RT_SAFEPOINT RC_RELATIVE 0x1234 in
  rel_type value = Some RT_SAFEPOINT ∧ klass value = Some RC_RELATIVE ∧
  rel_offset value = 0x1234 ∧ 0 ≤ value < 2 ^ 32.
Proof. apply (relocation_entry_roundtrip RT_SAFEPOINT RC_RELATIVE 0x1234). lia. Defined.

(** A value the class of an operand can hold is read back after
    [store_value]: the store changes only the bytes of the operand, and of an
    instruction whose field it is only that field. *)
Theorem store_value_roundtrip c op m v :
  klass (rel op) = Some c → operand_fits c (pointer op) v → is_fixnum v → is_cell (pointer op) →
  bytes_mapped m (pointer op - operand_width c) (pointer op) →
  ∃ m', store_value op m v = Ok m' ∧ stored c op m m' v.
Proof.
  intros Hk Hfit Hv Hp Hm. unfold is_cell, is_fixnum in *.
  unfold store_value. rewrite Hk.
  destruct c; cbn [operand_fits] in Hfit.
  - operand_class (stored_plain 8 _ op m _ v s64) Hk.
    rewrite Z.mod_small by apply u64_range. by rewrite s64_u64, s64_id.
  - operand_class (stored_plain 4 _ op m _ v (λ w : Z, w)) Hk. unfold u32. dlia.
  - operand_class (stored_plain 4 _ op m _ v (λ w, s64 (s32 w + pointer op))) Hk.
    rewrite (s64_id (v - _)) by (unfold is_fixnum; lia). unfold u32.
    rewrite (Z.mod_small (_ mod _)) by (apply Z.mod_pos_bound; lia). unfold s64, s32. dlia.
  - by apply stored_2_2.
  - operand_class (stored_masked _ op m _ _ _ 16 (λ w : Z, w) v) Hk. apply low_field; [|lia].
    change rel_absolute_ppc_2_mask with (2 ^ 16 - 1). rewrite land_ones_mod by lia.
    apply sign_extend_16. lia.
  - operand_class (stored_masked _ op m _ _ _ 16 (λ w, s64 (w + pointer op - 4)) v) Hk.
    rewrite (s64_id (v - _)), (s64_id (v - _ + 4)) by (unfold is_fixnum; lia).
    rewrite low_field; [rewrite s64_id; unfold is_fixnum; lia| |lia].
    change rel_relative_ppc_2_mask with (2 ^ 16 - 4). rewrite land_mask_low by dlia.
    apply sign_extend_16. lia.
  - operand_class (stored_masked _ op m _ _ _ 6 (λ w, s64 (w + pointer op - 4)) v) Hk.
    rewrite (s64_id (v - _)), (s64_id (v - _ + 4)) by (unfold is_fixnum; lia).
    rewrite low_field; [rewrite s64_id; unfold is_fixnum; lia| |lia].
    change rel_relative_ppc_3_mask with (2 ^ 26 - 4). rewrite land_mask_low by dlia.
    apply sign_extend_26. lia.
  - operand_class (stored_masked _ op m _ _ _ 6 (λ w, s64 (w + pointer op + 8)) v) Hk.
    rewrite (s64_id (v - _)), (s64_id (v - _ - 8)) by (unfold is_fixnum; lia).
    change rel_relative_arm_3_mask with (2 ^ 24 - 1). rewrite land_ones_mod by lia.
    rewrite no_sign_24 by (rewrite Z.shiftr_div_pow2 by lia; dlia).
    rewrite Z.shiftl_mul_pow2, Z.shiftr_div_pow2, s32_id by dlia. rewrite s64_id; unfold is_fixnum; dlia.
  - operand_class (stored_masked _ op m _ _ _ 20 (λ w, s64 (w + pointer op)) v) Hk.
    rewrite (s64_id (v - _)) by (unfold is_fixnum; lia).
    rewrite low_field; [rewrite s64_id; unfold is_fixnum; lia| |lia].
    change rel_indirect_arm_mask with (2 ^ 12 - 1). rewrite land_ones_mod by lia.
    apply sign_extend_12. lia.
  - operand_class (stored_masked _ op m _ _ _ 20 (λ w, s64 (w + pointer op + 8)) v) Hk.
    rewrite (s64_id (v - _)), (s64_id (v - _ - 8)) by (unfold is_fixnum; lia).
    rewrite low_field; [rewrite s64_id; unfold is_fixnum; lia| |lia].
    change rel_indirect_arm_mask with (2 ^ 12 - 1). rewrite land_ones_mod by lia.
    apply sign_extend_12. lia.
  - operand_class (stored_plain 2 _ op m _ v (λ w : Z, w)) Hk. unfold u16. dlia.
  - operand_class (stored_plain 1 _ op m _ v (λ w : Z, w)) Hk. unfold u8. dlia.
  - by apply stored_2_2_2_2.
Qed.

Lemma bytes_mapped_zeroed_region a n lo hi :
  a mod 8 = 0 → a ≤ lo → hi ≤ a + 8 * Z.of_nat n → bytes_mapped (zeroed_region a n) lo hi.
Proof.
  intros Ha Hlo Hhi b Hb. unfold word_address. apply (mapped_zeroed_region a n Ha); dlia.
Qed.

(** A call operand of a code block at 4096. *)
Definition sample_operand (c : relocation_class) : instruction_operand :=
  new_instruction_operand (relocation_entry RT_ENTRY_POINT c 21) 4096 0.

Lemma store_value_roundtrip_witness :
  ∃ m', store_value (sample_operand RC_RELATIVE) (zeroed_region 4096 16) 1000 = Ok m' ∧
    stored RC_RELATIVE (sample_operand RC_RELATIVE) (zeroed_region 4096 16) m' 1000.
Proof.
  apply (store_value_roundtrip RC_RELATIVE (sample_operand RC_RELATIVE)); [reflexivity|eval_side..|].
  apply bytes_mapped_zeroed_region; eval_side.
Defined.

(** C40. [RC_RELATIVE_ARM_3] does not extend the sign of its 24-bit field: a
    branch backwards is read back [2^26] bytes too high. *)
Theorem relative_arm_3_backward op m v :
  klass (rel op) = Some RC_RELATIVE_ARM_3 → is_fixnum v → is_cell (pointer op) →
  is_fixnum (v + 2 ^ 26) →
  - 2 ^ 25 ≤ v - pointer op - 8 < 0 → (v - pointer op) mod 4 = 0 →
  bytes_mapped m (pointer op - 4) (pointer op) →
  ∃ m', store_value op m v = Ok m' ∧ load_value m' op (pointer op) = Ok (v + 2 ^ 26).
Proof.
  intros Hk Hv Hp Hv' Hr H4 Hm. unfold is_cell, is_fixnum in *. unfold store_value. rewrite Hk.
  cut (∃ m', store_value_masked op m (s64 (s64 (v - pointer op) - 8)) rel_relative_arm_3_mask 2 = Ok m' ∧
    stored RC_RELATIVE_ARM_3 op m m' (v + 2 ^ 26)).
  { intros (m' & E & [L _]). eauto. }
  operand_class (stored_masked _ op m _ _ _ 6 (λ w, s64 (w + pointer op + 8)) _) Hk.
- rewrite (s64_id (v - _)), (s64_id (v - _ - 8)) by (unfold is_fixnum; lia).
    change rel_relative_arm_3_mask with (2 ^ 24 - 1). rewrite land_ones_mod by lia.
    rewrite <- (Zmod_mod _ (2 ^ 24)), no_sign_24 by (apply Z.mod_pos_bound; lia).
    rewrite Z.shiftl_mul_pow2, Z.shiftr_div_pow2 by lia. rewrite s32_id by dlia.
    rewrite s64_id; unfold is_fixnum; dlia.
Qed.

Lemma relative_arm_3_backward_witness :
  ∃ m', store_value (sample_operand RC_RELATIVE_ARM_3) (zeroed_region 4096 16) 4109 = Ok m' ∧
    load_value m' (sample_operand RC_RELATIVE_ARM_3) 4149 = Ok (4109 + 2 ^ 26).
Proof.
  apply (relative_arm_3_backward (sample_operand RC_RELATIVE_ARM_3)); [reflexivity|eval_side..|].
  apply bytes_mapped_zeroed_region; eval_side.
Defined.
