(* ===== verification/FreeList.v ===== *)
(** The free-list allocator of the tenured heap and of the code heap:
    vm/free_list.hpp.

    The allocator owns the words of [[fl_start, fl_end)] in a [memory] that
    it threads.  A [std::vector] is a list whose last element is the back; the
    [std::multiset] of large blocks is the list of its elements in iteration
    order, and the comparison reads the sizes from memory, as
    [block_size_compare] does. *)

From S2P Require Import Prelude.
From S2P Require Import Layouts.
From S2P Require Import BitwiseHacks.
From S2P Require Import MarkBits.
From S2P Require Import Memory.
From Stdlib Require Import Sorted.
Local Open Scope cell_scope.

(** * Definitions *)

(** src/vm/free_list.hpp:3-3 [free_list_count] *)
Definition free_list_count : Z := 32.
(** src/vm/free_list.hpp:4-4 [allocation_page_size] *)
Definition allocation_page_size : Z := 1024.

(** src/vm/free_list.hpp:37-49 [free_list_allocator] (part) *)
Record free_list_allocator := mk_free_list {
  fl_start : Z;
  fl_end : Z;
  fl_size : Z;
  small_blocks : list (list Z);
  large_blocks : list Z;
  free_block_count : Z;
  free_space : Z;
  fl_state : mark_bits
}.

(** src/vm/free_list.hpp:29-35 [allocator_room] *)
Record allocator_room := mk_allocator_room {
  room_size : Z;
  room_occupied_space : Z;
  room_total_free : Z;
  room_contiguous_free : Z;
  room_free_block_count : Z
}.

Definition set_lists (fl : free_list_allocator) (small : list (list Z)) (large : list Z)
    (count space : Z) : free_list_allocator :=
  mk_free_list (fl_start fl) (fl_end fl) (fl_size fl) small large count space (fl_state fl).

(** src/vm/free_list.hpp:79-86 [clear_free_list] *)
Definition clear_free_list (fl : free_list_allocator) : free_list_allocator :=
  set_lists fl (replicate (Z.to_nat free_list_count) []) [] 0 0.

(** src/vm/free_list.hpp:23-27 [block_size_compare] (part):
    [std::multiset::insert] with this order: after the elements that do not
    compare greater. *)
Fixpoint multiset_insert (m : memory) (block size : Z) (blocks : list Z) : result (list Z) :=
  match blocks with
  | [] => Ok [block]
  | b :: bs =>
      s ← free_block_size m b;
      if size <? s then Ok (block :: b :: bs)
      else bs' ← multiset_insert m block size bs; Ok (b :: bs')
  end.

(** src/vm/free_list.hpp:180-187 [find_free_block] (part):
    [lower_bound(&key)] with the element erased: the first block that does
    not compare less than [size], and the others. *)
Fixpoint multiset_take (m : memory) (size : Z) (blocks : list Z) : result (option (Z * list Z)) :=
  match blocks with
  | [] => Ok None
  | b :: bs =>
      s ← free_block_size m b;
      if s <? size then
        r ← multiset_take m size bs;
        Ok (match r with Some (x, bs') => Some (x, b :: bs') | None => None end)
      else Ok (Some (b, bs))
  end.

(** src/vm/free_list.hpp:88-99 [add_to_free_list] *)
Definition add_to_free_list (m : memory) (fl : free_list_allocator) (block : Z)
    : result free_list_allocator :=
  size ← free_block_size m block;
  let count := free_block_count fl +& 1 in
  let space := free_space fl +& size in
  if size <? free_list_count * data_alignment then
    let i := Z.to_nat (size / data_alignment) in
    bucket ← read (small_blocks fl) i;
    small ← write (small_blocks fl) i (bucket ++ [block]);
    Ok (set_lists fl small (large_blocks fl) count space)
  else
    large ← multiset_insert m block size (large_blocks fl);
    Ok (set_lists fl (small_blocks fl) large count space).

(** src/vm/free_list.hpp:101-109 [initial_free_list] *)
Definition initial_free_list (m : memory) (fl : free_list_allocator) (occupied : Z)
    : result (memory * free_list_allocator) :=
  let fl := clear_free_list fl in
  if negb (occupied =? fl_end fl -& fl_start fl) then
    let last_block := fl_start fl +& occupied in
    m ← make_free m last_block (fl_end fl -& last_block);
    fl ← add_to_free_list m fl last_block;
    Ok (m, fl)
  else Ok (m, fl).

(** src/vm/free_list.hpp:111-118 [free_list_allocator] *)
Definition new_free_list_allocator (m : memory) (size start : Z)
    : result (memory * free_list_allocator) :=
  initial_free_list m
    (mk_free_list start (start +& size) size (replicate (Z.to_nat free_list_count) []) [] 0 0
       (new_mark_bits size start)) 0.

(** src/vm/free_list.hpp:120-123 [contains_p] *)
Definition contains_p (fl : free_list_allocator) (block : Z) : bool :=
  (block -& fl_start fl) <? fl_size fl.

(** src/vm/free_list.hpp:130-143 [split_free_block] *)
Definition split_free_block (m : memory) (fl : free_list_allocator) (block size : Z)
    : result (memory * free_list_allocator * Z) :=
  block_size ← free_block_size m block;
  if negb (block_size =? size) then
    let split := block +& size in
    m ← make_free m split (block_size -& size);
    m ← make_free m block size;
    fl ← add_to_free_list m fl split;
    Ok (m, fl, block)
  else Ok (m, fl, block).

(** src/vm/free_list.hpp:163-168 [find_free_block] (part):
    The loop that carves a large block into [n] pieces; it runs
    [large_block_size / size] times, rounded up. *)
Fixpoint carve_loop (m : memory) (fl : free_list_allocator) (large_block size : Z) (n : nat)
    : result (memory * free_list_allocator) :=
  match n with
  | 0%nat => Ok (m, fl)
  | S n' =>
      m ← make_free m large_block size;
      fl ← add_to_free_list m fl large_block;
      carve_loop m fl (large_block +& size) size n'
  end.

(** src/vm/free_list.hpp:171-177 [find_free_block] (part):
    [blocks.back()], [blocks.pop_back()] on the bucket. *)
Definition pop_small_block (m : memory) (fl : free_list_allocator) (i : nat)
    : result (free_list_allocator * option Z) :=
  blocks ← read (small_blocks fl) i;
  match last blocks with
  | None => Err BAD_ACCESS
  | Some block =>
      small ← write (small_blocks fl) i (removelast blocks);
      size ← free_block_size m block;
      Ok (set_lists fl small (large_blocks fl) (free_block_count fl -& 1) (free_space fl -& size),
          Some block)
  end.

(** src/vm/free_list.hpp:145-197 [find_free_block] *)
Fixpoint find_free_block_depth (depth : nat) (m : memory) (fl : free_list_allocator) (size : Z)
    : result (memory * free_list_allocator * option Z) :=
  let bucket := size / data_alignment in
  if bucket <? free_list_count then
    blocks ← read (small_blocks fl) (Z.to_nat bucket);
    match blocks, depth with
    | _ :: _, _ =>
        '(fl, block) ← pop_small_block m fl (Z.to_nat bucket);
        Ok (m, fl, block)
    | [], 0%nat => Err LOOP_BOUND
    | [], S depth' =>
        if size =? 0 then Err ERROR_DIVIDE_BY_ZERO else
        let large_block_size := ((allocation_page_size + size - 1) / size) * size in
        '(m, fl, r) ← find_free_block_depth depth' m fl large_block_size;
        match r with
        | None => Ok (m, fl, None)
        | Some large_block =>
            '(m, fl, large_block) ← split_free_block m fl large_block large_block_size;
            '(m, fl) ← carve_loop m fl large_block size
                         (Z.to_nat ((large_block_size + size - 1) / size));
            '(fl, block) ← pop_small_block m fl (Z.to_nat bucket);
            Ok (m, fl, block)
        end
    end
  else
    r ← multiset_take m size (large_blocks fl);
    match r with
    | Some (block, large) =>
        size ← free_block_size m block;
        Ok (m, set_lists fl (small_blocks fl) large (free_block_count fl -& 1) (free_space fl -& size),
            Some block)
    | None => Ok (m, fl, None)
    end.

(** The recursion of [find_free_block] is one call deep. *)
Definition find_free_block := find_free_block_depth 1.

(** src/vm/free_list.hpp:200-210 [allot] *)
Definition allot (m : memory) (fl : free_list_allocator) (size : Z)
    : result (memory * free_list_allocator * option Z) :=
  let size := align size data_alignment in
  '(m, fl, r) ← find_free_block m fl size;
  match r with
  | Some block =>
      '(m, fl, block) ← split_free_block m fl block size;
      Ok (m, fl, Some block)
  | None => Ok (m, fl, None)
  end.

(** src/vm/free_list.hpp:212-217 [free]: [block_size] is the [size] method of [Block]. *)
Definition free (block_size : memory → Z → result Z) (m : memory) (fl : free_list_allocator)
    (block : Z) : result (memory * free_list_allocator) :=
  size ← block_size m block;
  m ← make_free m block size;
  fl ← add_to_free_list m fl block;
  Ok (m, fl).

(** src/vm/free_list.hpp:219-222 [occupied_space] *)
Definition occupied_space (fl : free_list_allocator) : Z := fl_size fl -& free_space fl.

(** src/vm/free_list.hpp:230-234 [largest_free_block] (part):
    The loop over the buckets, from the last one down. *)
Fixpoint largest_small_block (m : memory) (buckets : list (list Z)) : result Z :=
  match buckets with
  | [] => Ok 0
  | bucket :: rest =>
      match last bucket with
      | Some block => free_block_size m block
      | None => largest_small_block m rest
      end
  end.

(** src/vm/free_list.hpp:224-236 [largest_free_block] *)
Definition largest_free_block (m : memory) (fl : free_list_allocator) : result Z :=
  match last (large_blocks fl) with
  | Some block => free_block_size m block
  | None => largest_small_block m (rev (small_blocks fl))
  end.

(** src/vm/free_list.hpp:125-128 [can_allot_p] *)
Definition can_allot_p (m : memory) (fl : free_list_allocator) (size : Z) : result bool :=
  largest ← largest_free_block m fl;
  Ok (Z.max size allocation_page_size <=? largest).

(** src/vm/free_list.hpp:310-319 [as_allocator_room] *)
Definition as_allocator_room (m : memory) (fl : free_list_allocator) : result allocator_room :=
  contiguous_free ← largest_free_block m fl;
  Ok (mk_allocator_room (fl_size fl) (occupied_space fl) (free_space fl) contiguous_free
        (free_block_count fl)).

(** * Iteration

    [X] is the state of the caller's iterator. *)

(** src/vm/free_list.hpp:246-263 [sweep] (part):
    One turn of the loop; it leaves with the final state or an error. *)
Definition sweep_body {X} (iter : Z → Z → X → result X) (st : memory * free_list_allocator * X * Z)
    : (memory * free_list_allocator * X * Z) + result (memory * free_list_allocator * X) :=
  let '(m, fl, x, start) := st in
  if start =? fl_end fl then inr (Ok (m, fl, x))
  else
    let start := next_unmarked_block_after (fl_state fl) start in
    if start =? fl_end fl then inl (m, fl, x, start)
    else
      let size := unmarked_block_size (fl_state fl) start in
      match
        check (0 <? size) ≫= λ _,
        m ← make_free m start size;
        fl ← add_to_free_list m fl start;
        x ← iter start size x;
        Ok (m, fl, x, start +& size)
      with
      | Ok st' => inl st'
      | Err e => inr (Err e)
      end.

(** src/vm/free_list.hpp:238-263 [sweep] *)
Definition sweep_with {X} (iter : Z → Z → X → result X) (m : memory) (fl : free_list_allocator) (x : X)
    : result (memory * free_list_allocator * X) :=
  let fl := clear_free_list fl in
  r ← while_loop (sweep_body iter) (m, fl, x, fl_start fl);
  r.

(** src/vm/free_list.hpp:265-268 [sweep] (part) *)
Definition sweep (m : memory) (fl : free_list_allocator) : result (memory * free_list_allocator) :=
  '(m, fl, _) ← sweep_with (λ _ _ x, Ok x) m fl ();
  Ok (m, fl).

(** src/vm/free_list.hpp:301-307 [iterate] (part):
    One turn of the loop.  [fixup_size] is [fixup.size(block)], which reads
    the block in memory and may depend on what the iterator has done;
    [block->free_p()] is the bit of its first word. *)
Definition iterate_body {X} (fixup_size : X → memory → Z → result Z)
    (iter : Z → Z → memory * X → result (memory * X)) (fl_end : Z) (st : memory * X * Z)
    : (memory * X * Z) + result (memory * X) :=
  let '(m, x, scan) := st in
  if scan =? fl_end then inr (Ok (m, x))
  else
    match
      size ← fixup_size x m scan;
      header ← load m scan;
      '(m, x) ← (if negb (free_p header) then iter scan size (m, x) else Ok (m, x));
      Ok (m, x, scan +& size)
    with
    | Ok st' => inl st'
    | Err e => inr (Err e)
    end.

(** src/vm/free_list.hpp:295-308 [iterate] *)
Definition iterate {X} (fixup_size : X → memory → Z → result Z)
    (iter : Z → Z → memory * X → result (memory * X)) (fl : free_list_allocator)
    (m : memory) (x : X) : result (memory * X) :=
  r ← while_loop (iterate_body fixup_size iter (fl_end fl)) (m, x, fl_start fl);
  r.

(** [memmove] of [n] words, lower addresses first: the words read are those
    before the move when the destination is not above the source. *)
Fixpoint move_words (m : memory) (dest src : Z) (n : nat) : result memory :=
  match n with
  | 0%nat => Ok m
  | S n' => w ← load m src; m ← store m dest w; move_words m (dest + 8) (src + 8) n'
  end.

(** src/vm/free_list.hpp:277-287 [compact] (part):
    [compact_block_func].  The state is the finger, [dest_addr] and the state
    of the caller's iterator. *)
Definition compact_block {X} (state : mark_bits) (iter : Z → Z → Z → memory * X → result (memory * X))
    (block size : Z) (st : memory * (Z * Z * X)) : result (memory * (Z * Z * X)) :=
  let '(m, (finger, dest_addr, x)) := st in
  mk ← marked_p state block;
  if negb mk then Ok (m, (finger, dest_addr, x))
  else
    let finger := block +& size in
    m ← (if negb (dest_addr =? block) then move_words m dest_addr block (Z.to_nat (size / 8)) else Ok m);
    '(m, x) ← iter block dest_addr size (m, x);
    Ok (m, (finger, dest_addr +& size, x)).

(** src/vm/free_list.hpp:270-293 [compact]: the fixup measures a block with
    the current finger; the new finger is returned. *)
Definition compact {X} (fixup_size : Z → memory → Z → result Z)
    (iter : Z → Z → Z → memory * X → result (memory * X)) (m : memory) (fl : free_list_allocator)
    (finger : Z) (x : X) : result (memory * free_list_allocator * Z * X) :=
  '(m, (finger, dest_addr, x)) ←
    iterate (λ st, fixup_size st.1.1) (compact_block (fl_state fl) iter) fl m (finger, fl_start fl, x);
  '(m, fl) ← initial_free_list m fl (dest_addr -& fl_start fl);
  Ok (m, fl, finger, x).

(** * The invariant

    The free blocks, small and large, are pairwise disjoint aligned pieces of
    the region, each with a header that says it is free and gives its size; a
    bucket holds blocks of its own size only; the large blocks are in order of
    size; and the two totals are those of the blocks. *)

Definition free_blocks (fl : free_list_allocator) : list Z :=
  concat (small_blocks fl) ++ large_blocks fl.

(** The size in a header, 0 where there is none. *)
Definition size_at (m : memory) (b : Z) : Z :=
  match m !! b with Some h => h - 1 | None => 0 end.

Definition inside (m : memory) (b x : Z) : Prop := b ≤ x < b + size_at m b.

Record block_ok (m : memory) (lo hi b : Z) : Prop := {
  block_header : m !! b = Some (free_header (size_at m b));
  block_size_ok : size_ok (size_at m b);
  block_aligned : b mod 16 = 0;
  block_in : lo ≤ b ∧ b + size_at m b ≤ hi
}.

Definition disjoint_blocks (m : memory) (bs : list Z) : Prop :=
  NoDup bs ∧ ∀ b c x, b ∈ bs → c ∈ bs → inside m b x → inside m c x → b = c.

Definition total_size (m : memory) (bs : list Z) : Z := foldr (λ b t, size_at m b + t) 0 bs.

(** The region itself. *)
Record region_ok (m : memory) (fl : free_list_allocator) : Prop := {
  region_start : 0 ≤ fl_start fl;
  region_aligned : fl_start fl mod 16 = 0;
  region_size : 0 ≤ fl_size fl ∧ fl_size fl mod 16 = 0;
  region_end : fl_end fl = fl_start fl + fl_size fl;
  region_cell : fl_end fl < 2 ^ 64;
  region_mapped : mapped m (fl_start fl) (fl_end fl)
}.

Record lists_ok (m : memory) (fl : free_list_allocator) : Prop := {
  small_count : length (small_blocks fl) = 32%nat;
  small_sizes : ∀ i bs b, small_blocks fl !! i = Some bs → b ∈ bs → size_at m b = 16 * Z.of_nat i;
  large_sizes : ∀ b, b ∈ large_blocks fl → 512 ≤ size_at m b;
  large_sorted : StronglySorted (λ b c, size_at m b ≤ size_at m c) (large_blocks fl);
  count_ok : free_block_count fl = Z.of_nat (length (free_blocks fl));
  space_ok : free_space fl = total_size m (free_blocks fl)
}.

Record free_list_ok (m : memory) (fl : free_list_allocator) : Prop := {
  fl_region : region_ok m fl;
  fl_lists : lists_ok m fl;
  fl_blocks : ∀ b, b ∈ free_blocks fl → block_ok m (fl_start fl) (fl_end fl) b;
  fl_disjoint : disjoint_blocks m (free_blocks fl)
}.

(** The address [x] is in a free block. *)
Definition free_at (m : memory) (fl : free_list_allocator) (x : Z) : Prop :=
  ∃ b, b ∈ free_blocks fl ∧ inside m b x.

(** ** Disjoint blocks fit in their region *)

Definition block_lines (m : memory) (b : Z) : list Z := seqZ (b / 16) (size_at m b / 16).

Lemma length_block_lines m bs :
  Forall (λ b, 0 ≤ size_at m b ∧ size_at m b mod 16 = 0) bs →
  16 * Z.of_nat (length (bs ≫= block_lines m)) = total_size m bs.
Proof.
  induction 1 as [|b bs Hb _ IH]; [done|]. cbn. rewrite length_app, Nat2Z.inj_add, Z.mul_add_distr_l, IH.
  unfold block_lines at 1. rewrite length_seqZ. fold (total_size m bs). dlia.
Qed.

Lemma elem_of_block_lines m lo hi b y :
  block_ok m lo hi b → y ∈ block_lines m b ↔ inside m b (16 * y).
Proof.
  intros [_ [_ H16] Ha _]. unfold block_lines, inside. rewrite elem_of_seqZ. split; dlia.
Qed.

Lemma NoDup_block_lines m lo hi bs :
  (∀ b, b ∈ bs → block_ok m lo hi b) → disjoint_blocks m bs → NoDup (bs ≫= block_lines m).
Proof.
  intros Hok [Hnd Hdis]. apply NoDup_bind; [|intros; apply NoDup_seqZ|done].
  intros b c y Hb Hc Hyb Hyc. apply (Hdis b c (16 * y)); [done|done|..].
  - by eapply elem_of_block_lines; [apply Hok|].
  - by eapply elem_of_block_lines; [apply Hok|].
Qed.

Lemma total_size_le m lo hi bs :
  0 ≤ lo → lo mod 16 = 0 → lo ≤ hi → (∀ b, b ∈ bs → block_ok m lo hi b) → disjoint_blocks m bs →
  0 ≤ total_size m bs ≤ hi - lo.
Proof.
  intros Hlo Hal Hhi Hok Hdis. rewrite <- length_block_lines.
  2:{ apply Forall_forall. intros b Hb. destruct (Hok b Hb) as [_ [? ?] _ _]. lia. }
  split; [lia|].
  assert ((bs ≫= block_lines m) ⊆+ seqZ (lo / 16) ((hi - lo) / 16)) as Hsub.
  { apply NoDup_submseteq.
    - by eapply NoDup_block_lines.
    - intros y (b & Hy & Hb)%list_elem_of_bind. destruct (Hok b Hb) as [_ [? ?] ? ?].
      unfold block_lines in Hy. rewrite elem_of_seqZ in Hy. apply elem_of_seqZ. dlia. }
  apply submseteq_length in Hsub. rewrite length_seqZ in Hsub. dlia.
Qed.

(** ** Stability *)

Lemma size_at_insert_ne m a w b : a ≠ b → size_at (<[a := w]> m) b = size_at m b.
Proof. intros. unfold size_at. by rewrite lookup_insert_ne. Qed.

Lemma size_at_insert_eq m a s : size_at (<[a := free_header s]> m) a = s.
Proof. unfold size_at, free_header. rewrite lookup_insert_eq. lia. Qed.

Lemma block_ok_insert_ne m lo hi a w b :
  a ≠ b → block_ok m lo hi b → block_ok (<[a := w]> m) lo hi b.
Proof.
  intros Hne [Hh Hs Ha Hi]. split; rewrite ?size_at_insert_ne by done; try done.
  by rewrite lookup_insert_ne.
Qed.

Lemma block_ok_insert_eq m lo hi a s :
  size_ok s → a mod 16 = 0 → lo ≤ a → a + s ≤ hi → block_ok (<[a := free_header s]> m) lo hi a.
Proof.
  intros. split; rewrite ?size_at_insert_eq; try done. by rewrite lookup_insert_eq.
Qed.

Lemma total_size_ext m m' bs :
  (∀ b, b ∈ bs → size_at m' b = size_at m b) → total_size m' bs = total_size m bs.
Proof.
  induction bs as [|b bs IH]; intros H; [done|]. cbn. rewrite H by set_solver. f_equal.
  apply IH. set_solver.
Qed.

Lemma total_size_perm m bs cs : bs ≡ₚ cs → total_size m bs = total_size m cs.
Proof. unfold total_size. induction 1; cbn; lia. Qed.

Lemma disjoint_perm m bs cs : bs ≡ₚ cs → disjoint_blocks m bs → disjoint_blocks m cs.
Proof.
  intros Hp [Hnd Hd]. split; [by rewrite <- Hp|]. intros b c x. rewrite <- Hp. apply Hd.
Qed.

Lemma disjoint_cons m b bs :
  0 < size_at m b →
  disjoint_blocks m (b :: bs) ↔
  disjoint_blocks m bs ∧ ∀ c x, c ∈ bs → inside m b x → inside m c x → False.
Proof.
  intros Hb. unfold disjoint_blocks. rewrite NoDup_cons. split.
  - intros [[Hni Hnd] Hd]. split_and!; [done|set_solver|]. intros c x Hc Hx Hy.
    apply Hni. by rewrite (Hd b c x) by set_solver.
  - intros [[Hnd Hd] Hx].
    assert (b ∉ bs) as Hni by (intros Hin; apply (Hx b b Hin); unfold inside; lia).
    split; [done|]. intros c d x. rewrite !elem_of_cons. intros [->|Hc] [->|Hd'] H1 H2; [done| | |eauto].
    + destruct (Hx d x Hd' H1 H2).
    + destruct (Hx c x Hc H2 H1).
Qed.

Lemma sorted_ext {A} (R R' : A → A → Prop) l :
  (∀ x y, x ∈ l → y ∈ l → R x y → R' x y) → StronglySorted R l → StronglySorted R' l.
Proof.
  intros HR Hs. induction Hs as [|x l Hs IH Hx]; constructor.
  - apply IH. set_solver.
  - rewrite Forall_forall in *. set_solver.
Qed.

Lemma elem_of_small fl i bs b : small_blocks fl !! i = Some bs → b ∈ bs → b ∈ free_blocks fl.
Proof.
  intros Hi Hb. apply elem_of_app. left. apply list_elem_of_In, in_concat.
  exists bs. split; apply list_elem_of_In; [by eapply list_elem_of_lookup_2|done].
Qed.

Lemma elem_of_large fl b : b ∈ large_blocks fl → b ∈ free_blocks fl.
Proof. intros. apply elem_of_app. by right. Qed.

(** A write that is not to the header of a free block. *)
Lemma free_list_ok_insert m fl a w :
  a ∉ free_blocks fl → free_list_ok m fl → free_list_ok (<[a := w]> m) fl.
Proof.
  intros Ha [[] [] Hb [Hnd Hd]].
  assert (∀ b, b ∈ free_blocks fl → size_at (<[a := w]> m) b = size_at m b) as E.
  { intros b Hin. apply size_at_insert_ne. by intros ->. }
  split.
  - split; try done. by apply mapped_insert.
  - split; try done.
    + intros i bs b Hi Hin. rewrite E by (by eapply elem_of_small). eauto.
    + intros b Hin. rewrite E by (by apply elem_of_large). eauto.
    + eapply sorted_ext; [|done]. intros x y Hx Hy. by rewrite !E by (by apply elem_of_large).
    + by rewrite (total_size_ext m).
  - intros b Hin. apply block_ok_insert_ne; [by intros ->|eauto].
  - split; [done|]. intros b c x Hb' Hc. unfold inside. rewrite !E by done. by apply Hd.
Qed.

Lemma free_at_insert m fl a w x :
  a ∉ free_blocks fl → free_at (<[a := w]> m) fl x ↔ free_at m fl x.
Proof.
  intros Ha. unfold free_at, inside. apply exist_proper. intros b.
  destruct (decide (b ∈ free_blocks fl)) as [Hin|]; [|naive_solver].
  rewrite size_at_insert_ne by (by intros ->). done.
Qed.

Lemma not_free_block m fl a : free_list_ok m fl → ¬ free_at m fl a → a ∉ free_blocks fl.
Proof.
  intros Hok Ha Hin. apply Ha. exists a. split; [done|].
  destruct (fl_blocks _ _ Hok a Hin) as [_ [? _] _ _]. unfold inside. lia.
Qed.

(** ** Adding and removing a block *)

Record same_region (fl fl' : free_list_allocator) : Prop := {
  same_start : fl_start fl' = fl_start fl;
  same_end : fl_end fl' = fl_end fl;
  same_size : fl_size fl' = fl_size fl;
  same_state : fl_state fl' = fl_state fl
}.

Lemma same_region_set fl small large c s : same_region fl (set_lists fl small large c s).
Proof. done. Qed.

Lemma same_region_refl fl : same_region fl fl.
Proof. done. Qed.

Lemma same_region_trans fl fl' fl'' : same_region fl fl' → same_region fl' fl'' → same_region fl fl''.
Proof. intros [] []. split; congruence. Qed.

Lemma concat_insert_perm (ls : list (list Z)) i l l' b :
  ls !! i = Some l → l' ≡ₚ b :: l → concat (<[i := l']> ls) ≡ₚ b :: concat ls.
Proof.
  intros Hi Hl. rewrite <- (take_drop_middle ls i l Hi) at 2.
  rewrite insert_take_drop by (by eapply lookup_lt_Some).
  rewrite !concat_app. cbn. rewrite Hl. cbn. by rewrite <- Permutation_middle.
Qed.

Lemma block_count_le m bs :
  (∀ b, b ∈ bs → size_ok (size_at m b)) → 16 * Z.of_nat (length bs) ≤ total_size m bs.
Proof.
  induction bs as [|b bs IH]; intros H; [cbn; lia|].
  assert (16 ≤ size_at m b) by (destruct (H b); [set_solver|dlia]).
  assert (16 * Z.of_nat (length bs) ≤ total_size m bs) by (apply IH; set_solver).
  cbn [length total_size foldr]. fold (total_size m bs). lia.
Qed.

(** The totals of a list of blocks of the region do not wrap around. *)
Lemma totals_range m fl bs :
  region_ok m fl → (∀ b, b ∈ bs → block_ok m (fl_start fl) (fl_end fl) b) → disjoint_blocks m bs →
  0 ≤ total_size m bs ≤ fl_size fl ∧ is_cell (total_size m bs) ∧ is_cell (Z.of_nat (length bs)).
Proof.
  intros [Hs Ha Hsz He Hc _] Hb Hd.
  pose proof (total_size_le m (fl_start fl) (fl_end fl) bs Hs Ha ltac:(lia) Hb Hd) as Ht.
  pose proof (block_count_le m bs (λ b Hin, block_size_ok _ _ _ _ (Hb b Hin))).
  unfold is_cell. lia.
Qed.

(** New lists with one block more. *)
Lemma insert_block_ok m fl b small large :
  free_list_ok m fl → block_ok m (fl_start fl) (fl_end fl) b →
  (∀ x, inside m b x → ¬ free_at m fl x) →
  concat small ++ large ≡ₚ b :: free_blocks fl →
  length small = 32%nat →
  (∀ i bs c, small !! i = Some bs → c ∈ bs → size_at m c = 16 * Z.of_nat i) →
  (∀ c, c ∈ large → 512 ≤ size_at m c) →
  StronglySorted (λ b c, size_at m b ≤ size_at m c) large →
  let fl' := set_lists fl small large (free_block_count fl +& 1) (free_space fl +& size_at m b) in
  free_list_ok m fl' ∧ ∀ x, free_at m fl' x ↔ free_at m fl x ∨ inside m b x.
Proof.
  intros [Hr Hl Hb Hd] Hbok Hfree Hp Hlen Hsm Hlg Hso fl'.
  destruct (block_size_ok _ _ _ _ Hbok) as [Hpos _].
  assert (disjoint_blocks m (b :: free_blocks fl)) as Hd'.
  { apply disjoint_cons; [lia|]. split; [done|]. intros c x Hc Hx Hy. apply (Hfree x Hx). by exists c. }
  assert (∀ c, c ∈ b :: free_blocks fl → block_ok m (fl_start fl) (fl_end fl) c) as Hb'.
  { intros c [->|Hc]%elem_of_cons; [done|auto]. }
  destruct (totals_range m fl _ Hr Hb' Hd') as (Ht & Htc & Hcc).
  change (free_blocks fl') with (concat small ++ large) in *.
  split.
  - split; [by destruct Hr| | |].
    + split; try done; cbn -[total_size]; unfold free_blocks; cbn -[total_size].
      * rewrite (count_ok _ _ Hl), Hp. cbn [length] in Hcc |- *. rewrite u64_id; [lia|].
        by replace (Z.of_nat (length (free_blocks fl)) + 1) with (Z.of_nat (S (length (free_blocks fl)))) by lia.
      * rewrite (space_ok _ _ Hl), (total_size_perm _ _ _ Hp).
        cbn [total_size foldr] in *. fold (total_size m (free_blocks fl)) in *. rewrite u64_id; [lia|].
        by rewrite Z.add_comm.
    + intros c. unfold free_blocks. cbn. rewrite Hp. apply Hb'.
    + unfold free_blocks. cbn. eapply disjoint_perm; [|exact Hd']. done.
  - intros x. unfold free_at, free_blocks at 1. cbn. setoid_rewrite Hp. set_solver.
Qed.

(** New lists with one block less. *)
Lemma remove_block_ok m fl b small large :
  free_list_ok m fl →
  free_blocks fl ≡ₚ b :: concat small ++ large →
  length small = 32%nat →
  (∀ i bs c, small !! i = Some bs → c ∈ bs → size_at m c = 16 * Z.of_nat i) →
  (∀ c, c ∈ large → 512 ≤ size_at m c) →
  StronglySorted (λ b c, size_at m b ≤ size_at m c) large →
  let fl' := set_lists fl small large (free_block_count fl -& 1) (free_space fl -& size_at m b) in
  free_list_ok m fl' ∧ block_ok m (fl_start fl) (fl_end fl) b ∧
  (∀ x, free_at m fl x ↔ free_at m fl' x ∨ inside m b x) ∧
  (∀ x, inside m b x → ¬ free_at m fl' x).
Proof.
  intros Hok Hp Hlen Hsm Hlg Hso fl'. pose proof Hok as [Hr Hl Hb Hd].
  assert (block_ok m (fl_start fl) (fl_end fl) b) as Hbok by (apply Hb; rewrite Hp; set_solver).
  destruct (block_size_ok _ _ _ _ Hbok) as [Hpos _].
  apply (disjoint_perm _ _ _ Hp), disjoint_cons in Hd as [Hd Hsep]; [|lia].
  assert (∀ c, c ∈ concat small ++ large → block_ok m (fl_start fl) (fl_end fl) c) as Hb'.
  { intros c Hc. apply Hb. rewrite Hp. set_solver. }
  destruct (totals_range m fl _ Hr Hb' Hd) as (Ht & Htc & Hcc).
  split_and!; [|done| |].
  - split; [by destruct Hr| | |].
    + split; try done; cbn -[total_size]; unfold free_blocks; cbn -[total_size].
      * rewrite (count_ok _ _ Hl), Hp. cbn [length]. rewrite Nat2Z.inj_succ. rewrite u64_id by (by rewrite Z.sub_1_r, Z.pred_succ).
        lia.
      * rewrite (space_ok _ _ Hl), (total_size_perm _ _ _ Hp).
        cbn [total_size foldr]. fold (total_size m (concat small ++ large)).
        by rewrite Z.add_simpl_l, u64_id.
    + done.
    + done.
  - intros x. unfold free_at. setoid_rewrite Hp. unfold free_blocks. cbn. set_solver.
  - intros x Hx (c & Hc & Hy). by apply (Hsep c x).
Qed.

Abbreviation by_size m := (λ b c, size_at m b ≤ size_at m c).

Lemma block_size_read m lo hi b : block_ok m lo hi b → free_block_size m b = Ok (size_at m b).
Proof. intros [Hh Hs _ _]. by apply free_block_size_spec. Qed.

Lemma multiset_insert_spec m lo hi block bs :
  (∀ b, b ∈ bs → block_ok m lo hi b) → StronglySorted (by_size m) bs →
  ∃ bs', multiset_insert m block (size_at m block) bs = Ok bs' ∧ bs' ≡ₚ block :: bs ∧
         StronglySorted (by_size m) bs'.
Proof.
  intros Hok Hs. induction Hs as [|b bs Hs IH Hb]; cbn [multiset_insert].
  { eexists; split_and!; [done|done|]. repeat constructor. }
  rewrite (block_size_read m lo hi b) by (apply Hok; set_solver). cbn.
  rewrite Forall_forall in Hb.
  destruct (Z.ltb_spec (size_at m block) (size_at m b)).
  - eexists; split_and!; [done|done|]. constructor; [constructor; [done|by apply Forall_forall]|].
    apply Forall_forall. intros c [->|Hc]%elem_of_cons; [lia|]. specialize (Hb c Hc). lia.
  - destruct IH as (bs' & -> & Hp & Hs'); [set_solver|]. eexists; split_and!; [done| |].
    + rewrite Hp. constructor.
    + constructor; [done|]. apply Forall_forall. intros c. rewrite Hp.
      intros [->|Hc]%elem_of_cons; [lia|auto].
Qed.

(** [lower_bound]: the smallest block that is large enough. *)
Lemma multiset_take_spec m lo hi size bs :
  (∀ b, b ∈ bs → block_ok m lo hi b) → StronglySorted (by_size m) bs →
  ∃ r, multiset_take m size bs = Ok r ∧
    match r with
    | Some (b, bs') => bs ≡ₚ b :: bs' ∧ size ≤ size_at m b ∧ StronglySorted (by_size m) bs'
    | None => ∀ b, b ∈ bs → size_at m b < size
    end.
Proof.
  intros Hok Hs. induction Hs as [|b bs Hs IH Hb]; cbn [multiset_take].
  { eexists; split; [done|]. set_solver. }
  rewrite (block_size_read m lo hi b) by (apply Hok; set_solver). cbn.
  destruct (Z.ltb_spec (size_at m b) size).
  - destruct IH as ([[c bs']|] & -> & Hr); [set_solver|..]; (eexists; split; [done|]); cbn.
    + destruct Hr as (Hp & Hc & Hs'). split_and!; [rewrite Hp; constructor|done|].
      constructor; [done|]. rewrite Forall_forall in *. intros d Hd. apply Hb. rewrite Hp. set_solver.
    + set_solver.
  - eexists; split; [done|]. done.
Qed.

Lemma lookup_bucket fl i : length (small_blocks fl) = 32%nat → (i < 32)%nat →
  ∃ bs, small_blocks fl !! i = Some bs.
Proof. intros Hl Hi. apply lookup_lt_is_Some_2. lia. Qed.

(** Writing one bucket. *)
Lemma insert_bucket_sizes m fl i bs' :
  lists_ok m fl → (∀ b, b ∈ bs' → size_at m b = 16 * Z.of_nat i) →
  ∀ j bs c, <[i := bs']> (small_blocks fl) !! j = Some bs → c ∈ bs → size_at m c = 16 * Z.of_nat j.
Proof.
  intros Hl Hbs j bs c Hj Hc. apply list_lookup_insert_Some in Hj as [(<- & <- & _)|(_ & Hj)]; [auto|].
  by eapply small_sizes.
Qed.

(** [add_to_free_list]: the region gains exactly the block. *)
Lemma add_to_free_list_spec m fl b :
  free_list_ok m fl → block_ok m (fl_start fl) (fl_end fl) b →
  (∀ x, inside m b x → ¬ free_at m fl x) →
  ∃ fl', add_to_free_list m fl b = Ok fl' ∧ free_list_ok m fl' ∧ same_region fl fl' ∧
    (∀ x, free_at m fl' x ↔ free_at m fl x ∨ inside m b x) ∧
    (size_at m b < 512 → ∃ bs, small_blocks fl' !! Z.to_nat (size_at m b / 16) = Some (bs ++ [b])).
Proof.
  intros Hok Hb Hfree. pose proof Hok as [Hr Hl Hbs Hd]. pose proof Hb as [_ [Hs H16] _ _].
  unfold add_to_free_list. rewrite (block_size_read m _ _ b Hb). cbn -[Z.mul].
  change (free_list_count * data_alignment) with 512. change data_alignment with 16.
  destruct (Z.ltb_spec (size_at m b) 512) as [Hlt|Hge].
  - destruct (lookup_bucket fl (Z.to_nat (size_at m b / 16)) (small_count _ _ Hl) ltac:(dlia)) as [bs Hi].
    unfold read. rewrite Hi. cbn.
    rewrite write_Ok by (by eapply lookup_lt_Some). cbn.
    destruct (insert_block_ok m fl b (<[Z.to_nat (size_at m b / 16) := bs ++ [b]]> (small_blocks fl))
                (large_blocks fl)) as [Hok' Hat]; try done.
    + unfold free_blocks. rewrite (concat_insert_perm _ _ bs _ b Hi); [done|].
      by rewrite Permutation_app_comm.
    + rewrite length_insert. apply Hl.
    + apply insert_bucket_sizes; [done|]. intros c [Hc| ->%list_elem_of_singleton]%elem_of_app; [|dlia].
      by eapply small_sizes.
    + apply Hl.
    + apply Hl.
    + eexists; split_and!; [done|done|apply same_region_set|done|].
      intros _. exists bs. cbn. rewrite list_lookup_insert_eq; [done|]. by eapply lookup_lt_Some.
  - destruct (multiset_insert_spec m (fl_start fl) (fl_end fl) b (large_blocks fl)) as (large & -> & Hp & Hso).
    { intros c Hc. by apply Hbs, elem_of_large. }
    { apply Hl. }
    cbn. destruct (insert_block_ok m fl b (small_blocks fl) large) as [Hok' Hat]; try done.
    + rewrite Hp. unfold free_blocks. by rewrite Permutation_middle.
    + apply Hl.
    + apply Hl.
    + intros c. rewrite Hp. intros [->|Hc]%elem_of_cons; [done|by apply Hl].
    + eexists; split_and!; [done|done|apply same_region_set|done|lia].
Qed.

(** [make_free] and [add_to_free_list] of a range that was not free. *)
Lemma free_range_spec m fl a s :
  free_list_ok m fl → size_ok s → a mod 16 = 0 → fl_start fl ≤ a → a + s ≤ fl_end fl →
  (∀ x, a ≤ x < a + s → ¬ free_at m fl x) →
  let m' := <[a := free_header s]> m in
  make_free m a s = Ok m' ∧
  ∃ fl', add_to_free_list m' fl a = Ok fl' ∧ free_list_ok m' fl' ∧ same_region fl fl' ∧
    (∀ x, free_at m' fl' x ↔ free_at m fl x ∨ a ≤ x < a + s) ∧
    (s < 512 → ∃ bs, small_blocks fl' !! Z.to_nat (s / 16) = Some (bs ++ [a])).
Proof.
  intros Hok Hs Ha Hlo Hhi Hfree m'. pose proof Hs as [Hpos _].
  assert (a ∉ free_blocks fl) as Hna by (apply (not_free_block m); [done|apply Hfree; lia]).
  split.
  - apply make_free_spec; [done|]. apply (region_mapped _ _ (fl_region _ _ Hok)); [lia|dlia].
  - destruct (add_to_free_list_spec m' fl a) as (fl' & Hadd & Hok' & Hsr & Hat & Hbk).
    + by apply free_list_ok_insert.
    + by apply block_ok_insert_eq.
    + intros x. unfold inside, m'. rewrite size_at_insert_eq. intros Hx.
      rewrite free_at_insert by done. by apply Hfree.
    + assert (size_at m' a = s) as Es by apply size_at_insert_eq. unfold inside in Hat. rewrite Es in Hat, Hbk.
      exists fl'. split_and!; try done. intros x. rewrite Hat. unfold m'. by rewrite free_at_insert.
Qed.

(** A block [b] has been taken out of the free list: what was free is now
    either free or in [b], and nothing else was written. *)
Record took (m : memory) (fl : free_list_allocator) (m' : memory) (fl' : free_list_allocator)
    (b : Z) : Prop := {
  took_ok : free_list_ok m' fl';
  took_region : same_region fl fl';
  took_block : block_ok m' (fl_start fl) (fl_end fl) b;
  took_at : ∀ x, free_at m fl x ↔ free_at m' fl' x ∨ inside m' b x;
  took_sep : ∀ x, inside m' b x → ¬ free_at m' fl' x;
  took_frame : ∀ x, ¬ free_at m fl x → m' !! x = m !! x
}.

Lemma snoc_nonempty {A} (l : list A) : l ≠ [] → ∃ x, last l = Some x ∧ l = removelast l ++ [x].
Proof.
  intros Hl. induction l as [|y l _] using rev_ind; [done|].
  exists y. by rewrite last_snoc, removelast_last.
Qed.

Lemma pop_small_block_spec m fl i bs :
  free_list_ok m fl → small_blocks fl !! i = Some bs → bs ≠ [] →
  ∃ fl' b, pop_small_block m fl i = Ok (fl', Some b) ∧ took m fl m fl' b ∧
    size_at m b = 16 * Z.of_nat i.
Proof.
  intros Hok Hi Hne. pose proof Hok as [Hr Hl Hbs Hd].
  destruct (snoc_nonempty bs Hne) as (b & Hlast & Hbs').
  assert (b ∈ bs) as Hb by (rewrite Hbs'; set_solver).
  assert (block_ok m (fl_start fl) (fl_end fl) b) as Hbok by (by eapply Hbs, elem_of_small).
  unfold pop_small_block, read. rewrite Hi. cbn. rewrite Hlast.
  rewrite write_Ok by (by eapply lookup_lt_Some). cbn. rewrite (block_size_read _ _ _ _ Hbok). cbn.
  destruct (remove_block_ok m fl b (<[i := removelast bs]> (small_blocks fl)) (large_blocks fl))
    as (Hok' & _ & Hat & Hsep); try done.
  - unfold free_blocks. rewrite app_comm_cons. apply Permutation_app; [|done].
    rewrite <- (list_insert_id (small_blocks fl) i bs Hi) at 1.
    rewrite <- (list_insert_insert_eq (small_blocks fl) i bs (removelast bs)).
    eapply concat_insert_perm; [apply list_lookup_insert_eq; by eapply lookup_lt_Some|].
    rewrite Hbs' at 1. by rewrite Permutation_app_comm.
  - rewrite length_insert. apply Hl.
  - apply insert_bucket_sizes; [done|]. intros c Hc. eapply small_sizes; [done|done|].
    rewrite Hbs'. set_solver.
  - apply Hl.
  - apply Hl.
  - eexists _, b. split_and!; [done| |by eapply small_sizes].
    split; try done; try apply same_region_set.
Qed.

Lemma large_block_take m fl size :
  free_list_ok m fl → 512 ≤ size →
  ∃ fl' r, find_free_block_depth 0 m fl size = Ok (m, fl', r) ∧
    match r with
    | Some b => took m fl m fl' b ∧ size ≤ size_at m b ∧ b ∈ free_blocks fl
    | None => fl' = fl ∧ ∀ b, b ∈ free_blocks fl → size_at m b < size
    end.
Proof.
  intros Hok Hsize. pose proof Hok as [Hr Hl Hbs Hd].
  cbn. change data_alignment with 16. change free_list_count with 32.
  rewrite (proj2 (Z.ltb_ge (size / 16) 32)) by dlia.
  destruct (multiset_take_spec m (fl_start fl) (fl_end fl) size (large_blocks fl)) as (r & -> & Hr').
  { intros c Hc. by apply Hbs, elem_of_large. }
  { apply Hl. }
  cbn. destruct r as [[b large]|].
  - destruct Hr' as (Hp & Hb & Hso).
    assert (free_blocks fl ≡ₚ b :: concat (small_blocks fl) ++ large) as Hp'.
    { unfold free_blocks. rewrite Hp. by rewrite Permutation_middle. }
    destruct (remove_block_ok m fl b (small_blocks fl) large) as (Hok' & Hbok & Hat & Hsep); try done;
      [by apply Hl|by apply Hl|intros c Hc; apply Hl; rewrite Hp; set_solver|].
    rewrite (block_size_read _ _ _ _ Hbok). cbn.
    eexists _, (Some b). split_and!; [done| |done|rewrite Hp'; set_solver].
    split; try done; try apply same_region_set.
  - eexists _, None. split_and!; [done|done|]. unfold free_blocks. intros b [Hb|Hb]%elem_of_app; [|auto].
    apply list_elem_of_In, in_concat in Hb as (bs & Hbs' & Hb).
    apply list_elem_of_In, list_elem_of_lookup in Hbs' as [i Hi].
    rewrite (small_sizes _ _ Hl i bs b Hi) by (by apply list_elem_of_In).
    apply lookup_lt_Some in Hi. rewrite (small_count _ _ Hl) in Hi. lia.
Qed.

(** ** Splitting and carving *)

Lemma same_region_bounds fl fl' m lo hi b :
  same_region fl fl' → lo = fl_start fl → hi = fl_end fl →
  block_ok m lo hi b → block_ok m (fl_start fl') (fl_end fl') b.
Proof. intros [-> -> _ _] -> ->. done. Qed.

(** [split_free_block] keeps the front of the block and frees the rest. *)
Lemma split_free_block_spec m0 fl0 m fl b n :
  took m0 fl0 m fl b → size_ok n → n ≤ size_at m b →
  ∃ m' fl', split_free_block m fl b n = Ok (m', fl', b) ∧ took m0 fl0 m' fl' b ∧ size_at m' b = n.
Proof.
  intros [Hok Hsr Hb Hat Hsep Hfr] Hn Hle. pose proof Hb as [Hh [Hs H16] Ha [Hlo Hhi]].
  pose proof Hn as [Hnpos Hn16].
  unfold split_free_block. rewrite (block_size_read _ _ _ _ Hb). cbn.
  destruct (Z.eqb_spec (size_at m b) n) as [<-|Hne]; cbn.
  { exists m, fl. split_and!; done. }
  destruct Hsr as [Es Ee Esz Est]. pose proof Hok as [[Hr0 Hra Hrs Hre Hrc Hmap] _ _ _].
  rewrite !(u64_id) by (unfold is_cell; lia).
  set (c := b + n). set (s := size_at m b - n).
  assert (size_ok s) as Hsok by (unfold s; split; dlia).
  assert (∀ x, b ≤ x < b + size_at m b → x ∉ free_blocks fl) as Hno.
  { intros x Hx. apply (not_free_block m); [done|]. by apply Hsep. }
  rewrite make_free_spec; [|done|apply Hmap; [lia|unfold c; dlia]]. cbn.
  rewrite make_free_spec; [|done|rewrite lookup_insert_ne by (unfold c; lia); apply Hmap; [lia|dlia]]. cbn.
  set (m1 := <[b := free_header n]> (<[c := free_header s]> m)).
  assert (free_list_ok m1 fl) as Hok1.
  { apply free_list_ok_insert; [apply Hno; lia|]. apply free_list_ok_insert; [apply Hno; unfold c; lia|done]. }
  assert (∀ x, free_at m1 fl x ↔ free_at m fl x) as Hat1.
  { intros x. unfold m1. rewrite !free_at_insert; [done|apply Hno; unfold c; lia|apply Hno; lia]. }
  assert (size_at m1 b = n) as Eb by apply size_at_insert_eq.
  assert (size_at m1 c = s) as Ec.
  { unfold m1. rewrite size_at_insert_ne by (unfold c; lia). apply size_at_insert_eq. }
  destruct (add_to_free_list_spec m1 fl c) as (fl' & -> & Hok' & Hsr' & Hat' & _).
  { done. }
  { unfold m1. apply block_ok_insert_ne; [unfold c; lia|].
    apply block_ok_insert_eq; [done|unfold c; dlia|unfold c; lia|unfold c, s; lia]. }
  { intros x. unfold inside. rewrite Ec, Hat1. intros Hx. apply Hsep. unfold inside, c, s in *. lia. }
  cbn. exists m1, fl'. split_and!; [done| |done].
  assert (∀ x, inside m1 b x ∨ inside m1 c x ↔ inside m b x) as Hin.
  { intros x. unfold inside. rewrite Eb, Ec. unfold c, s. lia. }
  split.
  - done.
  - eapply same_region_trans; [split; eassumption|done].
  - apply block_ok_insert_eq; [done|done|lia|lia].
  - intros x. rewrite Hat, Hat', Hat1, <- Hin. tauto.
  - intros x Hx. rewrite Hat', Hat1. intros [Hf|Hf].
    + apply (Hsep x); [|done]. apply Hin. by left.
    + unfold inside in *. rewrite Eb in Hx. rewrite Ec in Hf. unfold c in Hf. lia.
  - intros x Hx. unfold m1.
    assert (¬ inside m b x) as Hnx by (intros Hi; apply Hx, Hat; by right).
    unfold inside in Hnx. rewrite !lookup_insert_ne by (unfold c; lia). by apply Hfr.
Qed.

Definition bucket_nonempty (fl : free_list_allocator) (i : nat) : Prop :=
  ∃ bs, small_blocks fl !! i = Some bs ∧ bs ≠ [].

(** [carve_loop] frees a run of [n] blocks of [s] bytes. *)
Lemma carve_loop_spec s : size_ok s → s < 512 → ∀ n m fl a,
  free_list_ok m fl → a mod 16 = 0 → fl_start fl ≤ a → a + Z.of_nat n * s ≤ fl_end fl →
  (∀ x, a ≤ x < a + Z.of_nat n * s → ¬ free_at m fl x) →
  ∃ m' fl', carve_loop m fl a s n = Ok (m', fl') ∧ free_list_ok m' fl' ∧ same_region fl fl' ∧
    (∀ x, free_at m' fl' x ↔ free_at m fl x ∨ a ≤ x < a + Z.of_nat n * s) ∧
    (∀ x, ¬ (a ≤ x < a + Z.of_nat n * s) → m' !! x = m !! x) ∧
    ((0 < n)%nat ∨ bucket_nonempty fl (Z.to_nat (s / 16)) → bucket_nonempty fl' (Z.to_nat (s / 16))).
Proof.
  intros Hs Hlt n. pose proof Hs as [Hpos H16].
  induction n as [|n IH]; intros m fl a Hok Ha Hlo Hhi Hfree; cbn [carve_loop].
  { exists m, fl. split_and!; [done|done|done| |done|naive_solver lia]. intros x. rewrite Z.mul_0_l. intuition lia. }
  replace (Z.of_nat (S n) * s) with (s + Z.of_nat n * s) in * by lia.
  assert (0 ≤ Z.of_nat n * s) by lia.
  destruct (free_range_spec m fl a s) as (-> & fl1 & Hadd & Hok1 & Hsr1 & Hat1 & Hbk1); [done..|lia| |].
  { intros x Hx. apply Hfree. lia. }
  cbn. rewrite Hadd. cbn. destruct Hsr1 as [Es Ee Esz Est].
  pose proof (region_cell _ _ (fl_region _ _ Hok)). pose proof (region_start _ _ (fl_region _ _ Hok)).
  rewrite u64_id by (unfold is_cell; lia).
  destruct (IH (<[a := free_header s]> m) fl1 (a + s)) as (m' & fl' & -> & Hok' & Hsr' & Hat' & Hfr' & Hbk');
    [done|dlia|lia|lia| |].
  { intros x Hx. rewrite Hat1. intros [Hf|?]; [|lia]. apply (Hfree x); [lia|done]. }
  exists m', fl'. split_and!; [done|done|eapply same_region_trans; [split; eassumption|done]| | |].
  - intros x. rewrite Hat', Hat1. intuition lia.
  - intros x Hx. rewrite Hfr' by lia. rewrite lookup_insert_ne by lia. done.
  - intros _. apply Hbk'. right. destruct (Hbk1 Hlt) as [bs Hbs]. exists (bs ++ [a]).
    split; [done|]. by destruct bs.
Qed.

(** ** Finding a block *)

(** The size of the block that is carved into blocks of [size] bytes. *)
Definition page_size_for (size : Z) : Z := ((allocation_page_size + size - 1) / size) * size.

Lemma page_size_for_spec size :
  size_ok size → size < 512 →
  1024 ≤ page_size_for size < 1024 + size ∧ size_ok (page_size_for size) ∧
  ∃ n, (0 < n)%nat ∧ Z.to_nat ((page_size_for size + size - 1) / size) = n ∧
       page_size_for size = Z.of_nat n * size.
Proof.
  intros [Hpos H16] Hlt. unfold page_size_for, allocation_page_size.
  set (k := (1024 + size - 1) / size).
  assert (1024 ≤ k * size < 1024 + size) as Hk.
  { pose proof (Z.div_mod (1024 + size - 1) size ltac:(lia)).
    pose proof (Z.mod_pos_bound (1024 + size - 1) size ltac:(lia)). fold k in H. lia. }
  assert (0 < k) by nia. split_and!; [lia|lia| |].
  - split; [lia|]. rewrite Z.mul_mod, H16, Z.mul_0_r by lia. done.
  - exists (Z.to_nat k). split_and!; [lia| |rewrite Z2Nat.id; lia].
    f_equal. symmetry. apply (Z.div_unique _ _ k (size - 1)); lia.
Qed.

Lemma find_free_block_S d m fl size :
  find_free_block_depth (S d) m fl size =
  if size / data_alignment <? free_list_count then
    blocks ← read (small_blocks fl) (Z.to_nat (size / data_alignment));
    match blocks with
    | _ :: _ =>
        '(fl, block) ← pop_small_block m fl (Z.to_nat (size / data_alignment));
        Ok (m, fl, block)
    | [] =>
        if size =? 0 then Err ERROR_DIVIDE_BY_ZERO else
        '(m, fl, r) ← find_free_block_depth d m fl (page_size_for size);
        match r with
        | None => Ok (m, fl, None)
        | Some large_block =>
            '(m, fl, large_block) ← split_free_block m fl large_block (page_size_for size);
            '(m, fl) ← carve_loop m fl large_block size
                         (Z.to_nat ((page_size_for size + size - 1) / size));
            '(fl, block) ← pop_small_block m fl (Z.to_nat (size / data_alignment));
            Ok (m, fl, block)
        end
    end
  else find_free_block_depth 0 m fl size.
Proof. cbn. by destruct (size / data_alignment <? free_list_count). Qed.

(** What [find_free_block] answers: a block taken out of the free list, of
    exactly the size for a small request, or nothing, when no block will do. *)
Lemma find_free_block_spec m fl size :
  free_list_ok m fl → size_ok size →
  ∃ m' fl' r, find_free_block m fl size = Ok (m', fl', r) ∧
    match r with
    | Some b => took m fl m' fl' b ∧ size ≤ size_at m' b
    | None => m' = m ∧ fl' = fl ∧
        ∀ b, b ∈ free_blocks fl →
          size_at m b < size ∨ size < 512 ∧ size_at m b < page_size_for size
    end.
Proof.
  intros Hok Hs. pose proof Hs as [Hpos H16]. unfold find_free_block.
  destruct (decide (512 ≤ size)) as [Hlarge|Hsmall].
  { destruct (large_block_take m fl size Hok Hlarge) as (fl' & r & Hf & Hr).
    rewrite find_free_block_S. change data_alignment with 16. change free_list_count with 32.
    rewrite (proj2 (Z.ltb_ge (size / 16) 32)), Hf by dlia.
    exists m, fl', r. split; [done|]. destruct r; naive_solver. }
  destruct (page_size_for_spec size Hs ltac:(lia)) as (Hpage & Hpok & n & Hn0 & Hn & Hpn).
  rewrite find_free_block_S. change data_alignment with 16. change free_list_count with 32.
  rewrite (proj2 (Z.ltb_lt (size / 16) 32)) by dlia.
  set (i := Z.to_nat (size / 16)).
  assert (16 * Z.of_nat i = size) as Ei by (unfold i; dlia).
  destruct (lookup_bucket fl i (small_count _ _ (fl_lists _ _ Hok)) ltac:(unfold i; dlia)) as [bs Hi].
  unfold read. rewrite Hi. cbn -[find_free_block_depth]. destruct bs as [|b0 bs].
  2:{ destruct (pop_small_block_spec m fl i (b0 :: bs) Hok Hi ltac:(done)) as (fl' & b & -> & Htook & Hsz).
      cbn. exists m, fl', (Some b). split_and!; [done|done|lia]. }
  rewrite (proj2 (Z.eqb_neq size 0)) by lia.
  destruct (large_block_take m fl (page_size_for size) Hok ltac:(lia)) as (fl1 & r & -> & Hr).
  cbn -[page_size_for]. destruct r as [big|].
  2:{ destruct Hr as [-> Hno]. exists m, fl, None. split_and!; [done..|].
      intros b Hb. right. split; [lia|auto]. }
  destruct Hr as (Htook & Hbig & _).
  destruct (split_free_block_spec m fl m fl1 big (page_size_for size) Htook Hpok Hbig)
    as (m2 & fl2 & -> & [Hok2 Hsr2 Hb2 Hat2 Hsep2 Hfr2] & Hsz2). cbn -[page_size_for].
  rewrite Hn. destruct Hb2 as [_ _ Hba [Hblo Hbhi]]. destruct Hsr2 as [Es Ee Esz Est].
  unfold inside in Hat2, Hsep2. rewrite Hsz2, Hpn in *.
  destruct (carve_loop_spec size Hs ltac:(lia) n m2 fl2 big)
    as (m3 & fl3 & -> & Hok3 & Hsr3 & Hat3 & Hfr3 & Hbk3); [done|done|lia|lia|done|]. cbn.
  destruct (Hbk3 ltac:(by left)) as (bs & Hbs & Hne).
  destruct (pop_small_block_spec m3 fl3 i bs Hok3 Hbs Hne) as (fl4 & b & -> & Htook4 & Hsz4).
  cbn. exists m3, fl4, (Some b). split_and!; [done| |lia].
  destruct Htook4 as [Hok4 Hsr4 Hb4 Hat4 Hsep4 Hfr4].
  assert (same_region fl fl3) as Hsr by (eapply same_region_trans; [split; eassumption|done]).
  split; [done|by eapply same_region_trans| | |done|].
  - destruct Hsr as [<- <- _ _]. done.
  - intros x. by rewrite Hat2, <- Hat3, Hat4.
  - intros x Hx. rewrite Hfr3; [by apply Hfr2|]. intros Hin. apply Hx, Hat2. by right.
Qed.

(** [align] of a request. *)
Lemma align_request size :
  0 < size < 2 ^ 63 → size_ok (align size data_alignment) ∧ size ≤ align size data_alignment < size + 16.
Proof.
  intros Hs. destruct (align_bounds size 4) as [H1 H2]; [unfold is_cell; lia..|].
  unfold size_ok. change (2 ^ 4) with data_alignment in *. change data_alignment with 16 in *. lia.
Qed.

(** ** Accounting *)

(** Two sets of disjoint blocks that cover the same addresses have the same
    total size. *)
Lemma total_size_cover m m' lo hi bs bs' :
  (∀ b, b ∈ bs → block_ok m lo hi b) → disjoint_blocks m bs →
  (∀ b, b ∈ bs' → block_ok m' lo hi b) → disjoint_blocks m' bs' →
  (∀ x, (∃ b, b ∈ bs ∧ inside m b x) ↔ ∃ b, b ∈ bs' ∧ inside m' b x) →
  total_size m bs = total_size m' bs'.
Proof.
  intros Hok Hd Hok' Hd' Hcov.
  assert (∀ (m : memory) (bs : list Z), (∀ b, b ∈ bs → block_ok m lo hi b) →
            Forall (λ b, 0 ≤ size_at m b ∧ size_at m b mod 16 = 0) bs) as Hsz.
  { intros m1 bs1 H1. apply Forall_forall. intros b Hb. destruct (H1 b Hb) as [_ [? ?] _ _]. lia. }
  rewrite <- !length_block_lines by auto. f_equal. f_equal. apply Permutation_length, NoDup_Permutation.
  - by eapply NoDup_block_lines.
  - by eapply NoDup_block_lines.
  - intros y. rewrite !list_elem_of_bind. specialize (Hcov (16 * y)).
    assert (∀ (m : memory) (bs : list Z), (∀ b, b ∈ bs → block_ok m lo hi b) →
              (∃ b, y ∈ block_lines m b ∧ b ∈ bs) ↔ ∃ b, b ∈ bs ∧ inside m b (16 * y)) as E.
    { intros m1 bs1 H1. split; intros (b & H2 & H3); exists b; split; try done.
      - by eapply elem_of_block_lines; [apply H1|].
      - by eapply elem_of_block_lines; [apply H1|]. }
    by rewrite !E.
Qed.

Lemma took_space m fl m' fl' b :
  free_list_ok m fl → took m fl m' fl' b → free_space fl' = free_space fl - size_at m' b.
Proof.
  intros [Hr Hl Hb Hd] [[Hr' Hl' Hb' Hd'] Hsr Hbok Hat Hsep _].
  rewrite (space_ok _ _ Hl), (space_ok _ _ Hl').
  rewrite (total_size_cover m m' (fl_start fl) (fl_end fl) (free_blocks fl) (b :: free_blocks fl')); try done.
  - cbn [total_size foldr]. fold (total_size m' (free_blocks fl')). lia.
  - destruct Hsr as [Es Ee _ _]. rewrite Es, Ee in Hb'. intros c [->|Hc]%elem_of_cons; [done|auto].
  - apply disjoint_cons; [destruct Hbok as [_ [? _] _ _]; lia|]. split; [done|].
    intros c x Hc Hx Hy. apply (Hsep x Hx). by exists c.
  - intros x. fold (free_at m fl x). rewrite Hat. unfold free_at. set_solver.
Qed.

(** ** Initialization *)

Lemma clear_free_list_ok m fl : region_ok m fl → free_list_ok m (clear_free_list fl).
Proof.
  intros [].
  assert (∀ b, b ∉ free_blocks (clear_free_list fl)) as Hno by (intros b; vm_compute; by intros ?%elem_of_nil).
  split; [done| |set_solver|split; [constructor|set_solver]].
  split; try done; [|set_solver|constructor].
  intros i bs b Hi Hb. destruct (Hno b). by eapply elem_of_small.
Qed.

Lemma clear_not_free m fl x : ¬ free_at m (clear_free_list fl) x.
Proof. intros (b & Hb & _). by apply elem_of_nil in Hb. Qed.

(** [initial_free_list]: everything after the occupied part is free. *)
Lemma initial_free_list_spec m fl occupied :
  region_ok m fl → 0 ≤ occupied ≤ fl_size fl → occupied mod 16 = 0 →
  ∃ m' fl', initial_free_list m fl occupied = Ok (m', fl') ∧ free_list_ok m' fl' ∧ same_region fl fl' ∧
    (∀ x, free_at m' fl' x ↔ fl_start fl + occupied ≤ x < fl_end fl) ∧
    (∀ x, x ≠ fl_start fl + occupied → m' !! x = m !! x) ∧
    (occupied = fl_size fl → m' = m).
Proof.
  intros Hr Ho H16. pose proof Hr as [Hs Ha [Hz Hz16] He Hc Hm].
  pose proof (clear_free_list_ok m fl Hr) as Hok. unfold initial_free_list.
  change (fl_end (clear_free_list fl)) with (fl_end fl). change (fl_start (clear_free_list fl)) with (fl_start fl).
  rewrite (u64_id (fl_end fl - fl_start fl)), (u64_id (fl_start fl + occupied)) by (unfold is_cell; lia).
  destruct (Z.eqb_spec occupied (fl_end fl - fl_start fl)) as [E|E]; cbn [negb].
  - exists m, (clear_free_list fl). split_and!; try done. intros x.
    pose proof (clear_not_free m fl x). split; [done|lia].
  - rewrite (u64_id (fl_end fl - _)) by (unfold is_cell; lia).
    destruct (free_range_spec m (clear_free_list fl) (fl_start fl + occupied) (fl_end fl - (fl_start fl + occupied)))
      as (-> & fl' & Hadd & Hok' & Hsr & Hat & _); cbn; try done; [split; dlia|dlia|lia|lia| |].
    { intros x _. apply clear_not_free. }
    rewrite Hadd. cbn. eexists _, fl'. split_and!; [done|done|by destruct Hsr| | |lia].
    + intros x. rewrite Hat. pose proof (clear_not_free m fl x).
      replace (fl_start fl + occupied + (fl_end fl - (fl_start fl + occupied))) with (fl_end fl) by lia. tauto.
    + intros x Hx. by rewrite lookup_insert_ne.
Qed.

Lemma new_free_list_allocator_spec m size start :
  0 ≤ start → start mod 16 = 0 → 0 ≤ size → size mod 16 = 0 → start + size < 2 ^ 64 →
  mapped m start (start + size) →
  ∃ m' fl, new_free_list_allocator m size start = Ok (m', fl) ∧ free_list_ok m' fl ∧
    fl_start fl = start ∧ fl_size fl = size ∧ ∀ x, free_at m' fl x ↔ start ≤ x < start + size.
Proof.
  intros Hs Ha Hz Hz16 He Hm. unfold new_free_list_allocator.
  rewrite (u64_id (start + size)) by (unfold is_cell; lia).
  edestruct (initial_free_list_spec m) as (m' & fl & -> & Hok & [E1 E2 E3 _] & Hat & _); cycle -1.
  { exists m', fl. split_and!; [done|done|done|done|]. intros x. rewrite Hat. cbn. by rewrite Z.add_0_r. }
  all: cbn; try done; split; done.
Qed.

(** ** The largest free block *)

Lemma largest_small_block_spec m lo hi buckets :
  (∀ i bs b, buckets !! i = Some bs → b ∈ bs → size_at m b = 16 * Z.of_nat i ∧ block_ok m lo hi b) →
  ∃ L, largest_small_block m (rev buckets) = Ok L ∧
    (∀ b, b ∈ concat buckets → size_at m b ≤ L) ∧
    (L = 0 ∨ ∃ b, b ∈ concat buckets ∧ size_at m b = L).
Proof.
  induction buckets as [|bs buckets IH] using rev_ind; intros Hb.
  { exists 0. split_and!; [done|set_solver|by left]. }
  rewrite rev_unit. cbn [largest_small_block]. rewrite concat_app. cbn [concat]. rewrite app_nil_r.
  assert (∀ i cs b, buckets !! i = Some cs → b ∈ cs →
            (i < length buckets)%nat ∧ size_at m b = 16 * Z.of_nat i ∧ block_ok m lo hi b) as Hb'.
  { intros i cs b Hi Hin. split; [by eapply lookup_lt_Some|]. eapply Hb; [|done]. by apply lookup_app_l_Some. }
  destruct (decide (bs = [])) as [->|Hne].
  - cbn. rewrite app_nil_r. apply IH. intros. split; eapply Hb'; done.
  - destruct (snoc_nonempty bs Hne) as (b & Hlast & Hbs). rewrite Hlast.
    assert (∀ c, c ∈ bs → size_at m c = 16 * Z.of_nat (length buckets) ∧ block_ok m lo hi c) as Hc.
    { intros c Hin. eapply Hb; [|done]. by rewrite lookup_app_r, Nat.sub_diag by lia. }
    assert (b ∈ bs) as Hbin by (rewrite Hbs; set_solver). destruct (Hc b Hbin) as [Eb Hbok].
    rewrite (block_size_read _ _ _ _ Hbok). eexists; split_and!; [done| |].
    + intros c [Hin|Hin]%elem_of_app; [|destruct (Hc c Hin); lia].
      apply list_elem_of_In, in_concat in Hin as (cs & Hcs%list_elem_of_In & Hin%list_elem_of_In).
      apply list_elem_of_lookup in Hcs as [i Hi]. destruct (Hb' i cs c Hi Hin) as (? & ? & _). lia.
    + right. exists b. split; [set_solver|done].
Qed.

Lemma sorted_last m bs b :
  StronglySorted (by_size m) bs → last bs = Some b → ∀ c, c ∈ bs → size_at m c ≤ size_at m b.
Proof.
  induction 1 as [|c bs Hs IH Hc]; [done|]. intros Hl d Hd. destruct bs as [|e bs].
  { cbn in Hl. set_solver by lia. }
  assert (last (e :: bs) = Some b) as Hl' by done.
  apply elem_of_cons in Hd as [->|Hd]; [|auto]. rewrite Forall_forall in Hc. apply Hc.
  apply last_Some_elem_of in Hl'. done.
Qed.

Lemma largest_free_block_spec m fl :
  free_list_ok m fl →
  ∃ L, largest_free_block m fl = Ok L ∧ (∀ b, b ∈ free_blocks fl → size_at m b ≤ L) ∧
    (L = 0 ∨ ∃ b, b ∈ free_blocks fl ∧ size_at m b = L).
Proof.
  intros [Hr Hl Hb Hd]. unfold largest_free_block.
  destruct (largest_small_block_spec m (fl_start fl) (fl_end fl) (small_blocks fl)) as (L & HL & Hmax & Hin).
  { intros i bs b Hi Hin. split; [by eapply small_sizes|]. by eapply Hb, elem_of_small. }
  destruct (last (large_blocks fl)) as [b|] eqn:E.
  - assert (b ∈ large_blocks fl) as Hbl by (by apply last_Some_elem_of).
    rewrite (block_size_read m (fl_start fl) (fl_end fl)) by (by apply Hb, elem_of_large).
    eexists; split_and!; [done| |right; exists b; split; [by apply elem_of_large|done]].
    pose proof (large_sizes _ _ Hl b Hbl) as Hbig.
    intros c [Hc|Hc]%elem_of_app; [|by eapply sorted_last; [apply Hl|..]].
    apply list_elem_of_In, in_concat in Hc as (cs & Hcs%list_elem_of_In & Hc%list_elem_of_In).
    apply list_elem_of_lookup in Hcs as [i Hi]. rewrite (small_sizes _ _ Hl i cs c Hi Hc).
    apply lookup_lt_Some in Hi. rewrite (small_count _ _ Hl) in Hi. lia.
  - apply last_None in E. exists L. unfold free_blocks. rewrite E, app_nil_r. done.
Qed.

(** * Theorems *)

(** [allot] returns an aligned block that was free, of exactly the
    rounded size, whose header says so; the rest of what was free stays free,
    the block is not free any more, no word outside the free blocks is
    written, the free space drops by the rounded size and every part of the
    invariant is kept.  When it answers NULL nothing has changed and no free
    block was large enough: for a small request, large enough to be carved.
    No assertion fails and no access leaves the region. *)
Lemma allot_spec m fl size :
  free_list_ok m fl → 0 < size < 2 ^ 63 →
  let n := align size data_alignment in
  ∃ m' fl' r, allot m fl size = Ok (m', fl', r) ∧
    match r with
    | Some b =>
        free_list_ok m' fl' ∧ same_region fl fl' ∧
        b mod 16 = 0 ∧ m' !! b = Some (free_header n) ∧
        (∀ x, free_at m fl x ↔ free_at m' fl' x ∨ b ≤ x < b + n) ∧
        (∀ x, b ≤ x < b + n → ¬ free_at m' fl' x) ∧
        (∀ x, ¬ free_at m fl x → m' !! x = m !! x) ∧
        free_space fl' = free_space fl - n
    | None =>
        m' = m ∧ fl' = fl ∧
        ∀ b, b ∈ free_blocks fl → size_at m b < n ∨ n < 512 ∧ size_at m b < page_size_for n
    end.
Proof.
  intros Hok Hs n. destruct (align_request size Hs) as [Hn _]. fold n in Hn.
  unfold allot. fold n.
  destruct (find_free_block_spec m fl n Hok Hn) as (m1 & fl1 & [b|] & -> & Hr); cbn.
  - destruct Hr as [Htook Hle].
    destruct (split_free_block_spec m fl m1 fl1 b n Htook Hn Hle) as (m2 & fl2 & -> & Htook2 & Hsz). cbn.
    exists m2, fl2, (Some b). split; [done|].
    pose proof (took_space _ _ _ _ _ Hok Htook2). destruct Htook2 as [? ? [Hh _ ? _] Hat Hsep ?].
    unfold inside in Hat, Hsep. rewrite Hsz in *. split_and!; try done. 
  - exists m1, fl1, None. done.
Qed.

(** C15. [can_allot_p] is right about requests of more than 496 bytes: when it
    answers true the allocation succeeds, and for at least a page (1024 bytes)
    it answers true exactly when the allocation succeeds.  (Smaller requests
    may need a page of up to 1488 bytes, which it does not look for.) *)
Theorem can_allot_p_spec m fl size :
  free_list_ok m fl → 496 < size < 2 ^ 63 →
  ∃ m' fl' r can, allot m fl size = Ok (m', fl', r) ∧ can_allot_p m fl size = Ok can ∧
    (can = true → is_Some r) ∧ (allocation_page_size ≤ size → is_Some r → can = true).
Proof.
  intros Hok Hs. destruct (align_request size ltac:(lia)) as [Hn Hle].
  unfold allot, can_allot_p. set (n := align size data_alignment) in *.
  destruct (largest_free_block_spec m fl Hok) as (L & -> & Hmax & HL).
  assert (L mod 16 = 0) as HL16.
  { destruct HL as [->|(b & Hb & <-)]; [done|]. by destruct (fl_blocks _ _ Hok b Hb) as [_ [_ ?] _ _]. }
  destruct (large_block_take m fl n Hok ltac:(destruct Hn; dlia)) as (fl1 & r & Hf & Hr).
  assert (find_free_block m fl n = Ok (m, fl1, r)) as ->.
  { unfold find_free_block. rewrite find_free_block_S. change data_alignment with 16. change free_list_count with 32.
    rewrite (proj2 (Z.ltb_ge (n / 16) 32)); [done|]. destruct Hn. dlia. }
  cbn. unfold allocation_page_size. destruct r as [b|].
  - destruct Hr as (Htook & Hb & Hbin).
    destruct (split_free_block_spec m fl m fl1 b n Htook Hn Hb) as (m2 & fl2 & -> & _ & _). cbn.
    eexists m2, fl2, (Some b), _. split_and!; [done|done|eauto|].
    intros Hpage _. rewrite Z.max_l by lia. apply Z.leb_le.
    specialize (Hmax b Hbin). lia.
  - destruct Hr as [-> Hno]. eexists m, fl, None, _. split_and!; [done|done| |by intros _ []].
    intros Hcan%Z.leb_le. destruct HL as [->|(b & Hb & <-)]; [lia|].
    specialize (Hno b Hb). destruct (fl_blocks _ _ Hok b Hb) as [_ [_ ?] _ _]. destruct Hn. dlia.
Qed.

(** * Witnesses *)

(** A new heap of 1024 bytes. *)
Definition sample_memory : memory := <[4096 := 1025]> (zeroed_region 4096 128).
Definition sample_free_list : free_list_allocator :=
  mk_free_list 4096 5120 1024 (replicate 32 []) [4096] 1 1024 (new_mark_bits 1024 4096).

Lemma sample_free_list_ok : free_list_ok sample_memory sample_free_list.
Proof.
  destruct (new_free_list_allocator_spec (zeroed_region 4096 128) 1024 4096) as (m & fl & E & Hok & _);
    [lia|done|lia|done|lia|by apply (mapped_zeroed_region 4096 128)|].
  assert (new_free_list_allocator (zeroed_region 4096 128) 1024 4096 = Ok (sample_memory, sample_free_list)) as E'
    by (vm_compute; reflexivity).
  rewrite E in E'. apply Ok_inj, pair_equal_spec in E' as [-> ->]. exact Hok.
Qed.

Lemma can_allot_p_spec_witness :
  ∃ m' fl' r can, allot sample_memory sample_free_list 1024 = Ok (m', fl', r) ∧
    can_allot_p sample_memory sample_free_list 1024 = Ok can ∧
    (can = true → is_Some r) ∧ (allocation_page_size ≤ 1024 → is_Some r → can = true).
Proof. apply (can_allot_p_spec sample_memory sample_free_list 1024); [exact sample_free_list_ok|lia]. Defined.

(** The bound of [can_allot_p_spec] is sharp: a request of 496 bytes is
    accepted when one page of 1024 bytes is free, and then refused. *)
Example can_allot_p_small :
  can_allot_p sample_memory sample_free_list 496 = Ok true ∧
  allot sample_memory sample_free_list 496 = Ok (sample_memory, sample_free_list, None).
Proof. split; vm_compute; reflexivity. Qed.
