(* ===== verification/Sweep.v ===== *)
(** Sweeping and compacting a free-list heap: the loops of
    vm/free_list.hpp over the mark bits of vm/mark_bits.hpp.

    After marking, [sweep] rebuilds the free lists from the runs of unmarked
    lines. *)

From S2P Require Import Prelude.
From S2P Require Import Layouts.
From S2P Require Import BitwiseHacks.
From S2P Require Import MarkBits.
From S2P Require Import Memory.
From S2P Require Import FreeList.
Local Open Scope cell_scope.

(** * Sweeping *)

(** The mark bits of the allocator describe its region. *)
Record marks_ok (fl : free_list_allocator) : Prop := {
  marks_bits : mark_bits_ok (fl_state fl);
  marks_start : mb_start (fl_state fl) = fl_start fl;
  marks_size : mb_size (fl_state fl) = fl_size fl
}.

Lemma marks_same_region fl fl' : same_region fl fl' → marks_ok fl → marks_ok fl'.
Proof. intros [E1 E2 E3 E4] [H1 H2 H3]. split; rewrite E4; congruence. Qed.

Lemma line_in_region m fl i :
  region_ok m fl → marks_ok fl → (i ≤ lines (fl_state fl))%nat →
  fl_start fl ≤ line_address (fl_state fl) i ≤ fl_end fl ∧
  line_address (fl_state fl) i mod 16 = 0 ∧
  (line_address (fl_state fl) i = fl_end fl ↔ i = lines (fl_state fl)).
Proof.
  intros [Hs Ha Hz He Hc _] [[_ Hsz _ _ _] E1 E2] Hi. unfold line_address, lines in *. rewrite E1 in *.
  rewrite <- E2 in Hz. split_and!; [lia|lia|dlia|lia..].
Qed.

(** The state of the sweep when the scan is at line [i]: the unmarked lines
    before it are free. *)
Record swept (m0 m : memory) (fl0 fl : free_list_allocator) (i : nat) : Prop := {
  swept_ok : free_list_ok m fl;
  swept_region : same_region fl0 fl;
  swept_line : (i ≤ lines (fl_state fl0))%nat;
  swept_at : ∀ x, free_at m fl x ↔ ∃ j, (j < i)%nat ∧ bit (marked (fl_state fl0)) j = false ∧
    line_address (fl_state fl0) j ≤ x < line_address (fl_state fl0) j + 16;
  swept_frame : ∀ x, ¬ free_at m fl x → m !! x = m0 !! x
}.

(** A run of unmarked lines [[j, k)] after marked ones [[i, j)]. *)
Lemma swept_extend fl i j k (x : Z) :
  (i ≤ j ≤ k)%nat → (∀ l, (i ≤ l < j)%nat → bit (marked (fl_state fl)) l = true) →
  (∀ l, (j ≤ l < k)%nat → bit (marked (fl_state fl)) l = false) →
  (∃ l, (l < k)%nat ∧ bit (marked (fl_state fl)) l = false ∧
     line_address (fl_state fl) l ≤ x < line_address (fl_state fl) l + 16) ↔
  (∃ l, (l < i)%nat ∧ bit (marked (fl_state fl)) l = false ∧
     line_address (fl_state fl) l ≤ x < line_address (fl_state fl) l + 16) ∨
  line_address (fl_state fl) j ≤ x < line_address (fl_state fl) k.
Proof.
  intros Hijk Hm Hu. split.
  - intros (l & Hl & Hb & Hx). destruct (decide (l < i)%nat); [left; eauto|right].
    destruct (decide (l < j)%nat) as [Hlj|]; [rewrite Hm in Hb by lia; done|].
    unfold line_address in *. lia.
  - intros [(l & Hl & Hb & Hx)|Hx].
    + exists l. split_and!; [lia|done|lia|lia].
    + unfold line_address in *.
      set (l := Z.to_nat ((x - mb_start (fl_state fl)) / 16)).
      exists l. split_and!; [unfold l; dlia|apply Hu; unfold l; dlia|unfold l; dlia..].
Qed.

(** One turn of the loop. *)
Lemma sweep_step {X} (iter : Z → Z → X → result X) m0 m fl0 fl x i :
  (∀ b s x, ∃ x', iter b s x = Ok x') →
  region_ok m0 fl0 → marks_ok fl0 → swept m0 m fl0 fl i →
  match sweep_body iter (m, fl, x, line_address (fl_state fl0) i) with
  | inl (m', fl', _, start') =>
      ∃ k, (i < k)%nat ∧ start' = line_address (fl_state fl0) k ∧ swept m0 m' fl0 fl' k
  | inr r => i = lines (fl_state fl0) ∧ r = Ok (m, fl, x)
  end.
Proof.
  intros Hiter Hr0 Hmk [Hok Hsr Hi Hat Hfr]. destruct Hsr as [Es Ee Ez Est].
  assert (mark_bits_ok (fl_state fl0)) as Hmb by apply Hmk.
  assert (∀ l, (l ≤ lines (fl_state fl0))%nat →
            line_address (fl_state fl0) l = fl_end fl0 ↔ l = lines (fl_state fl0)) as Hend
    by (intros; by eapply line_in_region).
  unfold sweep_body. rewrite Ee, Est.
  destruct (Z.eqb_spec (line_address (fl_state fl0) i) (fl_end fl0)) as [E|E].
  { split; [by apply Hend|done]. }
  assert (i < lines (fl_state fl0))%nat as Hilt by (rewrite Hend in E by done; lia).
  destruct (next_unmarked_first _ i Hmb Hi) as (j & Hj & -> & Hmarked & Hj').
  destruct (Z.eqb_spec (line_address (fl_state fl0) j) (fl_end fl0)) as [Ej|Ej].
  { apply Hend in Ej; [|lia]. subst j. exists (lines (fl_state fl0)). split_and!; [lia|done|].
    split; [done|done|lia| |done].
    intros y. rewrite Hat. rewrite (swept_extend fl0 i (lines (fl_state fl0)) (lines (fl_state fl0)));
      [|lia|done|lia]. intuition lia. }
  assert (j < lines (fl_state fl0))%nat as Hjlt by (rewrite Hend in Ej by lia; lia).
  destruct (next_marked_first _ j Hmb ltac:(lia)) as (k & Hk & Ek & Hun & Hk').
  assert (j < k)%nat as Hjk.
  { destruct (decide (j = k)) as [<-|]; [|lia]. rewrite Hj' in Hk' by done. by specialize (Hk' Hjlt). }
  destruct (line_in_region m0 fl0 k Hr0 Hmk ltac:(lia)) as (Hkr & _ & _).
  destruct (line_in_region m0 fl0 j Hr0 Hmk ltac:(lia)) as (Hjr & Hj16 & _).
  pose proof (region_cell _ _ Hr0). pose proof (region_start _ _ Hr0).
  unfold unmarked_block_size. rewrite Ek.
  assert (line_address (fl_state fl0) k - line_address (fl_state fl0) j = 16 * Z.of_nat (k - j)) as Esz
    by (unfold line_address; lia).
  rewrite (u64_id (line_address _ k - _)), Esz by (unfold is_cell; lia).
  rewrite (proj2 (Z.ltb_lt 0 _)) by lia. cbn -[Z.mul].
  destruct (free_range_spec m fl (line_address (fl_state fl0) j) (16 * Z.of_nat (k - j)))
    as (-> & fl' & Hadd & Hok' & Hsr' & Hat' & _); [done|split; [lia|dlia]|done|lia|lia| |].
  { intros y Hy (l & Hl & Hb & Hyl)%Hat. unfold line_address in *. lia. }
  cbn -[Z.mul]. rewrite Hadd. cbn -[Z.mul].
  destruct (Hiter (line_address (fl_state fl0) j) (16 * Z.of_nat (k - j)) x) as [x' ->]. cbn -[Z.mul].
  exists k. split_and!; [lia| |].
  { rewrite u64_id by (unfold is_cell; lia). lia. }
  split; [done|eapply same_region_trans; [split; eassumption|done]|lia| |].
  - intros y. rewrite Hat', Hat. rewrite (swept_extend fl0 i j k); [|lia|done|done].
    replace (line_address (fl_state fl0) j + 16 * Z.of_nat (k - j)) with (line_address (fl_state fl0) k) by lia.
    done.
  - intros y Hy. rewrite Hat' in Hy. rewrite lookup_insert_ne by lia. apply Hfr. tauto.
Qed.

(** The lines of a heap, counted one by one. *)
Lemma count_filter f n :
  Z.of_nat (length (filter (λ i, f i = true) (seq 0 n))) = count f n.
Proof.
  induction n as [|n IH]; [done|]. rewrite seq_S, filter_app, length_app, Nat2Z.inj_add, IH. cbn [count filter list_filter].
  rewrite Nat.add_0_l. destruct (f n) eqn:E; cbn; destruct (decide _); try done; try congruence; cbn; lia.
Qed.

Lemma count_negb f n : count (λ i, negb (f i)) n = Z.of_nat n - count f n.
Proof. induction n as [|n IH]; [done|]. cbn [count]. rewrite IH. destruct (f n); cbn; lia. Qed.

(** The space that is not free after the sweep is that of the marked lines. *)
Lemma swept_occupied m0 m fl0 fl :
  region_ok m0 fl0 → marks_ok fl0 → swept m0 m fl0 fl (lines (fl_state fl0)) →
  occupied_space fl = 16 * rank (fl_state fl0) (lines (fl_state fl0)).
Proof.
  intros Hr Hmk [[Hr' Hl Hb Hd] [_ _ Ez _] _ Hat _].
  set (mb := fl_state fl0) in *. set (base := mb_start mb / 16).
  assert (mb_start mb mod 16 = 0) as H16 by apply (mb_aligned _ (marks_bits _ Hmk)).
  assert (free_blocks fl ≫= block_lines m ≡ₚ
            (λ i, base + Z.of_nat i) <$> filter (λ i, negb (bit (marked mb) i) = true) (seq 0 (lines mb))) as Hp.
  { apply NoDup_Permutation.
    - by eapply NoDup_block_lines.
    - apply NoDup_fmap_2; [intros ?? ?; lia|]. apply NoDup_filter, NoDup_seq.
    - intros y. rewrite list_elem_of_bind, list_elem_of_fmap.
      assert ((∃ b, y ∈ block_lines m b ∧ b ∈ free_blocks fl) ↔ free_at m fl (16 * y)) as ->.
      { unfold free_at. apply exist_proper. intros b. split; intros [H1 H2]; split; try done.
        - by eapply elem_of_block_lines; [apply Hb|].
        - by eapply elem_of_block_lines; [apply Hb|]. }
      rewrite Hat. apply exist_proper. intros i. rewrite list_elem_of_filter, elem_of_seq, negb_true_iff.
      unfold line_address, base. split; [intros (H1 & H2 & H3)|intros (-> & H1 & H2)]; split_and!; try done; dlia. }
  unfold occupied_space. rewrite (space_ok _ _ Hl), <- length_block_lines, Hp, length_fmap, count_filter, count_negb.
  2:{ apply Forall_forall. intros b Hin. destruct (Hb b Hin) as [_ [? ?] _ _]. lia. }
  pose proof (marks_size _ Hmk) as Hsz. pose proof (mb_size_eq _ (marks_bits _ Hmk)) as Hsz'.
  pose proof (rank_bounds mb (lines mb)). unfold rank in *. pose proof (region_cell _ _ Hr). pose proof (region_start _ _ Hr).
  pose proof (region_end _ _ Hr). fold mb in Hsz, Hsz'. unfold lines in *. rewrite Ez.
  rewrite u64_id; unfold is_cell; lia.
Qed.

(** [sweep] ends with exactly the unmarked lines free: every block it
    makes is a run of unmarked lines inside the heap, all the invariants of
    the allocator hold again, no word of a marked line is written, and the
    occupied space is that of the marked lines. *)
Lemma sweep_spec m fl :
  region_ok m fl → marks_ok fl →
  ∃ m' fl', sweep m fl = Ok (m', fl') ∧ free_list_ok m' fl' ∧ same_region fl fl' ∧
    (∀ i off, (i < lines (fl_state fl))%nat → 0 ≤ off < 16 →
       free_at m' fl' (line_address (fl_state fl) i + off) ↔ bit (marked (fl_state fl)) i = false) ∧
    (∀ x, ¬ free_at m' fl' x → m' !! x = m !! x) ∧
    occupied_space fl' = 16 * rank (fl_state fl) (lines (fl_state fl)).
Proof.
  intros Hr Hmk. unfold sweep, sweep_with.
  set (init := (m, clear_free_list fl, (), fl_start (clear_free_list fl))).
  destruct (while_loop_ok (sweep_body (λ _ _ x, Ok x))
    (λ '(m', fl', _, start), ∃ i, start = line_address (fl_state fl) i ∧ swept m m' fl fl' i)
    (λ '(_, _, _, start), fl_end fl - start)
    (λ r, ∃ m' fl', r = Ok (m', fl', ()) ∧ swept m m' fl fl' (lines (fl_state fl))) init)
    as (r & -> & m' & fl' & -> & Hsw).
  - intros [[[m1 fl1] []] start] (i & -> & Hsw).
    pose proof (sweep_step (λ _ _ x, Ok x) m m1 fl fl1 () i ltac:(eauto) Hr Hmk Hsw) as Hstep.
    destruct (sweep_body _ _) as [[[[m2 fl2] []] start2]|r].
    + destruct Hstep as (k & Hk & -> & Hsw2). split; [eauto|].
      destruct (line_in_region m fl k Hr Hmk (swept_line _ _ _ _ _ Hsw2)) as (? & _ & _).
      unfold line_address in *. lia.
    + destruct Hstep as [-> ->]. eauto.
  - exists 0%nat. split.
    + unfold line_address. destruct Hmk as [_ -> _]. cbn. lia.
    + split; [by apply clear_free_list_ok|done|lia| |done].
      intros x. pose proof (clear_not_free m fl x). split; [done|]. intros (j & Hj & _). lia.
  - pose proof (region_cell _ _ Hr). pose proof (region_start _ _ Hr). cbn. lia.
  - cbn. exists m', fl'. pose proof (swept_occupied m m' fl fl' Hr Hmk Hsw).
    destruct Hsw as [Hok Hsr _ Hat Hfr]. split_and!; try done.
    intros i off Hi Hoff. rewrite Hat. unfold line_address. split.
    + intros (j & Hj & Hb & Hx). by replace i with j by lia.
    + intros Hb. exists i. split_and!; [done|done|lia|lia].
Qed.

(** * Compaction *)

(** [memmove] to a lower address: the words arrive as they were. *)
Lemma move_words_spec n : ∀ m dest src,
  dest ≤ src → (src - dest) mod 8 = 0 →
  (∀ k, 0 ≤ k < Z.of_nat n → is_Some (m !! (dest + 8 * k)) ∧ is_Some (m !! (src + 8 * k))) →
  ∃ m', move_words m dest src n = Ok m' ∧
    (∀ k, 0 ≤ k < Z.of_nat n → m' !! (dest + 8 * k) = m !! (src + 8 * k)) ∧
    (∀ x, ¬ (dest ≤ x < dest + 8 * Z.of_nat n) → m' !! x = m !! x) ∧
    (∀ x, is_Some (m !! x) → is_Some (m' !! x)).
Proof.
  induction n as [|n IH]; intros m dest src Hle H8 Hmap; cbn [move_words].
  { exists m. split_and!; [done|lia|done|done]. }
  destruct (Hmap 0 ltac:(lia)) as [Hd [w Hw]]. rewrite Z.mul_0_r, Z.add_0_r in Hd, Hw.
  rewrite (proj2 (load_Ok m src w) Hw). cbn. rewrite store_Ok by done. cbn.
  assert (∀ x, is_Some (m !! x) → is_Some (<[dest := w]> m !! x)) as Hkeep.
  { intros x Hx. destruct (decide (dest = x)) as [->|]; [rewrite lookup_insert_eq; eauto|by rewrite lookup_insert_ne]. }
  destruct (IH (<[dest := w]> m) (dest + 8) (src + 8)) as (m' & -> & Hmv & Hfr & Hk).
  - lia.
  - by replace (src + 8 - (dest + 8)) with (src - dest) by lia.
  - intros k Hk. destruct (Hmap (k + 1) ltac:(lia)) as [H1 H2].
    replace (dest + 8 + 8 * k) with (dest + 8 * (k + 1)) by lia.
    replace (src + 8 + 8 * k) with (src + 8 * (k + 1)) by lia. auto.
  - exists m'. split_and!; [done| |intros x Hx; rewrite Hfr by lia; by rewrite lookup_insert_ne by lia|auto].
    intros k Hk'. destruct (decide (k = 0)) as [->|Hk0].
    + rewrite Z.mul_0_r, !Z.add_0_r, Hfr by lia. by rewrite lookup_insert_eq, Hw.
    + replace (dest + 8 * k) with (dest + 8 + 8 * (k - 1)) by lia. rewrite Hmv by lia.
      rewrite lookup_insert_ne by lia. f_equal. lia.
Qed.

(** The blocks of a heap in address order.  Every line of a live block is
    marked and no line of another one is; a free block is not live. *)
Record heap_block := mk_heap_block {
  hb_addr : Z;
  hb_size : Z;
  hb_free : bool;
  hb_live : bool
}.

Record heap_block_ok (m : memory) (mb : mark_bits) (b : heap_block) : Prop := {
  hb_size_ok : size_ok (hb_size b);
  hb_header : ∃ h, m !! hb_addr b = Some h ∧ free_p h = hb_free b;
  hb_marks : ∀ i, hb_addr b ≤ line_address mb i < hb_addr b + hb_size b → bit (marked mb) i = hb_live b;
  hb_free_dead : hb_free b = true → hb_live b = false
}.

(** The blocks tile [[a, hi)]. *)
Fixpoint tiles (a hi : Z) (bs : list heap_block) : Prop :=
  match bs with
  | [] => a = hi
  | b :: bs' => hb_addr b = a ∧ tiles (a + hb_size b) hi bs'
  end.

(** Where a block goes: the marked lines slide down. *)
Definition destination (mb : mark_bits) (a : Z) : Z :=
  mb_start mb + 16 * rank mb (Z.to_nat ((a - mb_start mb) / 16)).

Lemma tiles_app a hi bs cs : tiles a hi (bs ++ cs) ↔ ∃ mid, tiles a mid bs ∧ tiles mid hi cs.
Proof.
  revert a. induction bs as [|b bs IH]; intros a; cbn.
  - split; [eauto|]. by intros (? & -> & ?).
  - rewrite IH. naive_solver.
Qed.

Lemma tiles_le m mb a hi bs :
  (∀ b, b ∈ bs → heap_block_ok m mb b) → tiles a hi bs →
  a ≤ hi ∧ ∀ b, b ∈ bs → a ≤ hb_addr b ∧ hb_addr b + hb_size b ≤ hi.
Proof.
  revert a. induction bs as [|b bs IH]; intros a Hok Ht; cbn in Ht; [split; [lia|set_solver]|].
  destruct Ht as [Ha Ht]. destruct (IH _ ltac:(set_solver) Ht) as [Hle Hin].
  destruct (Hok b ltac:(set_solver)) as [[Hs _] _ _ _]. split; [lia|].
  intros c [->|Hc]%elem_of_cons; [lia|]. specialize (Hin c Hc). lia.
Qed.

Lemma tiles_aligned m mb a hi bs b :
  (∀ b, b ∈ bs → heap_block_ok m mb b) → a mod 16 = 0 → tiles a hi bs → b ∈ bs → hb_addr b mod 16 = 0.
Proof.
  revert a. induction bs as [|c bs IH]; intros a Hok Ha Ht Hb; [set_solver|]. destruct Ht as [Hc Ht].
  apply elem_of_cons in Hb as [->|Hb]; [by rewrite Hc|].
  destruct (Hok c ltac:(set_solver)) as [[_ H16] _ _ _].
  eapply (IH (a + hb_size c)); [set_solver|dlia|done|done].
Qed.

Section compaction.
Context (m0 : memory) (fl : free_list_allocator) (Hr : region_ok m0 fl) (Hmk : marks_ok fl).
Let mb := fl_state fl.

Lemma destination_bounds a : fl_start fl ≤ a → fl_start fl ≤ destination mb a ≤ a.
Proof using Hmk.
  intros Ha. unfold destination. destruct Hmk as [_ E _]. fold mb in E. rewrite E.
  pose proof (rank_bounds mb (Z.to_nat ((a - fl_start fl) / 16))). dlia.
Qed.

Lemma destination_mono a b : a ≤ b → destination mb a ≤ destination mb b.
Proof using.
  intros Hab. unfold destination, rank.
  pose proof (count_mono (bit (marked mb)) (Z.to_nat ((a - mb_start mb) / 16)) (Z.to_nat ((b - mb_start mb) / 16))).
  assert ((a - mb_start mb) / 16 ≤ (b - mb_start mb) / 16) by (apply Z.div_le_mono; lia). lia.
Qed.

Lemma destination_aligned a : destination mb a mod 16 = 0.
Proof using Hmk.
  unfold destination. pose proof (mb_aligned _ (marks_bits _ Hmk)) as H. fold mb in H. unfold data_alignment in H. dlia.
Qed.

(** After a block, the destination has advanced by its size if it is live. *)
Lemma destination_step b :
  heap_block_ok m0 mb b → hb_addr b mod 16 = 0 → fl_start fl ≤ hb_addr b →
  destination mb (hb_addr b + hb_size b) = destination mb (hb_addr b) + (if hb_live b then hb_size b else 0).
Proof using Hmk.
  intros [[Hs H16] _ Hmarks _] Ha Hlo. unfold destination.
  pose proof (mb_aligned _ (marks_bits _ Hmk)) as Hal. fold mb in Hal. unfold data_alignment in Hal.
  assert (mb_start mb = fl_start fl) as Est by apply Hmk.
  set (i := Z.to_nat ((hb_addr b - mb_start mb) / 16)). set (n := Z.to_nat (hb_size b / 16)).
  assert (Z.to_nat ((hb_addr b + hb_size b - mb_start mb) / 16) = (i + n)%nat) as -> by (unfold i, n; dlia).
  assert (∀ j, (j < n)%nat → bit (marked mb) (i + j) = hb_live b) as Hbits.
  { intros j Hj. apply Hmarks. unfold line_address, i, n in *. dlia. }
  unfold rank. rewrite count_add. destruct (hb_live b).
  - rewrite (count_all (λ j, bit (marked mb) (i + j)%nat)) by done. unfold n. dlia.
  - rewrite (count_none (λ j, bit (marked mb) (i + j)%nat)) by done. lia.
Qed.

(** A marked block is forwarded to its destination. *)
Lemma forward_destination b off :
  heap_block_ok m0 mb b → hb_live b = true → hb_addr b mod 16 = 0 → fl_start fl ≤ hb_addr b →
  hb_addr b + hb_size b ≤ fl_end fl → 0 ≤ off < hb_size b →
  forward_block (compute_forwarding mb) (hb_addr b + off) = Ok (destination mb (hb_addr b) + off).
Proof using Hr Hmk.
  intros [[Hs H16] _ Hmarks _] Hlive Ha Hlo Hhi Hoff.
  destruct Hmk as [Hmb Est Esz]. fold mb in Hmb, Est, Esz. destruct Hr as [? ? ? Hend ? ?].
  pose proof (mb_aligned _ Hmb) as Hal. unfold data_alignment in Hal.
  pose proof (mb_size_eq _ Hmb) as Hsz.
  set (i := Z.to_nat ((hb_addr b - mb_start mb) / 16)).
  assert (hb_addr b = line_address mb i) as Ei by (unfold line_address, i; dlia).
  set (n := Z.to_nat (off / 16)).
  assert (i + n < lines mb)%nat as Hlt by (unfold lines, i, n; dlia).
  assert (∀ j, (j < n)%nat → bit (marked mb) (i + j) = true) as Hbits.
  { intros j Hj. rewrite <- Hlive. apply Hmarks. unfold line_address, i, n in *. dlia. }
  assert (bit (marked mb) (i + n) = true) as Hbit.
  { rewrite <- Hlive. apply Hmarks. unfold line_address, i, n in *. dlia. }
  replace (hb_addr b + off) with (line_address mb (i + n) + off mod 16) by (rewrite Ei; unfold line_address, n; dlia).
  assert (mark_bits_ok (compute_forwarding mb)) as Hmb' by (destruct Hmb; by split).
  change (line_address mb (i + n)) with (line_address (compute_forwarding mb) (i + n)).
  rewrite forward_block_spec; [|done|done|done|done|dlia].
  change (rank (compute_forwarding mb) (i + n)) with (count (bit (marked mb)) (i + n)).
  rewrite count_add, (count_all (λ j, bit (marked mb) (i + j)%nat)) by done. unfold destination. fold i. unfold rank, n. cbn. f_equal. dlia.
Qed.

(** [fixup_size] measures a block from its own words and those after it,
    wherever the finger is. *)
Context (fixup_size : Z → memory → Z → result Z) (bs : list heap_block).
Context {X : Type} (f : Z → Z → Z → X → X).
Context (Hbs : ∀ b, b ∈ bs → heap_block_ok m0 mb b) (Htiles : tiles (fl_start fl) (fl_end fl) bs).
Context (Hsize : ∀ finger b m, b ∈ bs → (∀ x, hb_addr b ≤ x → m !! x = m0 !! x) →
                  fixup_size finger m (hb_addr b) = Ok (hb_size b)).

(** The callback: it is given the old and the new address. *)
Definition visit (block dest size : Z) (st : memory * X) : result (memory * X) :=
  let '(m, x) := st in Ok (m, f block dest size x).

(** The finger and the caller's state after the blocks [done]. *)
Definition visited (finger : Z) (x : X) (done : list heap_block) : Z * X :=
  foldl (λ '(fg, x) b,
           if hb_live b
           then (hb_addr b + hb_size b, f (hb_addr b) (destination mb (hb_addr b)) (hb_size b) x)
           else (fg, x)) (finger, x) done.

Record compacting (finger0 : Z) (x0 : X) (m : memory) (finger dest : Z) (x : X) (scan : Z)
    (done rest : list heap_block) : Prop := {
  cp_split : bs = done ++ rest;
  cp_done : tiles (fl_start fl) scan done;
  cp_rest : tiles scan (fl_end fl) rest;
  cp_aligned : scan mod 16 = 0;
  cp_dest : dest = destination mb scan;
  cp_above : ∀ y, scan ≤ y → m !! y = m0 !! y;
  cp_mapped : ∀ y, is_Some (m0 !! y) → is_Some (m !! y);
  cp_moved : ∀ b, b ∈ done → hb_live b = true → ∀ k, 0 ≤ k < hb_size b / 8 →
    m !! (destination mb (hb_addr b) + 8 * k) = m0 !! (hb_addr b + 8 * k);
  cp_visited : (finger, x) = visited finger0 x0 done
}.

(** Skipping a block that is not live. *)
Lemma compacting_skip finger0 x0 m finger dest x scan done b rest :
  compacting finger0 x0 m finger dest x scan done (b :: rest) → hb_live b = false →
  compacting finger0 x0 m finger dest x (scan + hb_size b) (done ++ [b]) rest.
Proof using All.
  intros [Hs Hd [Ha Hrest] H16 Hde Hab Hmp Hmv Hv] Hdead.
  assert (b ∈ bs) as Hb by (rewrite Hs; set_solver).
  pose proof (Hbs b Hb) as Hbok. pose proof Hbok as [[Hp Hs16] _ _ _].
  assert (∀ c, c ∈ done → heap_block_ok m0 mb c) as Hdok by (intros c Hc; apply Hbs; rewrite Hs; set_solver).
  destruct (tiles_le _ _ _ _ _ Hdok Hd) as [Hle _]. subst scan.
  split; try done.
  - by rewrite <- app_assoc.
  - apply tiles_app. exists (hb_addr b). split; [done|]. by cbn.
  - dlia.
  - rewrite destination_step, Hdead by done. rewrite Hde. lia.
  - intros y Hy. apply Hab. lia.
  - intros c [Hc| ->%list_elem_of_singleton]%elem_of_app; [auto|congruence].
  - rewrite Hv. unfold visited. rewrite foldl_app. destruct (foldl _ _ done). cbn. by rewrite Hdead.
Qed.

(** Moving a live block. *)
Lemma compacting_move finger0 x0 m finger dest x scan done b rest :
  compacting finger0 x0 m finger dest x scan done (b :: rest) → hb_live b = true →
  ∃ m', (if negb (dest =? scan) then move_words m dest scan (Z.to_nat (hb_size b / 8)) else Ok m) = Ok m' ∧
    compacting finger0 x0 m' (scan + hb_size b) (dest + hb_size b) (f scan dest (hb_size b) x)
      (scan + hb_size b) (done ++ [b]) rest.
Proof using All.
  intros [Hs Hd [Ha Hrest] H16 Hde Hab Hmp Hmv Hv] Hlive.
  assert (b ∈ bs) as Hb by (rewrite Hs; set_solver).
  pose proof (Hbs b Hb) as Hbok. pose proof Hbok as [[Hp Hs16] _ _ _].
  assert (∀ c, c ∈ done → heap_block_ok m0 mb c) as Hdok by (intros c Hc; apply Hbs; rewrite Hs; set_solver).
  assert (∀ c, c ∈ rest → heap_block_ok m0 mb c) as Hrok by (intros c Hc; apply Hbs; rewrite Hs; set_solver).
  destruct (tiles_le _ _ _ _ _ Hdok Hd) as [Hle Hin]. destruct (tiles_le _ _ _ _ _ Hrok Hrest) as [Hhi _].
  pose proof (destination_bounds scan Hle) as Hdb. pose proof (destination_aligned scan) as Hda.
  pose proof (region_mapped _ _ Hr) as Hmap.
  assert (∃ m', (if negb (dest =? scan) then move_words m dest scan (Z.to_nat (hb_size b / 8)) else Ok m) = Ok m' ∧
    (∀ k, 0 ≤ k < hb_size b / 8 → m' !! (dest + 8 * k) = m !! (scan + 8 * k)) ∧
    (∀ y, ¬ (dest ≤ y < dest + hb_size b) → m' !! y = m !! y) ∧
    (∀ y, is_Some (m !! y) → is_Some (m' !! y))) as (m' & Hm' & Hmv' & Hfr' & Hmp').
  { destruct (Z.eqb_spec dest scan) as [->|Hne]; cbn [negb]; [by exists m|].
    destruct (move_words_spec (Z.to_nat (hb_size b / 8)) m dest scan) as (m' & Hm' & H1 & H2 & H3);
      [lia|dlia| |].
    { intros k Hk. split; apply Hmp, Hmap; [dlia..]. }
    exists m'. split_and!; [done|intros k Hk; apply H1; lia| |done].
    intros y Hy. apply H2. dlia. }
  exists m'. split; [done|]. subst scan. split; try done.
  - by rewrite <- app_assoc.
  - apply tiles_app. exists (hb_addr b). split; [done|]. by cbn.
  - dlia.
  - rewrite destination_step, Hlive by done. by rewrite Hde.
  - intros y Hy. rewrite Hfr' by lia. apply Hab. lia.
  - auto.
  - intros c [Hc| ->%list_elem_of_singleton]%elem_of_app Hcl k Hk.
    + rewrite <- (Hmv c Hc Hcl k Hk). apply Hfr'.
      destruct (Hin c Hc) as [Hc1 Hc2]. pose proof (Hdok c Hc) as Hcok. pose proof Hcok as [[? ?] _ _ _].
      assert (hb_addr c mod 16 = 0) as Hca.
      { eapply tiles_aligned; [exact Hdok| |exact Hd|done]. apply (region_aligned _ _ Hr). }
      pose proof (destination_step c Hcok Hca Hc1) as Hst. rewrite Hcl in Hst.
      pose proof (destination_mono _ _ Hc2). dlia.
    + subst dest. rewrite Hmv' by done. apply Hab. dlia.
  - unfold visited in *. rewrite foldl_app, <- Hv. cbn. by rewrite Hlive, <- Hde.
Qed.

(** One turn of [iterate] with [compact_block]. *)
Lemma compacting_step finger0 x0 m finger dest x scan done rest :
  compacting finger0 x0 m finger dest x scan done rest →
  match iterate_body (λ st, fixup_size st.1.1) (compact_block mb visit) (fl_end fl) (m, (finger, dest, x), scan) with
  | inl (m', (finger', dest', x'), scan') =>
      scan < scan' ≤ fl_end fl ∧
      ∃ done' rest', compacting finger0 x0 m' finger' dest' x' scan' done' rest'
  | inr r => rest = [] ∧ r = Ok (m, (finger, dest, x))
  end.
Proof using All.
  intros Hc. pose proof Hc as [Hs Hd Hrest H16 Hde Hab _ _ _]. unfold iterate_body.
  assert (∀ c, c ∈ rest → heap_block_ok m0 mb c) as Hrok by (intros c Hc'; apply Hbs; rewrite Hs; set_solver).
  assert (∀ c, c ∈ done → heap_block_ok m0 mb c) as Hdok by (intros c Hc'; apply Hbs; rewrite Hs; set_solver).
  destruct (tiles_le _ _ _ _ _ Hdok Hd) as [Hlo _]. destruct (tiles_le _ _ _ _ _ Hrok Hrest) as [_ Hin].
  destruct rest as [|b rest].
  { cbn in Hrest. rewrite (proj2 (Z.eqb_eq _ _)) by done. done. }
  destruct Hrest as [Ha Hrest]. destruct (Hin b ltac:(set_solver)) as [_ Hhi].
  assert (b ∈ bs) as Hb by (rewrite Hs; set_solver).
  pose proof (Hbs b Hb) as [[Hp Hs16] (h & Hh & Hfree) Hmarks Hfd]. subst scan.
  pose proof (region_cell _ _ Hr) as Hcell. pose proof (region_start _ _ Hr) as Hst0.
  rewrite (proj2 (Z.eqb_neq (hb_addr b) (fl_end fl))) by lia.
  rewrite Hsize, result_bind_ok, (proj2 (load_Ok m (hb_addr b) h)), result_bind_ok
    by (done || by rewrite Hab by lia).
  rewrite Hfree.
  assert (hb_addr b +& hb_size b = hb_addr b + hb_size b) as Eadd by (apply u64_id; unfold is_cell; lia).
  assert (marked_p mb (hb_addr b) = Ok (hb_live b)) as Emk.
  { destruct Hmk as [Hmb Est Esz]. fold mb in Hmb, Est, Esz. pose proof (mb_aligned _ Hmb) as Hal.
    unfold data_alignment in Hal. pose proof (mb_size_eq _ Hmb). pose proof (region_end _ _ Hr).
    set (i := Z.to_nat ((hb_addr b - mb_start mb) / 16)).
    assert (hb_addr b = line_address mb i + 0) as Ei by (unfold line_address, i; dlia).
    unfold marked_p. rewrite Ei at 1. rewrite bitmap_elt_spec; [|done|done|unfold lines, i; dlia|lia].
    f_equal. apply Hmarks. lia. }
  destruct (hb_free b) eqn:Efree; cbn [negb].
  { cbn. rewrite Eadd. split; [lia|]. eexists _, _. apply compacting_skip; [done|auto]. }
  unfold compact_block. rewrite Emk.
  cbn. destruct (hb_live b) eqn:Elive; cbn.
  - destruct (compacting_move _ _ _ _ _ _ _ _ _ _ Hc Elive) as (m' & Hm' & Hc').
    rewrite Hm'. cbn. rewrite Eadd.
    assert (dest +& hb_size b = dest + hb_size b) as ->.
    { pose proof (destination_bounds (hb_addr b) Hlo). apply u64_id. unfold is_cell. lia. }
    split; [lia|]. eauto.
  - rewrite Eadd. split; [lia|]. eexists _, _. by apply compacting_skip.
Qed.

End compaction.

(** * Witnesses *)

(** A heap of 1024 bytes with a dead block of 32 bytes, a live one of 48 and a
    free one of 944. *)
Definition marked_heap : free_list_allocator :=
  mk_free_list 4096 5120 1024 (replicate 32 []) [] 0 0 (mk_mark_bits 1024 4096 [28] [0]).

Definition heap_words : memory := <[4176 := 945]> (<[4136 := 7]> (zeroed_region 4096 128)).

Definition heap_layout : list heap_block :=
  [mk_heap_block 4096 32 false false; mk_heap_block 4128 48 false true; mk_heap_block 4176 944 true false].

Definition measure (m : memory) (a : Z) : result Z :=
  if a =? 4096 then Ok 32 else if a =? 4128 then Ok 48 else free_block_size m a.

Lemma marked_heap_region : region_ok heap_words marked_heap.
Proof.
  split; [cbn; lia|reflexivity|cbn; split; [lia|reflexivity]|reflexivity|cbn; lia|].
  apply mapped_insert, mapped_insert. by apply (mapped_zeroed_region 4096 128).
Qed.

Lemma marked_heap_marks : marks_ok marked_heap.
Proof. split; [|done|done]. split; [eval_side|reflexivity|eval_side|reflexivity|]. repeat constructor; eval_side. Qed.

Lemma heap_layout_cases b :
  b ∈ heap_layout → b = mk_heap_block 4096 32 false false ∨ b = mk_heap_block 4128 48 false true ∨
                    b = mk_heap_block 4176 944 true false.
Proof. unfold heap_layout. rewrite !elem_of_cons, elem_of_nil. tauto. Qed.

Lemma heap_words_headers :
  heap_words !! 4096 = Some 0 ∧ heap_words !! 4128 = Some 0 ∧ heap_words !! 4176 = Some 945.
Proof. vm_compute. auto. Qed.

Lemma heap_layout_marks b i :
  b ∈ heap_layout → hb_addr b ≤ line_address (fl_state marked_heap) i < hb_addr b + hb_size b →
  bit [28] i = hb_live b.
Proof.
  unfold line_address. change (mb_start (fl_state marked_heap)) with 4096.
  intros [->|[->| ->]]%heap_layout_cases; cbn [hb_addr hb_size hb_live]; intros Hi; rewrite bit_cons_lo by lia.
  - assert (i = 0 ∨ i = 1)%nat as [->| ->] by lia; reflexivity.
  - assert (i = 2 ∨ i = 3 ∨ i = 4)%nat as [->|[->| ->]] by lia; reflexivity.
  - apply (testbit_small 28 5); lia.
Qed.

Lemma heap_layout_ok b : b ∈ heap_layout → heap_block_ok heap_words (fl_state marked_heap) b.
Proof.
  destruct heap_words_headers as (H1 & H2 & H3).
  intros Hb. split; [| |intros i; by apply heap_layout_marks|];
    apply heap_layout_cases in Hb as [->|[->| ->]]; cbn [hb_addr hb_size hb_free hb_live].
  1-3: (split; [lia|reflexivity]).
  1-3: (eexists; split; [eassumption|reflexivity]).
  all: reflexivity || discriminate.
Qed.

Lemma measure_ok b m :
  b ∈ heap_layout → (∀ x, hb_addr b ≤ x → m !! x = heap_words !! x) → measure m (hb_addr b) = Ok (hb_size b).
Proof.
  destruct heap_words_headers as (_ & _ & H3).
  intros [->|[->| ->]]%heap_layout_cases Hm; [reflexivity|reflexivity|].
  change (free_block_size m 4176 = Ok 944). apply free_block_size_spec; [split; [lia|reflexivity]|].
  by rewrite Hm.
Qed.

