(* ===== verification/ObjectStartMap.v ===== *)
(** Cards and the object-start map: vm/write_barrier.hpp,
    vm/object_start_map.hpp and vm/object_start_map.cpp.

    A heap is divided in cards of 256 bytes.  For each card, the map keeps the
    offset in the card of the first object that starts there, or [0xff] when
    no object starts in it; it is how the collector finds the objects of a
    card that the write barrier marked. *)

From S2P Require Import Prelude.
From S2P Require Import Layouts.
From S2P Require Import BitwiseHacks.
From S2P Require Import MarkBits.
Local Open Scope cell_scope.

(** * Definitions *)

(** src/vm/write_barrier.hpp:12-12 [card_points_to_nursery] *)
Definition card_points_to_nursery : Z := 0x80.
(** src/vm/write_barrier.hpp:13-13 [card_points_to_aging] *)
Definition card_points_to_aging : Z := 0x40.
(** src/vm/write_barrier.hpp:14-15 [card_mark_mask] *)
Definition card_mark_mask : Z := Z.lor card_points_to_nursery card_points_to_aging.
(** src/vm/write_barrier.hpp:18-18 [card_bits] *)
Definition card_bits : Z := 8.
(** src/vm/write_barrier.hpp:19-19 [card_size] *)
Definition card_size : Z := Z.shiftl 1 card_bits.
(** src/vm/write_barrier.hpp:20-20 [addr_card_mask] *)
Definition addr_card_mask : Z := card_size - 1.
(** src/vm/write_barrier.hpp:24-24 [deck_bits] *)
Definition deck_bits : Z := card_bits + 10.
(** src/vm/write_barrier.hpp:27-27 [deck_size] *)
Definition deck_size : Z := Z.shiftl 1 deck_bits.
(** src/vm/write_barrier.hpp:28-28 [cards_per_deck] *)
Definition cards_per_deck : Z := Z.shiftl 1 10.
(** src/vm/write_barrier.hpp:30-30 [addr_to_card] *)
Definition addr_to_card (a : Z) : Z := Z.shiftr a card_bits.
(** src/vm/write_barrier.hpp:32-32 [addr_to_deck] *)
Definition addr_to_deck (a : Z) : Z := Z.shiftr a deck_bits.

(** src/vm/object_start_map.hpp:3-3 [card_starts_inside_object] *)
Definition card_starts_inside_object : Z := 0xff.

(** src/vm/object_start_map.hpp:5-8 [object_start_map] (part):
    [object_start_offsets_end] is the length of the list. *)
Record object_start_map := mk_object_start_map {
  osm_size : Z;
  osm_start : Z;
  object_start_offsets : list Z
}.

Definition set_offsets (osm : object_start_map) (offsets : list Z) : object_start_map :=
  mk_object_start_map (osm_size osm) (osm_start osm) offsets.

(** src/vm/object_start_map.cpp:35-37 [clear_object_start_offsets]: the
    [memset] of the first [addr_to_card(size)] bytes. *)
Definition clear_object_start_offsets (osm : object_start_map) : object_start_map :=
  set_offsets osm
    (replicate (Z.to_nat (addr_to_card (osm_size osm))) card_starts_inside_object ++
     drop (Z.to_nat (addr_to_card (osm_size osm))) (object_start_offsets osm)).

(** src/vm/object_start_map.cpp:5-11 [object_start_map] (part):
    The new array has [size / card_size] bytes. *)
Definition new_object_start_map (size start : Z) : object_start_map :=
  clear_object_start_offsets
    (mk_object_start_map size start (replicate (Z.to_nat (size / card_size)) 0)).

(** src/vm/object_start_map.cpp:20-24 [find_object_containing_card] (part):
    The loop, from card [n] down. *)
Fixpoint find_card (osm : object_start_map) (n : nat) : result Z :=
  offset ← read (object_start_offsets osm) n;
  if offset =? card_starts_inside_object then
    check (0 <? n)%nat ≫= λ _,
    match n with 0%nat => Err ASSERTION_FAILED | S n' => find_card osm n' end
  else Ok (osm_start osm +& (Z.of_nat n *& card_size) +& offset).

(** src/vm/object_start_map.cpp:15-26 [find_object_containing_card] *)
Definition find_object_containing_card (osm : object_start_map) (card_index : nat) : result Z :=
  match card_index with
  | 0%nat => Ok (osm_start osm)
  | S n => find_card osm n
  end.

(** src/vm/object_start_map.cpp:28-33 [record_object_start_offset] *)
Definition record_object_start_offset (osm : object_start_map) (obj : Z) : result object_start_map :=
  let idx := Z.to_nat (addr_to_card (obj -& osm_start osm)) in
  let obj_start := Z.land obj addr_card_mask in
  old ← read (object_start_offsets osm) idx;
  offsets ← write (object_start_offsets osm) idx (Z.min old obj_start);
  Ok (set_offsets osm offsets).

(** src/vm/object_start_map.cpp:39-53 [update_card_for_sweep] *)
Definition update_card_for_sweep (offsets : list Z) (index : nat) (mask : Z) : result (list Z) :=
  offset ← read offsets index;
  if negb (offset =? card_starts_inside_object) then
    let mask := Z.shiftr mask (offset / data_alignment) in
    if mask =? 0 then write offsets index card_starts_inside_object
    else write offsets index (u8 (offset +& (rightmost_set_bit mask *& data_alignment)))
  else Ok offsets.

(** src/vm/object_start_map.cpp:56-67 [update_for_sweep] (part):
    The loop, over the words from [index] on: four cards to a word. *)
Fixpoint update_words (offsets : list Z) (index : nat) (words : list Z) : result (list Z) :=
  match words with
  | [] => Ok offsets
  | mask :: words' =>
      offsets ← update_card_for_sweep offsets (index * 4) (Z.land mask 0xffff);
      offsets ← update_card_for_sweep offsets (index * 4 + 1) (Z.land (Z.shiftr mask 16) 0xffff);
      offsets ← update_card_for_sweep offsets (index * 4 + 2) (Z.land (Z.shiftr mask 32) 0xffff);
      offsets ← update_card_for_sweep offsets (index * 4 + 3) (Z.land (Z.shiftr mask 48) 0xffff);
      update_words offsets (S index) words'
  end.

(** src/vm/object_start_map.cpp:55-68 [update_for_sweep] *)
Definition update_for_sweep (osm : object_start_map) (state : mark_bits) : result object_start_map :=
  offsets ← update_words (object_start_offsets osm) 0 (marked state);
  Ok (set_offsets osm offsets).

(** * The invariant

    [objs i] says that an object starts at line [i] of the heap (16 bytes to a
    line, 16 lines to a card). *)

(** The offset of the first line of card [c] where [p] holds. *)
Fixpoint first_in (p : nat → bool) (line n : nat) (off : Z) : Z :=
  match n with
  | 0%nat => card_starts_inside_object
  | S n' => if p line then off else first_in p (S line) n' (off + 16)
  end.

Definition first_start (p : nat → bool) (c : nat) : Z := first_in p (16 * c) 16 0.
Arguments first_start : simpl never.

Record starts_ok (osm : object_start_map) (objs : nat → bool) : Prop := {
  starts_start : 0 ≤ osm_start osm ∧ osm_start osm mod 256 = 0;
  starts_size : osm_size osm = 256 * Z.of_nat (length (object_start_offsets osm));
  starts_end : osm_start osm + osm_size osm < 2 ^ 64;
  starts_offsets : ∀ c, (c < length (object_start_offsets osm))%nat →
    object_start_offsets osm !! c = Some (first_start objs c)
}.

(** Two maps of the same heap. *)
Definition same_map (osm osm' : object_start_map) : Prop :=
  osm_start osm' = osm_start osm ∧ osm_size osm' = osm_size osm.

Definition start_address (osm : object_start_map) (line : nat) : Z := osm_start osm + 16 * Z.of_nat line.

(** Line [j] of card [c] is the first of the card where [p] holds. *)
Definition first_at (p : nat → bool) (c j : nat) : Prop :=
  (j < 16)%nat ∧ p (16 * c + j)%nat = true ∧ ∀ k, (k < j)%nat → p (16 * c + k)%nat = false.

Definition none_in (p : nat → bool) (c : nat) : Prop :=
  ∀ k, (k < 16)%nat → p (16 * c + k)%nat = false.

Lemma first_in_spec p n : ∀ line off,
  (∀ j, (j < n)%nat → p (line + j)%nat = false) ∧ first_in p line n off = card_starts_inside_object ∨
  ∃ j, (j < n)%nat ∧ p (line + j)%nat = true ∧ (∀ k, (k < j)%nat → p (line + k)%nat = false) ∧
       first_in p line n off = off + 16 * Z.of_nat j.
Proof.
  induction n as [|n IH]; intros line off; cbn [first_in]; [left; split; [lia|done]|].
  destruct (p line) eqn:E.
  - right. exists 0%nat. rewrite Nat.add_0_r. split_and!; [lia|done|lia|lia].
  - destruct (IH (S line) (off + 16)) as [[Hno ->]|(j & Hj & Hp & Hno & ->)].
    + left. split; [|done]. intros [|j] Hj; [by rewrite Nat.add_0_r|]. rewrite Nat.add_succ_r. apply Hno. lia.
    + right. exists (S j). rewrite Nat.add_succ_r. split_and!; [lia|done| |lia].
      intros [|k] Hk; [by rewrite Nat.add_0_r|]. rewrite Nat.add_succ_r. apply Hno. lia.
Qed.

Lemma first_start_cases p c :
  none_in p c ∧ first_start p c = card_starts_inside_object ∨
  ∃ j, first_at p c j ∧ first_start p c = 16 * Z.of_nat j ∧ first_start p c ≠ card_starts_inside_object.
Proof.
  destruct (first_in_spec p 16 (16 * c) 0) as [H|(j & Hj & Hp & Hno & E)]; [by left|right].
  exists j. unfold first_start, card_starts_inside_object. rewrite E. split_and!; [done|lia|lia].
Qed.

Lemma first_start_none p c : none_in p c → first_start p c = card_starts_inside_object.
Proof.
  intros H. destruct (first_start_cases p c) as [[_ E]|(j & (Hj & Hp & _) & _)]; [done|].
  by rewrite H in Hp.
Qed.

Lemma first_start_at p c j : first_at p c j → first_start p c = 16 * Z.of_nat j.
Proof.
  intros (Hj & Hp & Hno). destruct (first_start_cases p c) as [[H _]|(k & (Hk & Hpk & Hnok) & -> & _)].
  - by rewrite H in Hp.
  - destruct (Nat.lt_trichotomy j k) as [Hlt|[->|Hlt]]; [|done|].
    + by rewrite Hnok in Hp.
    + by rewrite Hno in Hpk.
Qed.

Lemma card_of_line i : i = (16 * (i / 16) + i mod 16)%nat ∧ (i mod 16 < 16)%nat.
Proof. split; [apply Nat.div_mod_eq|apply Nat.mod_upper_bound; lia]. Qed.

Lemma none_in_lines p c i : none_in p c → (16 * c ≤ i < 16 * S c)%nat → p i = false.
Proof. intros H Hi. replace i with (16 * c + (i - 16 * c))%nat by lia. apply H. lia. Qed.

Lemma card_address osm objs n j :
  starts_ok osm objs → (n < length (object_start_offsets osm))%nat → (j < 16)%nat →
  osm_start osm +& (Z.of_nat n *& card_size) +& (16 * Z.of_nat j) = start_address osm (16 * n + j).
Proof.
  intros [[Hs0 Hs] Hsz He _] Hn Hj. change card_size with 256. unfold start_address.
  rewrite (u64_id (Z.of_nat n * 256)), (u64_id (osm_start osm + _)), u64_id by (unfold is_cell; lia). lia.
Qed.

(** The loop of [find_object_containing_card]. *)
Lemma find_card_spec osm objs : starts_ok osm objs → ∀ n,
  (n < length (object_start_offsets osm))%nat →
  find_card osm n = Err ASSERTION_FAILED ∧ (∀ i, (i < 16 * S n)%nat → objs i = false) ∨
  ∃ c j, find_card osm n = Ok (start_address osm (16 * c + j)) ∧ (c ≤ n)%nat ∧ first_at objs c j ∧
    ∀ i, (16 * S c ≤ i < 16 * S n)%nat → objs i = false.
Proof.
  intros Hok n. induction n as [n IH] using (well_founded_induction lt_wf). intros Hn.
  assert (find_card osm n =
    if first_start objs n =? card_starts_inside_object then
      check (0 <? n)%nat ≫= λ _, match n with 0%nat => Err ASSERTION_FAILED | S n' => find_card osm n' end
    else Ok (osm_start osm +& (Z.of_nat n *& card_size) +& first_start objs n)) as ->.
  { pose proof (proj2 (read_Ok _ _ _) (starts_offsets _ _ Hok n Hn)) as E. destruct n; cbn [find_card]; by rewrite E. }
  destruct (first_start_cases objs n) as [[Hno ->]|(j & Hat & E & Hne)].
  2:{ right. exists n, j. rewrite (proj2 (Z.eqb_neq _ _)), E by done. split_and!; [|done|done|lia].
      f_equal. by apply (card_address osm objs); [done|done|apply Hat]. }
  rewrite Z.eqb_refl. destruct n as [|n]; cbn -[Nat.mul].
  { left. split; [done|]. intros i Hi. apply (none_in_lines _ 0); [done|lia]. }
  destruct (IH n ltac:(lia) ltac:(lia)) as [[-> Hall]|(c & j & -> & Hc & Hat & Hbetween)].
  - left. split; [done|]. intros i Hi. destruct (decide (i < 16 * S n)%nat); [auto|].
    by apply (none_in_lines _ (S n)); [|lia].
  - right. exists c, j. split_and!; [done|lia|done|]. intros i Hi.
    destruct (decide (i < 16 * S n)%nat); [apply Hbetween; lia|]. by apply (none_in_lines _ (S n)); [|lia].
Qed.

(** * Theorems *)

(** [find_object_containing_card] gives an object from which a walk
    reaches every object that overlaps the card: the first object of the last
    card before it in which any object starts, so that an object starting
    between the answer and the card is after the answer and none of the other
    cards has one.  Without an object before the card, the assertion fails. *)
Theorem find_object_containing_card_spec osm objs c :
  starts_ok osm objs → (0 < c ≤ length (object_start_offsets osm))%nat →
  (find_object_containing_card osm c = Err ASSERTION_FAILED ∧ ∀ i, (i < 16 * c)%nat → objs i = false) ∨
  ∃ i, find_object_containing_card osm c = Ok (start_address osm i) ∧
    (i < 16 * c)%nat ∧ objs i = true ∧
    ∀ k, (k < 16 * c)%nat → objs k = true → (i ≤ k)%nat ∨ (k / 16 < i / 16)%nat.
Proof.
  intros Hok Hc. destruct c as [|n]; [lia|]. cbn [find_object_containing_card].
  destruct (find_card_spec osm objs Hok n ltac:(lia)) as [H|(c & j & -> & Hle & (Hj & Hp & Hno) & Hbetween)]; [by left|].
  right. exists (16 * c + j)%nat. split_and!; [done|lia|done|]. intros k Hk Hobj.
  destruct (decide (16 * c + j ≤ k)%nat); [by left|right].
  replace ((16 * c + j) / 16)%nat with c by (apply (Nat.div_unique _ _ _ j); lia).
  apply Nat.Div0.div_lt_upper_bound. destruct (decide (k < 16 * c)%nat); [lia|].
  replace k with (16 * c + (k - 16 * c))%nat in Hobj by lia. by rewrite Hno in Hobj by lia.
Qed.

(** Recording an object keeps the map exact, whether or not another
    object of the card was recorded before it. *)
Lemma record_object_start_offset_spec osm objs i :
  starts_ok osm objs → (i < 16 * length (object_start_offsets osm))%nat →
  ∃ osm', record_object_start_offset osm (start_address osm i) = Ok osm' ∧
    starts_ok osm' (λ k, objs k || (k =? i)%nat) ∧ same_map osm osm'.
Proof.
  intros [[Hs0 Hs] Hsz He Hoff] Hi. destruct (card_of_line i) as [Ei Hm].
  set (c := (i / 16)%nat) in *. set (j := (i mod 16)%nat) in *.
  assert (c < length (object_start_offsets osm))%nat as Hc by lia.
  unfold record_object_start_offset, start_address.
  replace (osm_start osm + 16 * Z.of_nat i - osm_start osm) with (16 * Z.of_nat i) by lia.
  rewrite u64_id by (unfold is_cell; lia). unfold addr_to_card, card_bits. rewrite Z.shiftr_div_pow2 by lia.
  replace (Z.to_nat (16 * Z.of_nat i / 2 ^ 8)) with c by (rewrite Ei; clearbody c j; dlia).
  assert (Z.land (osm_start osm + 16 * Z.of_nat i) addr_card_mask = 16 * Z.of_nat j) as ->.
  { change addr_card_mask with (2 ^ 8 - 1). rewrite land_ones_mod by lia. rewrite Ei. clearbody c j. dlia. }
  rewrite (proj2 (read_Ok _ _ _) (Hoff c Hc)), result_bind_ok, write_Ok by done.
  eexists; split; [done|]. split; [|done].
  split; cbn [osm_start osm_size object_start_offsets set_offsets]; rewrite ?length_insert; try done.
  intros d Hd. destruct (decide (c = d)) as [<-|Hne].
  - rewrite list_lookup_insert_eq by done. f_equal. symmetry.
    destruct (first_start_cases objs c) as [[Hno ->]|(k & (Hk & Hp & Hno) & -> & _)].
    + unfold card_starts_inside_object. rewrite Z.min_r by lia. apply first_start_at. split_and!; [done| |].
      * rewrite <- Ei, Nat.eqb_refl. apply orb_true_r.
      * intros k Hk. rewrite Hno by lia. apply Nat.eqb_neq. lia.
    + replace (Z.min (16 * Z.of_nat k) (16 * Z.of_nat j)) with (16 * Z.of_nat (k `min` j)) by lia.
      apply first_start_at. split_and!; [lia| |].
      * destruct (Nat.min_spec k j) as [[_ ->]|[_ ->]]; [by rewrite Hp|].
        rewrite <- Ei, Nat.eqb_refl. apply orb_true_r.
      * intros l Hl. rewrite Hno by lia. apply Nat.eqb_neq. lia.
  - rewrite list_lookup_insert_ne, Hoff by done. f_equal.
    assert (∀ k, (k < 16)%nat → (16 * d + k =? i)%nat = false) as Hf by (intros k Hk; apply Nat.eqb_neq; lia).
    destruct (first_start_cases objs d) as [[Hno ->]|(k & (Hk & Hp & Hno) & -> & _)]; symmetry.
    + apply first_start_none. intros k Hk. by rewrite Hno, Hf.
    + apply first_start_at. split_and!; [done|by rewrite Hp|]. intros l Hl. by rewrite Hno, Hf by lia.
Qed.

(** ** Sweeping

    [ext i] is the number of lines of the object at line [i]: objects do not
    overlap, an object is marked as a whole, and only objects are marked. *)
Record marked_objects (objs : nat → bool) (ext : nat → nat) (ws : list Z) : Prop := {
  mo_apart : ∀ i k, objs i = true → (i < k < i + ext i)%nat → objs k = false;
  mo_whole : ∀ i k, objs i = true → (i ≤ k < i + ext i)%nat → bit ws k = bit ws i;
  mo_only : ∀ k, bit ws k = true → ∃ i, objs i = true ∧ (i ≤ k < i + ext i)%nat
}.

(** The first marked line after the start of an object is the start of a live
    object. *)
Lemma first_marked_start objs ext ws i l :
  marked_objects objs ext ws → objs i = true → (i ≤ l)%nat → bit ws l = true →
  (∀ k, (i ≤ k < l)%nat → bit ws k = false) → objs l = true.
Proof.
  intros [Hap Hwh Hon] Hi Hil Hl Hno. destruct (Hon l Hl) as (o & Ho & Hol).
  assert (bit ws o = true) as Hbo by (by rewrite <- (Hwh o l)).
  destruct (decide (o < i)%nat) as [Hlt|]; [by rewrite (Hap o i) in Hi by (done || lia)|].
  destruct (decide (o = l)) as [<-|]; [done|]. by rewrite Hno in Hbo by lia.
Qed.

(** The 16 mark bits of card [4 * n + q]. *)
Lemma card_mask ws n w q b :
  ws !! n = Some w → (q < 4)%nat → (b < 16)%nat →
  Z.testbit (Z.land (Z.shiftr w (16 * Z.of_nat q)) 0xffff) (Z.of_nat b) = bit ws (16 * (4 * n + q) + b).
Proof.
  intros Hw Hq Hb. change 0xffff with (Z.ones 16).
  rewrite Z.land_spec, Z.ones_spec_low, andb_true_r, Z.shiftr_spec by lia.
  assert (∀ i, i = (64 * n + (16 * q + b))%nat → bit ws i = Z.testbit w (Z.of_nat (16 * q + b))) as E.
  { intros i ->. unfold bit. replace ((64 * n + (16 * q + b)) / 64)%nat with n by (apply (Nat.div_unique _ _ _ (16 * q + b)); lia).
    replace ((64 * n + (16 * q + b)) mod 64)%nat with (16 * q + b)%nat by (apply (Nat.mod_unique _ _ n); lia).
    by rewrite Hw. }
  rewrite E by lia. f_equal. lia.
Qed.

Lemma u16_mask_cell x : is_cell (Z.land x 0xffff).
Proof. change 0xffff with (2 ^ 16 - 1). rewrite land_ones_mod by lia. unfold is_cell. dlia. Qed.

(** [update_card_for_sweep] on a card whose mark bits are [mask]. *)
Lemma update_card_for_sweep_spec objs ext ws offsets c mask :
  marked_objects objs ext ws → offsets !! c = Some (first_start objs c) →
  0 ≤ mask < 2 ^ 16 → (∀ b, (b < 16)%nat → Z.testbit mask (Z.of_nat b) = bit ws (16 * c + b)) →
  update_card_for_sweep offsets c mask =
    Ok (<[c := first_start (λ k, objs k && bit ws k) c]> offsets).
Proof.
  intros Hmo Hoff Hmr Hmask. unfold update_card_for_sweep.
  rewrite (proj2 (read_Ok _ _ _) Hoff), result_bind_ok.
  assert (c < length offsets)%nat as Hc by (by eapply lookup_lt_Some).
  destruct (first_start_cases objs c) as [[Hno E]|(j & (Hj & Hp & Hno) & E & Hne)].
  { rewrite E, Z.eqb_refl. cbn [negb]. rewrite first_start_none.
    - by rewrite list_insert_id by (by rewrite Hoff, E).
    - intros k Hk. by rewrite Hno. }
  rewrite (proj2 (Z.eqb_neq _ _)) by done. cbn [negb]. rewrite E. unfold data_alignment.
  replace (16 * Z.of_nat j / 16) with (Z.of_nat j) by dlia. set (m := Z.shiftr mask (Z.of_nat j)).
  assert (is_cell m) as Hmc.
  { unfold m, is_cell. rewrite Z.shiftr_div_pow2 by lia. assert (0 < 2 ^ Z.of_nat j) by (apply Z.pow_pos_nonneg; lia).
    split; [apply Z.div_pos; lia|]. apply Z.div_lt_upper_bound; nia. }
  assert (∀ b, (j + b < 16)%nat → Z.testbit m (Z.of_nat b) = bit ws (16 * c + (j + b))) as Hm.
  { intros b Hb. unfold m. rewrite Z.shiftr_spec by lia. rewrite <- Hmask by lia. f_equal. lia. }
  destruct (Z.eqb_spec m 0) as [E0|E0].
  - rewrite write_Ok by done. do 2 f_equal. symmetry. apply first_start_none. intros k Hk.
    destruct (decide (k < j)%nat); [by rewrite Hno|].
    replace k with (j + (k - j))%nat by lia. rewrite <- Hm, E0, Z.bits_0 by lia. apply andb_false_r.
  - rewrite write_Ok by done. do 2 f_equal.
    destruct (rightmost_set_bit_spec m Hmc E0) as (Hr & Hbit & Hlow). set (r := rightmost_set_bit m) in *.
    assert (r < 16 - Z.of_nat j) as Hr16.
    { destruct (decide (r < 16 - Z.of_nat j)); [done|].
      unfold m in Hbit. rewrite Z.shiftr_spec in Hbit by lia. by rewrite (testbit_small mask 16) in Hbit by lia. }
    assert (bit ws (16 * c + (j + Z.to_nat r)) = true) as Hl by (rewrite <- Hm by lia; by rewrite Z2Nat.id by lia).
    assert (∀ k, (16 * c + j ≤ k < 16 * c + (j + Z.to_nat r))%nat → bit ws k = false) as Hbefore.
    { intros k Hk. replace k with (16 * c + (j + (k - (16 * c + j))))%nat by lia.
      rewrite <- Hm by lia. apply Hlow. lia. }
    rewrite (u64_id (r * 16)), u64_id by (unfold is_cell; lia). unfold u8. rewrite Z.mod_small by lia.
    rewrite (first_start_at _ c (j + Z.to_nat r)); [lia|]. split_and!; [lia| |].
    + rewrite Hl, andb_true_r. eapply (first_marked_start objs ext ws (16 * c + j)); [done|done|lia|done|done].
    + intros k Hk. destruct (decide (k < j)%nat); [by rewrite Hno|]. rewrite Hbefore by lia. apply andb_false_r.
Qed.

(** The offsets when the cards before [n] have been updated. *)
Definition updated (objs : nat → bool) (ws offsets : list Z) (n : nat) : Prop :=
  length offsets = (4 * length ws)%nat ∧
  ∀ c, (c < length offsets)%nat → offsets !! c =
    Some (first_start (if (c <? n)%nat then λ k, objs k && bit ws k else objs) c).

Lemma updated_step objs ext ws offsets n w q :
  marked_objects objs ext ws → ws !! n = Some w → (q < 4)%nat → is_cell w →
  updated objs ws offsets (4 * n + q) →
  ∃ offsets', update_card_for_sweep offsets (4 * n + q) (Z.land (Z.shiftr w (16 * Z.of_nat q)) 0xffff) = Ok offsets' ∧
    updated objs ws offsets' (4 * n + S q).
Proof.
  intros Hmo Hw Hq Hwc [Hlen Hoff]. pose proof (lookup_lt_Some _ _ _ Hw) as Hn.
  assert (4 * n + q < length offsets)%nat as Hc by lia.
  rewrite (update_card_for_sweep_spec objs ext ws) by first
    [ done
    | by rewrite Hoff, Nat.ltb_irrefl
    | (change 0xffff with (2 ^ 16 - 1); rewrite land_ones_mod by lia; dlia)
    | (intros b Hb; by apply card_mask) ].
  eexists; split; [done|]. split; [by rewrite length_insert|]. rewrite length_insert. intros c Hc'.
  destruct (decide (c = 4 * n + q)%nat) as [->|Hne].
  - rewrite list_lookup_insert_eq by done. by rewrite (proj2 (Nat.ltb_lt _ _)) by lia.
  - rewrite list_lookup_insert_ne, Hoff by done. do 2 f_equal.
    destruct (Nat.ltb_spec c (4 * n + q)), (Nat.ltb_spec c (4 * n + S q)); try done; lia.
Qed.

Lemma update_words_spec objs ext ws : marked_objects objs ext ws → Forall is_cell ws →
  ∀ words n offsets, drop n ws = words → updated objs ws offsets (4 * n) →
  ∃ offsets', update_words offsets n words = Ok offsets' ∧ updated objs ws offsets' (4 * (n + length words)).
Proof.
  intros Hmo Hws. induction words as [|w words IH]; intros n offsets Hd Hup; cbn [update_words length].
  { exists offsets. by rewrite Nat.add_0_r. }
  destruct (drop_cons_inv _ _ _ _ Hd) as [Hw Hd']. pose proof (word_cell _ _ _ Hws Hw) as Hwc.
  rewrite (Nat.mul_comm n 4).
  assert (updated objs ws offsets (4 * n + 0)) as H0 by (by rewrite Nat.add_0_r).
  destruct (updated_step _ _ _ _ n w 0 Hmo Hw ltac:(lia) Hwc H0) as (o1 & E1 & H1).
  change (16 * Z.of_nat 0) with 0 in E1. rewrite Z.shiftr_0_r, Nat.add_0_r in E1. rewrite E1, result_bind_ok.
  destruct (updated_step _ _ _ _ n w 1 Hmo Hw ltac:(lia) Hwc H1) as (o2 & E2 & H2).
  change (16 * Z.of_nat 1) with 16 in E2. rewrite E2, result_bind_ok.
  destruct (updated_step _ _ _ _ n w 2 Hmo Hw ltac:(lia) Hwc H2) as (o3 & E3 & H3).
  change (16 * Z.of_nat 2) with 32 in E3. rewrite E3, result_bind_ok.
  destruct (updated_step _ _ _ _ n w 3 Hmo Hw ltac:(lia) Hwc H3) as (o4 & E4 & H4).
  change (16 * Z.of_nat 3) with 48 in E4. rewrite E4, result_bind_ok.
  destruct (IH (S n) o4 Hd') as (o5 & -> & H5); [by replace (4 * S n)%nat with (4 * n + 4)%nat by lia|].
  exists o5. split; [done|]. by replace (n + S (length words))%nat with (S n + length words)%nat by lia.
Qed.

(** After a sweep the map is exact for the live objects: each card has the
    offset of the first object of the card that is marked.  It is found from
    the mark bits alone, four cards at a time, because the first marked line
    after the start of an object is the start of an object. *)
Lemma update_for_sweep_spec osm objs ext state :
  starts_ok osm objs → mark_bits_ok state → mb_size state = osm_size osm →
  marked_objects objs ext (marked state) →
  ∃ osm', update_for_sweep osm state = Ok osm' ∧
    starts_ok osm' (λ k, objs k && bit (marked state) k) ∧ same_map osm osm'.
Proof.
  intros [Hs Hsz He Hoff] [_ Hmsz _ _ Hws] Esz Hmo.
  assert (length (object_start_offsets osm) = (4 * length (marked state))%nat) as Hlen
    by (unfold bits_size in Hmsz; lia).
  destruct (update_words_spec objs ext (marked state) Hmo Hws (marked state) 0 (object_start_offsets osm))
    as (o & E & Hl & Ho); [done|split; [done|intros c Hc; by rewrite Hoff]|].
  unfold update_for_sweep. rewrite E, result_bind_ok. eexists; split; [done|]. split; [|done].
  split; cbn [osm_start osm_size object_start_offsets set_offsets]; [done|lia|done|].
  intros c Hc. rewrite Ho by done. rewrite (proj2 (Nat.ltb_lt _ _)); [done|lia].
Qed.

(** * Witnesses *)

(** A heap of four cards, with objects at lines 0, 20 and 40. *)
Definition sample_objs (k : nat) : bool := (k =? 0)%nat || (k =? 20)%nat || (k =? 40)%nat.
Definition sample_ext (k : nat) : nat := if (k =? 0)%nat then 20 else if (k =? 20)%nat then 20 else 2.
Definition sample_map : object_start_map := mk_object_start_map 1024 4096 [0; 64; 128; 255].

(** Objects at 0 and 40 are marked: lines 0 to 19, 40 and 41. *)
Definition sample_state : mark_bits := mk_mark_bits 1024 4096 [2 ^ 20 - 1 + 2 ^ 40 + 2 ^ 41] [0].

Lemma sample_map_ok : starts_ok sample_map sample_objs.
Proof.
  split; [split; [cbn; lia|done]|done|cbn; lia|]. cbn [object_start_offsets sample_map length].
  intros c Hc. destruct c as [|[|[|[|c]]]]; [done..|lia].
Qed.

Lemma sample_state_ok : mark_bits_ok sample_state.
Proof. split; [eval_side|done|eval_side|done|repeat constructor; eval_side]. Qed.

Lemma bit_lines n (P : nat → Prop) : (∀ k, (k < n)%nat → P k) ↔ Forall P (seq 0 n).
Proof. rewrite Forall_seq. split; intros H j Hj; apply H; lia. Qed.

Lemma sample_bits k : bit (marked sample_state) k = ((k <? 20) || (k =? 40) || (k =? 41))%nat.
Proof.
  destruct (decide (k < 64)%nat) as [Hk|Hk].
  - revert k Hk. apply bit_lines. vm_compute. repeat constructor.
  - rewrite bit_ge by (cbn; lia). symmetry. rewrite !orb_false_iff, Nat.ltb_ge, !Nat.eqb_neq. lia.
Qed.

Lemma sample_marked : marked_objects sample_objs sample_ext (marked sample_state).
Proof.
  assert (∀ i, sample_objs i = true → i = 0 ∨ i = 20 ∨ i = 40)%nat as Hc.
  { unfold sample_objs. intros i. rewrite !orb_true_iff, !Nat.eqb_eq. lia. }
  split.
  - intros i k [->|[->| ->]]%Hc Hk; unfold sample_objs; rewrite !orb_false_iff, !Nat.eqb_neq;
      [change (sample_ext 0) with 20%nat in Hk|change (sample_ext 20) with 20%nat in Hk
      |change (sample_ext 40) with 2%nat in Hk]; lia.
  - intros i k [->|[->| ->]]%Hc Hk; rewrite !sample_bits;
      [change (sample_ext 0) with 20%nat in Hk|change (sample_ext 20) with 20%nat in Hk
      |change (sample_ext 40) with 2%nat in Hk]; cbn.
    + by rewrite (proj2 (Nat.ltb_lt _ _)) by lia.
    + rewrite !orb_false_iff, Nat.ltb_ge, !Nat.eqb_neq. lia.
    + assert (k = 40 ∨ k = 41)%nat as [->| ->] by lia; done.
  - intros k. rewrite sample_bits, !orb_true_iff, Nat.ltb_lt, !Nat.eqb_eq.
    intros H. destruct (decide (k < 20)%nat).
    + exists 0%nat. split; [done|]. change (sample_ext 0) with 20%nat. lia.
    + exists 40%nat. split; [done|]. change (sample_ext 40) with 2%nat. lia.
Qed.

Lemma find_object_containing_card_spec_witness :
  (find_object_containing_card sample_map 3 = Err ASSERTION_FAILED ∧ ∀ i, (i < 16 * 3)%nat → sample_objs i = false) ∨
  ∃ i, find_object_containing_card sample_map 3 = Ok (start_address sample_map i) ∧
    (i < 16 * 3)%nat ∧ sample_objs i = true ∧
    ∀ k, (k < 16 * 3)%nat → sample_objs k = true → (i ≤ k)%nat ∨ (k / 16 < i / 16)%nat.
Proof. apply (find_object_containing_card_spec sample_map sample_objs 3); [exact sample_map_ok|cbn; lia]. Defined.
