(* ===== verification/Spaces.v ===== *)
(** The generations of the data heap: vm/bump_allocator.hpp,
    vm/aging_space.hpp, vm/tenured_space.hpp, and the walk over the objects of
    a generation (vm/vm.hpp).

    The nursery and the two aging spaces allocate by advancing a pointer;
    tenured space is a free-list allocator.  Aging and tenured space keep an
    object-start map.  [object_size] is [object::size], which reads the object
    in memory; it is a parameter of the operations that walk over objects. *)

From S2P Require Import Prelude.
From S2P Require Import Layouts.
From S2P Require Import BitwiseHacks.
From S2P Require Import MarkBits.
From S2P Require Import Memory.
From S2P Require Import FreeList.
From S2P Require Import Sweep.
From S2P Require Import ObjectStartMap.
Local Open Scope cell_scope.

(** * Bump allocation *)

(** src/vm/bump_allocator.hpp:3-8 [bump_allocator] (part) *)
Record bump_allocator := mk_bump {
  here : Z;
  ba_start : Z;
  ba_end : Z;
  ba_size : Z
}.

(** src/vm/bump_allocator.hpp:10-11 [bump_allocator] (part) *)
Definition new_bump_allocator (size start : Z) : bump_allocator :=
  mk_bump start start (start +& size) size.

(** src/vm/bump_allocator.hpp:13-15 [contains_p] *)
Definition bump_contains_p (ba : bump_allocator) (obj : Z) : bool :=
  (ba_start ba <=? obj) && (obj <? ba_end ba).

(** src/vm/bump_allocator.hpp:17-21 [allot] *)
Definition bump_allot (ba : bump_allocator) (size : Z) : bump_allocator * Z :=
  let h := here ba in
  (mk_bump (h +& align size data_alignment) (ba_start ba) (ba_end ba) (ba_size ba), h).

(** src/vm/bump_allocator.hpp:23-23 [occupied_space] *)
Definition bump_occupied_space (ba : bump_allocator) : Z := here ba -& ba_start ba.

(** src/vm/bump_allocator.hpp:25-25 [free_space] *)
Definition bump_free_space (ba : bump_allocator) : Z := ba_end ba -& here ba.

(** src/vm/bump_allocator.hpp:27-35 [flush]: without the pattern that a debug
    build fills the space with. *)
Definition flush (ba : bump_allocator) : bump_allocator :=
  mk_bump (ba_start ba) (ba_start ba) (ba_end ba) (ba_size ba).

(** * Aging space *)

(** src/vm/aging_space.hpp:3-4 [aging_space] (part) *)
Record aging_space := mk_aging { ag_bump : bump_allocator; ag_starts : object_start_map }.

(** src/vm/aging_space.hpp:6-7 [aging_space] (part) *)
Definition new_aging_space (size start : Z) : aging_space :=
  mk_aging (new_bump_allocator size start) (new_object_start_map size start).

(** src/vm/aging_space.hpp:9-16 [allot] *)
Definition aging_allot (ag : aging_space) (size : Z) : result (aging_space * option Z) :=
  if ba_end (ag_bump ag) <? (here (ag_bump ag) +& size) then Ok (ag, None)
  else
    let '(ba, obj) := bump_allot (ag_bump ag) size in
    starts ← record_object_start_offset (ag_starts ag) obj;
    Ok (mk_aging ba starts, Some obj).

(** A generation's walk answers 0 for the end. *)
Section walking.
Context (object_size : memory → Z → result Z).

(** src/vm/aging_space.hpp:18-23 [next_object_after] *)
Definition aging_next_object_after (m : memory) (ag : aging_space) (scan : Z) : result Z :=
  size ← object_size m scan;
  Ok (if (scan +& size) <? here (ag_bump ag) then scan +& size else 0).

(** src/vm/aging_space.hpp:25-29 [first_object] *)
Definition aging_first_object (ag : aging_space) : Z :=
  if negb (ba_start (ag_bump ag) =? here (ag_bump ag)) then ba_start (ag_bump ag) else 0.
End walking.

(** * Tenured space *)

(** src/vm/tenured_space.hpp:3-4 [tenured_space] (part) *)
Record tenured_space := mk_tenured { tn_alloc : free_list_allocator; tn_starts : object_start_map }.

(** src/vm/tenured_space.hpp:6-7 [tenured_space] (part) *)
Definition new_tenured_space (m : memory) (size start : Z) : result (memory * tenured_space) :=
  '(m, fl) ← new_free_list_allocator m size start;
  Ok (m, mk_tenured fl (new_object_start_map size start)).

(** src/vm/tenured_space.hpp:9-16 [allot] *)
Definition tenured_allot (m : memory) (tn : tenured_space) (size : Z)
    : result (memory * tenured_space * option Z) :=
  '(m, fl, obj) ← allot m (tn_alloc tn) size;
  match obj with
  | Some obj =>
      starts ← record_object_start_offset (tn_starts tn) obj;
      Ok (m, mk_tenured fl starts, Some obj)
  | None => Ok (m, mk_tenured fl (tn_starts tn), None)
  end.

(** src/vm/tenured_space.hpp:19-22 [next_allocated_object_after] (part):
    One turn of the loop. *)
Definition skip_free_body (m : memory) (fl_end : Z) (scan : Z) : Z + result Z :=
  if scan =? fl_end then inr (Ok 0)
  else
    match header ← load m scan;
          if free_p header then size ← free_block_size m scan; Ok (Some (scan +& size)) else Ok None with
    | Ok (Some scan') => inl scan'
    | Ok None => inr (Ok scan)
    | Err e => inr (Err e)
    end.

(** src/vm/tenured_space.hpp:18-24 [next_allocated_object_after] *)
Definition next_allocated_object_after (m : memory) (tn : tenured_space) (scan : Z) : result Z :=
  r ← while_loop (skip_free_body m (fl_end (tn_alloc tn))) scan;
  r.

(** src/vm/tenured_space.hpp:26-28 [first_object] *)
Definition tenured_first_object (m : memory) (tn : tenured_space) : result Z :=
  next_allocated_object_after m tn (fl_start (tn_alloc tn)).

(** src/vm/tenured_space.hpp:30-33 [next_object_after] *)
Definition tenured_next_object_after (object_size : memory → Z → result Z) (m : memory)
    (tn : tenured_space) (scan : Z) : result Z :=
  size ← object_size m scan;
  next_allocated_object_after m tn (scan +& size).

(** src/vm/tenured_space.hpp:35-38 [sweep] *)
Definition tenured_sweep (m : memory) (tn : tenured_space) : result (memory * tenured_space) :=
  '(m, fl) ← sweep m (tn_alloc tn);
  starts ← update_for_sweep (tn_starts tn) (fl_state fl);
  Ok (m, mk_tenured fl starts).

(** * Walking a generation *)

(** src/vm/vm.hpp:289-292 [each_object] (part):
    One turn of the loop; the iterator works on a state [X] and does not
    write the heap. *)
Definition each_object_body {X} (next : Z → result Z) (iterator : Z → X → X) (st : Z * X)
    : (Z * X) + result X :=
  let '(obj, x) := st in
  if obj =? 0 then inr (Ok x)
  else match next obj with Ok obj' => inl (obj', iterator obj x) | Err e => inr (Err e) end.

(** src/vm/vm.hpp:286-293 [each_object] *)
Definition each_object {X} (first : result Z) (next : Z → result Z) (iterator : Z → X → X) (x : X)
    : result X :=
  obj ← first;
  r ← while_loop (each_object_body next iterator) (obj, x);
  r.

(** * Bump allocation stays in its space *)

Record bump_ok (ba : bump_allocator) : Prop := {
  bump_start : 0 ≤ ba_start ba ∧ ba_start ba mod 16 = 0;
  bump_here : ba_start ba ≤ here ba ≤ ba_end ba ∧ here ba mod 16 = 0;
  bump_end : ba_end ba = ba_start ba + ba_size ba ∧ ba_end ba mod 16 = 0;
  bump_cell : ba_end ba < 2 ^ 63
}.

Lemma bump_allot_spec ba size :
  bump_ok ba → 0 < size → here ba + size ≤ ba_end ba →
  bump_allot ba size =
    (mk_bump (here ba + align size data_alignment) (ba_start ba) (ba_end ba) (ba_size ba), here ba) ∧
  bump_ok (bump_allot ba size).1 ∧ size_ok (align size data_alignment).
Proof.
  intros [[Hs Hs16] [Hh Hh16] [He He16] Hc] Hpos Hfit.
  destruct (align_request size ltac:(lia)) as [Hn Hle]. pose proof Hn as [Hn0 Hn16].
  assert (here ba + align size data_alignment ≤ ba_end ba) as Hfit' by dlia.
  unfold bump_allot. rewrite u64_id by (unfold is_cell; lia).
  split_and!; [done|split; cbn; [done|split; [lia|dlia]|done|done]|done].
Qed.

(** The two parts of an aging space agree. *)
Record aging_ok (ag : aging_space) (objs : nat → bool) : Prop := {
  aging_bump : bump_ok (ag_bump ag);
  aging_starts : starts_ok (ag_starts ag) objs;
  aging_start_eq : osm_start (ag_starts ag) = ba_start (ag_bump ag);
  aging_size_eq : osm_size (ag_starts ag) = ba_size (ag_bump ag)
}.

(** Allocation in aging space answers NULL exactly when the object does
    not fit, and otherwise returns the space at [here], rounded up without
    leaving the space, and keeps the object-start map exact. *)
Theorem aging_allot_spec ag objs size :
  aging_ok ag objs → 0 < size < 2 ^ 63 →
  (ba_end (ag_bump ag) < here (ag_bump ag) + size → aging_allot ag size = Ok (ag, None)) ∧
  (here (ag_bump ag) + size ≤ ba_end (ag_bump ag) →
   ∃ ag' line, aging_allot ag size = Ok (ag', Some (here (ag_bump ag))) ∧
     here (ag_bump ag) = start_address (ag_starts ag) line ∧
     aging_ok ag' (λ k, objs k || (k =? line)%nat) ∧
     here (ag_bump ag') = here (ag_bump ag) + align size data_alignment ∧
     here (ag_bump ag') ≤ ba_end (ag_bump ag') ∧
     ba_start (ag_bump ag') = ba_start (ag_bump ag) ∧ ba_end (ag_bump ag') = ba_end (ag_bump ag)).
Proof.
  intros [Hb Hst Es Ez] Hsize. pose proof Hb as [[Hs Hs16] [Hh Hh16] [He He16] Hc].
  unfold aging_allot. rewrite u64_id by (unfold is_cell; lia). split; intros Hfit.
  { by rewrite (proj2 (Z.ltb_lt _ _)). }
  rewrite (proj2 (Z.ltb_ge _ _)) by done.
  destruct (bump_allot_spec (ag_bump ag) size Hb ltac:(lia) Hfit) as (E & Hb' & Hn). rewrite E in Hb' |- *. cbn in Hb'.
  set (line := Z.to_nat ((here (ag_bump ag) - ba_start (ag_bump ag)) / 16)).
  assert (here (ag_bump ag) = start_address (ag_starts ag) line) as El.
  { unfold start_address, line. rewrite Es. dlia. }
  pose proof (starts_size _ _ Hst) as Hsz. rewrite Ez in Hsz.
  destruct (record_object_start_offset_spec (ag_starts ag) objs line Hst) as (osm' & Hr & Hst' & E1 & E2).
  { unfold line. dlia. }
  rewrite <- El in Hr. rewrite Hr. cbn.
  eexists _, line. split_and!; [done|done| |done|apply Hb'|done|done].
  split; cbn; [done|done|congruence|congruence].
Qed.

(** * Tenured space *)

Record tenured_ok (m : memory) (tn : tenured_space) (objs : nat → bool) : Prop := {
  tenured_free_list : free_list_ok m (tn_alloc tn);
  tenured_starts : starts_ok (tn_starts tn) objs;
  tenured_start_eq : osm_start (tn_starts tn) = fl_start (tn_alloc tn);
  tenured_size_eq : osm_size (tn_starts tn) = fl_size (tn_alloc tn)
}.

(** C4. Allocation in tenured space returns an aligned block that was free, of
    exactly the rounded size, whose header says so; the rest of what was free
    stays free, the block is not free any more, no word outside the free
    blocks is written, the free space drops by the rounded size, the invariant
    of the free lists is kept and the object-start map stays exact.  When it
    answers NULL nothing has changed and no free block was large enough: for a
    small request, large enough to be carved.  No assertion fails and no
    access leaves the heap. *)
Theorem tenured_allot_spec m tn objs size :
  tenured_ok m tn objs → 0 < size < 2 ^ 63 →
  let n := align size data_alignment in
  ∃ m' tn' r, tenured_allot m tn size = Ok (m', tn', r) ∧
    match r with
    | Some b =>
        (∃ line, b = start_address (tn_starts tn) line ∧ tenured_ok m' tn' (λ k, objs k || (k =? line)%nat)) ∧
        same_region (tn_alloc tn) (tn_alloc tn') ∧
        b mod 16 = 0 ∧ m' !! b = Some (free_header n) ∧
        (∀ x, free_at m (tn_alloc tn) x ↔ free_at m' (tn_alloc tn') x ∨ b ≤ x < b + n) ∧
        (∀ x, b ≤ x < b + n → ¬ free_at m' (tn_alloc tn') x) ∧
        (∀ x, ¬ free_at m (tn_alloc tn) x → m' !! x = m !! x) ∧
        free_space (tn_alloc tn') = free_space (tn_alloc tn) - n
    | None =>
        m' = m ∧ tn' = tn ∧
        ∀ b, b ∈ free_blocks (tn_alloc tn) →
          size_at m b < n ∨ n < 512 ∧ size_at m b < page_size_for n
    end.
Proof.
  intros [Hfl Hst Es Ez] Hsize n. destruct (align_request size Hsize) as [[Hn0 Hn16] _]. fold n in Hn0, Hn16.
  unfold tenured_allot.
  destruct (allot_spec m (tn_alloc tn) size Hfl Hsize) as (m' & fl' & [b|] & -> & Hr); rewrite result_bind_ok.
  2:{ destruct Hr as (-> & -> & Hno). exists m, tn, None. split_and!; try done. by destruct tn. }
  fold n in Hr. destruct Hr as (Hok' & Hsr & Hb16 & Hh & Hat & Hsep & Hfr & Hsp).
  destruct Hsr as [E1 E2 E3 E4]. pose proof (fl_region _ _ Hfl) as [Hs0 Hs16 [Hz Hz16] He Hc _].
  assert (fl_start (tn_alloc tn) ≤ b < fl_end (tn_alloc tn)) as Hb.
  { destruct (proj2 (Hat b) ltac:(right; lia)) as (c & Hc' & Hin).
    destruct (fl_blocks _ _ Hfl c Hc') as [_ _ _ ?]. unfold inside in Hin. lia. }
  set (line := Z.to_nat ((b - fl_start (tn_alloc tn)) / 16)).
  assert (b = start_address (tn_starts tn) line) as El by (unfold start_address, line; rewrite Es; dlia).
  destruct (record_object_start_offset_spec (tn_starts tn) objs line Hst) as (osm' & Hrec & Hst' & S1 & S2).
  { pose proof (starts_size _ _ Hst) as Hsz. rewrite Ez in Hsz. unfold line. dlia. }
  rewrite <- El in Hrec. rewrite Hrec, result_bind_ok.
  eexists m', _, (Some b). split; [done|]. cbn [tn_alloc tn_starts].
  split_and!; try done. exists line. split; [done|]. split; cbn; [done|done|congruence|congruence].
Qed.

(** C12. Sweeping tenured space after marking leaves exactly the unmarked lines
    free, in blocks that satisfy every invariant of the free lists, without
    writing a word of a marked line; the occupied space is that of the marked
    lines; and the object-start map becomes exact for the live objects. *)
Theorem tenured_sweep_spec m tn objs ext :
  region_ok m (tn_alloc tn) → marks_ok (tn_alloc tn) → starts_ok (tn_starts tn) objs →
  osm_start (tn_starts tn) = fl_start (tn_alloc tn) → osm_size (tn_starts tn) = fl_size (tn_alloc tn) →
  marked_objects objs ext (marked (fl_state (tn_alloc tn))) →
  let mb := fl_state (tn_alloc tn) in
  ∃ m' tn', tenured_sweep m tn = Ok (m', tn') ∧
    tenured_ok m' tn' (λ k, objs k && bit (marked mb) k) ∧ same_region (tn_alloc tn) (tn_alloc tn') ∧
    (∀ i off, (i < lines mb)%nat → 0 ≤ off < 16 →
       free_at m' (tn_alloc tn') (line_address mb i + off) ↔ bit (marked mb) i = false) ∧
    (∀ x, ¬ free_at m' (tn_alloc tn') x → m' !! x = m !! x) ∧
    occupied_space (tn_alloc tn') = 16 * rank mb (lines mb).
Proof.
  intros Hr Hmk Hst Es Ez Hmo mb. unfold tenured_sweep.
  destruct (sweep_spec m (tn_alloc tn) Hr Hmk) as (m' & fl' & -> & Hok & Hsr & Hat & Hfr & Hocc).
  rewrite result_bind_ok. destruct Hsr as [E1 E2 E3 E4]. rewrite E4. fold mb.
  destruct (update_for_sweep_spec (tn_starts tn) objs ext mb Hst (marks_bits _ Hmk)) as (osm' & -> & Hst' & S1 & S2).
  { unfold mb. by rewrite (marks_size _ Hmk). }
  { done. }
  rewrite result_bind_ok. eexists m', _. split; [done|]. split_and!; try done.
  split; cbn; [done|done|congruence|congruence].
Qed.

(** * Walking over tenured space *)

(** What the walk needs to know about a block. *)
Record walk_block_ok (object_size : memory → Z → result Z) (m : memory) (b : heap_block) : Prop := {
  wb_size : size_ok (hb_size b);
  wb_header : ∃ h, m !! hb_addr b = Some h ∧ free_p h = hb_free b;
  wb_free : hb_free b = true → m !! hb_addr b = Some (free_header (hb_size b));
  wb_object : hb_free b = false → object_size m (hb_addr b) = Ok (hb_size b)
}.

Definition used_blocks (bs : list heap_block) : list heap_block := filter (λ b, hb_free b = false) bs.

#[global] Arguments used_blocks : simpl never.

Lemma used_blocks_cons b bs :
  used_blocks (b :: bs) = if hb_free b then used_blocks bs else b :: used_blocks bs.
Proof. unfold used_blocks. rewrite filter_cons. by destruct (hb_free b). Qed.

(** The address of the first block of a list, 0 when there is none. *)
Definition head_address (bs : list heap_block) : Z :=
  match bs with b :: _ => hb_addr b | [] => 0 end.

Section walk.
Context (object_size : memory → Z → result Z) (m : memory) (tn : tenured_space) (bs : list heap_block).
Let start := fl_start (tn_alloc tn).
Let fin := fl_end (tn_alloc tn).
Context (Hstart : 0 < start) (Hfin : fin < 2 ^ 64) (Htiles : tiles start fin bs).
Context (Hbs : ∀ b, b ∈ bs → walk_block_ok object_size m b).

Lemma walk_tiles_le a rest :
  (∀ b, b ∈ rest → b ∈ bs) → tiles a fin rest →
  a ≤ fin ∧ ∀ b, b ∈ rest → a ≤ hb_addr b ∧ hb_addr b + hb_size b ≤ fin.
Proof using All.
  clear Htiles. revert a. induction rest as [|b rest IH]; intros a Hin Ht; cbn in Ht; [split; [lia|set_solver]|].
  destruct Ht as [Ha Ht]. destruct (IH _ ltac:(set_solver) Ht) as [Hle Hr].
  destruct (Hbs b ltac:(set_solver)) as [[Hs _] _ _ _]. split; [lia|].
  intros c [->|Hc]%elem_of_cons; [lia|]. specialize (Hr c Hc). lia.
Qed.

(** [next_allocated_object_after] from the start of a block answers the next
    block that is not free. *)
Lemma next_allocated_spec a rest :
  (∀ b, b ∈ rest → b ∈ bs) → tiles a fin rest → 0 < a →
  next_allocated_object_after m tn a = Ok (head_address (used_blocks rest)).
Proof using All.
  intros Hin Ht Ha. unfold next_allocated_object_after. fold fin.
  destruct (walk_tiles_le a rest Hin Ht) as [Hle _].
  destruct (while_loop_ok (skip_free_body m fin)
    (λ scan, 0 < scan ∧ ∃ rest', (∀ b, b ∈ rest' → b ∈ bs) ∧ tiles scan fin rest' ∧ used_blocks rest' = used_blocks rest)
    (λ scan, fin - scan) (λ r, r = Ok (head_address (used_blocks rest))) a) as (r & -> & ->).
  - intros scan (Hpos & rest' & Hin' & Ht' & <-). destruct (walk_tiles_le scan rest' Hin' Ht') as [_ Hb].
    unfold skip_free_body. destruct rest' as [|b rest']; cbn in Ht'.
    { by rewrite (proj2 (Z.eqb_eq _ _)). }
    destruct Ht' as [<- Ht']. destruct (Hb b ltac:(set_solver)) as [_ Hfit].
    destruct (Hbs b ltac:(apply Hin'; set_solver)) as [Hsz (h & Hh & Hf) Hfree Hobj]. pose proof Hsz as [Hs0 _].
    rewrite (proj2 (Z.eqb_neq _ _)), (proj2 (load_Ok _ _ _) Hh) by lia. cbn. rewrite Hf.
    rewrite used_blocks_cons. destruct (hb_free b) eqn:Ef.
    + rewrite (free_block_size_spec m (hb_addr b) (hb_size b) Hsz (Hfree eq_refl)). cbn.
      rewrite u64_id by (unfold is_cell; lia). split; [|lia]. split; [lia|]. exists rest'.
      by split_and!; [set_solver|..].
    + done.
  - split; [done|]. by exists rest.
  - lia.
  - done.
Qed.

Lemma used_head rest b us :
  used_blocks rest = b :: us → ∃ pre rest', rest = pre ++ b :: rest' ∧ used_blocks rest' = us ∧ hb_free b = false.
Proof using.
  induction rest as [|c rest IH]; [done|]. rewrite used_blocks_cons. destruct (hb_free c) eqn:Hc.
  2: { intros [= <- <-]. by exists [], rest. }
  - intros (pre & rest' & -> & ? & ?)%IH. by exists (c :: pre), rest'.
Qed.

(** C14. Walking over tenured space with [first_object] and
    [next_object_after] ends, and visits every object of the heap once, in
    address order, and no free block. *)
Theorem tenured_walk_spec {X} (iterator : Z → X → X) (x : X) :
  each_object (tenured_first_object m tn) (tenured_next_object_after object_size m tn) iterator x =
  Ok (foldl (λ x b, iterator (hb_addr b) x) x (used_blocks bs)).
Proof using All.
  unfold each_object, tenured_first_object. fold start.
  rewrite (next_allocated_spec start bs), result_bind_ok by done.
  set (total := foldl (λ x b, iterator (hb_addr b) x) x (used_blocks bs)).
  destruct (while_loop_ok (each_object_body (tenured_next_object_after object_size m tn) iterator)
    (λ '(obj, y), ∃ a rest, (∀ b, b ∈ rest → b ∈ bs) ∧ 0 < a ∧ tiles a fin rest ∧
       obj = head_address (used_blocks rest) ∧ foldl (λ x b, iterator (hb_addr b) x) y (used_blocks rest) = total)
    (λ '(obj, _), if obj =? 0 then 0 else fin - obj + 1) (λ r, r = Ok total)
    (head_address (used_blocks bs), x)) as (r & -> & ->).
  - intros [obj y] (a & rest & Hin & Ha & Ht & -> & Hf). unfold each_object_body.
    destruct (used_blocks rest) as [|b us] eqn:Eu; cbn [head_address]; [by rewrite <- Hf|].
    destruct (used_head _ _ _ Eu) as (pre & rest' & -> & Hus & Hb).
    apply tiles_app in Ht as (mid & Hpre & Hmid & Ht).
    destruct (walk_tiles_le mid (b :: rest')) as [_ Hle]; [set_solver|done|].
    destruct (Hle b ltac:(set_solver)) as [_ Hfit]. cbn [tiles] in Ht.
    destruct (Hbs b ltac:(apply Hin; set_solver)) as [[Hs0 _] _ _ Hobj].
    assert (a ≤ mid) as Ham.
    { clear -Hpre Hin Hbs. revert a Hpre. induction pre as [|c pre IH]; intros a Hpre; cbn in Hpre; [lia|].
      destruct Hpre as [_ Hpre]. destruct (Hbs c ltac:(apply Hin; set_solver)) as [[? _] _ _ _].
      specialize (IH ltac:(set_solver) _ Hpre). lia. }
    rewrite (proj2 (Z.eqb_neq _ _)) by lia. unfold tenured_next_object_after. rewrite (Hobj Hb), result_bind_ok.
    rewrite u64_id by (unfold is_cell; lia). subst mid.
    rewrite (next_allocated_spec (hb_addr b + hb_size b) rest') by (set_solver || done || lia). split.
    + exists (hb_addr b + hb_size b), rest'. split_and!; [set_solver|lia|done|done|]. by rewrite Hus.
    + destruct (Z.eqb_spec (head_address (used_blocks rest')) 0); [lia|].
      destruct (used_blocks rest') as [|c cs] eqn:Ec; [done|]. cbn [head_address] in *.
      destruct (walk_tiles_le (hb_addr b + hb_size b) rest') as [_ Hr]; [set_solver|done|].
      destruct (used_head _ _ _ Ec) as (p & r & -> & _). destruct (Hr c ltac:(set_solver)) as [? ?].
      destruct (Hbs c ltac:(apply Hin; set_solver)) as [[? _] _ _ _]. lia.
  - exists start, bs. split_and!; done.
  - destruct (Z.eqb_spec (head_address (used_blocks bs)) 0); [lia|].
    destruct (used_blocks bs) as [|c cs] eqn:Ec; [done|]. cbn [head_address].
    destruct (walk_tiles_le start bs) as [_ Hr]; [done|done|].
    destruct (used_head _ _ _ Ec) as (p & r & E & _). destruct (Hr c ltac:(rewrite E; set_solver)) as [? ?]. lia.
  - done.
Qed.
End walk.

(** * Witnesses *)

Definition sample_aging : aging_space :=
  mk_aging (mk_bump 4128 4096 5120 1024) (mk_object_start_map 1024 4096 [0; 255; 255; 255]).

Lemma sample_aging_ok : aging_ok sample_aging (λ k, (k =? 0)%nat).
Proof.
  split; [split; cbn; repeat split; first [lia|reflexivity]|split|done|done]; [split; [cbn; lia|done]|done|cbn; lia|].
  cbn [object_start_offsets ag_starts sample_aging length].
  intros c Hc. destruct c as [|[|[|[|c]]]]; [done..|lia].
Qed.

Lemma aging_allot_spec_witness :
  (ba_end (ag_bump sample_aging) < here (ag_bump sample_aging) + 100 → aging_allot sample_aging 100 = Ok (sample_aging, None)) ∧
  (here (ag_bump sample_aging) + 100 ≤ ba_end (ag_bump sample_aging) →
   ∃ ag' line, aging_allot sample_aging 100 = Ok (ag', Some (here (ag_bump sample_aging))) ∧
     here (ag_bump sample_aging) = start_address (ag_starts sample_aging) line ∧
     aging_ok ag' (λ k, (k =? 0)%nat || (k =? line)%nat) ∧
     here (ag_bump ag') = here (ag_bump sample_aging) + align 100 data_alignment ∧
     here (ag_bump ag') ≤ ba_end (ag_bump ag') ∧
     ba_start (ag_bump ag') = ba_start (ag_bump sample_aging) ∧ ba_end (ag_bump ag') = ba_end (ag_bump sample_aging)).
Proof. apply (aging_allot_spec sample_aging (λ k, (k =? 0)%nat) 100); [exact sample_aging_ok|lia]. Defined.

Definition empty_tenured : tenured_space :=
  mk_tenured sample_free_list (mk_object_start_map 1024 4096 [255; 255; 255; 255]).

Lemma empty_tenured_ok : tenured_ok sample_memory empty_tenured (λ _, false).
Proof.
  split; [exact sample_free_list_ok|split|done|done]; [split; [cbn; lia|done]|done|cbn; lia|].
  cbn [object_start_offsets tn_starts empty_tenured length].
  intros c Hc. destruct c as [|[|[|[|c]]]]; [done..|lia].
Qed.

Lemma tenured_allot_spec_witness :
  let n := align 600 data_alignment in
  ∃ m' tn' r, tenured_allot sample_memory empty_tenured 600 = Ok (m', tn', r) ∧
    match r with
    | Some b =>
        (∃ line, b = start_address (tn_starts empty_tenured) line ∧ tenured_ok m' tn' (λ k, false || (k =? line)%nat)) ∧
        same_region (tn_alloc empty_tenured) (tn_alloc tn') ∧
        b mod 16 = 0 ∧ m' !! b = Some (free_header n) ∧
        (∀ x, free_at sample_memory (tn_alloc empty_tenured) x ↔ free_at m' (tn_alloc tn') x ∨ b ≤ x < b + n) ∧
        (∀ x, b ≤ x < b + n → ¬ free_at m' (tn_alloc tn') x) ∧
        (∀ x, ¬ free_at sample_memory (tn_alloc empty_tenured) x → m' !! x = sample_memory !! x) ∧
        free_space (tn_alloc tn') = free_space (tn_alloc empty_tenured) - n
    | None =>
        m' = sample_memory ∧ tn' = empty_tenured ∧
        ∀ b, b ∈ free_blocks (tn_alloc empty_tenured) →
          size_at sample_memory b < n ∨ n < 512 ∧ size_at sample_memory b < page_size_for n
    end.
Proof. apply (tenured_allot_spec sample_memory empty_tenured (λ _, false) 600); [exact empty_tenured_ok|lia]. Defined.

(** The marked heap of [Sweep]: objects at lines 0 and 2, and a free block. *)
Definition marked_tenured : tenured_space :=
  mk_tenured marked_heap (mk_object_start_map 1024 4096 [0; 255; 255; 255]).
Definition marked_tenured_objs (k : nat) : bool := (k =? 0)%nat || (k =? 2)%nat.

Definition marked_tenured_ext (k : nat) : nat := match k with 0%nat => 2 | _ => 3 end.

Lemma marked_tenured_starts : starts_ok (tn_starts marked_tenured) marked_tenured_objs.
Proof.
  split; [split; [cbn; lia|done]|done|cbn; lia|]. cbn [object_start_offsets tn_starts marked_tenured length].
  intros c Hc. destruct c as [|[|[|[|c]]]]; [done..|lia].
Qed.

Lemma marked_tenured_bits k : bit [28] k = ((k =? 2) || (k =? 3) || (k =? 4))%nat.
Proof.
  destruct (decide (k < 64)%nat) as [Hk|Hk].
  - revert k Hk. apply bit_lines. vm_compute. repeat constructor.
  - rewrite bit_ge by (cbn; lia). symmetry. rewrite !orb_false_iff, !Nat.eqb_neq. lia.
Qed.

Lemma marked_tenured_marked :
  marked_objects marked_tenured_objs marked_tenured_ext [28].
Proof.
  assert (∀ i, marked_tenured_objs i = true → i = 0 ∨ i = 2)%nat as Hc.
  { unfold marked_tenured_objs. intros i. rewrite orb_true_iff, !Nat.eqb_eq. lia. }
  split.
  - intros i k [->| ->]%Hc Hk; cbn in Hk; unfold marked_tenured_objs; rewrite orb_false_iff, !Nat.eqb_neq; lia.
  - intros i k [->| ->]%Hc Hk; cbn in Hk; rewrite !marked_tenured_bits; cbn.
    + rewrite !orb_false_iff, !Nat.eqb_neq. lia.
    + assert (k = 2 ∨ k = 3 ∨ k = 4)%nat as [->|[->| ->]] by lia; done.
  - intros k. rewrite marked_tenured_bits, !orb_true_iff, !Nat.eqb_eq. intros H.
    exists 2%nat. split; [done|cbn; lia].
Qed.

Lemma tenured_sweep_spec_witness :
  let mb := fl_state (tn_alloc marked_tenured) in
  ∃ m' tn', tenured_sweep heap_words marked_tenured = Ok (m', tn') ∧
    tenured_ok m' tn' (λ k, marked_tenured_objs k && bit (marked mb) k) ∧ same_region (tn_alloc marked_tenured) (tn_alloc tn') ∧
    (∀ i off, (i < lines mb)%nat → 0 ≤ off < 16 →
       free_at m' (tn_alloc tn') (line_address mb i + off) ↔ bit (marked mb) i = false) ∧
    (∀ x, ¬ free_at m' (tn_alloc tn') x → m' !! x = heap_words !! x) ∧
    occupied_space (tn_alloc tn') = 16 * rank mb (lines mb).
Proof.
  apply (tenured_sweep_spec heap_words marked_tenured marked_tenured_objs marked_tenured_ext);
    [exact marked_heap_region|exact marked_heap_marks|exact marked_tenured_starts|reflexivity|reflexivity
    |exact marked_tenured_marked].
Defined.

Lemma heap_layout_walk b : b ∈ heap_layout → walk_block_ok measure heap_words b.
Proof.
  destruct heap_words_headers as (H1 & H2 & H3).
  intros Hb. pose proof (measure_ok b heap_words Hb ltac:(done)) as Hm.
  pose proof (heap_layout_ok b Hb) as [Hs Hh _ _]. split; [done|done| |done].
  apply heap_layout_cases in Hb as [->|[->| ->]]; [discriminate|discriminate|done].
Qed.

Lemma tenured_walk_spec_witness :
  each_object (tenured_first_object heap_words marked_tenured)
    (tenured_next_object_after measure heap_words marked_tenured) (λ b l, l ++ [b]) [] = Ok [4096; 4128].
Proof.
  apply (tenured_walk_spec measure heap_words marked_tenured heap_layout ltac:(cbn; lia) ltac:(cbn; lia)
           ltac:(done) heap_layout_walk (λ b l, l ++ [b]) []).
Defined.
