(* ===== verification/DataHeap.v ===== *)
(** The data heap and its card-marking write barrier: vm/data_heap.hpp,
    vm/data_heap.cpp, and the write barrier of vm/vm.hpp.

    One segment holds, from low to high addresses, tenured space, the two
    aging spaces and the nursery; every generation starts and ends at a deck
    boundary.  The address of the segment is chosen by the operating system
    and is an argument, and so are the addresses of the card and deck arrays,
    which only enter the write barrier. *)

From S2P Require Import Prelude.
From S2P Require Import Layouts.
From S2P Require Import BitwiseHacks.
From S2P Require Import MarkBits.
From S2P Require Import Memory.
From S2P Require Import FreeList.
From S2P Require Import ObjectStartMap.
From S2P Require Import Spaces.
Local Open Scope cell_scope.

(** * Definitions *)

(** src/vm/segments.hpp:9-12 [segment] (part) *)
Record segment := mk_segment { seg_start : Z; seg_size : Z; seg_end : Z }.

(** src/vm/os-unix.cpp:77-99 [segment] (part):
    [start] is the address of the mapping after the low guard page. *)
Definition new_segment (start size : Z) : segment := mk_segment start size (start +& size).

(** src/vm/segments.hpp:25-27 [in_segment_p] *)
Definition in_segment_p (s : segment) (addr : Z) : bool := (seg_start s <=? addr) && (addr <? seg_end s).

(** src/vm/data_heap.hpp:3-22 [data_heap] (part) *)
Record data_heap := mk_data_heap {
  dh_start : Z;
  young_size : Z;
  aging_size : Z;
  tenured_size : Z;
  seg : segment;
  nursery : bump_allocator;
  aging : aging_space;
  aging_semispace : aging_space;
  tenured : tenured_space;
  cards : list Z;
  decks : list Z
}.

(** src/vm/data_heap.cpp:5-47 [data_heap] (part) *)
Definition new_data_heap (m : memory) (segment_address young_size aging_size tenured_size : Z)
    : result (memory * data_heap) :=
  let young_size := align young_size deck_size in
  let aging_size := align aging_size deck_size in
  let tenured_size := align tenured_size deck_size in
  let total_size := (young_size +& (2 *& aging_size)) +& tenured_size +& deck_size in
  let seg := new_segment segment_address total_size in
  let cards := replicate (Z.to_nat (total_size / card_size)) 0 in
  let decks := replicate (Z.to_nat (total_size / deck_size)) 0 in
  let start := align (seg_start seg) deck_size in
  '(m, tenured) ← new_tenured_space m tenured_size start;
  let aging := new_aging_space aging_size (fl_end (tn_alloc tenured)) in
  let aging_semispace := new_aging_space aging_size (ba_end (ag_bump aging)) in
  let nursery_start := ba_end (ag_bump aging_semispace) in
  let nursery := mk_bump nursery_start nursery_start (nursery_start +& young_size) young_size in
  check ((seg_end seg -& ba_end nursery) <=? deck_size) ≫= λ _,
  Ok (m, mk_data_heap start young_size aging_size tenured_size seg nursery aging aging_semispace
           tenured cards decks).

(** src/vm/data_heap.cpp:57-61 [grow]: the vm's nursery is that of the heap. *)
Definition grow (m : memory) (dh : data_heap) (segment_address requested_bytes : Z)
    : result (memory * data_heap) :=
  check (bump_occupied_space (nursery dh) =? 0) ≫= λ _,
  let new_tenured_size := (2 *& tenured_size dh) +& requested_bytes in
  new_data_heap m segment_address (young_size dh) (aging_size dh) new_tenured_size.

Definition set_cards (dh : data_heap) (c d : list Z) : data_heap :=
  mk_data_heap (dh_start dh) (young_size dh) (aging_size dh) (tenured_size dh) (seg dh) (nursery dh)
    (aging dh) (aging_semispace dh) (tenured dh) c d.

(** [memset(&l[first], value, last - first)] on a byte array. *)
Definition memset_range (l : list Z) (first last : nat) (value : Z) : result (list Z) :=
  if (last <=? length l)%nat then Ok (take first l ++ replicate (last - first) value ++ drop (first `max` last) l)
  else Err BAD_ACCESS.

(** src/vm/data_heap.cpp:63-67 [clear_cards] *)
Definition clear_cards (dh : data_heap) (gen_start gen_end : Z) : result data_heap :=
  let first_card := addr_to_card (gen_start -& dh_start dh) in
  let last_card := addr_to_card (gen_end -& dh_start dh) in
  c ← memset_range (cards dh) (Z.to_nat first_card) (Z.to_nat last_card) 0;
  Ok (set_cards dh c (decks dh)).

(** src/vm/data_heap.cpp:69-73 [clear_decks] *)
Definition clear_decks (dh : data_heap) (gen_start gen_end : Z) : result data_heap :=
  let first_deck := addr_to_deck (gen_start -& dh_start dh) in
  let last_deck := addr_to_deck (gen_end -& dh_start dh) in
  d ← memset_range (decks dh) (Z.to_nat first_deck) (Z.to_nat last_deck) 0;
  Ok (set_cards dh (cards dh) d).

(** src/vm/data_heap.cpp:75-77 [reset_nursery] *)
Definition reset_nursery (dh : data_heap) : data_heap :=
  mk_data_heap (dh_start dh) (young_size dh) (aging_size dh) (tenured_size dh) (seg dh) (flush (nursery dh))
    (aging dh) (aging_semispace dh) (tenured dh) (cards dh) (decks dh).

Definition set_aging (dh : data_heap) (ag : aging_space) : data_heap :=
  mk_data_heap (dh_start dh) (young_size dh) (aging_size dh) (tenured_size dh) (seg dh) (nursery dh)
    ag (aging_semispace dh) (tenured dh) (cards dh) (decks dh).

(** src/vm/data_heap.cpp:79-84 [reset_aging] *)
Definition reset_aging (dh : data_heap) : result data_heap :=
  let dh := set_aging dh (mk_aging (flush (ag_bump (aging dh))) (ag_starts (aging dh))) in
  dh ← clear_cards dh (ba_start (ag_bump (aging dh))) (ba_end (ag_bump (aging dh)));
  dh ← clear_decks dh (ba_start (ag_bump (aging dh))) (ba_end (ag_bump (aging dh)));
  Ok (set_aging dh (mk_aging (ag_bump (aging dh)) (clear_object_start_offsets (ag_starts (aging dh))))).

(** src/vm/data_heap.cpp:86-89 [reset_tenured] *)
Definition reset_tenured (dh : data_heap) : result data_heap :=
  dh ← clear_cards dh (fl_start (tn_alloc (tenured dh))) (fl_end (tn_alloc (tenured dh)));
  clear_decks dh (fl_start (tn_alloc (tenured dh))) (fl_end (tn_alloc (tenured dh))).

(** src/vm/data_heap.hpp:38-38 [high_water_mark] *)
Definition high_water_mark (dh : data_heap) : Z := ba_size (nursery dh) +& ba_size (ag_bump (aging dh)).

(** src/vm/data_heap.cpp:91-93 [high_fragmentation_p] *)
Definition high_fragmentation_p (m : memory) (dh : data_heap) : result bool :=
  largest ← largest_free_block m (tn_alloc (tenured dh));
  Ok (largest <=? high_water_mark dh).

(** src/vm/data_heap.cpp:95-97 [low_memory_p] *)
Definition low_memory_p (dh : data_heap) : bool :=
  free_space (tn_alloc (tenured dh)) <=? high_water_mark dh.

(** src/vm/data_heap.cpp:99-102 [mark_all_cards] *)
Definition mark_all_cards (dh : data_heap) : data_heap :=
  set_cards dh (replicate (length (cards dh)) 0xff) (replicate (length (decks dh)) 0xff).

(** src/vm/data_heap.hpp:41-56 [data_heap_room] *)
Record data_heap_room := mk_data_heap_room {
  room_nursery_size : Z;
  room_nursery_occupied : Z;
  room_nursery_free : Z;
  room_aging_size : Z;
  room_aging_occupied : Z;
  room_aging_free : Z;
  room_tenured_size : Z;
  room_tenured_occupied : Z;
  room_tenured_total_free : Z;
  room_tenured_contiguous_free : Z;
  room_tenured_free_block_count : Z;
  room_cards : Z;
  room_decks : Z;
  room_mark_stack : Z
}.

(** src/vm/data_heap.cpp:110-129 [data_room]: [mark_stack_capacity] is that of
    the vector, in elements. *)
Definition data_room (m : memory) (dh : data_heap) (mark_stack_capacity : Z) : result data_heap_room :=
  contiguous ← largest_free_block m (tn_alloc (tenured dh));
  Ok (mk_data_heap_room
        (ba_size (nursery dh)) (bump_occupied_space (nursery dh)) (bump_free_space (nursery dh))
        (ba_size (ag_bump (aging dh))) (bump_occupied_space (ag_bump (aging dh)))
        (bump_free_space (ag_bump (aging dh)))
        (fl_size (tn_alloc (tenured dh))) (occupied_space (tn_alloc (tenured dh)))
        (free_space (tn_alloc (tenured dh))) contiguous (free_block_count (tn_alloc (tenured dh)))
        (Z.of_nat (length (cards dh))) (Z.of_nat (length (decks dh))) (mark_stack_capacity *& 8)).

(** ** The write barrier *)

(** src/vm/data_heap.cpp:104-108 [set_data_heap]: the part of the vm that the
    barrier uses; [cards_address] and [decks_address] are those of the
    arrays. *)
Record barrier := mk_barrier {
  cards_address : Z;
  decks_address : Z;
  cards_offset : Z;
  decks_offset : Z
}.

(** src/vm/data_heap.cpp:104-108 [set_data_heap] *)
Definition set_data_heap (dh : data_heap) (cards_address decks_address : Z) : barrier :=
  mk_barrier cards_address decks_address
    (cards_address -& addr_to_card (dh_start dh)) (decks_address -& addr_to_deck (dh_start dh)).

(** src/vm/vm.hpp:321-324 [write_barrier]: a byte of an array is written
    through its address. *)
Definition write_barrier (b : barrier) (dh : data_heap) (slot_ptr : Z) : result data_heap :=
  c ← write (cards dh) (Z.to_nat ((cards_offset b +& Z.shiftr slot_ptr card_bits) -& cards_address b)) card_mark_mask;
  d ← write (decks dh) (Z.to_nat ((decks_offset b +& Z.shiftr slot_ptr deck_bits) -& decks_address b)) card_mark_mask;
  Ok (set_cards dh c d).

(** src/vm/vm.hpp:330-331 [write_barrier] (part):
    The loop, [n] cards from [offset] on. *)
Fixpoint write_barrier_loop (b : barrier) (dh : data_heap) (offset : Z) (n : nat) : result data_heap :=
  match n with
  | 0%nat => Ok dh
  | S n' => dh ← write_barrier b dh offset; write_barrier_loop b dh (offset +& card_size) n'
  end.

(** src/vm/vm.hpp:326-332 [write_barrier] (part) *)
Definition write_barrier_object (b : barrier) (dh : data_heap) (obj size : Z) : result data_heap :=
  let mask := lnot64 card_size +& 1 in
  let start := Z.land obj mask in
  let fin := Z.land ((obj +& size) +& (card_size - 1)) mask in
  write_barrier_loop b dh start (Z.to_nat ((fin - start) / card_size)).

(** * Geometry *)

Lemma new_bump_ok size start :
  0 ≤ start → start mod 16 = 0 → 0 ≤ size → size mod 16 = 0 → start + size < 2 ^ 63 →
  bump_ok (new_bump_allocator size start).
Proof.
  intros Hs Ha Hz Hz16 He. unfold new_bump_allocator. rewrite u64_id by (unfold is_cell; lia).
  split; cbn; repeat split; try lia; dlia.
Qed.

Lemma new_starts_ok size start :
  0 ≤ start → start mod 256 = 0 → 0 ≤ size → size mod 256 = 0 → start + size < 2 ^ 64 →
  starts_ok (new_object_start_map size start) (λ _, false) ∧
  osm_start (new_object_start_map size start) = start ∧ osm_size (new_object_start_map size start) = size.
Proof.
  intros Hs Ha Hz Hz16 He. split; [|done].
  assert (object_start_offsets (new_object_start_map size start) =
            replicate (Z.to_nat (size / 256)) card_starts_inside_object) as E.
  { unfold new_object_start_map, clear_object_start_offsets. cbn -[Z.div].
    unfold addr_to_card, card_bits. rewrite Z.shiftr_div_pow2 by lia. change (2 ^ 8) with 256.
    change card_size with 256. by rewrite drop_ge, app_nil_r by (rewrite length_replicate; lia). }
  split; rewrite ?E, ?length_replicate; cbn -[Z.mul Z.div]; [split; lia|dlia|lia|].
  intros c Hc. by apply lookup_replicate_2.
Qed.

Lemma new_aging_ok size start :
  0 ≤ start → start mod 256 = 0 → 0 ≤ size → size mod 256 = 0 → start + size < 2 ^ 63 →
  aging_ok (new_aging_space size start) (λ _, false) ∧
  ba_start (ag_bump (new_aging_space size start)) = start ∧
  ba_end (ag_bump (new_aging_space size start)) = start + size ∧
  here (ag_bump (new_aging_space size start)) = start.
Proof.
  intros Hs Ha Hz Hz16 He. destruct (new_starts_ok size start) as (Hst & E1 & E2); [lia..|].
  split_and!; [|done|cbn; apply u64_id; unfold is_cell; lia|done].
  split; cbn; [apply new_bump_ok; dlia|done|done|done].
Qed.

(** The card and the deck of an address of the heap. *)
Definition card_of (dh : data_heap) (a : Z) : nat := Z.to_nat ((a - dh_start dh) / 256).
Definition deck_of (dh : data_heap) (a : Z) : nat := Z.to_nat ((a - dh_start dh) / 262144).

(** The end of the last generation. *)
Definition heap_end (dh : data_heap) : Z := ba_end (nursery dh).

(** Every address of the heap has a card and a deck. *)
Record cards_ok (dh : data_heap) : Prop := {
  heap_start_ok : 0 ≤ dh_start dh ∧ dh_start dh mod 262144 = 0;
  heap_end_ok : dh_start dh ≤ heap_end dh < 2 ^ 63;
  cards_cover : ∀ a, dh_start dh ≤ a < heap_end dh → (card_of dh a < length (cards dh))%nat;
  decks_cover : ∀ a, dh_start dh ≤ a < heap_end dh → (deck_of dh a < length (decks dh))%nat
}.

(** The data heap that is made for any three sizes, wherever the operating
    system maps it: the assertion of the constructor holds; tenured space, the
    two aging spaces and the nursery follow each other without gap or overlap
    inside the segment, at deck boundaries, each at least as large as asked
    and less than a deck larger; all are empty and satisfy their invariants;
    and every address of the heap has its card and its deck. *)
Theorem new_data_heap_spec m address young aging_bytes tenured_bytes :
  0 < young → 0 < aging_bytes → 0 < tenured_bytes → 0 ≤ address →
  address + (young + 2 * aging_bytes + tenured_bytes) + 5 * deck_size < 2 ^ 63 →
  mapped m address (address + (young + 2 * aging_bytes + tenured_bytes) + 5 * deck_size) →
  ∃ m' dh, new_data_heap m address young aging_bytes tenured_bytes = Ok (m', dh) ∧
    seg_start (seg dh) ≤ dh_start dh ∧ heap_end dh ≤ seg_end (seg dh) ∧
    (tenured_size dh mod deck_size = 0 ∧ tenured_bytes ≤ tenured_size dh < tenured_bytes + deck_size) ∧
    (aging_size dh mod deck_size = 0 ∧ aging_bytes ≤ aging_size dh < aging_bytes + deck_size) ∧
    (young_size dh mod deck_size = 0 ∧ young ≤ young_size dh < young + deck_size) ∧
    fl_start (tn_alloc (tenured dh)) = dh_start dh ∧
    fl_end (tn_alloc (tenured dh)) = dh_start dh + tenured_size dh ∧
    ba_start (ag_bump (aging dh)) = dh_start dh + tenured_size dh ∧
    ba_start (ag_bump (aging_semispace dh)) = dh_start dh + tenured_size dh + aging_size dh ∧
    ba_start (nursery dh) = dh_start dh + tenured_size dh + 2 * aging_size dh ∧
    heap_end dh = dh_start dh + tenured_size dh + 2 * aging_size dh + young_size dh ∧
    tenured_ok m' (tenured dh) (λ _, false) ∧ aging_ok (aging dh) (λ _, false) ∧
    aging_ok (aging_semispace dh) (λ _, false) ∧ bump_ok (nursery dh) ∧ here (nursery dh) = ba_start (nursery dh) ∧
    cards_ok dh ∧ Forall (λ c, c = 0) (cards dh) ∧ Forall (λ d, d = 0) (decks dh).
Proof.
  intros Hy Ha Ht Hadr Hfit Hmap. change deck_size with (2 ^ 18) in *.
  destruct (align_bounds young 18) as [Hy1 Hy2]; [lia|unfold is_cell; lia|lia|].
  destruct (align_bounds aging_bytes 18) as [Ha1 Ha2]; [lia|unfold is_cell; lia|lia|].
  destruct (align_bounds tenured_bytes 18) as [Ht1 Ht2]; [lia|unfold is_cell; lia|lia|].
  destruct (align_bounds address 18) as [Hs1 Hs2]; [lia|unfold is_cell; lia|lia|].
  unfold new_data_heap. change deck_size with (2 ^ 18).
  set (Y := align young (2 ^ 18)) in *. set (A := align aging_bytes (2 ^ 18)) in *.
  set (T := align tenured_bytes (2 ^ 18)) in *.
  rewrite (u64_id (2 * A)), (u64_id (Y + 2 * A)), (u64_id (Y + 2 * A + T)), (u64_id (Y + 2 * A + T + 2 ^ 18))
    by (unfold is_cell; lia).
  unfold new_segment. cbn [seg_start seg_end seg_size]. set (S := align address (2 ^ 18)) in *.
  assert (Y mod 256 = 0 ∧ A mod 256 = 0 ∧ T mod 256 = 0 ∧ S mod 256 = 0) as (HY & HA & HT & HS) by dlia.
  unfold new_tenured_space.
  destruct (new_free_list_allocator_spec m T S) as (m' & fl & -> & Hfl & Efs & Efz & _);
    [lia|dlia|lia|dlia|lia|intros a Ha' H8; apply Hmap; [lia|done]|]. rewrite !result_bind_ok.
  assert (fl_end fl = S + T) as Efe by (rewrite (region_end _ _ (fl_region _ _ Hfl)); lia).
  cbn [tn_alloc]. rewrite Efe.
  destruct (new_aging_ok A (S + T)) as (Hag & Ga1 & Ga2 & _); [lia|dlia|lia|lia|lia|]. rewrite Ga2.
  destruct (new_aging_ok A (S + T + A)) as (Hsm & Gs1 & Gs2 & _); [lia|dlia|lia|lia|lia|]. rewrite Gs2.
  destruct (new_starts_ok T S) as (Hst & Est & Esz); [lia..|].
  cbn [ba_end]. rewrite (u64_id (S + T + A + A + Y)), (u64_id (address + _)), u64_id by (unfold is_cell; lia).
  rewrite (proj2 (Z.leb_le _ (2 ^ 18))) by lia. rewrite check_true, result_bind_ok.
  eexists m', _. split; [reflexivity|]. unfold heap_end. cbn [seg nursery dh_start tenured aging aging_semispace tn_alloc
    tenured_size aging_size young_size cards decks ba_end ba_start here seg_start seg_end].
  split_and!; try done; try lia.
  - assert (S + T + A + A + Y < 2 ^ 63) by lia. assert (0 ≤ Y ∧ 0 ≤ S + T + A + A) by lia.
    clear - HY HA HT HS H H0. split; cbn [ba_start ba_end ba_size here]; [split; [lia|dlia]|split; [lia|dlia]|split; [lia|dlia]|lia].
  - split; unfold heap_end, card_of, deck_of;
      cbn [nursery dh_start ba_end cards decks]; rewrite ?length_replicate; change card_size with 256.
    + change 262144 with (2 ^ 18). lia.
    + lia.
    + intros a Ha'. dlia.
    + intros a Ha'. change (2 ^ 18) with 262144. dlia.
  - apply Forall_replicate. done.
  - apply Forall_replicate. done.
Qed.

(** * The write barrier *)

(** The index that the barrier computes from an address. *)
Lemma barrier_index base start slot bits :
  0 ≤ bits → 0 ≤ start ≤ slot → slot < 2 ^ 63 → start mod 2 ^ bits = 0 →
  ((base -& Z.shiftr start bits) +& Z.shiftr slot bits) -& base = (slot - start) / 2 ^ bits.
Proof.
  intros Hb Hs Hslot Hal. assert (0 < 2 ^ bits) by (apply Z.pow_pos_nonneg; lia).
  rewrite !Z.shiftr_div_pow2 by lia. unfold u64. rewrite Zplus_mod_idemp_l, Zminus_mod_idemp_l.
  replace (base - start / 2 ^ bits + slot / 2 ^ bits - base) with (slot / 2 ^ bits - start / 2 ^ bits) by lia.
  assert ((slot - start) / 2 ^ bits = slot / 2 ^ bits - start / 2 ^ bits) as ->.
  { rewrite (Z.div_mod start (2 ^ bits)) at 1 by lia. rewrite Hal, Z.add_0_r.
    replace (slot - 2 ^ bits * (start / 2 ^ bits)) with (slot + (- (start / 2 ^ bits)) * 2 ^ bits) by lia.
    rewrite Z.div_add by lia. lia. }
  apply Z.mod_small.
  pose proof (Z.div_le_mono start slot (2 ^ bits) ltac:(lia) ltac:(lia)).
  pose proof (Z.div_le_upper_bound slot (2 ^ bits) slot ltac:(lia) ltac:(nia)).
  pose proof (Z.div_pos start (2 ^ bits) ltac:(lia) ltac:(lia)). lia.
Qed.

Lemma write_barrier_slot dh ca da slot :
  cards_ok dh → dh_start dh ≤ slot < heap_end dh →
  write_barrier (set_data_heap dh ca da) dh slot =
    Ok (set_cards dh (<[card_of dh slot := card_mark_mask]> (cards dh))
                     (<[deck_of dh slot := card_mark_mask]> (decks dh))).
Proof.
  intros [[Hs Hal] He Hc Hd] Hslot. unfold write_barrier, set_data_heap, addr_to_card, addr_to_deck.
  cbn [cards_offset cards_address decks_offset decks_address].
  rewrite !barrier_index by first [done | lia | (unfold card_bits, deck_bits; lia) | (change card_bits with 8; dlia)].
  change (2 ^ card_bits) with 256. change (2 ^ deck_bits) with 262144.
  fold (card_of dh slot). fold (deck_of dh slot). by rewrite !write_Ok by auto.
Qed.

Lemma cards_ok_set dh c d :
  length c = length (cards dh) → length d = length (decks dh) → cards_ok dh → cards_ok (set_cards dh c d).
Proof.
  intros Ec Ed [Hs He Hc Hd]. split; [done|done|..].
  - intros a Ha. unfold card_of in *. cbn in *. rewrite Ec. by apply Hc.
  - intros a Ha. unfold deck_of in *. cbn in *. rewrite Ed. by apply Hd.
Qed.

(** The barrier marks the cards and the decks of [[lo, hi)], and no other. *)
Record marks_range (dh dh' : data_heap) (lo hi : Z) : Prop := {
  mr_same : ∃ c d, dh' = set_cards dh c d ∧ length c = length (cards dh) ∧ length d = length (decks dh);
  mr_card : ∀ a, lo ≤ a < hi → cards dh' !! card_of dh a = Some card_mark_mask;
  mr_deck : ∀ a, lo ≤ a < hi → decks dh' !! deck_of dh a = Some card_mark_mask;
  mr_other_card : ∀ i, (∀ a, lo ≤ a < hi → i ≠ card_of dh a) → cards dh' !! i = cards dh !! i;
  mr_other_deck : ∀ j, (∀ a, lo ≤ a < hi → j ≠ deck_of dh a) → decks dh' !! j = decks dh !! j
}.

Lemma card_of_same dh x a : dh_start dh ≤ x → x mod 256 = 0 → dh_start dh mod 262144 = 0 →
  x ≤ a < x + 256 → card_of dh a = card_of dh x ∧ deck_of dh a = deck_of dh x.
Proof. intros. unfold card_of, deck_of. split; dlia. Qed.

(** The loop over the cards of an object. *)
Lemma write_barrier_loop_spec ca da n : ∀ dh offset,
  cards_ok dh → offset mod 256 = 0 → dh_start dh ≤ offset → offset + 256 * Z.of_nat n ≤ heap_end dh →
  ∃ dh', write_barrier_loop (set_data_heap dh ca da) dh offset n = Ok dh' ∧
    marks_range dh dh' offset (offset + 256 * Z.of_nat n).
Proof.
  induction n as [|n IH]; intros dh offset Hok H256 Hlo Hhi; cbn [write_barrier_loop].
  { exists dh. split; [done|]. split; try lia; try done. by exists (cards dh), (decks dh); destruct dh. }
  pose proof Hok as [[Hs0 Hs] He Hcc Hdc].
  rewrite write_barrier_slot by (done || lia). rewrite result_bind_ok.
  rewrite u64_id by (unfold is_cell; change card_size with 256; lia). change card_size with 256.
  set (dh1 := set_cards dh _ _). change (set_data_heap dh ca da) with (set_data_heap dh1 ca da).
  assert (cards_ok dh1) as Hok1 by (apply cards_ok_set; [apply length_insert|apply length_insert|done]).
  destruct (IH dh1 (offset + 256)) as (dh' & -> & [(c & d & Ed & Elc & Eld) Hc Hd Hoc Hod]);
    [done|dlia|cbn; lia|unfold heap_end in *; cbn; lia|].
  exists dh'. split; [done|].
  change (card_of dh1) with (card_of dh) in *. change (deck_of dh1) with (deck_of dh) in *.
  cbn [cards decks set_cards dh1] in *. rewrite !length_insert in *.
  assert (∀ a, offset ≤ a < offset + 256 → card_of dh a = card_of dh offset ∧ deck_of dh a = deck_of dh offset) as Hsame
    by (intros; by apply card_of_same).
  split.
  - by exists c, d.
  - intros a Ha. destruct (decide (offset + 256 ≤ a)); [apply Hc; lia|].
    destruct (Hsame a ltac:(lia)) as [-> _]. rewrite Hoc.
    + apply list_lookup_insert_eq, Hcc. lia.
    + intros b Hb. unfold card_of. dlia.
  - intros a Ha. destruct (decide (offset + 256 ≤ a)); [apply Hd; lia|].
    destruct (Hsame a ltac:(lia)) as [_ ->].
    destruct (decide (deck_of dh (offset + 256) = deck_of dh offset)) as [E|E]; destruct n as [|n].
    + rewrite Hod by lia. apply list_lookup_insert_eq, Hdc. lia.
    + rewrite <- E. apply Hd. lia.
    + rewrite Hod by lia. apply list_lookup_insert_eq, Hdc. lia.
    + rewrite Hod; [apply list_lookup_insert_eq, Hdc; lia|]. intros b Hb Eb. apply E.
      unfold deck_of in *. dlia.
  - intros i Hi. rewrite Hoc by (intros a Ha; apply Hi; lia). apply list_lookup_insert_ne.
    intros Ei. apply (Hi offset); [lia|done].
  - intros j Hj. rewrite Hod by (intros a Ha; apply Hj; lia). apply list_lookup_insert_ne.
    intros Ej. apply (Hj offset); [lia|done].
Qed.

(** C13. The write barrier for a whole object marks every card and every deck
    that a byte of the object is in and no other, for any object of the heap,
    wherever the card and deck arrays are. *)
Theorem write_barrier_object_spec dh ca da obj size :
  cards_ok dh → heap_end dh mod 256 = 0 → 0 < size → dh_start dh ≤ obj → obj + size ≤ heap_end dh →
  ∃ dh', write_barrier_object (set_data_heap dh ca da) dh obj size = Ok dh' ∧
    (∃ c d, dh' = set_cards dh c d) ∧
    (∀ i, (∃ a, obj ≤ a < obj + size ∧ i = card_of dh a) → cards dh' !! i = Some card_mark_mask) ∧
    (∀ i, (∀ a, obj ≤ a < obj + size → i ≠ card_of dh a) → cards dh' !! i = cards dh !! i) ∧
    (∀ j, (∃ a, obj ≤ a < obj + size ∧ j = deck_of dh a) → decks dh' !! j = Some card_mark_mask) ∧
    (∀ j, (∀ a, obj ≤ a < obj + size → j ≠ deck_of dh a) → decks dh' !! j = decks dh !! j).
Proof.
  intros Hok He256 Hsz Hlo Hhi. pose proof Hok as [[Hs0 Hs] He Hcc Hdc].
  unfold write_barrier_object. change (lnot64 card_size +& 1) with (lnot64 (2 ^ 8 - 1)).
  change (card_size - 1) with 255.
  rewrite (u64_id (obj + size)), (u64_id (obj + size + 255)) by (unfold is_cell; lia).
  rewrite !land_lnot_ones by (unfold is_cell; lia). change (2 ^ 8) with 256. change card_size with 256.
  set (lo := obj - obj mod 256). set (hi := obj + size + 255 - (obj + size + 255) mod 256).
  assert (lo ≤ obj < lo + 256 ∧ lo mod 256 = 0 ∧ obj + size ≤ hi < obj + size + 256 ∧ hi mod 256 = 0 ∧ dh_start dh ≤ lo)
    as (Hl & Hl256 & Hh & Hh256 & Hlo') by (unfold lo, hi; split_and!; dlia).
  assert (lo + 256 * Z.of_nat (Z.to_nat ((hi - lo) / 256)) = hi) as Ehi by dlia.
  destruct (write_barrier_loop_spec ca da (Z.to_nat ((hi - lo) / 256)) dh lo) as (dh' & -> & [(c & d & E & _) Hc Hd Hoc Hod]);
    [done|done|done|rewrite Ehi; dlia|]. rewrite Ehi in *.
  assert (∀ a, lo ≤ a < hi → ∃ b, obj ≤ b < obj + size ∧ card_of dh a = card_of dh b ∧ deck_of dh a = deck_of dh b) as Hnear.
  { intros a Ha. destruct (decide (a < obj)); [exists obj|destruct (decide (a < obj + size)); [exists a|exists (obj + size - 1)]].
    - split; [lia|]. unfold card_of, deck_of. split; dlia.
    - split; [lia|done].
    - split; [lia|]. unfold card_of, deck_of. split; dlia. }
  exists dh'. split_and!; [done|by exists c, d|..].
  - intros i (a & Ha & ->). apply Hc. lia.
  - intros i Hi. apply Hoc. intros a Ha. destruct (Hnear a Ha) as (b & Hb & -> & _). by apply Hi.
  - intros j (a & Ha & ->). apply Hd. lia.
  - intros j Hj. apply Hod. intros a Ha. destruct (Hnear a Ha) as (b & Hb & _ & ->). by apply Hj.
Qed.

(** * Witnesses *)

Lemma new_data_heap_spec_witness :
  ∃ m' dh, new_data_heap (zeroed_region 65536 (Z.to_nat 200000)) 65536 1 1 1 = Ok (m', dh) ∧
    heap_end dh ≤ seg_end (seg dh) ∧ cards_ok dh.
Proof.
  destruct (new_data_heap_spec (zeroed_region 65536 (Z.to_nat 200000)) 65536 1 1 1)
    as (m' & dh & E & _ & Hend & H); [lia..|vm_compute; reflexivity| |].
  - intros a Ha. apply (mapped_zeroed_region 65536 (Z.to_nat 200000)); [reflexivity|].
    rewrite Z2Nat.id by lia. change (5 * deck_size) with 1310720 in Ha. lia.
  - exists m', dh. split_and!; [exact E|exact Hend|apply H].
Defined.

(** A heap of one deck, all of it nursery. *)
Definition sample_data_heap : data_heap :=
  mk_data_heap 262144 262144 0 0 (mk_segment 262144 262144 524288) (mk_bump 262144 262144 524288 262144)
    (new_aging_space 0 262144) (new_aging_space 0 262144)
    (mk_tenured (mk_free_list 262144 262144 0 [] [] 0 0 (new_mark_bits 0 262144)) (new_object_start_map 0 262144))
    (replicate (Z.to_nat 1024) 0) [0].

Lemma sample_data_heap_ok : cards_ok sample_data_heap.
Proof.
  split; unfold heap_end, card_of, deck_of; cbn [sample_data_heap nursery dh_start ba_end cards decks];
    [split; [lia|reflexivity]|lia|intros a Ha; rewrite length_replicate; dlia|intros a Ha; cbn [length]; dlia].
Qed.

Lemma write_barrier_object_spec_witness :
  ∃ dh', write_barrier_object (set_data_heap sample_data_heap 1000 2000) sample_data_heap 262400 300 = Ok dh' ∧
    (∃ c d, dh' = set_cards sample_data_heap c d) ∧
    (∀ i, (∃ a, 262400 ≤ a < 262400 + 300 ∧ i = card_of sample_data_heap a) → cards dh' !! i = Some card_mark_mask) ∧
    (∀ i, (∀ a, 262400 ≤ a < 262400 + 300 → i ≠ card_of sample_data_heap a) →
       cards dh' !! i = cards sample_data_heap !! i) ∧
    (∀ j, (∃ a, 262400 ≤ a < 262400 + 300 ∧ j = deck_of sample_data_heap a) → decks dh' !! j = Some card_mark_mask) ∧
    (∀ j, (∀ a, 262400 ≤ a < 262400 + 300 → j ≠ deck_of sample_data_heap a) →
       decks dh' !! j = decks sample_data_heap !! j).
Proof.
  apply (write_barrier_object_spec sample_data_heap 1000 2000 262400 300);
    [exact sample_data_heap_ok|reflexivity|lia|cbn; lia|unfold heap_end; cbn; lia].
Defined.
