(* ===== verification/Objects.v ===== *)
(** Objects in memory: their sizes, the slots the collector scans, and the
    address an alien caches: vm/layouts.hpp, vm/generic_arrays.hpp,
    vm/slot_visitor.hpp and vm/objects.cpp.

    An object is the address of its header.  [translate_data] is the
    [translate_data] of the fixup a size is asked for with: the identity
    outside heap compaction and image loading. *)

From S2P Require Import Prelude.
From S2P Require Import Layouts.
From S2P Require Import Memory.
From S2P Require Import FreeList.
Local Open Scope cell_scope.

(** * Fields *)

(** [obj->field], [offset] bytes into the object. *)
Definition field (m : memory) (obj offset : Z) : result Z := load m (obj +& offset).
Definition put_field (m : memory) (obj offset value : Z) : result memory := store m (obj +& offset) value.

(** [sizeof] of the structs of layouts.hpp. *)
(** src/vm/layouts.hpp:157-164 [array] *)
Definition sizeof_array : Z := 16.
(** src/vm/layouts.hpp:178-185 [bignum] *)
Definition sizeof_bignum : Z := 16.
(** src/vm/layouts.hpp:187-201 [byte_array] *)
Definition sizeof_byte_array : Z := 16.
(** src/vm/layouts.hpp:204-214 [string] *)
Definition sizeof_string : Z := 32.
(** src/vm/layouts.hpp:223-249 [word] *)
Definition sizeof_word : Z := 80.
(** src/vm/layouts.hpp:252-255 [wrapper] *)
Definition sizeof_wrapper : Z := 16.
(** src/vm/layouts.hpp:258-266 [boxed_float] *)
Definition sizeof_boxed_float : Z := 16.
(** src/vm/layouts.hpp:273-286 [quotation] *)
Definition sizeof_quotation : Z := 40.
(** src/vm/layouts.hpp:289-298 [alien] *)
Definition sizeof_alien : Z := 40.
(** src/vm/layouts.hpp:308-314 [dll] *)
Definition sizeof_dll : Z := 24.
(** src/vm/layouts.hpp:316-319 [callstack] *)
Definition sizeof_callstack : Z := 16.
(** src/vm/layouts.hpp:331-337 [tuple] *)
Definition sizeof_tuple : Z := 16.
(** src/vm/layouts.hpp:168-176 [tuple_layout]: The offsets of its fields, and
    its size. *)
Definition layout_klass : Z := 16.
Definition layout_size : Z := 24.
Definition layout_echelon : Z := 32.
Definition sizeof_tuple_layout : Z := 40.

(** src/vm/generic_arrays.hpp:3-6 [array_capacity] *)
Definition array_capacity (type : Z) (m : memory) (array : Z) : result Z :=
  header ← load m array;
  _ ← check (header_type header =? type);
  capacity ← field m array 8;
  Ok (Z.shiftr capacity TAG_BITS).

(** src/vm/generic_arrays.hpp:8-10 [array_size] *)
Definition array_size (sizeof_header element_size capacity : Z) : Z :=
  sizeof_header +& (capacity *& element_size).

(** src/vm/layouts.hpp:339-341 [tuple_capacity] *)
Definition tuple_capacity (m : memory) (layout : Z) : result Z :=
  size ← field m layout layout_size;
  n ← untag_fixnum size;
  Ok (u64 n).

(** src/vm/layouts.hpp:343-345 [tuple_size] *)
Definition tuple_size (m : memory) (layout : Z) : result Z :=
  n ← tuple_capacity m layout;
  Ok (sizeof_tuple +& (n *& 8)).

(** src/vm/layouts.hpp:347-349 [string_capacity] *)
Definition string_capacity (m : memory) (str : Z) : result Z :=
  length ← field m str 8;
  n ← untag_fixnum length;
  Ok (u64 n).

(** src/vm/layouts.hpp:351-351 [string_size] *)
Definition string_size (size : Z) : Z := sizeof_string +& size.

(** src/vm/callstack.hpp:3-5 [callstack_object_size] *)
Definition callstack_object_size (size : Z) : Z := sizeof_callstack +& size.

(** src/vm/layouts.hpp:300-305 [update_address]: The fields of an alien are
    its base at 8, its displacement at 24 and its address at 32. *)
Definition update_address (m : memory) (alien : Z) : result memory :=
  base ← field m alien 8;
  displacement ← field m alien 24;
  if base =? false_object then put_field m alien 32 displacement
  else put_field m alien 32 (UNTAG base +& sizeof_byte_array +& displacement).

(** * Sizes *)

Section sizes.
Context (translate_data : Z → result Z).

(** src/vm/slot_visitor.hpp:4-40 [object::base_size] *)
Definition base_size (m : memory) (obj : Z) : result Z :=
  header ← load m obj;
  let t := header_type header in
  if t =? ARRAY_TYPE then n ← array_capacity ARRAY_TYPE m obj; Ok (array_size sizeof_array 8 n)
  else if t =? BIGNUM_TYPE then n ← array_capacity BIGNUM_TYPE m obj; Ok (array_size sizeof_bignum 8 n)
  else if t =? BYTE_ARRAY_TYPE then
    n ← array_capacity BYTE_ARRAY_TYPE m obj; Ok (array_size sizeof_byte_array 1 n)
  else if t =? STRING_TYPE then n ← string_capacity m obj; Ok (string_size n)
  else if t =? TUPLE_TYPE then
    layout ← field m obj 8;
    layout ← untag TYPE_COUNT layout;
    layout ← translate_data layout;
    tuple_size m layout
  else if t =? QUOTATION_TYPE then Ok sizeof_quotation
  else if t =? WORD_TYPE then Ok sizeof_word
  else if t =? FLOAT_TYPE then Ok sizeof_boxed_float
  else if t =? DLL_TYPE then Ok sizeof_dll
  else if t =? ALIEN_TYPE then Ok sizeof_alien
  else if t =? WRAPPER_TYPE then Ok sizeof_wrapper
  else if t =? CALLSTACK_TYPE then
    length ← field m obj 8;
    callstack_length ← untag_fixnum length;
    Ok (callstack_object_size (u64 callstack_length))
  else Err CRITICAL_ERROR.

(** src/vm/slot_visitor.hpp:43-48 [object::size] *)
Definition size_with (m : memory) (obj : Z) : result Z :=
  header ← load m obj;
  if free_p header then free_block_size m obj
  else
    size ← base_size m obj;
    Ok (align size data_alignment).

(** src/vm/slot_visitor.hpp:55-87 [object::slot_count] *)
Definition slot_count_with (m : memory) (obj : Z) : result Z :=
  header ← load m obj;
  if free_p header then Ok 0
  else
    let t := header_type header in
    if t =? ARRAY_TYPE then n ← array_capacity ARRAY_TYPE m obj; Ok (1 +& n)
    else if t =? TUPLE_TYPE then
      layout ← field m obj 8;
      layout ← untag TYPE_COUNT layout;
      layout ← translate_data layout;
      n ← tuple_capacity m layout;
      Ok (1 +& n)
    else if (t =? FLOAT_TYPE) || (t =? BYTE_ARRAY_TYPE) || (t =? BIGNUM_TYPE) || (t =? CALLSTACK_TYPE) then Ok 0
    else if t =? WORD_TYPE then Ok 8
    else if t =? ALIEN_TYPE then Ok 2
    else if t =? DLL_TYPE then Ok 1
    else if t =? QUOTATION_TYPE then Ok 3
    else if t =? STRING_TYPE then Ok 3
    else if t =? WRAPPER_TYPE then Ok 1
    else Err CRITICAL_ERROR.
End sizes.

(** src/vm/fixup.hpp:10-10 [no_fixup::translate_data] *)
Definition no_translation (obj : Z) : result Z := Ok obj.

(** src/vm/slot_visitor.hpp:50-50 [object::size] (part) *)
Definition size : memory → Z → result Z := size_with no_translation.

(** src/vm/slot_visitor.hpp:89-91 [object::slot_count] (part) *)
Definition slot_count : memory → Z → result Z := slot_count_with no_translation.

(** The element [slot] of the array at [array]. *)
Definition element_address (array slot : Z) : Z := (array +& sizeof_array) +& (8 *& slot).

(** src/vm/arrays.hpp:3-7 [array_nth] *)
Definition heap_array_nth (m : memory) (array slot : Z) : result Z :=
  capacity ← array_capacity ARRAY_TYPE m array;
  _ ← check (slot <? capacity);
  load m (element_address array slot).

(** src/vm/objects.cpp:6-10 [object_size] *)
Definition object_size (m : memory) (tagged : Z) : result Z :=
  if immediate_p tagged then Ok 0
  else
    obj ← untag TYPE_COUNT tagged;
    size m obj.

(** * The objects of the heap *)

(** The number of elements, bytes or characters a length field holds. *)
Definition length_at (m : memory) (a n : Z) : Prop :=
  m !! a = Some (tag_fixnum n) ∧ 0 ≤ n < array_size_max.

(** An object with header [h] that is neither free nor forwarded, whose length
    field, if its type has one, is a length, with its number of slots and the
    size of its contents. *)
Inductive object_shape (m : memory) (obj : Z) : Z → Z → Z → Prop :=
  | shape_array n : length_at m (obj + 8) n → object_shape m obj ARRAY_TYPE (1 + n) (16 + 8 * n)
  | shape_bignum n : length_at m (obj + 8) n → object_shape m obj BIGNUM_TYPE 0 (16 + 8 * n)
  | shape_byte_array n : length_at m (obj + 8) n → object_shape m obj BYTE_ARRAY_TYPE 0 (16 + n)
  | shape_string n : length_at m (obj + 8) n → object_shape m obj STRING_TYPE 3 (32 + n)
  | shape_tuple layout n :
      m !! (obj + 8) = Some layout → is_cell layout → UNTAG layout < 2 ^ 63 →
      length_at m (UNTAG layout + layout_size) n → object_shape m obj TUPLE_TYPE (1 + n) (16 + 8 * n)
  | shape_quotation : object_shape m obj QUOTATION_TYPE 3 40
  | shape_word : object_shape m obj WORD_TYPE 8 80
  | shape_float : object_shape m obj FLOAT_TYPE 0 16
  | shape_dll : object_shape m obj DLL_TYPE 1 24
  | shape_alien : object_shape m obj ALIEN_TYPE 2 40
  | shape_wrapper : object_shape m obj WRAPPER_TYPE 1 16
  | shape_callstack n : length_at m (obj + 8) n → object_shape m obj CALLSTACK_TYPE 0 (16 + n).

Record object_ok (m : memory) (obj type slots bytes : Z) : Prop := {
  object_address : 0 ≤ obj < 2 ^ 63;
  object_header : ∃ h, m !! obj = Some h ∧ free_p h = false ∧ header_type h = type;
  object_fields : object_shape m obj type slots bytes
}.

Lemma untag_length n : 0 ≤ n < array_size_max → untag_fixnum (tag_fixnum n) = Ok n.
Proof.
  change array_size_max with (2 ^ 58). intros Hn. rewrite untag_tag_fixnum, s60_id; [done|].
  unfold fixnum_range. change fixnum_min with (- 2 ^ 59). change fixnum_max with (2 ^ 59 - 1). lia.
Qed.

Lemma shiftr_length n : 0 ≤ n < array_size_max → Z.shiftr (tag_fixnum n) TAG_BITS = n.
Proof.
  change array_size_max with (2 ^ 58). intros Hn. rewrite tag_fixnum_eq, Z.mod_small by lia.
  unfold TAG_BITS. rewrite Z.shiftr_div_pow2 by lia. dlia.
Qed.

Lemma field_eq m obj k : 0 ≤ obj < 2 ^ 63 → 0 ≤ k < 2 ^ 62 → field m obj k = load m (obj + k).
Proof. intros. unfold field. by rewrite u64_id by (unfold is_cell; lia). Qed.

Lemma UNTAG_range v : is_cell v → 0 ≤ UNTAG v ≤ v ∧ UNTAG v mod 16 = 0.
Proof. intros H. rewrite UNTAG_sub by done. unfold is_cell in H. dlia. Qed.

Lemma array_capacity_spec type m obj h n :
  0 ≤ obj < 2 ^ 63 → m !! obj = Some h → header_type h = type → length_at m (obj + 8) n →
  array_capacity type m obj = Ok n.
Proof.
  intros Ho Hh Ht [Hn Hr]. unfold array_capacity. rewrite field_eq by lia. unfold load.
  rewrite Hh, Hn, !result_bind_ok, Ht, Z.eqb_refl, check_true, !result_bind_ok.
  by rewrite shiftr_length.
Qed.

Lemma length_field_spec m a n : length_at m a n → (v ← load m a; untag_fixnum v) = Ok n.
Proof. intros [Hn Hr]. unfold load. rewrite Hn, result_bind_ok. by apply untag_length. Qed.

Lemma tuple_capacity_spec m layout n :
  0 ≤ layout < 2 ^ 63 → length_at m (layout + layout_size) n → tuple_capacity m layout = Ok n.
Proof.
  intros Hl [Hn Hr]. unfold tuple_capacity. rewrite field_eq by (unfold layout_size; lia).
  unfold load. rewrite Hn, result_bind_ok, untag_length, result_bind_ok by done.
  change array_size_max with (2 ^ 58) in Hr. by rewrite u64_id by (unfold is_cell; lia).
Qed.

Lemma shape_bounds m obj t n b :
  object_shape m obj t n b → 0 ≤ n ∧ 8 * (1 + n) ≤ b ∧ 16 ≤ b < 2 ^ 62.
Proof.
  destruct 1 as [n [_ H]|n [_ H]|n [_ H]|n [_ H]|? n ??? [_ H]| | | | | | |n [_ H]];
    try change array_size_max with (2 ^ 58) in H; lia.
Qed.

Lemma string_capacity_spec m obj n :
  0 ≤ obj < 2 ^ 63 → length_at m (obj + 8) n → string_capacity m obj = Ok n.
Proof.
  intros Ho [Hn Hr]. unfold string_capacity. rewrite field_eq by lia.
  unfold load. rewrite Hn, result_bind_ok, untag_length, result_bind_ok by done.
  change array_size_max with (2 ^ 58) in Hr. by rewrite u64_id by (unfold is_cell; lia).
Qed.

(** Selects the branch of a chain of tests on a type. *)
Ltac select_type :=
  repeat match goal with
  | |- context [?a =? ?b] =>
      first [change (a =? b) with true | change (a =? b) with false]; cbn [orb]; cbv iota
  end.

Lemma array_size_eq h e n :
  0 ≤ h < 64 → 0 ≤ e ≤ 8 → 0 ≤ n < array_size_max → array_size h e n = h + e * n.
Proof.
  change array_size_max with (2 ^ 58). intros. unfold array_size.
  rewrite (u64_id (n * e)), u64_id by (unfold is_cell; nia). lia.
Qed.

Lemma small_sum h n : 0 ≤ h < 64 → 0 ≤ n < array_size_max → h +& n = h + n.
Proof. change array_size_max with (2 ^ 58). intros. rewrite u64_id by (unfold is_cell; lia). done. Qed.

(** The layout of a tuple. *)
Lemma tuple_layout_spec {A} m obj layout (f : Z → result A) :
  0 ≤ obj < 2 ^ 63 → m !! (obj + 8) = Some layout →
  (l ← field m obj 8; l ← untag TYPE_COUNT l; l ← no_translation l; f l) = f (UNTAG layout).
Proof. intros Ho Hl. rewrite field_eq by lia. unfold load. by rewrite Hl. Qed.

Lemma base_size_spec m obj t n b :
  object_ok m obj t n b → base_size no_translation m obj = Ok b.
Proof.
  intros [Ho (h & Hh & _ & Ht) Hs]. unfold base_size. rewrite (proj2 (load_Ok m obj h) Hh), result_bind_ok, Ht.
  destruct Hs as [n Hl|n Hl|n Hl|n Hl|layout n Hf Hc Hu Hl| | | | | | |n Hl]; select_type; try reflexivity.
  1-2: rewrite (array_capacity_spec _ _ _ h n), result_bind_ok by done; f_equal; apply array_size_eq;
    [done|done|apply Hl].
  - rewrite (array_capacity_spec _ _ _ h n), result_bind_ok by done. f_equal.
    rewrite <- (Z.mul_1_l n) at 2. apply array_size_eq; [done|done|apply Hl].
  - rewrite (string_capacity_spec _ _ n), result_bind_ok by done. f_equal.
    apply small_sum; [done|apply Hl].
  - rewrite (tuple_layout_spec _ _ layout) by done. unfold tuple_size.
    rewrite (tuple_capacity_spec _ _ n), result_bind_ok by (done || (apply UNTAG_range in Hc; lia)).
    destruct Hl as [_ Hr]. rewrite <- (array_size_eq 16 8 n) by done. reflexivity.
  - rewrite field_eq by lia. destruct Hl as [Hl Hr]. unfold load. rewrite Hl, result_bind_ok, untag_length by done.
    rewrite result_bind_ok. f_equal. change array_size_max with (2 ^ 58) in Hr.
    rewrite (u64_id n) by (unfold is_cell; lia). by apply small_sum.
Qed.

Lemma slot_count_spec m obj t n b : object_ok m obj t n b → slot_count m obj = Ok n.
Proof.
  intros [Ho (h & Hh & Hf & Ht) Hs]. unfold slot_count, slot_count_with.
  rewrite (proj2 (load_Ok m obj h) Hh), result_bind_ok, Hf, Ht.
  destruct Hs as [n Hl|n Hl|n Hl|n Hl|layout n Hl Hc Hu Hn| | | | | | |n Hl]; select_type; try reflexivity.
  - rewrite (array_capacity_spec _ _ _ h n), result_bind_ok by done. f_equal. apply small_sum; [lia|apply Hl].
  - rewrite (tuple_layout_spec _ _ layout) by done.
    rewrite (tuple_capacity_spec _ _ n), result_bind_ok by (done || (apply UNTAG_range in Hc; lia)).
    f_equal. apply small_sum; [lia|apply Hn].
Qed.

Lemma object_size_eq m obj t n b : object_ok m obj t n b → size m obj = Ok (align b data_alignment).
Proof.
  intros H. unfold size, size_with. destruct (object_header _ _ _ _ _ H) as (h & Hh & Hf & _).
  by rewrite (proj2 (load_Ok m obj h) Hh), result_bind_ok, Hf, (base_size_spec _ _ _ _ _ H), result_bind_ok.
Qed.

Lemma align_size b : 16 ≤ b < 2 ^ 62 →
  b ≤ align b data_alignment < b + 16 ∧ align b data_alignment mod 16 = 0.
Proof. intros Hb. apply (align_bounds b 4); unfold is_cell; lia. Qed.

(** * Arrays in memory *)

(** An array in memory with the given elements. *)
Record array_at (m : memory) (a : Z) (l : list Z) : Prop := {
  arr_address : 0 ≤ a < 2 ^ 62;
  arr_header : ∃ h, m !! a = Some h ∧ header_type h = ARRAY_TYPE;
  arr_length : length_at m (a + 8) (Z.of_nat (length l));
  arr_small : Z.of_nat (length l) < 2 ^ 58;
  arr_elements : ∀ i v, l !! i = Some v → m !! (a + 16 + 8 * Z.of_nat i) = Some v
}.

(** A tagged pointer to an array. *)
Definition tagged_array (m : memory) (v : Z) (l : list Z) : Prop :=
  is_cell v ∧ TAG v = ARRAY_TYPE ∧ array_at m (UNTAG v) l.

Lemma array_capacity_at m a l : array_at m a l → array_capacity ARRAY_TYPE m a = Ok (Z.of_nat (length l)).
Proof.
  intros [Ha (h & Hh & Ht) Hl _ _]. eapply array_capacity_spec; [lia|done|done|done].
Qed.

Lemma element_address_eq a i : 0 ≤ a < 2 ^ 62 → 0 ≤ i < 2 ^ 58 → element_address a i = a + 16 + 8 * i.
Proof.
  intros. unfold element_address. change sizeof_array with 16.
  rewrite (u64_id (a + 16)), (u64_id (8 * i)), u64_id by (unfold is_cell; lia). done.
Qed.

Lemma heap_array_nth_spec m a l i v :
  array_at m a l → l !! i = Some v → heap_array_nth m a (Z.of_nat i) = Ok v.
Proof.
  intros Ha Hi. pose proof (lookup_lt_Some _ _ _ Hi). pose proof Ha as [Hadr _ _ Hsm Hel].
  unfold heap_array_nth. rewrite (array_capacity_at _ _ _ Ha), result_bind_ok.
  rewrite (proj2 (Z.ltb_lt _ _)), check_true, result_bind_ok by lia.
  rewrite element_address_eq by lia. unfold load. by rewrite (Hel i v Hi).
Qed.

Lemma heap_array_nth_out m a l i :
  array_at m a l → Z.of_nat (length l) ≤ i → heap_array_nth m a i = Err ASSERTION_FAILED.
Proof.
  intros Ha Hi. unfold heap_array_nth. rewrite (array_capacity_at _ _ _ Ha), result_bind_ok.
  by rewrite (proj2 (Z.ltb_ge _ _)) by lia.
Qed.

Lemma untag_array m v l : tagged_array m v l → untag ARRAY_TYPE v = Ok (UNTAG v).
Proof. intros (_ & Ht & _). unfold untag. by rewrite Ht. Qed.

Lemma array_at_intro m a l h :
  0 ≤ a < 2 ^ 62 → m !! a = Some h → header_type h = ARRAY_TYPE →
  m !! (a + 8) = Some (tag_fixnum (Z.of_nat (length l))) → Z.of_nat (length l) < 2 ^ 58 →
  (λ i : nat, m !! (a + 16 + 8 * Z.of_nat i)) <$> seq 0 (length l) = Some <$> l →
  array_at m a l.
Proof.
  intros Ha Hh Ht Hl Hn E. split; [done|eauto|split; [done|change array_size_max with (2 ^ 58); lia]|done|].
  intros i v Hi. apply (f_equal (λ k, k !! i)) in E. rewrite !list_lookup_fmap, Hi in E.
  pose proof (lookup_lt_Some _ _ _ Hi). rewrite lookup_seq_lt in E by done. cbn in E. congruence.
Qed.

(** * Theorems *)

(** C16. The size of an object is a positive multiple of the heap's alignment,
    and the header and all the slots the collector scans are inside it. *)
Theorem object_size_spec m obj t n b :
  object_ok m obj t n b →
  ∃ s, size m obj = Ok s ∧ slot_count m obj = Ok n ∧ s mod data_alignment = 0 ∧
    data_alignment ≤ s < 2 ^ 63 ∧ b ≤ s < b + data_alignment ∧ 8 * (1 + n) ≤ s.
Proof.
  intros H. exists (align b data_alignment).
  destruct (shape_bounds _ _ _ _ _ (object_fields _ _ _ _ _ H)) as (Hn & Hb & Hr).
  destruct (align_size b Hr) as [Hal H16]. apply slot_count_spec in H as Hc.
  apply object_size_eq in H as Hs. set (s := align b data_alignment) in *. clearbody s.
  change data_alignment with 16. split_and!; [done|done|done|lia..].
Qed.

(** A tuple with two slots and its layout. *)
Definition tuple_words : memory :=
  list_to_map [(4096, initialize TUPLE_TYPE); (4104, tag ARRAY_TYPE 8192);
               (8192, initialize ARRAY_TYPE); (8216, tag_fixnum 2)].

Lemma object_size_spec_witness :
  object_ok tuple_words 4096 TUPLE_TYPE 3 32 ∧
  ∃ s, size tuple_words 4096 = Ok s ∧ slot_count tuple_words 4096 = Ok 3 ∧ s mod data_alignment = 0 ∧
    data_alignment ≤ s < 2 ^ 63 ∧ 32 ≤ s < 32 + data_alignment ∧ 8 * (1 + 3) ≤ s.
Proof.
  assert (object_ok tuple_words 4096 TUPLE_TYPE 3 32) as H.
  { split; [lia|by exists (initialize TUPLE_TYPE)|].
    apply (shape_tuple _ _ (tag ARRAY_TYPE 8192) 2); [reflexivity|eval_side..|split; [reflexivity|eval_side]]. }
  split; [exact H|]. apply (object_size_spec tuple_words 4096 TUPLE_TYPE 3 32). exact H.
Defined.

(** The address of the byte an alien points to: [displacement] itself, or
    that many bytes into the byte array that is the alien's base. *)
Definition alien_address (base displacement : Z) : Z :=
  if base =? false_object then displacement else UNTAG base +& sizeof_byte_array +& displacement.

(** [update_address] caches that address. *)
Lemma update_address_eq m alien base displacement :
  0 ≤ alien < 2 ^ 63 → m !! (alien + 8) = Some base → m !! (alien + 24) = Some displacement →
  is_Some (m !! (alien + 32)) →
  update_address m alien = Ok (<[alien + 32 := alien_address base displacement]> m).
Proof.
  intros Ha Hb Hd Hx. unfold update_address, put_field, alien_address. rewrite !field_eq by lia.
  unfold load. rewrite Hb, Hd, !result_bind_ok, (u64_id (alien + 32)) by (unfold is_cell; lia).
  destruct (base =? false_object); by rewrite store_Ok.
Qed.
