(* ===== verification/CodeBlocks.v ===== *)
(** Code blocks, their gc maps and the code heap: vm/code_blocks.hpp,
    vm/gc_info.hpp, vm/code_heap.{hpp,cpp}, vm/code_roots.hpp and the walk over
    a captured call stack of vm/callstack.hpp.

    A code block is the address of its header; its [owner], [parameters] and
    [relocation] follow at 8, 16 and 24, and its code at 32.  The page size is
    the operating system's and an argument. *)

From S2P Require Import Prelude.
From S2P Require Import Layouts.
From S2P Require Import MarkBits.
From S2P Require Import Memory.
From S2P Require Import Bytes.
From S2P Require Import Effects.
From S2P Require Import InstructionOperands.
From S2P Require Import FreeList.
From S2P Require Import DataHeap.
From S2P Require Import Objects.
Local Open Scope cell_scope.

(** * Code blocks *)

(** src/vm/layouts.hpp:78-82 [code_block_type] *)
Inductive code_block_type := CODE_BLOCK_UNOPTIMIZED | CODE_BLOCK_OPTIMIZED | CODE_BLOCK_PIC.

Definition code_block_type_value (t : code_block_type) : Z :=
  match t with CODE_BLOCK_UNOPTIMIZED => 0 | CODE_BLOCK_OPTIMIZED => 1 | CODE_BLOCK_PIC => 2 end.

(** src/vm/layouts.hpp:13-13 [LEAF_FRAME_SIZE] *)
Definition LEAF_FRAME_SIZE : Z := 16.

(** [sizeof(code_block)] and [sizeof(gc_info)]. *)
Definition sizeof_code_block : Z := 32.
Definition sizeof_gc_info : Z := 12.

(** src/vm/code_blocks.hpp:18-18 [code_block::free_p] *)
Definition code_free_p (header : Z) : bool := Z.land header 1 =? 1.

(** src/vm/code_blocks.hpp:20-22 [code_block::type]: The value of the
    enumerator. *)
Definition code_type (header : Z) : Z := Z.land (Z.shiftr header 1) 0x3.

(** src/vm/code_blocks.hpp:24-26 [set_type] *)
Definition set_type (m : memory) (block : Z) (type : code_block_type) : result memory :=
  header ← load m block;
  store m block (Z.lor (Z.land header (lnot64 0x7)) (Z.shiftl (code_block_type_value type) 1)).

(** src/vm/code_blocks.hpp:28-28 [pic_p] *)
Definition pic_p (header : Z) : bool := code_type header =? code_block_type_value CODE_BLOCK_PIC.

(** src/vm/code_blocks.hpp:30-38 [code_block::size] *)
Definition code_size (m : memory) (block : Z) : result Z :=
  header ← load m block;
  let size := if code_free_p header then Z.land header (lnot64 7) else Z.land header 0xFFFFF8 in
  _ ← check (0 <? size);
  Ok size.

(** src/vm/code_blocks.hpp:40-44 [stack_frame_size] *)
Definition stack_frame_size (m : memory) (block : Z) : result Z :=
  header ← load m block;
  Ok (if code_free_p header then 0 else Z.land (Z.shiftr header 20) 0xFF0).

(** src/vm/code_blocks.hpp:67-67 [entry_point] *)
Definition entry_point (block : Z) : Z := block +& sizeof_code_block.

(** src/vm/code_blocks.hpp:46-55 [stack_frame_size_for_address] *)
Definition stack_frame_size_for_address (m : memory) (block addr : Z) : result Z :=
  natural_frame_size ← stack_frame_size m block;
  Ok (if (natural_frame_size =? 0) || (addr =? entry_point block) then LEAF_FRAME_SIZE
      else natural_frame_size).

(** src/vm/code_blocks.hpp:57-63 [set_stack_frame_size] *)
Definition set_stack_frame_size (m : memory) (block frame_size : Z) : result memory :=
  size ← code_size m block;
  _ ← check (size <? 0xFFFFFF);
  header ← load m block;
  _ ← check (negb (code_free_p header));
  _ ← check (frame_size mod 16 =? 0);
  _ ← check (frame_size <=? 0xFF0);
  store m block (Z.lor (Z.land header 0xFFFFFF) (frame_size <<& 20)).

(** src/vm/code_blocks.hpp:70-72 [block_gc_info] *)
Definition block_gc_info (m : memory) (block : Z) : result Z :=
  size ← code_size m block;
  Ok ((block +& size) -& sizeof_gc_info).

(** src/vm/code_blocks.hpp:92-92 [code_block::offset] *)
Definition code_offset (block addr : Z) : Z := addr -& entry_point block.

(** src/vm/code_blocks.hpp:94-96 [address_for_offset] *)
Definition address_for_offset (block offset : Z) : Z := entry_point block +& offset.

(** src/vm/code_blocks.hpp:104-107 [word::code]: The entry point of a word is
    at 72. *)
Definition word_code (m : memory) (word : Z) : result Z :=
  entry ← field m word 72;
  _ ← check (negb (entry =? 0));
  Ok (entry -& sizeof_code_block).

(** src/vm/code_blocks.hpp:109-112 [quotation::code]: The entry point of a
    quotation is at 32. *)
Definition quotation_code (m : memory) (quotation : Z) : result Z :=
  entry ← field m quotation 32;
  _ ← check (negb (entry =? 0));
  Ok (entry -& sizeof_code_block).

(** src/vm/code_blocks.hpp:85-89 [each_instruction_operand] (part): The loop
    over the relocation entries from the [i]-th on. *)
Fixpoint each_operand_loop {X} (iter : instruction_operand → eff X ()) (block rels : Z)
    (count : nat) (i index : Z) : eff X () :=
  match count with
  | 0%nat => mret ()
  | S count =>
      rel ← reads (λ m, load_bytes 4 m (rels +& sizeof_byte_array +& (4 *& i)));
      _ ← iter (new_instruction_operand rel block index);
      n ← reads (λ _, number_of_parameters rel);
      each_operand_loop iter block rels count (i + 1) (index +& n)
  end.

(** src/vm/code_blocks.hpp:76-90 [each_instruction_operand] *)
Definition each_instruction_operand {X} (iter : instruction_operand → eff X ()) (block : Z) : eff X () :=
  relocation ← reads (λ m, field m block 24);
  if negb (to_boolean relocation) then mret ()
  else
    rels ← reads (λ _, untag BYTE_ARRAY_TYPE relocation);
    capacity ← reads (λ m, c ← field m rels 8; untag_fixnum c);
    let length := u64 capacity / 4 in
    each_operand_loop iter block rels (Z.to_nat length) 0 0.

(** * The gc map at the end of a block *)

(** src/vm/gc_info.hpp:6-9 [gc_info] *)
Record gc_info := mk_gc_info {
  gc_info_address : Z;
  gc_root_count : Z;
  derived_root_count : Z;
  return_address_count : Z
}.

(** Reads the three counts. *)
Definition read_gc_info (m : memory) (address : Z) : result gc_info :=
  roots ← load_bytes 4 m address;
  derived ← load_bytes 4 m (address +& 4);
  returns ← load_bytes 4 m (address +& 8);
  Ok (mk_gc_info address roots derived returns).

(** src/vm/gc_info.hpp:11-13 [callsite_bitmap_size] *)
Definition callsite_bitmap_size (info : gc_info) : Z := gc_root_count info.

(** src/vm/gc_info.hpp:15-17 [total_bitmap_size] *)
Definition total_bitmap_size (info : gc_info) : Z :=
  return_address_count info *& callsite_bitmap_size info.

(** src/vm/gc_info.hpp:19-19 [total_bitmap_bytes] *)
Definition total_bitmap_bytes (info : gc_info) : Z := (total_bitmap_size info +& 7) / 8.

(** src/vm/gc_info.hpp:21-23 [return_addresses] *)
Definition return_addresses (info : gc_info) : Z :=
  gc_info_address info -& (4 * return_address_count info).

(** src/vm/gc_info.hpp:25-27 [base_pointer_map]: The product is one of 32-bit
    integers. *)
Definition base_pointer_map (info : gc_info) : Z :=
  return_addresses info -& (4 * u32 (return_address_count info * derived_root_count info)).

(** src/vm/gc_info.hpp:29-31 [gc_info_bitmap] *)
Definition gc_info_bitmap (info : gc_info) : Z := base_pointer_map info -& total_bitmap_bytes info.

(** src/vm/gc_info.hpp:34-36 [callsite_gc_roots] *)
Definition callsite_gc_roots (info : gc_info) (index : Z) : Z := index *& gc_root_count info.

(** src/vm/gc_info.hpp:38-40 [lookup_base_pointer] *)
Definition lookup_base_pointer (m : memory) (info : gc_info) (index derived_root : Z) : result Z :=
  load_bytes 4 m (base_pointer_map info +& (4 * ((index *& derived_root_count info) +& derived_root))).

(** src/vm/gc_info.hpp:45-48 [return_address_index] (part): The loop. *)
Fixpoint find_return_address (m : memory) (array return_address : Z) (count : nat) (i : Z) : result Z :=
  match count with
  | 0%nat => Ok (u64 (-1))
  | S count =>
      a ← load_bytes 4 m (array +& (4 * i));
      if return_address =? a then Ok i else find_return_address m array return_address count (i + 1)
  end.

(** src/vm/gc_info.hpp:42-51 [return_address_index] *)
Definition return_address_index (m : memory) (info : gc_info) (return_address : Z) : result Z :=
  find_return_address m (return_addresses info) return_address (Z.to_nat (return_address_count info)) 0.

(** src/vm/bitwise_hacks.hpp:72-76 [bitmap_p] *)
Definition memory_bitmap_p (m : memory) (bitmap index : Z) : result bool :=
  let byte := Z.shiftr index 3 in
  let bit := Z.land index 7 in
  b ← load_byte m (bitmap +& byte);
  Ok (negb (Z.land b (Z.shiftl 1 bit) =? 0)).

(** * The code heap *)

(** src/vm/code_heap.hpp:9-40 [code_heap] (part) *)
Record code_heap := mk_code_heap {
  ch_seg : segment;
  safepoint_page : Z;
  allocator : free_list_allocator;
  all_blocks : gset Z;
  uninitialized_blocks : gmap Z Z;
  points_to_nursery : gset Z;
  points_to_aging : gset Z
}.

Definition set_all_blocks (code : code_heap) (fl : free_list_allocator) (blocks : gset Z) : code_heap :=
  mk_code_heap (ch_seg code) (safepoint_page code) fl blocks (uninitialized_blocks code)
    (points_to_nursery code) (points_to_aging code).

Definition set_remembered (code : code_heap) (nursery aging : gset Z) : code_heap :=
  mk_code_heap (ch_seg code) (safepoint_page code) (allocator code) (all_blocks code)
    (uninitialized_blocks code) nursery aging.

(** src/vm/code_heap.cpp:5-19 [code_heap::code_heap]: [fatal_error] when the
    heap is too large. *)
Definition new_code_heap (m : memory) (segment_address pagesize size : Z) : result (memory * code_heap) :=
  if Z.shiftl 1 59 <? size then Err FATAL_ERROR
  else
    let seg := new_segment segment_address (align size pagesize) in
    let start := seg_start seg +& pagesize in
    '(m, fl) ← new_free_list_allocator m (seg_end seg -& start) start;
    Ok (m, mk_code_heap seg (seg_start seg) fl ∅ ∅ ∅ ∅).

(** src/vm/code_heap.cpp:28-31 [code_heap::write_barrier] *)
Definition code_write_barrier (code : code_heap) (block : Z) : code_heap :=
  set_remembered code ({[block]} ∪ points_to_nursery code) ({[block]} ∪ points_to_aging code).

(** src/vm/code_heap.cpp:33-36 [clear_remembered_set] *)
Definition clear_remembered_set (code : code_heap) : code_heap := set_remembered code ∅ ∅.

(** src/vm/code_heap.cpp:38-40 [uninitialized_p] *)
Definition uninitialized_p (code : code_heap) (block : Z) : bool :=
  bool_decide (is_Some (uninitialized_blocks code !! block)).

(** src/vm/code_heap.cpp:42-48 [code_heap::free] *)
Definition code_free (m : memory) (code : code_heap) (block : Z) : result (memory * code_heap) :=
  _ ← check (negb (uninitialized_p code block));
  let code := set_remembered code (points_to_nursery code ∖ {[block]}) (points_to_aging code ∖ {[block]}) in
  let blocks := all_blocks code ∖ {[block]} in
  '(m, fl) ← free code_size m (allocator code) block;
  Ok (m, set_all_blocks code fl blocks).

(** src/vm/code_heap.cpp:59-65 [code_heap::sweep] (part): The elements from
    [lower_bound(block)] up to [lower_bound(block + size)] are erased. *)
Definition clear_free_blocks (block size : Z) (blocks : gset Z) : result (gset Z) :=
  Ok (filter (λ b, ¬ (block ≤ b ∧ b < block +& size)) blocks).

(** src/vm/code_heap.cpp:72-79 [verify_all_blocks_set] *)
Definition verify_all_blocks_set (m : memory) (code : code_heap) : result () :=
  _ ← iterate (λ _, code_size)
        (λ block _ st, _ ← check (bool_decide (block ∈ all_blocks code)); Ok st) (allocator code) m ();
  Ok ().

(** src/vm/code_heap.cpp:58-70 [code_heap::sweep] *)
Definition code_sweep (m : memory) (code : code_heap) : result (memory * code_heap) :=
  '(m, fl, blocks) ← sweep_with clear_free_blocks m (allocator code) (all_blocks code);
  let code := set_all_blocks code fl blocks in
  _ ← verify_all_blocks_set m code;
  Ok (m, code).

(** The greatest element of a [std::set] that is at most [address]: the one
    before [upper_bound(address)]. *)
Definition block_below (address : Z) (blocks : gset Z) : option Z :=
  foldr (λ b found, if b <=? address
                    then Some (match found with Some c => Z.max b c | None => b end)
                    else found) None (elements blocks).

(** src/vm/code_heap.cpp:81-93 [code_block_for_address] *)
Definition code_block_for_address (code : code_heap) (address : Z) : result Z :=
  match block_below address (all_blocks code) with
  | None => Err ASSERTION_FAILED
  | Some found_block =>
      _ ← check (entry_point found_block <=? address);
      Ok found_block
  end.

(** src/vm/code_heap.cpp:95-101 [frame_predecessor] *)
Definition frame_predecessor (m : memory) (code : code_heap) (frame_top : Z) : result Z :=
  addr ← load m frame_top;
  _ ← check (in_segment_p (ch_seg code) addr);
  owner ← code_block_for_address code addr;
  frame_size ← stack_frame_size_for_address m owner addr;
  Ok (frame_top +& frame_size).

(** src/vm/code_heap.cpp:104-114 [initialize_all_blocks_set] *)
Definition initialize_all_blocks_set (m : memory) (code : code_heap) : result code_heap :=
  '(m, blocks) ← iterate (λ _, code_size) (λ block _ st, Ok (st.1, {[block]} ∪ st.2)) (allocator code) m ∅;
  let code := set_all_blocks code (allocator code) blocks in
  _ ← verify_all_blocks_set m code;
  Ok code.

(** src/vm/code_heap.hpp:52-52 [high_water_mark] *)
Definition code_high_water_mark (code : code_heap) : Z := fl_size (allocator code) / 20.

(** src/vm/code_heap.hpp:59-62 [safepoint_p] *)
Definition safepoint_p (code : code_heap) (pagesize addr : Z) : bool :=
  let page_mask := lnot64 (pagesize -& 1) in
  Z.land addr page_mask =? safepoint_page code.

(** * Captured call stacks *)

(** src/vm/callstack.hpp:18-30 [iterate_callstack_object] (part): One turn
    of the loop. *)
Definition callstack_object_body {X} (code : code_heap) (translated_code_block_map : bool)
    (translate_code : Z → result Z) (iterator : Z → Z → Z → Z → eff X ())
    (stack frame_length frame_offset : Z) : eff X (Z + ()) :=
  if frame_offset <? frame_length then
    let frame_top := (stack +& sizeof_callstack) +& frame_offset in
    addr ← reads (λ m, load m frame_top);
    fixed_addr ← reads (λ _, if translated_code_block_map then translate_code addr else Ok addr);
    owner ← reads (λ _, code_block_for_address code fixed_addr);
    frame_size ← reads (λ m, stack_frame_size_for_address m owner fixed_addr);
    _ ← iterator frame_top frame_size owner fixed_addr;
    mret (inl (s64 (frame_offset + frame_size)))
  else
    _ ← reads (λ _, check (frame_offset =? frame_length));
    mret (inr ()).

(** src/vm/callstack.hpp:10-32 [iterate_callstack_object] *)
Definition iterate_callstack_object {X} (code : code_heap) (translated_code_block_map : bool)
    (translate_code : Z → result Z) (iterator : Z → Z → Z → Z → eff X ()) (stack : Z) : eff X () :=
  frame_length ← reads (λ m, l ← field m stack 8; untag_fixnum l);
  loop (callstack_object_body code translated_code_block_map translate_code iterator stack frame_length) 0.

(** src/vm/callstack.hpp:54-71 [iterate_callstack] (part): One turn of the
    loop. *)
Definition callstack_body {X} (code : code_heap) (translate_code : Z → result Z)
    (iterator : Z → Z → Z → Z → eff X ()) (bottom top : Z) : eff X (Z + ()) :=
  if top <? bottom then
    addr ← reads (λ m, load m top);
    _ ← reads (λ _, check (negb (addr =? 0)));
    owner ← reads (λ _, code_block_for_address code addr);
    fixed_owner ← reads (λ _, translate_code owner);
    let delta := (addr -& owner) -& sizeof_code_block in
    natural_frame_size ← reads (λ m, stack_frame_size m fixed_owner);
    let size := if (0 <? natural_frame_size) && (0 <? delta) then natural_frame_size
                else LEAF_FRAME_SIZE in
    _ ← iterator top size owner addr;
    mret (inl (top +& size))
  else
    _ ← reads (λ _, check (top =? bottom));
    mret (inr ()).

(** src/vm/callstack.hpp:44-73 [iterate_callstack]: [top] and [bottom] are the
    fields of the context. *)
Definition iterate_callstack {X} (code : code_heap) (translated_code_block_map : bool)
    (translate_code : Z → result Z) (iterator : Z → Z → Z → Z → eff X ()) (top bottom : Z) : eff X () :=
  _ ← reads (λ _, check (negb translated_code_block_map || (top =? bottom)));
  loop (callstack_body code translate_code iterator bottom) top.

(** * Code roots *)

(** src/vm/code_roots.hpp:3-6 [code_root] (part) *)
Record code_root := mk_code_root { root_value : Z; root_valid : bool }.

(** src/vm/full_collector.cpp:102-105 [collect_sweep_impl] (part): The loop
    over the code roots; [~data_alignment - 1] is [-18]. *)
Definition invalidate_code_root (state : mark_bits) (root : code_root) : result code_root :=
  let block := Z.land (root_value root) (lnot64 data_alignment -& 1) in
  if root_valid root then
    marked ← marked_p state block;
    Ok (if (marked : bool) then root else mk_code_root (root_value root) false)
  else Ok root.

(** * Lemmas *)

Lemma block_below_spec address blocks :
  match block_below address blocks with
  | Some b => b ∈ blocks ∧ b ≤ address ∧ ∀ c, c ∈ blocks → c ≤ address → c ≤ b
  | None => ∀ c, c ∈ blocks → address < c
  end.
Proof.
  unfold block_below. set (pick := λ (b : Z) (found : option Z), _).
  assert (∀ l : list Z, match foldr pick None l with
    | Some b => b ∈ l ∧ b ≤ address ∧ ∀ c, c ∈ l → c ≤ address → c ≤ b
    | None => ∀ c, c ∈ l → address < c
    end) as H.
  { subst pick. induction l as [|b l IH]; cbn [foldr]; [by intros c ?%not_elem_of_nil|].
    destruct (foldr _ None l) as [d|], (Z.leb_spec b address) as [Hb|Hb].
    - destruct IH as (Hd & Hda & IH). split_and!; [|lia|].
      + destruct (Z.max_spec b d) as [[_ ->]|[_ ->]]; rewrite elem_of_cons; auto.
      + intros c [->|Hc]%elem_of_cons Hca; [lia|]. specialize (IH c Hc Hca). lia.
    - destruct IH as (Hd & Hda & IH). split_and!; [by apply elem_of_cons; right|done|].
      intros c [->|Hc]%elem_of_cons Hca; [lia|by apply IH].
    - split_and!; [apply elem_of_cons; by left|done|].
      intros c [->|Hc]%elem_of_cons Hca; [lia|]. specialize (IH c Hc). lia.
    - intros c [->|Hc]%elem_of_cons; [done|by apply IH]. }
  specialize (H (elements blocks)). destruct (foldr pick None (elements blocks)).
  - destruct H as (? & ? & H). split_and!; [by apply elem_of_elements|done|].
    intros c Hc. apply H. by apply elem_of_elements.
  - intros c Hc. apply H. by apply elem_of_elements.
Qed.

(** The blocks of [all_blocks] are at addresses of the code heap and do not
    overlap. *)
Record blocks_ok (m : memory) (blocks : gset Z) : Prop := {
  blocks_size : ∀ b, b ∈ blocks → ∃ s, code_size m b = Ok s ∧ sizeof_code_block ≤ s ∧ 0 ≤ b ∧ b + s < 2 ^ 64;
  blocks_disjoint : ∀ b c s, b ∈ blocks → c ∈ blocks → code_size m b = Ok s → b < c → b + s ≤ c
}.

Lemma entry_point_eq b : 0 ≤ b → b + sizeof_code_block < 2 ^ 64 → entry_point b = b + sizeof_code_block.
Proof. unfold sizeof_code_block. intros. unfold entry_point, sizeof_code_block. by rewrite u64_id by (unfold is_cell; lia). Qed.

(** * Theorems *)

(** [code_block_for_address] finds the block whose code an address is
    in, for every address from a block's entry point to its end. *)
Theorem code_block_for_address_spec m code b s address :
  blocks_ok m (all_blocks code) → b ∈ all_blocks code → code_size m b = Ok s →
  b + sizeof_code_block ≤ address < b + s →
  code_block_for_address code address = Ok b.
Proof.
  intros [Hs Hd] Hb Es Ha. unfold code_block_for_address.
  pose proof (block_below_spec address (all_blocks code)) as H.
  unfold sizeof_code_block in Ha.
  destruct (block_below address (all_blocks code)) as [c|]; [|specialize (H b Hb); lia].
  destruct H as (Hc & Hca & Hmax). specialize (Hmax b Hb ltac:(lia)).
  assert (c = b) as ->.
  { destruct (decide (c = b)); [done|]. specialize (Hd b c s Hb Hc Es ltac:(lia)). lia. }
  destruct (Hs b Hb) as (s' & _ & Hsz & Hb0 & Hb1). unfold sizeof_code_block in *.
  rewrite entry_point_eq by (unfold sizeof_code_block; lia). unfold sizeof_code_block.
  by rewrite (proj2 (Z.leb_le _ _)) by lia.
Qed.

(** The fields of the header of a code block: setting the stack frame
    size gives it back and leaves the size and the type of the block as they
    were. *)
Theorem set_stack_frame_size_spec m block h frame_size :
  m !! block = Some h → is_cell h → Z.odd h = false → 0 < Z.land h 0xFFFFF8 →
  frame_size mod 16 = 0 → 0 ≤ frame_size ≤ 0xFF0 →
  ∃ m' h', set_stack_frame_size m block frame_size = Ok m' ∧ m' = <[block := h']> m ∧
    stack_frame_size m' block = Ok frame_size ∧ code_size m' block = code_size m block ∧
    code_type h' = code_type h ∧ is_cell h'.
Proof.
  intros Hh Ch Hodd Hs H16 Hf. unfold set_stack_frame_size, code_size. unfold is_cell in Ch.
  assert (code_free_p h = false) as Hfree by (rewrite <- Hodd; apply (free_p_odd h)).
  change 0xFFFFF8 with (2 ^ (21 + 3) - 2 ^ 3) in *. rewrite land_field in Hs by lia.
  set (s := (h / 2 ^ 3) mod 2 ^ 21 * 2 ^ 3) in *.
  assert (0 < s < 2 ^ 24 - 1) as Hr by (subst s; dlia).
  rewrite (proj2 (load_Ok m block h) Hh), !result_bind_ok, Hfree, land_field by lia. fold s.
  rewrite (proj2 (Z.ltb_lt 0 s)), check_true, !result_bind_ok by lia.
  rewrite (proj2 (Z.ltb_lt s _)), check_true, !result_bind_ok by lia. cbn [negb].
  rewrite check_true, result_bind_ok, H16, Z.eqb_refl, check_true, result_bind_ok.
  rewrite (proj2 (Z.leb_le _ _)), check_true, result_bind_ok by lia.
  rewrite store_Ok by eauto. change 0xFFFFFF with (2 ^ 24 - 1). rewrite land_ones_mod by lia.
  assert (Z.lor (h mod 2 ^ 24) (frame_size <<& 20) = frame_size * 2 ^ 20 + h mod 2 ^ 24) as ->.
  { rewrite u64_id by (unfold is_cell; rewrite Z.shiftl_mul_pow2 by lia; lia).
    rewrite Z.lor_comm. assert (Z.shiftl frame_size 20 = Z.shiftl (frame_size / 16) 24) as ->
      by (rewrite !Z.shiftl_mul_pow2 by lia; dlia).
    rewrite lor_shiftl_add by dlia. dlia. }
  set (h' := frame_size * 2 ^ 20 + h mod 2 ^ 24). exists (<[block := h']> m), h'.
  assert (code_free_p h' = false) as Hfree'.
  { unfold code_free_p in *. change 1 with (2 ^ 1 - 1) in Hfree |- * at 1. rewrite land_ones_mod in * by lia.
    apply Z.eqb_neq in Hfree. apply Z.eqb_neq. subst h'. dlia. }
  assert (is_cell h') as Ch' by (unfold is_cell; subst h'; dlia).
  unfold stack_frame_size, load. rewrite lookup_insert_eq, !result_bind_ok, Hfree'.
  split_and!; [done|done| | | |done].
  - change 0xFF0 with (2 ^ (8 + 4) - 2 ^ 4). rewrite Z.shiftr_div_pow2, land_field by lia. f_equal. subst h'. dlia.
  - rewrite land_field by lia. replace ((h' / 2 ^ 3) mod 2 ^ 21 * 2 ^ 3) with s by (subst h' s; dlia).
    by rewrite (proj2 (Z.ltb_lt 0 s)) by lia.
  - unfold code_type. change 0x3 with (2 ^ 2 - 1). rewrite !land_ones_mod, !Z.shiftr_div_pow2 by lia.
    subst h'. dlia.
Qed.

(** Two blocks of a code heap: one at 8192 of 64 bytes, one at 8256 of 96. *)
Definition sample_code_memory : memory :=
  <[8256 := 96]> (<[8192 := 64]> (zeroed_region 8192 20)).

Definition sample_code_heap : code_heap :=
  mk_code_heap (mk_segment 4096 8192 12288) 4096
    (mk_free_list 8192 12288 4096 [] [] 0 0 (new_mark_bits 4096 8192)) {[8192; 8256]} ∅ ∅ ∅.

Lemma sample_blocks_ok : blocks_ok sample_code_memory (all_blocks sample_code_heap).
Proof.
  assert (code_size sample_code_memory 8192 = Ok 64) as E1 by reflexivity.
  assert (code_size sample_code_memory 8256 = Ok 96) as E2 by reflexivity.
  assert (∀ b, b ∈ all_blocks sample_code_heap → b = 8192 ∨ b = 8256) as Hin
    by (cbn [all_blocks sample_code_heap]; set_solver).
  split.
  - intros b [-> | ->]%Hin; [exists 64|exists 96]; unfold sizeof_code_block; split_and!; done || lia.
  - intros b c s [-> | ->]%Hin [-> | ->]%Hin E Hlt; try lia. rewrite E1 in E. apply Ok_inj in E. lia.
Qed.

Lemma code_block_for_address_spec_witness :
  code_block_for_address sample_code_heap 8300 = Ok 8256.
Proof.
  apply (code_block_for_address_spec sample_code_memory sample_code_heap 8256 96 8300);
    [exact sample_blocks_ok|eval_side|reflexivity|unfold sizeof_code_block; lia].
Defined.

Lemma set_stack_frame_size_spec_witness :
  ∃ m' h', set_stack_frame_size sample_code_memory 8256 48 = Ok m' ∧ m' = <[8256 := h']> sample_code_memory ∧
    stack_frame_size m' 8256 = Ok 48 ∧ code_size m' 8256 = code_size sample_code_memory 8256 ∧
    code_type h' = code_type 96 ∧ is_cell h'.
Proof. apply (set_stack_frame_size_spec sample_code_memory 8256 96 48); eval_side. Defined.

(** The mask of [collect_sweep_impl] clears bits 0 and 4 of an address. *)
Lemma code_root_mask v : is_cell v →
  v - 17 ≤ Z.land v (lnot64 data_alignment -& 1) ≤ v.
Proof.
  intros Hv. change (lnot64 data_alignment -& 1) with (lnot64 17).
  assert (Z.land v (lnot64 17) = v - Z.land v 17) as ->.
  { rewrite Z.sub_nocarry_ldiff.
    - apply Z.bits_inj'. intros i Hi. rewrite Z.ldiff_spec, !Z.land_spec. destruct (decide (i < 64)).
      + rewrite lnot64_bits by lia. by destruct (Z.testbit v i), (Z.testbit 17 i).
      + rewrite (testbit_small v 64) by (done || lia). by rewrite !andb_false_l.
    - apply Z.bits_inj'. intros i Hi. rewrite Z.ldiff_spec, Z.land_spec, Z.bits_0.
      by destruct (Z.testbit v i), (Z.testbit 17 i). }
  assert (0 ≤ Z.land v 17) by (apply Z.land_nonneg; lia).
  assert (Z.land v 17 ≤ 17).
  { unfold is_cell in Hv. rewrite <- (Z2N.id v) by lia. change 17 with (Z.of_N 17).
    rewrite <- N2Z.inj_land. pose proof (N.land_le_r (Z.to_N v) 17). lia. }
  lia.
Qed.

(** A code root that holds an address in the code of a block stays valid
    after a sweep exactly when the block is marked.  The address whose mark
    bit is tested is not always the one below the root at the heap's
    alignment, but it is in the same block. *)
Theorem invalidate_code_root_spec state b s v marked :
  0 ≤ b → b + s < 2 ^ 64 → b + sizeof_code_block ≤ v < b + s →
  (∀ a, b ≤ a < b + s → marked_p state a = Ok marked) →
  invalidate_code_root state (mk_code_root v true) = Ok (mk_code_root v marked).
Proof.
  unfold sizeof_code_block. intros Hb Hs Hv Hm. unfold invalidate_code_root. cbn [root_value root_valid].
  destruct (code_root_mask v) as [H1 H2]; [unfold is_cell; lia|].
  rewrite Hm by lia. by destruct marked.
Qed.

Lemma invalidate_code_root_spec_witness :
  let state := new_mark_bits 4096 8192 in
  invalidate_code_root state (mk_code_root 8230 true) = Ok (mk_code_root 8230 false).
Proof.
  apply (invalidate_code_root_spec (new_mark_bits 4096 8192) 8192 64 8230 false); [lia|lia|unfold sizeof_code_block; lia|].
  intros a Ha. assert (Forall (λ k, marked_p (new_mark_bits 4096 8192) (8192 + Z.of_nat k) = Ok false) (seq 0 64)) as H
    by (apply (bool_decide_unpack _); vm_compute; exact I).
  rewrite Forall_forall in H. replace a with (8192 + Z.of_nat (Z.to_nat (a - 8192))) by lia.
  apply H, elem_of_seq. lia.
Defined.
