(* ===== verification/Relocation.v ===== *)
(** The operands of code blocks: vm/code_blocks.cpp.

    A new code block is a template whose operands are filled in from its
    literals, from the entry points of words, and from addresses of the vm and
    of libraries.  The addresses are the linker's and the operating system's:
    the class [linkage]. *)

From S2P Require Import Prelude.
From S2P Require Import Layouts.
From S2P Require Import Memory.
From S2P Require Import Bytes.
From S2P Require Import Effects.
From S2P Require Import InstructionOperands.
From S2P Require Import FreeList.
From S2P Require Import DataHeap.
From S2P Require Import Objects.
From S2P Require Import CodeBlocks.
Local Open Scope cell_scope.

(** * What is linked in *)

(** The address of the vm, of its counter of cache hits and its array of
    special objects, and of two functions; [dlsym] of the operating system,
    which is given a handle and the bytes of a name and returns [0] when there
    is no such symbol, with the handle of the program itself; and the setting
    for inline caches. *)
Class linkage := {
  vm_address : Z;
  megamorphic_cache_hits_address : Z;
  special_objects_address : Z;
  inline_cache_miss_address : Z;
  undefined_symbol_address : Z;
  dlsym : Z → list Z → Z;
  null_dll : Z;
  max_pic_size : Z
}.

(** The bytes of a C string at [a], without the zero at its end. *)
Definition c_string_body (m : memory) (st : Z * list Z) : (Z * list Z) + result (list Z) :=
  match load_byte m st.1 with
  | Ok c => if c =? 0 then inr (Ok st.2) else inl (st.1 +& 1, st.2 ++ [c])
  | Err e => inr (Err e)
  end.

Definition c_string (m : memory) (a : Z) : result (list Z) :=
  r ← while_loop (c_string_body m) (a, []);
  r.

(** [special_objects[i]] of the array at [specials]. *)
Definition special_object (m : memory) (specials i : Z) : result Z := load m (specials +& (8 *& i)).

(** src/vm/objects.hpp:60-60 [LAZY_JIT_COMPILE_WORD] *)
Definition LAZY_JIT_COMPILE_WORD : Z := 44.
(** src/vm/objects.hpp:77-77 [CALLBACK_STUB] *)
Definition CALLBACK_STUB : Z := 53.

(** Offsets of the fields of words, quotations, wrappers and dlls. *)
Definition word_def : Z := 32.
Definition word_pic_def : Z := 48.
Definition word_pic_tail_def : Z := 56.
Definition word_entry_point : Z := 72.
Definition quotation_array : Z := 8.
Definition quotation_entry_point : Z := 32.
Definition wrapper_object : Z := 8.
Definition dll_handle : Z := 16.

(** src/vm/alien.cpp:165-177 [alien_offset] *)
Definition alien_offset (m : memory) (obj : Z) : result Z :=
  let t := TAG obj in
  if t =? BYTE_ARRAY_TYPE then b ← untag BYTE_ARRAY_TYPE obj; Ok (b +& sizeof_byte_array)
  else if t =? ALIEN_TYPE then a ← untag ALIEN_TYPE obj; field m a 32
  else if t =? F_TYPE then Ok 0
  else Err (ERROR_TYPE ALIEN_TYPE).

(** * Entry points *)

(** src/vm/code_blocks.cpp:5-19 [code_block_owner] *)
Definition code_block_owner (m : memory) (compiled : Z) : result Z :=
  owner ← field m compiled 8;
  if negb (TAG owner =? QUOTATION_TYPE) then Ok owner
  else
    quot ← untag QUOTATION_TYPE owner;
    elements ← field m quot quotation_array;
    elements ← untag ARRAY_TYPE elements;
    capacity ← array_capacity ARRAY_TYPE m elements;
    _ ← check (capacity =? 5);
    first ← heap_array_nth m elements 0;
    wrap ← untag WRAPPER_TYPE first;
    field m wrap wrapper_object.

(** src/vm/code_blocks.cpp:21-31 [compute_entry_point_address] *)
Definition compute_entry_point_address (m : memory) (obj : Z) : result Z :=
  let t := TAG obj in
  if t =? WORD_TYPE then w ← untag WORD_TYPE obj; field m w word_entry_point
  else if t =? QUOTATION_TYPE then q ← untag QUOTATION_TYPE obj; field m q quotation_entry_point
  else Err CRITICAL_ERROR.

(** src/vm/code_blocks.cpp:33-38 [compute_here_address] *)
Definition compute_here_address (arg offset compiled : Z) : result Z :=
  n ← untag_fixnum arg;
  Ok (if 0 <=? n then (entry_point compiled +& offset) +& n else entry_point compiled -& n).

(** src/vm/code_blocks.cpp:40-44 [owner_quot] *)
Definition owner_quot (m : memory) (compiled : Z) : result Z :=
  header ← load m compiled;
  owner ← field m compiled 8;
  if negb (code_type header =? code_block_type_value CODE_BLOCK_OPTIMIZED) && (TAG owner =? WORD_TYPE)
  then w ← untag WORD_TYPE owner; field m w word_def
  else Ok owner.

Section linked.
Context `{!linkage}.

(** src/vm/quotations.cpp:319-321 [lazy_jit_compile_entry_point] *)
Definition lazy_jit_compile_entry_point (m : memory) : result Z :=
  w ← special_object m special_objects_address LAZY_JIT_COMPILE_WORD;
  w ← untag WORD_TYPE w;
  field m w word_entry_point.

(** src/vm/quotations.cpp:375-378 [quotation_compiled_p] *)
Definition quotation_compiled_p (m : memory) (quot : Z) : result bool :=
  entry ← field m quot quotation_entry_point;
  if entry =? 0 then Ok false
  else
    lazy ← lazy_jit_compile_entry_point m;
    Ok (negb (entry =? lazy)).

(** src/vm/code_blocks.cpp:63-70 [compute_entry_point_pic_address] (part) *)
Definition compute_pic_address (m : memory) (w tagged_quot : Z) : result Z :=
  if negb (to_boolean tagged_quot) || (max_pic_size =? 0) then field m w word_entry_point
  else
    q ← untag QUOTATION_TYPE tagged_quot;
    compiled ← quotation_compiled_p m q;
    if (compiled : bool) then field m q quotation_entry_point else field m w word_entry_point.

(** src/vm/code_blocks.cpp:72-75 [compute_entry_point_pic_address] *)
Definition compute_entry_point_pic_address (m : memory) (w_ : Z) : result Z :=
  w ← untag WORD_TYPE w_;
  pic_def ← field m w word_pic_def;
  compute_pic_address m w pic_def.

(** src/vm/code_blocks.cpp:77-80 [compute_entry_point_pic_tail_address] *)
Definition compute_entry_point_pic_tail_address (m : memory) (w_ : Z) : result Z :=
  w ← untag WORD_TYPE w_;
  pic_tail_def ← field m w word_pic_tail_def;
  compute_pic_address m w pic_tail_def.

(** * External addresses *)

(** src/vm/os-unix.cpp:48-50 [ffi_dlsym_raw] *)
Definition ffi_dlsym_raw (m : memory) (d symbol : Z) : result Z :=
  handle ← (if d =? 0 then Ok null_dll else field m d dll_handle);
  name ← c_string m symbol;
  Ok (dlsym handle name).

(** src/vm/code_blocks.cpp:137-155 [compute_dlsym_address]: The code pointer
    and the toc pointer of a function are its address on this machine, so
    [toc] does not matter. *)
Definition compute_dlsym_address (m : memory) (parameters index : Z) (toc : bool) : result Z :=
  symbol ← heap_array_nth m parameters index;
  library ← heap_array_nth m parameters (index +& 1);
  d ← (if to_boolean library then untag DLL_TYPE library else Ok 0);
  let undef := undefined_symbol_address in
  closed ← (if d =? 0 then Ok false else h ← field m d dll_handle; Ok (h =? 0));
  if (closed : bool) then Ok undef
  else
    _ ← check (TAG symbol =? BYTE_ARRAY_TYPE);
    name ← alien_offset m symbol;
    sym ← ffi_dlsym_raw m d name;
    Ok (if sym =? 0 then undef else sym).

(** src/vm/code_blocks.cpp:157-185 [lookup_external_address]: [b] has the
    offsets of the cards and decks, [safepoint] is the guard page of the code
    heap; [RT_DLSYM_TOC] is only for another machine. *)
Definition lookup_external_address (b : barrier) (safepoint : Z) (m : memory)
    (type : option relocation_type) (compiled parameters index : Z) : result Z :=
  match type with
  | Some RT_DLSYM => compute_dlsym_address m parameters index false
  | Some RT_THIS => Ok (entry_point compiled)
  | Some RT_MEGAMORPHIC_CACHE_HITS => Ok megamorphic_cache_hits_address
  | Some RT_VM => p ← heap_array_nth m parameters index; n ← untag_fixnum p; Ok (vm_address +& n)
  | Some RT_CARDS_OFFSET => Ok (cards_offset b)
  | Some RT_DECKS_OFFSET => Ok (decks_offset b)
  | Some RT_INLINE_CACHE_MISS => Ok inline_cache_miss_address
  | Some RT_SAFEPOINT => Ok safepoint
  | _ => Ok (u64 (-1))
  end.

(** src/vm/code_blocks.cpp:187-211 [compute_external_address]: without the
    text of the message. *)
Definition compute_external_address (b : barrier) (safepoint : Z) (m : memory) (op : instruction_operand)
    : result Z :=
  parameters ← field m (compiled op) 16;
  parameters ← (if to_boolean parameters then untag ARRAY_TYPE parameters else Ok 0);
  ext_addr ← lookup_external_address b safepoint m (rel_type (rel op)) (compiled op) parameters (index op);
  if ext_addr =? u64 (-1) then Err CRITICAL_ERROR else Ok ext_addr.

(** * Filling in the operands of a new block *)

(** src/vm/code_blocks.cpp:221-223 [next_literal]: the literal and the next
    [literal_index]. *)
Definition next_literal (m : memory) (literals literal_index : Z) : result (Z * Z) :=
  a ← untag ARRAY_TYPE literals;
  v ← heap_array_nth m a literal_index;
  Ok (v, literal_index +& 1).

(** src/vm/code_blocks.cpp:225-243 [compute_operand_value]: the value, as a
    signed integer, and the next [literal_index]. *)
Definition compute_operand_value (b : barrier) (safepoint literals : Z) (m : memory)
    (op : instruction_operand) (literal_index : Z) : result (Z * Z) :=
  let from_literal (f : Z → result Z) :=
    '(v, i) ← next_literal m literals literal_index;
    a ← f v;
    Ok (s64 a, i) in
  match rel_type (rel op) with
  | Some RT_LITERAL => from_literal Ok
  | Some RT_ENTRY_POINT => from_literal (compute_entry_point_address m)
  | Some RT_ENTRY_POINT_PIC => from_literal (compute_entry_point_pic_address m)
  | Some RT_ENTRY_POINT_PIC_TAIL => from_literal (compute_entry_point_pic_tail_address m)
  | Some RT_HERE => from_literal (λ v, compute_here_address v (rel_offset (rel op)) (compiled op))
  | Some RT_UNTAGGED => from_literal untag_fixnum
  | _ => a ← compute_external_address b safepoint m op; Ok (s64 a, literal_index)
  end.

(** src/vm/code_blocks.cpp:245-247 [initial_code_block_visitor::operator()]:
    the state of the visitor is [literal_index]. *)
Definition initial_code_block_visitor (b : barrier) (safepoint literals : Z) (op : instruction_operand)
    : eff Z () :=
  literal_index ← get_state;
  '(v, i) ← reads (λ m, compute_operand_value b safepoint literals m op literal_index);
  _ ← put_state i;
  writes (λ m, store_value op m v).

(** A computation with a state of its own. *)
Definition with_local {X Y A} (y : Y) (c : eff Y A) : eff X A := λ s,
  match c (s.1, y) with
  | Done s' a => Done (s'.1, s.2) a
  | Again s' => Again (s'.1, s.2)
  | Fatal e => Fatal e
  end.

(** src/vm/code_blocks.cpp:250-260 [initialize_code_block] (part) *)
Definition initialize_with (b : barrier) (compiled literals : Z) : eff code_heap () :=
  code ← get_state;
  _ ← with_local 0 (each_instruction_operand
        (initial_code_block_visitor b (safepoint_page code) literals) compiled);
  put_state (code_write_barrier code compiled).

Definition set_uninitialized (code : code_heap) (blocks : gmap Z Z) : code_heap :=
  mk_code_heap (ch_seg code) (safepoint_page code) (allocator code) (all_blocks code) blocks
    (points_to_nursery code) (points_to_aging code).

(** src/vm/code_blocks.cpp:262-267 [initialize_code_block]: The iterator is
    dereferenced, so the block must be there. *)
Definition initialize_code_block (b : barrier) (compiled : Z) : eff code_heap () :=
  code ← get_state;
  literals ← reads (λ _, match uninitialized_blocks code !! compiled with
                         | Some l => Ok l | None => Err BAD_ACCESS end);
  _ ← initialize_with b compiled literals;
  code ← get_state;
  put_state (set_uninitialized code (delete compiled (uninitialized_blocks code))).

(** * Updating references to words *)

(** src/vm/code_blocks.cpp:113-115 [update_word_references] (part): Stores the
    entry point of the owner of the block called, unless it is [f]. *)
Definition update_entry_point (address : memory → Z → result Z) (owner_of : memory → Z → result Z)
    (op : instruction_operand) (dest : Z) : eff code_heap () :=
  owner ← reads (λ m, owner_of m dest);
  if to_boolean owner then
    a ← reads (λ m, address m owner);
    writes (λ m, store_value op m (s64 a))
  else mret ().

(** src/vm/code_blocks.cpp:100-131 [update_word_references] (part): The
    visitor of the operands. *)
Definition update_operand (reset_inline_caches : bool) (op : instruction_operand) : eff code_heap () :=
  let unless_pic address :=
    dest ← reads (λ m, load_code_block m op);
    header ← reads (λ m, load m dest);
    if reset_inline_caches || negb (pic_p header)
    then update_entry_point address code_block_owner op dest
    else mret () in
  match rel_type (rel op) with
  | Some RT_ENTRY_POINT =>
      dest ← reads (λ m, load_code_block m op);
      update_entry_point compute_entry_point_address (λ m block, field m block 8) op dest
  | Some RT_ENTRY_POINT_PIC => unless_pic compute_entry_point_pic_address
  | Some RT_ENTRY_POINT_PIC_TAIL => unless_pic compute_entry_point_pic_tail_address
  | _ => mret ()
  end.

(** src/vm/code_blocks.cpp:86-135 [update_word_references] *)
Definition update_word_references (b : barrier) (compiled : Z) (reset_inline_caches : bool)
    : eff code_heap () :=
  code ← get_state;
  if uninitialized_p code compiled then initialize_code_block b compiled
  else
    header ← reads (λ m, load m compiled);
    if reset_inline_caches && pic_p header then
      '(m, code) ← reads (λ m, code_free m code compiled);
      _ ← writes (λ _, Ok m);
      put_state code
    else each_instruction_operand (update_operand reset_inline_caches) compiled.
End linked.

(** * Labels *)

(** src/vm/code_blocks.cpp:273-283 [fixup_labels] (part): [count] turns of
    the loop from [i] on.  A number that is no relocation class is an error of
    [store_value]. *)
Fixpoint fixup_labels_loop (m : memory) (labels compiled : Z) (count : nat) (i : Z) : result memory :=
  match count with
  | 0%nat => Ok m
  | S count =>
      c ← heap_array_nth m labels i;
      c ← untag_fixnum c;
      offset ← heap_array_nth m labels (i +& 1);
      offset ← untag_fixnum offset;
      target ← heap_array_nth m labels (i +& 2);
      target ← untag_fixnum target;
      match (if 0 <=? c then enum_of relocation_classes c else None) with
      | None => Err CRITICAL_ERROR
      | Some rel_class =>
          let new_entry := relocation_entry RT_HERE rel_class (u64 offset) in
          let op := new_instruction_operand new_entry compiled 0 in
          m ← store_value op m (s64 (target + entry_point compiled));
          fixup_labels_loop m labels compiled count (i + 3)
      end
  end.

(** src/vm/code_blocks.cpp:270-284 [fixup_labels]: The loop runs a third of
    the capacity times, rounded up. *)
Definition fixup_labels (m : memory) (labels compiled : Z) : result memory :=
  size ← array_capacity ARRAY_TYPE m labels;
  fixup_labels_loop m labels compiled (Z.to_nat ((size + 2) / 3)) 0.

(** * Undefined symbols *)

(** src/vm/code_blocks.cpp:349-356 [undefined_symbol] (part): The visitor;
    its state is the symbol and the library found last. *)
Definition find_symbol_at_address_visitor (block return_address : Z) (op : instruction_operand)
    : eff (Z * Z) () :=
  if bool_decide (rel_type (rel op) = Some RT_DLSYM) && (pointer op <=? return_address) then
    '(symbol, library) ← reads (λ m,
      parameters ← field m block 16;
      parameters ← untag ARRAY_TYPE parameters;
      symbol ← heap_array_nth m parameters (index op);
      library ← heap_array_nth m parameters (index op +& 1);
      Ok (symbol, library));
    put_state (symbol, library)
  else mret ().

(** src/vm/code_blocks.cpp:340-363 [undefined_symbol]: [frame] is
    [ctx->callstack_top].  It always ends in an error. *)
Definition undefined_symbol (code : code_heap) (m : memory) (frame : Z) : vm_error :=
  match
    return_address ← load m frame;
    compiled ← code_block_for_address code return_address;
    match each_instruction_operand (find_symbol_at_address_visitor compiled return_address) compiled
            (m, (false_object, false_object)) with
    | Done s _ => Ok s.2
    | Again _ => Err CRITICAL_ERROR
    | Fatal e => Err e
    end
  with
  | Ok (symbol, library) =>
      if negb (to_boolean symbol) then CRITICAL_ERROR else ERROR_UNDEFINED_SYMBOL symbol library
  | Err e => e
  end.

(** * Values do not depend on the code *)

Lemma persists_load_byte a : persists (λ m, load_byte m a).
Proof. unfold load_byte. persist. Qed.

Lemma persists_load_bytes n a : persists (λ m, load_bytes n m a).
Proof. revert a. induction n as [|n IH]; intros a; cbn [load_bytes]; [|pose proof persists_load_byte]; persist. Qed.

Lemma persists_field obj offset : persists (λ m, field m obj offset).
Proof. unfold field. persist. Qed.

Lemma persists_array_capacity t a : persists (λ m, array_capacity t m a).
Proof. unfold array_capacity. pose proof persists_field. persist. Qed.

Lemma persists_array_nth a i : persists (λ m, heap_array_nth m a i).
Proof. unfold heap_array_nth. pose proof persists_array_capacity. persist. Qed.

#[export] Hint Resolve persists_load_byte persists_load_bytes persists_field persists_array_capacity
  persists_array_nth : persist.

Lemma persists_c_string a : persists (λ m, c_string m a).
Proof.
  unfold c_string. apply persists_while_loop. intros m m' [p acc] Hsub. unfold c_string_body. cbn [fst snd].
  destruct (load_byte m _) as [c|e] eqn:E; [|eauto].
  left. by rewrite (persists_load_byte p m m' c Hsub E).
Qed.

Lemma persists_alien_offset obj : persists (λ m, alien_offset m obj).
Proof. unfold alien_offset. persist. Qed.

Lemma persists_compute_entry_point_address obj : persists (λ m, compute_entry_point_address m obj).
Proof. unfold compute_entry_point_address. persist. Qed.

#[export] Hint Resolve persists_c_string persists_alien_offset persists_compute_entry_point_address : persist.

Section values.
Context `{!linkage}.

Lemma persists_compute_pic_address w q : persists (λ m, compute_pic_address m w q).
Proof.
  unfold compute_pic_address, quotation_compiled_p, lazy_jit_compile_entry_point, special_object. persist.
Qed.
#[local] Hint Resolve persists_compute_pic_address : persist.

Lemma persists_compute_external_address b safepoint op :
  persists (λ m, compute_external_address b safepoint m op).
Proof.
  unfold compute_external_address, lookup_external_address, compute_dlsym_address, ffi_dlsym_raw. persist.
Qed.
#[local] Hint Resolve persists_compute_external_address : persist.

Lemma persists_compute_operand_value b safepoint literals op i :
  persists (λ m, compute_operand_value b safepoint literals m op i).
Proof.
  unfold compute_operand_value, next_literal, compute_entry_point_pic_address,
    compute_entry_point_pic_tail_address. persist.
Qed.
End values.

(** * Initialization of a code block *)

(** The relocation entries of a block. *)
Inductive relocation_at (m : memory) (block : Z) : list Z → Prop :=
  | no_relocation : field m block 24 = Ok false_object → relocation_at m block []
  | some_relocation r c entries :
      field m block 24 = Ok r → to_boolean r = true → TAG r = BYTE_ARRAY_TYPE →
      field m (UNTAG r) 8 = Ok c → untag_fixnum c = Ok (4 * Z.of_nat (length entries)) →
      (∀ i e, entries !! i = Some e →
         load_bytes 4 m (UNTAG r +& sizeof_byte_array +& (4 *& Z.of_nat i)) = Ok e) →
      relocation_at m block entries.

(** The operands they describe: the index of the parameters of an operand
    counts those of the operands before it. *)
Fixpoint operands_of (block : Z) (entries : list Z) (index : Z) : result (list instruction_operand) :=
  match entries with
  | [] => Ok []
  | e :: entries =>
      n ← number_of_parameters e;
      ops ← operands_of block entries (index +& n);
      Ok (new_instruction_operand e block index :: ops)
  end.

(** Operands that share no byte. *)
Definition apart (op op' : instruction_operand) : Prop :=
  pointer op ≤ pointer op' - op_width op' ∨ pointer op' ≤ pointer op - op_width op.

(** An operand inside the bytes [[lo, hi)]. *)
Definition operand_in (m : memory) (lo hi : Z) (op : instruction_operand) : Prop :=
  lo ≤ pointer op - op_width op ∧ pointer op ≤ hi ∧ is_cell (pointer op) ∧ 0 < op_width op ∧
  bytes_mapped m (pointer op - op_width op) (pointer op).

Definition value_fits (op : instruction_operand) (v : Z) : Prop :=
  ∃ c, klass (rel op) = Some c ∧ operand_fits c (pointer op) v ∧ is_fixnum v.

Definition in_operand (op : instruction_operand) (a : Z) : Prop :=
  pointer op - op_width op ≤ a < pointer op.

Section initialization.
Context `{!linkage} (b : barrier) (block safepoint literals lo hi : Z).

(** The values of operands, in order; [d] is the memory they come from. *)
Fixpoint operand_values (d : memory) (ops : list instruction_operand) (literal_index : Z) : result (list Z) :=
  match ops with
  | [] => Ok []
  | op :: ops =>
      '(v, i) ← compute_operand_value b safepoint literals d op literal_index;
      vs ← operand_values d ops i;
      Ok (v :: vs)
  end.

(** [d] is the memory around the code. *)
Context (d : memory)
  (Hd : ∀ w, is_Some (d !! w) → w mod 8 = 0 ∧ (w + 8 ≤ lo ∨ hi ≤ w)).

(** What has been done: the operands have their values and the other bytes are
    as before. *)
Definition filled (m m' : memory) (ops : list instruction_operand) (vs : list Z) : Prop :=
  d ⊆ m' ∧ Forall2 (λ op v, load_value m' op (pointer op) = Ok v) ops vs ∧
  (∀ a, is_Some (m' !! a) ↔ is_Some (m !! a)) ∧
  ∀ a, Forall (λ op, ¬ in_operand op a) ops → load_byte m' a = load_byte m a.

Lemma fill_operand m op v :
  d ⊆ m → operand_in m lo hi op → value_fits op v →
  ∃ m', store_value op m v = Ok m' ∧ filled m m' [op] [v].
Proof using Hd.
  intros Hsub (Hlo & Hhi & Hc & _ & Hm) (c & Hk & Hf & Hv).
  assert (op_width op = operand_width c) as Ew by (unfold op_width; by rewrite Hk).
  destruct (store_value_roundtrip c op m v) as (m' & E & (L & [Hdom Hout] & _)); [done..|by rewrite <- Ew|].
  exists m'. split; [done|]. split_and!; [|by repeat constructor|done|].
  - apply (same_words_subseteq d m m' lo hi); [done| |done].
    eapply same_words_weaken; [| |by eapply store_value_words]; lia.
  - intros a [Ha _]%Forall_cons. apply Hout. unfold in_operand in Ha. by rewrite <- Ew.
Qed.

Lemma filled_cons m m1 m' op ops v vs :
  Forall (apart op) ops → filled m m1 [op] [v] → filled m1 m' ops vs → filled m m' (op :: ops) (v :: vs).
Proof.
  intros Hap (_ & Hl & Hdom1 & Hb1) (Hsub & Hl' & Hdom & Hb). apply Forall2_cons in Hl as [Hl _].
  split_and!; [done| | |].
  - constructor; [|done]. rewrite <- Hl. apply load_value_ext. intros a Ha. apply Hb.
    apply (Forall_impl (apart op)); [done|]. unfold apart, in_operand. intros op' ?. lia.
  - intros a. by rewrite Hdom, Hdom1.
  - intros a [Ha Has]%Forall_cons. rewrite Hb by done. apply Hb1. by constructor.
Qed.

(** The loop over the relocation entries. *)
Lemma fill_operands rels entries : ∀ m k index i ops vs,
  d ⊆ m →
  (∀ j e, entries !! j = Some e →
     load_bytes 4 d (rels +& sizeof_byte_array +& (4 *& (k + Z.of_nat j))) = Ok e) →
  operands_of block entries index = Ok ops → operand_values d ops i = Ok vs →
  Forall (operand_in m lo hi) ops → ForallOrdPairs apart ops → Forall2 value_fits ops vs →
  ∃ m' i', each_operand_loop (initial_code_block_visitor b safepoint literals) block rels
             (length entries) k index (m, i) = Done (m', i') () ∧ filled m m' ops vs.
Proof using Hd.
  induction entries as [|e entries IH]; intros m k index i ops vs Hsub Hrel Hops Hvs Hin Hap Hfit;
    cbn [operands_of length each_operand_loop] in *.
  { apply Ok_inj in Hops. subst ops. cbn in Hvs. apply Ok_inj in Hvs. subst vs.
    exists m, i. split; [done|]. by split_and!. }
  apply result_bind_inv in Hops as (n & En & Hops). apply result_bind_inv in Hops as (ops' & Eops & Hops).
  apply Ok_inj in Hops. subst ops. set (op := new_instruction_operand e block index) in *.
  cbn [operand_values] in Hvs. apply result_bind_inv in Hvs as ([v i1] & Ev & Hvs).
  apply result_bind_inv in Hvs as (vs' & Evs & Hvs). apply Ok_inj in Hvs. subst vs.
  apply Forall_cons in Hin as [Hop Hin]. apply Forall2_cons in Hfit as [Hf Hfit].
  inversion Hap as [|? ? Hap1 Hap2]. subst.
  pose proof (persists_load_bytes 4 _ d m e Hsub (Hrel 0%nat e eq_refl)) as Er. rewrite Z.add_0_r in Er.
  destruct (fill_operand m op v Hsub Hop Hf) as (m1 & Est & Hm1).
  pose proof (persists_compute_operand_value b safepoint literals op i d m (v, i1) Hsub Ev) as Ev'.
  destruct (IH m1 (k + 1) (index +& n) i1 ops' vs') as (m' & i' & Erun & Hm'); [apply Hm1| |done|done| |done|done|].
  { intros j x Hj. rewrite <- (Hrel (S j) x Hj). by replace (k + 1 + Z.of_nat j) with (k + Z.of_nat (S j)) by lia. }
  { apply (Forall_impl (operand_in m lo hi)); [done|]. intros op' (? & ? & ? & ? & Hmap). split_and!; try done.
    intros a Ha. apply Hm1. by apply Hmap. }
  exists m', i'. split; [|by eapply filled_cons].
  unfold mbind, eff_bind, reads. cbn [fst]. rewrite Er. fold op.
  unfold initial_code_block_visitor, mbind, eff_bind, reads, get_state, put_state, writes. cbn [fst snd].
  rewrite Ev'. cbn [fst snd]. rewrite Est. cbn [fst snd]. rewrite En. exact Erun.
Qed.

Lemma visit_block m entries ops vs :
  d ⊆ m → relocation_at d block entries → Z.of_nat (length entries) < 2 ^ 56 →
  operands_of block entries 0 = Ok ops → operand_values d ops 0 = Ok vs →
  Forall (operand_in m lo hi) ops → ForallOrdPairs apart ops → Forall2 value_fits ops vs →
  ∃ m' i', each_instruction_operand (initial_code_block_visitor b safepoint literals) block (m, 0) =
      Done (m', i') () ∧ filled m m' ops vs.
Proof using Hd.
  intros Hsub Hrel Hlen Hops Hvs Hin Hap Hfit.
  unfold each_instruction_operand, mbind, eff_bind, reads. cbn [fst].
  destruct Hrel as [Er|r c entries Er Hb Ht Ec Eu He].
  - rewrite (persists_field _ _ d m _ Hsub Er). change (to_boolean false_object) with false. cbn [negb].
    cbn in Hops. apply Ok_inj in Hops. subst ops. cbn in Hvs. apply Ok_inj in Hvs. subst vs.
    exists m, 0. split; [done|]. by split_and!.
  - rewrite (persists_field _ _ d m _ Hsub Er), Hb. cbn [negb]. unfold untag. rewrite Ht.
    change ((BYTE_ARRAY_TYPE =? TYPE_COUNT) || (BYTE_ARRAY_TYPE =? BYTE_ARRAY_TYPE)) with true.
    rewrite check_true. cbn [mbind result_bind fst].
    rewrite (persists_field _ _ d m _ Hsub Ec). unfold result_bind. rewrite Eu. rewrite u64_id by (unfold is_cell; lia).
    replace (Z.to_nat (4 * Z.of_nat (length entries) / 4)) with (length entries) by dlia.
    by apply fill_operands.
Qed.
End initialization.

(** C7. Initialization of a new code block.  When the operands of the block are
    pairwise apart and inside its code, and the values computed for them (from
    the memory [d] around the code: literals taken in order, entry points of
    words, addresses of symbols and of the vm) fit their classes,
    initialization succeeds; afterwards every operand reads back its value, no
    byte outside the operands has changed, and the block is no longer
    uninitialized and is in both remembered sets, so that the next collections
    of the nursery and of aging space trace its literals. *)
Theorem initialize_code_block_spec `{!linkage} b block literals lo hi (d m : memory) code entries ops vs :
  (∀ w, is_Some (d !! w) → w mod 8 = 0 ∧ (w + 8 ≤ lo ∨ hi ≤ w)) → d ⊆ m →
  relocation_at d block entries → Z.of_nat (length entries) < 2 ^ 56 →
  operands_of block entries 0 = Ok ops →
  Forall (operand_in m lo hi) ops → ForallOrdPairs apart ops →
  uninitialized_blocks code !! block = Some literals →
  operand_values b (safepoint_page code) literals d ops 0 = Ok vs → Forall2 value_fits ops vs →
  ∃ m' code', initialize_code_block b block (m, code) = Done (m', code') () ∧
    filled d m m' ops vs ∧
    uninitialized_blocks code' = delete block (uninitialized_blocks code) ∧
    points_to_nursery code' = {[block]} ∪ points_to_nursery code ∧
    points_to_aging code' = {[block]} ∪ points_to_aging code ∧
    all_blocks code' = all_blocks code ∧ allocator code' = allocator code.
Proof.
  intros Hd Hsub Hrel Hlen Hops Hin Hap Hu Hvs Hfit.
  destruct (visit_block b block (safepoint_page code) literals lo hi d Hd m entries ops vs)
    as (m' & i' & E & Hf); [done..|].
  unfold initialize_code_block, initialize_with, with_local, mbind, eff_bind, reads, get_state, put_state.
  cbn [fst snd]. rewrite Hu. cbn [fst snd]. rewrite E. cbn [fst snd].
  eexists m', _. split; [reflexivity|]. by split_and!.
Qed.

(** ** An example

    A block at 4096 with a literal and a reference to its own entry point; its
    relocation entries are at 8192 and its literals at 12288. *)

Definition sample_linkage : linkage :=
  {| vm_address := 65536; megamorphic_cache_hits_address := 65600; special_objects_address := 65664;
     inline_cache_miss_address := 131072; undefined_symbol_address := 131088;
     dlsym := λ _ _, 0; null_dll := 0; max_pic_size := 3 |}.

Definition sample_entries : list Z :=
  [relocation_entry RT_LITERAL RC_ABSOLUTE_CELL 16; relocation_entry RT_THIS RC_RELATIVE 24].

Definition sample_operands : list instruction_operand :=
  (λ e, new_instruction_operand e 4096 0) <$> sample_entries.

Definition around_code : memory :=
  list_to_map [(4096, 96); (4104, false_object); (4112, false_object); (4120, tag BYTE_ARRAY_TYPE 8192);
    (8192, initialize BYTE_ARRAY_TYPE); (8200, tag_fixnum 8);
    (8208, relocation_entry RT_LITERAL RC_ABSOLUTE_CELL 16 +
           2 ^ 32 * relocation_entry RT_THIS RC_RELATIVE 24);
    (12288, initialize ARRAY_TYPE); (12296, tag_fixnum 1); (12304, tag WORD_TYPE 20480)].

Definition sample_code : code_heap :=
  mk_code_heap (new_segment 4096 65536) 4096
    (mk_free_list 4096 69632 65536 [] [] 0 0 (MarkBits.new_mark_bits 65536 4096))
    {[4096]} {[4096 := tag ARRAY_TYPE 12288]} ∅ ∅.

Lemma initialize_code_block_spec_witness :
  ∃ m' code', initialize_code_block (H := sample_linkage) (mk_barrier 0 0 0 0) 4096
      (around_code ∪ zeroed_region 4128 8, sample_code) = Done (m', code') () ∧
    filled around_code (around_code ∪ zeroed_region 4128 8) m' sample_operands [tag WORD_TYPE 20480; 4128] ∧
    uninitialized_blocks code' = delete 4096 (uninitialized_blocks sample_code) ∧
    points_to_nursery code' = {[4096]} ∪ points_to_nursery sample_code ∧
    points_to_aging code' = {[4096]} ∪ points_to_aging sample_code ∧
    all_blocks code' = all_blocks sample_code ∧ allocator code' = allocator sample_code.
Proof.
  apply (@initialize_code_block_spec sample_linkage (mk_barrier 0 0 0 0) 4096 (tag ARRAY_TYPE 12288) 4128 4192
    around_code _ sample_code sample_entries).
  - intros w [v Hw]. apply elem_of_list_to_map_2 in Hw.
    repeat (apply elem_of_cons in Hw as [[= -> ->]|Hw]; [split; [reflexivity|lia]|]). by apply elem_of_nil in Hw.
  - apply map_union_subseteq_l.
  - apply (some_relocation _ _ (tag BYTE_ARRAY_TYPE 8192) (tag_fixnum 8)); [reflexivity..|].
    intros [|[|i]] e [= <-]; reflexivity.
  - cbn; lia.
  - reflexivity.
  - assert (∀ a b, 4128 ≤ a → b ≤ 4192 → bytes_mapped (around_code ∪ zeroed_region 4128 8) a b) as Hm.
    { intros a b Ha Hb x Hx. apply lookup_union_is_Some. right.
      apply (bytes_mapped_zeroed_region 4128 8 a b); [reflexivity|done|lia|done]. }
    repeat constructor; try eval_side; apply Hm; eval_side.
  - apply FOP_cons; [constructor; [left; eval_side|constructor]|].
    apply FOP_cons; [constructor|apply FOP_nil].
  - reflexivity.
  - reflexivity.
  - repeat constructor; eexists; (split; [reflexivity|]); split; eval_side.
Defined.
