(* ===== verification/Callbacks.v ===== *)
(** The callback heap: vm/callbacks.cpp.

    A callback stub is a code block in a heap of its own, a copy of a template
    whose operands are filled in: the vm twice, the entry point of the word
    that is called, and the argument of the return instruction.  Stubs do not
    move; compaction updates the entry point. *)

From S2P Require Import Prelude.
From S2P Require Import Layouts.
From S2P Require Import Memory.
From S2P Require Import Bytes.
From S2P Require Import InstructionOperands.
From S2P Require Import FreeList.
From S2P Require Import DataHeap.
From S2P Require Import Objects.
From S2P Require Import CodeBlocks.
From S2P Require Import Relocation.
Local Open Scope cell_scope.

(** src/vm/callbacks.hpp:28-31 [callback_heap] (part): The field [parent] is
    the vm, whose address is in [linkage]. *)
Record callback_heap := mk_callback_heap {
  callback_seg : segment;
  callback_allocator : free_list_allocator
}.

(** src/vm/callbacks.cpp:5-11 [return_takes_param_p]: on x86. *)
Definition return_takes_param_p : bool := true.

(** [memcpy] of [n] bytes. *)
Fixpoint copy_bytes (m : memory) (dest src : Z) (n : nat) : result memory :=
  match n with
  | 0%nat => Ok m
  | S n => c ← load_byte m src; m ← store_byte m dest c; copy_bytes m (dest + 1) (src + 1) n
  end.

Section callbacks.
Context `{!linkage}.

(** src/vm/callbacks.cpp:13-20 [callback_heap::callback_heap]:
    [segment_address] is chosen by the operating system. *)
Definition new_callback_heap (m : memory) (segment_address size : Z) : result (memory * callback_heap) :=
  let seg := new_segment segment_address size in
  '(m, fl) ← new_free_list_allocator m size (seg_start seg);
  Ok (m, mk_callback_heap seg fl).

(** src/vm/callbacks.cpp:29-37 [callback_operand] *)
Definition callback_operand (m : memory) (stub index : Z) : result instruction_operand :=
  code_template ← special_object m special_objects_address CALLBACK_STUB;
  a ← untag ARRAY_TYPE code_template;
  relocation_template ← heap_array_nth m a 0;
  r ← untag BYTE_ARRAY_TYPE relocation_template;
  entry ← load_bytes 4 m (r +& sizeof_byte_array +& (4 *& index));
  Ok (new_instruction_operand entry stub 0).

(** src/vm/callbacks.cpp:39-43 [store_callback_operand] *)
Definition store_callback_operand (m : memory) (stub index value : Z) : result memory :=
  op ← callback_operand m stub index;
  store_value op m (s64 value).

(** src/vm/callbacks.cpp:45-49 [callback_heap::update]: without the flush of
    the instruction cache. *)
Definition callback_update (m : memory) (stub : Z) : result memory :=
  owner ← field m stub 8;
  w ← untag WORD_TYPE owner;
  entry ← field m w word_entry_point;
  store_callback_operand m stub 1 entry.

(** src/vm/callbacks.cpp:51-85 [callback_heap::add] *)
Definition callback_add (m : memory) (cb : callback_heap) (owner return_rewind : Z)
    : result (memory * callback_heap * Z) :=
  code_template ← special_object m special_objects_address CALLBACK_STUB;
  a ← untag ARRAY_TYPE code_template;
  insns ← heap_array_nth m a 1;
  i ← untag BYTE_ARRAY_TYPE insns;
  size ← array_capacity BYTE_ARRAY_TYPE m i;
  let bump := align (size +& sizeof_code_block) data_alignment in
  '(m, fl, r) ← allot m (callback_allocator cb) bump;
  match r with
  | None => Err ERROR_CALLBACK_SPACE_OVERFLOW
  | Some stub =>
      m ← store m stub (Z.land bump (lnot64 7));
      m ← put_field m stub 8 owner;
      m ← put_field m stub 16 false_object;
      m ← put_field m stub 24 false_object;
      m ← copy_bytes m (entry_point stub) (i +& sizeof_byte_array) (Z.to_nat size);
      m ← store_callback_operand m stub 0 vm_address;
      m ← store_callback_operand m stub 2 vm_address;
      m ← (if return_takes_param_p then store_callback_operand m stub 3 return_rewind else Ok m);
      m ← callback_update m stub;
      Ok (m, mk_callback_heap (callback_seg cb) fl, stub)
  end.

(** src/vm/callbacks.cpp:98-102 [primitive_free_callback]: [obj] is the alien
    that was on the stack. *)
Definition primitive_free_callback (m : memory) (cb : callback_heap) (obj : Z)
    : result (memory * callback_heap) :=
  entry ← alien_offset m obj;
  '(m, fl) ← free code_size m (callback_allocator cb) (entry -& sizeof_code_block);
  Ok (m, mk_callback_heap (callback_seg cb) fl).

(** * The entry point of a stub *)

(** The operand with number [index] of a stub, as the template in memory has
    it. *)
Lemma persists_callback_operand stub index : persists (λ m, callback_operand m stub index).
Proof. unfold callback_operand, special_object. persist. Qed.

(** Updating a stub: its second operand then is the entry point of the word,
    no other byte has changed, and the template and the word in [d] are as
    before, so that updating it again changes nothing. *)
Theorem callback_update_spec (d m : memory) stub lo hi owner entry op :
  (∀ w, is_Some (d !! w) → w mod 8 = 0 ∧ (w + 8 ≤ lo ∨ hi ≤ w)) → d ⊆ m →
  field d stub 8 = Ok owner → TAG owner = WORD_TYPE →
  field d (UNTAG owner) word_entry_point = Ok entry → callback_operand d stub 1 = Ok op →
  operand_in m lo hi op → value_fits op (s64 entry) →
  ∃ m', callback_update m stub = Ok m' ∧ filled d m m' [op] [s64 entry].
Proof.
  intros Hd Hsub Ho Ht He Hop Hin Hfit. unfold callback_update.
  rewrite (persists_field _ _ d m _ Hsub Ho), result_bind_ok. unfold untag. rewrite Ht.
  change ((WORD_TYPE =? TYPE_COUNT) || (WORD_TYPE =? WORD_TYPE)) with true.
  rewrite check_true, !result_bind_ok, (persists_field _ _ d m _ Hsub He), result_bind_ok.
  unfold store_callback_operand.
  rewrite (persists_callback_operand _ _ d m _ Hsub Hop), result_bind_ok.
  by apply (fill_operand lo hi).
Qed.
End callbacks.
