(* ===== verification/SlotVisitor.v ===== *)
(** The slot visitor: vm/slot_visitor.hpp.

    A visitor walks over the places that hold pointers and replaces every
    pointer by its image under a fixup.  The fixup is a template parameter of
    the source and a class here; the collectors, [become] and compaction are
    its instances.  A place is an address: the handles in C++ objects (data
    roots, special objects, stacks) are words of memory like the slots of
    objects. *)

From stdpp Require Import sorting.
From S2P Require Import Prelude.
From S2P Require Import Layouts.
From S2P Require Import Memory.
From S2P Require Import Bytes.
From S2P Require Import Effects.
From S2P Require Import InstructionOperands.
From S2P Require Import FreeList.
From S2P Require Import ObjectStartMap.
From S2P Require Import Spaces.
From S2P Require Import DataHeap.
From S2P Require Import Objects.
From S2P Require Import CodeBlocks.
From S2P Require Import Relocation.
Local Open Scope Z_scope.
Local Open Scope cell_scope.

(** * State *)

(** What a collection changes besides memory: the two heaps, the mark stack
    and the counters of the visitor. *)
Record collector := mk_collector {
  data : data_heap;
  code : code_heap;
  mark_stack : list Z;
  cards_scanned : Z;
  decks_scanned : Z
}.

Definition with_data (c : collector) (d : data_heap) : collector :=
  mk_collector d (code c) (mark_stack c) (cards_scanned c) (decks_scanned c).
Definition with_code (c : collector) (ch : code_heap) : collector :=
  mk_collector (data c) ch (mark_stack c) (cards_scanned c) (decks_scanned c).
Definition with_mark_stack (c : collector) (ms : list Z) : collector :=
  mk_collector (data c) (code c) ms (cards_scanned c) (decks_scanned c).
Definition with_counters (c : collector) (cards decks : Z) : collector :=
  mk_collector (data c) (code c) (mark_stack c) cards decks.

Definition get {A} (f : collector → A) : eff collector A := c ← get_state; mret (f c).
Definition modify (f : collector → collector) : eff collector () := c ← get_state; put_state (f c).

(** src/vm/fixup.hpp:3-19 [no_fixup]: The interface of a fixup. *)
Class Fixup := {
  translated_code_block_map : bool;
  fixup_data : Z → eff collector Z;
  fixup_code : Z → eff collector Z;
  translate_data : Z → result Z;
  translate_code : Z → result Z
}.

(** src/vm/contexts.hpp:20-45 [context] (part): The fields;
    [context_objects] is the address of the array. *)
Record context := mk_context {
  callstack_top : Z;
  callstack_bottom : Z;
  datastack : Z;
  retainstack : Z;
  callstack_save : Z;
  datastack_seg : segment;
  retainstack_seg : segment;
  callstack_seg : segment;
  context_objects : Z
}.

(** src/vm/contexts.hpp:5-5 [context_object_count] *)
Definition context_object_count : Z := 4.
(** src/vm/objects.hpp:7-7 [special_object_count] *)
Definition special_object_count : Z := 85.

(** The part of the vm that holds roots: the addresses of the handles of its
    data roots and samples, of its array of special objects, its callback
    heap and its contexts. *)
Record vm_roots := mk_vm_roots {
  data_roots : list Z;
  callbacks_allocator : free_list_allocator;
  sample_threads : list Z;
  special_objects : Z;
  active_contexts : list context
}.

(** The words from [start] up to [end_]. *)
Definition word_range (start end_ : Z) : list Z :=
  (λ i, start + 8 * i) <$> seqZ 0 ((end_ - start + 7) / 8).

(** The entries of a [std::map], in the order of their keys. *)
Definition key_le (a b : Z * Z) : Prop := a.1 ≤ b.1.
#[export] Instance key_le_dec : RelDecision key_le.
Proof. unfold key_le. solve_decision. Defined.

Definition map_entries (m : gmap Z Z) : list (Z * Z) := merge_sort key_le (map_to_list m).

Section slot_visitor.
Context `{!Fixup}.

(** * Pointers, handles and slots *)

(** src/vm/slot_visitor.hpp:170-174 [visit_pointer] *)
Definition visit_pointer (pointer : Z) : eff collector Z :=
  obj ← reads (λ _, untag TYPE_COUNT pointer);
  untagged ← fixup_data obj;
  mret (RETAG untagged (TAG pointer)).

(** src/vm/slot_visitor.hpp:176-180 [visit_handle] *)
Definition visit_handle (handle : Z) : eff collector () :=
  value ← reads (λ m, load m handle);
  if negb (immediate_p value) then
    value ← visit_pointer value;
    writes (λ m, store m handle value)
  else mret ().

(** src/vm/slot_visitor.hpp:182-186 [visit_object_array] *)
Definition visit_object_array (start end_ : Z) : eff collector () :=
  for_each (word_range start end_) visit_handle.

(** * Call frames *)

(** src/vm/slot_visitor.hpp:270-280 [call_frame_slot_visitor] (part): The
    base pointer of each derived pointer is subtracted, or added back. *)
Definition update_derived_roots (info : gc_info) (callsite stack_pointer : Z) (update : Z → Z → Z)
    : eff collector () :=
  for_each (seqZ 0 (derived_root_count info)) (λ spill_slot,
    base_pointer ← reads (λ m, lookup_base_pointer m info callsite spill_slot);
    if negb (base_pointer =? u32 (-1)) then
      writes (λ m,
        v ← load m (stack_pointer +& (8 *& spill_slot));
        base ← load m (stack_pointer +& (8 *& base_pointer));
        store m (stack_pointer +& (8 *& spill_slot)) (update v base))
    else mret ()).

(** src/vm/slot_visitor.hpp:248-301 [call_frame_slot_visitor::operator()] *)
Definition call_frame_slot_visitor (frame_top size owner addr : Z) : eff collector () :=
  let return_address := code_offset owner addr in
  compiled ← reads (λ _, if translated_code_block_map then Ok owner else translate_code owner);
  info ← reads (λ m, i ← block_gc_info m compiled; read_gc_info m i);
  _ ← reads (λ m, s ← code_size m compiled; check (return_address <? s));
  callsite ← reads (λ m, return_address_index m info return_address);
  if callsite =? u64 (-1) then mret ()
  else
    let stack_pointer := frame_top in
    let bitmap := gc_info_bitmap info in
    _ ← update_derived_roots info callsite stack_pointer (λ v base, v -& base);
    let roots := callsite_gc_roots info callsite in
    _ ← for_each (seqZ 0 (gc_root_count info)) (λ spill_slot,
          live ← reads (λ m, memory_bitmap_p m bitmap (roots +& spill_slot));
          if (live : bool) then visit_handle (stack_pointer +& (8 *& spill_slot)) else mret ());
    update_derived_roots info callsite stack_pointer (λ v base, v +& base).

(** src/vm/slot_visitor.hpp:304-308 [visit_callstack_object] *)
Definition visit_callstack_object (stack : Z) : eff collector () :=
  ch ← get code;
  iterate_callstack_object ch translated_code_block_map translate_code call_frame_slot_visitor stack.

(** src/vm/slot_visitor.hpp:310-314 [visit_callstack] *)
Definition visit_callstack (ctx : context) : eff collector () :=
  ch ← get code;
  iterate_callstack ch translated_code_block_map translate_code call_frame_slot_visitor
    (callstack_top ctx) (callstack_bottom ctx).

(** src/vm/slot_visitor.hpp:188-196 [visit_slots] *)
Definition visit_slots (obj : Z) : eff collector () :=
  header ← reads (λ m, load m obj);
  if header_type header =? CALLSTACK_TYPE then visit_callstack_object obj
  else
    let start := obj +& 8 in
    count ← reads (λ m, slot_count_with translate_data m obj);
    visit_object_array start (start +& (8 *& count)).

(** src/vm/slot_visitor.hpp:431-436 [visit_object] *)
Definition visit_object (obj : Z) : eff collector () :=
  _ ← visit_slots obj;
  header ← reads (λ m, load m obj);
  if header_type header =? ALIEN_TYPE then writes (λ m, update_address m obj) else mret ().

(** * Roots *)

(** src/vm/slot_visitor.hpp:198-201 [visit_stack_elements] *)
Definition visit_stack_elements (region : segment) (top : Z) : eff collector () :=
  visit_object_array (seg_start region) (top +& 8).

(** src/vm/slot_visitor.hpp:316-333 [visit_context]: without the pattern that
    a debug build fills the unused part of the stacks with. *)
Definition visit_context (ctx : context) : eff collector () :=
  _ ← visit_callstack ctx;
  _ ← visit_stack_elements (datastack_seg ctx) (datastack ctx);
  _ ← visit_stack_elements (retainstack_seg ctx) (retainstack ctx);
  visit_object_array (context_objects ctx) (context_objects ctx +& (8 * context_object_count)).

(** src/vm/slot_visitor.hpp:212-212 [visit_all_roots] (part): The stubs of
    the callback heap: the list of its blocks that are in use. *)
Definition callback_stubs (fl : free_list_allocator) (m : memory) : result (list Z) :=
  '(_, stubs) ← iterate (λ _, code_size) (λ stub _ st, Ok (st.1, st.2 ++ [stub])) fl m [];
  Ok stubs.

Definition with_uninitialized (c : collector) (blocks : gmap Z Z) : collector :=
  with_code c (mk_code_heap (ch_seg (code c)) (safepoint_page (code c)) (allocator (code c))
    (all_blocks (code c)) blocks (points_to_nursery (code c)) (points_to_aging (code c))).

(** src/vm/slot_visitor.hpp:203-228 [visit_all_roots]: The iterator of the
    callback heap changes only the owner of a stub, so the stubs are those of
    the heap as it was. *)
Definition visit_all_roots (parent : vm_roots) : eff collector () :=
  _ ← for_each (data_roots parent) visit_handle;
  stubs ← reads (callback_stubs (callbacks_allocator parent));
  _ ← for_each stubs (λ stub, visit_handle (stub +& 8));
  blocks ← get (λ c, uninitialized_blocks (code c));
  _ ← for_each (map_entries blocks) (λ '(block, literals),
        literals ← visit_pointer literals;
        modify (λ c, with_uninitialized c (<[block := literals]> (uninitialized_blocks (code c)))));
  _ ← for_each (sample_threads parent) visit_handle;
  _ ← visit_object_array (special_objects parent) (special_objects parent +& (8 * special_object_count));
  for_each (active_contexts parent) visit_context.

(** * Code blocks *)

(** src/vm/slot_visitor.hpp:335-340 [visit_code_block_objects] *)
Definition visit_code_block_objects (compiled : Z) : eff collector () :=
  _ ← visit_handle (compiled +& 8);
  _ ← visit_handle (compiled +& 16);
  visit_handle (compiled +& 24).

(** src/vm/slot_visitor.hpp:342-356 [visit_embedded_literals] *)
Definition visit_embedded_literals (compiled : Z) : eff collector () :=
  uninitialized ← get (λ c, uninitialized_p (code c) compiled);
  if (uninitialized : bool) then mret ()
  else
    each_instruction_operand (λ op,
      if bool_decide (rel_type (rel op) = Some RT_LITERAL) then
        value ← reads (λ m, load_value m op (pointer op));
        let value := u64 value in
        if negb (immediate_p value) then
          value ← visit_pointer value;
          writes (λ m, store_value op m (s64 value))
        else mret ()
      else mret ()) compiled.

(** src/vm/slot_visitor.hpp:363-370 [call_frame_code_block_visitor::operator()] *)
Definition call_frame_code_block_visitor (frame_top size owner addr : Z) : eff collector () :=
  compiled ← (if translated_code_block_map then mret owner else fixup_code owner);
  let fixed_addr := address_for_offset compiled (code_offset owner addr) in
  writes (λ m, store m frame_top fixed_addr).

(** The entry point of a word or quotation, [offset] bytes into it. *)
Definition visit_entry_point (code_of : memory → Z → result Z) (obj offset : Z) : eff collector () :=
  entry ← reads (λ m, field m obj offset);
  if entry =? 0 then mret ()
  else
    block ← reads (λ m, code_of m obj);
    block ← fixup_code block;
    writes (λ m, put_field m obj offset (entry_point block)).

(** src/vm/slot_visitor.hpp:373-395 [visit_object_code_block] *)
Definition visit_object_code_block (obj : Z) : eff collector () :=
  header ← reads (λ m, load m obj);
  let t := header_type header in
  if t =? WORD_TYPE then visit_entry_point word_code obj 72
  else if t =? QUOTATION_TYPE then visit_entry_point quotation_code obj 32
  else if t =? CALLSTACK_TYPE then
    ch ← get code;
    iterate_callstack_object ch translated_code_block_map translate_code call_frame_code_block_visitor obj
  else mret ().

(** src/vm/slot_visitor.hpp:397-403 [visit_context_code_blocks] *)
Definition visit_context_code_blocks (parent : vm_roots) : eff collector () :=
  for_each (active_contexts parent) (λ ctx,
    ch ← get code;
    iterate_callstack ch translated_code_block_map translate_code call_frame_code_block_visitor
      (callstack_top ctx) (callstack_bottom ctx)).

(** src/vm/slot_visitor.hpp:405-413 [visit_uninitialized_code_blocks]:
    [insert] keeps the value a key has. *)
Definition visit_uninitialized_code_blocks : eff collector () :=
  blocks ← get (λ c, uninitialized_blocks (code c));
  new_blocks ← foldr (λ e rest, λ new : gmap Z Z,
      block ← fixup_code e.1;
      rest (if decide (is_Some (new !! block)) then new else <[block := e.2]> new))
    (λ new, mret new) (map_entries blocks) ∅;
  modify (λ c, with_uninitialized c new_blocks).

(** src/vm/slot_visitor.hpp:415-429 [visit_embedded_code_pointers] *)
Definition visit_embedded_code_pointers (compiled : Z) : eff collector () :=
  uninitialized ← get (λ c, uninitialized_p (code c) compiled);
  if (uninitialized : bool) then mret ()
  else
    each_instruction_operand (λ op,
      if bool_decide (rel_type (rel op) ∈ [Some RT_ENTRY_POINT; Some RT_ENTRY_POINT_PIC;
                                           Some RT_ENTRY_POINT_PIC_TAIL]) then
        block ← reads (λ m, load_code_block m op);
        block ← fixup_code block;
        writes (λ m, store_value op m (s64 (entry_point block)))
      else mret ()) compiled.

(** src/vm/slot_visitor.hpp:460-497 [visit_instruction_operands] *)
Definition visit_instruction_operands `{!linkage} (b : barrier) (block rel_base : Z) : eff collector () :=
  uninitialized ← get (λ c, uninitialized_p (code c) block);
  if (uninitialized : bool) then mret ()
  else
    safepoint ← get (λ c, safepoint_page (code c));
    each_instruction_operand (λ op,
      let old_offset := rel_base +& rel_offset (rel op) in
      old_value ← reads (λ m, load_value m op old_offset);
      let old_value := u64 old_value in
      match rel_type (rel op) with
      | Some RT_LITERAL =>
          if negb (immediate_p old_value) then
            value ← visit_pointer old_value;
            writes (λ m, store_value op m (s64 value))
          else mret ()
      | Some RT_ENTRY_POINT | Some RT_ENTRY_POINT_PIC | Some RT_ENTRY_POINT_PIC_TAIL | Some RT_HERE =>
          let offset := TAG old_value in
          compiled ← fixup_code (UNTAG old_value);
          writes (λ m, store_value op m (s64 (RETAG compiled offset)))
      | Some RT_UNTAGGED => mret ()
      | _ =>
          value ← reads (λ m, compute_external_address b safepoint m op);
          writes (λ m, store_value op m (s64 value))
      end) block.

(** src/vm/slot_visitor.hpp:579-587 [visit_code_heap_roots]: without the
    flush of the instruction cache. *)
Definition visit_code_heap_roots (remembered_set : list Z) : eff collector () :=
  for_each remembered_set (λ compiled,
    _ ← visit_code_block_objects compiled;
    visit_embedded_literals compiled).

(** * The mark stack *)

(** src/vm/slot_visitor.hpp:443-457 [visit_mark_stack] (part): One turn of
    the loop. *)
Definition mark_stack_body (_ : ()) : eff collector (() + ()) :=
  ms ← get mark_stack;
  match last ms with
  | None => mret (inr ())
  | Some ptr =>
      _ ← modify (λ c, with_mark_stack c (removelast ms));
      _ ← (if negb (Z.land ptr 1 =? 0) then
             let compiled := ptr -& 1 in
             _ ← visit_code_block_objects compiled;
             _ ← visit_embedded_literals compiled;
             visit_embedded_code_pointers compiled
           else
             _ ← visit_object ptr;
             visit_object_code_block ptr);
      mret (inl ())
  end.

(** src/vm/slot_visitor.hpp:441-458 [visit_mark_stack] *)
Definition visit_mark_stack : eff collector () := loop mark_stack_body ().

(** * Cards *)

(** What the visitor uses of a generation, read from the current state: the
    [SourceGeneration] and [TargetGeneration] of the source. *)
Record generation := mk_generation {
  gen_start : collector → Z;
  gen_end : collector → Z;
  gen_here : collector → Z;
  gen_starts : collector → object_start_map;
  gen_next_object_after : collector → memory → Z → result Z
}.

(** src/vm/slot_visitor.hpp:499-510 [visit_partial_objects] *)
Definition visit_partial_objects (start card_start card_end : Z) : eff collector () :=
  let scan_start := start +& 8 in
  count ← reads (λ m, slot_count m start);
  let scan_end := scan_start +& (8 *& count) in
  let scan_start := Z.max scan_start card_start in
  let scan_end := Z.min scan_end card_end in
  visit_object_array scan_start scan_end.

(** src/vm/slot_visitor.hpp:529-538 [visit_card] (part): One turn of the
    loop over the objects of a card. *)
Definition card_objects_body (gen : generation) (start_addr end_addr start : Z) : eff collector (Z + Z) :=
  if negb (start =? 0) && (start <? end_addr) then
    _ ← visit_partial_objects start start_addr end_addr;
    s ← reads (λ m, size m start);
    if end_addr <=? (start +& s) then mret (inr start)
    else
      c ← get_state;
      next ← reads (λ m, gen_next_object_after gen c m start);
      mret (inl next)
  else mret (inr start).

(** src/vm/slot_visitor.hpp:512-540 [visit_card] *)
Definition visit_card (gen : generation) (index start : Z) : eff collector Z :=
  c ← get_state;
  let heap_base := dh_start (data c) in
  let start_addr := heap_base +& (index *& card_size) in
  let end_addr := start_addr +& card_size in
  start ← (if start =? 0 then mret 0
           else
             s ← reads (λ m, size m start);
             mret (if (start +& s) <? start_addr then 0 else start));
  start ← (if start =? 0 then
             let gen_start_card := (gen_start gen c -& heap_base) / card_size in
             reads (λ _, find_object_containing_card (gen_starts gen c) (Z.to_nat (index -& gen_start_card)))
           else mret start);
  loop (card_objects_body gen start_addr end_addr) start.

(** Clears the bits of [unmask] in a card or a deck. *)
Definition unmark (unmask card : Z) : Z := u8 (Z.land card (Z.lnot unmask)).

(** src/vm/slot_visitor.hpp:563-574 [visit_cards] (part): The loop over the
    cards of a deck; [None] is the [return] out of both loops. *)
Fixpoint visit_cards_of_deck (gen : generation) (mask unmask : Z) (indices : list Z) (start : Z)
    : eff collector (option Z) :=
  match indices with
  | [] => mret (Some start)
  | ci :: indices =>
      c ← get_state;
      card ← reads (λ _, read (cards (data c)) (Z.to_nat ci));
      if negb (Z.land card mask =? 0) then
        cs ← reads (λ _, write (cards (data c)) (Z.to_nat ci) (unmark unmask card));
        _ ← modify (λ c, with_data (with_counters c (cards_scanned c +& 1) (decks_scanned c))
                           (set_cards (data c) cs (decks (data c))));
        start ← visit_card gen ci start;
        if start =? 0 then mret None
        else visit_cards_of_deck gen mask unmask indices start
      else visit_cards_of_deck gen mask unmask indices start
  end.

(** src/vm/slot_visitor.hpp:555-576 [visit_cards] (part): The loop over the
    decks. *)
Fixpoint visit_decks (gen : generation) (mask unmask : Z) (indices : list Z) (start : Z) : eff collector () :=
  match indices with
  | [] => mret ()
  | di :: indices =>
      c ← get_state;
      deck ← reads (λ _, read (decks (data c)) (Z.to_nat di));
      if negb (Z.land deck mask =? 0) then
        ds ← reads (λ _, write (decks (data c)) (Z.to_nat di) (unmark unmask deck));
        _ ← modify (λ c, with_data (with_counters c (cards_scanned c) (decks_scanned c +& 1))
                           (set_cards (data c) (cards (data c)) ds));
        let first_card := cards_per_deck *& di in
        r ← visit_cards_of_deck gen mask unmask (seqZ first_card cards_per_deck) start;
        match r with
        | None => mret ()
        | Some start => visit_decks gen mask unmask indices start
        end
      else visit_decks gen mask unmask indices start
  end.

(** src/vm/slot_visitor.hpp:542-577 [visit_cards] *)
Definition visit_cards (gen : generation) (mask unmask : Z) : eff collector () :=
  c ← get_state;
  let heap_base := dh_start (data c) in
  let first_deck := (gen_start gen c -& heap_base) / deck_size in
  let last_deck := (gen_end gen c -& heap_base) / deck_size in
  visit_decks gen mask unmask (seqZ first_deck (last_deck - first_deck)) 0.

(** * Copying *)

(** src/vm/slot_visitor.hpp:592-595 [cheneys_algorithm] (part): One turn of
    the loop. *)
Definition cheney_body (gen : generation) (scan : Z) : eff collector (Z + ()) :=
  here ← get (gen_here gen);
  if negb (scan =? 0) && (scan <? here) then
    _ ← visit_object scan;
    c ← get_state;
    scan ← reads (λ m, gen_next_object_after gen c m scan);
    mret (inl scan)
  else mret (inr ()).

(** src/vm/slot_visitor.hpp:589-596 [cheneys_algorithm] *)
Definition cheneys_algorithm (gen : generation) (scan : Z) : eff collector () :=
  loop (cheney_body gen) scan.
End slot_visitor.
