(* ===== verification/Collectors.v ===== *)
(** The collections: the copiers of vm/nursery_collector.cpp,
    vm/aging_collector.cpp, vm/to_tenured_collector.{hpp,cpp} and
    vm/full_collector.cpp, and what each collection does with them.

    The timers and counters of gc events are not modelled. *)

From S2P Require Import Prelude.
From S2P Require Import Layouts.
From S2P Require Import MarkBits.
From S2P Require Import Memory.
From S2P Require Import Effects.
From S2P Require Import FreeList.
From S2P Require Import ObjectStartMap.
From S2P Require Import Spaces.
From S2P Require Import DataHeap.
From S2P Require Import Objects.
From S2P Require Import CodeBlocks.
From S2P Require Import SlotVisitor.
Local Open Scope cell_scope.

(** * Copiers *)

(** src/vm/nursery_collector.cpp:18-20 [nursery_copier] (part): The loop
    that follows forwarding pointers. *)
Definition follow_body (obj : Z) : eff collector (Z + Z) :=
  header ← reads (λ m, load m obj);
  mret (if forwarding_pointer_p header then inl (forwarding_pointer header) else inr obj).

Definition follow_forwarding (obj : Z) : eff collector Z := loop follow_body obj.

Definition with_aging (c : collector) (ag : aging_space) : collector := with_data c (set_aging (data c) ag).

Definition with_tenured (c : collector) (tn : tenured_space) : collector :=
  let d := data c in
  with_data c (mk_data_heap (dh_start d) (young_size d) (aging_size d) (tenured_size d) (seg d)
                 (nursery d) (aging d) (aging_semispace d) tn (cards d) (decks d)).

(** Allocation in aging space, and in tenured space, by a copier; the
    exception when there is no room. *)
Definition allot_in_aging (size : Z) : eff collector Z :=
  c ← get_state;
  '(ag, r) ← reads (λ _, aging_allot (aging (data c)) size);
  _ ← put_state (with_aging c ag);
  match r with
  | Some newpointer => mret newpointer
  | None => must_start_gc_again
  end.

Definition allot_in_tenured (size : Z) : eff collector Z :=
  c ← get_state;
  '(m, tn, r) ← reads (λ m, tenured_allot m (tenured (data c)) size);
  _ ← writes (λ _, Ok m);
  _ ← put_state (with_tenured c tn);
  match r with
  | Some newpointer => mret newpointer
  | None => must_start_gc_again
  end.

(** [memcpy(newpointer, obj, size)], and the forwarding pointer left behind. *)
Definition copy_and_forward (newpointer obj size : Z) : eff collector () :=
  _ ← writes (λ m, move_words m newpointer obj (Z.to_nat (size / 8)));
  writes (λ m, store m obj (forward_to newpointer)).

(** src/vm/nursery_collector.cpp:12-34 [nursery_copier::fixup_data] *)
Definition nursery_fixup_data (obj : Z) : eff collector Z :=
  nu ← get (λ c, nursery (data c));
  if negb (bump_contains_p nu obj) then mret obj
  else
    obj ← follow_forwarding obj;
    if negb (bump_contains_p nu obj) then mret obj
    else
      s ← reads (λ m, size m obj);
      newpointer ← allot_in_aging s;
      _ ← copy_and_forward newpointer obj s;
      mret newpointer.

(** src/vm/nursery_collector.cpp:5-35 [nursery_copier] (part) *)
Definition nursery_copier : Fixup := {|
  translated_code_block_map := false;
  fixup_data := nursery_fixup_data;
  fixup_code := mret;
  translate_data := no_translation;
  translate_code := Ok
|}.

(** src/vm/aging_collector.cpp:12-36 [to_aging_copier::fixup_data] *)
Definition to_aging_fixup_data (obj : Z) : eff collector Z :=
  d ← get data;
  let settled obj := bump_contains_p (ag_bump (aging d)) obj || contains_p (tn_alloc (tenured d)) obj in
  if settled obj then mret obj
  else
    obj ← follow_forwarding obj;
    if settled obj then mret obj
    else
      s ← reads (λ m, size m obj);
      newpointer ← allot_in_aging s;
      _ ← copy_and_forward newpointer obj s;
      mret newpointer.

(** src/vm/aging_collector.cpp:5-37 [to_aging_copier] (part) *)
Definition to_aging_copier : Fixup := {|
  translated_code_block_map := false;
  fixup_data := to_aging_fixup_data;
  fixup_code := mret;
  translate_data := no_translation;
  translate_code := Ok
|}.

Definition push_mark_stack (ptr : Z) : eff collector () :=
  modify (λ c, with_mark_stack c (mark_stack c ++ [ptr])).

(** src/vm/to_tenured_collector.hpp:11-36 [from_tenured_refs_copier::fixup_data] *)
Definition from_tenured_refs_fixup_data (obj : Z) : eff collector Z :=
  tn ← get (λ c, tn_alloc (tenured (data c)));
  if contains_p tn obj then mret obj
  else
    obj ← follow_forwarding obj;
    if contains_p tn obj then mret obj
    else
      s ← reads (λ m, size m obj);
      newpointer ← allot_in_tenured s;
      _ ← copy_and_forward newpointer obj s;
      _ ← push_mark_stack newpointer;
      mret newpointer.

(** src/vm/to_tenured_collector.hpp:3-37 [from_tenured_refs_copier] (part) *)
Definition from_tenured_refs_copier : Fixup := {|
  translated_code_block_map := false;
  fixup_data := from_tenured_refs_fixup_data;
  fixup_code := mret;
  translate_data := no_translation;
  translate_code := Ok
|}.

Definition with_tenured_state (c : collector) (state : mark_bits) : collector :=
  let fl := tn_alloc (tenured (data c)) in
  with_tenured c (mk_tenured
    (mk_free_list (fl_start fl) (fl_end fl) (fl_size fl) (small_blocks fl) (large_blocks fl)
       (free_block_count fl) (free_space fl) state)
    (tn_starts (tenured (data c)))).

(** src/vm/full_collector.cpp:17-20 [full_collection_copier] (part): An
    object of tenured space is marked and pushed once. *)
Definition mark_in_tenured (obj : Z) : eff collector () :=
  c ← get_state;
  marked ← reads (λ _, marked_p (fl_state (tn_alloc (tenured (data c)))) obj);
  if negb marked then
    s ← reads (λ m, size m obj);
    state ← reads (λ _, set_marked_p (fl_state (tn_alloc (tenured (data c)))) obj s);
    _ ← put_state (with_tenured_state c state);
    push_mark_stack obj
  else mret ().

(** src/vm/full_collector.cpp:15-48 [full_collection_copier::fixup_data] *)
Definition full_fixup_data (obj : Z) : eff collector Z :=
  tn ← get (λ c, tn_alloc (tenured (data c)));
  if contains_p tn obj then _ ← mark_in_tenured obj; mret obj
  else
    obj ← follow_forwarding obj;
    if contains_p tn obj then _ ← mark_in_tenured obj; mret obj
    else
      s ← reads (λ m, size m obj);
      newpointer ← allot_in_tenured s;
      _ ← copy_and_forward newpointer obj s;
      c ← get_state;
      s ← reads (λ m, size m newpointer);
      state ← reads (λ _, set_marked_p (fl_state (tn_alloc (tenured (data c)))) newpointer s);
      _ ← put_state (with_tenured_state c state);
      _ ← push_mark_stack newpointer;
      mret newpointer.

Definition with_code_state (c : collector) (state : mark_bits) : collector :=
  let fl := allocator (code c) in
  with_code c (set_all_blocks (code c)
    (mk_free_list (fl_start fl) (fl_end fl) (fl_size fl) (small_blocks fl) (large_blocks fl)
       (free_block_count fl) (free_space fl) state)
    (all_blocks (code c))).

(** src/vm/full_collector.cpp:50-56 [full_collection_copier::fixup_code] *)
Definition full_fixup_code (compiled : Z) : eff collector Z :=
  c ← get_state;
  marked ← reads (λ _, marked_p (fl_state (allocator (code c))) compiled);
  if negb marked then
    s ← reads (λ m, code_size m compiled);
    state ← reads (λ _, set_marked_p (fl_state (allocator (code c))) compiled s);
    _ ← put_state (with_code_state c state);
    _ ← push_mark_stack (compiled +& 1);
    mret compiled
  else mret compiled.

(** src/vm/full_collector.cpp:5-57 [full_collection_copier] (part) *)
Definition full_collection_copier : Fixup := {|
  translated_code_block_map := false;
  fixup_data := full_fixup_data;
  fixup_code := full_fixup_code;
  translate_data := no_translation;
  translate_code := Ok
|}.

(** * Generations *)

Definition tenured_generation : generation := mk_generation
  (λ c, fl_start (tn_alloc (tenured (data c)))) (λ c, fl_end (tn_alloc (tenured (data c))))
  (λ c, 0) (λ c, tn_starts (tenured (data c)))
  (λ c m scan, tenured_next_object_after size m (tenured (data c)) scan).

Definition aging_generation : generation := mk_generation
  (λ c, ba_start (ag_bump (aging (data c)))) (λ c, ba_end (ag_bump (aging (data c))))
  (λ c, here (ag_bump (aging (data c)))) (λ c, ag_starts (aging (data c)))
  (λ c m scan, aging_next_object_after size m (aging (data c)) scan).

(** * Collections *)

(** An operation on the data heap. *)
Definition on_data (f : data_heap → result data_heap) : eff collector () :=
  c ← get_state;
  d ← reads (λ _, f (data c));
  put_state (with_data c d).

Definition sorted_elements (s : gset Z) : list Z := (map_entries (set_to_map (λ x, (x, x)) s)).*1.

(** The address after the last object of aging space. *)
Definition aging_scan (c : collector) : Z :=
  let ag := ag_bump (aging (data c)) in
  ba_start ag +& bump_occupied_space ag.

(** src/vm/nursery_collector.cpp:37-71 [collect_nursery] *)
Definition collect_nursery (parent : vm_roots) : eff collector () :=
  let V := nursery_copier in
  scan ← get aging_scan;
  _ ← visit_all_roots (H := V) parent;
  _ ← visit_cards (H := V) tenured_generation card_points_to_nursery card_points_to_nursery;
  _ ← visit_cards (H := V) aging_generation card_points_to_nursery 0xff;
  remembered ← get (λ c, sorted_elements (points_to_nursery (code c)));
  _ ← visit_code_heap_roots (H := V) remembered;
  _ ← cheneys_algorithm (H := V) aging_generation scan;
  _ ← on_data (λ d, Ok (reset_nursery d));
  modify (λ c, with_code c (set_remembered (code c) ∅ (points_to_aging (code c)))).

(** src/vm/aging_collector.cpp:42-68 [collect_aging] (part): Objects that
    tenured space refers to are promoted. *)
Definition collect_aging_promote : eff collector () :=
  let V := from_tenured_refs_copier in
  _ ← visit_cards (H := V) tenured_generation card_points_to_aging 0xff;
  remembered ← get (λ c, sorted_elements (points_to_aging (code c)));
  _ ← visit_code_heap_roots (H := V) remembered;
  visit_mark_stack (H := V).

(** The aging spaces change places. *)
Definition swap_aging (d : data_heap) : data_heap :=
  mk_data_heap (dh_start d) (young_size d) (aging_size d) (tenured_size d) (seg d)
    (nursery d) (aging_semispace d) (aging d) (tenured d) (cards d) (decks d).

(** src/vm/aging_collector.cpp:69-87 [collect_aging] (part): The rest is
    copied to the other aging space. *)
Definition collect_aging_copy (parent : vm_roots) : eff collector () :=
  let V := to_aging_copier in
  _ ← on_data (λ d, Ok (swap_aging d));
  _ ← on_data reset_aging;
  scan ← get aging_scan;
  _ ← visit_all_roots (H := V) parent;
  _ ← cheneys_algorithm (H := V) aging_generation scan;
  _ ← on_data (λ d, Ok (reset_nursery d));
  modify (λ c, with_code c (clear_remembered_set (code c))).

(** src/vm/to_tenured_collector.cpp:5-35 [collect_to_tenured] *)
Definition collect_to_tenured (parent : vm_roots) : eff collector () :=
  let V := from_tenured_refs_copier in
  _ ← modify (λ c, with_mark_stack c []);
  _ ← visit_all_roots (H := V) parent;
  _ ← visit_cards (H := V) tenured_generation card_points_to_aging 0xff;
  remembered ← get (λ c, sorted_elements (points_to_aging (code c)));
  _ ← visit_code_heap_roots (H := V) remembered;
  _ ← visit_mark_stack (H := V);
  _ ← on_data (λ d, Ok (reset_nursery d));
  _ ← on_data reset_aging;
  modify (λ c, with_code c (clear_remembered_set (code c))).

(** src/vm/full_collector.cpp:59-85 [collect_mark_impl] *)
Definition collect_mark_impl (parent : vm_roots) : eff collector () :=
  let V := full_collection_copier in
  _ ← modify (λ c, with_mark_stack c []);
  _ ← modify (λ c, with_code_state c (clear_mark_bits (fl_state (allocator (code c)))));
  _ ← modify (λ c, with_tenured_state c (clear_mark_bits (fl_state (tn_alloc (tenured (data c))))));
  _ ← visit_all_roots (H := V) parent;
  _ ← visit_context_code_blocks (H := V) parent;
  _ ← visit_uninitialized_code_blocks (H := V);
  _ ← visit_mark_stack (H := V);
  _ ← on_data reset_tenured;
  _ ← on_data reset_aging;
  _ ← on_data (λ d, Ok (reset_nursery d));
  modify (λ c, with_code c (clear_remembered_set (code c))).

(** src/vm/full_collector.cpp:87-112 [collect_sweep_impl]: The code roots are
    returned with their new validity. *)
Definition collect_sweep_impl (code_roots : list code_root) : eff collector (list code_root) :=
  c ← get_state;
  '(m, tn) ← reads (λ m, tenured_sweep m (tenured (data c)));
  _ ← writes (λ _, Ok m);
  _ ← put_state (with_tenured c tn);
  let state := fl_state (allocator (code c)) in
  roots ← reads (λ _, foldr (λ r rs, r ← invalidate_code_root state r; rs ← rs; Ok (r :: rs)) (Ok []) code_roots);
  c ← get_state;
  '(m, ch) ← reads (λ m, code_sweep m (code c));
  _ ← writes (λ _, Ok m);
  _ ← put_state (with_code c ch);
  mret roots.
