(* ===== verification/Compaction.v ===== *)
(** Compaction of tenured space and of the code heap: vm/compaction.cpp.

    The fixup replaces an address by its image under the forwarding tables of
    the two heaps.  While a heap is being moved, what is below its finger has
    moved already and what is above has not: [translate_data] and
    [translate_code] say where the contents of an object are. *)

From S2P Require Import Prelude.
From S2P Require Import Layouts.
From S2P Require Import MarkBits.
From S2P Require Import Memory.
From S2P Require Import Effects.
From S2P Require Import FreeList.
From S2P Require Import ObjectStartMap.
From S2P Require Import Spaces.
From S2P Require Import DataHeap.
From S2P Require Import Objects.
From S2P Require Import CodeBlocks.
From S2P Require Import Relocation.
From S2P Require Import Callbacks.
From S2P Require Import SlotVisitor.
From S2P Require Import Collectors.
Local Open Scope cell_scope.

Section fixup.
Context (data_forwarding_map code_forwarding_map : mark_bits) (data_finger code_finger : Z).

(** src/vm/compaction.cpp:22-24 [compaction_fixup::fixup_data] *)
Definition compaction_fixup_data (obj : Z) : result Z := forward_block data_forwarding_map obj.

(** src/vm/compaction.cpp:26-28 [compaction_fixup::fixup_code] *)
Definition compaction_fixup_code (compiled : Z) : result Z := forward_block code_forwarding_map compiled.

(** src/vm/compaction.cpp:30-34 [compaction_fixup::translate_data] *)
Definition compaction_translate_data (obj : Z) : result Z :=
  if obj <? data_finger then compaction_fixup_data obj else Ok obj.

(** src/vm/compaction.cpp:36-40 [compaction_fixup::translate_code] *)
Definition compaction_translate_code (compiled : Z) : result Z :=
  if compiled <? code_finger then compaction_fixup_code compiled else Ok compiled.

(** src/vm/compaction.cpp:42-46 [compaction_fixup::size] *)
Definition compaction_data_size (m : memory) (obj : Z) : result Z :=
  marked ← marked_p data_forwarding_map obj;
  if (marked : bool) then size_with compaction_translate_data m obj
  else Ok (unmarked_block_size data_forwarding_map obj).

(** src/vm/compaction.cpp:48-52 [compaction_fixup::size] (part): of a code
    block. *)
Definition compaction_code_size (m : memory) (compiled : Z) : result Z :=
  marked ← marked_p code_forwarding_map compiled;
  if (marked : bool) then code_size m compiled
  else Ok (unmarked_block_size code_forwarding_map compiled).

(** src/vm/compaction.cpp:5-20 [compaction_fixup] (part) *)
Definition compaction_fixup : Fixup := {|
  translated_code_block_map := false;
  fixup_data := λ obj, reads (λ _, compaction_fixup_data obj);
  fixup_code := λ compiled, reads (λ _, compaction_fixup_code compiled);
  translate_data := compaction_translate_data;
  translate_code := compaction_translate_code
|}.
End fixup.

(** src/vm/compaction.cpp:63-73 [update_code_roots_for_compaction] (part):
    One root; [~data_alignment + 1] is [-16]. *)
Definition update_code_root (state : mark_bits) (root : code_root) : result code_root :=
  let block := Z.land (root_value root) (lnot64 data_alignment +& 1) in
  let offset := root_value root -& block in
  marked ← (if root_valid root then marked_p state block else Ok false);
  if (marked : bool) then
    block ← forward_block state block;
    Ok (mk_code_root (block +& offset) (root_valid root))
  else Ok (mk_code_root (root_value root) false).

(** src/vm/compaction.cpp:58-75 [update_code_roots_for_compaction] *)
Fixpoint update_code_roots_for_compaction (state : mark_bits) (roots : list code_root)
    : result (list code_root) :=
  match roots with
  | [] => Ok []
  | root :: roots =>
      root ← update_code_root state root;
      roots ← update_code_roots_for_compaction state roots;
      Ok (root :: roots)
  end.

(** An iterator of [compact] that is a computation of the visitor.  The fixup
    of compaction does not throw. *)
Definition as_iterator (c : eff collector ()) (st : memory * collector) : result (memory * collector) :=
  match c st with
  | Done st _ => Ok st
  | Again _ => Err CRITICAL_ERROR
  | Fatal e => Err e
  end.

Definition with_starts (c : collector) (starts : object_start_map) : collector :=
  with_tenured c (mk_tenured (tn_alloc (tenured (data c))) starts).

(** Replaces the free list of a heap after it has been compacted. *)
Definition with_tenured_alloc (c : collector) (fl : free_list_allocator) : collector :=
  with_tenured c (mk_tenured fl (tn_starts (tenured (data c)))).

Definition with_code_alloc (c : collector) (fl : free_list_allocator) : collector :=
  with_code c (set_all_blocks (code c) fl (all_blocks (code c))).

Section compaction.
Context `{!linkage} (b : barrier).

(** src/vm/compaction.cpp:111-117 [collect_compact_impl] (part):
    [compact_object_func], with the fixup of the current fingers. *)
Definition compact_object_func (V : Fixup) (new_addr : Z) : eff collector () :=
  _ ← visit_slots (H := V) new_addr;
  _ ← visit_object_code_block (H := V) new_addr;
  c ← get_state;
  starts ← reads (λ _, record_object_start_offset (tn_starts (tenured (data c))) new_addr);
  put_state (with_starts c starts).

(** src/vm/compaction.cpp:122-129 [collect_compact_impl] (part):
    [compact_code_func]. *)
Definition compact_code_func (V : Fixup) (old_addr new_addr : Z) : eff collector () :=
  _ ← visit_code_block_objects (H := V) new_addr;
  visit_instruction_operands (H := V) b new_addr (entry_point old_addr).

(** src/vm/compaction.cpp:118-118 [collect_compact_impl] (part): Tenured
    space is moved; the new [data_finger] is returned. *)
Definition compact_tenured (dm cm : mark_bits) (data_finger code_finger : Z) : eff collector Z := λ st,
  let fl := tn_alloc (tenured (data st.2)) in
  match
    compact (λ finger, compaction_data_size dm finger)
      (λ old_addr new_addr size, as_iterator
         (compact_object_func (compaction_fixup dm cm (old_addr +& size) code_finger) new_addr))
      st.1 fl data_finger st.2
  with
  | Ok (m, fl, data_finger, c) => Done (m, with_tenured_alloc c fl) data_finger
  | Err e => Fatal e
  end.

(** src/vm/compaction.cpp:130-130 [collect_compact_impl] (part): The code heap
    is moved; the new [code_finger] is returned. *)
Definition compact_code (dm cm : mark_bits) (data_finger code_finger : Z) : eff collector Z := λ st,
  let fl := allocator (code st.2) in
  match
    compact (λ _, compaction_code_size cm)
      (λ old_addr new_addr size, as_iterator
         (compact_code_func (compaction_fixup dm cm data_finger (old_addr +& size)) old_addr new_addr))
      st.1 fl code_finger st.2
  with
  | Ok (m, fl, code_finger, c) => Done (m, with_code_alloc c fl) code_finger
  | Err e => Fatal e
  end.

(** src/vm/compaction.cpp:141-145 [collect_compact_impl] (part): Updates the
    stubs of the callback heap. *)
Definition update_callbacks (parent : vm_roots) : eff collector () :=
  writes (λ m,
    '(m, _) ← iterate (λ _, code_size) (λ stub _ st, m ← callback_update st.1 stub; Ok (m, ()))
                (callbacks_allocator parent) m ();
    Ok m).

(** src/vm/compaction.cpp:78-151 [collect_compact_impl]: The code roots are
    returned with their new values.  The forwarding tables stay the same
    while the heaps are moved. *)
Definition collect_compact_impl (parent : vm_roots) (code_roots : list code_root)
    : eff collector (list code_root) :=
  c ← get_state;
  _ ← reads (λ m, verify_all_blocks_set m (code c));
  let dm := compute_forwarding (fl_state (tn_alloc (tenured (data c)))) in
  let cm := compute_forwarding (fl_state (allocator (code c))) in
  _ ← put_state (with_code_state (with_tenured_state c dm) cm);
  let data_finger := fl_start (tn_alloc (tenured (data c))) in
  let code_finger := fl_start (allocator (code c)) in
  _ ← visit_uninitialized_code_blocks (H := compaction_fixup dm cm data_finger code_finger);
  _ ← modify (λ c, with_starts c (clear_object_start_offsets (tn_starts (tenured (data c)))));
  data_finger ← compact_tenured dm cm data_finger code_finger;
  code_finger ← compact_code dm cm data_finger code_finger;
  let V := compaction_fixup dm cm data_finger code_finger in
  _ ← visit_all_roots (H := V) parent;
  _ ← visit_context_code_blocks (H := V) parent;
  roots ← reads (λ _, update_code_roots_for_compaction cm code_roots);
  _ ← update_callbacks parent;
  c ← get_state;
  ch ← reads (λ m, initialize_all_blocks_set m (code c));
  _ ← put_state (with_code c ch);
  mret roots.
End compaction.
