(* ===== verification/Frames.v ===== *)
(** What a collection leaves alone.

    A property of the collector's state that does not depend on the code heap,
    the mark stack, the counters and the cards, and that the fixup keeps, is
    kept by every operation of the slot visitor. *)

From S2P Require Import Prelude.
From S2P Require Import Layouts.
From S2P Require Import MarkBits.
From S2P Require Import Memory.
From S2P Require Import Effects.
From S2P Require Import FreeList.
From S2P Require Import ObjectStartMap.
From S2P Require Import Spaces.
From S2P Require Import DataHeap.
From S2P Require Import Objects.
From S2P Require Import CodeBlocks.
From S2P Require Import Relocation.
From S2P Require Import SlotVisitor.
From S2P Require Import Collectors.
From S2P Require Import Compaction.

(** * Walks over call frames and operands *)

Section walks.
Context {X : Type} (P : X → Prop).

Lemma stays_each_instruction_operand iter block :
  (∀ op, stays P (iter op)) → stays P (each_instruction_operand iter block).
Proof.
  intros Hi. unfold each_instruction_operand. stays.
  assert (∀ count i index, stays P (each_operand_loop iter block a0 count i index)) as H; [|apply H].
  intros count. induction count as [|count IH]; intros i index; cbn [each_operand_loop]; stays; auto.
Qed.

Lemma stays_iterate_callstack_object code t tr iterator stack :
  (∀ a b c d, stays P (iterator a b c d)) → stays P (iterate_callstack_object code t tr iterator stack).
Proof. intros Hi. unfold iterate_callstack_object, callstack_object_body. stays; auto. Qed.

Lemma stays_iterate_callstack code t tr iterator top bottom :
  (∀ a b c d, stays P (iterator a b c d)) → stays P (iterate_callstack code t tr iterator top bottom).
Proof. intros Hi. unfold iterate_callstack, callstack_body. stays; auto. Qed.
End walks.

(** * The slot visitor *)

(** The properties in question. *)
Class framed (P : collector → Prop) : Prop := {
  framed_code : ∀ c ch, P c → P (with_code c ch);
  framed_mark_stack : ∀ c ms, P c → P (with_mark_stack c ms);
  framed_counters : ∀ c n k, P c → P (with_counters c n k);
  framed_cards : ∀ c cs ds, P c → P (with_data c (set_cards (data c) cs ds))
}.

Section visitor.
Context {V : Fixup} (P : collector → Prop) {HP : framed P}.

Lemma P_code c ch : P c → P (with_code c ch).
Proof using HP. apply framed_code. Qed.
Lemma P_mark_stack c ms : P c → P (with_mark_stack c ms).
Proof using HP. apply framed_mark_stack. Qed.
Lemma P_counters c n k : P c → P (with_counters c n k).
Proof using HP. apply framed_counters. Qed.
Lemma P_cards c cs ds : P c → P (with_data c (set_cards (data c) cs ds)).
Proof using HP. apply framed_cards. Qed.
#[local] Hint Resolve P_code P_mark_stack P_counters P_cards : stays.

Context (Hdata : ∀ obj, stays P (fixup_data obj)) (Hcode : ∀ block, stays P (fixup_code block)).

Lemma stays_get_field {A B} (f : collector → A) (k : A → eff collector B) :
  (∀ a, stays P (k a)) → stays P (a ← get f; k a).
Proof. intros Hk. unfold get. apply stays_bind; [stays|done]. Qed.

Lemma stays_modify f : (∀ c, P c → P (f c)) → stays P (modify f).
Proof. intros Hf. unfold modify. stays; auto. Qed.

Lemma stays_visit_pointer pointer : stays P (visit_pointer pointer).
Proof using Hdata. unfold visit_pointer. stays. Qed.

Lemma stays_visit_handle handle : stays P (visit_handle handle).
Proof using Hdata. unfold visit_handle. pose proof stays_visit_pointer. stays. Qed.

Lemma stays_visit_object_array start end_ : stays P (visit_object_array start end_).
Proof using Hdata. unfold visit_object_array. pose proof stays_visit_handle. stays. Qed.

Lemma stays_call_frame_slot_visitor a b c d : stays P (call_frame_slot_visitor a b c d).
Proof using Hdata.
  unfold call_frame_slot_visitor, update_derived_roots. pose proof stays_visit_handle. stays.
Qed.

Lemma stays_visit_slots obj : stays P (visit_slots obj).
Proof using Hdata.
  unfold visit_slots, visit_callstack_object, get. pose proof stays_visit_object_array. stays.
  apply stays_iterate_callstack_object, stays_call_frame_slot_visitor.
Qed.

Lemma stays_visit_object obj : stays P (visit_object obj).
Proof using Hdata. unfold visit_object. pose proof stays_visit_slots. stays. Qed.

Lemma stays_visit_context ctx : stays P (visit_context ctx).
Proof using Hdata.
  unfold visit_context, visit_callstack, visit_stack_elements, get. pose proof stays_visit_object_array.
  stays. apply stays_iterate_callstack, stays_call_frame_slot_visitor.
Qed.

Lemma stays_visit_all_roots parent : stays P (visit_all_roots parent).
Proof using Hdata HP.
  unfold visit_all_roots, get, modify.
  pose proof stays_visit_handle. pose proof stays_visit_pointer. pose proof stays_visit_object_array.
  pose proof stays_visit_context. stays; unfold with_uninitialized; auto with stays.
Qed.

Lemma stays_visit_code_block_objects block : stays P (visit_code_block_objects block).
Proof using Hdata. unfold visit_code_block_objects. pose proof stays_visit_handle. stays. Qed.

Lemma stays_visit_embedded_literals block : stays P (visit_embedded_literals block).
Proof using Hdata.
  unfold visit_embedded_literals, get. pose proof stays_visit_pointer. stays.
  apply stays_each_instruction_operand. stays.
Qed.

Lemma stays_visit_object_code_block obj : stays P (visit_object_code_block obj).
Proof using Hcode.
  unfold visit_object_code_block, visit_entry_point, get. stays.
  apply stays_iterate_callstack_object. unfold call_frame_code_block_visitor. stays.
Qed.

Lemma stays_visit_context_code_blocks parent : stays P (visit_context_code_blocks parent).
Proof using Hcode.
  unfold visit_context_code_blocks, get. stays.
  apply stays_iterate_callstack. unfold call_frame_code_block_visitor. stays.
Qed.

Lemma stays_visit_uninitialized_code_blocks : stays P visit_uninitialized_code_blocks.
Proof using Hcode HP.
  unfold visit_uninitialized_code_blocks, get, modify.
  stays; [|unfold with_uninitialized; auto with stays].
  generalize (∅ : gmap Z Z). induction (map_entries _) as [|e l IH]; intros new; cbn [foldr]; stays; auto.
Qed.

Lemma stays_visit_embedded_code_pointers block : stays P (visit_embedded_code_pointers block).
Proof using Hcode. unfold visit_embedded_code_pointers, get. stays. apply stays_each_instruction_operand. stays. Qed.

Lemma stays_visit_instruction_operands `{!linkage} b block base :
  stays P (visit_instruction_operands b block base).
Proof using Hdata Hcode.
  unfold visit_instruction_operands, get. pose proof stays_visit_pointer. stays.
  apply stays_each_instruction_operand. stays.
Qed.

Lemma stays_visit_code_heap_roots l : stays P (visit_code_heap_roots l).
Proof using Hdata.
  unfold visit_code_heap_roots. pose proof stays_visit_code_block_objects.
  pose proof stays_visit_embedded_literals. stays.
Qed.

Lemma stays_visit_mark_stack : stays P visit_mark_stack.
Proof using Hdata Hcode HP.
  unfold visit_mark_stack, mark_stack_body, get, modify.
  pose proof stays_visit_code_block_objects. pose proof stays_visit_embedded_literals.
  pose proof stays_visit_embedded_code_pointers. pose proof stays_visit_object.
  pose proof stays_visit_object_code_block. stays; auto with stays.
Qed.

Lemma stays_visit_card gen index start : stays P (visit_card gen index start).
Proof using Hdata.
  unfold visit_card, card_objects_body, visit_partial_objects. pose proof stays_visit_object_array. stays.
Qed.

Lemma stays_visit_cards gen mask unmask : stays P (visit_cards gen mask unmask).
Proof using Hdata HP.
  assert (∀ indices start, stays P (visit_cards_of_deck gen mask unmask indices start)) as Hdeck.
  { induction indices as [|ci l IH]; intros start; cbn [visit_cards_of_deck]; [stays|].
    pose proof stays_visit_card. unfold modify. stays; auto with stays.
    apply (P_cards (with_counters x0 _ _)). auto with stays. }
  unfold visit_cards. stays. generalize 0. induction (seqZ _ _) as [|di l IH]; intros start; cbn [visit_decks]; [stays|].
  unfold modify. stays; auto with stays.
  apply (P_cards (with_counters x1 _ _)). auto with stays.
Qed.

Lemma stays_cheneys_algorithm gen scan : stays P (cheneys_algorithm gen scan).
Proof using Hdata. unfold cheneys_algorithm, cheney_body, get. pose proof stays_visit_object. stays. Qed.
End visitor.

(** * The nursery

    The collections leave the nursery and the sizes of the generations alone,
    but for emptying the nursery. *)

Definition heap_sizes (d : data_heap) : Z * Z * Z := (young_size d, aging_size d, tenured_size d).

Section young.
Context (Q : bump_allocator → Z * Z * Z → Prop).

Definition young (c : collector) : Prop := Q (nursery (data c)) (heap_sizes (data c)).

#[export] Instance young_framed : framed young.
Proof. split; by intros. Qed.

Lemma stays_follow_forwarding obj : stays young (follow_forwarding obj).
Proof. unfold follow_forwarding, follow_body. stays. Qed.

Lemma stays_allot_in_aging size : stays young (allot_in_aging size).
Proof. unfold allot_in_aging. stays; done. Qed.

Lemma stays_allot_in_tenured size : stays young (allot_in_tenured size).
Proof. unfold allot_in_tenured. stays; done. Qed.

Lemma stays_copy_and_forward newpointer obj size : stays young (copy_and_forward newpointer obj size).
Proof. unfold copy_and_forward. stays. Qed.

Lemma stays_push_mark_stack ptr : stays young (push_mark_stack ptr).
Proof. unfold push_mark_stack, modify. stays; done. Qed.

#[local] Hint Resolve stays_follow_forwarding stays_allot_in_aging stays_allot_in_tenured
  stays_copy_and_forward stays_push_mark_stack : stays.

Lemma stays_nursery_fixup obj : stays young (nursery_fixup_data obj).
Proof. unfold nursery_fixup_data, get. stays. Qed.

Lemma stays_to_aging_fixup obj : stays young (to_aging_fixup_data obj).
Proof. unfold to_aging_fixup_data, get. stays. Qed.

Lemma stays_from_tenured_refs_fixup obj : stays young (from_tenured_refs_fixup_data obj).
Proof. unfold from_tenured_refs_fixup_data, get. stays. Qed.

Lemma stays_mark_in_tenured obj : stays young (mark_in_tenured obj).
Proof. unfold mark_in_tenured. stays; done. Qed.
#[local] Hint Resolve stays_mark_in_tenured : stays.

Lemma stays_full_fixup obj : stays young (full_fixup_data obj).
Proof. unfold full_fixup_data, get. stays; done. Qed.

Lemma stays_full_fixup_code block : stays young (full_fixup_code block).
Proof. unfold full_fixup_code. stays; done. Qed.

Lemma stays_on_data f : (∀ d d', f d = Ok d' → nursery d' = nursery d ∧ heap_sizes d' = heap_sizes d) →
  stays young (on_data f).
Proof.
  intros Hf s Hs. unfold on_data, mbind, eff_bind, get_state, reads, put_state. cbn.
  destruct (f (data s.2)) as [d|] eqn:E; [|done]. destruct (Hf _ _ E) as [E1 E2]. unfold young. cbn. by rewrite E1, E2.
Qed.

Lemma reset_aging_young d d' : reset_aging d = Ok d' → nursery d' = nursery d ∧ heap_sizes d' = heap_sizes d.
Proof.
  unfold reset_aging, clear_cards, clear_decks. intros E.
  repeat (apply result_bind_inv in E as (? & E1 & E);
    repeat (apply result_bind_inv in E1 as (? & ? & E1)); apply Ok_inj in E1; subst).
  apply Ok_inj in E. by subst.
Qed.

Lemma reset_tenured_young d d' : reset_tenured d = Ok d' → nursery d' = nursery d ∧ heap_sizes d' = heap_sizes d.
Proof.
  unfold reset_tenured, clear_cards, clear_decks. intros E.
  apply result_bind_inv in E as (? & E1 & E). apply result_bind_inv in E1 as (? & ? & E1).
  apply Ok_inj in E1. subst. apply result_bind_inv in E as (? & ? & E). apply Ok_inj in E. by subst.
Qed.

Lemma stays_reset_aging : stays young (on_data reset_aging).
Proof. apply stays_on_data, reset_aging_young. Qed.

Lemma stays_reset_tenured : stays young (on_data reset_tenured).
Proof. apply stays_on_data, reset_tenured_young. Qed.

Lemma stays_swap_aging : stays young (on_data (λ d, Ok (swap_aging d))).
Proof. apply stays_on_data. intros d d' E%Ok_inj. by subst. Qed.

Lemma stays_modify_young f : (∀ c, nursery (data (f c)) = nursery (data c) ∧ heap_sizes (data (f c)) = heap_sizes (data c)) →
  stays young (modify f).
Proof. intros Hf. apply stays_modify. unfold young. intros c Hc. destruct (Hf c) as [-> ->]. done. Qed.

#[local] Opaque while_loop.

(** Compaction of a heap with an iterator that keeps a property. *)
Lemma iterate_body_keeps {X} (P : X → Prop) fixup_size iter fl_end st :
  (∀ block size st st', P st.2 → iter block size st = Ok st' → P st'.2) →
  P st.1.2 →
  match iterate_body fixup_size iter fl_end st with
  | inl st' => P st'.1.2
  | inr (Ok st') => P st'.2
  | inr (Err _) => True
  end.
Proof.
  intros Hi. destruct st as [[m x] scan]. intros Hx. cbn in Hx. unfold iterate_body.
  destruct (scan =? fl_end); [done|].
  destruct (fixup_size x m scan) as [size|]; [|done]. cbn [mbind result_bind].
  destruct (load m scan) as [header|]; [|done]. cbn [mbind result_bind].
  destruct (negb (free_p header)); [|done].
  destruct (iter scan size (m, x)) as [[m' x']|] eqn:E; [|done]. cbn. by apply Hi in E.
Qed.

Lemma iterate_keeps {X} (P : X → Prop) fixup_size iter fl m x m' x' :
  (∀ block size st st', P st.2 → iter block size st = Ok st' → P st'.2) →
  P x → iterate fixup_size iter fl m x = Ok (m', x') → P x'.
Proof.
  intros Hi Hx. unfold iterate. intros (r & E & ->)%result_bind_inv.
  set (body := iterate_body _ _ _) in E.
  assert (∀ st, P st.1.2 → match body st with
    | inl st' => P st'.1.2 | inr (Ok st') => P st'.2 | inr (Err _) => True end) as Hb
    by (intros st; by apply iterate_body_keeps).
  clearbody body.
  apply (while_loop_inv body (λ st, P st.1.2)
    (λ r, match r with Ok st' => P st'.2 | Err _ => True end)) in E; [done| |done].
  intros st Hst. specialize (Hb st Hst). by destruct (body st) as [|[]].
Qed.

Lemma compact_keeps {X} (P : X → Prop) fixup_size iter m fl finger x m' fl' finger' x' :
  (∀ old new size st st', P st.2 → iter old new size st = Ok st' → P st'.2) →
  P x → compact fixup_size iter m fl finger x = Ok (m', fl', finger', x') → P x'.
Proof.
  intros Hi Hx E. unfold compact in E.
  apply result_bind_inv in E as ([m1 [[f1 d1] x1]] & E1 & E).
  apply result_bind_inv in E as ([m2 fl2] & _ & E). apply Ok_inj in E. simplify_eq.
  apply (iterate_keeps (λ st, P st.2)) in E1; [done| |done].
  intros block size [m3 [[f3 d3] x3]] [m4 [[f4 d4] x4]] H3 E3. cbn [snd] in *.
  unfold compact_block in E3. apply result_bind_inv in E3 as (mk & _ & E3).
  destruct mk; cbn [negb] in E3; [|apply Ok_inj in E3; by simplify_eq].
  apply result_bind_inv in E3 as (m5 & _ & E3). apply result_bind_inv in E3 as ([m6 x6] & E6 & E3).
  apply Ok_inj in E3. simplify_eq. by apply Hi in E6.
Qed.

Lemma as_iterator_keeps (P : collector → Prop) c st st' :
  stays P c → P st.2 → as_iterator c st = Ok st' → P st'.2.
Proof.
  intros Hc Hs E. specialize (Hc st Hs). unfold as_iterator in E. destruct (c st); [|done|done].
  apply Ok_inj in E. by subst.
Qed.

Section compacting.
Context `{!linkage} (b : barrier) (dm cm : mark_bits).

Lemma stays_compaction_data df cf obj : stays young (fixup_data (Fixup := compaction_fixup dm cm df cf) obj).
Proof. cbn. stays. Qed.
Lemma stays_compaction_code df cf block : stays young (fixup_code (Fixup := compaction_fixup dm cm df cf) block).
Proof. cbn. stays. Qed.
#[local] Hint Resolve stays_compaction_data stays_compaction_code : stays.

Lemma stays_compact_tenured df cf : stays young (compact_tenured dm cm df cf).
Proof.
  intros s Hs. unfold compact_tenured.
  destruct (compact _ _ _ _ _ _) as [[[[m fl] finger] c]|] eqn:E; [|done]. cbn.
  apply (compact_keeps young) in E; [done| |done]. intros old new size st st' Hst. apply as_iterator_keeps; [|done].
  unfold compact_object_func.
  apply stays_bind; [apply stays_visit_slots, stays_compaction_data|intros _].
  apply stays_bind; [apply stays_visit_object_code_block, stays_compaction_code|intros _].
  stays; done.
Qed.

Lemma stays_compact_code df cf : stays young (compact_code b dm cm df cf).
Proof.
  intros s Hs. unfold compact_code.
  destruct (compact _ _ _ _ _ _) as [[[[m fl] finger] c]|] eqn:E; [|done]. cbn.
  apply (compact_keeps young) in E; [done| |done]. intros old new size st st' Hst. apply as_iterator_keeps; [|done].
  unfold compact_code_func.
  apply stays_bind; [apply stays_visit_code_block_objects, stays_compaction_data|intros _].
  apply stays_visit_instruction_operands; [apply stays_compaction_data|apply stays_compaction_code].
Qed.

End compacting.

Lemma stays_collect_compact_impl `{!linkage} b parent roots : stays young (collect_compact_impl b parent roots).
Proof.
  unfold collect_compact_impl. apply stays_get. intros c Hc. apply stays_bind; [stays|intros _]. cbv zeta.
  apply stays_bind; [by apply stays_put|intros _].
  apply stays_bind; [apply stays_visit_uninitialized_code_blocks; [exact _|apply stays_compaction_code]|intros _].
  apply stays_bind; [by apply stays_modify_young|intros _].
  apply stays_bind; [apply stays_compact_tenured|intros df].
  apply stays_bind; [apply stays_compact_code|intros cf].
  apply stays_bind; [apply stays_visit_all_roots; [exact _|apply stays_compaction_data]|intros _].
  apply stays_bind; [apply stays_visit_context_code_blocks, stays_compaction_code|intros _].
  unfold update_callbacks. stays; done.
Qed.

(** ** The collections *)

Lemma stays_collect_aging_promote : stays young collect_aging_promote.
Proof.
  pose proof stays_from_tenured_refs_fixup. unfold collect_aging_promote. cbv zeta.
  apply stays_bind; [by apply stays_visit_cards|intros _]. unfold get. apply stays_bind; [stays|intros l].
  apply stays_bind; [by apply stays_visit_code_heap_roots|intros _].
  apply stays_visit_mark_stack; [exact _|done|]. intros block. cbn. stays.
Qed.

Lemma stays_collect_sweep_impl roots : stays young (collect_sweep_impl roots).
Proof. unfold collect_sweep_impl. stays; done. Qed.

Section emptying.
Context (HQ : ∀ n y, Q n y → Q (flush n) y).

Lemma stays_reset_nursery : stays young (on_data (λ d, Ok (reset_nursery d))).
Proof using HQ. intros s Hs. cbn. by apply HQ. Qed.

Lemma stays_collect_nursery parent : stays young (collect_nursery parent).
Proof using HQ.
  pose proof stays_nursery_fixup as Hf. unfold collect_nursery. cbv zeta. unfold get.
  apply stays_bind; [stays|intros scan].
  apply stays_bind; [by apply stays_visit_all_roots|intros _].
  apply stays_bind; [by apply stays_visit_cards|intros _].
  apply stays_bind; [by apply stays_visit_cards|intros _].
  apply stays_bind; [stays|intros l].
  apply stays_bind; [by apply stays_visit_code_heap_roots|intros _].
  apply stays_bind; [by apply stays_cheneys_algorithm|intros _].
  apply stays_bind; [apply stays_reset_nursery|intros _]. by apply stays_modify_young.
Qed.

Lemma stays_collect_aging_copy parent : stays young (collect_aging_copy parent).
Proof using HQ.
  pose proof stays_to_aging_fixup. unfold collect_aging_copy. cbv zeta. unfold get.
  apply stays_bind; [apply stays_swap_aging|intros _].
  apply stays_bind; [apply stays_reset_aging|intros _].
  apply stays_bind; [stays|intros scan].
  apply stays_bind; [by apply stays_visit_all_roots|intros _].
  apply stays_bind; [by apply stays_cheneys_algorithm|intros _].
  apply stays_bind; [apply stays_reset_nursery|intros _]. by apply stays_modify_young.
Qed.

Lemma stays_collect_to_tenured parent : stays young (collect_to_tenured parent).
Proof using HQ.
  pose proof stays_from_tenured_refs_fixup. unfold collect_to_tenured. cbv zeta. unfold get.
  apply stays_bind; [by apply stays_modify_young|intros _].
  apply stays_bind; [by apply stays_visit_all_roots|intros _].
  apply stays_bind; [by apply stays_visit_cards|intros _].
  apply stays_bind; [stays|intros l].
  apply stays_bind; [by apply stays_visit_code_heap_roots|intros _].
  apply stays_bind; [apply stays_visit_mark_stack; [exact _|done|intros block; cbn; stays]|intros _].
  apply stays_bind; [apply stays_reset_nursery|intros _].
  apply stays_bind; [apply stays_reset_aging|intros _]. by apply stays_modify_young.
Qed.

Lemma stays_collect_mark_impl parent : stays young (collect_mark_impl parent).
Proof using HQ.
  pose proof stays_full_fixup. pose proof stays_full_fixup_code. unfold collect_mark_impl. cbv zeta.
  do 3 (apply stays_bind; [by apply stays_modify_young|intros _]).
  apply stays_bind; [by apply stays_visit_all_roots|intros _].
  apply stays_bind; [by apply stays_visit_context_code_blocks|intros _].
  apply stays_bind; [by apply stays_visit_uninitialized_code_blocks|intros _].
  apply stays_bind; [by apply stays_visit_mark_stack|intros _].
  apply stays_bind; [apply stays_reset_tenured|intros _].
  apply stays_bind; [apply stays_reset_aging|intros _].
  apply stays_bind; [apply stays_reset_nursery|intros _]. by apply stays_modify_young.
Qed.
End emptying.

(** They end with the nursery empty. *)
Section emptied.
Context (HQ : ∀ n y, Q (flush n) y).

Lemma after_reset_nursery {A} (f : () → eff collector A) :
  (∀ a, stays young (f a)) → after young (a ← on_data (λ d, Ok (reset_nursery d)); f a).
Proof using HQ. intros Hf. apply after_then; [|done]. intros s. cbn. apply HQ. Qed.

Lemma after_collect_nursery parent : after young (collect_nursery parent).
Proof using HQ.
  unfold collect_nursery. cbv zeta. do 7 (apply after_bind; intros ?).
  apply after_reset_nursery. intros _. by apply stays_modify_young.
Qed.

Lemma after_collect_aging_copy parent : after young (collect_aging_copy parent).
Proof using HQ.
  unfold collect_aging_copy. cbv zeta. do 5 (apply after_bind; intros ?).
  apply after_reset_nursery. intros _. by apply stays_modify_young.
Qed.

Lemma after_collect_to_tenured parent : after young (collect_to_tenured parent).
Proof using HQ.
  unfold collect_to_tenured. cbv zeta. do 6 (apply after_bind; intros ?).
  apply after_reset_nursery. intros _. apply stays_bind; [apply stays_reset_aging|intros _]. by apply stays_modify_young.
Qed.

Lemma after_collect_mark_impl parent : after young (collect_mark_impl parent).
Proof using HQ.
  unfold collect_mark_impl. cbv zeta. do 9 (apply after_bind; intros ?).
  apply after_reset_nursery. intros _. by apply stays_modify_young.
Qed.
End emptied.
End young.
