(* ===== verification/GC.v ===== *)
(** The driver of the collections and allocation: vm/gc.cpp, vm/allot.hpp, and
    the parts of vm/full_collector.cpp, vm/aging_collector.cpp and
    vm/compaction.cpp that choose what to do next.

    A collection that runs out of room throws [must_start_gc_again]; the
    driver then tries a collection of more generations.  The state of the
    driver is the operation under way ([current_gc->op]).

    Gc events (timers and counters) are not modelled.  The operating system's
    part in growing the heap is the class [os_memory]. *)

From S2P Require Import Prelude.
From S2P Require Import Layouts.
From S2P Require Import MarkBits.
From S2P Require Import Memory.
From S2P Require Import Bytes.
From S2P Require Import Effects.
From S2P Require Import FreeList.
From S2P Require Import ObjectStartMap.
From S2P Require Import Spaces.
From S2P Require Import DataHeap.
From S2P Require Import Objects.
From S2P Require Import CodeBlocks.
From S2P Require Import Relocation.
From S2P Require Import Callbacks.
From S2P Require Import SlotVisitor.
From S2P Require Import Collectors.
From S2P Require Import Compaction.
From S2P Require Import Frames.
Local Open Scope cell_scope.

(** * State *)

(** src/vm/gc.hpp:6-13 [gc_op] *)
Inductive gc_op :=
  | COLLECT_NURSERY_OP
  | COLLECT_AGING_OP
  | COLLECT_TO_TENURED_OP
  | COLLECT_FULL_OP
  | COLLECT_COMPACT_OP
  | COLLECT_GROWING_DATA_HEAP_OP.

#[export] Instance gc_op_eq_dec : EqDecision gc_op.
Proof. solve_decision. Defined.

(** src/vm/vm.hpp:91-105 [factor_vm] (part): The fields of the vm that the
    driver uses.  [current_gc] is the operation of the [gc_state], if there is
    one; [border_locked] is the state of the guard pages of the call stack, if
    there is a context. *)
Record gc_vm := mk_gc_vm {
  collection : collector;
  gc_barrier : barrier;
  code_roots : list code_root;
  gc_off : bool;
  current_gc : option gc_op;
  current_gc_p : bool;
  border_locked : option bool
}.

Definition with_collection (v : gc_vm) (c : collector) : gc_vm :=
  mk_gc_vm c (gc_barrier v) (code_roots v) (gc_off v) (current_gc v) (current_gc_p v) (border_locked v).
Definition with_barrier (v : gc_vm) (b : barrier) : gc_vm :=
  mk_gc_vm (collection v) b (code_roots v) (gc_off v) (current_gc v) (current_gc_p v) (border_locked v).
Definition with_code_roots (v : gc_vm) (roots : list code_root) : gc_vm :=
  mk_gc_vm (collection v) (gc_barrier v) roots (gc_off v) (current_gc v) (current_gc_p v) (border_locked v).
Definition with_current_gc (v : gc_vm) (op : option gc_op) : gc_vm :=
  mk_gc_vm (collection v) (gc_barrier v) (code_roots v) (gc_off v) op (current_gc_p v) (border_locked v).
Definition with_flags (v : gc_vm) (p locked : bool) : gc_vm :=
  mk_gc_vm (collection v) (gc_barrier v) (code_roots v) (gc_off v) (current_gc v) p
    ((λ _, locked) <$> border_locked v).

Definition heap_of (v : gc_vm) : data_heap := data (collection v).

(** A segment of the given size for a new heap, with the memory that has its
    words, and the addresses of the card and deck arrays; [None] when there is
    no room.  User addresses have 47 bits. *)
Class os_memory := {
  map_segment : memory → Z → option (memory * Z);
  cards_array : data_heap → Z;
  decks_array : data_heap → Z
}.

(** [munmap] of the segment of a heap. *)
Definition unmap (m : memory) (s : segment) : memory :=
  filter (λ kv, ¬ (seg_start s ≤ kv.1 < seg_end s)) m.

(** * Computations on the driver's state *)

Definition get_vm {A} (f : gc_vm → A) : eff gc_vm A := v ← get_state; mret (f v).
Definition modify_vm (f : gc_vm → gc_vm) : eff gc_vm () := v ← get_state; put_state (f v).

(** A computation of a collector. *)
Definition collect {A} (c : eff collector A) : eff gc_vm A := λ s,
  match c (s.1, collection s.2) with
  | Done s' a => Done (s'.1, with_collection s.2 s'.2) a
  | Again s' => Again (s'.1, with_collection s.2 s'.2)
  | Fatal e => Fatal e
  end.

(** [try { c } catch (must_start_gc_again) { handler }] *)
Definition catch {X A} (c handler : eff X A) : eff X A := λ s,
  match c s with
  | Done s' a => Done s' a
  | Again s' => handler s'
  | Fatal e => Fatal e
  end.

(** * The collections *)

Section driver.
Context `{!linkage, !os_memory} (parent : vm_roots).

(** src/vm/gc.cpp:61-65 [set_current_gc_op] *)
Definition set_current_gc_op (op : gc_op) : eff gc_vm () := modify_vm (λ v, with_current_gc v (Some op)).

Definition fragmented : eff gc_vm bool :=
  dh ← get_vm heap_of;
  reads (λ m, high_fragmentation_p m dh).

(** src/vm/aging_collector.cpp:39-88 [collect_aging] *)
Definition collect_aging : eff gc_vm () :=
  _ ← set_current_gc_op COLLECT_TO_TENURED_OP;
  _ ← collect collect_aging_promote;
  _ ← set_current_gc_op COLLECT_AGING_OP;
  collect (collect_aging_copy parent).

Definition collect_compact_roots : eff gc_vm () :=
  roots ← get_vm code_roots;
  b ← get_vm gc_barrier;
  roots ← collect (collect_compact_impl b parent roots);
  modify_vm (λ v, with_code_roots v roots).

(** The bytes of the segment of a heap. *)
Definition heap_bytes (young aging tenured : Z) : Z :=
  (align young deck_size +& (2 *& align aging deck_size)) +& align tenured deck_size +& deck_size.

(** src/vm/compaction.cpp:168-168 [collect_growing_data_heap] (part): The new
    heap becomes that of the vm. *)
Definition grow_data_heap (requested_size : Z) : eff gc_vm data_heap :=
  old ← get_vm heap_of;
  let bytes := heap_bytes (young_size old) (aging_size old) ((2 *& tenured_size old) +& requested_size) in
  '(m, address) ← reads (λ m, match map_segment m bytes with Some r => Ok r | None => Err FATAL_ERROR end);
  '(m, dh) ← reads (λ _, grow m old address requested_size);
  _ ← writes (λ _, Ok m);
  _ ← modify_vm (λ v, with_barrier (with_collection v (with_data (collection v) dh))
                        (set_data_heap dh (cards_array dh) (decks_array dh)));
  mret old.

(** src/vm/compaction.cpp:165-174 [collect_growing_data_heap] *)
Definition collect_growing_data_heap (requested_size : Z) : eff gc_vm () :=
  old ← grow_data_heap requested_size;
  _ ← collect (collect_mark_impl parent);
  _ ← collect_compact_roots;
  writes (λ m, Ok (unmap m (seg old))).

(** src/vm/compaction.cpp:153-164 [collect_compact] *)
Definition collect_compact : eff gc_vm () :=
  _ ← collect (collect_mark_impl parent);
  _ ← collect_compact_roots;
  fragmented ← fragmented;
  if (fragmented : bool) then
    _ ← set_current_gc_op COLLECT_GROWING_DATA_HEAP_OP;
    collect_growing_data_heap 0
  else mret ().

(** src/vm/full_collector.cpp:114-130 [collect_full] *)
Definition collect_full : eff gc_vm () :=
  _ ← collect (collect_mark_impl parent);
  roots ← get_vm code_roots;
  roots ← collect (collect_sweep_impl roots);
  _ ← modify_vm (λ v, with_code_roots v roots);
  low ← get_vm (λ v, low_memory_p (heap_of v));
  if (low : bool) then
    _ ← set_current_gc_op COLLECT_GROWING_DATA_HEAP_OP;
    collect_growing_data_heap 0
  else
    fragmented ← fragmented;
    if (fragmented : bool) then
      _ ← set_current_gc_op COLLECT_COMPACT_OP;
      collect_compact_roots
    else mret ().

(** * The driver *)

(** src/vm/gc.cpp:44-59 [start_gc_again] *)
Definition start_gc_again : eff gc_vm () :=
  op ← get_vm current_gc;
  match op with
  | Some COLLECT_NURSERY_OP => set_current_gc_op COLLECT_AGING_OP
  | Some COLLECT_AGING_OP => set_current_gc_op COLLECT_TO_TENURED_OP
  | _ => reads (λ _, Err CRITICAL_ERROR)
  end.

(** After a collection of aging or to tenured space, a full collection if
    tenured space is fragmented. *)
Definition full_if_fragmented : eff gc_vm () :=
  fragmented ← fragmented;
  if (fragmented : bool) then
    _ ← set_current_gc_op COLLECT_FULL_OP;
    collect_full
  else mret ().

(** src/vm/gc.cpp:89-123 [gc] (part): The body of the [try]. *)
Definition gc_attempt (requested_size : Z) : eff gc_vm () :=
  op ← get_vm current_gc;
  match op with
  | Some COLLECT_NURSERY_OP => collect (collect_nursery parent)
  | Some COLLECT_AGING_OP => _ ← collect_aging; full_if_fragmented
  | Some COLLECT_TO_TENURED_OP => _ ← collect (collect_to_tenured parent); full_if_fragmented
  | Some COLLECT_FULL_OP => collect_full
  | Some COLLECT_COMPACT_OP => collect_compact
  | Some COLLECT_GROWING_DATA_HEAP_OP => collect_growing_data_heap requested_size
  | None => reads (λ _, Err BAD_ACCESS)
  end.

(** src/vm/gc.cpp:84-131 [gc] (part): One turn of the loop. *)
Definition gc_body (requested_size : Z) (_ : ()) : eff gc_vm (() + ()) :=
  catch (_ ← gc_attempt requested_size; mret (inr ()))
        (_ ← start_gc_again; mret (inl ())).

(** src/vm/gc.cpp:67-146 [gc] *)
Definition gc (op : gc_op) (requested_size : Z) : eff gc_vm () :=
  v ← get_state;
  _ ← reads (λ _, check (negb (gc_off v)));
  _ ← reads (λ _, check (bool_decide (current_gc v = None)));
  fragmented1 ← fragmented;
  _ ← reads (λ _, check (negb fragmented1));
  _ ← modify_vm (λ v, with_flags (with_current_gc v (Some op)) true false);
  _ ← loop (gc_body requested_size) ();
  _ ← modify_vm (λ v, with_current_gc (with_flags v false true) None);
  fragmented2 ← fragmented;
  reads (λ _, check (negb fragmented2)).

(** src/vm/gc.cpp:148-150 [primitive_minor_gc] *)
Definition primitive_minor_gc : eff gc_vm () := gc COLLECT_NURSERY_OP 0.
(** src/vm/gc.cpp:152-154 [primitive_full_gc] *)
Definition primitive_full_gc : eff gc_vm () := gc COLLECT_FULL_OP 0.
(** src/vm/gc.cpp:156-158 [primitive_compact_gc] *)
Definition primitive_compact_gc : eff gc_vm () := gc COLLECT_COMPACT_OP 0.

(** * Allocation *)

Definition with_heap (v : gc_vm) (dh : data_heap) : gc_vm := with_collection v (with_data (collection v) dh).

Definition set_nursery (dh : data_heap) (nu : bump_allocator) : data_heap :=
  mk_data_heap (dh_start dh) (young_size dh) (aging_size dh) (tenured_size dh) (seg dh) nu
    (aging dh) (aging_semispace dh) (tenured dh) (cards dh) (decks dh).

Definition allot_code : Z → eff gc_vm (option Z) := λ size,
  v ← get_state;
  let ch := code (collection v) in
  '(m, fl, r) ← reads (λ m, allot m (allocator ch) size);
  _ ← writes (λ _, Ok m);
  _ ← put_state (with_collection v (with_code_alloc (collection v) fl));
  mret r.

(** src/vm/allot.hpp:7-38 [allot_code_block]: without the report. *)
Definition allot_code_block (size : Z) (type : code_block_type) : eff gc_vm Z :=
  let block_size := size +& sizeof_code_block in
  r ← allot_code block_size;
  r ← match r with
      | Some block => mret (Some block)
      | None => _ ← primitive_compact_gc; allot_code block_size
      end;
  match r with
  | None => reads (λ _, Err FATAL_ERROR)
  | Some block =>
      _ ← modify_vm (λ v, with_collection v (with_code (collection v) (code_write_barrier (code (collection v)) block)));
      _ ← writes (λ m, set_type m block type);
      mret block
  end.

(** The addresses of the handles of the data roots of [add_code_block]; a
    collection updates them when they are among those of the vm. *)
Record code_block_roots := mk_code_block_roots {
  root_code : Z;
  root_labels : Z;
  root_owner : Z;
  root_relocation : Z;
  root_parameters : Z;
  root_literals : Z
}.

(** src/vm/code_blocks.cpp:306-310 [add_code_block] (part): The value of an
    array or byte array that is stored in a code block: an empty one is
    replaced by [f]; [value()] asserts the type. *)
Definition nonempty_or_false (type : Z) (m : memory) (value : Z) : result Z :=
  if TAG value =? type then
    a ← untag type value;
    n ← array_capacity type m a;
    Ok (if n =? 0 then false_object else value)
  else Err ASSERTION_FAILED.

Definition insert_block (ch : code_heap) (block literals : Z) : code_heap :=
  mk_code_heap (ch_seg ch) (safepoint_page ch) (allocator ch) ({[block]} ∪ all_blocks ch)
    (if decide (is_Some (uninitialized_blocks ch !! block)) then uninitialized_blocks ch
     else <[block := literals]> (uninitialized_blocks ch))
    (points_to_nursery ch) (points_to_aging ch).

(** src/vm/code_blocks.cpp:286-336 [add_code_block] *)
Definition add_code_block (type : code_block_type) (r : code_block_roots) (frame_size_untagged : Z)
    : eff gc_vm Z :=
  code_length ← reads (λ m, c ← load m (root_code r); a ← untag BYTE_ARRAY_TYPE c;
                            array_capacity BYTE_ARRAY_TYPE m a);
  compiled ← allot_code_block code_length type;
  _ ← writes (λ m, owner ← load m (root_owner r); put_field m compiled 8 owner);
  _ ← writes (λ m, relocation ← load m (root_relocation r);
                   value ← nonempty_or_false BYTE_ARRAY_TYPE m relocation;
                   put_field m compiled 24 value);
  _ ← writes (λ m, parameters ← load m (root_parameters r);
                   value ← nonempty_or_false ARRAY_TYPE m parameters;
                   put_field m compiled 16 value);
  _ ← writes (λ m, c ← load m (root_code r); a ← untag BYTE_ARRAY_TYPE c;
                   copy_bytes m (entry_point compiled) (a +& sizeof_byte_array) (Z.to_nat code_length));
  _ ← writes (λ m, labels ← load m (root_labels r);
                   if to_boolean labels then a ← untag ARRAY_TYPE labels; fixup_labels m a compiled
                   else Ok m);
  _ ← writes (λ m, set_stack_frame_size m compiled frame_size_untagged);
  literals ← reads (λ m, literals ← load m (root_literals r);
                         _ ← check (TAG literals =? ARRAY_TYPE); Ok literals);
  _ ← modify_vm (λ v, with_collection v
        (with_code (collection v) (insert_block (code (collection v)) compiled literals)));
  mret compiled.

Definition tenured_room (size : Z) : eff gc_vm bool :=
  dh ← get_vm heap_of;
  reads (λ m, can_allot_p m (tn_alloc (tenured dh)) size).

(** src/vm/allot.hpp:41-61 [allot_large_object] *)
Definition allot_large_object (type size : Z) : eff gc_vm Z :=
  required_free ← get_vm (λ v, size +& high_water_mark (heap_of v));
  room ← tenured_room required_free;
  _ ← (if (room : bool) then mret ()
       else
         _ ← primitive_compact_gc;
         room ← tenured_room required_free;
         if (room : bool) then mret () else gc COLLECT_GROWING_DATA_HEAP_OP size);
  v ← get_state;
  '(m, tn, r) ← reads (λ m, tenured_allot m (tenured (heap_of v)) size);
  _ ← writes (λ _, Ok m);
  _ ← put_state (with_collection v (with_tenured (collection v) tn));
  obj ← reads (λ _, match r with Some obj => Ok obj | None => Err BAD_ACCESS end);
  v ← get_state;
  dh ← reads (λ _, write_barrier_object (gc_barrier v) (heap_of v) obj size);
  _ ← put_state (with_heap v dh);
  _ ← writes (λ m, store m obj (initialize type));
  mret obj.

(** src/vm/allot.hpp:64-82 [allot_object] *)
Definition allot_object (type size : Z) : eff gc_vm Z :=
  v ← get_state;
  _ ← reads (λ _, check (bool_decide (current_gc v = None)));
  let nu := nursery (heap_of v) in
  if ba_size nu <=? size then allot_large_object type size
  else
    _ ← (if ba_end nu <? (here nu +& size) then primitive_minor_gc else mret ());
    v ← get_state;
    let '(nu, obj) := bump_allot (nursery (heap_of v)) size in
    _ ← put_state (with_heap v (set_nursery (heap_of v) nu));
    _ ← writes (λ m, store m obj (initialize type));
    mret obj.
End driver.

#[local] Opaque while_loop.

(** * Which operation is under way *)

Definition op_is (S : gc_op → Prop) (v : gc_vm) : Prop := ∃ op, current_gc v = Some op ∧ S op.

(** The operations that are not tried again. *)
Definition final_op (op : gc_op) : Prop := op ≠ COLLECT_NURSERY_OP ∧ op ≠ COLLECT_AGING_OP.

Lemma get_vm_bind {A B} (f : gc_vm → A) (k : A → eff gc_vm B) s : (a ← get_vm f; k a) s = k (f s.2) s.
Proof. done. Qed.

(** What an attempt does. *)
Definition attempt_of `{!linkage, !os_memory} (parent : vm_roots) (requested : Z) (op : gc_op) : eff gc_vm () :=
  match op with
  | COLLECT_NURSERY_OP => collect (collect_nursery parent)
  | COLLECT_AGING_OP => _ ← collect_aging parent; full_if_fragmented parent
  | COLLECT_TO_TENURED_OP => _ ← collect (collect_to_tenured parent); full_if_fragmented parent
  | COLLECT_FULL_OP => collect_full parent
  | COLLECT_COMPACT_OP => collect_compact parent
  | COLLECT_GROWING_DATA_HEAP_OP => collect_growing_data_heap parent requested
  end.

Lemma gc_attempt_eq `{!linkage, !os_memory} parent requested s op :
  current_gc s.2 = Some op → gc_attempt parent requested s = attempt_of parent requested op s.
Proof.
  intros E. unfold gc_attempt. rewrite get_vm_bind, E. by destruct op.
Qed.

Section operations.
Context `{!linkage, !os_memory} (parent : vm_roots) (S : gc_op → Prop).

Lemma stays_collect_op {A} (c : eff collector A) : stays (op_is S) (collect c).
Proof. intros s Hs. unfold collect. by destruct (c _). Qed.

Lemma stays_set_op op : S op → stays (op_is S) (set_current_gc_op op).
Proof. intros Hop s _. exists op. done. Qed.

Lemma stays_modify_op f : (∀ v, current_gc (f v) = current_gc v) → stays (op_is S) (modify_vm f).
Proof. intros Hf s (op & E & Hop). exists op. cbn. by rewrite Hf. Qed.

#[local] Hint Resolve stays_collect_op : stays.

Lemma stays_fragmented_op : stays (op_is S) fragmented.
Proof. unfold fragmented, get_vm. stays. Qed.
#[local] Hint Resolve stays_fragmented_op : stays.

Lemma stays_compact_roots_op : stays (op_is S) (collect_compact_roots parent).
Proof. unfold collect_compact_roots, get_vm. stays. by apply stays_modify_op. Qed.
#[local] Hint Resolve stays_compact_roots_op : stays.

Lemma stays_growing_op requested : stays (op_is S) (collect_growing_data_heap parent requested).
Proof. unfold collect_growing_data_heap, grow_data_heap, get_vm. stays. by apply stays_modify_op. Qed.
#[local] Hint Resolve stays_growing_op : stays.

Context (HS : ∀ op, final_op op → S op).

Lemma stays_set_final op : final_op op → stays (op_is S) (set_current_gc_op op).
Proof using HS. intros Hop. by apply stays_set_op, HS. Qed.

Lemma stays_compact_op : stays (op_is S) (collect_compact parent).
Proof using HS. unfold collect_compact. stays. by apply stays_set_final. Qed.

Lemma stays_full_op : stays (op_is S) (collect_full parent).
Proof using HS.
  unfold collect_full, get_vm. stays; [by apply stays_modify_op|by apply stays_set_final..].
Qed.
#[local] Hint Resolve stays_compact_op stays_full_op : stays.

Lemma stays_full_if_fragmented_op : stays (op_is S) (full_if_fragmented parent).
Proof using HS. unfold full_if_fragmented. stays. by apply stays_set_final. Qed.
#[local] Hint Resolve stays_full_if_fragmented_op : stays.

(** An attempt at a final operation, or at a collection of aging space. *)
Lemma stays_attempt_final requested s op :
  current_gc s.2 = Some op → final_op op →
  match gc_attempt parent requested s with Done s' _ => op_is S s'.2 | Again s' => op_is S s'.2 | Fatal _ => True end.
Proof using HS.
  intros E Hop. assert (op_is S s.2) as Hs by (exists op; auto).
  rewrite (gc_attempt_eq _ _ _ _ E).
  destruct op; cbn [attempt_of]; [by destruct Hop|by destruct Hop|..].
  - refine (stays_bind _ (collect (collect_to_tenured parent)) (λ _, full_if_fragmented parent) _ _ s Hs); stays.
  - apply stays_full_op; done.
  - apply stays_compact_op; done.
  - apply stays_growing_op; done.
Qed.

Lemma stays_attempt_aging : S COLLECT_AGING_OP → stays (op_is S) (_ ← collect_aging parent; full_if_fragmented parent).
Proof using HS. intros HA. unfold collect_aging. stays; apply stays_set_op; [by apply HS|done]. Qed.
End operations.

(** What the driver does after an attempt that threw: the next operation, or
    an error. *)
Lemma start_gc_again_eq s op :
  current_gc s.2 = Some op →
  start_gc_again s = match op with
    | COLLECT_NURSERY_OP => Done (s.1, with_current_gc s.2 (Some COLLECT_AGING_OP)) ()
    | COLLECT_AGING_OP => Done (s.1, with_current_gc s.2 (Some COLLECT_TO_TENURED_OP)) ()
    | _ => Fatal CRITICAL_ERROR
    end.
Proof. intros E. unfold start_gc_again. rewrite get_vm_bind, E. by destruct op. Qed.

(** * Runs of the driver *)

Section runs.
Context `{!linkage, !os_memory} (parent : vm_roots) (requested : Z).

(** [gc_run s ops o]: from [s] the driver attempts the operations [ops], one
    after the other, and the last attempt ends with [o]. *)
Inductive gc_run : memory * gc_vm → list gc_op → outcome (memory * gc_vm) () → Prop :=
  | run_done s op s' :
      current_gc s.2 = Some op → gc_attempt parent requested s = Done s' () → gc_run s [op] (Done s' ())
  | run_failed s op e :
      current_gc s.2 = Some op → gc_attempt parent requested s = Fatal e → gc_run s [op] (Fatal e)
  | run_stuck s op s1 :
      current_gc s.2 = Some op → gc_attempt parent requested s = Again s1 →
      start_gc_again s1 = Fatal CRITICAL_ERROR → gc_run s [op] (Fatal CRITICAL_ERROR)
  | run_again s op s1 s2 ops o :
      current_gc s.2 = Some op → gc_attempt parent requested s = Again s1 →
      start_gc_again s1 = Done s2 () → gc_run s2 ops o → gc_run s (op :: ops) o.

(** The operations tried from each on. *)
Definition escalation (op : gc_op) : list gc_op :=
  match op with
  | COLLECT_NURSERY_OP => [COLLECT_NURSERY_OP; COLLECT_AGING_OP; COLLECT_TO_TENURED_OP]
  | COLLECT_AGING_OP => [COLLECT_AGING_OP; COLLECT_TO_TENURED_OP]
  | op => [op]
  end.

(** What an exception leads to. *)
Lemma attempt_again s op s1 :
  current_gc s.2 = Some op → gc_attempt parent requested s = Again s1 →
  (∃ op', escalation op = op :: escalation op' ∧
     start_gc_again s1 = Done (s1.1, with_current_gc s1.2 (Some op')) ()) ∨
  start_gc_again s1 = Fatal CRITICAL_ERROR.
Proof.
  intros E Ha.
  assert (∀ S : gc_op → Prop, op_is S s1.2 → ∃ op1, S op1 ∧ start_gc_again s1 = match op1 with
    | COLLECT_NURSERY_OP => Done (s1.1, with_current_gc s1.2 (Some COLLECT_AGING_OP)) ()
    | COLLECT_AGING_OP => Done (s1.1, with_current_gc s1.2 (Some COLLECT_TO_TENURED_OP)) ()
    | _ => Fatal CRITICAL_ERROR end) as Hnext.
  { intros S (op1 & E1 & HS). exists op1. split; [done|by apply start_gc_again_eq]. }
  destruct (decide (op = COLLECT_NURSERY_OP)) as [->|Hn].
  - left. destruct (Hnext (eq COLLECT_NURSERY_OP)) as (op1 & <- & ->); [|by exists COLLECT_AGING_OP].
    pose proof (stays_collect_op (eq COLLECT_NURSERY_OP) (collect_nursery parent) s) as Hst.
    rewrite (gc_attempt_eq _ _ _ _ E) in Ha. cbn [attempt_of] in Ha. rewrite Ha in Hst. apply Hst. by exists COLLECT_NURSERY_OP.
  - destruct (decide (op = COLLECT_AGING_OP)) as [->|Hg].
    + destruct (Hnext (λ op, op ≠ COLLECT_NURSERY_OP)) as (op1 & Hop1 & Eq).
      { pose proof (stays_attempt_aging parent (λ op, op ≠ COLLECT_NURSERY_OP) (λ op Hop, proj1 Hop) ltac:(done) s) as Hst.
        rewrite (gc_attempt_eq _ _ _ _ E) in Ha. cbn [attempt_of] in Ha. rewrite Ha in Hst. apply Hst. by exists COLLECT_AGING_OP. }
      rewrite Eq. destruct op1; [done|left; by exists COLLECT_TO_TENURED_OP|by right..].
    + right. pose proof (stays_attempt_final parent final_op (λ _ Hf, Hf) requested s op E (conj Hn Hg)) as Hst.
      rewrite Ha in Hst. destruct (Hnext _ Hst) as (op1 & [H1 H2] & ->). by destruct op1.
Qed.

Lemma gc_runs s op :
  current_gc s.2 = Some op → ∃ ops o, gc_run s ops o ∧ ops `prefix_of` escalation op.
Proof.
  assert (∀ n s op, length (escalation op) = n → current_gc s.2 = Some op →
    ∃ ops o, gc_run s ops o ∧ ops `prefix_of` escalation op) as Hrec; [|by eapply Hrec].
  clear s op. induction n as [|n IH]; intros s op Hn E; [by destruct op|].
  assert ([op] `prefix_of` escalation op) as H1 by (destruct op; by repeat apply prefix_cons; try apply prefix_nil).
  destruct (gc_attempt parent requested s) as [s' []|s1|e] eqn:Ha.
  - exists [op], (Done s' ()). split; [by apply run_done|done].
  - destruct (attempt_again s op s1 E Ha) as [(op' & Eop & Eq)|Eq].
    + rewrite Eop in Hn. injection Hn as Hn.
      destruct (IH (s1.1, with_current_gc s1.2 (Some op')) op' Hn eq_refl) as (ops & o & Hrun & Hp).
      exists (op :: ops), o. split; [by eapply run_again|]. rewrite Eop. by apply prefix_cons.
    + exists [op], (Fatal CRITICAL_ERROR). split; [by eapply run_stuck|done].
  - exists [op], (Fatal e). split; [by apply run_failed|done].
Qed.

(** A run is what the loop does. *)
Lemma run_loop s ops o :
  gc_run s ops o → iter_nat (loop_body (gc_body parent requested)) (length ops) (s, ()) = inr o.
Proof.
  induction 1 as [s op s' E Ha|s op e E Ha|s op s1 E Ha Hs|s op s1 s2 ops o E Ha Hs Hrun IH];
    cbn [length iter_nat]; unfold loop_body at 1, gc_body, catch, mbind, eff_bind, mret, eff_ret; cbn [fst snd];
    rewrite Ha; try rewrite Hs; done.
Qed.
End runs.

(** * The nursery after a collection *)

Lemma stays_collect Q {A} (c : eff collector A) :
  stays (young Q) c → stays (λ v, young Q (collection v)) (collect c).
Proof. intros Hc s Hs. specialize (Hc (s.1, collection s.2) Hs). unfold collect. by destruct (c _). Qed.

Lemma after_collect Q {A} (c : eff collector A) :
  after (young Q) c → after (λ v, young Q (collection v)) (collect c).
Proof. intros Hc s. specialize (Hc (s.1, collection s.2)). unfold collect. by destruct (c _). Qed.

Section nursery.
Context `{!linkage, !os_memory} (parent : vm_roots) (Q : bump_allocator → Z * Z * Z → Prop) (R : Z → Prop).
Context (HQ : ∀ n z, Q n z → Q (flush n) z) (HR : R 0).

Definition vyoung (v : gc_vm) : Prop := young Q (collection v).

Context (Hgrow : ∀ requested, R requested → stays vyoung (grow_data_heap requested)).

Lemma stays_modify_vm f : (∀ v, collection (f v) = collection v) → stays vyoung (modify_vm f).
Proof. intros Hf s Hs. change (young Q (collection (f s.2))). by rewrite Hf. Qed.

Lemma stays_set_current op : stays vyoung (set_current_gc_op op).
Proof. by apply stays_modify_vm. Qed.

Lemma stays_fragmented : stays vyoung fragmented.
Proof. unfold fragmented, get_vm. stays. Qed.

Lemma stays_compact_roots : stays vyoung (collect_compact_roots parent).
Proof.
  unfold collect_compact_roots, get_vm. stays; [|by apply stays_modify_vm].
  apply stays_collect, stays_collect_compact_impl.
Qed.

#[local] Hint Resolve stays_set_current stays_fragmented stays_compact_roots : stays.

Lemma stays_mark : stays vyoung (collect (collect_mark_impl parent)).
Proof using HQ. by apply stays_collect, stays_collect_mark_impl. Qed.
#[local] Hint Resolve stays_mark : stays.

Lemma stays_growing requested : R requested → stays vyoung (collect_growing_data_heap parent requested).
Proof using HQ Hgrow. intros Hr. unfold collect_growing_data_heap. apply stays_bind; [by apply Hgrow|]. stays. Qed.

Lemma stays_compact : stays vyoung (collect_compact parent).
Proof using HQ Hgrow HR. unfold collect_compact. stays. by apply stays_growing. Qed.

Lemma stays_full : stays vyoung (collect_full parent).
Proof using HQ Hgrow HR.
  unfold collect_full, get_vm. stays; [|by apply stays_modify_vm|by apply stays_growing].
  apply stays_collect, stays_collect_sweep_impl.
Qed.
#[local] Hint Resolve stays_full : stays.

Lemma stays_full_if_fragmented : stays vyoung (full_if_fragmented parent).
Proof using HQ Hgrow HR. unfold full_if_fragmented. stays. Qed.
#[local] Hint Resolve stays_full_if_fragmented : stays.

Lemma stays_attempt requested op : R requested → stays vyoung (attempt_of parent requested op).
Proof using HQ Hgrow HR.
  intros Hr. destruct op; cbn [attempt_of].
  - by apply stays_collect, stays_collect_nursery.
  - unfold collect_aging. stays; apply stays_collect; [apply stays_collect_aging_promote|by apply stays_collect_aging_copy].
  - stays. by apply stays_collect, stays_collect_to_tenured.
  - stays.
  - apply stays_compact.
  - by apply stays_growing.
Qed.

(** A property of an empty nursery holds after every attempt that succeeds. *)
Lemma after_attempt requested op :
  (∀ n z, Q (flush n) z) → R requested → after vyoung (attempt_of parent requested op).
Proof using HQ Hgrow HR.
  intros Hf Hr.
  assert (after vyoung (collect (collect_mark_impl parent))) as Hm by (by apply after_collect, after_collect_mark_impl).
  assert (after vyoung (collect_growing_data_heap parent requested)) as Hg.
  { unfold collect_growing_data_heap. apply after_bind. intros old. apply after_then; [done|]. stays. }
  destruct op; cbn [attempt_of]; [..|done].
  - by apply after_collect, after_collect_nursery.
  - apply after_then; [|stays]. unfold collect_aging. do 3 (apply after_bind; intros _).
    by apply after_collect, after_collect_aging_copy.
  - apply after_then; [|stays]. by apply after_collect, after_collect_to_tenured.
  - unfold collect_full. apply after_then; [done|]. unfold get_vm.
    stays; [apply stays_collect, stays_collect_sweep_impl|by apply stays_modify_vm|by apply stays_growing].
  - unfold collect_compact. apply after_then; [done|]. stays. by apply stays_growing.
Qed.

Lemma run_young requested s ops o :
  R requested → gc_run parent requested s ops o → vyoung s.2 →
  match o with Done s' _ => vyoung s'.2 | _ => True end.
Proof using HQ Hgrow HR.
  intros Hr. induction 1 as [s op s' E Ha|s op e E Ha|s op s1 E Ha Hs|s op s1 s2 ops o E Ha Hs Hrun IH]; try done.
  - intros Hv. pose proof (stays_attempt requested op Hr s Hv) as Hst.
    rewrite (gc_attempt_eq _ _ _ _ E) in Ha. by rewrite Ha in Hst.
  - intros Hv. apply IH. pose proof (stays_attempt requested op Hr s Hv) as Hst.
    rewrite (gc_attempt_eq _ _ _ _ E) in Ha. rewrite Ha in Hst.
    unfold start_gc_again in Hs. rewrite get_vm_bind in Hs.
    destruct (current_gc s1.2) as [[]|]; try done; injection Hs as <-; done.
Qed.

Lemma run_after requested s ops o :
  (∀ n z, Q (flush n) z) → R requested → gc_run parent requested s ops o →
  match o with Done s' _ => vyoung s'.2 | _ => True end.
Proof using HQ Hgrow HR.
  intros Hf Hr. induction 1 as [s op s' E Ha| | |]; try done.
  pose proof (after_attempt requested op Hf Hr s) as Haf. rewrite (gc_attempt_eq _ _ _ _ E) in Ha. by rewrite Ha in Haf.
Qed.
End nursery.

(** ** Growing the heap *)

Lemma add_to_free_list_region m fl b fl' : add_to_free_list m fl b = Ok fl' → same_region fl fl'.
Proof.
  unfold add_to_free_list. intros (size & _ & E)%result_bind_inv. destruct (size <? _).
  - apply result_bind_inv in E as (bucket & _ & E). apply result_bind_inv in E as (small & _ & E).
    apply Ok_inj in E. subst. apply same_region_set.
  - apply result_bind_inv in E as (large & _ & E). apply Ok_inj in E. subst. apply same_region_set.
Qed.

Lemma initial_free_list_region m fl occupied m' fl' :
  initial_free_list m fl occupied = Ok (m', fl') → same_region fl fl'.
Proof.
  unfold initial_free_list. cbv zeta. assert (same_region fl (clear_free_list fl)) as H0 by done.
  destruct (negb _); intros E; [|apply Ok_inj in E; by simplify_eq].
  apply result_bind_inv in E as (m1 & _ & E). apply result_bind_inv in E as (fl1 & E1 & E).
  apply Ok_inj in E. simplify_eq. eapply same_region_trans; [done|by eapply add_to_free_list_region].
Qed.

Lemma new_data_heap_nursery m address y a t m' dh :
  new_data_heap m address y a t = Ok (m', dh) →
  let Y := align y deck_size in let A := align a deck_size in let T := align t deck_size in
  let start := ((align address deck_size +& T) +& A) +& A in
  nursery dh = mk_bump start start (start +& Y) Y ∧ heap_sizes dh = (Y, A, T).
Proof.
  unfold new_data_heap. cbv zeta. intros ([m1 tn] & E1 & E)%result_bind_inv.
  apply result_bind_inv in E as (_ & _ & E). apply Ok_inj in E. simplify_eq. cbn -[align deck_size].
  apply result_bind_inv in E1 as ([m2 fl] & E2 & E1). apply Ok_inj in E1. simplify_eq. cbn [tn_alloc].
  unfold new_free_list_allocator in E2. apply initial_free_list_region in E2 as [_ E _ _].
  cbn -[align deck_size] in E. by rewrite E.
Qed.

(** What [map_segment] is given and what the new heap is made of. *)
Lemma grow_data_heap_inv `{!os_memory} requested s :
  let d := heap_of s.2 in
  let t := (2 *& tenured_size d) +& requested in
  match grow_data_heap requested s with
  | Done s' _ => ∃ m address m',
      map_segment s.1 (heap_bytes (young_size d) (aging_size d) t) = Some (m, address) ∧
      new_data_heap m address (young_size d) (aging_size d) t = Ok (m', heap_of s'.2)
  | Again _ => False
  | Fatal _ => True
  end.
Proof.
  cbv zeta. unfold grow_data_heap. rewrite get_vm_bind. unfold mbind, eff_bind, reads, writes.
  destruct (map_segment _ _) as [[m address]|] eqn:Em; [|done]. cbn [fst snd].
  destruct (grow _ _ _ _) as [[m' dh]|] eqn:Eg; [|done]. cbn [fst snd].
  exists m, address, m'. split; [done|]. unfold grow in Eg. by apply result_bind_inv in Eg as (_ & _ & Eg).
Qed.

(** The invariant: the nursery is where its fields say, the sizes are multiples
    of the deck size, and everything is within the addresses of the machine. *)
Definition sized (n : bump_allocator) (z : Z * Z * Z) : Prop :=
  let '(y, a, t) := z in
  bump_ok n ∧ ba_size n = y ∧ (0 < y < 2 ^ 47 ∧ y mod deck_size = 0) ∧
  (0 ≤ a < 2 ^ 47 ∧ a mod deck_size = 0) ∧ 0 ≤ t < 2 ^ 47.

(** The same, with the size of the nursery. *)
Definition sized_as (young : Z) (n : bump_allocator) (z : Z * Z * Z) : Prop := sized n z ∧ z.1.1 = young.

(** User addresses have 47 bits. *)
Definition segments_ok `{!os_memory} : Prop :=
  ∀ m size m' address, map_segment m size = Some (m', address) → 0 ≤ address ∧ address + size ≤ 2 ^ 47.

(** The number of bytes that can be asked for. *)
Definition request_ok (size : Z) : Prop := 0 ≤ size < 2 ^ 62.

Lemma request_none : request_ok 0.
Proof. unfold request_ok. lia. Qed.

Lemma flush_ok n : bump_ok n → bump_ok (flush n).
Proof. intros [[? ?] [? ?] [? ?] ?]. split; cbn; auto; lia. Qed.

Lemma align_decks a : 0 ≤ a < 2 ^ 63 → a mod deck_size = 0 → align a deck_size = a.
Proof.
  intros Ha Hm. destruct (align_bounds a 18) as [Hb Hb']; [lia|unfold is_cell; lia|lia|].
  change deck_size with (2 ^ 18) in *. dlia.
Qed.

Lemma stays_grow_sized `{!os_memory} y0 requested :
  segments_ok → request_ok requested → stays (vyoung (sized_as y0)) (grow_data_heap requested).
Proof.
  intros Hos Hr s [Hs Hyy]. pose proof (grow_data_heap_inv requested s) as Hg. cbv zeta in Hg.
  destruct (grow_data_heap requested s) as [s' old|s'|e]; [|done|done].
  destruct Hg as (m & address & m1 & Em & Eg). apply Hos in Em as [Ha Hend].
  apply new_data_heap_nursery in Eg as [En Ez]. unfold vyoung, young. fold (heap_of s'.2). rewrite En, Ez. clear En Ez.
  cbn in Hyy. destruct Hs as (_ & _ & [Hy Hym] & [Hag Hagm] & Ht). unfold heap_bytes in Hend. unfold request_ok in Hr.
  fold (heap_of s.2) in *. set (d := heap_of s.2) in *.
  rewrite (u64_id (2 * _)), (u64_id (2 * _ + _)) in * by (unfold is_cell; lia).
  set (t := 2 * tenured_size d + requested) in *.
  destruct (align_bounds t 18) as [HT HTm]; [lia|unfold is_cell; lia|lia|].
  change (2 ^ 18) with deck_size in HT, HTm. rewrite !(align_decks (young_size d)), !(align_decks (aging_size d)) in * by (done || lia).
  set (T := align t deck_size) in *. change deck_size with (2 ^ 18) in *.
  rewrite (u64_id (2 * _)), (u64_id (young_size d + _)), (u64_id (_ + T)), (u64_id (_ + 2 ^ 18)) in Hend
    by (unfold is_cell; lia).
  destruct (align_bounds address 18) as [HS HSm]; [lia|unfold is_cell; lia|lia|].
  set (S := align address (2 ^ 18)) in *.
  rewrite !(u64_id (S + T)), !(u64_id (S + T + _)), !(u64_id (S + T + _ + _)), (u64_id (S + T + _ + _ + _))
    by (unfold is_cell; lia).
  clearbody S T. split; [|done]. split; [|split; [reflexivity|split; [done|split; [done|lia]]]].
  split; cbn [ba_start ba_end ba_size here]; [split; [lia|dlia]|split; [lia|dlia]|split; [lia|dlia]|lia].
Qed.

Lemma sized_flush young n z : sized_as young n z → sized_as young (flush n) z.
Proof. destruct z as [[y a] t]. intros [(Hb & Hz & Hrest) Hy]. split; [split; [by apply flush_ok|done]|done]. Qed.

Lemma stays_grow_empty `{!os_memory} requested :
  stays (vyoung (λ n _, here n = ba_start n)) (grow_data_heap requested).
Proof.
  intros s Hs. pose proof (grow_data_heap_inv requested s) as Hg. cbv zeta in Hg.
  destruct (grow_data_heap requested s) as [s' old|s'|e]; [|done|done].
  destruct Hg as (m & address & m1 & _ & Eg). apply new_data_heap_nursery in Eg as [En _].
  unfold vyoung, young. fold (heap_of s'.2). by rewrite En.
Qed.

(** * The calls of the driver *)

Lemma gc_refuses `{!linkage, !os_memory} parent op requested m v :
  gc_off v = true ∨ current_gc v ≠ None ∨ high_fragmentation_p m (heap_of v) = Ok true →
  gc parent op requested (m, v) = Fatal ASSERTION_FAILED.
Proof.
  unfold gc, fragmented, get_vm, mbind, eff_bind, reads, get_state, mret, eff_ret. cbn [fst snd].
  destruct (gc_off v); [done|]. cbn [negb check fst snd]. destruct (decide (current_gc v = None)) as [Hc|Hc].
  - rewrite bool_decide_true by done. cbn [check fst snd]. by intros [|[| ->]].
  - by rewrite bool_decide_false.
Qed.

Lemma gc_cases `{!linkage, !os_memory} parent op requested m v :
  (gc_off v = false ∧ current_gc v = None ∧ high_fragmentation_p m (heap_of v) = Ok false) ∨
  ∃ e, gc parent op requested (m, v) = Fatal e.
Proof.
  pose proof (gc_refuses parent op requested m v) as Hr.
  destruct (gc_off v) eqn:Hoff; [right; eauto|]. destruct (current_gc v) eqn:Hcur; [right; eauto|].
  destruct (high_fragmentation_p m (heap_of v)) as [[]|e] eqn:Hf; [right; eauto|by left|right; exists e].
  unfold gc, fragmented, get_vm, mbind, eff_bind, reads, get_state, mret, eff_ret. cbn [fst snd].
  rewrite Hoff. cbn [negb check fst snd]. rewrite bool_decide_true by done. cbn [check fst snd]. by rewrite Hf.
Qed.

(** The state in which the attempts start, and the one they leave. *)
Definition started (v : gc_vm) (op : gc_op) : gc_vm := with_flags (with_current_gc v (Some op)) true false.
Definition finished (v : gc_vm) : gc_vm := with_current_gc (with_flags v false true) None.

Lemma gc_eq `{!linkage, !os_memory} parent op requested m v ops o :
  gc_off v = false → current_gc v = None → high_fragmentation_p m (heap_of v) = Ok false →
  gc_run parent requested (m, started v op) ops o → (length ops ≤ 3)%nat →
  gc parent op requested (m, v) =
    match o with
    | Done s' _ =>
        match high_fragmentation_p s'.1 (heap_of s'.2) with
        | Ok false => Done (s'.1, finished s'.2) ()
        | Ok true => Fatal ASSERTION_FAILED
        | Err e => Fatal e
        end
    | Again s' => Again s'
    | Fatal e => Fatal e
    end.
Proof.
  intros Hoff Hcur Hfrag Hrun Hlen. apply run_loop in Hrun.
  apply (while_loop_iter (loop_body (gc_body parent requested))) in Hrun; [|lia].
  unfold gc, fragmented, loop, modify_vm, get_vm, mbind, eff_bind, reads, get_state, put_state, mret, eff_ret.
  cbn [fst snd]. rewrite Hoff. cbn [negb check]. rewrite bool_decide_true by done. cbn [check fst snd].
  rewrite Hfrag. cbn [negb check fst snd]. fold (started v op). rewrite Hrun. destruct o as [s' []|s'|e]; [|done|done].
  cbn [fst snd]. change (heap_of (with_current_gc (with_flags s'.2 false true) None)) with (heap_of s'.2).
  by destruct (high_fragmentation_p s'.1 (heap_of s'.2)) as [[]|].
Qed.

Lemma escalation_length op : (length (escalation op) ≤ 3)%nat.
Proof. destruct op; cbn; lia. Qed.

Lemma gc_run_not_again `{!linkage, !os_memory} parent requested s ops o s' :
  gc_run parent requested s ops o → o ≠ Again s'.
Proof. by induction 1. Qed.

Lemma gc_not_again `{!linkage, !os_memory} parent op requested m v s' : gc parent op requested (m, v) ≠ Again s'.
Proof.
  destruct (gc_cases parent op requested m v) as [(Hoff & Hcur & Hfrag)|(e & ->)]; [|discriminate].
  destruct (gc_runs parent requested (m, started v op) op eq_refl) as (ops & o & Hrun & Hp).
  pose proof (prefix_length _ _ Hp). pose proof (escalation_length op).
  rewrite (gc_eq parent op requested m v ops o) by (done || lia).
  pose proof (λ s1, gc_run_not_again parent requested _ _ _ s1 Hrun) as Hn.
  destruct o as [s1 []|s1|e]; [|by destruct (Hn s1)|discriminate].
  destruct (high_fragmentation_p s1.1 (heap_of s1.2)) as [[]|]; discriminate.
Qed.


(** What a call that returns leaves. *)
Lemma gc_returns `{!linkage, !os_memory} parent op requested m v m' v' :
  segments_ok → request_ok requested → sized (nursery (heap_of v)) (heap_sizes (heap_of v)) →
  gc parent op requested (m, v) = Done (m', v') () →
  current_gc v' = None ∧ current_gc_p v' = false ∧ border_locked v' ≠ Some false ∧
  high_fragmentation_p m' (heap_of v') = Ok false ∧
  here (nursery (heap_of v')) = ba_start (nursery (heap_of v')) ∧
  sized_as (young_size (heap_of v)) (nursery (heap_of v')) (heap_sizes (heap_of v')).
Proof.
  intros Hos Hr Hs E.
  destruct (gc_cases parent op requested m v) as [(Hoff & Hcur & Hfrag)|(e & E')]; [|by rewrite E' in E].
  destruct (gc_runs parent requested (m, started v op) op eq_refl) as (ops & o & Hrun & Hp).
  pose proof (prefix_length _ _ Hp). pose proof (escalation_length op).
  rewrite (gc_eq parent op requested m v ops o Hoff Hcur Hfrag Hrun) in E by lia.
  destruct o as [[m1 v1] []|s1|e]; [|done|done]. cbn [fst snd] in E.
  destruct (high_fragmentation_p m1 (heap_of v1)) as [[]|] eqn:Hf; [done| |done]. injection E as <- <-.
  split_and!; [done|done|unfold finished; cbn; by destruct (border_locked v1)|done| |].
  - apply (run_after parent (λ n _, here n = ba_start n) (λ _, True) ltac:(done) I
      (λ r _, stays_grow_empty r) requested _ _ _ ltac:(done) I Hrun).
  - apply (run_young parent (sized_as (young_size (heap_of v))) request_ok (sized_flush _) request_none
      (λ r Hr, stays_grow_sized _ r Hos Hr) requested _ _ _ Hr Hrun (conj Hs eq_refl)).
Qed.

(** C8. What a collection leaves.  After a call of [gc] that returns, no
    collection is under way, the guard pages of the call stack are locked
    again, tenured space has room for both younger generations in one piece,
    the nursery is empty, and its size and place satisfy the invariant, also
    when the heap has been replaced by a larger one; [gc] called while a
    collection is under way, with collections turned off, or on a fragmented
    heap fails the assertion. *)
Theorem gc_leaves `{!linkage, !os_memory} parent op requested m v :
  segments_ok → request_ok requested → sized (nursery (heap_of v)) (heap_sizes (heap_of v)) →
  (gc_off v = true ∨ current_gc v ≠ None ∨ high_fragmentation_p m (heap_of v) = Ok true →
     gc parent op requested (m, v) = Fatal ASSERTION_FAILED) ∧
  ∀ m' v', gc parent op requested (m, v) = Done (m', v') () →
    current_gc v' = None ∧ current_gc_p v' = false ∧ border_locked v' ≠ Some false ∧
    high_fragmentation_p m' (heap_of v') = Ok false ∧
    here (nursery (heap_of v')) = ba_start (nursery (heap_of v')) ∧
    sized_as (young_size (heap_of v)) (nursery (heap_of v')) (heap_sizes (heap_of v')).
Proof.
  intros Hos Hr Hs.
  split; [apply gc_refuses|]. intros m' v'. by apply gc_returns.
Qed.

(** * Allocation *)

(** An allocation in the nursery [n] of the state before: the object is at its
    pointer, inside it, aligned and with its header, no other word is written,
    and the pointer moves past it. *)
Definition allotted (type size : Z) (m : memory) (v : gc_vm) (m' : memory) (v' : gc_vm) (obj : Z) : Prop :=
  let n := nursery (heap_of v) in
  let n' := nursery (heap_of v') in
  obj = here n ∧ obj mod 16 = 0 ∧ m' = <[obj := initialize type]> m ∧
  ba_start n' = ba_start n ∧ ba_end n' = ba_end n ∧ obj + size ≤ here n' ≤ ba_end n' ∧
  sized_as (young_size (heap_of v)) n' (heap_sizes (heap_of v')) ∧ v' = with_heap v (heap_of v').

(** The part of [allot_object] after a collection. *)
Definition allot_in_nursery (type size : Z) : eff gc_vm Z :=
  v ← get_state;
  let '(nu, obj) := bump_allot (nursery (heap_of v)) size in
  _ ← put_state (with_heap v (set_nursery (heap_of v) nu));
  _ ← writes (λ m, store m obj (initialize type));
  mret obj.

Lemma allot_in_nursery_spec type size m v :
  sized (nursery (heap_of v)) (heap_sizes (heap_of v)) → 0 < size →
  here (nursery (heap_of v)) + size ≤ ba_end (nursery (heap_of v)) →
  is_Some (m !! here (nursery (heap_of v))) →
  ∃ m' v' obj, allot_in_nursery type size (m, v) = Done (m', v') obj ∧ allotted type size m v m' v' obj.
Proof.
  intros Hs Hpos Hfit Hmap. pose proof Hs as (Hb & Hz & Hrest).
  destruct (bump_allot_spec _ size Hb Hpos Hfit) as (E & Hok & Hn).
  pose proof (align_request size ltac:(destruct Hb as [? ? ? ?]; lia)) as [_ Hle].
  unfold allot_in_nursery, mbind, eff_bind, get_state, put_state, writes, mret, eff_ret.
  cbn [fst snd]. rewrite E in *. cbn [fst snd]. rewrite store_Ok by done. cbn [fst snd].
  eexists _, _, _. split; [reflexivity|]. unfold allotted. cbn -[Z.add align data_alignment] in *.
  pose proof Hok as [_ [Hh _] _ _]. cbn -[Z.add align data_alignment] in Hh.
  split_and!; [done|apply Hb|done|done|done|lia|lia|split; [split; [done|split; [done|apply Hrest]]|done]|done].
Qed.

(** [allot_object] starts a collection or not, and allots in the nursery. *)
Lemma allot_object_eq `{!linkage, !os_memory} parent type size m v :
  let n := nursery (heap_of v) in
  sized n (heap_sizes (heap_of v)) → current_gc v = None → 0 < size < ba_size n →
  allot_object parent type size (m, v) =
    (_ ← (if decide (here n + size ≤ ba_end n) then mret () else primitive_minor_gc parent);
     allot_in_nursery type size) (m, v).
Proof.
  cbv zeta. intros Hs Hcur Hsize. pose proof Hs as (Hb & Hz & (Hy & _) & _).
  pose proof Hb as [[? _] [? _] [? _] ?].
  unfold allot_object. unfold mbind at 1 2, eff_bind at 1 2, get_state at 1, reads at 1. cbn [fst snd].
  rewrite bool_decide_true by done. cbn [check fst snd]. rewrite (proj2 (Z.leb_gt _ _)) by lia.
  rewrite u64_id by (unfold is_cell; lia). case_decide; [rewrite (proj2 (Z.ltb_ge _ _)) by lia|
    rewrite (proj2 (Z.ltb_lt _ _)) by lia]; done.
Qed.

Lemma allot_object_room `{!linkage, !os_memory} parent type size m v :
  let n := nursery (heap_of v) in
  sized n (heap_sizes (heap_of v)) → current_gc v = None → 0 < size < ba_size n →
  here n + size ≤ ba_end n → is_Some (m !! here n) →
  ∃ m' v' obj, allot_object parent type size (m, v) = Done (m', v') obj ∧ allotted type size m v m' v' obj.
Proof.
  cbv zeta. intros Hs Hcur Hsize Hfit Hmap. rewrite allot_object_eq, decide_True by done.
  change ((_ ← mret (); allot_in_nursery type size) (m, v)) with (allot_in_nursery type size (m, v)).
  by apply allot_in_nursery_spec; [|lia|..].
Qed.

(** The state after an allocation without a collection. *)
Lemma allot_object_room_eq `{!linkage, !os_memory} parent type size m v :
  let n := nursery (heap_of v) in
  sized n (heap_sizes (heap_of v)) → current_gc v = None → 0 < size < ba_size n →
  here n + size ≤ ba_end n → is_Some (m !! here n) →
  allot_object parent type size (m, v) =
    Done (<[here n := initialize type]> m, with_heap v (set_nursery (heap_of v) (bump_allot n size).1)) (here n).
Proof.
  cbv zeta. intros Hs Hcur Hsize Hfit Hmap. rewrite allot_object_eq, decide_True by done.
  unfold allot_in_nursery, mbind, eff_bind, get_state, put_state, writes, mret, eff_ret. cbn [fst snd bump_allot].
  by rewrite store_Ok.
Qed.

(** C5. Allocation of an object smaller than the nursery.  With room in the
    nursery it is allotted there and then; without, a nursery collection comes
    first: when that fails so does the allocation, and when it returns, even
    with a new heap, the nursery has room and the object is allotted at its
    start. *)
Theorem allot_object_spec `{!linkage, !os_memory} parent type size m v :
  let n := nursery (heap_of v) in
  segments_ok → sized n (heap_sizes (heap_of v)) → current_gc v = None → 0 < size < ba_size n →
  (here n + size ≤ ba_end n → is_Some (m !! here n) →
     ∃ m' v' obj, allot_object parent type size (m, v) = Done (m', v') obj ∧ allotted type size m v m' v' obj) ∧
  (ba_end n < here n + size →
     match primitive_minor_gc parent (m, v) with
     | Done (m1, v1) _ =>
         is_Some (m1 !! ba_start (nursery (heap_of v1))) →
         ∃ m' v' obj, allot_object parent type size (m, v) = Done (m', v') obj ∧
           allotted type size m1 v1 m' v' obj ∧ obj = ba_start (nursery (heap_of v'))
     | Again _ => False
     | Fatal e => allot_object parent type size (m, v) = Fatal e
     end).
Proof.
  cbv zeta. intros Hos Hs Hcur Hsize. pose proof Hs as (Hb & Hz & (Hy & _) & _). split.
  - intros Hfit Hmap. by apply allot_object_room.
  - intros Hfull. rewrite allot_object_eq, decide_False by (done || lia).
    unfold mbind, eff_bind. destruct (primitive_minor_gc parent (m, v)) as [[m1 v1] []|s1|e] eqn:E; [| |done].
    + unfold primitive_minor_gc in E. apply gc_returns in E as (_ & _ & _ & _ & He & [Hs1 Hy1]);
        [|done|apply request_none|done]. intros Hmap. cbn in Hy1.
      pose proof Hs1 as (Hb1 & Hz1 & _). pose proof (bump_end _ Hb1) as [He1 _].
      destruct (allot_in_nursery_spec type size m1 v1) as (m' & v' & obj & E' & Ha);
        [done|lia|lia|by rewrite He|].
      exists m', v', obj. split; [done|]. split; [done|]. destruct Ha as (-> & _ & _ & -> & _). done.
    + by apply gc_not_again in E.
Qed.

(** * An example

    A heap with an empty tenured space of a megabyte, and a vm whose special
    objects are all [f]. *)

Definition empty_starts (start size : Z) : object_start_map := new_object_start_map size start.

Definition small_heap (pointer : Z) : data_heap :=
  mk_data_heap 1048576 262144 262144 1048576 (new_segment 1048576 2097152)
    (mk_bump pointer 2621440 2883584 262144)
    (new_aging_space 262144 2097152) (new_aging_space 262144 2359296)
    (mk_tenured
      (mk_free_list 1048576 2097152 1048576 (replicate 32 []) [1048576] 1 1048576 (new_mark_bits 1048576 1048576))
      (empty_starts 1048576 1048576))
    (replicate 8192 0) (replicate 8 0).

Definition no_blocks (start size : Z) : free_list_allocator :=
  mk_free_list start (start + size) size (replicate 32 []) [] 0 0 (new_mark_bits size start).

Definition small_code : code_heap :=
  mk_code_heap (new_segment 4194304 0) 4194304 (no_blocks 4194304 0) ∅ ∅ ∅ ∅.

Definition small_vm (pointer : Z) : gc_vm :=
  mk_gc_vm (mk_collector (small_heap pointer) small_code [] 0 0) (mk_barrier 0 0 0 0) [] false None false
    (Some true).

Definition small_roots : vm_roots := mk_vm_roots [] (no_blocks 8388608 0) [] 65664 [].

(** A free block, the words of the nursery in use, and the special objects. *)
Definition small_memory : memory :=
  list_to_map ([(1048576, 1048577); (2621440, 0); (2621456, 0)] ++
    ((λ i, (65664 + 8 * i, false_object)) <$> seqZ 0 85)).

(** An operating system without memory. *)
Definition no_memory : os_memory :=
  {| map_segment := λ _ _, None; cards_array := λ _, 0; decks_array := λ _, 0 |}.

Lemma small_heap_sized pointer :
  2621440 ≤ pointer ≤ 2883584 → pointer mod 16 = 0 →
  sized (nursery (heap_of (small_vm pointer))) (heap_sizes (heap_of (small_vm pointer))).
Proof.
  intros Hp H16. split; [split; cbn; [done|done|done|lia]|].
  split; [done|split; [split; [cbn; lia|done]|split; [split; [cbn; lia|done]|cbn; lia]]].
Qed.

Lemma no_memory_ok : @segments_ok no_memory.
Proof. by intros m size m' address. Qed.

(** A nursery collection of this heap succeeds at the first attempt. *)
Example small_gc :
  match @gc sample_linkage no_memory small_roots COLLECT_NURSERY_OP 0 (small_memory, small_vm 2883584) with
  | Done (m, v) _ => (m, here (nursery (heap_of v)), current_gc v)
  | _ => (∅, 0, None)
  end = (small_memory, 2621440, None).
Proof. vm_compute. reflexivity. Qed.

(** An object that no longer fits is at the start of the nursery after it. *)
Example small_allot :
  match @allot_object sample_linkage no_memory small_roots ARRAY_TYPE 40 (small_memory, small_vm 2883568) with
  | Done (_, v) obj => (obj, here (nursery (heap_of v)))
  | _ => (0, 0)
  end = (2621440, 2621488).
Proof. vm_compute. reflexivity. Qed.


Lemma gc_leaves_witness :
  match @gc sample_linkage no_memory small_roots COLLECT_NURSERY_OP 0 (small_memory, small_vm 2883584) with
  | Done (m', v') _ =>
      current_gc v' = None ∧ current_gc_p v' = false ∧ border_locked v' ≠ Some false ∧
      high_fragmentation_p m' (heap_of v') = Ok false ∧
      here (nursery (heap_of v')) = ba_start (nursery (heap_of v')) ∧
      sized_as 262144 (nursery (heap_of v')) (heap_sizes (heap_of v'))
  | _ => False
  end.
Proof.
  pose proof small_gc as Hgc.
  destruct (@gc_leaves sample_linkage no_memory small_roots COLLECT_NURSERY_OP 0 small_memory (small_vm 2883584))
    as [_ H]; [exact no_memory_ok|exact request_none|apply small_heap_sized; [lia|reflexivity]|].
  destruct (@gc _ _ _ _ _ _) as [[m' v'] []|s|e]; [by apply H|discriminate|discriminate].
Defined.

Lemma allot_object_spec_witness :
  ∃ m' v' obj, @allot_object sample_linkage no_memory small_roots ARRAY_TYPE 32 (small_memory, small_vm 2621456) =
      Done (m', v') obj ∧ allotted ARRAY_TYPE 32 small_memory (small_vm 2621456) m' v' obj.
Proof.
  destruct (@allot_object_spec sample_linkage no_memory small_roots ARRAY_TYPE 32 small_memory (small_vm 2621456))
    as [H _]; [exact no_memory_ok|apply small_heap_sized; [lia|reflexivity]|reflexivity|cbn; lia|].
  apply H; [cbn; lia|by exists 0].
Defined.

(** * Room in tenured space *)

(** Allocation of objects of the given sizes one after the other: whether all
    of them found room. *)
Fixpoint promote (m : memory) (tn : tenured_space) (sizes : list Z) : result bool :=
  match sizes with
  | [] => Ok true
  | size :: sizes =>
      '(m, tn, r) ← tenured_allot m tn size;
      match r with Some _ => promote m tn sizes | None => Ok false end
  end.

(** A heap whose largest free block is 16 bytes larger than the nursery and
    aging space together. *)
Definition tight_heap : data_heap :=
  mk_data_heap 1048576 262144 262144 1048576 (new_segment 1048576 2097152)
    (mk_bump 2883584 2621440 2883584 262144)
    (new_aging_space 262144 2097152) (new_aging_space 262144 2359296)
    (mk_tenured
      (mk_free_list 1048576 2097152 1048576 (replicate 32 []) [1048576] 1 524304 (new_mark_bits 1048576 1048576))
      (empty_starts 1048576 1048576))
    (replicate 8192 0) (replicate 8 0).

Definition tight_memory : memory :=
  list_to_map ((1048576, 524305) :: (1048576 + 1024 + 262128, 0) ::
    ((λ i, (1048576 + 16 * i, 0)) <$> seqZ 1 64)).

