(* ===== verification/Cheney.v ===== *)
(** Correctness of the copying collection of the nursery: [visit_handle] on a
    set of handles followed by [cheneys_algorithm], with [nursery_copier]
    (vm/nursery_collector.cpp, vm/slot_visitor.hpp).

    The nursery is a set of objects at disjoint addresses.  A run of the
    collector is described by the list [cs] of the objects copied, each with
    its destination, in the order of copying: the copies lie one after another
    from [h0] on, every visited slot holds the image of its old value under
    [cs], and a copied object has its destination in its old header. *)

From S2P Require Import Prelude.
From S2P Require Import Layouts.
From S2P Require Import Memory.
From S2P Require Import Effects.
From S2P Require Import FreeList.
From S2P Require Import Sweep.
From S2P Require Import ObjectStartMap.
From S2P Require Import Spaces.
From S2P Require Import DataHeap.
From S2P Require Import Objects.
From S2P Require Import CodeBlocks.
From S2P Require Import SlotVisitor.
From S2P Require Import Collectors.
Local Open Scope cell_scope.

(** ** Tagged pointers *)

Lemma immediate_fixnum n : immediate_p (tag_fixnum n) = true.
Proof.
  unfold immediate_p. rewrite TAG_mod, tag_fixnum_eq. rewrite (Z.mul_comm 16), Z_mod_mult. done.
Qed.

Lemma TAG_range v : 0 ≤ TAG v < 16.
Proof. rewrite TAG_mod. by apply Z.mod_pos_bound. Qed.

Lemma RETAG_spec d t : 0 ≤ d < 2 ^ 63 → d mod 16 = 0 → 0 ≤ t < 16 →
  is_cell (RETAG d t) ∧ UNTAG (RETAG d t) = d ∧ TAG (RETAG d t) = t.
Proof.
  intros Hd H16 Ht. assert (is_cell d) by (unfold is_cell; lia). unfold RETAG.
  rewrite (UNTAG_sub d), H16, Z.sub_0_r, cell_fits_type by done.
  assert (is_cell (d + t)) by (unfold is_cell; lia). rewrite UNTAG_sub, TAG_mod by done.
  split_and!; [done|dlia|dlia].
Qed.

Lemma RETAG_id v : is_cell v → RETAG (UNTAG v) (TAG v) = v.
Proof.
  intros Hv. assert (is_cell (v - v mod 16)) by (unfold is_cell in *; dlia).
  unfold RETAG. rewrite (UNTAG_sub v Hv), TAG_mod, UNTAG_sub by done.
  rewrite cell_fits_type; [dlia|unfold is_cell in *; dlia|dlia|dlia].
Qed.

(** The objects of a nursery: where they are and what shape they have. *)
Record nursery_objects := mk_nursery_objects {
  nobj : Z → Prop;
  otype : Z → Z;
  oslots : Z → Z;
  obytes : Z → Z
}.

Definition osize (O : nursery_objects) (o : Z) : Z := align (obytes O o) data_alignment.

(** The places of a collection: the nursery [[ns, ne)], and the free part
    [[h0, aend)] of aging space. *)
Record places := mk_places { ns : Z; ne : Z; h0 : Z; aend : Z }.

Definition in_nursery (P : places) (a : Z) : Prop := ns P ≤ a < ne P.
Definition outside (P : places) (a : Z) : Prop := ¬ in_nursery P a ∧ ¬ (h0 P ≤ a < aend P).

(** A value that the collector leaves alone. *)
Definition skipped (P : places) (v : Z) : Prop := immediate_p v = true ∨ ¬ in_nursery P (UNTAG v).

#[export] Instance skipped_dec P v : Decision (skipped P v).
Proof. unfold skipped, in_nursery. apply _. Defined.

(** A value that a slot may hold. *)
Definition value_ok (P : places) (O : nursery_objects) (v : Z) : Prop :=
  is_cell v ∧ (skipped P v ∨ nobj O (UNTAG v)).

(** The offsets of the slots of an object. *)
Definition slot_offset (O : nursery_objects) (o k : Z) : Prop := 8 ≤ k ≤ 8 * oslots O o ∧ k mod 8 = 0.

#[export] Instance slot_offset_dec O o k : Decision (slot_offset O o k).
Proof. unfold slot_offset. apply _. Defined.

Record nursery_ok (P : places) (O : nursery_objects) (m0 : memory) : Prop := {
  nu_range : 0 < h0 P ≤ aend P ∧ aend P ≤ ns P ∧ ns P ≤ ne P < 2 ^ 63;
  nu_here : h0 P mod 16 = 0;
  nu_free : mapped m0 (h0 P) (aend P);
  nu_object : ∀ o, nobj O o → object_ok m0 o (otype O o) (oslots O o) (obytes O o);
  nu_header : ∀ o h, nobj O o → m0 !! o = Some h → forwarding_pointer_p h = false;
  nu_plain : ∀ o, nobj O o → otype O o ≠ CALLSTACK_TYPE;
  nu_place : ∀ o, nobj O o → o mod 16 = 0 ∧ ns P ≤ o ∧ o + osize O o ≤ ne P;
  nu_disjoint : ∀ o o', nobj O o → nobj O o' → o < o' → o + osize O o ≤ o';
  nu_mapped : ∀ o, nobj O o → mapped m0 o (o + osize O o);
  nu_slots : ∀ o k v, nobj O o → slot_offset O o k → m0 !! (o + k) = Some v → value_ok P O v;
  nu_layout : ∀ o layout, nobj O o → otype O o = TUPLE_TYPE → m0 !! (o + 8) = Some layout →
    immediate_p layout = false ∧
    (in_nursery P (UNTAG layout) → layout_size < osize O (UNTAG layout)) ∧
    (¬ in_nursery P (UNTAG layout) → outside P (UNTAG layout + layout_size))
}.

(** The copies lie one after another. *)
Fixpoint chain (O : nursery_objects) (a : Z) (cs : list (Z * Z)) (h : Z) : Prop :=
  match cs with
  | [] => h = a
  | (o, d) :: cs => d = a ∧ chain O (a + osize O o) cs h
  end.

Section cheney.
Context (P : places) (O : nursery_objects) (m0 : memory) (handles : list Z).
Context (HN : nursery_ok P O m0).

(** The image of a value. *)
Definition img (cs : list (Z * Z)) (v w : Z) : Prop :=
  (skipped P v ∧ w = v) ∨ (¬ skipped P v ∧ ∃ d, (UNTAG v, d) ∈ cs ∧ w = RETAG d (TAG v)).

(** What a visited word of a copy holds: the word at offset [k] of the object
    [o]. *)
Definition visited_word (cs : list (Z * Z)) (o k w : Z) : Prop :=
  if decide (slot_offset O o k) then ∃ v, m0 !! (o + k) = Some v ∧ img cs v w
  else if decide (otype O o = ALIEN_TYPE ∧ k = 32) then
    ∃ base base' displacement, m0 !! (o + 8) = Some base ∧ img cs base base' ∧
      m0 !! (o + 24) = Some displacement ∧ w = alien_address base' displacement
  else m0 !! (o + k) = Some w.

(** The objects that can be reached from the handles. *)
Inductive reachable : Z → Prop :=
  | reach_handle a v : a ∈ handles → m0 !! a = Some v → ¬ skipped P v → reachable (UNTAG v)
  | reach_slot o k v : reachable o → nobj O o → slot_offset O o k → m0 !! (o + k) = Some v →
      ¬ skipped P v → reachable (UNTAG v).

Definition bump_of (s : memory * collector) : bump_allocator := ag_bump (aging (data s.2)).

(** The state of a collection in which the objects [cs] are copied and the
    words at the addresses [V] are visited. *)
Record inv (V : gset Z) (cs : list (Z * Z)) (s : memory * collector) : Prop := {
  inv_nursery : ba_start (nursery (data s.2)) = ns P ∧ ba_end (nursery (data s.2)) = ne P;
  inv_aging : ∃ objs, aging_ok (aging (data s.2)) objs;
  inv_end : ba_end (bump_of s) = aend P;
  inv_chain : chain O (h0 P) cs (here (bump_of s));
  inv_nodup : NoDup cs.*1;
  inv_from : ∀ o d, (o, d) ∈ cs → nobj O o ∧ reachable o;
  inv_forward : ∀ o d, (o, d) ∈ cs → s.1 !! o = Some (forward_to d);
  inv_old : ∀ a, in_nursery P a → a ∉ cs.*1 → s.1 !! a = m0 !! a;
  inv_copy : ∀ o d k, (o, d) ∈ cs → 0 ≤ k < osize O o → k mod 8 = 0 →
    (d + k ∈ V → ∃ w, s.1 !! (d + k) = Some w ∧ visited_word cs o k w) ∧
    (d + k ∉ V → s.1 !! (d + k) = m0 !! (o + k));
  inv_outside : ∀ a, outside P a →
    (a ∈ V → ∃ v w, m0 !! a = Some v ∧ s.1 !! a = Some w ∧ img cs v w) ∧
    (a ∉ V → s.1 !! a = m0 !! a);
  inv_fresh : ∀ a, h0 P ≤ a < aend P → a ∈ V → a < here (bump_of s);
  inv_dom : ∀ a, is_Some (m0 !! a) → is_Some (s.1 !! a)
}.

(** ** Sizes and places *)

Lemma osize_spec o : nobj O o → 16 ≤ osize O o < 2 ^ 63 ∧ osize O o mod 16 = 0 ∧ obytes O o ≤ osize O o ∧
  0 ≤ oslots O o ∧ 8 * (1 + oslots O o) ≤ osize O o.
Proof using All.
  intros Ho. destruct (shape_bounds _ _ _ _ _ (object_fields _ _ _ _ _ (nu_object _ _ _ HN o Ho))) as (? & ? & ?).
  destruct (align_size (obytes O o) ltac:(lia)) as [??]. unfold osize.
  set (x := align (obytes O o) data_alignment) in *. lia.
Qed.

Lemma slot_in_object o k : nobj O o → slot_offset O o k → 0 ≤ k < osize O o ∧ k mod 8 = 0.
Proof using All. intros Ho [Hk H8]. destruct (osize_spec o Ho). lia. Qed.

Lemma chain_app a cs1 cs2 h :
  chain O a (cs1 ++ cs2) h ↔ ∃ p, chain O a cs1 p ∧ chain O p cs2 h.
Proof.
  revert a. induction cs1 as [|[o d] cs1 IH]; intros a; cbn [app chain].
  - split; [eauto|intros (p & -> & ?); done].
  - rewrite IH. split; [intros (-> & p & ? & ?); eauto|intros (p & [-> ?] & ?); eauto].
Qed.

Lemma chain_bounds a cs h :
  chain O a cs h → (∀ o d, (o, d) ∈ cs → nobj O o) →
  a ≤ h ∧ (h - a) mod 16 = 0 ∧ ∀ o d, (o, d) ∈ cs → a ≤ d ∧ (d - a) mod 16 = 0 ∧ d + osize O o ≤ h.
Proof using All.
  revert a. induction cs as [|[o d] cs IH]; intros a; cbn [chain].
  - intros -> _. rewrite Z.sub_diag. split_and!; [done|done|]. by intros ?? ?%not_elem_of_nil.
  - intros [-> Hc] Hn. destruct (osize_spec o) as (Hs & H16 & _); [apply (Hn o a), elem_of_cons; by left|].
    destruct (IH _ Hc) as (Hle & Hm & Hd). { intros ?? Hin. eapply Hn. apply elem_of_cons; by right. }
    split_and!; [lia|dlia|]. intros o' d' [[= -> ->]|Hin]%elem_of_cons.
    + rewrite Z.sub_diag. split_and!; [lia|done|lia].
    + destruct (Hd o' d' Hin) as (? & ? & ?). split_and!; [lia|dlia|lia].
Qed.

Lemma chain_disjoint a cs h o d o' d' :
  chain O a cs h → (∀ o d, (o, d) ∈ cs → nobj O o) → (o, d) ∈ cs → (o', d') ∈ cs →
  (o, d) = (o', d') ∨ d + osize O o ≤ d' ∨ d' + osize O o' ≤ d.
Proof using All.
  revert a. induction cs as [|[o1 d1] cs IH]; intros a; cbn [chain]; [by intros _ _ ?%not_elem_of_nil|].
  intros [-> Hc] Hn H1 H2.
  assert (∀ o d, (o, d) ∈ cs → nobj O o) as Hn' by (intros ?? Hin; eapply Hn, elem_of_cons; by right).
  destruct (chain_bounds _ _ _ Hc Hn') as (_ & _ & Hb).
  apply elem_of_cons in H1 as [[= -> ->]|H1], H2 as [[= -> ->]|H2]; [by left| | |].
  - destruct (Hb o' d' H2) as [? _]. lia.
  - destruct (Hb o d H1) as [? _]. lia.
  - by apply (IH (a + osize O o1)).
Qed.

(** ** Consequences of the invariant *)

Section invariant.
Context (V : gset Z) (cs : list (Z * Z)) (s : memory * collector).
Context (HI : inv V cs s).

Lemma inv_here : h0 P ≤ here (bump_of s) ≤ aend P ∧ here (bump_of s) mod 16 = 0.
Proof using All.
  destruct (inv_aging _ _ _ HI) as [objs Hag]. pose proof (aging_bump _ _ Hag) as [_ [Hb H16] _ _].
  rewrite <- (inv_end _ _ _ HI). unfold bump_of. split; [|done].
  destruct (chain_bounds _ _ _ (inv_chain _ _ _ HI) (λ o d H, proj1 (inv_from _ _ _ HI o d H))) as (? & _).
  unfold bump_of in *. lia.
Qed.

Lemma inv_copied o d : (o, d) ∈ cs →
  nobj O o ∧ reachable o ∧ h0 P ≤ d ∧ d mod 16 = 0 ∧ d + osize O o ≤ here (bump_of s) ∧ d + osize O o ≤ aend P.
Proof using All.
  intros Hin. destruct (inv_from _ _ _ HI o d Hin) as [Ho Hr]. pose proof inv_here.
  destruct (chain_bounds _ _ _ (inv_chain _ _ _ HI) (λ o d H, proj1 (inv_from _ _ _ HI o d H))) as (_ & _ & Hb).
  destruct (Hb o d Hin) as (? & Hd & ?). pose proof (nu_here _ _ _ HN). split_and!; [done|done|lia|dlia|lia|lia].
Qed.

(** An address of a copy belongs to one copy only. *)
Lemma inv_same_copy o d k o' d' k' :
  (o, d) ∈ cs → (o', d') ∈ cs → 0 ≤ k < osize O o → 0 ≤ k' < osize O o' → d + k = d' + k' →
  o = o' ∧ d = d' ∧ k = k'.
Proof using All.
  intros H1 H2 Hk Hk' E.
  destruct (chain_disjoint _ _ _ o d o' d' (inv_chain _ _ _ HI) (λ o d H, proj1 (inv_from _ _ _ HI o d H)) H1 H2)
    as [[= -> ->]|[?|?]]; [|lia|lia].
  split_and!; [done|done|lia].
Qed.

Lemma copied_address o d k : (o, d) ∈ cs → 0 ≤ k < osize O o → ¬ outside P (d + k) ∧ ¬ in_nursery P (d + k).
Proof using All.
  intros Hin Hk. destruct (inv_copied o d Hin) as (_ & _ & ? & _ & _ & ?).
  destruct (nu_range _ _ _ HN). unfold outside, in_nursery. lia.
Qed.

(** A copied object has one destination. *)
Lemma copied_once o d d' : (o, d) ∈ cs → (o, d') ∈ cs → d = d'.
Proof using All.
  intros H1 H2. pose proof (inv_forward _ _ _ HI _ _ H1) as E. rewrite (inv_forward _ _ _ HI _ _ H2) in E.
  injection E as E. destruct (inv_copied o d H1) as (_ & _ & ? & Hd & _ & ?).
  destruct (inv_copied o d' H2) as (_ & _ & ? & Hd' & _ & ?). destruct (nu_range _ _ _ HN), (osize_spec o) as (? & _); [by eapply inv_copied|].
  unfold forward_to in E. rewrite !cell_fits_type in E by (unfold is_cell; lia). lia.
Qed.

Lemma copied_or_not o : (∃ d, (o, d) ∈ cs) ∨ o ∉ cs.*1.
Proof.
  destruct (decide (o ∈ cs.*1)) as [Hin|]; [left|by right].
  apply list_elem_of_fmap in Hin as ([o' d] & -> & Hin). by exists d.
Qed.

(** The words of a nursery object after its header are not changed. *)
Lemma inv_old_word o k : nobj O o → 0 < k < osize O o → s.1 !! (o + k) = m0 !! (o + k).
Proof using All.
  intros Ho Hk. destruct (nu_place _ _ _ HN o Ho) as (H16 & ? & ?).
  apply (inv_old _ _ _ HI); [unfold in_nursery; lia|].
  intros ([o' d] & E & Hin)%list_elem_of_fmap. cbn in E.
  destruct (inv_copied o' d Hin) as (Ho' & _). destruct (nu_place _ _ _ HN o' Ho') as (H16' & _).
  destruct (decide (o < o')).
  - pose proof (nu_disjoint _ _ _ HN o o' Ho Ho' ltac:(lia)). lia.
  - destruct (decide (o = o')); [lia|]. destruct (osize_spec o' Ho').
    pose proof (nu_disjoint _ _ _ HN o' o Ho' Ho ltac:(lia)). lia.
Qed.

(** A word that the collector leaves alone keeps its value in a copy. *)
Lemma copy_skipped o d k v :
  (o, d) ∈ cs → 0 ≤ k < osize O o → k mod 8 = 0 → m0 !! (o + k) = Some v → skipped P v →
  ¬ (otype O o = ALIEN_TYPE ∧ k = 32) → s.1 !! (d + k) = Some v.
Proof using All.
  intros Hin Hk H8 Hv Hsk Hal. destruct (inv_copy _ _ _ HI o d k Hin Hk H8) as [H1 H2].
  destruct (decide (d + k ∈ V)) as [HV|HV]; [|by rewrite H2].
  destruct (H1 HV) as (w & Hw & Hvw). unfold visited_word in Hvw. rewrite Hw. f_equal.
  case_decide; [|case_decide; [done|congruence]].
  destruct Hvw as (v' & Hv' & [[_ ->]|[Hns _]]); congruence.
Qed.

(** Nor does a skipped word outside the two spaces change. *)
Lemma outside_skipped a v : outside P a → m0 !! a = Some v → skipped P v → s.1 !! a = Some v.
Proof using All.
  intros Ha Hv Hsk. destruct (inv_outside _ _ _ HI a Ha) as [H1 H2].
  destruct (decide (a ∈ V)) as [HV|HV]; [|by rewrite H2].
  destruct (H1 HV) as (v' & w & Hv' & Hw & [[_ ->]|[Hns _]]); congruence.
Qed.

(** ** The objects, before and after copying *)

Lemma tuple_layout_word o layout n :
  nobj O o → otype O o = TUPLE_TYPE → m0 !! (o + 8) = Some layout → 1 ≤ oslots O o →
  length_at m0 (UNTAG layout + layout_size) n →
  length_at s.1 (UNTAG layout + layout_size) n.
Proof using All.
  intros Ho Ht Hl Hn [Hs Hr]. split; [|done].
  destruct (nu_layout _ _ _ HN o layout Ho Ht Hl) as (Him & Hin & Hout).
  assert (skipped P (tag_fixnum n)) as Hsk by (left; apply immediate_fixnum).
  destruct (decide (skipped P layout)) as [[?|Hni]|Hns]; [congruence| |].
  - by apply outside_skipped; [apply Hout| |].
  - destruct (nu_slots _ _ _ HN o 8 layout Ho) as [_ [?|HL]]; [split; [lia|done]|done|done|].
    rewrite (inv_old_word _ layout_size HL); [done|]. unfold layout_size in *.
    assert (in_nursery P (UNTAG layout)) as Hi.
    { destruct (nu_place _ _ _ HN _ HL) as (_ & ? & ?), (osize_spec _ HL). unfold in_nursery. lia. }
    specialize (Hin Hi). lia.
Qed.

Lemma copied_layout_word o layout layout' n :
  nobj O o → otype O o = TUPLE_TYPE → m0 !! (o + 8) = Some layout → 1 ≤ oslots O o →
  is_cell layout → UNTAG layout < 2 ^ 63 →
  length_at m0 (UNTAG layout + layout_size) n → img cs layout layout' →
  is_cell layout' ∧ UNTAG layout' < 2 ^ 63 ∧ length_at s.1 (UNTAG layout' + layout_size) n.
Proof using All.
  intros Ho Ht Hl Hn Hc Hu Hlen [[_ ->]|(Hns & d & Hin & ->)]; [eauto using tuple_layout_word|].
  destruct (inv_copied _ _ Hin) as (HL & _ & ? & H16 & _ & ?), (nu_range _ _ _ HN).
  destruct (osize_spec _ HL). pose proof (TAG_range layout).
  destruct (RETAG_spec d (TAG layout)) as (C & -> & _); [lia..|]. split_and!; [done|lia|].
  destruct Hlen as [Hs Hr]. split; [|done].
  destruct (nu_layout _ _ _ HN o layout Ho Ht Hl) as (_ & Hsz & _).
  assert (in_nursery P (UNTAG layout)) as Hi.
  { destruct (nu_place _ _ _ HN _ HL) as (_ & ? & ?). unfold in_nursery. lia. }
  specialize (Hsz Hi). unfold layout_size in *.
  apply (copy_skipped _ _ _ _ Hin); [lia|done|done|left; apply immediate_fixnum|lia].
Qed.

(** An object of the nursery that is not copied is as it was. *)
Lemma old_object_ok o : nobj O o → o ∉ cs.*1 → object_ok s.1 o (otype O o) (oslots O o) (obytes O o).
Proof using All.
  intros Ho Hnew. destruct (nu_object _ _ _ HN o Ho) as [Ha (h & Hh & Hf) Hs].
  destruct (osize_spec o Ho) as (? & _), (nu_place _ _ _ HN o Ho) as (_ & ? & ?).
  split; [done| |].
  - exists h. split; [|done]. rewrite (inv_old _ _ _ HI); [done|unfold in_nursery; lia|done].
  - assert (∀ n, length_at m0 (o + 8) n → length_at s.1 (o + 8) n) as H8.
    { intros n [? ?]. split; [|done]. rewrite inv_old_word by (done || lia). done. }
    pose proof (shape_bounds _ _ _ _ _ Hs) as (Hn & _).
    remember (otype O o) as t eqn:Et. remember (oslots O o) as k eqn:Ek.
    destruct Hs as [n Hl|n Hl|n Hl|n Hl|layout n Hl Hc Hu Hn'| | | | | | |n Hl]; try by constructor; auto.
    apply (shape_tuple _ _ layout); [by rewrite inv_old_word by (done || lia)|done|done|].
    destruct Hn' as [? ?]. eapply tuple_layout_word; try done. lia.
Qed.

(** A copy has the shape of the object it is a copy of. *)
Lemma copy_object_ok o d : (o, d) ∈ cs → object_ok s.1 d (otype O o) (oslots O o) (obytes O o).
Proof using All.
  intros Hin. destruct (inv_copied o d Hin) as (Ho & _ & ? & H16 & _ & ?), (nu_range _ _ _ HN).
  destruct (nu_object _ _ _ HN o Ho) as [Ha (h & Hh & Hf) Hs], (osize_spec o Ho) as (? & _).
  split; [lia| |].
  - exists h. split; [|done]. destruct (inv_copy _ _ _ HI o d 0 Hin ltac:(lia) eq_refl) as [C1 C2].
    rewrite !Z.add_0_r in *. destruct (decide (d ∈ V)) as [HV|HV]; [|by rewrite C2].
    destruct (C1 HV) as (w & Hw & Hvw). unfold visited_word, slot_offset in Hvw.
    rewrite !decide_False in Hvw by lia. rewrite Z.add_0_r in Hvw. congruence.
  - assert (∀ n, length_at m0 (o + 8) n → length_at s.1 (d + 8) n) as H8.
    { intros n [? ?]. split; [|done]. apply (copy_skipped o); [done|lia|done|done|left; apply immediate_fixnum|lia]. }
    pose proof (shape_bounds _ _ _ _ _ Hs) as (Hn & _).
    remember (otype O o) as t eqn:Et. remember (oslots O o) as k eqn:Ek.
    destruct Hs as [n Hl|n Hl|n Hl|n Hl|layout n Hl Hc Hu Hn'| | | | | | |n Hl]; try by constructor; auto.
    destruct (inv_copy _ _ _ HI o d 8 Hin ltac:(lia) eq_refl) as [C1 C2].
    pose proof (proj2 Hn') as Hr.
    destruct (decide (d + 8 ∈ V)) as [HV|HV].
    + destruct (C1 HV) as (w & Hw & Hvw). unfold visited_word in Hvw.
      rewrite decide_True in Hvw by (split; [lia|done]). destruct Hvw as (v & Hv & Himg).
      assert (v = layout) as -> by congruence.
      destruct (copied_layout_word o layout w n) as (? & ? & ?); try done; [lia|]. by apply (shape_tuple _ _ w).
    + apply (shape_tuple _ _ layout); [by rewrite C2|done|done|]. eapply tuple_layout_word; try done. lia.
Qed.

End invariant.

(** ** Steps *)

Lemma img_mono cs cs' v w : cs ⊆ cs' → img cs v w → img cs' v w.
Proof. intros Hsub [?|(? & d & Hd & ->)]; [by left|right]. split; [done|]. exists d. auto. Qed.

Lemma visited_word_mono cs cs' o k w : cs ⊆ cs' → visited_word cs o k w → visited_word cs' o k w.
Proof.
  intros Hsub. unfold visited_word. case_decide; [|case_decide; [|done]].
  - intros (v & ? & ?). eauto using img_mono.
  - intros (b & b' & x & ? & ? & ? & ?). exists b, b', x. eauto using img_mono.
Qed.

(** A place to visit, with the value it had at the start. *)
Definition place (cs : list (Z * Z)) (a v : Z) : Prop :=
  (a ∈ handles ∧ outside P a ∧ m0 !! a = Some v) ∨
  ∃ o d k, (o, d) ∈ cs ∧ slot_offset O o k ∧ a = d + k ∧ m0 !! (o + k) = Some v.

Lemma place_reachable V cs s a v : inv V cs s → place cs a v → ¬ skipped P v → reachable (UNTAG v).
Proof using All.
  intros HI [(Ha & _ & Hv)|(o & d & k & Hin & Hk & -> & Hv)] Hns; [by eapply reach_handle|].
  destruct (inv_from _ _ _ HI o d Hin). by eapply reach_slot.
Qed.

Lemma place_raw V cs s a v : inv V cs s → place cs a v → a ∉ V → s.1 !! a = Some v.
Proof using All.
  intros HI [(_ & Ha & Hv)|(o & d & k & Hin & Hk & -> & Hv)] HV.
  - by rewrite (proj2 (inv_outside _ _ _ HI a Ha) HV).
  - destruct (slot_in_object o k) as [Hk' H8]; [by eapply inv_copied|done|].
    by rewrite (proj2 (inv_copy _ _ _ HI o d k Hin Hk' H8) HV).
Qed.

Lemma place_mono cs cs' a v : cs ⊆ cs' → place cs a v → place cs' a v.
Proof. intros Hsub [?|(o & d & k & Hin & ?)]; [by left|right]. exists o, d, k. split; [by apply Hsub|done]. Qed.

Lemma place_mapped V cs s a v : inv V cs s → place cs a v → is_Some (m0 !! a).
Proof using All.
  intros HI [(_ & _ & Hv)|(o & d & k & Hin & Hk & -> & Hv)]; [eauto|].
  destruct (slot_in_object o k) as [Hk' ?]; [by eapply inv_copied|done|].
  destruct (inv_copied _ _ _ HI _ _ Hin) as (_ & _ & ? & ? & _ & ?).
  apply (nu_free _ _ _ HN); [lia|dlia].
Qed.

Lemma sub_app (cs new : list (Z * Z)) : cs ⊆ cs ++ new.
Proof. intros x Hx. apply elem_of_app. by left. Qed.

(** A word that may be stored at [a]. *)
Definition spot (cs : list (Z * Z)) (a w : Z) : Prop :=
  (outside P a ∧ ∃ v, m0 !! a = Some v ∧ img cs v w) ∨
  ∃ o d k, (o, d) ∈ cs ∧ 0 ≤ k < osize O o ∧ k mod 8 = 0 ∧ a = d + k ∧ visited_word cs o k w.

Lemma place_spot V cs s a v w : inv V cs s → place cs a v → img cs v w → spot cs a w.
Proof using All.
  intros HI [(_ & Ha & Hv)|(o & d & k & Hin & Hk & -> & Hv)] Himg; [left; eauto|right].
  destruct (slot_in_object o k) as [Hk' H8]; [by eapply inv_copied|done|].
  exists o, d, k. split_and!; [done|lia|lia|done|done|]. unfold visited_word. rewrite decide_True by done. eauto.
Qed.

(** Storing a word. *)
Lemma inv_store V cs s a w :
  inv V cs s → spot cs a w → inv (V ∪ {[a]}) cs (<[a := w]> s.1, s.2).
Proof using All.
  intros HI Hp. pose proof HI as [I1 I2 I3 I4 I5 I6 I7 I8 I9 I10 I11 I12].
  assert (¬ in_nursery P a) as Hna.
  { destruct Hp as [([? _] & _)|(o & d & k & Hin & Hk & _ & -> & _)]; [done|]. by eapply copied_address. }
  split; cbn [fst snd]; try done.
  - intros o d Hin. rewrite lookup_insert_ne; [by apply I7|]. intros ->.
    destruct (inv_copied _ _ _ HI _ _ Hin) as (Ho & _), (nu_place _ _ _ HN o Ho) as (_ & ? & ?), (osize_spec o Ho).
    unfold in_nursery in Hna. lia.
  - intros b Hb Hc. rewrite lookup_insert_ne by congruence. by apply I8.
  - intros o d k Hin Hk H8. destruct (decide (d + k = a)) as [E|E].
    + split; [|intros HV; exfalso; apply HV, elem_of_union; right; by apply elem_of_singleton].
      intros _. exists w. rewrite E, lookup_insert_eq. split; [done|].
      destruct Hp as [(Hout & _)|(o' & d' & k' & Hin' & Hk' & _ & E' & Hv)].
      { destruct (copied_address _ _ _ HI o d k Hin Hk) as [Hno _]. by rewrite E in Hno. }
      by destruct (inv_same_copy _ _ _ HI o d k o' d' k') as (-> & -> & ->); [..|lia|].
    + rewrite lookup_insert_ne by done. rewrite elem_of_union, elem_of_singleton.
      destruct (I9 o d k Hin Hk H8). split; tauto.
  - intros b Hb. destruct (decide (b = a)) as [->|E].
    + split; [|intros HV; exfalso; apply HV, elem_of_union; right; by apply elem_of_singleton].
      intros _. destruct Hp as [(_ & v & Hv & Himg)|(o' & d' & k' & Hin' & Hk' & _ & E' & Hv)].
      * exists v, w. by rewrite lookup_insert_eq.
      * destruct (copied_address _ _ _ HI o' d' k' Hin' Hk') as [Hno _]. by rewrite <- E' in Hno.
    + rewrite lookup_insert_ne by done. rewrite elem_of_union, elem_of_singleton. destruct (I10 b Hb). split; tauto.
  - intros b Hb [HV|E%elem_of_singleton]%elem_of_union; [by apply I11|]. subst b.
    destruct Hp as [([_ ?] & _)|(o' & d' & k' & Hin' & Hk' & _ & -> & _)]; [done|].
    destruct (inv_copied _ _ _ HI _ _ Hin') as (_ & _ & _ & _ & ? & _). unfold bump_of in *. cbn in *. lia.
  - intros b Hb. destruct (decide (b = a)) as [->|]; [rewrite lookup_insert_eq; eauto|].
    rewrite lookup_insert_ne by done. by apply I12.
Qed.

(** ** Copying an object *)

Definition total_osize (l : list Z) : Z := foldr (λ o t, osize O o + t) 0 l.

Lemma chain_total a cs h : chain O a cs h → h = a + total_osize cs.*1.
Proof.
  revert a. induction cs as [|[o d] cs IH]; intros a; cbn [chain]; [intros ->; cbn; lia|].
  intros [-> Hc]. apply IH in Hc. cbn. fold (total_osize cs.*1). lia.
Qed.

Definition object_lines (o : Z) : list Z := seqZ (o / 16) (osize O o / 16).

Lemma length_object_lines l :
  (∀ o, o ∈ l → nobj O o) → 16 * Z.of_nat (length (l ≫= object_lines)) = total_osize l.
Proof using All.
  induction l as [|o l IH]; intros Hl; [done|]. cbn. rewrite length_app, Nat2Z.inj_add, Z.mul_add_distr_l, IH.
  - destruct (osize_spec o) as (? & H16 & _); [apply Hl; set_solver|].
    unfold object_lines at 1. rewrite length_seqZ. fold (total_osize l). dlia.
  - intros o' Ho'. apply Hl. set_solver.
Qed.

(** The objects of the nursery fit in the nursery. *)
Lemma objects_fit l : NoDup l → (∀ o, o ∈ l → nobj O o) → total_osize l ≤ ne P - ns P.
Proof using All.
  intros Hnd Hl. rewrite <- length_object_lines by done.
  assert (∀ o y, nobj O o → y ∈ object_lines o → o ≤ 16 * y ∧ 16 * y + 16 ≤ o + osize O o) as Hy.
  { intros o y Ho. unfold object_lines. rewrite elem_of_seqZ. destruct (nu_place _ _ _ HN o Ho) as (? & _).
    destruct (osize_spec o Ho) as (? & ? & _). intros. split; dlia. }
  assert (l ≫= object_lines ⊆+ seqZ ((ns P + 15) / 16) ((ne P - ns P) / 16)) as Hsub.
  { apply NoDup_submseteq.
    - apply NoDup_bind; [| |done].
      + intros o1 o2 y H1 H2 Y1%Hy Y2%Hy; auto. apply Hl in H1, H2.
        destruct (decide (o1 < o2)) as [Hlt|]; [pose proof (nu_disjoint _ _ _ HN _ _ H1 H2 Hlt); lia|].
        destruct (decide (o2 < o1)) as [Hlt|]; [pose proof (nu_disjoint _ _ _ HN _ _ H2 H1 Hlt); lia|]. lia.
      + intros o _. apply NoDup_seqZ.
    - intros y (o & Y & Ho)%list_elem_of_bind. pose proof (Hl _ Ho) as Ho'. apply Hy in Y; [|done].
      destruct (nu_place _ _ _ HN o Ho') as (? & ? & ?). apply elem_of_seqZ. dlia. }
  apply submseteq_length in Hsub. rewrite length_seqZ in Hsub. destruct (nu_range _ _ _ HN). dlia.
Qed.

Lemma align_aligned x : 0 ≤ x < 2 ^ 63 → x mod 16 = 0 → align x data_alignment = x.
Proof.
  intros Hx H16. destruct (align_bounds x 4) as [? ?]; [lia|unfold is_cell; lia|lia|].
  change (2 ^ 4) with data_alignment in *. set (y := align x data_alignment) in *.
  change data_alignment with 16 in *. dlia.
Qed.

(** The state after the object [o] has been copied to [d]. *)
Lemma inv_copy_step V cs s o ag' m1 :
  inv V cs s → nobj O o → reachable o → o ∉ cs.*1 →
  let d := here (bump_of s) in
  (∃ objs, aging_ok ag' objs) → ba_end (ag_bump ag') = aend P → here (ag_bump ag') = d + osize O o →
  (∀ k, 0 ≤ k < osize O o / 8 → m1 !! (d + 8 * k) = s.1 !! (o + 8 * k)) →
  (∀ x, ¬ (d ≤ x < d + osize O o) → m1 !! x = s.1 !! x) →
  (∀ x, is_Some (s.1 !! x) → is_Some (m1 !! x)) →
  inv V (cs ++ [(o, d)]) (<[o := forward_to d]> m1, with_aging s.2 ag').
Proof using All.
  intros HI Ho Hr Hnew d Hag Hend Hhere Hcp Hfr Hdom. pose proof HI as [I1 I2 I3 I4 I5 I6 I7 I8 I9 I10 I11 I12].
  destruct (osize_spec o Ho) as (Hs & Hs16 & _), (nu_place _ _ _ HN o Ho) as (Ho16 & Hon & Hoe).
  pose proof (inv_here _ _ _ HI) as [Hh Hh16]. fold d in Hh, Hh16. pose proof (nu_range _ _ _ HN) as (Hr0 & Hr1 & Hr2).
  assert (d + osize O o ≤ aend P) as Hde.
  { destruct Hag as [objs Hag]. destruct (aging_bump _ _ Hag) as [_ [Hb _] _ _]. lia. }
  assert (∀ x, ¬ (d ≤ x < d + osize O o) → x ≠ o → <[o := forward_to d]> m1 !! x = s.1 !! x) as Hold.
  { intros x Hx Hne. rewrite lookup_insert_ne by done. by apply Hfr. }
  assert (cs ⊆ cs ++ [(o, d)]) as Hsub by (intros x Hx; apply elem_of_app; by left).
  split; cbn [fst snd].
  - done.
  - done.
  - done.
  - apply chain_app. exists d. split; [done|]. cbn. split; [done|]. unfold bump_of. cbn. done.
  - rewrite fmap_app. apply NoDup_app. split_and!; [done| |apply NoDup_singleton].
    cbn. by intros x Hx ->%list_elem_of_singleton.
  - intros o' d' [Hin|[= -> ->]%list_elem_of_singleton]%elem_of_app; [by eapply I6|done].
  - intros o' d' [Hin|[= -> ->]%list_elem_of_singleton]%elem_of_app; [|by rewrite lookup_insert_eq].
    destruct (inv_copied _ _ _ HI _ _ Hin) as (Ho' & _), (nu_place _ _ _ HN o' Ho') as (_ & ? & ?).
    rewrite Hold; [by apply I7|lia|]. intros ->. apply Hnew. apply list_elem_of_fmap. by exists (o, d').
  - intros a Ha Hnc. rewrite fmap_app, elem_of_app in Hnc. cbn in Hnc. rewrite list_elem_of_singleton in Hnc.
    unfold in_nursery in Ha. rewrite Hold by (try lia; tauto). apply I8; [done|tauto].
  - intros o' d' k [Hin|[= -> ->]%list_elem_of_singleton]%elem_of_app Hk H8.
    + destruct (inv_copied _ _ _ HI _ _ Hin) as (_ & _ & ? & _ & ? & _). fold d in H0.
      rewrite Hold by lia. destruct (I9 o' d' k Hin Hk H8) as [C1 C2]. split; [|done].
      intros HV. destruct (C1 HV) as (w & ? & ?). eauto using visited_word_mono.
    + split; [intros HV; exfalso; specialize (I11 (d + k) ltac:(lia) HV); fold d in I11; lia|]. intros _.
      rewrite lookup_insert_ne by lia. replace k with (8 * (k / 8)) by dlia. rewrite Hcp by dlia.
      destruct (decide (k = 0)) as [->|]; [rewrite Z.add_0_r; apply I8; [unfold in_nursery; lia|done]|].
      eapply inv_old_word; [done|done|dlia].
  - intros a Ha. unfold outside, in_nursery in Ha. rewrite Hold by lia.
    destruct (I10 a ltac:(unfold outside, in_nursery; lia)) as [C1 C2]. split; [|done].
    intros HV. destruct (C1 HV) as (v & w & ? & ? & ?). eauto 6 using img_mono.
  - intros a Ha HV. specialize (I11 a Ha HV). fold d in I11. unfold bump_of. cbn. lia.
  - intros a Ha. destruct (decide (a = o)) as [->|]; [rewrite lookup_insert_eq; eauto|].
    rewrite lookup_insert_ne by done. auto.
Qed.

(** ** The visitor

    The exception is possible only when the free part of aging space is
    smaller than the nursery. *)
Definition may_fail : Prop := aend P - h0 P < ne P - ns P.
Notation ends := (ends may_fail).

Lemma ends_get {A B} (f : collector → A) (g : A → eff collector B) s Q :
  ends (g (f s.2)) s Q → ends (a ← get f; g a) s Q.
Proof. done. Qed.

Lemma contains_nursery V cs s a :
  inv V cs s → bump_contains_p (nursery (data s.2)) a = true ↔ in_nursery P a.
Proof.
  intros HI. destruct (inv_nursery _ _ _ HI) as [E1 E2]. unfold bump_contains_p, in_nursery.
  rewrite E1, E2, andb_true_iff, Z.leb_le, Z.ltb_lt. done.
Qed.

(** Following forwarding pointers from an object of the nursery. *)
Lemma follow_forwarding_spec V cs s o :
  inv V cs s → nobj O o →
  ends (follow_forwarding o) s (λ s' r, s' = s ∧ ((o, r) ∈ cs ∨ (r = o ∧ o ∉ cs.*1))).
Proof using All.
  intros HI Ho. destruct (nu_place _ _ _ HN o Ho) as (_ & ? & ?), (osize_spec o Ho) as (? & _).
  apply (ends_loop _ _ (λ r s', s' = s ∧ (r = o ∨ (o, r) ∈ cs)) (λ r, if decide (r = o) then 1 else 0));
    [eauto|case_decide; lia|].
  intros r s' [-> Hr]. destruct (nu_object _ _ _ HN o Ho) as [_ (h & Hh & _) _].
  pose proof (nu_header _ _ _ HN o h Ho Hh) as Hnf.
  destruct (copied_or_not cs o) as [[d Hd]|Hnew].
  - destruct (inv_copied _ _ _ HI _ _ Hd) as (_ & _ & ? & Hd16 & _ & ?), (nu_range _ _ _ HN).
    destruct Hr as [->|Hr].
    + eapply ends_bind_reads; [apply load_Ok, (inv_forward _ _ _ HI _ _ Hd)|]. apply ends_ret.
      assert (forward_to d = d + 2) as Ef by (unfold forward_to; apply cell_fits_type; [unfold is_cell; lia|done|lia]).
      rewrite forwarding_pointer_p_odd, Ef. unfold forwarding_pointer.
      replace ((d + 2) / 2) with (2 * (4 * (d / 16)) + 1) by dlia. rewrite Z.odd_add, Z.odd_mul. cbn [Z.odd andb xorb].
      rewrite UNTAG_sub by (unfold is_cell; lia). replace (d + 2 - (d + 2) mod 16) with d by dlia.
      split; [eauto|]. rewrite decide_False, decide_True by lia. lia.
    + assert (s.1 !! r = Some h) as Er.
      { destruct (copy_object_ok _ _ _ HI o r Hr) as [_ _ _].
        destruct (inv_copy _ _ _ HI o r 0 Hr ltac:(lia) eq_refl) as [C1 C2]. rewrite !Z.add_0_r in *.
        destruct (decide (r ∈ V)) as [HV|HV]; [|by rewrite C2].
        destruct (C1 HV) as (w & Hw & Hvw). unfold visited_word, slot_offset in Hvw.
        rewrite !decide_False, Z.add_0_r in Hvw by lia. congruence. }
      eapply ends_bind_reads; [by apply load_Ok|]. apply ends_ret. rewrite Hnf. eauto.
  - destruct Hr as [->|Hr].
    + eapply ends_bind_reads.
      { apply load_Ok. rewrite (inv_old _ _ _ HI); [done|unfold in_nursery; lia|done]. }
      apply ends_ret. rewrite Hnf. auto.
    + exfalso. apply Hnew. apply list_elem_of_fmap. by exists (o, r).
Qed.

(** Allocation in aging space: the exception is thrown only when the objects
    copied and this one do not fit. *)
Lemma allot_in_aging_spec V cs s o :
  inv V cs s → nobj O o → o ∉ cs.*1 →
  ends (allot_in_aging (osize O o)) s (λ s' d, d = here (bump_of s) ∧ ∃ ag', s' = (s.1, with_aging s.2 ag') ∧
    (∃ objs, aging_ok ag' objs) ∧ ba_end (ag_bump ag') = aend P ∧ here (ag_bump ag') = d + osize O o).
Proof using All.
  intros HI Ho Hnew. destruct (osize_spec o Ho) as (Hs & Hs16 & _).
  destruct (inv_aging _ _ _ HI) as [objs Hag]. pose proof (inv_end _ _ _ HI) as Hend.
  unfold bump_of in *. destruct (aging_allot_spec _ objs (osize O o) Hag ltac:(lia)) as [Hfull Hfit].
  unfold allot_in_aging. apply ends_bind_get.
  destruct (decide (here (ag_bump (aging (data s.2))) + osize O o ≤ aend P)) as [Hle|Hgt].
  - destruct (Hfit ltac:(lia)) as (ag' & line & Ea & _ & Hag' & Eh & _ & _ & Ee).
    rewrite align_aligned in Eh by lia. eapply ends_bind_reads; [done|]. cbn beta iota.
    apply ends_bind_put, ends_ret. split; [done|]. exists ag'. split_and!; [done|eauto|lia|done].
  - eapply ends_bind_reads; [apply Hfull; lia|]. cbn beta iota. apply ends_bind_put.
    change may_fail. unfold may_fail.
    pose proof (chain_total _ _ _ (inv_chain _ _ _ HI)) as Ht. unfold bump_of in Ht.
    assert (total_osize (o :: cs.*1) ≤ ne P - ns P) as Hf.
    { apply objects_fit; [by constructor; [|apply (inv_nodup _ _ _ HI)]|].
      intros x [->|([o' d] & -> & Hin)%list_elem_of_fmap]%elem_of_cons; [done|]. by eapply inv_copied. }
    cbn in Hf. fold (total_osize cs.*1) in Hf. lia.
Qed.

(** [memcpy] and the forwarding pointer. *)
Lemma copy_and_forward_spec V cs s o ag' :
  inv V cs s → nobj O o → reachable o → o ∉ cs.*1 →
  (∃ objs, aging_ok ag' objs) → ba_end (ag_bump ag') = aend P →
  here (ag_bump ag') = here (bump_of s) + osize O o →
  ends (copy_and_forward (here (bump_of s)) o (osize O o)) (s.1, with_aging s.2 ag')
    (λ s' _, inv V (cs ++ [(o, here (bump_of s))]) s').
Proof using All.
  intros HI Ho Hr Hnew Hag Hend Hhere. destruct (osize_spec o Ho) as (Hs & Hs16 & _).
  destruct (nu_place _ _ _ HN o Ho) as (Ho16 & ? & ?). pose proof (nu_range _ _ _ HN) as (Hr0 & Hr1 & Hr2).
  pose proof (inv_here _ _ _ HI) as [Hh Hh16].
  assert (here (bump_of s) + osize O o ≤ aend P) as Hde.
  { destruct Hag as [objs Hag]. destruct (aging_bump _ _ Hag) as [_ [Hb _] _ _]. lia. }
  unfold copy_and_forward. set (d := here (bump_of s)) in *.
  destruct (move_words_spec (Z.to_nat (osize O o / 8)) s.1 d o) as (m1 & E & Hcp & Hfr & Hdom); [lia|dlia| |].
  { intros k Hk. split; apply (inv_dom _ _ _ HI).
    - apply (nu_free _ _ _ HN); dlia.
    - apply (nu_mapped _ _ _ HN o Ho); dlia. }
  eapply ends_bind_writes; [exact E|]. eapply ends_writes.
  { apply store_Ok, Hdom, (inv_dom _ _ _ HI). apply (nu_mapped _ _ _ HN o Ho); dlia. }
  apply (inv_copy_step V cs s o ag' m1); try done.
  - intros k Hk. apply Hcp. dlia.
  - intros x Hx. apply Hfr. dlia.
Qed.

(** [nursery_fixup_data] copies an object of the nursery once and returns its
    copy. *)
Lemma fixup_data_spec V cs s o :
  inv V cs s → nobj O o → reachable o →
  ends (nursery_fixup_data o) s (λ s' r, ∃ new, inv V (cs ++ new) s' ∧ (o, r) ∈ cs ++ new).
Proof using All.
  intros HI Ho Hr. destruct (nu_place _ _ _ HN o Ho) as (Ho16 & ? & ?), (osize_spec o Ho) as (Hs & Hs16 & _).
  pose proof (nu_range _ _ _ HN) as (Hr0 & Hr1 & Hr2).
  unfold nursery_fixup_data. apply ends_get.
  rewrite (proj2 (contains_nursery _ _ _ o HI)) by (unfold in_nursery; lia). cbn [negb].
  apply ends_bind. eapply ends_mono; [by eapply follow_forwarding_spec|]. intros s' r [-> [Hin|[-> Hnew]]].
  { destruct (inv_copied _ _ _ HI _ _ Hin) as (_ & _ & ? & _ & _ & ?).
    destruct (bump_contains_p _ r) eqn:E; [apply (contains_nursery _ _ _ _ HI) in E; unfold in_nursery in E; lia|].
    cbn [negb]. apply ends_ret. exists []. by rewrite app_nil_r. }
  rewrite (proj2 (contains_nursery _ _ _ o HI)) by (unfold in_nursery; lia). cbn [negb].
  eapply ends_bind_reads; [by eapply object_size_eq, old_object_ok|]. fold (osize O o).
  apply ends_bind. eapply ends_mono; [by eapply allot_in_aging_spec|].
  intros s' d (-> & ag' & -> & Hag & Hend & Hhere). apply ends_bind.
  eapply ends_mono; [by eapply copy_and_forward_spec|]. intros s' u HI'. apply ends_ret.
  exists [(o, here (bump_of s))]. split; [done|]. apply elem_of_app. right. by apply list_elem_of_singleton.
Qed.

(** [visit_handle] replaces the value at a place by its image. *)
Lemma visit_handle_spec V cs s a v :
  inv V cs s → place cs a v → value_ok P O v → a ∉ V →
  ends (visit_handle (H := nursery_copier) a) s (λ s' _, ∃ new, inv (V ∪ {[a]}) (cs ++ new) s').
Proof using All.
  intros HI Hp [Hc Hv] HV. pose proof (place_raw _ _ _ _ _ HI Hp HV) as Ea.
  unfold visit_handle. eapply ends_bind_reads; [by apply load_Ok|].
  destruct (immediate_p v) eqn:Him; cbn [negb].
  { apply ends_ret. exists []. rewrite app_nil_r.
    pose proof (inv_store V cs s a v HI (place_spot _ _ _ _ _ _ HI Hp (or_introl (conj (or_introl Him) eq_refl)))) as HI'.
    rewrite insert_id in HI' by done. by destruct s. }
  apply ends_bind. unfold visit_pointer. eapply ends_bind_reads; [reflexivity|]. apply ends_bind.
  cbn [fixup_data nursery_copier].
  eapply (ends_mono _ _ _ (λ s' r, ∃ new, inv V (cs ++ new) s' ∧ img (cs ++ new) v (RETAG r (TAG v)))).
  { destruct (decide (skipped P v)) as [Hsk|Hns].
    - unfold nursery_fixup_data. apply ends_get. destruct (bump_contains_p _ _) eqn:E.
      { apply (contains_nursery _ _ _ _ HI) in E. destruct Hsk as [?|Hsk]; [congruence|by destruct Hsk]. }
      cbn [negb]. apply ends_ret. exists []. rewrite app_nil_r. split; [done|]. left. split; [done|].
      by apply RETAG_id.
    - destruct Hv as [?|Ho]; [done|].
      eapply ends_mono; [eapply fixup_data_spec; [done|done|by eapply place_reachable]|].
      intros s' r (new & HI' & Hin). exists new. split; [done|]. right. eauto. }
  intros s' r (new & HI' & Himg). apply ends_ret. eapply ends_writes.
  { apply store_Ok, (inv_dom _ _ _ HI'). exact (place_mapped _ _ _ _ _ HI Hp). }
  exists new. apply inv_store; [done|]. eapply place_spot; [done|eapply place_mono; [apply sub_app|done]|done].
Qed.

(** ** Visiting a range of places *)

Lemma visit_places V cs s (l : list Z) :
  inv V cs s → NoDup l → (∀ a, a ∈ l → a ∉ V ∧ ∃ v, place cs a v ∧ value_ok P O v) →
  ends (for_each l (visit_handle (H := nursery_copier))) s
    (λ s' _, ∃ new, inv (V ∪ list_to_set l) (cs ++ new) s').
Proof using All.
  intros HI Hnd Hl.
  apply (ends_for_each _ l _ (λ dn s', ∃ new, inv (V ∪ list_to_set dn) (cs ++ new) s')).
  { exists []. rewrite app_nil_r. cbn. by rewrite union_empty_r_L. }
  intros dn a rest s' E (new & HI'). destruct (Hl a) as (HV & v & Hp & Hv); [set_solver|].
  eapply ends_mono; [eapply visit_handle_spec; [done|eapply place_mono; [apply sub_app|done]|done|]|].
  - rewrite elem_of_union, elem_of_list_to_set. intros [?|Hd]; [done|].
    rewrite E in Hnd. apply NoDup_app in Hnd as (_ & Hdis & _). apply (Hdis a Hd). apply elem_of_cons. by left.
  - intros s'' u (new' & HI''). exists (new ++ new'). rewrite app_assoc, list_to_set_app_L. cbn.
    rewrite union_empty_r_L, union_assoc_L in *. done.
Qed.

(** The slots of a copy. *)
Lemma word_range_spec start n a :
  0 ≤ n → a ∈ word_range start (start + 8 * n) ↔ ∃ i, 0 ≤ i < n ∧ a = start + 8 * i.
Proof.
  intros Hn. unfold word_range. replace ((start + 8 * n - start + 7) / 8) with n by dlia.
  rewrite list_elem_of_fmap. setoid_rewrite elem_of_seqZ. split; intros (i & ? & ?); exists i; (split; [lia|lia]).
Qed.

Lemma NoDup_word_range start end_ : NoDup (word_range start end_).
Proof. unfold word_range. apply NoDup_fmap; [intros i j; lia|apply NoDup_seqZ]. Qed.

(** [visit_slots] visits the slots of a copy. *)
Lemma visit_slots_spec V cs s o d :
  inv V cs s → (o, d) ∈ cs → (∀ k, slot_offset O o k → d + k ∉ V) →
  ends (visit_slots (H := nursery_copier) d) s (λ s' _, ∃ new V', inv V' (cs ++ new) s' ∧
    ∀ a, a ∈ V' ↔ a ∈ V ∨ ∃ k, slot_offset O o k ∧ a = d + k).
Proof using All.
  intros HI Hin Hfresh. destruct (inv_copied _ _ _ HI _ _ Hin) as (Ho & _ & Hd & H16 & _ & Hde).
  destruct (osize_spec o Ho) as (Hs & Hs16 & _ & Hn & Hsl). pose proof (nu_range _ _ _ HN) as (Hr0 & Hr1 & Hr2).
  pose proof (copy_object_ok _ _ _ HI o d Hin) as Hok. pose proof Hok as [_ (h & Hh & Hf & Ht) _].
  unfold visit_slots. eapply ends_bind_reads; [by apply load_Ok|]. rewrite Ht.
  destruct (Z.eqb_spec (otype O o) CALLSTACK_TYPE) as [E|_]; [by apply (nu_plain _ _ _ HN) in E|].
  eapply ends_bind_reads; [by eapply slot_count_spec|].
  rewrite (u64_id (d + 8)), (u64_id (8 * _)), u64_id by (unfold is_cell; lia).
  unfold visit_object_array. set (l := word_range _ _).
  assert (∀ a, a ∈ l ↔ ∃ k, slot_offset O o k ∧ a = d + k) as Hl.
  { intros a. unfold l. rewrite word_range_spec by lia. unfold slot_offset. split.
    - intros (i & Hi & ->). exists (8 * (i + 1)). split; [split; [lia|]|lia]. rewrite Z.mul_comm. apply Z_mod_mult.
    - intros (k & [Hk H8] & ->). exists (k / 8 - 1). dlia. }
  eapply ends_mono; [apply (visit_places V cs s l HI (NoDup_word_range _ _))|].
  - intros a (k & Hk & ->)%Hl. split; [by apply Hfresh|].
    destruct (slot_in_object o k Ho Hk) as [Hk' H8].
    destruct (nu_mapped _ _ _ HN o Ho (o + k)) as [v Hv]; [lia| |].
    { destruct (nu_place _ _ _ HN o Ho) as (? & _). dlia. }
    exists v. split; [right; exists o, d, k; done|]. by eapply (nu_slots _ _ _ HN).
  - intros s' u (new & HI'). exists new, (V ∪ list_to_set l). split; [done|].
    intros a. rewrite elem_of_union, elem_of_list_to_set, Hl. done.
Qed.

(** ** Scanning a copy *)

(** The words [visit_object] writes. *)
Definition scan_offset (o k : Z) : Prop := slot_offset O o k ∨ (otype O o = ALIEN_TYPE ∧ k = 32).

Lemma alien_shape o : nobj O o → otype O o = ALIEN_TYPE → oslots O o = 2 ∧ osize O o = 48.
Proof using All.
  intros Ho Ht. destruct (nu_object _ _ _ HN o Ho) as [_ _ Hs]. rewrite Ht in Hs. unfold osize.
  inversion Hs as [| | | | | | | | |E1 E2| | ]. done.
Qed.

Lemma object_word o k : nobj O o → 0 ≤ k < osize O o → k mod 8 = 0 → is_Some (m0 !! (o + k)).
Proof using All.
  intros Ho Hk H8. apply (nu_mapped _ _ _ HN o Ho); [lia|]. destruct (nu_place _ _ _ HN o Ho) as (? & _). dlia.
Qed.

Lemma scan_in_object o k : nobj O o → scan_offset o k → 0 ≤ k < osize O o ∧ k mod 8 = 0.
Proof using All.
  intros Ho [Hk|[Ht ->]]; [by apply slot_in_object|]. destruct (alien_shape o Ho Ht) as [_ ->]. done.
Qed.

(** A word of a copy that is not scanned. *)
Lemma copy_unscanned V cs s o d k :
  inv V cs s → (o, d) ∈ cs → 0 ≤ k < osize O o → k mod 8 = 0 → ¬ scan_offset o k →
  s.1 !! (d + k) = m0 !! (o + k).
Proof using All.
  intros HI Hin Hk H8 Hno. unfold scan_offset in Hno. destruct (inv_copy _ _ _ HI o d k Hin Hk H8) as [C1 C2].
  destruct (decide (d + k ∈ V)) as [HV|HV]; [|by rewrite C2].
  destruct (C1 HV) as (w & -> & Hw). unfold visited_word in Hw. by rewrite !decide_False in Hw by tauto.
Qed.

(** The address of an alien is computed from its new base. *)
Lemma alien_step V cs s o d :
  inv V cs s → (o, d) ∈ cs → otype O o = ALIEN_TYPE → d + 8 ∈ V →
  ∃ w, update_address s.1 d = Ok (<[d + 32 := w]> s.1) ∧ inv (V ∪ {[d + 32]}) cs (<[d + 32 := w]> s.1, s.2).
Proof using All.
  intros HI Hin Ht HV. destruct (inv_copied _ _ _ HI _ _ Hin) as (Ho & _ & ? & H16 & _ & ?).
  destruct (alien_shape o Ho Ht) as [En Es]. rewrite Es in *. pose proof (nu_range _ _ _ HN) as (? & ? & ?).
  destruct (inv_copy _ _ _ HI o d 8 Hin ltac:(lia) eq_refl) as [C1 _]. destruct (C1 HV) as (base' & Hb' & Hw).
  unfold visited_word, slot_offset in Hw. rewrite decide_True in Hw by (split; [lia|done]).
  destruct Hw as (base & Hb & Himg).
  destruct (object_word o 24 Ho) as [disp Hd]; [lia|done|].
  assert (s.1 !! (d + 24) = Some disp) as Hd'.
  { rewrite (copy_unscanned V cs s o); [done|done|done|lia|done|]. unfold scan_offset, slot_offset. lia. }
  exists (alien_address base' disp). split.
  - apply update_address_eq; [lia|done|done|]. apply (inv_dom _ _ _ HI), (nu_free _ _ _ HN); [lia|dlia].
  - apply inv_store; [done|]. right. exists o, d, 32. split_and!; [done|lia|lia|done|done|].
    unfold visited_word, slot_offset. rewrite decide_False, decide_True by lia. exists base, base', disp. done.
Qed.

Lemma visit_object_spec V cs s o d :
  inv V cs s → (o, d) ∈ cs → (∀ k, scan_offset o k → d + k ∉ V) →
  ends (visit_object (H := nursery_copier) d) s (λ s' _, ∃ new V', inv V' (cs ++ new) s' ∧
    ∀ a, a ∈ V' ↔ a ∈ V ∨ ∃ k, scan_offset o k ∧ a = d + k).
Proof using All.
  intros HI Hin Hfresh. unfold visit_object. apply ends_bind.
  eapply ends_mono; [eapply visit_slots_spec; [done|done|intros k Hk; apply Hfresh; by left]|].
  intros s' u (new & V' & HI' & HV'). apply (sub_app cs new) in Hin as Hin'.
  pose proof (copy_object_ok _ _ _ HI' o d Hin') as [_ (h & Hh & Hf & Ht) _].
  eapply ends_bind_reads; [by apply load_Ok|]. rewrite Ht.
  destruct (Z.eqb_spec (otype O o) ALIEN_TYPE) as [E|E].
  - destruct (inv_copied _ _ _ HI _ _ Hin) as (Ho & _). destruct (alien_shape o Ho E) as [En _].
    destruct (alien_step V' (cs ++ new) s' o d) as (w & Ew & HI''); [done|done|done| |].
    { apply HV'. right. exists 8. split; [split; [lia|done]|done]. }
    eapply ends_writes; [exact Ew|]. exists new, (V' ∪ {[d + 32]}). split; [done|].
    intros a. rewrite elem_of_union, elem_of_singleton, HV'. unfold scan_offset. split.
    + intros [[?|(k & ? & ->)]| ->]; eauto 6.
    + intros [?|(k & [?|[_ ->]] & ->)]; eauto 6.
  - apply ends_ret. exists new, V'. split; [done|]. intros a. rewrite HV'. unfold scan_offset. split.
    + intros [?|(k & ? & ->)]; eauto.
    + intros [?|(k & [?|[? _]] & ->)]; [eauto|eauto|done].
Qed.

(** ** The scan *)

(** [cs1] is scanned, up to the address [p], and [cs2] is not. *)
Record scanning (V0 : gset Z) (cs1 cs2 : list (Z * Z)) (V : gset Z) (p : Z) (s : memory * collector) : Prop := {
  sc_inv : inv V (cs1 ++ cs2) s;
  sc_position : chain O (h0 P) cs1 p;
  sc_visited : ∀ a, a ∈ V ↔ a ∈ V0 ∨ ∃ o d k, (o, d) ∈ cs1 ∧ scan_offset o k ∧ a = d + k
}.

Lemma scanning_rest V0 cs1 cs2 V p s :
  scanning V0 cs1 cs2 V p s → h0 P ≤ p ∧ p ≤ here (bump_of s) ∧ chain O p cs2 (here (bump_of s)) ∧
  (here (bump_of s) ≤ p → cs2 = []) ∧ (p < here (bump_of s) → ∃ o rest, cs2 = (o, p) :: rest).
Proof using All.
  intros [HI Hp _]. pose proof (inv_chain _ _ _ HI) as Hc. apply chain_app in Hc as (q & Hq & Hc).
  assert (∀ o d, (o, d) ∈ cs1 ++ cs2 → nobj O o) as Hn by (intros; by eapply inv_from).
  assert (q = p) as ->. { apply chain_total in Hp, Hq. lia. }
  destruct (chain_bounds _ _ _ Hp) as (? & _); [intros o d ?; apply (Hn o d), elem_of_app; by left|].
  destruct (chain_bounds _ _ _ Hc) as (? & _ & Hb); [intros o d ?; apply (Hn o d), elem_of_app; by right|].
  split_and!; [done|done|done| |]; intros Hle; destruct cs2 as [|[o d] rest]; cbn [chain] in Hc.
  - done.
  - destruct Hc as [-> Hc]. destruct (Hb o p) as (_ & _ & ?); [set_solver|].
    destruct (osize_spec o) as (? & _); [apply (Hn o p); set_solver|lia].
  - lia.
  - destruct Hc as [-> Hc]. eauto.
Qed.

(** One turn of the loop. *)
Lemma cheney_step V0 cs1 o cs2 V p s :
  (∀ a, a ∈ V0 → outside P a) →
  scanning V0 cs1 ((o, p) :: cs2) V p s →
  ends (visit_object (H := nursery_copier) p) s (λ s' _, ∃ new V', 
    scanning V0 (cs1 ++ [(o, p)]) (cs2 ++ new) V' (p + osize O o) s' ∧ size s'.1 p = Ok (osize O o)).
Proof using All.
  intros H0 Hsc. pose proof Hsc as [HI Hp HV].
  assert ((o, p) ∈ cs1 ++ (o, p) :: cs2) as Hin by set_solver.
  eapply ends_mono; [apply (visit_object_spec V _ s o p HI Hin)|].
  - intros k Hk. destruct (inv_copied _ _ _ HI _ _ Hin) as (Ho & _).
    destruct (scan_in_object o k Ho Hk) as [Hk' _].
    rewrite HV. intros [Hv|(o' & d' & k' & Hin' & Hk1 & E)].
    + apply H0 in Hv. by destruct (copied_address _ _ _ HI o p k Hin Hk').
    + assert ((o', d') ∈ cs1 ++ (o, p) :: cs2) as Hin'' by set_solver.
      destruct (inv_copied _ _ _ HI _ _ Hin'') as (Ho' & _). destruct (scan_in_object o' k' Ho' Hk1) as [Hk1' _].
      destruct (chain_bounds _ _ _ Hp) as (_ & _ & Hb);
        [intros o1 d1 ?; apply (inv_from _ _ _ HI o1 d1); set_solver|].
      destruct (Hb o' d' Hin') as (_ & _ & ?). lia.
  - intros s' u (new & V' & HI' & HV'). exists new, V'. split; [split|].
    + rewrite <- app_assoc. cbn. by rewrite <- app_assoc in HI'.
    + apply chain_app. exists p. split; [done|]. cbn. done.
    + intros a. rewrite HV', HV. setoid_rewrite elem_of_app. setoid_rewrite list_elem_of_singleton. split.
      * intros [[?|(o' & d' & k & ? & ? & ?)]|(k & ? & ->)]; [by left|right; eauto 10|right; eauto 10].
      * intros [?|(o' & d' & k & [?|[= -> ->]] & ? & ->)]; [by left; left|left; right; eauto 10|right; eauto].
    + by eapply object_size_eq, copy_object_ok; [|apply sub_app].
Qed.

Lemma cheney_spec V0 cs s :
  (∀ a, a ∈ V0 → outside P a) → inv V0 cs s →
  ends (cheneys_algorithm (H := nursery_copier) aging_generation (h0 P)) s
    (λ s' _, ∃ cs' V, scanning V0 cs' [] V (here (bump_of s')) s').
Proof using All.
  intros H0 HI. pose proof (nu_range _ _ _ HN) as (Hr0 & Hr1 & Hr2).
  apply (ends_loop _ _ (λ scan s', ∃ cs1 cs2 V p, scanning V0 cs1 cs2 V p s' ∧
           ((scan = p ∧ scan ≠ 0) ∨ (scan = 0 ∧ cs2 = [])))
    (λ scan, if decide (scan = 0) then 0 else aend P - scan + 1)).
  - exists [], cs, V0, (h0 P). split; [split; [done|done|]|left; lia].
    intros a. split; [by left|]. intros [?|(o & d & k & []%not_elem_of_nil & _)]; done.
  - case_decide; lia.
  - clear s HI. intros scan s (cs1 & cs2 & V & p & Hsc & Hscan).
    destruct (scanning_rest _ _ _ _ _ _ Hsc) as (Hp1 & Hp2 & Hc & Hnil & Hcons).
    unfold cheney_body. apply ends_get. cbn [gen_here aging_generation]. fold (bump_of s).
    assert (∀ s', s' = s → cs2 = [] → ∃ cs' V, scanning V0 cs' [] V (here (bump_of s')) s') as Hend.
    { intros s' -> ->. exists cs1, V. cbn in Hc. by rewrite Hc. }
    destruct Hscan as [[-> Hnz]|[-> Hcs]]; [|by apply ends_ret, Hend].
    destruct (Z.eqb_spec p 0) as [|_]; [done|]. cbn [negb andb].
    destruct (Z.ltb_spec p (here (bump_of s))) as [Hlt|Hge]; [|apply ends_ret; auto].
    destruct (Hcons Hlt) as (o & rest & ->).
    apply ends_bind. eapply ends_mono; [by apply (cheney_step V0 cs1 o rest V)|].
    intros s' u (new & V' & Hsc' & Es). apply ends_bind_get. cbn [gen_next_object_after aging_generation].
    destruct (scanning_rest _ _ _ _ _ _ Hsc') as (Hq1 & Hq2 & Hc' & Hnil' & _).
    pose proof (inv_here _ _ _ (sc_inv _ _ _ _ _ _ Hsc')) as [Hh _].
    assert (16 ≤ osize O o < 2 ^ 63) as Ho.
    { apply (osize_spec o). apply (inv_from _ _ _ (sc_inv _ _ _ _ _ _ Hsc) o p). set_solver. }
    eapply ends_bind_reads.
    { unfold aging_next_object_after. rewrite Es, result_bind_ok. reflexivity. }
    rewrite !(u64_id (p + osize O o)) by (unfold is_cell; lia). fold (bump_of s'). apply ends_ret.
    destruct (Z.ltb_spec (p + osize O o) (here (bump_of s'))).
    + rewrite !decide_False by lia. split; [|lia]. exists (cs1 ++ [(o, p)]), (rest ++ new), V', (p + osize O o).
      split; [done|left; lia].
    + rewrite decide_True, decide_False by lia. split; [|lia].
      exists (cs1 ++ [(o, p)]), (rest ++ new), V', (p + osize O o). split; [done|right; auto].
Qed.

(** ** The end of a collection *)

Lemma img_skipped V cs s v w : inv V cs s → is_cell v → img cs v w → skipped P w.
Proof using All.
  intros HI Hc [[? ->]|(Hns & d & Hin & ->)]; [done|]. right.
  destruct (inv_copied _ _ _ HI _ _ Hin) as (Ho & _ & ? & H16 & _ & ?), (nu_range _ _ _ HN), (osize_spec _ Ho).
  destruct (RETAG_spec d (TAG v)) as (_ & -> & _); [lia|done|apply TAG_range|]. unfold in_nursery. lia.
Qed.

(** Every reachable object of the nursery is copied. *)
Lemma reachable_copied V0 cs V p s o :
  scanning V0 cs [] V p s → (∀ a, a ∈ handles → outside P a ∧ a ∈ V0) → reachable o → ∃ d, (o, d) ∈ cs.
Proof using All.
  intros [HI _ HV] H0. rewrite app_nil_r in HI. induction 1 as [a v Ha Hv Hns|o k v _ [d Hin] Ho Hk Hv Hns].
  - destruct (H0 a Ha) as [Hout HV0]. destruct (inv_outside _ _ _ HI a Hout) as [H1 _].
    destruct H1 as (v' & w & Hv' & _ & Himg); [apply HV; by left|].
    assert (v' = v) as -> by congruence. destruct Himg as [[? _]|(_ & d & ? & _)]; [done|eauto].
  - destruct (slot_in_object o k Ho Hk) as [Hk' H8]. destruct (inv_copy _ _ _ HI o d k Hin Hk' H8) as [H1 _].
    destruct H1 as (w & _ & Hw). { apply HV. right. exists o, d, k. split_and!; [done|by left|done]. }
    unfold visited_word in Hw. rewrite decide_True in Hw by done. destruct Hw as (v' & Hv' & Himg).
    assert (v' = v) as -> by congruence. destruct Himg as [[? _]|(_ & d' & ? & _)]; [done|eauto].
Qed.

(** After the scan every word of a copy is visited. *)
Lemma scanned_word V0 cs V p s o d k :
  scanning V0 cs [] V p s → (o, d) ∈ cs → 0 ≤ k < osize O o → k mod 8 = 0 →
  ∃ w, s.1 !! (d + k) = Some w ∧ visited_word cs o k w.
Proof using All.
  intros [HI _ HV] Hin Hk H8. rewrite app_nil_r in HI. destruct (inv_copied _ _ _ HI _ _ Hin) as (Ho & _).
  destruct (inv_copy _ _ _ HI o d k Hin Hk H8) as [H1 H2].
  assert (scan_offset o k ∨ ¬ scan_offset o k) as [Hs|Hs].
  { unfold scan_offset. destruct (decide (slot_offset O o k)), (decide (otype O o = ALIEN_TYPE ∧ k = 32)); tauto. }
  - apply H1, HV. right. exists o, d, k. done.
  - rewrite (copy_unscanned V cs s o d k) by done. destruct (object_word o k Ho Hk H8) as [w Hw].
    exists w. split; [done|]. unfold visited_word, scan_offset in *. by rewrite !decide_False by tauto.
Qed.
End cheney.

(** * The theorem *)

(** src/vm/nursery_collector.cpp:43-67 [collect_nursery] (part): The part of
    a nursery collection that copies what a set of handles leads to: the root
    visits, and the scan of what they copied. *)
Definition copy_reachable (handles : list Z) : eff collector () :=
  scan ← get aging_scan;
  _ ← for_each handles (visit_handle (H := nursery_copier));
  cheneys_algorithm (H := nursery_copier) aging_generation scan.

(** What a collection leaves: [cs] is the list of the objects copied. *)
Record collected (P : places) (O : nursery_objects) (m0 : memory) (handles : list Z) (cs : list (Z * Z))
    (s : memory * collector) : Prop := {
  col_once : NoDup cs.*1;
  col_reachable : ∀ o, o ∈ cs.*1 ↔ reachable P O m0 handles o;
  col_chain : chain O (h0 P) cs (here (bump_of s)) ∧ here (bump_of s) ≤ aend P;
  col_handles : ∀ a v, a ∈ handles → m0 !! a = Some v → ∃ w, s.1 !! a = Some w ∧ img P cs v w;
  col_copies : ∀ o d k, (o, d) ∈ cs → 0 ≤ k < osize O o → k mod 8 = 0 →
    ∃ w, s.1 !! (d + k) = Some w ∧ visited_word P O m0 cs o k w;
  col_no_old : ∀ v w, is_cell v → img P cs v w → skipped P w;
  col_frame : ∀ a, outside P a → a ∉ handles → s.1 !! a = m0 !! a
}.

Lemma aging_scan_here c objs : aging_ok (aging (data c)) objs → aging_scan c = here (ag_bump (aging (data c))).
Proof.
  intros [[[Hs _] [Hh _] [He _] Hc] _ _ _]. unfold aging_scan, bump_occupied_space.
  rewrite (u64_id (_ - _)) by (unfold is_cell; lia). rewrite u64_id by (unfold is_cell; lia). lia.
Qed.


(** ** An example

    A wrapper and an array that refer to each other, an object nothing refers
    to, and one handle. *)

Definition sample_nursery : memory :=
  list_to_map [(8192, initialize WRAPPER_TYPE); (8200, tag ARRAY_TYPE 8208);
               (8208, initialize ARRAY_TYPE); (8216, tag_fixnum 1); (8224, tag WRAPPER_TYPE 8192); (8232, 0);
               (8240, initialize WRAPPER_TYPE); (8248, tag_fixnum 3);
               (16384, tag WRAPPER_TYPE 8192)] ∪ zeroed_region 4096 128.

Definition sample_objects : nursery_objects := mk_nursery_objects
  (λ o, o = 8192 ∨ o = 8208 ∨ o = 8240)
  (λ o, if o =? 8208 then ARRAY_TYPE else WRAPPER_TYPE)
  (λ o, if o =? 8208 then 2 else 1)
  (λ o, if o =? 8208 then 24 else 16).

Definition sample_places : places := mk_places 8192 8320 4128 5120.

Definition sample_collector : collector :=
  mk_collector
    (mk_data_heap 4096 128 1024 0 (mk_segment 4096 4224 8320) (mk_bump 8256 8192 8320 128)
       sample_aging sample_aging empty_tenured [] [])
    sample_code_heap [] 0 0.

Lemma sample_mapped : mapped sample_nursery 4128 5120.
Proof.
  intros a Ha H8. unfold sample_nursery. apply lookup_union_is_Some. right.
  apply (mapped_zeroed_region 4096 128); [done|lia|done].
Qed.

Lemma sample_nursery_ok : nursery_ok sample_places sample_objects sample_nursery.
Proof.
  split; cbn [nobj otype oslots obytes ns ne h0 aend sample_objects sample_places].
  - lia.
  - done.
  - exact sample_mapped.
  - intros o [->|[->| ->]]; (split; [lia|eexists; split_and!; [reflexivity|reflexivity|reflexivity]|]);
      [apply shape_wrapper|apply (shape_array _ _ 1); split; [reflexivity|eval_side]|apply shape_wrapper].
  - intros o h [->|[->| ->]] [= <-]; reflexivity.
  - by intros o [->|[->| ->]].
  - intros o [->|[->| ->]]; vm_compute; repeat split; discriminate.
  - intros o o' [->|[->| ->]] [->|[->| ->]] Hlt; try lia; vm_compute; discriminate.
  - intros o Ho a Ha H8.
    assert (a ∈ [8192; 8200; 8208; 8216; 8224; 8232; 8240; 8248]) as Hin.
    { rewrite !elem_of_cons. destruct Ho as [->|[->| ->]]; vm_compute osize in Ha; dlia. }
    rewrite !elem_of_cons, elem_of_nil in Hin. destruct_or!; subst; try done; by eexists.
  - unfold slot_offset. cbn [oslots]. intros o k v [->|[->| ->]] [Hk H8] Hv;
      [change (8 ≤ k ≤ 8) in Hk|change (8 ≤ k ≤ 16) in Hk|change (8 ≤ k ≤ 8) in Hk].
    + assert (k = 8) as -> by dlia. injection Hv as <-. split; [eval_side|right; cbn; auto].
    + assert (k = 8 ∨ k = 16) as [->| ->] by dlia; injection Hv as <-;
        (split; [eval_side|]); [left; left; reflexivity|right; left; reflexivity].
    + assert (k = 8) as -> by dlia. injection Hv as <-. split; [eval_side|left; left; reflexivity].
  - by intros o layout [->|[->| ->]].
Qed.


(** The two objects that can be reached move to 4128 and 4144. *)
Example copy_reachable_runs :
  match copy_reachable [16384] (sample_nursery, sample_collector) with
  | Done s _ =>
      (s.1 !! 16384, s.1 !! 4136, s.1 !! 4160, here (bump_of s)) =
      (Some (tag WRAPPER_TYPE 4128), Some (tag ARRAY_TYPE 4144), Some (tag WRAPPER_TYPE 4128), 4176)
  | _ => False
  end.
Proof. vm_compute. reflexivity. Qed.
