(* ===== verification/Dispatch.v ===== *)
(** Method dispatch: vm/dispatch.cpp.

    A generic word's methods are a table in the heap: an array indexed by the
    tag of the receiver, whose entry for tuples is an array indexed by the
    depth in the class hierarchy (the echelon).  An entry of that is a method,
    a hash table of methods of the classes at that depth, or [f]. *)

From S2P Require Import Prelude.
From S2P Require Import Layouts.
From S2P Require Import Memory.
From S2P Require Import DataHeap.
From S2P Require Import Objects.
Local Open Scope cell_scope.

(** * Arrays in memory *)

(** src/vm/arrays.hpp:9-15 [set_array_nth] *)
Definition heap_set_array_nth (b : barrier) (m : memory) (dh : data_heap) (array slot value : Z)
    : result (memory * data_heap) :=
  capacity ← array_capacity ARRAY_TYPE m array;
  _ ← check (slot <? capacity);
  let slot_ptr := element_address array slot in
  m ← store m slot_ptr value;
  dh ← write_barrier b dh slot_ptr;
  Ok (m, dh).

(** * Method lookup *)

(** src/vm/dispatch.cpp:7-10 [search_lookup_alist] (part): The loop, from
    the pair with number [pairs - 1] down. *)
Fixpoint search_alist_loop (m : memory) (elements klass : Z) (pairs : nat) (index : Z) : result Z :=
  match pairs with
  | 0%nat => Ok false_object
  | S pairs =>
      key ← heap_array_nth m elements (u64 index);
      if key =? klass then heap_array_nth m elements (u64 (index + 1))
      else search_alist_loop m elements klass pairs (index - 2)
  end.

(** src/vm/dispatch.cpp:5-12 [search_lookup_alist]: The loop runs while
    [index >= 0], half the capacity times. *)
Definition search_lookup_alist (m : memory) (table klass : Z) : result Z :=
  elements ← untag ARRAY_TYPE table;
  capacity ← array_capacity ARRAY_TYPE m elements;
  let index := s64 (capacity - 2) in
  search_alist_loop m elements klass (Z.to_nat ((index + 2) / 2)) index.

(** src/vm/dispatch.cpp:14-20 [search_lookup_hash] *)
Definition search_lookup_hash (m : memory) (table klass hashcode : Z) : result Z :=
  buckets ← untag ARRAY_TYPE table;
  capacity ← array_capacity ARRAY_TYPE m buckets;
  bucket ← heap_array_nth m buckets (Z.land hashcode (capacity -& 1));
  if TAG bucket =? ARRAY_TYPE then search_lookup_alist m bucket klass else Ok bucket.

(** src/vm/dispatch.cpp:22-25 [nth_superclass] *)
Definition nth_superclass (m : memory) (layout echelon : Z) : result Z :=
  load m ((layout +& sizeof_tuple_layout) +& (8 *& (echelon * 2))).

(** src/vm/dispatch.cpp:27-30 [nth_hashcode] *)
Definition nth_hashcode (m : memory) (layout echelon : Z) : result Z :=
  load m ((layout +& sizeof_tuple_layout) +& (8 *& (echelon * 2 + 1))).

(** src/vm/dispatch.cpp:40-54 [lookup_tuple_method] (part): The loop, from
    echelon [count - 1] down. *)
Fixpoint lookup_echelons (m : memory) (layout echelons : Z) (count : nat) : result Z :=
  match count with
  | 0%nat => Err CRITICAL_ERROR
  | S n =>
      let echelon := Z.of_nat n in
      echelon_methods ← heap_array_nth m echelons echelon;
      if TAG echelon_methods =? WORD_TYPE then Ok echelon_methods
      else if to_boolean echelon_methods then
        klass ← nth_superclass m layout echelon;
        hash ← nth_hashcode m layout echelon;
        hashcode ← untag_fixnum hash;
        r ← search_lookup_hash m echelon_methods klass (u64 hashcode);
        if to_boolean r then Ok r else lookup_echelons m layout echelons n
      else lookup_echelons m layout echelons n
  end.

(** src/vm/dispatch.cpp:32-58 [lookup_tuple_method] *)
Definition lookup_tuple_method (m : memory) (obj methods : Z) : result Z :=
  t ← untag TUPLE_TYPE obj;
  layout ← field m t 8;
  layout ← untag TYPE_COUNT layout;
  echelons ← untag ARRAY_TYPE methods;
  e ← field m layout layout_echelon;
  e ← untag_fixnum e;
  capacity ← array_capacity ARRAY_TYPE m echelons;
  let echelon := Z.min e (s64 capacity - 1) in
  lookup_echelons m layout echelons (Z.to_nat (echelon + 1)).

(** src/vm/dispatch.cpp:60-70 [lookup_method] *)
Definition lookup_method (m : memory) (obj methods : Z) : result Z :=
  let tag := TAG obj in
  table ← untag ARRAY_TYPE methods;
  method ← heap_array_nth m table tag;
  if tag =? TUPLE_TYPE then
    if TAG method =? ARRAY_TYPE then lookup_tuple_method m obj method else Ok method
  else Ok method.

(** src/vm/dispatch.cpp:72-76 [primitive_lookup_method]: [top] is the
    address of the top of the data stack. *)
Definition primitive_lookup_method (m : memory) (top : Z) : result (memory * Z) :=
  methods ← load m top;
  let top := top -& 8 in
  obj ← load m top;
  let top := top -& 8 in
  method ← lookup_method m obj methods;
  let top := top +& 8 in
  m ← store m top method;
  Ok (m, top).

(** src/vm/dispatch.cpp:78-83 [object_class] *)
Definition object_class (m : memory) (obj : Z) : result Z :=
  let tag := TAG obj in
  if tag =? TUPLE_TYPE then t ← untag TUPLE_TYPE obj; field m t 8 else Ok (tag_fixnum tag).

(** src/vm/dispatch.cpp:85-88 [method_cache_hashcode] *)
Definition method_cache_hashcode (m : memory) (klass array : Z) : result Z :=
  n ← array_capacity ARRAY_TYPE m array;
  let capacity := Z.shiftr n 1 -& 1 in
  Ok (Z.land (Z.shiftr klass TAG_BITS) capacity <<& 1).

(** src/vm/dispatch.cpp:90-95 [update_method_cache] *)
Definition update_method_cache (b : barrier) (m : memory) (dh : data_heap) (cache klass method : Z)
    : result (memory * data_heap) :=
  elements ← untag ARRAY_TYPE cache;
  hashcode ← method_cache_hashcode m klass elements;
  '(m, dh) ← heap_set_array_nth b m dh elements hashcode klass;
  heap_set_array_nth b m dh elements (hashcode +& 1) method.

(** src/vm/dispatch.cpp:97-111 [primitive_mega_cache_miss]: The data stack
    holds the cache, the index, the methods and the receiver; the method
    replaces the first three.  [top] is the address of the top of the stack. *)
Definition primitive_mega_cache_miss (b : barrier) (m : memory) (dh : data_heap) (misses top : Z)
    : result (memory * data_heap * Z * Z) :=
  let misses := misses +& 1 in
  cache ← load m top;
  index ← load m (top -& 8);
  index ← untag_fixnum index;
  methods ← load m (top -& 16);
  let top := top -& 24 in
  object ← load m (top -& (8 *& u64 index));
  klass ← object_class m object;
  method ← lookup_method m object methods;
  '(m, dh) ← update_method_cache b m dh cache klass method;
  let top := top +& 8 in
  m ← store m top method;
  Ok (m, dh, misses, top).

(** * Lookup in an abstract table

    A bucket is one method or an association list in which the last entry
    for a class counts; an echelon has a method for all classes, a hash table,
    or nothing; the method for a class is that of the deepest of its
    superclasses that has one. *)

Inductive bucket :=
  | OneMethod (method : Z)
  | Alist (entries : list (Z * Z)).

Inductive echelon_methods :=
  | AllClasses (method : Z)
  | Buckets (buckets : list bucket)
  | NoMethods.

Definition assoc_last (entries : list (Z * Z)) (klass : Z) : Z :=
  foldl (λ found e, if e.1 =? klass then e.2 else found) false_object entries.

Definition bucket_lookup (b : bucket) (klass : Z) : Z :=
  match b with OneMethod method => method | Alist entries => assoc_last entries klass end.

Definition echelon_lookup (e : echelon_methods) (klass hashcode : Z) : option Z :=
  match e with
  | AllClasses method => Some method
  | Buckets bs =>
      b ← bs !! Z.to_nat (Z.land hashcode (Z.of_nat (length bs) - 1));
      let r := bucket_lookup b klass in
      if to_boolean r then Some r else None
  | NoMethods => None
  end.

(** The deepest echelon of the first [n] that has a method; a class is given
    with its hash code. *)
Fixpoint deepest (table : list echelon_methods) (classes : list (Z * Z)) (n : nat) : option Z :=
  match n with
  | 0%nat => None
  | S n =>
      match e ← table !! n; c ← classes !! n; echelon_lookup e c.1 c.2 with
      | Some method => Some method
      | None => deepest table classes n
      end
  end.

(** ** How the tables are laid out *)

Definition pairs_elements (entries : list (Z * Z)) : list Z := entries ≫= λ e, [e.1; e.2].

Inductive bucket_at (m : memory) (v : Z) : bucket → Prop :=
  | at_one : TAG v ≠ ARRAY_TYPE → bucket_at m v (OneMethod v)
  | at_alist entries : tagged_array m v (pairs_elements entries) → bucket_at m v (Alist entries).

Inductive echelon_at (m : memory) (v : Z) : echelon_methods → Prop :=
  | at_all : TAG v = WORD_TYPE → echelon_at m v (AllClasses v)
  | at_buckets vs bs :
      tagged_array m v vs → Forall2 (bucket_at m) vs bs → bs ≠ [] → echelon_at m v (Buckets bs)
  | at_none : v = false_object → echelon_at m v NoMethods.

(** The layout of a tuple's class, with its superclasses and their hash
    codes. *)
Record layout_at (m : memory) (layout : Z) (classes : list (Z * Z)) : Prop := {
  lay_address : 0 ≤ layout < 2 ^ 62;
  lay_echelon : m !! (layout + layout_echelon) = Some (tag_fixnum (Z.of_nat (length classes) - 1));
  lay_count : 0 < Z.of_nat (length classes) < 2 ^ 56;
  lay_classes : ∀ i c, classes !! i = Some c →
    m !! (layout + sizeof_tuple_layout + 16 * Z.of_nat i) = Some c.1 ∧
    m !! (layout + sizeof_tuple_layout + 16 * Z.of_nat i + 8) = Some (tag_fixnum c.2) ∧
    0 ≤ c.2 < 2 ^ 59
}.

(** ** The search *)

Lemma pairs_lookup entries i e :
  entries !! i = Some e → pairs_elements entries !! (2 * i)%nat = Some e.1 ∧
    pairs_elements entries !! (2 * i + 1)%nat = Some e.2.
Proof.
  revert i. induction entries as [|x entries IH]; intros i; [done|].
  destruct i as [|i]; [by intros [= ->]|]. intros [H1 H2]%IH. cbn.
  replace (i + S (i + 0))%nat with (S (2 * i)) by lia.
  replace (i + S (i + 0) + 1)%nat with (S (2 * i + 1)) by lia. done.
Qed.

Lemma length_pairs entries : length (pairs_elements entries) = (2 * length entries)%nat.
Proof. induction entries as [|x entries IH]; [done|]. cbn. fold (pairs_elements entries). rewrite IH. lia. Qed.

Lemma assoc_last_snoc entries e klass :
  assoc_last (entries ++ [e]) klass = if e.1 =? klass then e.2 else assoc_last entries klass.
Proof. unfold assoc_last. by rewrite foldl_app. Qed.

Lemma search_alist_loop_spec m a l klass n entries :
  array_at m a l → pairs_elements entries `prefix_of` l → length entries = n →
  search_alist_loop m a klass n (2 * Z.of_nat n - 2) = Ok (assoc_last entries klass).
Proof.
  intros Ha. revert entries. induction n as [|n IH]; intros entries Hp Hn; cbn [search_alist_loop].
  { by destruct entries. }
  destruct entries as [|e entries _] using rev_ind; [done|]. rewrite length_app in Hn. cbn in Hn.
  assert (length entries = n) as Hn' by lia.
  destruct (pairs_lookup (entries ++ [e]) n e) as [H1 H2]; [by rewrite lookup_app_r, Hn', Nat.sub_diag by lia|].
  apply (prefix_lookup_Some _ l) in H1; [|done]. apply (prefix_lookup_Some _ l) in H2; [|done].
  pose proof (arr_small _ _ _ Ha) as Hsm. pose proof (lookup_lt_Some _ _ _ H2).
  rewrite !u64_id by (unfold is_cell; lia).
  replace (2 * Z.of_nat (S n) - 2) with (Z.of_nat (2 * n)) by lia.
  replace (Z.of_nat (2 * n) + 1) with (Z.of_nat (2 * n + 1)) by lia.
  rewrite (heap_array_nth_spec _ _ _ _ _ Ha H1), result_bind_ok, assoc_last_snoc.
  destruct (e.1 =? klass); [by apply (heap_array_nth_spec _ _ _ _ _ Ha H2)|].
  replace (Z.of_nat (2 * n) - 2) with (2 * Z.of_nat n - 2) by lia. apply IH; [|done].
  etrans; [|done]. unfold pairs_elements. rewrite bind_app. by apply prefix_app_r.
Qed.

Lemma search_lookup_alist_spec m v entries klass :
  tagged_array m v (pairs_elements entries) →
  search_lookup_alist m v klass = Ok (assoc_last entries klass).
Proof.
  intros Hv. unfold search_lookup_alist. rewrite (untag_array _ _ _ Hv), result_bind_ok.
  destruct Hv as (_ & _ & Ha). pose proof (arr_small _ _ _ Ha) as Hsm.
  rewrite (array_capacity_at _ _ _ Ha), result_bind_ok. rewrite length_pairs in *.
  rewrite s64_id by (unfold is_fixnum; lia).
  replace (Z.of_nat (2 * length entries) - 2) with (2 * Z.of_nat (length entries) - 2) by lia.
  replace (Z.to_nat ((2 * Z.of_nat (length entries) - 2 + 2) / 2)) with (length entries) by dlia.
  by eapply search_alist_loop_spec.
Qed.

Lemma search_lookup_hash_spec m v vs bs klass h :
  tagged_array m v vs → Forall2 (bucket_at m) vs bs → bs ≠ [] → 0 ≤ h →
  ∃ b, bs !! Z.to_nat (Z.land h (Z.of_nat (length bs) - 1)) = Some b ∧
    search_lookup_hash m v klass h = Ok (bucket_lookup b klass).
Proof.
  intros Hv Hb Hne Hh. pose proof (Forall2_length _ _ _ Hb) as El.
  assert (0 < length bs)%nat by (destruct bs; [done|cbn; lia]).
  unfold search_lookup_hash. rewrite (untag_array _ _ _ Hv), result_bind_ok.
  destruct Hv as (_ & _ & Ha). pose proof (arr_small _ _ _ Ha) as Hsm.
  rewrite (array_capacity_at _ _ _ Ha), result_bind_ok, El, u64_id by (unfold is_cell; lia).
  set (n := Z.of_nat (length bs) - 1). set (i := Z.land h n).
  assert (0 ≤ i ≤ n) as Hi.
  { unfold i. split; [apply Z.land_nonneg; lia|]. rewrite <- (Z2N.id h), <- (Z2N.id n) at 1 by lia.
    rewrite <- N2Z.inj_land. pose proof (N.land_le_r (Z.to_N h) (Z.to_N n)). lia. }
  destruct (lookup_lt_is_Some_2 bs (Z.to_nat i)) as [b Eb]; [lia|].
  destruct (Forall2_lookup_r _ _ _ _ _ Hb Eb) as (w & Ew & Hbw).
  exists b. split; [done|].
  rewrite <- (Z2Nat.id i) at 1 by lia. rewrite (heap_array_nth_spec _ _ _ _ _ Ha Ew), result_bind_ok.
  destruct Hbw as [Ht|entries Hw].
  - by destruct (Z.eqb_spec (TAG w) ARRAY_TYPE).
  - pose proof Hw as (_ & Ht & _). rewrite Ht, Z.eqb_refl. by apply search_lookup_alist_spec.
Qed.

Lemma superclass_at m layout classes i c :
  layout_at m layout classes → classes !! i = Some c →
  nth_superclass m layout (Z.of_nat i) = Ok c.1 ∧
  nth_hashcode m layout (Z.of_nat i) = Ok (tag_fixnum c.2) ∧ untag_fixnum (tag_fixnum c.2) = Ok c.2.
Proof.
  intros [Ha _ Hn Hc] Hi. pose proof (lookup_lt_Some _ _ _ Hi). destruct (Hc i c Hi) as (H1 & H2 & H3).
  unfold nth_superclass, nth_hashcode. change sizeof_tuple_layout with 40 in *.
  rewrite !(u64_id (layout + 40)), !(u64_id (8 * _)) by (unfold is_cell; lia).
  rewrite !u64_id by (unfold is_cell; lia). split_and!.
  - apply load_Ok. rewrite <- H1. f_equal. lia.
  - apply load_Ok. rewrite <- H2. f_equal. lia.
  - rewrite untag_tag_fixnum, s60_id; [done|]. unfold fixnum_range.
    change fixnum_min with (- 2 ^ 59). change fixnum_max with (2 ^ 59 - 1). lia.
Qed.

Lemma lookup_echelons_spec m layout classes a vs table n :
  layout_at m layout classes → array_at m a vs → Forall2 (echelon_at m) vs table →
  (n ≤ length classes)%nat → (n ≤ length table)%nat →
  lookup_echelons m layout a n =
    match deepest table classes n with Some method => Ok method | None => Err CRITICAL_ERROR end.
Proof.
  intros Hl Ha Ht. pose proof (Forall2_length _ _ _ Ht) as El.
  induction n as [|n IH]; intros Hc Hn; cbn [lookup_echelons deepest]; [done|].
  destruct (lookup_lt_is_Some_2 classes n) as [c Ec]; [lia|].
  destruct (lookup_lt_is_Some_2 table n) as [e Ee]; [lia|].
  destruct (Forall2_lookup_r _ _ _ _ _ Ht Ee) as (v & Ev & Hv).
  rewrite (heap_array_nth_spec _ _ _ _ _ Ha Ev), result_bind_ok, Ee, Ec. cbn [mbind option_bind].
  destruct Hv as [Htag|ws bs Hw Hb Hne| ->]; cbn [echelon_lookup].
  - by rewrite Htag.
  - pose proof Hw as (_ & Htag & _). rewrite Htag. change (ARRAY_TYPE =? WORD_TYPE) with false.
    replace (to_boolean v) with true.
    2:{ symmetry. unfold to_boolean. apply negb_true_iff, Z.eqb_neq. intros ->. done. }
    destruct (superclass_at _ _ _ _ _ Hl Ec) as (-> & -> & Eh). rewrite !result_bind_ok, Eh, result_bind_ok.
    pose proof (proj2 (proj2 (lay_classes _ _ _ Hl n c Ec))).
    rewrite u64_id by (unfold is_cell; lia).
    destruct (search_lookup_hash_spec m v ws bs c.1 c.2 Hw Hb Hne) as (b & -> & ->); [lia|].
    rewrite result_bind_ok. cbn [mbind option_bind].
    destruct (to_boolean (bucket_lookup b c.1)); [done|]. apply IH; lia.
  - change (TAG false_object =? WORD_TYPE) with false. change (to_boolean false_object) with false.
    apply IH; lia.
Qed.

(** C37. Method lookup.  A receiver that is not a tuple gets the method of
    its tag; a tuple gets the method of the deepest of its superclasses that
    has one, whether the echelon has one method, a bucket with one, or an
    association list in which the last entry for the class counts.  When no
    superclass has a method, and only then, lookup is a critical error; no
    assertion fails and no access is out of bounds. *)
Theorem lookup_method_spec m obj methods vs v :
  is_cell obj → UNTAG obj < 2 ^ 63 → tagged_array m methods vs → vs !! Z.to_nat (TAG obj) = Some v →
  (TAG obj ≠ TUPLE_TYPE ∨ TAG v ≠ ARRAY_TYPE → lookup_method m obj methods = Ok v) ∧
  ∀ layout classes es table,
    TAG obj = TUPLE_TYPE → m !! (UNTAG obj + 8) = Some layout → layout_at m (UNTAG layout) classes →
    tagged_array m v es → Forall2 (echelon_at m) es table →
    lookup_method m obj methods =
      match deepest table classes (length classes `min` length table) with
      | Some method => Ok method
      | None => Err CRITICAL_ERROR
      end.
Proof.
  intros Hc Hu Hm Hv. unfold lookup_method. rewrite (untag_array _ _ _ Hm), result_bind_ok.
  assert (0 ≤ TAG obj) by (rewrite TAG_mod; by apply Z.mod_pos_bound).
  pose proof (heap_array_nth_spec _ _ _ _ _ (proj2 (proj2 Hm)) Hv) as En. rewrite Z2Nat.id in En by done.
  rewrite En, result_bind_ok. split.
  - intros Hne. destruct (Z.eqb_spec (TAG obj) TUPLE_TYPE), (Z.eqb_spec (TAG v) ARRAY_TYPE); tauto.
  - intros layout classes es table Ht Hlp Hl He Htb. pose proof He as (_ & Ht' & Ha). rewrite Ht, Ht'.
    change (TUPLE_TYPE =? TUPLE_TYPE) with true. change (ARRAY_TYPE =? ARRAY_TYPE) with true. cbv iota.
    unfold lookup_tuple_method. assert (untag TUPLE_TYPE obj = Ok (UNTAG obj)) as -> by (unfold untag; by rewrite Ht).
    rewrite result_bind_ok. pose proof (UNTAG_range obj Hc) as [? _].
    rewrite field_eq by lia. unfold load at 1. rewrite Hlp, result_bind_ok.
    change (untag TYPE_COUNT layout) with (Ok (UNTAG layout)). rewrite result_bind_ok.
    rewrite (untag_array _ _ _ He), result_bind_ok. pose proof Hl as [Hla Hle Hlc _].
    rewrite field_eq by (unfold layout_echelon; lia). unfold load. rewrite Hle, result_bind_ok.
    rewrite untag_length by (change array_size_max with (2 ^ 58); lia).
    rewrite result_bind_ok, (array_capacity_at _ _ _ Ha), result_bind_ok.
    pose proof (arr_small _ _ _ Ha). pose proof (Forall2_length _ _ _ Htb) as El.
    rewrite s64_id by (unfold is_fixnum; lia). rewrite El.
    replace (Z.to_nat (Z.min (Z.of_nat (length classes) - 1) (Z.of_nat (length table) - 1) + 1))
      with (length classes `min` length table)%nat by lia.
    eapply lookup_echelons_spec; [done|done|done|lia|lia].
Qed.

(** ** An example

    A tuple whose class is two deep: the second echelon has a hash table with
    one bucket, the first a default method. *)

Definition array_words (a : Z) (l : list Z) : list (Z * Z) :=
  (a, initialize ARRAY_TYPE) :: (a + 8, tag_fixnum (Z.of_nat (length l))) ::
  imap (λ i v, (a + 16 + 8 * Z.of_nat i, v)) l.

Definition sample_methods : list Z := replicate 7 false_object ++ [tag ARRAY_TYPE 8192].
Definition sample_echelons : list Z := [tag WORD_TYPE 512; tag ARRAY_TYPE 16384].
Definition sample_buckets : list Z := [tag ARRAY_TYPE 20480].
Definition sample_alist : list (Z * Z) := [(tag WORD_TYPE 1024, tag WORD_TYPE 2048)].
Definition sample_classes : list (Z * Z) := [(tag WORD_TYPE 768, 5); (tag WORD_TYPE 1024, 9)].

Definition dispatch_words : memory :=
  list_to_map (array_words 4096 sample_methods ++ array_words 8192 sample_echelons ++
    array_words 16384 sample_buckets ++ array_words 20480 (pairs_elements sample_alist) ++
    [(24576 + 32, tag_fixnum 1); (24576 + 40, tag WORD_TYPE 768); (24576 + 48, tag_fixnum 5);
     (24576 + 56, tag WORD_TYPE 1024); (24576 + 64, tag_fixnum 9); (28672 + 8, tag ARRAY_TYPE 24576)]).

Lemma lookup_method_spec_witness :
  lookup_method dispatch_words (tag TUPLE_TYPE 28672) (tag ARRAY_TYPE 4096) = Ok (tag WORD_TYPE 2048).
Proof.
  assert (∀ a l, 0 ≤ a < 2 ^ 62 → dispatch_words !! a = Some (initialize ARRAY_TYPE) →
    dispatch_words !! (a + 8) = Some (tag_fixnum (Z.of_nat (length l))) → Z.of_nat (length l) < 2 ^ 58 →
    (λ i : nat, dispatch_words !! (a + 16 + 8 * Z.of_nat i)) <$> seq 0 (length l) = Some <$> l →
    array_at dispatch_words a l) as Hat
    by (intros; eapply array_at_intro; [done|done|reflexivity|done|done|done]).
  destruct (lookup_method_spec dispatch_words (tag TUPLE_TYPE 28672) (tag ARRAY_TYPE 4096)
    sample_methods (tag ARRAY_TYPE 8192)) as [_ H];
    [eval_side|eval_side|split_and!; [eval_side..|apply Hat; eval_side]|reflexivity|].
  rewrite (H (tag ARRAY_TYPE 24576) sample_classes sample_echelons
    [AllClasses (tag WORD_TYPE 512); Buckets [Alist sample_alist]]); [reflexivity|reflexivity|reflexivity| | |].
  - split; [eval_side|reflexivity|eval_side|].
    intros [|[|i]] c [= <-]; (split; [reflexivity|split; [reflexivity|eval_side]]).
  - split_and!; [eval_side..|apply Hat; eval_side].
  - constructor; [by apply at_all|constructor; [|constructor]].
    apply (at_buckets _ _ sample_buckets); [|constructor; [apply at_alist|constructor]|done].
    + split; [eval_side|split; [reflexivity|apply Hat; eval_side]].
    + split; [eval_side|split; [reflexivity|apply Hat; eval_side]].
Defined.
