(* ===== verification/Arrays.v ===== *)
(** Arrays of the data heap: vm/generic_arrays.hpp, vm/arrays.{hpp,cpp},
    vm/byte_arrays.{hpp,cpp}.

    An array is the list of its elements; its [capacity] field is the length
    of the list.  Objects move when memory is allocated, so the model has no
    addresses here: what the allocator decides about an array (the contents
    of fresh memory, whether the array is in the nursery) is the class
    [alloc_env], and the theorems hold for every instance of it. *)

From S2P Require Import Prelude.

(** What an operation on arrays can observe of the allocator. *)
Class alloc_env (A : Type) := {
  uninit : nat → A;       (* contents of freshly allocated memory *)
  in_nursery : bool       (* data->nursery->contains_p(array) *)
}.

(** An allocator of zeroed memory, for closed examples. *)
Definition plain_alloc : alloc_env Z := {| uninit := λ _, 0; in_nursery := true |}.

Section arrays.
Context {A : Type} `{!alloc_env A}.

(** src/vm/generic_arrays.hpp:16-22 [allot_uninitialized_array] *)
Definition allot_uninitialized_array (capacity : nat) : list A :=
  uninit <$> seq 0 capacity.

(** src/vm/arrays.cpp:5-11 [allot_array] *)
Definition allot_array (capacity : nat) (fill : A) : list A :=
  let new_array := allot_uninitialized_array capacity in
  list_inserts 0 (replicate capacity fill) new_array.

(** src/vm/generic_arrays.hpp:24-28 [reallot_array_in_place_p] *)
Definition reallot_array_in_place_p (array : list A) (capacity : nat) : bool :=
  in_nursery && (capacity <=? length array)%nat.

(** src/vm/generic_arrays.hpp:30-53 [reallot_array]: [zero] is the element
    whose bytes are all 0. *)
Definition reallot_array (zero : A) (array : list A) (capacity : nat) : list A :=
  if (length array =? capacity)%nat then array
  else if reallot_array_in_place_p array capacity then take capacity array
  else
    let to_copy := if (capacity <? length array)%nat then capacity
                   else length array in
    let new_array := allot_uninitialized_array capacity in
    let new_array := list_inserts 0 (take to_copy array) new_array in
    list_inserts to_copy (replicate (capacity - to_copy) zero) new_array.

(** src/vm/arrays.hpp:3-7 [array_nth] *)
Definition array_nth (array : list A) (slot : nat) : result A :=
  check (slot <? length array)%nat ≫= λ _, read array slot.

(** src/vm/arrays.hpp:9-15 [set_array_nth]: the store; the write barrier is
    modelled with the card table. *)
Definition set_array_nth (array : list A) (slot : nat) (value : A) : result (list A) :=
  check (slot <? length array)%nat ≫= λ _, write array slot value.

Lemma length_allot_uninitialized_array n :
  length (allot_uninitialized_array n) = n.
Proof. unfold allot_uninitialized_array. by rewrite length_fmap, length_seq. Qed.

Lemma list_inserts_all (k l : list A) :
  length k = length l → list_inserts 0 k l = k.
Proof. intros. rewrite <- (app_nil_r k) at 1. by apply list_inserts_0_l. Qed.

Lemma list_inserts_split (k1 k2 l : list A) :
  length l = (length k1 + length k2)%nat →
  list_inserts (length k1) k2 (list_inserts 0 k1 l) = k1 ++ k2.
Proof.
  intros Hl. rewrite <- (Nat.add_0_r (length k1)), <- list_inserts_app_l.
  apply list_inserts_all. rewrite length_app. lia.
Qed.

Lemma allot_array_eq n (fill : A) : allot_array n fill = replicate n fill.
Proof.
  apply list_inserts_all.
  by rewrite length_replicate, length_allot_uninitialized_array.
Qed.

Lemma reallot_array_eq (zero : A) l n :
  reallot_array zero l n = take n l ++ replicate (n - length l) zero.
Proof.
  unfold reallot_array, reallot_array_in_place_p.
  destruct (Nat.eqb_spec (length l) n) as [<-|Hne].
  { rewrite firstn_all, Nat.sub_diag. by rewrite app_nil_r. }
  destruct (Nat.leb_spec n (length l)), (Nat.ltb_spec n (length l)); try lia.
  - replace (n - length l)%nat with 0%nat by lia. cbn [replicate].
    rewrite app_nil_r. destruct in_nursery; [done|]. cbn [andb].
    rewrite Nat.sub_diag. cbn [replicate list_inserts].
    apply list_inserts_all. rewrite length_allot_uninitialized_array, length_take. lia.
  - rewrite andb_false_r, !(firstn_all2 l) by lia.
    apply list_inserts_split.
    rewrite length_allot_uninitialized_array, length_replicate. lia.
Qed.

Lemma set_array_nth_ok l i (a : A) :
  (i < length l)%nat → set_array_nth l i a = Ok (<[i := a]> l).
Proof.
  intros H. unfold set_array_nth.
  rewrite (proj2 (Nat.ltb_lt _ _) H). cbn. by apply write_Ok.
Qed.
End arrays.

(** A vector with spare capacity, [growable_array] and [growable_byte_array]. *)
Section growable.
Context {A : Type} `{!alloc_env A} (zero : A).

(** src/vm/arrays.hpp:17-30 [growable_array] *)
Record growable_array := mk_growable { count : nat; elements : list A }.

(** src/vm/arrays.cpp:61-65 [growable_array::reallot_array] *)
Definition growable_reallot (g : growable_array) (n : nat) : growable_array :=
  mk_growable (count g) (reallot_array zero (elements g) n).

(** src/vm/arrays.cpp:68-75 [growable_array::add] *)
Definition growable_add (g : growable_array) (elt : A) : result growable_array :=
  let g := if (count g =? length (elements g))%nat
           then growable_reallot g (2 * count g) else g in
  elts ← set_array_nth (elements g) (count g) elt;
  Ok (mk_growable (S (count g)) elts).

(** src/vm/arrays.cpp:86-88 [growable_array::append] (part):
    The loop of [append]: element by element, with [array_nth] and
    [set_array_nth]. *)
Fixpoint growable_append_loop (g : growable_array) (elts : list A) : result growable_array :=
  match elts with
  | [] => Ok g
  | e :: elts' =>
      es ← set_array_nth (elements g) (count g) e;
      growable_append_loop (mk_growable (S (count g)) es) elts'
  end.

(** src/vm/arrays.cpp:78-89 [growable_array::append] *)
Definition growable_append (g : growable_array) (elts : list A) : result growable_array :=
  let capacity := length elts in
  let g := if (length (elements g) <? count g + capacity)%nat
           then growable_reallot g (2 * (count g + capacity)) else g in
  growable_append_loop g elts.

(** src/vm/arrays.cpp:92-94 [growable_array::trim] *)
Definition growable_trim (g : growable_array) : growable_array :=
  growable_reallot g (count g).

(** src/vm/byte_arrays.cpp:40-45 [growable_byte_array::grow_bytes] *)
Definition grow_bytes (g : growable_array) (len : nat) : growable_array :=
  let g := mk_growable (count g + len) (elements g) in
  if (length (elements g) <=? count g)%nat
  then growable_reallot g (2 * count g) else g.

(** src/vm/byte_arrays.cpp:48-52 [growable_byte_array::append_bytes] *)
Definition append_bytes (g : growable_array) (elts : list A) : growable_array :=
  let old_count := count g in
  let g := grow_bytes g (length elts) in
  mk_growable (count g) (list_inserts old_count elts (elements g)).

(** src/vm/byte_arrays.cpp:55-67 [growable_byte_array::append_byte_array] *)
Definition append_byte_array (g : growable_array) (elts : list A) : growable_array :=
  let len := length elts in
  let new_size := (count g + len)%nat in
  let g := if (length (elements g) <=? new_size)%nat
           then growable_reallot g (2 * new_size) else g in
  mk_growable (count g + len) (list_inserts (count g) elts (elements g)).

(** What a growable array stands for: its first [count] elements. *)
Definition contents (g : growable_array) : list A := take (count g) (elements g).

Definition growable_ok (g : growable_array) : Prop :=
  (count g ≤ length (elements g))%nat.

Lemma contents_reallot g n :
  growable_ok g → (count g ≤ n)%nat → contents (growable_reallot g n) = contents g.
Proof.
  unfold contents, growable_ok. intros. cbn. rewrite reallot_array_eq.
  rewrite take_app_le, take_take by (rewrite length_take; lia).
  by rewrite Nat.min_l by lia.
Qed.

Lemma length_reallot (l : list A) n : length (reallot_array zero l n) = n.
Proof. rewrite reallot_array_eq, length_app, length_take, length_replicate. lia. Qed.
End growable.
Arguments growable_array : clear implicits.
Arguments mk_growable {A}.

Section growable_theorems.
Context {A : Type} `{!alloc_env A} (zero : A).
Implicit Types (g : growable_array A).

Lemma contents_insert_end (l : list A) n e :
  (n < length l)%nat → take (S n) (<[n := e]> l) = take n l ++ [e].
Proof.
  intros. rewrite (take_S_r _ _ e) by (by apply list_lookup_insert_eq).
  by rewrite take_insert_ge by lia.
Qed.

Lemma contents_inserts_end (l es : list A) n :
  (n + length es ≤ length l)%nat →
  take (n + length es) (list_inserts n es l) = take n l ++ es.
Proof.
  intros. rewrite <- (take_drop n l) at 1.
  replace n with (length (take n l) + 0)%nat at 2 by (rewrite length_take; lia).
  rewrite list_inserts_app_r, take_app, length_take, Nat.min_l by lia.
  rewrite take_ge by (rewrite length_take; lia). f_equal.
  replace (n + length es - n)%nat with (length es) by lia.
  rewrite <- (take_drop (length es) (drop n l)).
  rewrite list_inserts_0_r by (rewrite length_take, length_drop; lia).
  by rewrite take_app_length.
Qed.

(** [growable_array::add] never trips the capacity assertion of
    [set_array_nth] on an array with room for at least one element, keeps
    [count <= capacity], and appends exactly the element. *)
Theorem growable_add_spec g e :
  growable_ok g → (0 < length (elements g))%nat →
  ∃ g', growable_add zero g e = Ok g' ∧ growable_ok g' ∧
        (0 < length (elements g'))%nat ∧ contents g' = contents g ++ [e].
Proof.
  intros Hok Hpos. unfold growable_add.
  set (g1 := if (count g =? length (elements g))%nat
             then growable_reallot zero g (2 * count g) else g).
  assert (count g1 = count g ∧ contents g1 = contents g ∧
          (count g < length (elements g1))%nat) as (Hc & Hcon & Hlt).
  { unfold g1, growable_ok in *. destruct (Nat.eqb_spec (count g) (length (elements g))).
    - split_and!; [done| |].
      + apply contents_reallot; unfold growable_ok; lia.
      + cbn. rewrite length_reallot. lia.
    - split_and!; [done..|lia]. }
  rewrite Hc, set_array_nth_ok by done. eexists; split_and!; [reflexivity|..].
  - unfold growable_ok. cbn. rewrite length_insert. lia.
  - cbn. rewrite length_insert. lia.
  - unfold contents in *. cbn. rewrite contents_insert_end by done.
    rewrite <- Hcon. by rewrite Hc.
Qed.

Lemma growable_append_loop_spec es : ∀ g,
  (count g + length es ≤ length (elements g))%nat →
  ∃ g', growable_append_loop g es = Ok g' ∧ growable_ok g' ∧
        contents g' = contents g ++ es.
Proof.
  induction es as [|e es IH]; intros g Hle; cbn [growable_append_loop] in *.
  - eexists; split_and!; [done| |by rewrite app_nil_r]. unfold growable_ok. lia.
  - cbn [length] in Hle. rewrite set_array_nth_ok, result_bind_ok by lia.
    destruct (IH (mk_growable (S (count g)) (<[count g := e]> (elements g))))
      as (g' & -> & ? & Hcon).
    { cbn. rewrite length_insert. lia. }
    eexists; split_and!; [done..|]. rewrite Hcon. unfold contents at 1. cbn.
    rewrite contents_insert_end, <- app_assoc by lia. done.
Qed.

(** [growable_array::append] succeeds on every array and adds all the
    elements at the end. *)
Theorem growable_append_spec g es :
  growable_ok g →
  ∃ g', growable_append zero g es = Ok g' ∧ growable_ok g' ∧
        contents g' = contents g ++ es.
Proof.
  intros Hok. unfold growable_append.
  destruct (Nat.ltb_spec (length (elements g)) (count g + length es)) as [Hlt|Hle].
  - edestruct growable_append_loop_spec as (g' & -> & ? & Hcon); cycle 1.
    + eexists; split_and!; [done..|]. rewrite Hcon.
      rewrite contents_reallot; [done..|lia].
    + cbn. rewrite length_reallot. lia.
  - by apply growable_append_loop_spec.
Qed.

(** Both byte-array appends add exactly the given bytes: the growth
    test makes room before the copy. *)
Theorem append_bytes_spec g es :
  growable_ok g →
  contents (append_bytes zero g es) = contents g ++ es ∧
  contents (append_byte_array zero g es) = contents g ++ es.
Proof.
  intros Hok. unfold growable_ok in Hok. split.
  - unfold append_bytes, grow_bytes, contents. cbn [count elements].
    destruct (Nat.leb_spec (length (elements g)) (count g + length es)); cbn.
    + rewrite contents_inserts_end by (rewrite length_reallot; lia).
      f_equal. rewrite reallot_array_eq, take_app_le by (rewrite length_take; lia).
      rewrite take_take. f_equal. lia.
    + by rewrite contents_inserts_end by lia.
  - unfold append_byte_array, contents.
    destruct (Nat.leb_spec (length (elements g)) (count g + length es)); cbn.
    + rewrite contents_inserts_end by (rewrite length_reallot; lia).
      f_equal. rewrite reallot_array_eq, take_app_le by (rewrite length_take; lia).
      rewrite take_take. f_equal. lia.
    + by rewrite contents_inserts_end by lia.
Qed.
End growable_theorems.

#[local] Existing Instance plain_alloc.

Definition sample_growable : growable_array Z := mk_growable 2 [5; 6].

Lemma growable_add_spec_witness :
  ∃ g', growable_add 0 sample_growable 7 = Ok g' ∧ growable_ok g' ∧
        (0 < length (elements g'))%nat ∧ contents g' = [5; 6; 7].
Proof. apply (growable_add_spec 0 sample_growable 7); [unfold growable_ok|]; cbn; lia. Defined.

Lemma growable_append_spec_witness :
  ∃ g', growable_append 0 sample_growable [7; 8; 9] = Ok g' ∧ growable_ok g' ∧
        contents g' = [5; 6; 7; 8; 9].
Proof. apply (growable_append_spec 0 sample_growable [7; 8; 9]). unfold growable_ok. cbn. lia. Defined.

Lemma append_bytes_spec_witness :
  contents (append_bytes 0 sample_growable [7]) = [5; 6; 7] ∧
  contents (append_byte_array 0 sample_growable [7]) = [5; 6; 7].
Proof. apply (append_bytes_spec 0 sample_growable [7]). unfold growable_ok. cbn. lia. Defined.
