(* ===== verification/Bignum.v ===== *)
(** Bignums: representation, allocation, copying, comparison.
    vm/bignumint.hpp and the helpers of vm/bignum.cpp.

    A bignum object is an array whose cell 0 is the sign and whose other
    cells are the digits, least significant first, each below
    [BIGNUM_RADIX = 2^62].  Here a bignum is the pair of its sign and its
    list of digits; loops that move a pointer through the digit array are
    recursions on the part of the list the pointer has not passed.

    A [bignum*] that aliases another one is modelled only where the code
    looks at it ([bignum_multiply] compares its arguments as pointers); the
    garbage collector may move bignums during an allocation, which the source
    handles with [data_root]s and which is not visible in this model. *)

From S2P Require Import Prelude.
From S2P Require Import Arrays.

(** * Constants and representation *)

(** src/vm/bignumint.hpp:64-64 [BIGNUM_DIGIT_LENGTH] *)
Definition BIGNUM_DIGIT_LENGTH : Z := 8 * 8 - 2.
(** src/vm/bignumint.hpp:65-65 [BIGNUM_HALF_DIGIT_LENGTH] *)
Definition BIGNUM_HALF_DIGIT_LENGTH : Z := BIGNUM_DIGIT_LENGTH `quot` 2.
(** src/vm/bignumint.hpp:66-66 [BIGNUM_RADIX] *)
Definition BIGNUM_RADIX : Z := Z.shiftl 1 BIGNUM_DIGIT_LENGTH.
(** src/vm/bignumint.hpp:67-67 [BIGNUM_RADIX_ROOT] *)
Definition BIGNUM_RADIX_ROOT : Z := Z.shiftl 1 BIGNUM_HALF_DIGIT_LENGTH.
(** src/vm/bignumint.hpp:68-68 [BIGNUM_DIGIT_MASK] *)
Definition BIGNUM_DIGIT_MASK : Z := BIGNUM_RADIX - 1.
(** src/vm/bignumint.hpp:69-69 [BIGNUM_HALF_DIGIT_MASK] *)
Definition BIGNUM_HALF_DIGIT_MASK : Z := BIGNUM_RADIX_ROOT - 1.

(** src/vm/layouts.hpp:178-185 [bignum] *)
Record bignum := mk_bignum { bn_negative : bool; bn_digits : list Z }.

(** src/vm/bignumint.hpp:73-73 [BIGNUM_LENGTH] *)
Definition BIGNUM_LENGTH (bn : bignum) : nat := length (bn_digits bn).
(** src/vm/bignumint.hpp:75-75 [BIGNUM_NEGATIVE_P] *)
Definition BIGNUM_NEGATIVE_P (bn : bignum) : bool := bn_negative bn.
(** src/vm/bignumint.hpp:76-76 [BIGNUM_SET_NEGATIVE_P] *)
Definition BIGNUM_SET_NEGATIVE_P (bn : bignum) (neg : bool) : bignum :=
  mk_bignum neg (bn_digits bn).
(** src/vm/bignumint.hpp:78-78 [BIGNUM_ZERO_P] *)
Definition BIGNUM_ZERO_P (bn : bignum) : bool := (BIGNUM_LENGTH bn =? 0)%nat.
(** src/vm/bignumint.hpp:80-80 [BIGNUM_REF] *)
Definition BIGNUM_REF (bn : bignum) (index : nat) : result Z :=
  read (bn_digits bn) index.
(** src/vm/bignumint.hpp:84-84 [BIGNUM_ZERO] *)
Definition BIGNUM_ZERO : bignum := mk_bignum false [].
(** src/vm/bignumint.hpp:85-86 [BIGNUM_ONE] *)
Definition BIGNUM_ONE (neg_p : bool) : bignum := mk_bignum neg_p [1].

(** src/vm/bignumint.hpp:88-88 [HD_LOW] *)
Definition HD_LOW (digit : Z) : Z := Z.land digit BIGNUM_HALF_DIGIT_MASK.
(** src/vm/bignumint.hpp:89-89 [HD_HIGH] *)
Definition HD_HIGH (digit : Z) : Z := Z.shiftr digit BIGNUM_HALF_DIGIT_LENGTH.
(** src/vm/bignumint.hpp:90-90 [HD_CONS] *)
Definition HD_CONS (high low : Z) : Z :=
  Z.lor (s64 (Z.shiftl high BIGNUM_HALF_DIGIT_LENGTH)) low.

(** src/vm/bignumint.hpp:92-93 [BIGNUM_BITS_TO_DIGITS] *)
Definition BIGNUM_BITS_TO_DIGITS (n : Z) : Z :=
  (n + (BIGNUM_DIGIT_LENGTH - 1)) `quot` BIGNUM_DIGIT_LENGTH.

(** src/vm/bignum.hpp:37-41 [bignum_comparison] *)
Inductive bignum_comparison :=
  | BIGNUM_COMPARISON_EQUAL
  | BIGNUM_COMPARISON_LESS
  | BIGNUM_COMPARISON_GREATER.

#[export] Instance bignum_comparison_eq_dec : EqDecision bignum_comparison.
Proof. solve_decision. Defined.
#[export] Instance bignum_eq_dec : EqDecision bignum.
Proof. solve_decision. Defined.

(** * Allocation and copying *)

Section alloc.
Context `{!alloc_env Z}.

(** src/vm/bignum.cpp:1246-1252 [allot_bignum]: the assertion
    [(length >= 0) || (length < BIGNUM_RADIX)] holds of every length. *)
Definition allot_bignum (length : nat) (negative_p : bool) : bignum :=
  mk_bignum negative_p (allot_uninitialized_array length).

(** src/vm/bignum.cpp:1254-1263 [allot_bignum_zeroed] *)
Definition allot_bignum_zeroed (length : nat) (negative_p : bool) : bignum :=
  let result := allot_bignum length negative_p in
  mk_bignum negative_p (list_inserts 0 (replicate length 0) (bn_digits result)).

(** The cells of a bignum object: the sign word, then the digits. *)
Definition bn_data (bn : bignum) : list Z :=
  (if bn_negative bn then 1 else 0) :: bn_digits bn.

Definition bn_of_data (data : list Z) : bignum :=
  mk_bignum (negb (hd 0 data =? 0)) (tl data).

(** src/vm/bignum.cpp:1265-1275 [bignum_shorten_length] *)
Definition bignum_shorten_length (bn : bignum) (length : nat) : bignum :=
  let current_length := BIGNUM_LENGTH bn in
  if (length <? current_length)%nat then
    let bn := bn_of_data (reallot_array 0 (bn_data bn) (length + 1)) in
    BIGNUM_SET_NEGATIVE_P bn (negb (length =? 0)%nat && BIGNUM_NEGATIVE_P bn)
  else bn.

(** src/vm/bignum.cpp:1281-1284 [bignum_trim] (part):
    The backwards scan of [bignum_trim], [scan - start] being the argument:
    the result is [scan - start] after [scan += 1].  When every digit is
    zero the loop reads the sign word in front of the digits and stops
    there, whatever it holds. *)
Fixpoint bignum_trim_scan (digits : list Z) (scan : nat) : nat :=
  match scan with
  | 0%nat => 0%nat
  | S scan' => if nth scan' digits 0 =? 0 then bignum_trim_scan digits scan' else scan
  end.

(** src/vm/bignum.cpp:1277-1291 [bignum_trim] *)
Definition bignum_trim (bn : bignum) : bignum :=
  let end_ := BIGNUM_LENGTH bn in
  let scan := bignum_trim_scan (bn_digits bn) end_ in
  if (scan <? end_)%nat then
    let bn := bn_of_data (reallot_array 0 (bn_data bn) (scan + 1)) in
    BIGNUM_SET_NEGATIVE_P bn (negb (scan =? 0)%nat && BIGNUM_NEGATIVE_P bn)
  else bn.

(** src/vm/bignum.cpp:1312-1319 [bignum_destructive_copy] *)
Definition bignum_destructive_copy (source target : bignum) : bignum :=
  mk_bignum (bn_negative target) (list_inserts 0 (bn_digits source) (bn_digits target)).

(** src/vm/bignum.cpp:1295-1301 [bignum_new_sign] *)
Definition bignum_new_sign (x : bignum) (negative_p : bool) : bignum :=
  bignum_destructive_copy x (allot_bignum (BIGNUM_LENGTH x) negative_p).

(** src/vm/bignum.cpp:1303-1310 [bignum_maybe_new_sign] *)
Definition bignum_maybe_new_sign (x : bignum) (negative_p : bool) : bignum :=
  if (if BIGNUM_NEGATIVE_P x then negative_p else negb negative_p) then x
  else bignum_new_sign x negative_p.

(** src/vm/bignum.cpp:1234-1244 [bignum_digit_to_bignum] *)
Definition bignum_digit_to_bignum (digit : Z) (negative_p : bool) : bignum :=
  if digit =? 0 then BIGNUM_ZERO
  else
    let result := allot_bignum 1 negative_p in
    mk_bignum (bn_negative result) (<[0%nat := digit]> (bn_digits result)).
End alloc.

(** * Comparison *)

(** src/vm/bignum.cpp:471-473 [bignum_equal_p_unsigned] (part) *)
Fixpoint digits_equal (xs ys : list Z) : bool :=
  match xs, ys with
  | x :: xs', y :: ys' => if negb (x =? y) then false else digits_equal xs' ys'
  | _, _ => true
  end.

(** src/vm/bignum.cpp:463-476 [bignum_equal_p_unsigned] *)
Definition bignum_equal_p_unsigned (x y : bignum) : bool :=
  if negb (BIGNUM_LENGTH x =? BIGNUM_LENGTH y)%nat then false
  else digits_equal (bn_digits x) (bn_digits y).

(** src/vm/bignum.cpp:490-497 [bignum_compare_unsigned] (part):
    The scan from the most significant digit down: the arguments are the
    digits the two pointers have still to reach, most significant first. *)
Fixpoint digits_compare (xs ys : list Z) : bignum_comparison :=
  match xs, ys with
  | digit_x :: xs', digit_y :: ys' =>
      if digit_x <? digit_y then BIGNUM_COMPARISON_LESS
      else if digit_y <? digit_x then BIGNUM_COMPARISON_GREATER
      else digits_compare xs' ys'
  | _, _ => BIGNUM_COMPARISON_EQUAL
  end.

(** src/vm/bignum.cpp:478-500 [bignum_compare_unsigned] *)
Definition bignum_compare_unsigned (x y : bignum) : bignum_comparison :=
  let x_length := BIGNUM_LENGTH x in
  let y_length := BIGNUM_LENGTH y in
  if (x_length <? y_length)%nat then BIGNUM_COMPARISON_LESS
  else if (y_length <? x_length)%nat then BIGNUM_COMPARISON_GREATER
  else digits_compare (rev (bn_digits x)) (rev (bn_digits y)).

(** src/vm/bignum.cpp:55-62 [bignum_equal_p] *)
Definition bignum_equal_p (x y : bignum) : bool :=
  if BIGNUM_ZERO_P x then BIGNUM_ZERO_P y
  else negb (BIGNUM_ZERO_P y) &&
       (if BIGNUM_NEGATIVE_P x then BIGNUM_NEGATIVE_P y else negb (BIGNUM_NEGATIVE_P y)) &&
       bignum_equal_p_unsigned x y.

(** src/vm/bignum.cpp:64-77 [bignum_compare] *)
Definition bignum_compare (x y : bignum) : bignum_comparison :=
  if BIGNUM_ZERO_P x then
    if BIGNUM_ZERO_P y then BIGNUM_COMPARISON_EQUAL
    else if BIGNUM_NEGATIVE_P y then BIGNUM_COMPARISON_GREATER
    else BIGNUM_COMPARISON_LESS
  else if BIGNUM_ZERO_P y then
    if BIGNUM_NEGATIVE_P x then BIGNUM_COMPARISON_LESS else BIGNUM_COMPARISON_GREATER
  else if BIGNUM_NEGATIVE_P x then
    if BIGNUM_NEGATIVE_P y then bignum_compare_unsigned y x else BIGNUM_COMPARISON_LESS
  else
    if BIGNUM_NEGATIVE_P y then BIGNUM_COMPARISON_GREATER else bignum_compare_unsigned x y.

(** * What a bignum denotes *)

Fixpoint digits_value (ds : list Z) : Z :=
  match ds with
  | [] => 0
  | d :: ds' => d + BIGNUM_RADIX * digits_value ds'
  end.

Definition bignum_value (bn : bignum) : Z :=
  if bn_negative bn then - digits_value (bn_digits bn) else digits_value (bn_digits bn).

(** The integer of magnitude [z] with the given sign. *)
Definition with_sign (neg : bool) (z : Z) : Z := if neg then - z else z.

Definition digit_ok (d : Z) : Prop := 0 ≤ d < BIGNUM_RADIX.
Abbreviation digits_ok := (Forall digit_ok).

(** No zero digit in the most significant place. *)
Definition normalized (ds : list Z) : Prop := last ds ≠ Some 0.

(** The representation invariant of a bignum object the VM hands out. *)
Record bignum_ok (bn : bignum) : Prop := {
  bignum_ok_digits : digits_ok (bn_digits bn);
  bignum_ok_normalized : normalized (bn_digits bn);
  bignum_ok_zero : bn_digits bn = [] → bn_negative bn = false
}.

(** [r] is a well-formed bignum denoting [z]. *)
Definition denotes (bn : bignum) (z : Z) : Prop := bignum_ok bn ∧ bignum_value bn = z.

(** * Arithmetic of digits and half digits *)

Lemma radix_eq : BIGNUM_RADIX = 2 ^ 62.
Proof. reflexivity. Qed.
Lemma root_eq : BIGNUM_RADIX_ROOT = 2 ^ 31.
Proof. reflexivity. Qed.
Lemma radix_root : BIGNUM_RADIX = BIGNUM_RADIX_ROOT * BIGNUM_RADIX_ROOT.
Proof. reflexivity. Qed.

(** A digit cut at bit [62 - s]. *)
Lemma digit_cut s d :
  0 ≤ s ≤ 62 → digit_ok d →
  2 ^ s * 2 ^ (62 - s) = 2 ^ 62 ∧
  0 ≤ d / 2 ^ (62 - s) < 2 ^ s ∧ 0 ≤ d mod 2 ^ (62 - s) < 2 ^ (62 - s) ∧
  d = 2 ^ (62 - s) * (d / 2 ^ (62 - s)) + d mod 2 ^ (62 - s).
Proof.
  intros Hs [Hd0 Hd]. rewrite radix_eq in Hd.
  assert (2 ^ s * 2 ^ (62 - s) = 2 ^ 62) as Hp
    by (rewrite <- Z.pow_add_r by lia; f_equal; lia).
  assert (0 < 2 ^ (62 - s)) by (apply Z.pow_pos_nonneg; lia).
  split_and!; [done|by apply Z.div_pos|apply Z.div_lt_upper_bound; lia|
    by apply Z.mod_pos_bound..|apply Z.div_mod; lia].
Qed.

Lemma HD_LOW_mod d : HD_LOW d = d mod BIGNUM_RADIX_ROOT.
Proof. apply (land_ones_mod d 31). lia. Qed.

Lemma HD_HIGH_div d : HD_HIGH d = d / BIGNUM_RADIX_ROOT.
Proof. apply (Z.shiftr_div_pow2 d 31). lia. Qed.

Lemma mask_mod d : Z.land d BIGNUM_DIGIT_MASK = d mod BIGNUM_RADIX.
Proof. apply (land_ones_mod d 62). lia. Qed.

Lemma HD_CONS_eq h l :
  - 2 ^ 32 ≤ h < 2 ^ 32 → 0 ≤ l < BIGNUM_RADIX_ROOT →
  HD_CONS h l = h * BIGNUM_RADIX_ROOT + l.
Proof.
  intros Hh Hl. unfold HD_CONS. change BIGNUM_HALF_DIGIT_LENGTH with 31.
  rewrite s64_id by (unfold is_fixnum; rewrite Z.shiftl_mul_pow2 by lia; lia).
  by rewrite (lor_shiftl_add h l 31) by (done || lia).
Qed.

(** The two halves of a digit. *)
Lemma HD_split d :
  d = BIGNUM_RADIX_ROOT * HD_HIGH d + HD_LOW d ∧ 0 ≤ HD_LOW d < BIGNUM_RADIX_ROOT.
Proof.
  rewrite HD_LOW_mod, HD_HIGH_div. split; [apply Z.div_mod|apply Z.mod_pos_bound]; done.
Qed.

Lemma HD_HIGH_nonneg d : 0 ≤ d → 0 ≤ HD_HIGH d.
Proof. intros. rewrite HD_HIGH_div. by apply Z.div_pos. Qed.

Lemma HD_HIGH_lt d b : d < BIGNUM_RADIX_ROOT * b → HD_HIGH d < b.
Proof. intros. rewrite HD_HIGH_div. by apply Z.div_lt_upper_bound. Qed.

Lemma HD_HIGH_digit d : digit_ok d → 0 ≤ HD_HIGH d < BIGNUM_RADIX_ROOT.
Proof.
  intros [? ?]. split; [by apply HD_HIGH_nonneg|]. apply HD_HIGH_lt. by rewrite <- radix_root.
Qed.

Definition half_ok (h : Z) : Prop := 0 ≤ h < BIGNUM_RADIX_ROOT.

Lemma half_mul_bound a b :
  half_ok a → half_ok b → 0 ≤ a * b ≤ 4611686014132420609.
Proof.
  intros Ha Hb. unfold half_ok in *. rewrite root_eq in *.
  change 4611686014132420609 with ((2 ^ 31 - 1) * (2 ^ 31 - 1)). nia.
Qed.

Lemma HD_LOW_half d : half_ok (HD_LOW d).
Proof. apply HD_split. Qed.

Lemma HD_HIGH_half d : digit_ok d → half_ok (HD_HIGH d).
Proof. apply HD_HIGH_digit. Qed.

Lemma HD_CONS_digit h l : half_ok h → half_ok l →
  HD_CONS h l = BIGNUM_RADIX_ROOT * h + l ∧ digit_ok (HD_CONS h l).
Proof.
  intros Hh Hl. unfold half_ok in *. rewrite root_eq in *.
  rewrite HD_CONS_eq by (rewrite ?root_eq; lia). unfold digit_ok.
  rewrite radix_eq, root_eq. lia.
Qed.

(** The schoolbook product of two digits by halves, with a digit [a] and a
    carry [c] added in: the pattern of every multiplying loop of the file. *)
Lemma half_product xh xl yh yl a c pl ph :
  half_ok xh → half_ok xl → half_ok yh → half_ok yl → digit_ok a → digit_ok c →
  pl = a + xl * yl + HD_LOW c →
  ph = xh * yl + xl * yh + HD_HIGH pl + HD_HIGH c →
  HD_CONS (HD_LOW ph) (HD_LOW pl) + BIGNUM_RADIX * (xh * yh + HD_HIGH ph) =
    a + (BIGNUM_RADIX_ROOT * xh + xl) * (BIGNUM_RADIX_ROOT * yh + yl) + c ∧
  digit_ok (HD_CONS (HD_LOW ph) (HD_LOW pl)) ∧
  digit_ok (xh * yh + HD_HIGH ph) ∧ 0 ≤ pl < 2 ^ 63 ∧ 0 ≤ ph < 2 ^ 63.
Proof.
  intros Hxh Hxl Hyh Hyl Ha Hc Epl Eph.
  pose proof (half_mul_bound xl yl Hxl Hyl) as B1. pose proof (half_mul_bound xh yl Hxh Hyl) as B2.
  pose proof (half_mul_bound xl yh Hxl Hyh) as B3. pose proof (half_mul_bound xh yh Hxh Hyh) as B4.
  destruct (HD_split c) as [Sc Lc], (HD_split pl) as [Sl Ll], (HD_split ph) as [Sh Lh].
  destruct (HD_CONS_digit (HD_LOW ph) (HD_LOW pl)) as [Ed Hd]; [apply HD_LOW_half..|].
  unfold half_ok, digit_ok in *. rewrite radix_eq, root_eq in *.
  split_and!; lia.
Qed.

(** * Values of digit lists *)

Abbreviation radix_pow n := (BIGNUM_RADIX ^ Z.of_nat n).

Lemma radix_pow_S n : radix_pow (S n) = BIGNUM_RADIX * radix_pow n.
Proof. rewrite Nat2Z.inj_succ, Z.pow_succ_r; lia. Qed.

Lemma radix_pow_add n m : radix_pow (n + m) = radix_pow n * radix_pow m.
Proof. rewrite Nat2Z.inj_add, Z.pow_add_r; lia. Qed.

Lemma radix_pow_pos n : 0 < radix_pow n.
Proof. apply Z.pow_pos_nonneg; [done|lia]. Qed.

Lemma digits_value_app xs ys :
  digits_value (xs ++ ys) = digits_value xs + radix_pow (length xs) * digits_value ys.
Proof.
  induction xs as [|x xs IH]; cbn [app digits_value length]; [lia|].
  rewrite IH, radix_pow_S. ring.
Qed.

Lemma digits_value_replicate_0 n : digits_value (replicate n 0) = 0.
Proof. induction n as [|n IH]; cbn [replicate digits_value]; [done|]. rewrite IH. lia. Qed.

Lemma digits_value_range ds : digits_ok ds → 0 ≤ digits_value ds < radix_pow (length ds).
Proof.
  induction 1 as [|d ds [? ?] ? IH]; cbn [digits_value length]; [lia|].
  rewrite radix_pow_S. nia.
Qed.

Lemma digits_value_nonneg ds : digits_ok ds → 0 ≤ digits_value ds.
Proof. intros H. by apply digits_value_range in H as [? _]. Qed.

Lemma digits_value_inj xs ys :
  digits_ok xs → digits_ok ys → length xs = length ys →
  digits_value xs = digits_value ys → xs = ys.
Proof.
  intros Hx. revert ys. induction Hx as [|x xs [? ?] Hx IH]; intros ys Hy Hl Hv.
  - by destruct ys.
  - destruct Hy as [|y ys [? ?] Hy]; [done|]. cbn [digits_value length] in *.
    assert (x = y ∧ digits_value xs = digits_value ys) as [-> ?].
    { pose proof radix_eq. nia. }
    f_equal. apply IH; [done|lia|done].
Qed.

Lemma digits_value_zero ds :
  digits_ok ds → digits_value ds = 0 → ds = replicate (length ds) 0.
Proof.
  intros Hok Hv. apply digits_value_inj; [done| |by rewrite length_replicate|].
  - apply Forall_replicate. by split.
  - by rewrite Hv, digits_value_replicate_0.
Qed.

Lemma normalized_snoc ds d : normalized (ds ++ [d]) ↔ d ≠ 0.
Proof. unfold normalized. rewrite last_snoc. naive_solver. Qed.

Lemma normalized_nil : normalized [].
Proof. done. Qed.

Lemma digits_ok_snoc ds d : digits_ok (ds ++ [d]) ↔ digits_ok ds ∧ digit_ok d.
Proof. rewrite Forall_app, Forall_singleton. done. Qed.

(** A list of digits is empty or ends in its most significant digit. *)
Lemma digits_snoc_inv (ds : list Z) : ds = [] ∨ ∃ ds' d, ds = ds' ++ [d].
Proof. induction ds as [|d ds _] using rev_ind; eauto. Qed.

Lemma normalized_lower_bound ds :
  digits_ok ds → normalized ds → ds ≠ [] → radix_pow (length ds - 1) ≤ digits_value ds.
Proof.
  intros Hok Hn Hne. destruct (digits_snoc_inv ds) as [->|(ds' & d & ->)]; [done|].
  apply normalized_snoc in Hn. apply digits_ok_snoc in Hok as [Hok [? ?]].
  rewrite digits_value_app, length_app. cbn [digits_value length].
  replace (length ds' + 1 - 1)%nat with (length ds') by lia.
  apply digits_value_nonneg in Hok. pose proof (radix_pow_pos (length ds')). nia.
Qed.

Lemma normalized_zero ds : digits_ok ds → normalized ds → digits_value ds = 0 → ds = [].
Proof.
  intros Hok Hn Hv. destruct ds as [|d ds]; [done|].
  pose proof (normalized_lower_bound (d :: ds) Hok Hn ltac:(done)) as Hlow.
  rewrite Hv in Hlow. pose proof (radix_pow_pos (length (d :: ds) - 1)). lia.
Qed.

(** More digits, larger value. *)
Lemma normalized_length_lt xs ys :
  digits_ok xs → digits_ok ys → normalized ys → (length xs < length ys)%nat →
  digits_value xs < digits_value ys.
Proof.
  intros Hx Hy Hn Hl.
  assert (ys ≠ []) as Hne by (intros ->; cbn in Hl; lia).
  pose proof (normalized_lower_bound ys Hy Hn Hne). apply digits_value_range in Hx.
  assert (radix_pow (length xs) ≤ radix_pow (length ys - 1)).
  { apply Z.pow_le_mono_r; [done|lia]. }
  lia.
Qed.

Lemma normalized_inj xs ys :
  digits_ok xs → digits_ok ys → normalized xs → normalized ys →
  digits_value xs = digits_value ys → xs = ys.
Proof.
  intros Hx Hy Hnx Hny Hv. apply digits_value_inj; try done.
  destruct (lt_eq_lt_dec (length xs) (length ys)) as [[Hl|Hl]|Hl]; [|done|].
  - pose proof (normalized_length_lt xs ys Hx Hy Hny Hl). lia.
  - pose proof (normalized_length_lt ys xs Hy Hx Hnx Hl). lia.
Qed.

(** As many digits as a normalized list, and no smaller value. *)
Lemma normalized_same_length r xs :
  digits_ok r → digits_ok xs → normalized xs → xs ≠ [] → length r = length xs →
  digits_value xs ≤ digits_value r → normalized r.
Proof.
  intros Hr Hx Hnx Hne Hl Hle. destruct (digits_snoc_inv r) as [->|(ds & d & ->)]; [done|].
  apply normalized_snoc. intros ->. pose proof (normalized_lower_bound xs Hx Hnx Hne) as Hlow.
  apply digits_ok_snoc in Hr as [Hr _]. rewrite length_app in Hl. cbn in Hl.
  rewrite digits_value_app in Hle. cbn [digits_value] in Hle.
  replace (length xs - 1)%nat with (length ds) in Hlow by lia.
  pose proof (digits_value_range _ Hr). lia.
Qed.

Lemma bignum_value_with_sign x :
  bignum_value x = with_sign (bn_negative x) (digits_value (bn_digits x)).
Proof. reflexivity. Qed.

(** The representation of an integer is unique. *)
Lemma bignum_value_inj x y :
  bignum_ok x → bignum_ok y → bignum_value x = bignum_value y → x = y.
Proof.
  destruct x as [sx xs], y as [sy ys]. intros [Hx Hnx Hzx] [Hy Hny Hzy].
  unfold bignum_value. cbn in *. intros Hv.
  pose proof (digits_value_nonneg _ Hx). pose proof (digits_value_nonneg _ Hy).
  destruct sx, sy.
  - f_equal. apply normalized_inj; (done || lia).
  - rewrite (normalized_zero xs) in Hzx; (done || lia || discriminate (Hzx eq_refl)).
  - rewrite (normalized_zero ys) in Hzy; (done || lia || discriminate (Hzy eq_refl)).
  - f_equal. apply normalized_inj; (done || lia).
Qed.

(** * The bignum of an integer

    [bignum_of_Z] is a right inverse of [bignum_value]; on well-formed
    bignums it is also a left inverse, so an operation that [denotes] an
    integer function maps the bignums of integers to bignums of integers. *)

Fixpoint digits_of (fuel : nat) (z : Z) : list Z :=
  match fuel with
  | 0%nat => []
  | S fuel' => if z =? 0 then [] else z mod BIGNUM_RADIX :: digits_of fuel' (z / BIGNUM_RADIX)
  end.

(** One digit holds at least one bit: [Z.log2 |z| + 1] digits are enough. *)
Definition bignum_of_Z (z : Z) : bignum :=
  mk_bignum (z <? 0) (digits_of (Z.to_nat (Z.log2 (Z.abs z) + 1)) (Z.abs z)).

Lemma digits_of_spec fuel : ∀ z,
  0 ≤ z < 2 ^ Z.of_nat fuel →
  digits_ok (digits_of fuel z) ∧ normalized (digits_of fuel z) ∧
  digits_value (digits_of fuel z) = z.
Proof.
  induction fuel as [|fuel IH]; intros z Hz; cbn [digits_of].
  { change (2 ^ Z.of_nat 0) with 1 in Hz. split_and!; [done|done|cbn; lia]. }
  destruct (Z.eqb_spec z 0) as [->|Hne]; [by split_and!|].
  rewrite Nat2Z.inj_succ, Z.pow_succ_r in Hz by lia.
  pose proof (Z.div_mod z BIGNUM_RADIX ltac:(done)) as Hdm.
  pose proof (Z.mod_pos_bound z BIGNUM_RADIX ltac:(done)) as Hm.
  destruct (IH (z / BIGNUM_RADIX)) as (Hok & Hn & Hv).
  { rewrite radix_eq in *. split; [apply Z.div_pos; lia|apply Z.div_lt_upper_bound; lia]. }
  split_and!; [by constructor| |cbn [digits_value]; rewrite Hv; lia].
  destruct (digits_snoc_inv (digits_of fuel (z / BIGNUM_RADIX))) as [E|(ds & d & E)]; rewrite E in *.
  - cbn in Hv. apply (normalized_snoc []). lia.
  - apply (normalized_snoc (_ :: ds)). by apply normalized_snoc in Hn.
Qed.

Lemma bignum_of_Z_denotes z : denotes (bignum_of_Z z) z.
Proof.
  destruct (digits_of_spec (Z.to_nat (Z.log2 (Z.abs z) + 1)) (Z.abs z)) as (Hok & Hn & Hv).
  { pose proof (Z.log2_nonneg (Z.abs z)). rewrite Z2Nat.id by lia. split; [lia|].
    destruct (decide (z = 0)) as [->|]; [done|]. apply Z.log2_spec. lia. }
  unfold bignum_of_Z. split; [split|]; cbn [bn_digits bn_negative]; [done|done| |].
  - intros E. rewrite E in Hv. cbn in Hv. assert (z = 0) as -> by lia. done.
  - unfold bignum_value. cbn [bn_digits bn_negative]. rewrite Hv. destruct (Z.ltb_spec z 0); lia.
Qed.

Lemma bignum_of_Z_ok z : bignum_ok (bignum_of_Z z).
Proof. apply bignum_of_Z_denotes. Qed.

Lemma bignum_of_Z_value z : bignum_value (bignum_of_Z z) = z.
Proof. apply bignum_of_Z_denotes. Qed.

Lemma denotes_of_Z bn z : denotes bn z ↔ bn = bignum_of_Z z.
Proof.
  split; [|intros ->; apply bignum_of_Z_denotes]. intros [Hok <-].
  apply bignum_value_inj; [done|apply bignum_of_Z_ok|by rewrite bignum_of_Z_value].
Qed.

(** * Allocation, trimming and copying *)

Section alloc_lemmas.
Context `{!alloc_env Z}.

Lemma allot_bignum_zeroed_eq n neg :
  allot_bignum_zeroed n neg = mk_bignum neg (replicate n 0).
Proof.
  unfold allot_bignum_zeroed. f_equal. apply list_inserts_all. cbn.
  by rewrite length_replicate, length_allot_uninitialized_array.
Qed.

Lemma allot_bignum_length n neg : BIGNUM_LENGTH (allot_bignum n neg) = n.
Proof. apply length_allot_uninitialized_array. Qed.

(** Writing all but the last digit of a fresh bignum. *)
Lemma allot_bignum_write_init r n neg :
  length r = n →
  list_inserts 0 r (bn_digits (allot_bignum (n + 1) neg)) = r ++ [uninit n].
Proof.
  intros <-. cbn [allot_bignum bn_digits]. unfold allot_uninitialized_array.
  rewrite seq_app, fmap_app. cbn. apply list_inserts_0_r. by rewrite length_fmap, length_seq.
Qed.

Lemma allot_bignum_write r n neg :
  length r = n → list_inserts 0 r (bn_digits (allot_bignum n neg)) = r.
Proof. intros <-. apply list_inserts_all. cbn. by rewrite length_allot_uninitialized_array. Qed.

Lemma shorten_eq bn n :
  (n ≤ BIGNUM_LENGTH bn)%nat →
  (n = 0%nat → bn_digits bn = [] → bn_negative bn = false) →
  bignum_shorten_length bn n =
    mk_bignum (negb (n =? 0)%nat && bn_negative bn) (take n (bn_digits bn)).
Proof.
  destruct bn as [neg ds]. unfold bignum_shorten_length, BIGNUM_LENGTH. cbn. intros Hn Hz.
  destruct (Nat.ltb_spec n (length ds)) as [Hlt|Hge].
  - rewrite reallot_array_eq. unfold bn_data. cbn [bn_negative bn_digits length].
    replace (n + 1)%nat with (S n) by lia.
    replace (S n - S (length ds))%nat with 0%nat by lia.
    unfold bn_of_data. cbn. rewrite app_nil_r. by destruct neg.
  - replace n with (length ds) in * by lia. rewrite firstn_all.
    f_equal. destruct (Nat.eqb_spec (length ds) 0) as [Hl|]; [|done].
    apply Hz; [done|]. by apply nil_length_inv.
Qed.

Lemma bignum_trim_scan_app ds n rest :
  (n ≤ length ds)%nat → bignum_trim_scan (ds ++ rest) n = bignum_trim_scan ds n.
Proof.
  induction n as [|n IH]; intros Hn; [done|]. cbn.
  rewrite app_nth1 by lia. rewrite IH by lia. done.
Qed.

(** The trimmed list is a normalized prefix and what is cut off is zero. *)
Lemma bignum_trim_scan_spec ds :
  let n := bignum_trim_scan ds (length ds) in
  (n ≤ length ds)%nat ∧ normalized (take n ds) ∧
  ds = take n ds ++ replicate (length ds - n) 0.
Proof.
  induction ds as [|d ds IH] using rev_ind; [done|]. cbv zeta in *.
  rewrite length_app, Nat.add_1_r. cbn [bignum_trim_scan length].
  rewrite app_nth2, Nat.sub_diag by lia. cbn [nth].
  destruct (Z.eqb_spec d 0) as [->|Hd].
  - rewrite bignum_trim_scan_app by lia. destruct IH as (Hle & Hn & Heq).
    set (n := bignum_trim_scan ds (length ds)) in *.
    rewrite take_app_le by lia. split_and!; [lia|done|].
    rewrite Heq at 1. rewrite <- app_assoc. f_equal.
    replace (S (length ds) - n)%nat with ((length ds - n) + 1)%nat by lia.
    by rewrite replicate_add.
  - rewrite firstn_all2 by (rewrite length_app; cbn; lia). split_and!; [lia| |].
    + by apply normalized_snoc.
    + by rewrite Nat.sub_diag, app_nil_r.
Qed.

Lemma bignum_trim_eq bn :
  let n := bignum_trim_scan (bn_digits bn) (BIGNUM_LENGTH bn) in
  (bn_digits bn = [] → bn_negative bn = false) →
  bignum_trim bn = mk_bignum (negb (n =? 0)%nat && bn_negative bn) (take n (bn_digits bn)).
Proof.
  intros n Hz. unfold bignum_trim. fold n.
  destruct (bignum_trim_scan_spec (bn_digits bn)) as (Hle & _ & _). fold (BIGNUM_LENGTH bn) in *.
  fold n in Hle. rewrite <- shorten_eq by (done || lia).
  unfold bignum_shorten_length. by destruct (_ <? _)%nat.
Qed.

(** [bignum_trim] restores the invariant and keeps the value. *)
Lemma bignum_trim_denotes neg ds :
  digits_ok ds → (ds = [] → neg = false) →
  denotes (bignum_trim (mk_bignum neg ds)) (if neg then - digits_value ds else digits_value ds).
Proof.
  intros Hok Hz. rewrite bignum_trim_eq by done. unfold BIGNUM_LENGTH. cbn [bn_digits bn_negative].
  destruct (bignum_trim_scan_spec ds) as (Hle & Hn & Heq).
  set (n := bignum_trim_scan ds (length ds)) in *.
  assert (digits_value (take n ds) = digits_value ds) as Hv.
  { rewrite Heq at 2. rewrite digits_value_app, digits_value_replicate_0. lia. }
  split; [split|]; cbn.
  - by apply Forall_take.
  - done.
  - intros Hnil. destruct n; [done|]. destruct ds; [by apply Hz|done].
  - unfold bignum_value. cbn. rewrite Hv. destruct (Nat.eqb_spec n 0) as [E|E]; [|done].
    rewrite E in Hv. cbn in Hv. rewrite <- Hv. by destruct neg.
Qed.

Lemma bignum_trim_ok bn :
  digits_ok (bn_digits bn) → (bn_digits bn = [] → bn_negative bn = false) →
  denotes (bignum_trim bn) (bignum_value bn).
Proof. destruct bn. apply bignum_trim_denotes. Qed.

Lemma bignum_new_sign_eq x neg : bignum_new_sign x neg = mk_bignum neg (bn_digits x).
Proof.
  unfold bignum_new_sign, bignum_destructive_copy. cbn. f_equal.
  apply list_inserts_all. by rewrite length_allot_uninitialized_array.
Qed.

Lemma bignum_maybe_new_sign_eq x neg :
  bignum_maybe_new_sign x neg = mk_bignum neg (bn_digits x).
Proof.
  unfold bignum_maybe_new_sign. rewrite bignum_new_sign_eq.
  destruct x as [[] ds], neg; done.
Qed.

Lemma bignum_digit_to_bignum_denotes d neg :
  digit_ok d → denotes (bignum_digit_to_bignum d neg) (if neg then - d else d).
Proof.
  intros Hd. unfold bignum_digit_to_bignum. destruct (Z.eqb_spec d 0) as [->|Hne].
  - split; [|by destruct neg]. split; try done.
  - cbn. split; [split|]; cbn.
    + by apply Forall_singleton.
    + unfold normalized. cbn. congruence.
    + done.
    + unfold bignum_value. cbn. destruct neg; lia.
Qed.
End alloc_lemmas.

Lemma denotes_zero : denotes BIGNUM_ZERO 0.
Proof. by split; [split|]. Qed.

Lemma denotes_one neg : denotes (BIGNUM_ONE neg) (if neg then -1 else 1).
Proof. split; [split|by destruct neg]; cbn; [by apply Forall_singleton|done|done]. Qed.

(** A well-formed nonzero bignum under another sign. *)
Lemma denotes_sign bn neg :
  bignum_ok bn → bn_digits bn ≠ [] →
  denotes (mk_bignum neg (bn_digits bn))
    (if neg then - digits_value (bn_digits bn) else digits_value (bn_digits bn)).
Proof. intros [? ? ?] ?. by split; [split|by destruct neg]. Qed.

Lemma zero_p_spec bn : BIGNUM_ZERO_P bn = true ↔ bn_digits bn = [].
Proof.
  unfold BIGNUM_ZERO_P, BIGNUM_LENGTH. rewrite Nat.eqb_eq. split; [apply nil_length_inv|by intros ->].
Qed.

Lemma zero_p_false bn : BIGNUM_ZERO_P bn = false ↔ bn_digits bn ≠ [].
Proof. rewrite <- not_true_iff_false. by rewrite zero_p_spec. Qed.

Lemma nonzero_value bn : bignum_ok bn → bn_digits bn ≠ [] → 0 < digits_value (bn_digits bn).
Proof.
  intros [Hok Hn _] Hne. pose proof (digits_value_nonneg _ Hok).
  destruct (decide (digits_value (bn_digits bn) = 0)); [|lia].
  by destruct Hne; apply normalized_zero.
Qed.

(** * Comparison *)

(** The three-way comparison of [Z], as the enumeration of the source. *)
Definition comparison_of (c : comparison) : bignum_comparison :=
  match c with
  | Eq => BIGNUM_COMPARISON_EQUAL
  | Lt => BIGNUM_COMPARISON_LESS
  | Gt => BIGNUM_COMPARISON_GREATER
  end.

Lemma comparison_lt a b : a < b → comparison_of (a ?= b) = BIGNUM_COMPARISON_LESS.
Proof. intros H. by rewrite (proj2 (Z.compare_lt_iff _ _) H). Qed.
Lemma comparison_gt a b : b < a → comparison_of (a ?= b) = BIGNUM_COMPARISON_GREATER.
Proof. intros H. by rewrite (proj2 (Z.compare_gt_iff _ _) H). Qed.
Lemma comparison_eq a b : a = b → comparison_of (a ?= b) = BIGNUM_COMPARISON_EQUAL.
Proof. intros ->. by rewrite Z.compare_refl. Qed.

Create Rewrite HintDb cmp.
#[export] Hint Rewrite comparison_lt comparison_gt comparison_eq using lia : cmp.

Lemma digits_compare_spec xs : ∀ ys,
  digits_ok xs → digits_ok ys → length xs = length ys →
  digits_compare (rev xs) (rev ys) = comparison_of (digits_value xs ?= digits_value ys).
Proof.
  induction xs as [|x xs IH] using rev_ind; intros ys Hx Hy Hl.
  - destruct ys; done.
  - destruct (digits_snoc_inv ys) as [->|(ys' & y & ->)];
      [rewrite length_app in Hl; cbn in Hl; lia|].
    rewrite !length_app in Hl. cbn in Hl. assert (length xs = length ys') as Hl' by lia.
    apply digits_ok_snoc in Hx as [Hx [? ?]], Hy as [Hy [? ?]].
    rewrite !rev_unit, !digits_value_app, Hl'. cbn [digits_compare digits_value].
    pose proof (digits_value_range _ Hx) as Hrx. pose proof (digits_value_range _ Hy) as Hry.
    rewrite Hl' in Hrx. pose proof (radix_pow_pos (length ys')).
    destruct (Z.ltb_spec x y); [rewrite comparison_lt; [done|nia]|].
    destruct (Z.ltb_spec y x); [rewrite comparison_gt; [done|nia]|].
    assert (x = y) as -> by lia. rewrite IH by done.
    f_equal. rewrite !(Z.add_comm _ (radix_pow _ * _)). symmetry. apply Z.add_compare_mono_l.
Qed.

Lemma bignum_compare_unsigned_spec x y :
  bignum_ok x → bignum_ok y →
  bignum_compare_unsigned x y =
    comparison_of (digits_value (bn_digits x) ?= digits_value (bn_digits y)).
Proof.
  intros [Hx Hnx _] [Hy Hny _]. unfold bignum_compare_unsigned, BIGNUM_LENGTH.
  destruct (Nat.ltb_spec (length (bn_digits x)) (length (bn_digits y))) as [Hl|].
  { by rewrite comparison_lt by (by apply normalized_length_lt). }
  destruct (Nat.ltb_spec (length (bn_digits y)) (length (bn_digits x))) as [Hl|].
  { by rewrite comparison_gt by (by apply normalized_length_lt). }
  apply digits_compare_spec; [done..|lia].
Qed.

(** [bignum_compare] decides the order of the integers denoted. *)
Theorem bignum_compare_spec x y :
  bignum_ok x → bignum_ok y →
  bignum_compare x y = comparison_of (bignum_value x ?= bignum_value y).
Proof.
  intros Hx Hy. unfold bignum_compare.
  destruct (BIGNUM_ZERO_P x) eqn:Zx; destruct (BIGNUM_ZERO_P y) eqn:Zy;
    rewrite ?zero_p_spec, ?zero_p_false in *; unfold BIGNUM_NEGATIVE_P, bignum_value.
  - rewrite Zx, Zy. by destruct (bn_negative x), (bn_negative y).
  - rewrite Zx. pose proof (nonzero_value y Hy Zy).
    destruct (bn_negative x), (bn_negative y); cbn [digits_value]; by autorewrite with cmp.
  - rewrite Zy. pose proof (nonzero_value x Hx Zx).
    destruct (bn_negative x), (bn_negative y); cbn [digits_value]; by autorewrite with cmp.
  - pose proof (nonzero_value x Hx Zx). pose proof (nonzero_value y Hy Zy).
    rewrite !bignum_compare_unsigned_spec by done.
    destruct (bn_negative x), (bn_negative y); autorewrite with cmp; try done.
    f_equal. symmetry. apply Z.compare_opp.
Qed.

Lemma digits_equal_spec xs ys :
  length xs = length ys → digits_equal xs ys = true ↔ xs = ys.
Proof.
  revert ys. induction xs as [|x xs IH]; intros [|y ys] Hl; try done.
  cbn [digits_equal]. destruct (Z.eqb_spec x y) as [->|]; cbn [negb].
  - rewrite IH by (cbn in Hl; lia). naive_solver.
  - naive_solver.
Qed.

(** [bignum_equal_p] decides equality of the integers denoted. *)
Theorem bignum_equal_p_spec x y :
  bignum_ok x → bignum_ok y →
  bignum_equal_p x y = bool_decide (bignum_value x = bignum_value y).
Proof.
  intros Hx Hy. apply eq_true_iff_eq. rewrite bool_decide_eq_true.
  transitivity (x = y); [|split; [by intros ->|by apply bignum_value_inj]].
  destruct x as [sx xs], y as [sy ys], Hx as [_ _ Hzx], Hy as [_ _ Hzy].
  unfold bignum_equal_p, bignum_equal_p_unsigned, BIGNUM_ZERO_P, BIGNUM_LENGTH, BIGNUM_NEGATIVE_P.
  cbn [bn_negative bn_digits] in *.
  destruct (Nat.eqb_spec (length xs) 0) as [Ex|Ex], (Nat.eqb_spec (length ys) 0) as [Ey|Ey].
  - apply nil_length_inv in Ex as ->, Ey as ->. rewrite Hzx, Hzy by done. done.
  - split; [done|]. intros [= _ <-]. done.
  - split; [done|]. intros [= _ <-]. done.
  - cbn [negb andb]. destruct (Nat.eqb_spec (length xs) (length ys)) as [El|El]; cbn [negb].
    + rewrite andb_true_iff, digits_equal_spec by done. destruct sx, sy; naive_solver.
    + rewrite andb_false_r. split; [done|]. by intros [= _ <-].
Qed.
