(* ===== verification/BignumAdd.v ===== *)
(** Bignum addition and subtraction: vm/bignum.cpp. *)

From S2P Require Import Prelude.
From S2P Require Import Arrays.
From S2P Require Import Bignum.
Local Open Scope fixnum_scope.

Section add.
Context `{!alloc_env Z}.

(** src/vm/bignum.cpp:524-533 [bignum_add_unsigned] (part):
    [while (scan_y < end_y)]: the digits written, what is left of [x], and
    the carry. *)
Fixpoint add_loop (xs ys : list Z) (carry : Z) {struct ys} : list Z * list Z * Z :=
  match ys, xs with
  | y :: ys', x :: xs' =>
      let sum := x +! y +! carry in
      if sum <? BIGNUM_RADIX then
        let '(r, rest, c) := add_loop xs' ys' 0 in (sum :: r, rest, c)
      else
        let '(r, rest, c) := add_loop xs' ys' 1 in ((sum -! BIGNUM_RADIX) :: r, rest, c)
  | _, _ => ([], xs, carry)
  end.

(** src/vm/bignum.cpp:537-546 [bignum_add_unsigned] (part):
    [if (carry != 0) while (scan_x < end_x)]: entered with carry 1. *)
Fixpoint add_carry_loop (xs : list Z) : list Z * list Z * Z :=
  match xs with
  | [] => ([], [], 1)
  | x :: xs' =>
      let sum := x +! 1 in
      if sum <? BIGNUM_RADIX then ([sum], xs', 0)
      else let '(r, rest, c) := add_carry_loop xs' in ((sum -! BIGNUM_RADIX) :: r, rest, c)
  end.

(** src/vm/bignum.cpp:504-556 [bignum_add_unsigned] *)
Definition bignum_add_unsigned (x y : bignum) (negative_p : bool) : bignum :=
  let '(x, y) := if (BIGNUM_LENGTH x <? BIGNUM_LENGTH y)%nat then (y, x) else (x, y) in
  let x_length := BIGNUM_LENGTH x in
  let r := allot_bignum (x_length + 1) negative_p in
  let '(r1, rest, carry) := add_loop (bn_digits x) (bn_digits y) 0 in
  let '(r2, rest, carry) :=
    if negb (carry =? 0) then add_carry_loop rest else ([], rest, carry) in
  let r := mk_bignum (bn_negative r) (list_inserts 0 (r1 ++ r2 ++ rest) (bn_digits r)) in
  if negb (carry =? 0) then
    mk_bignum (bn_negative r) (<[length (r1 ++ r2 ++ rest) := 1]> (bn_digits r))
  else bignum_shorten_length r x_length.

(** src/vm/bignum.cpp:590-599 [bignum_subtract_unsigned] (part):
    The subtraction loops, with the same shape. *)
Fixpoint sub_loop (xs ys : list Z) (borrow : Z) {struct ys} : list Z * list Z * Z :=
  match ys, xs with
  | y :: ys', x :: xs' =>
      let difference := (x -! y) -! borrow in
      if difference <? 0 then
        let '(r, rest, b) := sub_loop xs' ys' 1 in ((difference +! BIGNUM_RADIX) :: r, rest, b)
      else
        let '(r, rest, b) := sub_loop xs' ys' 0 in (difference :: r, rest, b)
  | _, _ => ([], xs, borrow)
  end.

(** src/vm/bignum.cpp:603-613 [bignum_subtract_unsigned] (part) *)
Fixpoint sub_borrow_loop (xs : list Z) (borrow : Z) : list Z * list Z * Z :=
  match xs with
  | [] => ([], [], borrow)
  | x :: xs' =>
      let difference := x -! borrow in
      if difference <? 0 then
        let '(r, rest, b) := sub_borrow_loop xs' borrow in
        ((difference +! BIGNUM_RADIX) :: r, rest, b)
      else ([difference], xs', 0)
  end.

(** src/vm/bignum.cpp:560-620 [bignum_subtract_unsigned]: the block after the
    [switch], when [x] has the larger magnitude. *)
Definition subtract_magnitudes (x y : bignum) (negative_p : bool) : result bignum :=
  let x_length := BIGNUM_LENGTH x in
  let r := allot_bignum x_length negative_p in
  let '(r1, rest, borrow) := sub_loop (bn_digits x) (bn_digits y) 0 in
  let '(r2, rest, borrow) :=
    if negb (borrow =? 0) then sub_borrow_loop rest borrow else ([], rest, borrow) in
  check (borrow =? 0) ≫= λ _,
  let r := mk_bignum (bn_negative r) (list_inserts 0 (r1 ++ r2 ++ rest) (bn_digits r)) in
  Ok (bignum_trim r).

(** src/vm/bignum.cpp:560-620 [bignum_subtract_unsigned] *)
Definition bignum_subtract_unsigned (x y : bignum) : result bignum :=
  match bignum_compare_unsigned x y with
  | BIGNUM_COMPARISON_EQUAL => Ok BIGNUM_ZERO
  | BIGNUM_COMPARISON_LESS => subtract_magnitudes y x true
  | BIGNUM_COMPARISON_GREATER => subtract_magnitudes x y false
  end.

(** src/vm/bignum.cpp:79-89 [bignum_add] *)
Definition bignum_add (x y : bignum) : result bignum :=
  if BIGNUM_ZERO_P x then Ok y
  else if BIGNUM_ZERO_P y then Ok x
  else if BIGNUM_NEGATIVE_P x then
    if BIGNUM_NEGATIVE_P y then Ok (bignum_add_unsigned x y true)
    else bignum_subtract_unsigned y x
  else
    if BIGNUM_NEGATIVE_P y then bignum_subtract_unsigned x y
    else Ok (bignum_add_unsigned x y false).

(** src/vm/bignum.cpp:91-105 [bignum_subtract] *)
Definition bignum_subtract (x y : bignum) : result bignum :=
  if BIGNUM_ZERO_P x then
    if BIGNUM_ZERO_P y then Ok y
    else Ok (bignum_new_sign y (negb (BIGNUM_NEGATIVE_P y)))
  else if BIGNUM_ZERO_P y then Ok x
  else if BIGNUM_NEGATIVE_P x then
    if BIGNUM_NEGATIVE_P y then bignum_subtract_unsigned y x
    else Ok (bignum_add_unsigned x y true)
  else
    if BIGNUM_NEGATIVE_P y then Ok (bignum_add_unsigned x y false)
    else bignum_subtract_unsigned x y.

(** ** The loops *)

(** Splitting a record produced by a loop. *)
Lemma add_loop_spec ys : ∀ xs carry r rest c,
  digits_ok xs → digits_ok ys → (length ys ≤ length xs)%nat → carry = 0 ∨ carry = 1 →
  add_loop xs ys carry = (r, rest, c) →
  digits_ok r ∧ digits_ok rest ∧ (c = 0 ∨ c = 1) ∧
  length r = length ys ∧ length rest = (length xs - length ys)%nat ∧
  digits_value r + radix_pow (length ys) * (c + digits_value rest) =
    digits_value xs + digits_value ys + carry.
Proof.
  induction ys as [|y ys IH]; intros xs carry r rest c Hx Hy Hl Hc E; cbn [add_loop] in E.
  { injection E as <- <- <-. cbn [length digits_value]. split_and!; try done; lia. }
  destruct Hx as [|x xs Hdx Hx]; [cbn in Hl; lia|].
  apply Forall_cons in Hy as [Hdy Hy]. cbn [length] in *.
  unfold digit_ok in Hdx, Hdy. rewrite radix_eq in Hdx, Hdy.
  rewrite (s64_id (x + y)), (s64_id (x + y + carry)) in E by (unfold is_fixnum; lia).
  destruct (Z.ltb_spec (x + y + carry) BIGNUM_RADIX) as [Hlt|Hge];
    destruct (add_loop xs ys _) as [[r' rest'] c'] eqn:E'; injection E as <- <- <-;
    apply IH in E' as (Hr & Hrest & Hc' & Hlr & Hlrest & Hv); (done || lia || idtac);
    rewrite radix_pow_S; cbn [digits_value length]; rewrite radix_eq in *.
  - split_and!; try done; [|lia|nia]. constructor; [|done]. split; rewrite ?radix_eq; lia.
  - rewrite s64_id by (unfold is_fixnum; lia).
    split_and!; try done; [|lia|nia]. constructor; [|done]. split; rewrite ?radix_eq; lia.
Qed.

Lemma add_carry_loop_spec xs : ∀ r rest c,
  digits_ok xs → add_carry_loop xs = (r, rest, c) →
  digits_ok (r ++ rest) ∧ (c = 0 ∨ c = 1) ∧ length (r ++ rest) = length xs ∧
  digits_value (r ++ rest) + radix_pow (length xs) * c = digits_value xs + 1.
Proof.
  induction xs as [|x xs IH]; intros r rest c Hx E; cbn [add_carry_loop] in E.
  { injection E as <- <- <-. cbn. split_and!; (done || lia || auto). }
  apply Forall_cons in Hx as [Hdx Hx].
  unfold digit_ok in Hdx. rewrite radix_eq in Hdx.
  rewrite s64_id in E by (unfold is_fixnum; lia).
  destruct (Z.ltb_spec (x + 1) BIGNUM_RADIX) as [Hlt|Hge].
  - injection E as <- <- <-. cbn [app length digits_value]. split_and!; try lia.
    constructor; [|done]. split; lia.
  - destruct (add_carry_loop xs) as [[r' rest'] c'] eqn:E'. injection E as <- <- <-.
    edestruct IH as (Hr & Hc & Hl & Hv); [done..|].
    rewrite s64_id by (unfold is_fixnum; rewrite radix_eq in *; lia).
    cbn [app length digits_value]. rewrite radix_pow_S, radix_eq in *.
    split_and!; [|lia..|nia]. constructor; [|done]. split; rewrite ?radix_eq; lia.
Qed.

Lemma sub_loop_spec ys : ∀ xs borrow r rest b,
  digits_ok xs → digits_ok ys → (length ys ≤ length xs)%nat → borrow = 0 ∨ borrow = 1 →
  sub_loop xs ys borrow = (r, rest, b) →
  digits_ok r ∧ digits_ok rest ∧ (b = 0 ∨ b = 1) ∧
  length r = length ys ∧ length rest = (length xs - length ys)%nat ∧
  digits_value r + radix_pow (length ys) * (digits_value rest - b) =
    digits_value xs - digits_value ys - borrow.
Proof.
  induction ys as [|y ys IH]; intros xs borrow r rest b Hx Hy Hl Hb E; cbn [sub_loop] in E.
  { injection E as <- <- <-. cbn [length digits_value]. split_and!; try done; lia. }
  destruct Hx as [|x xs Hdx Hx]; [cbn in Hl; lia|].
  apply Forall_cons in Hy as [Hdy Hy]. cbn [length] in *.
  unfold digit_ok in Hdx, Hdy. rewrite radix_eq in Hdx, Hdy.
  rewrite (s64_id (x - y)), (s64_id (x - y - borrow)) in E by (unfold is_fixnum; lia).
  destruct (Z.ltb_spec (x - y - borrow) 0) as [Hlt|Hge];
    destruct (sub_loop xs ys _) as [[r' rest'] b'] eqn:E'; injection E as <- <- <-;
    apply IH in E' as (Hr & Hrest & Hb' & Hlr & Hlrest & Hv); (done || lia || idtac);
    rewrite radix_pow_S; cbn [digits_value length]; rewrite radix_eq in *.
  - rewrite s64_id by (unfold is_fixnum; lia).
    split_and!; try done; [|lia|nia]. constructor; [|done]. split; rewrite ?radix_eq; lia.
  - split_and!; try done; [|lia|nia]. constructor; [|done]. split; rewrite ?radix_eq; lia.
Qed.

Lemma sub_borrow_loop_spec xs : ∀ r rest b,
  digits_ok xs → sub_borrow_loop xs 1 = (r, rest, b) →
  digits_ok (r ++ rest) ∧ (b = 0 ∨ b = 1) ∧ length (r ++ rest) = length xs ∧
  digits_value (r ++ rest) - radix_pow (length xs) * b = digits_value xs - 1.
Proof.
  induction xs as [|x xs IH]; intros r rest b Hx E; cbn [sub_borrow_loop] in E.
  { injection E as <- <- <-. cbn. split_and!; (done || lia || auto). }
  apply Forall_cons in Hx as [Hdx Hx].
  unfold digit_ok in Hdx. rewrite radix_eq in Hdx.
  rewrite s64_id in E by (unfold is_fixnum; lia).
  destruct (Z.ltb_spec (x - 1) 0) as [Hlt|Hge].
  - destruct (sub_borrow_loop xs 1) as [[r' rest'] b'] eqn:E'. injection E as <- <- <-.
    edestruct IH as (Hr & Hb & Hl & Hv); [done..|].
    rewrite s64_id by (unfold is_fixnum; rewrite radix_eq in *; lia).
    cbn [app length digits_value]. rewrite radix_pow_S, radix_eq in *.
    split_and!; [|lia..|nia]. constructor; [|done]. split; rewrite ?radix_eq; lia.
  - injection E as <- <- <-. cbn [app length digits_value]. split_and!; try lia.
    constructor; [|done]. split; rewrite ?radix_eq; lia.
Qed.

(** ** Unsigned addition and subtraction *)

Lemma bignum_add_unsigned_comm_length x y neg :
  (BIGNUM_LENGTH x < BIGNUM_LENGTH y)%nat →
  bignum_add_unsigned x y neg = bignum_add_unsigned y x neg.
Proof.
  intros H. unfold bignum_add_unsigned.
  destruct (Nat.ltb_spec (BIGNUM_LENGTH x) (BIGNUM_LENGTH y)); [|lia].
  by destruct (Nat.ltb_spec (BIGNUM_LENGTH y) (BIGNUM_LENGTH x)); [lia|].
Qed.

(** The result before the final carry is looked at. *)
Lemma add_digits_spec xs ys r1 rest carry r2 rest' carry' :
  digits_ok xs → digits_ok ys → (length ys ≤ length xs)%nat →
  add_loop xs ys 0 = (r1, rest, carry) →
  (if negb (carry =? 0) then add_carry_loop rest else ([], rest, carry)) = (r2, rest', carry') →
  let r := r1 ++ r2 ++ rest' in
  digits_ok r ∧ length r = length xs ∧ (carry' = 0 ∨ carry' = 1) ∧
  digits_value r + radix_pow (length xs) * carry' = digits_value xs + digits_value ys.
Proof.
  intros Hx Hy Hl E1 E2 r.
  apply add_loop_spec in E1 as (Hr & Hrest & Hc & Hlr & Hlrest & Hv); [|auto..].
  assert (digits_ok (r2 ++ rest') ∧ length (r2 ++ rest') = length rest ∧
          (carry' = 0 ∨ carry' = 1) ∧
          digits_value (r2 ++ rest') + radix_pow (length rest) * carry' =
            digits_value rest + carry) as (Hr2 & Hl2 & Hc2 & Hv2).
  { destruct (Z.eqb_spec carry 0) as [->|Hne]; cbn [negb] in E2.
    - injection E2 as <- <- <-. cbn [app]. split_and!; (done || auto || lia).
    - apply add_carry_loop_spec in E2 as (? & ? & ? & ?); [|done].
      split_and!; (done || lia). }
  subst r. split_and!.
  - by apply Forall_app.
  - rewrite length_app. lia.
  - done.
  - rewrite digits_value_app, Hlr.
    replace (length xs) with (length ys + length rest)%nat by lia.
    rewrite radix_pow_add. nia.
Qed.

(** The code after the loops: keep the extra digit when there is a carry,
    drop it when there is none. *)
Lemma add_finish_denotes xs v r carry neg :
  digits_ok xs → normalized xs → xs ≠ [] → digits_value xs ≤ v →
  digits_ok r → length r = length xs → carry = 0 ∨ carry = 1 →
  digits_value r + radix_pow (length xs) * carry = v →
  denotes
    (let r' := mk_bignum neg (list_inserts 0 r (bn_digits (allot_bignum (length xs + 1) neg))) in
     if negb (carry =? 0) then mk_bignum (bn_negative r') (<[length r := 1]> (bn_digits r'))
     else bignum_shorten_length r' (length xs))
    (if neg then - v else v).
Proof.
  intros Hx Hnx Hne Hle Hr Hlr Hc Hv. cbv zeta. rewrite allot_bignum_write_init by done.
  assert (0 < length xs)%nat by (destruct xs; [done|cbn; lia]).
  destruct Hc as [-> | ->].
  - change (negb (0 =? 0)) with false. cbv iota. rewrite shorten_eq; cycle 1.
    { unfold BIGNUM_LENGTH. cbn. rewrite length_app. lia. }
    { lia. }
    cbn [bn_digits bn_negative]. rewrite take_app_le, firstn_all2 by lia.
    destruct (Nat.eqb_spec (length xs) 0); [lia|]. cbn [negb andb].
    replace v with (digits_value r) in * by lia.
    split; [split|]; cbn; try done.
    + by apply (normalized_same_length r xs).
    + intros ->. cbn in Hlr. lia.
  - change (negb (1 =? 0)) with true. cbv iota.
    cbn [bn_digits bn_negative]. rewrite insert_app_r_alt, Nat.sub_diag by lia. cbn.
    split; [split|]; cbn.
    + apply digits_ok_snoc. by split.
    + by apply normalized_snoc.
    + by destruct r.
    + unfold bignum_value. cbn. rewrite digits_value_app, Hlr. cbn [digits_value].
      replace v with (digits_value r + radix_pow (length xs) * 1) by lia.
      by rewrite Z.mul_0_r, Z.add_0_r.
Qed.

Lemma bignum_add_unsigned_denotes_le x y neg :
  (BIGNUM_LENGTH y ≤ BIGNUM_LENGTH x)%nat →
  bignum_ok x → bignum_ok y → bn_digits x ≠ [] →
  denotes (bignum_add_unsigned x y neg)
    (let v := digits_value (bn_digits x) + digits_value (bn_digits y) in
     if neg then - v else v).
Proof.
  intros Hle [Hx Hnx _] [Hy _ _] Hne. unfold bignum_add_unsigned, BIGNUM_LENGTH in *.
  destruct (Nat.ltb_spec (length (bn_digits x)) (length (bn_digits y))) as [|_]; [lia|].
  destruct (add_loop _ _ _) as [[r1 rest] carry] eqn:E1.
  destruct (if negb (carry =? 0) then _ else _) as [[r2 rest'] carry'] eqn:E2.
  pose proof (add_digits_spec _ _ _ _ _ _ _ _ Hx Hy Hle E1 E2) as (Hr & Hlr & Hc & Hv).
  cbv zeta in *. change (bn_negative (allot_bignum _ neg)) with neg.
  apply add_finish_denotes; try done. pose proof (digits_value_nonneg _ Hy). lia.
Qed.

Lemma bignum_add_unsigned_denotes x y neg :
  bignum_ok x → bignum_ok y → bn_digits x ≠ [] → bn_digits y ≠ [] →
  denotes (bignum_add_unsigned x y neg)
    (let v := digits_value (bn_digits x) + digits_value (bn_digits y) in
     if neg then - v else v).
Proof.
  intros. destruct (decide (BIGNUM_LENGTH y ≤ BIGNUM_LENGTH x)%nat).
  { by apply bignum_add_unsigned_denotes_le. }
  rewrite bignum_add_unsigned_comm_length, Z.add_comm by lia.
  apply bignum_add_unsigned_denotes_le; (done || lia).
Qed.

(** The subtraction of a smaller from a larger magnitude: no borrow is left,
    so the assertion holds. *)
Lemma subtract_digits_spec xs ys r1 rest borrow r2 rest' borrow' :
  digits_ok xs → digits_ok ys → normalized xs → normalized ys →
  digits_value ys < digits_value xs →
  sub_loop xs ys 0 = (r1, rest, borrow) →
  (if negb (borrow =? 0) then sub_borrow_loop rest borrow else ([], rest, borrow))
    = (r2, rest', borrow') →
  let r := r1 ++ r2 ++ rest' in
  borrow' = 0 ∧ digits_ok r ∧ length r = length xs ∧
  digits_value r = digits_value xs - digits_value ys.
Proof.
  intros Hx Hy Hnx Hny Hlt E1 E2 r.
  assert (length ys ≤ length xs)%nat as Hl.
  { destruct (decide (length ys ≤ length xs)%nat); [done|].
    pose proof (normalized_length_lt xs ys Hx Hy Hny ltac:(lia)). lia. }
  apply sub_loop_spec in E1 as (Hr & Hrest & Hb & Hlr & Hlrest & Hv); [|auto..].
  assert (digits_ok (r2 ++ rest') ∧ length (r2 ++ rest') = length rest ∧
          (borrow' = 0 ∨ borrow' = 1) ∧
          digits_value (r2 ++ rest') - radix_pow (length rest) * borrow' =
            digits_value rest - borrow) as (Hr2 & Hl2 & Hb2 & Hv2).
  { destruct Hb as [-> | ->].
    - injection E2 as <- <- <-. cbn [app]. split_and!; (done || auto || lia).
    - apply sub_borrow_loop_spec in E2 as (? & ? & ? & ?); [|done].
      split_and!; (done || lia). }
  assert (digits_value r - radix_pow (length xs) * borrow' =
          digits_value xs - digits_value ys) as Hval.
  { subst r. rewrite digits_value_app, Hlr.
    replace (length xs) with (length ys + length rest)%nat by lia.
    rewrite radix_pow_add. nia. }
  assert (digits_ok r) as Hok by (by apply Forall_app).
  assert (length r = length xs) as Hlen by (subst r; rewrite length_app; lia).
  pose proof (digits_value_range _ Hok) as Hrange. rewrite Hlen in Hrange.
  split_and!; try done; destruct Hb2 as [-> | ->]; lia.
Qed.

Lemma subtract_magnitudes_denotes x y neg :
  bignum_ok x → bignum_ok y → digits_value (bn_digits y) < digits_value (bn_digits x) →
  ∃ r, subtract_magnitudes x y neg = Ok r ∧
    denotes r (let v := digits_value (bn_digits x) - digits_value (bn_digits y) in
               if neg then - v else v).
Proof.
  intros [Hx Hnx _] [Hy Hny _] Hlt. unfold subtract_magnitudes, BIGNUM_LENGTH.
  destruct (sub_loop _ _ _) as [[r1 rest] borrow] eqn:E1.
  destruct (if negb (borrow =? 0) then _ else _) as [[r2 rest'] borrow'] eqn:E2.
  pose proof (subtract_digits_spec _ _ _ _ _ _ _ _ Hx Hy Hnx Hny Hlt E1 E2)
    as (-> & Hr & Hlr & Hv).
  cbv zeta. rewrite allot_bignum_write by done. eexists; split; [reflexivity|].
  rewrite <- Hv. apply bignum_trim_denotes; [done|].
  intros Hnil. rewrite Hnil in Hv. cbn in Hv. lia.
Qed.

Lemma bignum_subtract_unsigned_denotes x y :
  bignum_ok x → bignum_ok y →
  ∃ r, bignum_subtract_unsigned x y = Ok r ∧
    denotes r (digits_value (bn_digits x) - digits_value (bn_digits y)).
Proof.
  intros Hx Hy. unfold bignum_subtract_unsigned.
  rewrite bignum_compare_unsigned_spec by done.
  destruct (Z.compare_spec (digits_value (bn_digits x)) (digits_value (bn_digits y)))
    as [E|Hlt|Hlt]; cbn [comparison_of].
  - exists BIGNUM_ZERO. rewrite E, Z.sub_diag. split; [done|apply denotes_zero].
  - destruct (subtract_magnitudes_denotes y x true) as (r & ? & Hr); [done..|].
    exists r. cbv zeta in Hr. by rewrite Z.opp_sub_distr, Z.add_comm, Z.add_opp_r in Hr.
  - by apply (subtract_magnitudes_denotes x y false).
Qed.

(** ** Signed addition and subtraction *)

(** [bignum_add] returns the normalized sum of its arguments: the 64-bit
    digit arithmetic never overflows, no assertion fails and the result does
    not depend on uninitialized memory. *)
Theorem bignum_add_denotes x y :
  bignum_ok x → bignum_ok y →
  ∃ r, bignum_add x y = Ok r ∧ denotes r (bignum_value x + bignum_value y).
Proof.
  intros Hx Hy. unfold bignum_add.
  destruct (BIGNUM_ZERO_P x) eqn:Zx.
  { apply zero_p_spec in Zx. exists y. split; [done|]. split; [done|].
    unfold bignum_value. rewrite Zx. by destruct (bn_negative x). }
  destruct (BIGNUM_ZERO_P y) eqn:Zy.
  { apply zero_p_spec in Zy. exists x. split; [done|]. split; [done|].
    unfold bignum_value. rewrite Zy. destruct (bn_negative y); cbn; lia. }
  apply zero_p_false in Zx, Zy. unfold BIGNUM_NEGATIVE_P, bignum_value.
  destruct (bn_negative x), (bn_negative y).
  - eexists; split; [done|]. rewrite <- Z.opp_add_distr. by apply (bignum_add_unsigned_denotes x y true).
  - rewrite Z.add_comm, Z.add_opp_r. by apply bignum_subtract_unsigned_denotes.
  - rewrite Z.add_opp_r. by apply bignum_subtract_unsigned_denotes.
  - eexists; split; [done|]. by apply (bignum_add_unsigned_denotes x y false).
Qed.

(** [bignum_subtract] returns the normalized difference. *)
Theorem bignum_subtract_denotes x y :
  bignum_ok x → bignum_ok y →
  ∃ r, bignum_subtract x y = Ok r ∧ denotes r (bignum_value x - bignum_value y).
Proof.
  intros Hx Hy. unfold bignum_subtract.
  destruct (BIGNUM_ZERO_P x) eqn:Zx, (BIGNUM_ZERO_P y) eqn:Zy;
    rewrite ?zero_p_spec, ?zero_p_false in *; unfold BIGNUM_NEGATIVE_P, bignum_value.
  - exists y. rewrite Zx. split; [done|]. split; [done|].
    unfold bignum_value. rewrite Zy. by destruct (bn_negative x), (bn_negative y).
  - eexists; split; [done|]. rewrite bignum_new_sign_eq, Zx.
    replace (_ - _) with (if negb (bn_negative y) then - digits_value (bn_digits y)
                          else digits_value (bn_digits y))
      by (destruct (bn_negative x), (bn_negative y); cbn; lia).
    by apply denotes_sign.
  - exists x. split; [done|]. split; [done|]. unfold bignum_value. rewrite Zy.
    destruct (bn_negative x), (bn_negative y); cbn; lia.
  - destruct (bn_negative x), (bn_negative y).
    + replace (_ - _) with (digits_value (bn_digits y) - digits_value (bn_digits x)) by lia.
      by apply bignum_subtract_unsigned_denotes.
    + eexists; split; [done|]. rewrite <- Z.add_opp_r, <- Z.opp_add_distr.
      by apply (bignum_add_unsigned_denotes x y true).
    + eexists; split; [done|]. rewrite Z.sub_opp_r. by apply (bignum_add_unsigned_denotes x y false).
    + by apply bignum_subtract_unsigned_denotes.
Qed.
End add.
