(* ===== verification/BignumMul.v ===== *)
(** Bignum multiplication: vm/bignum.cpp. *)

From S2P Require Import Prelude.
From S2P Require Import Arrays.
From S2P Require Import Bignum.
Local Open Scope fixnum_scope.

Section mul.
Context `{!alloc_env Z}.

(** src/vm/bignum.cpp:667-679 [bignum_multiply_unsigned] (part):
    The inner loop of [bignum_multiply_unsigned] for one digit of [x] given
    by its halves: [ys] and [r] are what [scan_y] and [scan_r] still have to
    pass.  After the loop, [( *scan_r) += carry]. *)
Fixpoint mul_inner (x_high x_low : Z) (ys r : list Z) (carry : Z) : result (list Z) :=
  match ys, r with
  | y_digit :: ys', d :: r' =>
      let y_low := HD_LOW y_digit in
      let y_high := HD_HIGH y_digit in
      let product_low := d +! (x_low *! y_low) +! HD_LOW carry in
      let product_high :=
        (x_high *! y_low) +! (x_low *! y_high) +! HD_HIGH product_low +! HD_HIGH carry in
      let digit := HD_CONS (HD_LOW product_high) (HD_LOW product_low) in
      let carry := (x_high *! y_high) +! HD_HIGH product_high in
      rest ← mul_inner x_high x_low ys' r' carry;
      Ok (digit :: rest)
  | [], d :: r' => Ok ((d +! carry) :: r')
  | _, [] => Err BAD_ACCESS
  end.

(** src/vm/bignum.cpp:660-681 [bignum_multiply_unsigned] (part):
    The outer loop: [start_r] advances with [scan_x]. *)
Fixpoint mul_outer (xs ys r : list Z) : result (list Z) :=
  match xs with
  | [] => Ok r
  | x_digit :: xs' =>
      r1 ← mul_inner (HD_HIGH x_digit) (HD_LOW x_digit) ys r 0;
      match r1 with
      | [] => Err BAD_ACCESS
      | d :: r' => rest ← mul_outer xs' ys r'; Ok (d :: rest)
      end
  end.

(** src/vm/bignum.cpp:628-686 [bignum_multiply_unsigned] *)
Definition bignum_multiply_unsigned (x y : bignum) (negative_p : bool) : result bignum :=
  let '(x, y) := if (BIGNUM_LENGTH x <? BIGNUM_LENGTH y)%nat then (y, x) else (x, y) in
  let r := allot_bignum_zeroed (BIGNUM_LENGTH x + BIGNUM_LENGTH y) negative_p in
  digits ← mul_outer (bn_digits x) (bn_digits y) (bn_digits r);
  Ok (bignum_trim (mk_bignum (bn_negative r) digits)).

(** src/vm/bignum.cpp:732-739 [bignum_destructive_scale_up] (part):
    The loop of [bignum_destructive_scale_up]: digits and final carry. *)
Fixpoint scale_up_loop (factor : Z) (ds : list Z) (carry : Z) : list Z * Z :=
  match ds with
  | [] => ([], carry)
  | two_digits :: ds' =>
      let product_low := (factor *! HD_LOW two_digits) +! HD_LOW carry in
      let product_high :=
        (factor *! HD_HIGH two_digits) +! HD_HIGH product_low +! HD_HIGH carry in
      let digit := HD_CONS (HD_LOW product_high) (HD_LOW product_low) in
      let '(rest, c) := scale_up_loop factor ds' (HD_HIGH product_high) in
      (digit :: rest, c)
  end.

(** src/vm/bignum.cpp:723-746 [bignum_destructive_scale_up] *)
Definition bignum_destructive_scale_up (bn : bignum) (factor : Z) : result bignum :=
  check ((1 <? factor) && (factor <? BIGNUM_RADIX_ROOT)) ≫= λ _,
  let '(ds, carry) := scale_up_loop factor (bn_digits bn) 0 in
  check (carry =? 0) ≫= λ _, Ok (mk_bignum (bn_negative bn) ds).

(** src/vm/bignum.cpp:688-702 [bignum_multiply_unsigned_small_factor] *)
Definition bignum_multiply_unsigned_small_factor (x : bignum) (y : Z) (negative_p : bool)
    : result bignum :=
  let length_x := BIGNUM_LENGTH x in
  let p := allot_bignum (length_x + 1) negative_p in
  let p := bignum_destructive_copy x p in
  let p := mk_bignum (bn_negative p) (<[length_x := 0]> (bn_digits p)) in
  p ← bignum_destructive_scale_up p y;
  Ok (bignum_trim p).

(** src/vm/bignum.cpp:713-720 [bignum_destructive_add] (part):
    [while (1)] of [bignum_destructive_add]: ripple a carry of 1. *)
Fixpoint destructive_add_ripple (ds : list Z) : result (list Z) :=
  match ds with
  | [] => Err BAD_ACCESS
  | d :: ds' =>
      let digit := d +! 1 in
      if digit <? BIGNUM_RADIX then Ok (digit :: ds')
      else rest ← destructive_add_ripple ds'; Ok ((digit -! BIGNUM_RADIX) :: rest)
  end.

(** src/vm/bignum.cpp:704-721 [bignum_destructive_add] *)
Definition bignum_destructive_add (bn : bignum) (n : Z) : result bignum :=
  match bn_digits bn with
  | [] => Err BAD_ACCESS
  | d :: ds =>
      let digit := d +! n in
      if digit <? BIGNUM_RADIX then Ok (mk_bignum (bn_negative bn) (digit :: ds))
      else
        rest ← destructive_add_ripple ds;
        Ok (mk_bignum (bn_negative bn) ((digit -! BIGNUM_RADIX) :: rest))
  end.

(** src/vm/bignum.cpp:137-150 [bignum_square] (part):
    The [while (px < end_x)] loop of [bignum_square] with the code that
    follows it in the body of the [for]: [px] and [pz] are what is left of
    the two arrays, [f] and [carry] are 128-bit. *)
Fixpoint square_inner (f carry : Z) (px pz : list Z) : result (list Z) :=
  match px with
  | x :: px' =>
      match pz with
      | [] => Err BAD_ACCESS
      | z :: pz' =>
          let carry := s128 (carry + s128 (z + s128 (x * f))) in
          let digit := Z.land carry BIGNUM_DIGIT_MASK in
          let carry := Z.shiftr carry BIGNUM_DIGIT_LENGTH in
          check (carry <=? (BIGNUM_DIGIT_MASK <<! 1)) ≫= λ _,
          rest ← square_inner f carry px' pz';
          Ok (digit :: rest)
      end
  | [] =>
      let last (carry : Z) (pz : list Z) : result (list Z) :=
        (* if (carry) *pz += carry & BIGNUM_DIGIT_MASK; *)
        if negb (carry =? 0) then
          match pz with
          | [] => Err BAD_ACCESS
          | z :: pz' =>
              check (Z.shiftr carry BIGNUM_DIGIT_LENGTH =? 0) ≫= λ _,
              Ok ((z +! Z.land carry BIGNUM_DIGIT_MASK) :: pz')
          end
        else check (Z.shiftr carry BIGNUM_DIGIT_LENGTH =? 0) ≫= λ _, Ok pz in
      if negb (carry =? 0) then
        match pz with
        | [] => Err BAD_ACCESS
        | z :: pz' =>
            let carry := s128 (carry + z) in
            let digit := Z.land carry BIGNUM_DIGIT_MASK in
            rest ← last (Z.shiftr carry BIGNUM_DIGIT_LENGTH) pz';
            Ok (digit :: rest)
        end
      else last carry pz
  end.

(** src/vm/bignum.cpp:125-152 [bignum_square] (part):
    The [for] loop: digit [i] of [x] is the head of [xs], and [pz] starts
    two places further at each turn. *)
Fixpoint square_outer (xs zs : list Z) : result (list Z) :=
  match xs with
  | [] => Ok zs
  | f :: px =>
      match zs with
      | [] => Err BAD_ACCESS
      | z :: pz =>
          let carry := s128 (z + s128 (f * f)) in
          let digit := Z.land carry BIGNUM_DIGIT_MASK in
          let carry := Z.shiftr carry BIGNUM_DIGIT_LENGTH in
          check (carry <=? BIGNUM_DIGIT_MASK) ≫= λ _,
          pz ← square_inner (s128 (Z.shiftl f 1)) carry px pz;
          match pz with
          | [] => Err BAD_ACCESS
          | z1 :: zs' => rest ← square_outer px zs'; Ok (digit :: z1 :: rest)
          end
      end
  end.

(** src/vm/bignum.cpp:113-154 [bignum_square] *)
Definition bignum_square (x : bignum) : result bignum :=
  let length := BIGNUM_LENGTH x in
  let z := allot_bignum_zeroed (length + length) false in
  digits ← square_outer (bn_digits x) (bn_digits z);
  Ok (bignum_trim (mk_bignum (bn_negative z) digits)).

(** src/vm/bignum.cpp:157-189 [bignum_multiply]: [same] is [x == y], the
    comparison of the two pointers. *)
Definition bignum_multiply (same : bool) (x y : bignum) : result bignum :=
  if same then bignum_square x else
  let negative_p :=
    if BIGNUM_NEGATIVE_P x then negb (BIGNUM_NEGATIVE_P y) else BIGNUM_NEGATIVE_P y in
  let general := bignum_multiply_unsigned x y negative_p in
  if BIGNUM_ZERO_P x then Ok x
  else if BIGNUM_ZERO_P y then Ok y
  else
    let second :=
      if (BIGNUM_LENGTH y =? 1)%nat then
        digit ← BIGNUM_REF y 0;
        if digit =? 1 then Ok (bignum_maybe_new_sign x negative_p)
        else if digit <? BIGNUM_RADIX_ROOT then
          bignum_multiply_unsigned_small_factor x digit negative_p
        else general
      else general in
    if (BIGNUM_LENGTH x =? 1)%nat then
      digit ← BIGNUM_REF x 0;
      if digit =? 1 then Ok (bignum_maybe_new_sign y negative_p)
      else if digit <? BIGNUM_RADIX_ROOT then
        bignum_multiply_unsigned_small_factor y digit negative_p
      else second
    else second.

(** ** Schoolbook multiplication *)

Lemma mul_inner_spec x : digit_ok x → ∀ ys r0 tail c,
  digits_ok ys → digits_ok r0 → digit_ok c → length r0 = length ys →
  ∃ r1, mul_inner (HD_HIGH x) (HD_LOW x) ys (r0 ++ 0 :: tail) c = Ok (r1 ++ tail) ∧
    digits_ok r1 ∧ length r1 = S (length ys) ∧
    digits_value r1 = digits_value r0 + x * digits_value ys + c.
Proof.
  intros Hx. induction ys as [|y ys IH]; intros r0 tail c Hys Hr0 Hc Hl.
  { destruct r0; [|done]. exists [c]. cbn [mul_inner app].
    rewrite Z.add_0_l, s64_id by (destruct Hc; unfold is_fixnum; rewrite radix_eq in *; lia).
    split_and!; [done|by apply Forall_singleton|done|cbn; lia]. }
  destruct r0 as [|d r0]; [done|]. cbn [length] in Hl.
  apply Forall_cons in Hys as [Hy Hys], Hr0 as [Hd Hr0]. cbn [mul_inner app].
  pose proof (HD_HIGH_half x Hx) as Hxh. pose proof (HD_HIGH_half y Hy) as Hyh.
  destruct (half_product (HD_HIGH x) (HD_LOW x) (HD_HIGH y) (HD_LOW y) d c _ _
              Hxh (HD_LOW_half x) Hyh (HD_LOW_half y) Hd Hc eq_refl eq_refl)
    as (Hprod & Hdig & Hcar & Hpl & Hph).
  pose proof (half_mul_bound _ _ (HD_LOW_half x) (HD_LOW_half y)).
  pose proof (half_mul_bound _ _ Hxh (HD_LOW_half y)).
  pose proof (half_mul_bound _ _ (HD_LOW_half x) Hyh).
  pose proof (half_mul_bound _ _ Hxh Hyh).
  pose proof (HD_LOW_half c). pose proof (HD_HIGH_half c Hc).
  pose proof (HD_HIGH_nonneg _ (proj1 Hpl)). pose proof (HD_HIGH_nonneg _ (proj1 Hph)).
  unfold digit_ok, half_ok in *. rewrite radix_eq, root_eq in *.
  no_overflow lia.
  destruct (IH r0 tail _ Hys Hr0 Hcar ltac:(lia)) as (r1 & -> & Hr1 & Hl1 & Hv1).
  eexists (_ :: r1). split_and!; [reflexivity|by constructor|cbn; lia|].
  cbn [digits_value]. rewrite Hv1, radix_eq.
  pose proof (proj1 (HD_split x)). pose proof (proj1 (HD_split y)). rewrite root_eq in *. nia.
Qed.

Lemma mul_outer_spec ys : digits_ok ys → ∀ xs r0,
  digits_ok xs → digits_ok r0 → length r0 = length ys →
  ∃ r, mul_outer xs ys (r0 ++ replicate (length xs) 0) = Ok r ∧ digits_ok r ∧
    length r = (length ys + length xs)%nat ∧
    digits_value r = digits_value r0 + digits_value xs * digits_value ys.
Proof.
  intros Hys. induction xs as [|x xs IH]; intros r0 Hxs Hr0 Hl.
  { exists r0. cbn. rewrite app_nil_r. split_and!; (done || lia). }
  apply Forall_cons in Hxs as [Hx Hxs]. cbn [mul_outer length replicate].
  destruct (mul_inner_spec x Hx ys r0 (replicate (length xs) 0) 0)
    as (r1 & -> & Hr1 & Hl1 & Hv1); [done..|].
  destruct r1 as [|d r1]; [done|]. apply Forall_cons in Hr1 as [Hd Hr1].
  cbn [length] in Hl1. rewrite result_bind_ok. cbn [app].
  destruct (IH r1 Hxs Hr1 ltac:(lia)) as (r & -> & Hr & Hlr & Hvr).
  exists (d :: r). split_and!; [done|by constructor|cbn; lia|].
  cbn [digits_value] in *. rewrite Hvr. lia.
Qed.

Lemma bignum_multiply_unsigned_denotes x y neg :
  bignum_ok x → bignum_ok y → bn_digits x ≠ [] → bn_digits y ≠ [] →
  ∃ r, bignum_multiply_unsigned x y neg = Ok r ∧
    denotes r (let v := digits_value (bn_digits x) * digits_value (bn_digits y) in
               if neg then - v else v).
Proof.
  intros [Hx _ _] [Hy _ _] Hnx Hny. unfold bignum_multiply_unsigned.
  assert (∀ a b, digits_ok (bn_digits a) → digits_ok (bn_digits b) → bn_digits a ≠ [] →
    ∃ r, (digits ← mul_outer (bn_digits a) (bn_digits b)
                     (bn_digits (allot_bignum_zeroed (BIGNUM_LENGTH a + BIGNUM_LENGTH b) neg));
          Ok (bignum_trim (mk_bignum
                (bn_negative (allot_bignum_zeroed (BIGNUM_LENGTH a + BIGNUM_LENGTH b) neg))
                digits))) = Ok r ∧
      denotes r (let v := digits_value (bn_digits a) * digits_value (bn_digits b) in
                 if neg then - v else v)) as Hmul.
  { intros a b Ha Hb Hne. rewrite allot_bignum_zeroed_eq. cbn [bn_digits bn_negative].
    rewrite Nat.add_comm, replicate_add. unfold BIGNUM_LENGTH.
    destruct (mul_outer_spec (bn_digits b) Hb (bn_digits a)
                (replicate (length (bn_digits b)) 0)) as (r & -> & Hr & Hlr & Hv).
    { done. } { apply Forall_replicate. done. } { by rewrite length_replicate. }
    rewrite digits_value_replicate_0, Z.add_0_l in Hv.
    eexists; split; [done|]. rewrite <- Hv. apply bignum_trim_denotes; [done|].
    intros ->. destruct (bn_digits a); [done|cbn in Hlr; lia]. }
  destruct (_ <? _)%nat; [|by apply Hmul]. rewrite Z.mul_comm. by apply Hmul.
Qed.

(** ** Multiplication by a half digit *)

Lemma scale_up_loop_spec f : half_ok f → ∀ ds c ds' c',
  digits_ok ds → half_ok c → scale_up_loop f ds c = (ds', c') →
  digits_ok ds' ∧ length ds' = length ds ∧ half_ok c' ∧
  digits_value ds' + radix_pow (length ds) * c' = f * digits_value ds + c.
Proof.
  intros Hf. induction ds as [|d ds IH]; intros c ds' c' Hds Hc E; cbn [scale_up_loop] in E.
  { injection E as <- <-. cbn. split_and!; (done || lia). }
  apply Forall_cons in Hds as [Hd Hds].
  assert (digit_ok c) as Hcd.
  { unfold digit_ok, half_ok in *. rewrite radix_eq, root_eq in *. lia. }
  pose proof (HD_HIGH_half d Hd) as Hdh.
  set (pl := f * HD_LOW d + HD_LOW c).
  set (ph := f * HD_HIGH d + HD_HIGH pl + HD_HIGH c).
  destruct (half_product 0 f (HD_HIGH d) (HD_LOW d) 0 c pl ph)
    as (Hprod & Hdig & Hcar & Hpl & Hph);
    [done|done|done|apply HD_LOW_half|done|done|lia|lia|].
  pose proof (half_mul_bound _ _ Hf (HD_LOW_half d)). pose proof (half_mul_bound _ _ Hf Hdh).
  pose proof (HD_LOW_half c). pose proof (HD_HIGH_half c Hcd).
  pose proof (HD_HIGH_nonneg _ (proj1 Hpl)). pose proof (HD_HIGH_nonneg _ (proj1 Hph)).
  assert (half_ok (HD_HIGH ph)) as Hhph.
  { split; [done|]. apply HD_HIGH_lt. rewrite <- radix_root.
    pose proof (HD_HIGH_lt pl BIGNUM_RADIX_ROOT).
    subst pl ph. unfold half_ok in *. rewrite radix_eq, root_eq in *. lia. }
  assert (E' : (let '(rest, c) := scale_up_loop f ds (HD_HIGH ph) in
               (HD_CONS (HD_LOW ph) (HD_LOW pl) :: rest, c)) = (ds', c')).
  { rewrite <- E. subst pl ph. unfold half_ok in *. rewrite root_eq in *. no_overflow lia. done. }
  destruct (scale_up_loop f ds (HD_HIGH ph)) as [rest c1] eqn:Eloop. injection E' as <- <-.
  destruct (IH _ _ _ Hds Hhph Eloop) as (Hrest & Hlen & Hc1 & Hv).
  split_and!; [by constructor|cbn; lia|done|].
  cbn [digits_value length]. rewrite radix_pow_S.
  pose proof (proj1 (HD_split d)). nia.
Qed.

Lemma bignum_destructive_scale_up_spec neg ds f :
  1 < f < BIGNUM_RADIX_ROOT → digits_ok ds →
  f * digits_value ds < radix_pow (length ds) →
  ∃ ds', bignum_destructive_scale_up (mk_bignum neg ds) f = Ok (mk_bignum neg ds') ∧
    digits_ok ds' ∧ length ds' = length ds ∧ digits_value ds' = f * digits_value ds.
Proof.
  intros Hf Hds Hfit. unfold bignum_destructive_scale_up.
  replace ((1 <? f) && (f <? BIGNUM_RADIX_ROOT)) with true by (symmetry; lia).
  rewrite check_true, result_bind_ok. cbn [bn_digits bn_negative].
  destruct (scale_up_loop f ds 0) as [ds' c] eqn:E.
  apply scale_up_loop_spec in E as (Hds' & Hl & [Hc1 Hc2] & Hv); [|split; lia|done|done].
  assert (c = 0) as ->.
  { apply digits_value_nonneg in Hds'. pose proof (radix_pow_pos (length ds)). nia. }
  eexists; split_and!; [reflexivity|done..|lia].
Qed.

Lemma bignum_multiply_unsigned_small_factor_denotes x f neg :
  bignum_ok x → 1 < f < BIGNUM_RADIX_ROOT →
  ∃ r, bignum_multiply_unsigned_small_factor x f neg = Ok r ∧
    denotes r (let v := f * digits_value (bn_digits x) in if neg then - v else v).
Proof.
  intros [Hx _ _] Hf. unfold bignum_multiply_unsigned_small_factor, bignum_destructive_copy.
  unfold BIGNUM_LENGTH. cbn [bn_digits bn_negative].
  rewrite allot_bignum_write_init, insert_app_r_alt, Nat.sub_diag by lia. cbn [insert list_insert].
  assert (digits_value (bn_digits x ++ [0]) = digits_value (bn_digits x)) as Hv.
  { rewrite digits_value_app. cbn. lia. }
  destruct (bignum_destructive_scale_up_spec neg (bn_digits x ++ [0]) f)
    as (ds & E & Hds & Hl & Hvd); [done| | |].
  { apply digits_ok_snoc. by split. }
  { rewrite Hv, length_app. cbn [length].
    rewrite Nat.add_1_r, radix_pow_S. apply digits_value_range in Hx.
    rewrite radix_eq, root_eq in *. nia. }
  cbn [bn_negative allot_bignum]. rewrite E, result_bind_ok.
  eexists; split; [done|]. rewrite <- Hv, <- Hvd. apply bignum_trim_denotes; [done|].
  intros ->. rewrite length_app in Hl. cbn in Hl. lia.
Qed.

Lemma destructive_add_ripple_spec ds :
  digits_ok ds → digits_value ds + 1 < radix_pow (length ds) →
  ∃ ds', destructive_add_ripple ds = Ok ds' ∧ digits_ok ds' ∧ length ds' = length ds ∧
    digits_value ds' = digits_value ds + 1.
Proof.
  induction 1 as [|d ds Hd Hds IH]; intros Hfit; cbn [destructive_add_ripple]; [cbn in Hfit; lia|].
  unfold digit_ok in Hd. cbn [digits_value length] in *. rewrite radix_pow_S in Hfit.
  rewrite s64_id by (unfold is_fixnum; rewrite radix_eq in *; lia).
  destruct (Z.ltb_spec (d + 1) BIGNUM_RADIX) as [Hlt|Hge].
  - eexists; split_and!; [done| |done|cbn [digits_value]; lia]. constructor; [split; lia|done].
  - assert (d + 1 = BIGNUM_RADIX) as Hd1 by lia.
    destruct IH as (ds' & -> & Hds' & Hl & Hv).
    { rewrite radix_eq in *. nia. }
    rewrite Hd1, Z.sub_diag. eexists; split_and!; [done|by constructor|cbn; lia|].
    cbn [digits_value]. change (s64 0) with 0. lia.
Qed.

Lemma bignum_destructive_add_spec neg ds n :
  digits_ok ds → ds ≠ [] → digit_ok n → digits_value ds + n < radix_pow (length ds) →
  ∃ ds', bignum_destructive_add (mk_bignum neg ds) n = Ok (mk_bignum neg ds') ∧
    digits_ok ds' ∧ length ds' = length ds ∧ digits_value ds' = digits_value ds + n.
Proof.
  intros Hds Hne Hn Hfit. unfold bignum_destructive_add. cbn [bn_digits bn_negative].
  destruct Hds as [|d ds Hd Hds]; [done|]. unfold digit_ok in Hn.
  cbn [digits_value length] in *. rewrite radix_pow_S in Hfit. unfold digit_ok in Hd.
  rewrite s64_id by (unfold is_fixnum; rewrite radix_eq in *; lia).
  destruct (Z.ltb_spec (d + n) BIGNUM_RADIX) as [Hlt|Hge].
  - eexists; split_and!; [done| |done|cbn [digits_value]; lia]. constructor; [split; lia|done].
  - destruct (destructive_add_ripple_spec ds Hds) as (ds' & -> & Hds' & Hl & Hv).
    { rewrite radix_eq in *. nia. }
    rewrite s64_id by (unfold is_fixnum; rewrite radix_eq in *; lia).
    eexists; split_and!; [done| |cbn; lia|cbn [digits_value]; lia].
    constructor; [split; lia|done].
Qed.

(** ** Squaring *)

Lemma digit_mask_shift z :
  0 ≤ z → let d := Z.land z BIGNUM_DIGIT_MASK in
          let c := Z.shiftr z BIGNUM_DIGIT_LENGTH in
  z = d + BIGNUM_RADIX * c ∧ digit_ok d ∧ 0 ≤ c.
Proof.
  intros Hz. cbv zeta. rewrite mask_mod, (Z.shiftr_div_pow2 _ 62) by lia.
  change (2 ^ 62) with BIGNUM_RADIX. pose proof (Z.div_mod z BIGNUM_RADIX).
  pose proof (Z.mod_pos_bound z BIGNUM_RADIX ltac:(done)).
  pose proof (Z.div_pos z BIGNUM_RADIX Hz). unfold digit_ok. lia.
Qed.

(** After the inner loop: a carry below [2 * BIGNUM_RADIX] is added to a
    number that is 0 or 1 and has room for it. *)
Lemma square_inner_nil f c pz :
  digits_ok pz → digits_value pz ≤ 1 → 0 ≤ c ≤ 2 * BIGNUM_RADIX - 2 →
  digits_value pz + c < radix_pow (length pz) →
  ∃ r, square_inner f c [] pz = Ok r ∧ digits_ok r ∧ length r = length pz ∧
    digits_value r = digits_value pz + c.
Proof.
  intros Hpz Hle Hc Hfit. cbn [square_inner].
  destruct (Z.eqb_spec c 0) as [->|Hne]; cbn [negb].
  { exists pz. split_and!; (done || lia). }
  destruct Hpz as [|z pz Hz Hpz]; [cbn in Hfit; lia|].
  cbn [digits_value length] in *. rewrite radix_pow_S in Hfit.
  pose proof (digits_value_nonneg _ Hpz). unfold digit_ok in Hz. rewrite radix_eq in *.
  assert (digits_value pz = 0 ∧ 0 ≤ z ≤ 1) as [Hv0 Hz1] by lia. rewrite Hv0 in *.
  rewrite s128_id by lia.
  destruct (digit_mask_shift (c + z)) as (Hsplit & Hd & Hc'); [lia|].
  set (d := Z.land (c + z) BIGNUM_DIGIT_MASK) in *.
  set (c' := Z.shiftr (c + z) BIGNUM_DIGIT_LENGTH) in *.
  unfold digit_ok in Hd. rewrite radix_eq in *.
  assert (c' = 0 ∨ c' = 1) as [-> | ->] by lia; cbn [result_bind mbind].
  - exists (d :: pz). split_and!; [done|by constructor|done|cbn [digits_value]; rewrite ?radix_eq; lia].
  - destruct Hpz as [|z1 pz Hz1' Hpz]; [cbn in Hfit; lia|].
    cbn [digits_value] in Hv0. apply digits_value_nonneg in Hpz as Hpz0.
    assert (z1 = 0 ∧ digits_value pz = 0) as [-> Hv1].
    { unfold digit_ok in Hz1'. rewrite radix_eq in *. lia. }
    exists (d :: 1 :: pz). split_and!; [done| |done|].
    + constructor; [done|]. by constructor.
    + cbn [digits_value]. rewrite Hv1, ?radix_eq. lia.
Qed.

Lemma square_inner_spec f : digit_ok f → ∀ px c pz,
  digits_ok px → digits_ok pz → 0 ≤ c ≤ 2 * BIGNUM_RADIX - 2 →
  (length px ≤ length pz)%nat → digits_value (drop (length px) pz) ≤ 1 →
  digits_value pz + c + 2 * f * digits_value px < radix_pow (length pz) →
  ∃ r, square_inner (2 * f) c px pz = Ok r ∧ digits_ok r ∧ length r = length pz ∧
    digits_value r = digits_value pz + c + 2 * f * digits_value px.
Proof.
  intros Hf. induction px as [|x px IH]; intros c pz Hpx Hpz Hc Hl Hdrop Hfit.
  { cbn [digits_value] in *. rewrite Z.mul_0_r, Z.add_0_r in *. by apply square_inner_nil. }
  apply Forall_cons in Hpx as [Hx Hpx]. destruct Hpz as [|z pz Hz Hpz]; [cbn in Hl; lia|].
  cbn [square_inner digits_value length drop] in *. rewrite radix_pow_S in Hfit.
  set (t := c + (z + x * (2 * f))).
  assert (0 ≤ x * (2 * f) ≤ (BIGNUM_RADIX - 1) * (2 * (BIGNUM_RADIX - 1))) as Hxf.
  { unfold digit_ok in *. rewrite radix_eq in *. nia. }
  no_overflow ltac:(unfold digit_ok in *; rewrite radix_eq in *; lia). fold t.
  destruct (digit_mask_shift t) as (Hsplit & Hd & Hc').
  { unfold digit_ok in *. rewrite radix_eq in *. lia. }
  set (d := Z.land t BIGNUM_DIGIT_MASK) in *.
  set (c' := Z.shiftr t BIGNUM_DIGIT_LENGTH) in *.
  assert (c' ≤ 2 * BIGNUM_RADIX - 2) as Hc2.
  { unfold digit_ok in *. rewrite radix_eq in *. lia. }
  replace (c' <=? (BIGNUM_DIGIT_MASK <<! 1)) with true.
  2:{ symmetry. apply Z.leb_le. by change (BIGNUM_DIGIT_MASK <<! 1) with (2 * BIGNUM_RADIX - 2). }
  rewrite check_true, result_bind_ok.
  destruct (IH c' pz Hpx Hpz) as (r & -> & Hr & Hlr & Hv); [done|lia|done| |].
  { unfold digit_ok in *. rewrite radix_eq in *. nia. }
  exists (d :: r). split_and!; [done|by constructor|cbn; lia|].
  cbn [digits_value]. rewrite Hv. lia.
Qed.

(** The invariant of the outer loop: what is left of the product is at most
    twice what is left of the number. *)
Lemma square_outer_spec xs : ∀ zs,
  digits_ok xs → digits_ok zs → length zs = (length xs + length xs)%nat →
  digits_value zs ≤ 2 * digits_value xs →
  ∃ r, square_outer xs zs = Ok r ∧ digits_ok r ∧ length r = length zs ∧
    digits_value r = digits_value zs + digits_value xs * digits_value xs.
Proof.
  induction xs as [|f px IH]; intros zs Hxs Hzs Hl Hinv.
  { destruct zs; [|done]. exists []. by split_and!. }
  apply Forall_cons in Hxs as [Hf Hpx]. destruct Hzs as [|z pz Hz Hpz]; [done|].
  cbn [length digits_value square_outer] in *.
  pose proof (digits_value_range _ Hpx) as HT. set (T := digits_value px) in *.
  assert (0 ≤ f * f ≤ (BIGNUM_RADIX - 1) * (BIGNUM_RADIX - 1)) as Hff.
  { unfold digit_ok in *. rewrite radix_eq in *. nia. }
  rewrite (Z.shiftl_mul_pow2 f 1), (Z.mul_comm f (2 ^ 1)) by lia. change (2 ^ 1) with 2.
  no_overflow ltac:(unfold digit_ok in *; rewrite radix_eq in *; lia).
  destruct (digit_mask_shift (z + f * f)) as (Hsplit & Hd & Hc0).
  { unfold digit_ok in *. lia. }
  set (d := Z.land (z + f * f) BIGNUM_DIGIT_MASK) in *.
  set (c := Z.shiftr (z + f * f) BIGNUM_DIGIT_LENGTH) in *.
  assert (c ≤ BIGNUM_DIGIT_MASK) as Hc.
  { unfold BIGNUM_DIGIT_MASK, digit_ok in *. rewrite radix_eq in *. lia. }
  rewrite (proj2 (Z.leb_le _ _) Hc), check_true, result_bind_ok.
  assert (Hpzv : digits_value pz < 2 * radix_pow (length px)).
  { unfold digit_ok in *. rewrite radix_eq in *. lia. }
  destruct (square_inner_spec f Hf px c pz Hpx Hpz) as (r & -> & Hr & Hlr & Hv).
  { unfold BIGNUM_DIGIT_MASK in Hc. rewrite radix_eq in *. lia. }
  { lia. }
  { rewrite <- (take_drop (length px) pz), digits_value_app, length_take in Hpzv.
    rewrite Nat.min_l in Hpzv by lia.
    pose proof (digits_value_nonneg _ (Forall_take _ (length px) _ Hpz)).
    pose proof (radix_pow_pos (length px)). nia. }
  { fold T. replace (length pz) with (S (length px + length px)) by lia.
    rewrite radix_pow_S, radix_pow_add. unfold digit_ok in *. rewrite radix_eq in *. nia. }
  destruct r as [|z1 zs]; [cbn in Hlr; lia|]. apply Forall_cons in Hr as [Hz1 Hzs].
  rewrite result_bind_ok. cbn [length digits_value] in *. fold T in Hv.
  destruct (IH zs Hpx Hzs) as (r & -> & Hr & Hlr' & Hv'); [lia| |].
  { unfold digit_ok in *. fold T. rewrite radix_eq in *. nia. }
  exists (d :: z1 :: r). split_and!; [done|by constructor; [|constructor]|cbn; lia|].
  cbn [digits_value]. rewrite Hv'. fold T. rewrite radix_eq in *. lia.
Qed.

(** [bignum_square] (the 128-bit routine used when both factors are the
    same object) returns the square: its carries stay within the asserted
    bounds, it stays inside the product array, and no digit overflows. *)
Theorem bignum_square_denotes x :
  bignum_ok x →
  ∃ r, bignum_square x = Ok r ∧ denotes r (bignum_value x * bignum_value x).
Proof.
  intros [Hx _ _]. unfold bignum_square, BIGNUM_LENGTH. rewrite allot_bignum_zeroed_eq.
  cbn [bn_digits bn_negative].
  destruct (square_outer_spec (bn_digits x)
              (replicate (length (bn_digits x) + length (bn_digits x)) 0))
    as (r & -> & Hr & _ & Hv).
  { done. } { by apply Forall_replicate. } { by rewrite length_replicate. }
  { rewrite digits_value_replicate_0. pose proof (digits_value_nonneg _ Hx). lia. }
  rewrite digits_value_replicate_0, Z.add_0_l in Hv.
  eexists; split; [done|].
  replace (bignum_value x * bignum_value x) with (digits_value r)
    by (unfold bignum_value; destruct (bn_negative x); lia).
  by apply (bignum_trim_denotes false).
Qed.

(** ** Multiplication *)

Lemma sign_product x y :
  bignum_value x * bignum_value y =
    let v := digits_value (bn_digits x) * digits_value (bn_digits y) in
    if (if BIGNUM_NEGATIVE_P x then negb (BIGNUM_NEGATIVE_P y) else BIGNUM_NEGATIVE_P y)
    then - v else v.
Proof.
  unfold bignum_value, BIGNUM_NEGATIVE_P. destruct (bn_negative x), (bn_negative y); cbn; lia.
Qed.

(** One factor has a single digit: both special cases. *)
Lemma multiply_single_digit x y (neg : bool) (d : Z) (k : result bignum) :
  bignum_ok x → bignum_ok y → bn_digits x ≠ [] → bn_digits y = [d] →
  (∃ r, k = Ok r ∧ denotes r (let v := digits_value (bn_digits x) * d in if neg then - v else v)) →
  ∃ r, (digit ← BIGNUM_REF y 0;
        if digit =? 1 then Ok (bignum_maybe_new_sign x neg)
        else if digit <? BIGNUM_RADIX_ROOT
             then bignum_multiply_unsigned_small_factor x digit neg else k) = Ok r ∧
    denotes r (let v := digits_value (bn_digits x) * d in if neg then - v else v).
Proof.
  intros Hx [Hy Hny _] Hnx Ey Hk. unfold BIGNUM_REF. rewrite Ey in *. cbn [read lookup list_lookup].
  rewrite result_bind_ok. apply Forall_singleton in Hy as [Hd0 _].
  apply (normalized_snoc [] d) in Hny.
  destruct (Z.eqb_spec d 1) as [->|Hd1].
  { eexists; split; [done|]. rewrite bignum_maybe_new_sign_eq. cbv zeta.
    rewrite Z.mul_1_r. by apply denotes_sign. }
  destruct (Z.ltb_spec d BIGNUM_RADIX_ROOT); [|done]. cbv zeta. rewrite Z.mul_comm.
  apply bignum_multiply_unsigned_small_factor_denotes; [done|lia].
Qed.

(** [bignum_multiply] returns the normalized product on every path:
    squaring, a factor 1, a half-digit factor, and the general case.  The
    digit arithmetic is done in 64-bit halves and never overflows. *)
Theorem bignum_multiply_denotes same x y :
  bignum_ok x → bignum_ok y → (same = true → x = y) →
  ∃ r, bignum_multiply same x y = Ok r ∧ denotes r (bignum_value x * bignum_value y).
Proof.
  intros Hx Hy Hsame. unfold bignum_multiply.
  destruct same; [rewrite <- Hsame by done; by apply bignum_square_denotes|].
  destruct (BIGNUM_ZERO_P x) eqn:Zx.
  { apply zero_p_spec in Zx. exists x. split; [done|]. split; [done|].
    unfold bignum_value. rewrite Zx. by destruct (bn_negative x). }
  destruct (BIGNUM_ZERO_P y) eqn:Zy.
  { apply zero_p_spec in Zy. exists y. split; [done|]. split; [done|].
    unfold bignum_value. rewrite Zy. destruct (bn_negative x), (bn_negative y); cbn; lia. }
  apply zero_p_false in Zx, Zy. rewrite sign_product. cbv zeta.
  set (neg := if BIGNUM_NEGATIVE_P x then _ else _). clearbody neg.
  pose proof (bignum_multiply_unsigned_denotes x y neg Hx Hy Zx Zy) as Hgen.
  unfold BIGNUM_LENGTH.
  assert (∀ ds : list Z, length ds = 1%nat → ∃ d, ds = [d]) as Hone.
  { intros [|d [|]]; try done. eauto. }
  destruct (Nat.eqb_spec (length (bn_digits x)) 1) as [Lx|_];
    destruct (Nat.eqb_spec (length (bn_digits y)) 1) as [Ly|_]; try done.
  - destruct (Hone _ Lx) as [dx Ex], (Hone _ Ly) as [dy Ey].
    assert (digits_value (bn_digits x) = dx) as Vx by (rewrite Ex; cbn; lia).
    assert (digits_value (bn_digits y) = dy) as Vy by (rewrite Ey; cbn; lia).
    rewrite Vx, (Z.mul_comm dx). apply multiply_single_digit; try done.
    rewrite (Z.mul_comm _ dx), <- Vx, Vy. apply multiply_single_digit; try done.
    by rewrite <- Vy.
  - destruct (Hone _ Lx) as [dx Ex].
    assert (digits_value (bn_digits x) = dx) as Vx by (rewrite Ex; cbn; lia).
    rewrite Vx, (Z.mul_comm dx). apply multiply_single_digit; try done.
    by rewrite (Z.mul_comm _ dx), <- Vx.
  - destruct (Hone _ Ly) as [dy Ey].
    assert (digits_value (bn_digits y) = dy) as Vy by (rewrite Ey; cbn; lia).
    rewrite Vy. apply multiply_single_digit; try done. by rewrite <- Vy.
Qed.
End mul.
