(* ===== verification/BignumDiv.v ===== *)
(** Bignum division: vm/bignum.cpp.

    Knuth's algorithm D on 62-bit digits ([bignum_divide_unsigned_normalized]),
    with the division of two digits by one done by the same algorithm on
    31-bit halves ([bignum_digit_divide]).  A quotient or remainder pointer
    that is NULL is [want_q = false] or [want_r = false]. *)

From S2P Require Import Prelude.
From S2P Require Import Arrays.
From S2P Require Import Bignum.
Local Open Scope fixnum_scope.

(** * Two digits by one digit *)

(** src/vm/bignum.cpp:1113-1124 [BDDS_MULSUB]: the new [un] and the carry. *)
Definition BDDS_MULSUB (guess vn un carry_in : Z) : Z * Z :=
  let product := (vn *! guess) +! carry_in in
  let diff := un -! HD_LOW product in
  if diff <? 0 then (diff +! BIGNUM_RADIX_ROOT, HD_HIGH product +! 1)
  else (diff, HD_HIGH product).

(** src/vm/bignum.cpp:1126-1136 [BDDS_ADD] *)
Definition BDDS_ADD (vn un carry_in : Z) : Z * Z :=
  let sum := vn +! un +! carry_in in
  if sum <? BIGNUM_RADIX_ROOT then (sum, 0) else (sum -! BIGNUM_RADIX_ROOT, 1).

(** src/vm/bignum.cpp:1138-1166 [bignum_digit_divide_subtract]: the quotient
    half digit, then [u[0]], [u[1]], [u[2]]. *)
Definition bignum_digit_divide_subtract (v1 v2 guess u0 u1 u2 : Z) : Z * (Z * Z * Z) :=
  let '(u2, carry) := BDDS_MULSUB guess v2 u2 0 in
  let '(u1, carry) := BDDS_MULSUB guess v1 u1 carry in
  if carry =? 0 then (guess, (u0, u1, u2))
  else
    let diff := u0 -! carry in
    if diff <? 0 then
      let u0 := diff +! BIGNUM_RADIX in
      let '(u2, carry) := BDDS_ADD v2 u2 0 in
      let '(u1, carry) := BDDS_ADD v1 u1 carry in
      let u0 := if carry =? 1 then u0 +! 1 else u0 in
      (guess -! 1, (u0, u1, u2))
    else (guess, (diff, u1, u2)).

(** src/vm/bignum.cpp:1068-1073 [BDD_STEP] (part):
    The [while ((guess * v2) > comparand)] loop of [BDD_STEP]: one turn. *)
Definition bdd_guess_body (v1 v2 : Z) (st : Z * Z) : Z * Z + Z :=
  let '(guess, comparand) := st in
  if comparand <? (guess *! v2) then
    let guess := guess -! 1 in
    let comparand := comparand +! (v1 <<! BIGNUM_HALF_DIGIT_LENGTH) in
    if BIGNUM_RADIX <=? comparand then inr guess else inl (guess, comparand)
  else inr guess.

(** src/vm/bignum.cpp:1057-1075 [BDD_STEP]: on [u[j]], [u[j+1]], [u[j+2]]. *)
Definition BDD_STEP (v1 v2 uj uj1 uj2 : Z) : result (Z * (Z * Z * Z)) :=
  let '(guess, comparand) :=
    if negb (uj =? v1) then
      let uj_uj1 := HD_CONS uj uj1 in
      (uj_uj1 `quot` v1, HD_CONS (uj_uj1 `rem` v1) uj2)
    else (BIGNUM_RADIX_ROOT -! 1, HD_CONS (uj1 +! v1) uj2) in
  guess ← while_loop (bdd_guess_body v1 v2) (guess, comparand);
  Ok (bignum_digit_divide_subtract v1 v2 guess uj uj1 uj2).

(** src/vm/bignum.cpp:1077-1109 [bignum_digit_divide]: the remainder and the
    quotient. *)
Definition bignum_digit_divide (uh ul v : Z) : result (Z * Z) :=
  let general :=
    let v1 := HD_HIGH v in
    let v2 := HD_LOW v in
    '(q1, (_, u1, u2)) ← BDD_STEP v1 v2 (HD_HIGH uh) (HD_LOW uh) (HD_HIGH ul);
    '(q2, (_, u2, u3)) ← BDD_STEP v1 v2 u1 u2 (HD_LOW ul);
    Ok (HD_CONS u2 u3, HD_CONS q1 q2) in
  if uh =? 0 then
    if ul <? v then Ok (ul, 0)
    else if ul =? v then Ok (0, 1)
    else general
  else general.

(** * Algorithm D *)

(** src/vm/bignum.cpp:915-929 [bignum_divide_subtract] (part):
    The subtraction loop of [bignum_divide_subtract]: digits written, what is
    left of [u], the carry. *)
Fixpoint divide_subtract_loop (gh gl : Z) (vs us : list Z) (carry : Z)
    : result (list Z * list Z * Z) :=
  match vs with
  | [] => Ok ([], us, carry)
  | v :: vs' =>
      match us with
      | [] => Err BAD_ACCESS
      | u :: us' =>
          let vl := HD_LOW v in
          let vh := HD_HIGH v in
          let pl := (vl *! gl) +! HD_LOW carry in
          let ph := (vl *! gh) +! (vh *! gl) +! HD_HIGH pl +! HD_HIGH carry in
          let diff := u -! HD_CONS (HD_LOW ph) (HD_LOW pl) in
          let '(d, carry) :=
            if diff <? 0 then (diff +! BIGNUM_RADIX, (vh *! gh) +! HD_HIGH ph +! 1)
            else (diff, (vh *! gh) +! HD_HIGH ph) in
          '(r, rest, c) ← divide_subtract_loop gh gl vs' us' carry;
          Ok (d :: r, rest, c)
      end
  end.

(** src/vm/bignum.cpp:948-957 [bignum_divide_subtract] (part):
    The loop that adds the divisor back. *)
Fixpoint divide_add_back_loop (vs us : list Z) (carry : Z) : result (list Z * list Z * Z) :=
  match vs with
  | [] => Ok ([], us, carry)
  | v :: vs' =>
      match us with
      | [] => Err BAD_ACCESS
      | u :: us' =>
          let sum := v +! u +! carry in
          let '(d, carry) :=
            if sum <? BIGNUM_RADIX then (sum, 0) else (sum -! BIGNUM_RADIX, 1) in
          '(r, rest, c) ← divide_add_back_loop vs' us' carry;
          Ok (d :: r, rest, c)
      end
  end.

(** src/vm/bignum.cpp:898-963 [bignum_divide_subtract]: [us] is the digits from
    [u_start] on; the result is the quotient digit and the new digits. *)
Definition bignum_divide_subtract (vs : list Z) (guess : Z) (us : list Z) : result (Z * list Z) :=
  if guess =? 0 then Ok (0, us)
  else
    '(r, rest, carry) ← divide_subtract_loop (HD_HIGH guess) (HD_LOW guess) vs us 0;
    if carry =? 0 then Ok (guess, r ++ rest)
    else
      match rest with
      | [] => Err BAD_ACCESS
      | u :: rest' =>
          let diff := u -! carry in
          if diff <? 0 then
            let us := r ++ (diff +! BIGNUM_RADIX) :: rest' in
            '(r, rest, carry) ← divide_add_back_loop vs us 0;
            if carry =? 1 then
              match rest with
              | [] => Err BAD_ACCESS
              | u :: rest' =>
                  let sum := u +! carry in
                  let u := if sum <? BIGNUM_RADIX then sum else sum -! BIGNUM_RADIX in
                  Ok (guess -! 1, r ++ u :: rest')
              end
            else Ok (guess -! 1, r ++ rest)
          else Ok (guess, r ++ diff :: rest')
      end.

(** src/vm/bignum.cpp:870-887 [bignum_divide_unsigned_normalized] (part):
    One turn of the [while (1)] loop that corrects the guess: the product
    [guess * v2] is compared with [ch : cl]. *)
Definition divide_guess_body (v1 v2l v2h cl : Z) (st : Z * Z) : Z * Z + Z :=
  let '(guess, ch) := st in
  let gl := HD_LOW guess in
  let gh := HD_HIGH guess in
  let pl := v2l *! gl in
  let ph := (v2l *! gh) +! (v2h *! gl) +! HD_HIGH pl in
  let pl := HD_CONS (HD_LOW ph) (HD_LOW pl) in
  let ph := (v2h *! gh) +! HD_HIGH ph in
  if (ph <? ch) || ((ch =? ph) && (pl <=? cl)) then inr guess
  else
    let guess := guess -! 1 in
    let ch := ch +! v1 in
    if BIGNUM_RADIX <=? ch then inr guess else inl (guess, ch).

(** src/vm/bignum.cpp:856-891 [bignum_divide_unsigned_normalized] (part):
    The loop of [bignum_divide_unsigned_normalized] with [n] quotient digits
    still to find: the digits of [u], and the quotient digits found so far. *)
Fixpoint divide_normalized_loop (vs : list Z) (v1 v2 : Z) (n : nat) (us qs : list Z)
    : result (list Z * list Z) :=
  match n with
  | 0%nat => Ok (us, qs)
  | S n' =>
      let u_scan := (n' + length vs)%nat in
      uj ← read us u_scan;
      uj1 ← read us (u_scan - 1);
      cl ← read us (u_scan - 2);
      '(ch, guess) ←
        (if negb (uj =? v1) then bignum_digit_divide uj uj1 v1
         else Ok (uj1 +! v1, BIGNUM_RADIX -! 1));
      guess ← while_loop (divide_guess_body v1 (HD_LOW v2) (HD_HIGH v2) cl) (guess, ch);
      '(qj, us') ← bignum_divide_subtract vs guess (drop n' us);
      divide_normalized_loop vs v1 v2 n' (take n' us ++ us') (qj :: qs)
  end.

(** src/vm/bignum.cpp:829-896 [bignum_divide_unsigned_normalized]: the new [u]
    and the quotient digits, which the caller's [q], when it is not NULL, is
    exactly long enough to hold. *)
Definition bignum_divide_unsigned_normalized (u v : bignum) (q : option bignum)
    : result (bignum * option bignum) :=
  let v_length := BIGNUM_LENGTH v in
  v1 ← read (bn_digits v) (v_length - 1);
  v2 ← read (bn_digits v) (v_length - 2);
  '(us, qs) ← divide_normalized_loop (bn_digits v) v1 v2 (BIGNUM_LENGTH u - v_length) (bn_digits u) [];
  Ok (mk_bignum (bn_negative u) us,
      q ← q; Some (mk_bignum (bn_negative q) (list_inserts (BIGNUM_LENGTH q - length qs) qs (bn_digits q)))).

(** * Normalization *)

(** src/vm/bignum.cpp:1024-1028 [bignum_destructive_normalization] (part):
    The loop of [bignum_destructive_normalization]. *)
Fixpoint normalization_loop (shift_left : Z) (ds : list Z) (carry : Z) : list Z * Z :=
  let shift_right := BIGNUM_DIGIT_LENGTH - shift_left in
  let mask := Z.shiftl 1 shift_right - 1 in
  match ds with
  | [] => ([], carry)
  | digit :: ds' =>
      let '(r, c) := normalization_loop shift_left ds' (Z.shiftr digit shift_right) in
      (Z.lor (Z.land digit mask <<! shift_left) carry :: r, c)
  end.

(** src/vm/bignum.cpp:1014-1034 [bignum_destructive_normalization] *)
Definition bignum_destructive_normalization (source target : bignum) (shift_left : Z)
    : result bignum :=
  let '(r, carry) := normalization_loop shift_left (bn_digits source) 0 in
  let target' := list_inserts 0 r (bn_digits target) in
  if (length r <? BIGNUM_LENGTH target)%nat then
    Ok (mk_bignum (bn_negative target) (<[length r := carry]> target'))
  else check (carry =? 0) ≫= λ _, Ok (mk_bignum (bn_negative target) target').

(** src/vm/bignum.cpp:1044-1048 [bignum_destructive_unnormalization] (part):
    The loop of [bignum_destructive_unnormalization], on the digits from the
    most significant one down. *)
Fixpoint unnormalization_loop (shift_right : Z) (ds : list Z) (carry : Z) : list Z * Z :=
  let shift_left := BIGNUM_DIGIT_LENGTH - shift_right in
  let mask := Z.shiftl 1 shift_right - 1 in
  match ds with
  | [] => ([], carry)
  | digit :: ds' =>
      let '(r, c) := unnormalization_loop shift_right ds' (Z.land digit mask <<! shift_left) in
      (Z.lor (Z.shiftr digit shift_right) carry :: r, c)
  end.

(** src/vm/bignum.cpp:1036-1051 [bignum_destructive_unnormalization] *)
Definition bignum_destructive_unnormalization (bn : bignum) (shift_right : Z) : result bignum :=
  let '(r, carry) := unnormalization_loop shift_right (rev (bn_digits bn)) 0 in
  check (carry =? 0) ≫= λ _, Ok (mk_bignum (bn_negative bn) (rev r)).

(** src/vm/bignum.cpp:773-776 [bignum_divide_unsigned_large_denominator] (part):
    The [while (v1 < (BIGNUM_RADIX / 2))] loops that find the shift: one
    turn; the loop leaves with the shifted digit and the shift. *)
Definition normalize_shift_body (st : Z * Z) : Z * Z + Z * Z :=
  let '(v1, shift) := st in
  if v1 <? BIGNUM_RADIX `quot` 2 then inl (v1 <<! 1, shift + 1) else inr (v1, shift).

Section div.
Context `{!alloc_env Z}.

(** src/vm/bignum.cpp:779-812 [bignum_divide_unsigned_large_denominator] (part):
    The [if (shift == 0)] of [bignum_divide_unsigned_large_denominator]: the
    copy or the normalization of the operands into [u] and [v], the division,
    and the unnormalization of the remainder. *)
Definition divide_large_shifted (numerator denominator u : bignum) (q : option bignum)
    (want_r : bool) (shift : Z) : result (bignum * option bignum) :=
  let length_n := (BIGNUM_LENGTH numerator + 1)%nat in
  let length_d := BIGNUM_LENGTH denominator in
  if shift =? 0 then
    let u := bignum_destructive_copy numerator u in
    u' ← write (bn_digits u) (length_n - 1) 0;
    bignum_divide_unsigned_normalized (mk_bignum (bn_negative u) u') denominator q
  else
    let v := allot_bignum length_d false in
    u ← bignum_destructive_normalization numerator u shift;
    v ← bignum_destructive_normalization denominator v shift;
    '(u, q) ← bignum_divide_unsigned_normalized u v q;
    u ← (if want_r then bignum_destructive_unnormalization u shift else Ok u);
    Ok (u, q).

(** src/vm/bignum.cpp:755-827 [bignum_divide_unsigned_large_denominator] *)
Definition bignum_divide_unsigned_large_denominator (numerator denominator : bignum)
    (want_q want_r q_negative_p r_negative_p : bool)
    : result (option bignum * option bignum) :=
  let length_n := (BIGNUM_LENGTH numerator + 1)%nat in
  let length_d := BIGNUM_LENGTH denominator in
  let u := allot_bignum length_n r_negative_p in
  check (1 <? length_d)%nat ≫= λ _,
  v1 ← BIGNUM_REF denominator (length_d - 1);
  '(_, shift) ← while_loop normalize_shift_body (v1, 0);
  let q := if want_q then Some (allot_bignum (length_n - length_d) q_negative_p) else None in
  '(u, q) ← divide_large_shifted numerator denominator u q want_r shift;
  let q := q ← q; Some (bignum_trim q) in
  let u := bignum_trim u in
  Ok (q, if want_r then Some u else None).

(** src/vm/bignum.cpp:994-997 [bignum_divide_unsigned_medium_denominator] (part):
    The loop of [bignum_divide_unsigned_medium_denominator] over the digits
    of [q] from the most significant one down: the quotient digits (in the
    same order) and the remainder. *)
Fixpoint divide_medium_loop (denominator : Z) (ds : list Z) (r : Z) : result (list Z * Z) :=
  match ds with
  | [] => Ok ([], r)
  | d :: ds' =>
      '(r, qj) ← bignum_digit_divide r d denominator;
      '(qs, r) ← divide_medium_loop denominator ds' r;
      Ok (qj :: qs, r)
  end.

(** src/vm/bignum.cpp:965-1012 [bignum_divide_unsigned_medium_denominator] *)
Definition bignum_divide_unsigned_medium_denominator (numerator : bignum) (denominator : Z)
    (want_q want_r q_negative_p r_negative_p : bool)
    : result (option bignum * option bignum) :=
  let length_n := BIGNUM_LENGTH numerator in
  '(denominator, shift) ← while_loop normalize_shift_body (denominator, 0);
  let length_q := if shift =? 0 then length_n else (length_n + 1)%nat in
  let q := allot_bignum length_q q_negative_p in
  q ← (if shift =? 0 then Ok (bignum_destructive_copy numerator q)
       else bignum_destructive_normalization numerator q shift);
  '(qs, r) ← divide_medium_loop denominator (rev (bn_digits q)) 0;
  let q := bignum_trim (mk_bignum (bn_negative q) (rev qs)) in
  let remainder :=
    if want_r then
      let r := if negb (shift =? 0) then Z.shiftr r shift else r in
      Some (bignum_digit_to_bignum r r_negative_p)
    else None in
  Ok (if want_q then Some q else None, remainder).

(** src/vm/bignum.cpp:1205-1212 [bignum_destructive_scale_down] (part):
    The loop of [bignum_destructive_scale_down], most significant digit
    first: the quotient digits and the remainder. *)
Fixpoint scale_down_loop (denominator : Z) (ds : list Z) (remainder : Z) : list Z * Z :=
  match ds with
  | [] => ([], remainder)
  | two_digits :: ds' =>
      let numerator := HD_CONS remainder (HD_HIGH two_digits) in
      let quotient_high := numerator `quot` denominator in
      let numerator := HD_CONS (numerator `rem` denominator) (HD_LOW two_digits) in
      let digit := HD_CONS quotient_high (numerator `quot` denominator) in
      let '(qs, r) := scale_down_loop denominator ds' (numerator `rem` denominator) in
      (digit :: qs, r)
  end.

(** src/vm/bignum.cpp:1196-1215 [bignum_destructive_scale_down] *)
Definition bignum_destructive_scale_down (bn : bignum) (denominator : Z) : result (bignum * Z) :=
  check ((1 <? denominator) && (denominator <? BIGNUM_RADIX_ROOT)) ≫= λ _,
  let '(qs, r) := scale_down_loop denominator (rev (bn_digits bn)) 0 in
  Ok (mk_bignum (bn_negative bn) (rev qs), r).

(** src/vm/bignum.cpp:1171-1190 [bignum_divide_unsigned_small_denominator] *)
Definition bignum_divide_unsigned_small_denominator (numerator : bignum) (denominator : Z)
    (want_r q_negative_p r_negative_p : bool) : result (bignum * option bignum) :=
  let q := bignum_new_sign numerator q_negative_p in
  '(q, r) ← bignum_destructive_scale_down q denominator;
  let q := bignum_trim q in
  Ok (q, if want_r then Some (bignum_digit_to_bignum r r_negative_p) else None).

(** src/vm/bignum.cpp:1225-1230 [bignum_remainder_unsigned_small_denominator] (part):
    The loop of [bignum_remainder_unsigned_small_denominator]. *)
Fixpoint remainder_small_loop (d r : Z) (ds : list Z) : Z :=
  match ds with
  | [] => r
  | two_digits :: ds' =>
      remainder_small_loop d
        (HD_CONS (HD_CONS r (HD_HIGH two_digits) `rem` d) (HD_LOW two_digits) `rem` d) ds'
  end.

(** src/vm/bignum.cpp:1217-1232 [bignum_remainder_unsigned_small_denominator] *)
Definition bignum_remainder_unsigned_small_denominator (n : bignum) (d : Z) (negative_p : bool)
    : result bignum :=
  check ((1 <? d) && (d <? BIGNUM_RADIX_ROOT)) ≫= λ _,
  Ok (bignum_digit_to_bignum (remainder_small_loop d 0 (rev (bn_digits n))) negative_p).

(** A quotient or remainder the callee was asked for. *)
Definition out_param (o : option bignum) : result bignum :=
  match o with Some b => Ok b | None => Err BAD_ACCESS end.

(** src/vm/bignum.cpp:191-242 [bignum_divide] *)
Definition bignum_divide (numerator denominator : bignum) : result (bignum * bignum) :=
  if BIGNUM_ZERO_P denominator then Err ERROR_DIVIDE_BY_ZERO
  else if BIGNUM_ZERO_P numerator then Ok (numerator, numerator)
  else
    let r_negative_p := BIGNUM_NEGATIVE_P numerator in
    let q_negative_p := if BIGNUM_NEGATIVE_P denominator then negb r_negative_p else r_negative_p in
    match bignum_compare_unsigned numerator denominator with
    | BIGNUM_COMPARISON_EQUAL => Ok (BIGNUM_ONE q_negative_p, BIGNUM_ZERO)
    | BIGNUM_COMPARISON_LESS => Ok (BIGNUM_ZERO, numerator)
    | BIGNUM_COMPARISON_GREATER =>
        if (BIGNUM_LENGTH denominator =? 1)%nat then
          digit ← BIGNUM_REF denominator 0;
          if digit =? 1 then Ok (bignum_maybe_new_sign numerator q_negative_p, BIGNUM_ZERO)
          else if digit <? BIGNUM_RADIX_ROOT then
            '(q, r) ← bignum_divide_unsigned_small_denominator numerator digit true
                        q_negative_p r_negative_p;
            r ← out_param r; Ok (q, r)
          else
            '(q, r) ← bignum_divide_unsigned_medium_denominator numerator digit true true
                        q_negative_p r_negative_p;
            q ← out_param q; r ← out_param r; Ok (q, r)
        else
          '(q, r) ← bignum_divide_unsigned_large_denominator numerator denominator true true
                      q_negative_p r_negative_p;
          q ← out_param q; r ← out_param r; Ok (q, r)
    end.

(** src/vm/bignum.cpp:244-283 [bignum_quotient] *)
Definition bignum_quotient (numerator denominator : bignum) : result bignum :=
  if BIGNUM_ZERO_P denominator then Err ERROR_DIVIDE_BY_ZERO
  else if BIGNUM_ZERO_P numerator then Ok numerator
  else
    let q_negative_p :=
      if BIGNUM_NEGATIVE_P denominator then negb (BIGNUM_NEGATIVE_P numerator)
      else BIGNUM_NEGATIVE_P numerator in
    match bignum_compare_unsigned numerator denominator with
    | BIGNUM_COMPARISON_EQUAL => Ok (BIGNUM_ONE q_negative_p)
    | BIGNUM_COMPARISON_LESS => Ok BIGNUM_ZERO
    | BIGNUM_COMPARISON_GREATER =>
        if (BIGNUM_LENGTH denominator =? 1)%nat then
          digit ← BIGNUM_REF denominator 0;
          if digit =? 1 then Ok (bignum_maybe_new_sign numerator q_negative_p)
          else if digit <? BIGNUM_RADIX_ROOT then
            '(q, _) ← bignum_divide_unsigned_small_denominator numerator digit false
                        q_negative_p false;
            Ok q
          else
            '(q, _) ← bignum_divide_unsigned_medium_denominator numerator digit true false
                        q_negative_p false;
            out_param q
        else
          '(q, _) ← bignum_divide_unsigned_large_denominator numerator denominator true false
                      q_negative_p false;
          out_param q
    end.

(** src/vm/bignum.cpp:285-319 [bignum_remainder] *)
Definition bignum_remainder (numerator denominator : bignum) : result bignum :=
  if BIGNUM_ZERO_P denominator then Err ERROR_DIVIDE_BY_ZERO
  else if BIGNUM_ZERO_P numerator then Ok numerator
  else
    match bignum_compare_unsigned numerator denominator with
    | BIGNUM_COMPARISON_EQUAL => Ok BIGNUM_ZERO
    | BIGNUM_COMPARISON_LESS => Ok numerator
    | BIGNUM_COMPARISON_GREATER =>
        if (BIGNUM_LENGTH denominator =? 1)%nat then
          digit ← BIGNUM_REF denominator 0;
          if digit =? 1 then Ok BIGNUM_ZERO
          else if digit <? BIGNUM_RADIX_ROOT then
            bignum_remainder_unsigned_small_denominator numerator digit
              (BIGNUM_NEGATIVE_P numerator)
          else
            '(_, r) ← bignum_divide_unsigned_medium_denominator numerator digit false true
                        false (BIGNUM_NEGATIVE_P numerator);
            out_param r
        else
          '(_, r) ← bignum_divide_unsigned_large_denominator numerator denominator false true
                      false (BIGNUM_NEGATIVE_P numerator);
          out_param r
    end.
End div.
