(* ===== verification/BignumKnuthD.v ===== *)
(** Correctness of the digit-level division of vm/bignum.cpp: two digits by
    one ([bignum_digit_divide]), the guess of a quotient digit and the
    subtraction of a multiple of the divisor ([bignum_divide_subtract]). *)

From S2P Require Import Prelude.
From S2P Require Import Arrays.
From S2P Require Import Bignum.
From S2P Require Import BignumDiv.
Local Open Scope fixnum_scope.

(** * Division of two digits by one *)

Abbreviation root := BIGNUM_RADIX_ROOT.

Lemma half_digit h : half_ok h → digit_ok h.
Proof. unfold half_ok, digit_ok. rewrite radix_eq, root_eq. lia. Qed.

Lemma BDDS_MULSUB_spec guess vn un c un' c' :
  half_ok guess → half_ok vn → half_ok un → half_ok c →
  BDDS_MULSUB guess vn un c = (un', c') →
  half_ok un' ∧ half_ok c' ∧ un' - root * c' = un - (vn * guess + c).
Proof.
  intros Hg Hv Hu Hc E. unfold BDDS_MULSUB in E.
  pose proof (half_mul_bound _ _ Hv Hg). unfold half_ok in *. rewrite root_eq in *.
  rewrite (s64_id (vn * guess)), (s64_id (vn * guess + c)) in E by (unfold is_fixnum; lia).
  destruct (HD_split (vn * guess + c)) as [Hs Hl]. rewrite root_eq in *.
  rewrite (s64_id (un - HD_LOW _)) in E by (unfold is_fixnum; lia).
  destruct (Z.ltb_spec (un - HD_LOW (vn * guess + c)) 0); injection E as <- <-.
  - no_overflow lia. lia.
  - lia.
Qed.

(** What the guess loops establish: the guess is the exact quotient of the
    leading digits. *)
Definition exact_quotient (U V g : Z) : Prop := g * V ≤ U < (g + 1) * V.

Lemma exact_quotient_unique U V g : 0 < V → exact_quotient U V g → g = U / V.
Proof. intros HV [? ?]. apply (Z.div_unique_pos U V g (U - g * V)); lia. Qed.

Lemma bdd_guess_loop_spec v1 v2 U g c :
  half_ok v1 → half_ok v2 → half_ok g → 0 ≤ c < 2 * BIGNUM_RADIX →
  c = U - g * v1 * root → U < (g + 1) * (v1 * root + v2) →
  ∃ g', while_loop (bdd_guess_body v1 v2) (g, c) = Ok g' ∧
    half_ok g' ∧ exact_quotient U (v1 * root + v2) g'.
Proof.
  intros Hv1 Hv2 Hg Hc Ec HU.
  apply (while_loop_ok _
    (λ '(g, c), half_ok g ∧ 0 ≤ c < 2 * BIGNUM_RADIX ∧ c = U - g * v1 * root ∧
                U < (g + 1) * (v1 * root + v2)) fst);
    [|cbn beta iota; auto|cbn; unfold half_ok in *; rewrite root_eq in *; lia].
  clear g c Hg Hc Ec HU. intros [g c] (Hg & Hc & Ec & HU).
  pose proof (half_mul_bound _ _ Hg Hv2). unfold bdd_guess_body, exact_quotient.
  change BIGNUM_HALF_DIGIT_LENGTH with 31. rewrite (Z.shiftl_mul_pow2 v1 31) by lia.
  unfold half_ok in *. rewrite radix_eq, root_eq in *. change (2 ^ 31) with 2147483648 in *.
  rewrite (s64_id (g * v2)) by (unfold is_fixnum; lia).
  destruct (Z.ltb_spec c (g * v2)) as [Hlt|Hge]; [|split_and!; lia].
  no_overflow lia. cbn [fst]. assert (1 ≤ g) by nia.
  destruct (Z.leb_spec (2 ^ 62) (c + v1 * 2147483648)); cbn [fst]; split_and!; lia.
Qed.

Lemma bignum_digit_divide_subtract_exact v1 v2 g u0 u1 u2 :
  half_ok v1 → half_ok v2 → half_ok g → half_ok u0 → half_ok u1 → half_ok u2 →
  exact_quotient (u0 * BIGNUM_RADIX + u1 * root + u2) (v1 * root + v2) g →
  ∃ w0 w1 w2, bignum_digit_divide_subtract v1 v2 g u0 u1 u2 = (g, (w0, w1, w2)) ∧
    half_ok w1 ∧ half_ok w2 ∧
    w1 * root + w2 = u0 * BIGNUM_RADIX + u1 * root + u2 - g * (v1 * root + v2).
Proof.
  intros Hv1 Hv2 Hg Hu0 Hu1 Hu2 [HQ1 HQ2]. unfold bignum_digit_divide_subtract.
  destruct (BDDS_MULSUB g v2 u2 0) as [w2 c2] eqn:E2.
  apply BDDS_MULSUB_spec in E2 as (Hw2 & Hc2 & Heq2); try done.
  destruct (BDDS_MULSUB g v1 u1 c2) as [w1 c1] eqn:E1.
  apply BDDS_MULSUB_spec in E1 as (Hw1 & Hc1 & Heq1); try done.
  assert (c1 = u0 ∧ w1 * root + w2 = u0 * BIGNUM_RADIX + u1 * root + u2 - g * (v1 * root + v2))
    as [-> Hval].
  { unfold half_ok in *. rewrite radix_eq, root_eq in *. nia. }
  destruct (Z.eqb_spec u0 0) as [->|Hne]; [by eexists _, _, _|].
  rewrite Z.sub_diag. change (s64 0) with 0. by eexists _, _, _.
Qed.

(** One step of the half-digit division: three half digits by two. *)
Lemma BDD_STEP_spec v1 v2 u0 u1 u2 :
  half_ok v1 → half_ok v2 → 0 < v1 → half_ok u0 → half_ok u1 → half_ok u2 →
  u0 * root + u1 < v1 * root + v2 →
  ∃ g w0 w1 w2, BDD_STEP v1 v2 u0 u1 u2 = Ok (g, (w0, w1, w2)) ∧
    half_ok g ∧ half_ok w1 ∧ half_ok w2 ∧
    u0 * BIGNUM_RADIX + u1 * root + u2 = g * (v1 * root + v2) + (w1 * root + w2) ∧
    w1 * root + w2 < v1 * root + v2.
Proof.
  intros Hv1 Hv2 Hv Hu0 Hu1 Hu2 Hlt.
  set (U := u0 * BIGNUM_RADIX + u1 * root + u2). set (V := v1 * root + v2) in *.
  assert (∃ g c, (if negb (u0 =? v1)
                  then (HD_CONS u0 u1 `quot` v1, HD_CONS (HD_CONS u0 u1 `rem` v1) u2)
                  else (root -! 1, HD_CONS (u1 +! v1) u2)) = (g, c) ∧
            half_ok g ∧ 0 ≤ c < 2 * BIGNUM_RADIX ∧ c = U - g * v1 * root ∧ U < (g + 1) * V)
    as (g & c & Estart & Hg & Hc & Ec & HU).
  { destruct (Z.eqb_spec u0 v1) as [->|Hne]; cbn [negb].
    - eexists _, _; split; [reflexivity|]. unfold half_ok, U, V in *.
      rewrite radix_eq, root_eq in *. no_overflow lia. rewrite HD_CONS_eq, root_eq by (rewrite ?root_eq; lia).
      lia.
    - destruct (HD_CONS_digit u0 u1 Hu0 Hu1) as [Eu Hu]. unfold digit_ok in Hu.
      rewrite Z.quot_div_nonneg, Z.rem_mod_nonneg by lia.
      pose proof (Z.div_mod (HD_CONS u0 u1) v1 ltac:(lia)) as Hdm.
      pose proof (Z.mod_pos_bound (HD_CONS u0 u1) v1 Hv) as Hmod.
      set (g := HD_CONS u0 u1 / v1) in *. set (m := HD_CONS u0 u1 mod v1) in *.
      eexists _, _; split; [reflexivity|]. unfold half_ok, U, V in *.
      rewrite radix_eq, root_eq in *.
      rewrite HD_CONS_eq, root_eq by (rewrite ?root_eq; lia). split_and!; nia. }
  destruct (bdd_guess_loop_spec v1 v2 U g c) as (g' & Eloop & Hg' & HQ); [done..|].
  destruct (bignum_digit_divide_subtract_exact v1 v2 g' u0 u1 u2)
    as (w0 & w1 & w2 & Esub & Hw1 & Hw2 & Hw); [done..|].
  exists g', w0, w1, w2. unfold BDD_STEP. rewrite Estart, Eloop, result_bind_ok, Esub.
  destruct HQ as [HQ1 HQ2]. fold V in HQ1, HQ2, Hw. fold U in Hw.
  split_and!; try done; lia.
Qed.

(** [bignum_digit_divide] divides a two-digit number [uh:ul] by a
    normalized digit [v > uh]: it terminates and returns the exact remainder
    and quotient. *)
Theorem bignum_digit_divide_spec uh ul v :
  BIGNUM_RADIX / 2 ≤ v < BIGNUM_RADIX → 0 ≤ uh < v → digit_ok ul →
  ∃ r q, bignum_digit_divide uh ul v = Ok (r, q) ∧ digit_ok q ∧
    uh * BIGNUM_RADIX + ul = q * v + r ∧ 0 ≤ r < v.
Proof.
  intros Hv Huh Hul. unfold bignum_digit_divide.
  set (general := '(q1, (_, u1, u2)) ← _; _).
  assert (∃ r q, general = Ok (r, q) ∧ digit_ok q ∧
            uh * BIGNUM_RADIX + ul = q * v + r ∧ 0 ≤ r < v) as Hgen.
  { assert (digit_ok v) as Hdv by (unfold digit_ok; rewrite radix_eq in *; dlia).
    assert (digit_ok uh) as Hduh by (unfold digit_ok in *; lia).
    destruct (HD_split v) as [Ev _], (HD_split uh) as [Euh _], (HD_split ul) as [Eul _].
    assert (0 < HD_HIGH v) as Hv1.
    { pose proof (HD_LOW_half v). unfold half_ok in *. rewrite radix_eq, root_eq in *. dlia. }
    unfold general.
    destruct (BDD_STEP_spec (HD_HIGH v) (HD_LOW v) (HD_HIGH uh) (HD_LOW uh) (HD_HIGH ul))
      as (q1 & w0 & w1 & w2 & -> & Hq1 & Hw1 & Hw2 & Heq1 & Hlt1);
      [auto using HD_HIGH_half, HD_LOW_half..|lia|].
    rewrite result_bind_ok.
    destruct (BDD_STEP_spec (HD_HIGH v) (HD_LOW v) w1 w2 (HD_LOW ul))
      as (q2 & w3 & w4 & w5 & -> & Hq2 & Hw4 & Hw5 & Heq2 & Hlt2);
      [auto using HD_HIGH_half, HD_LOW_half..|].
    destruct (HD_CONS_digit q1 q2 Hq1 Hq2) as [Eq Hq], (HD_CONS_digit w4 w5 Hw4 Hw5) as [Er Hr].
    eexists _, _; split; [reflexivity|]. rewrite Eq, Er in *.
    unfold half_ok, digit_ok in *. rewrite radix_root in *. split_and!; try done; nia. }
  destruct (Z.eqb_spec uh 0) as [->|]; [|done].
  destruct (Z.ltb_spec ul v).
  { exists ul, 0. unfold digit_ok in *. split_and!; (done || lia). }
  destruct (Z.eqb_spec ul v) as [->|]; [|done].
  exists 0, 1. split_and!; (done || lia).
Qed.

(** * Subtracting a multiple of the divisor *)

Lemma divide_subtract_loop_spec g : digit_ok g → ∀ vs us rest c,
  digits_ok vs → digits_ok us → digit_ok c → length us = length vs →
  ∃ r c', divide_subtract_loop (HD_HIGH g) (HD_LOW g) vs (us ++ rest) c = Ok (r, rest, c') ∧
    digits_ok r ∧ length r = length vs ∧ digit_ok c' ∧
    digits_value r - radix_pow (length vs) * c' =
      digits_value us - g * digits_value vs - c.
Proof.
  intros Hg. induction vs as [|v vs IH]; intros us rest c Hvs Hus Hc Hl.
  { destruct us; [|done]. exists [], c. cbn. split_and!; (done || lia). }
  destruct us as [|u us]; [done|]. cbn [length] in Hl.
  apply Forall_cons in Hvs as [Hv Hvs], Hus as [Hu Hus]. cbn [divide_subtract_loop app].
  pose proof (HD_HIGH_half v Hv) as Hvh. pose proof (HD_HIGH_half g Hg) as Hgh.
  destruct (half_product (HD_HIGH v) (HD_LOW v) (HD_HIGH g) (HD_LOW g) 0 c
              (HD_LOW v * HD_LOW g + HD_LOW c)
              (HD_LOW v * HD_HIGH g + HD_HIGH v * HD_LOW g +
               HD_HIGH (HD_LOW v * HD_LOW g + HD_LOW c) + HD_HIGH c))
    as (Hprod & Hdig & Hcar & Hpl & Hph); [auto using HD_LOW_half..|done|done|lia|lia|].
  set (pl := HD_LOW v * HD_LOW g + HD_LOW c) in *.
  set (ph := HD_LOW v * HD_HIGH g + HD_HIGH v * HD_LOW g + HD_HIGH pl + HD_HIGH c) in *.
  pose proof (half_mul_bound _ _ (HD_LOW_half v) (HD_LOW_half g)).
  pose proof (half_mul_bound _ _ (HD_LOW_half v) Hgh).
  pose proof (half_mul_bound _ _ Hvh (HD_LOW_half g)). pose proof (half_mul_bound _ _ Hvh Hgh).
  pose proof (HD_LOW_half c). pose proof (HD_HIGH_half c Hc).
  pose proof (HD_HIGH_nonneg _ (proj1 Hpl)). pose proof (HD_HIGH_nonneg _ (proj1 Hph)).
  assert (g * v ≤ (BIGNUM_RADIX - 1) * (BIGNUM_RADIX - 1)) as Hgv.
  { unfold digit_ok in *. rewrite radix_eq in *. nia. }
  pose proof (proj1 (HD_split v)) as Sv. pose proof (proj1 (HD_split g)) as Sg.
  rewrite Z.add_0_l, <- Sv, <- Sg in Hprod. clear Sv Sg.
  set (d := HD_CONS (HD_LOW ph) (HD_LOW pl)) in *.
  set (k := HD_HIGH v * HD_HIGH g + HD_HIGH ph) in *.
  rewrite (s64_id (HD_LOW v * HD_LOW g)), (s64_id (HD_LOW v * HD_LOW g + HD_LOW c)) by
    (unfold is_fixnum, half_ok in *; rewrite root_eq in *; lia).
  fold pl.
  assert (Eph : (HD_LOW v *! HD_HIGH g) +! (HD_HIGH v *! HD_LOW g) +! HD_HIGH pl +! HD_HIGH c = ph).
  { unfold half_ok in *. rewrite root_eq in *. subst ph. no_overflow lia. done. }
  rewrite Eph. fold d.
  assert (Ek : (HD_HIGH v *! HD_HIGH g) +! HD_HIGH ph = k).
  { unfold digit_ok in *. rewrite radix_eq in *. subst k. no_overflow lia. done. }
  rewrite Ek. unfold digit_ok in *. rewrite radix_eq in *.
  rewrite (s64_id (u - d)) by (unfold is_fixnum; lia).
  destruct (Z.ltb_spec (u - d) 0) as [Hlt|Hge].
  - rewrite (s64_id (k + 1)), (s64_id (u - d + 2 ^ 62)) by (unfold is_fixnum; lia).
    destruct (IH us rest (k + 1) Hvs Hus) as (r & c' & -> & Hr & Hlr & Hc' & Hval); [|lia|].
    { split; nia. }
    eexists _, c'; split_and!; [reflexivity|constructor; [split; lia|done]|cbn; lia|lia|lia|].
    cbn [digits_value length]. rewrite radix_pow_S, radix_eq. nia.
  - destruct (IH us rest k Hvs Hus) as (r & c' & -> & Hr & Hlr & Hc' & Hval); [done|lia|].
    eexists _, c'; split_and!; [reflexivity|constructor; [split; lia|done]|cbn; lia|lia|lia|].
    cbn [digits_value length]. rewrite radix_pow_S, radix_eq. nia.
Qed.

Lemma divide_add_back_loop_spec vs : ∀ us rest c,
  digits_ok vs → digits_ok us → (c = 0 ∨ c = 1) → length us = length vs →
  ∃ r c', divide_add_back_loop vs (us ++ rest) c = Ok (r, rest, c') ∧
    digits_ok r ∧ length r = length vs ∧ (c' = 0 ∨ c' = 1) ∧
    digits_value r + radix_pow (length vs) * c' = digits_value us + digits_value vs + c.
Proof.
  induction vs as [|v vs IH]; intros us rest c Hvs Hus Hc Hl.
  { destruct us; [|done]. exists [], c. cbn. split_and!; (done || lia). }
  destruct us as [|u us]; [done|]. cbn [length] in Hl.
  apply Forall_cons in Hvs as [Hv Hvs], Hus as [Hu Hus]. cbn [divide_add_back_loop app].
  unfold digit_ok in Hv, Hu. rewrite radix_eq in *.
  rewrite (s64_id (v + u)), (s64_id (v + u + c)) by (unfold is_fixnum; lia).
  destruct (Z.ltb_spec (v + u + c) (2 ^ 62)) as [Hlt|Hge].
  - destruct (IH us rest 0 Hvs Hus) as (r & c' & -> & Hr & Hlr & Hc' & Hval); [auto|lia|].
    eexists _, c'; split_and!; [reflexivity|constructor; [split; rewrite ?radix_eq; lia|done]|cbn; lia|done|].
    cbn [digits_value length]. rewrite radix_pow_S, radix_eq. nia.
  - destruct (IH us rest 1 Hvs Hus) as (r & c' & -> & Hr & Hlr & Hc' & Hval); [auto|lia|].
    rewrite s64_id by (unfold is_fixnum; lia).
    eexists _, c'; split_and!; [reflexivity|constructor; [split; rewrite ?radix_eq; lia|done]|cbn; lia|done|].
    cbn [digits_value length]. rewrite radix_pow_S, radix_eq. nia.
Qed.

(** With a guess that is right or one too large, [bignum_divide_subtract]
    returns the quotient digit and leaves the remainder, the digit above it
    becoming zero. *)
Lemma bignum_divide_subtract_spec vs g us utop rest Q :
  digits_ok vs → digits_ok us → digit_ok utop → digit_ok g → length us = length vs →
  0 ≤ Q → exact_quotient (digits_value us + radix_pow (length vs) * utop) (digits_value vs) Q →
  Q ≤ g ≤ Q + 1 →
  ∃ r, bignum_divide_subtract vs g (us ++ utop :: rest) = Ok (Q, r ++ 0 :: rest) ∧
    digits_ok r ∧ length r = length vs ∧
    digits_value r = digits_value us + radix_pow (length vs) * utop - Q * digits_value vs.
Proof.
  intros Hvs Hus Hut Hg Hl HQ0 [HQ1 HQ2] HQg. unfold bignum_divide_subtract.
  pose proof (digits_value_range _ Hvs) as HV. pose proof (digits_value_range _ Hus) as HU.
  rewrite Hl in HU. set (V := digits_value vs) in *. set (P := radix_pow (length vs)) in *.
  assert (0 < P) as HP by apply radix_pow_pos.
  destruct (Z.eqb_spec g 0) as [->|Hg0].
  { assert (Q = 0) as -> by lia. exists us. assert (utop = 0) as ->.
    { unfold digit_ok in *. nia. }
    split_and!; (done || lia). }
  destruct (divide_subtract_loop_spec g Hg vs us (utop :: rest) 0)
    as (r & c & -> & Hr & Hlr & Hc & Hv); [done..|].
  rewrite result_bind_ok. fold V P in Hv. pose proof (digits_value_range _ Hr) as Hrange.
  rewrite Hlr in Hrange. fold P in Hrange. unfold digit_ok in Hut, Hc.
  assert (g = Q ∧ c = utop ∨ g = Q + 1 ∧ c = utop + 1) as [[-> ->]|[-> ->]].
  { assert (g = Q ∨ g = Q + 1) as [-> | ->] by lia; [left|right]; split; try done; nia. }
  - destruct (Z.eqb_spec utop 0) as [->|Hne].
    { exists r. split_and!; (done || lia). }
    rewrite Z.sub_diag. change (s64 0) with 0. cbn [app].
    exists r. split_and!; (done || lia).
  - destruct (Z.eqb_spec (utop + 1) 0); [lia|].
    replace (utop - (utop + 1)) with (-1) by lia. change (s64 (-1)) with (-1).
    change (-1 <? 0) with true. cbv iota.
    destruct (divide_add_back_loop_spec vs r ((-1 +! BIGNUM_RADIX) :: rest) 0)
      as (r' & c' & -> & Hr' & Hlr' & Hc' & Hv'); [done|done|auto|done|].
    rewrite result_bind_ok. pose proof (digits_value_range _ Hr') as Hrange'.
    rewrite Hlr' in Hrange'. fold P V in Hrange', Hv'.
    assert (c' = 1) as -> by (destruct Hc' as [-> | ->]; nia).
    change (1 =? 1) with true. cbv iota.
    change ((-1 +! BIGNUM_RADIX) +! 1) with BIGNUM_RADIX. rewrite Z.ltb_irrefl.
    change (BIGNUM_RADIX -! BIGNUM_RADIX) with 0.
    rewrite s64_id by (unfold is_fixnum, digit_ok in *; rewrite radix_eq in *; lia).
    replace (Q + 1 - 1) with Q by lia. exists r'. split_and!; (done || lia).
Qed.

(** * Guessing a quotient digit *)

(** The double-digit product [guess * v2], by halves. *)
Lemma guess_product v2 g :
  digit_ok v2 → digit_ok g →
  let pl := HD_LOW v2 *! HD_LOW g in
  let ph := (HD_LOW v2 *! HD_HIGH g) +! (HD_HIGH v2 *! HD_LOW g) +! HD_HIGH pl in
  let pl' := HD_CONS (HD_LOW ph) (HD_LOW pl) in
  let ph' := (HD_HIGH v2 *! HD_HIGH g) +! HD_HIGH ph in
  digit_ok pl' ∧ digit_ok ph' ∧ pl' + BIGNUM_RADIX * ph' = g * v2.
Proof.
  intros Hv Hg. cbv zeta.
  pose proof (HD_HIGH_half v2 Hv) as Hvh. pose proof (HD_HIGH_half g Hg) as Hgh.
  destruct (half_product (HD_HIGH v2) (HD_LOW v2) (HD_HIGH g) (HD_LOW g) 0 0
              (HD_LOW v2 * HD_LOW g)
              (HD_LOW v2 * HD_HIGH g + HD_HIGH v2 * HD_LOW g + HD_HIGH (HD_LOW v2 * HD_LOW g)))
    as (Hprod & Hdig & Hcar & Hpl & Hph);
    [auto using HD_LOW_half..|done|done|change (HD_LOW 0) with 0; lia| |].
  { change (HD_HIGH 0) with 0. lia. }
  pose proof (half_mul_bound _ _ (HD_LOW_half v2) (HD_LOW_half g)).
  pose proof (half_mul_bound _ _ (HD_LOW_half v2) Hgh).
  pose proof (half_mul_bound _ _ Hvh (HD_LOW_half g)). pose proof (half_mul_bound _ _ Hvh Hgh).
  pose proof (HD_HIGH_nonneg _ (proj1 Hpl)). pose proof (HD_HIGH_nonneg _ (proj1 Hph)).
  pose proof (proj1 (HD_split v2)) as Sv. pose proof (proj1 (HD_split g)) as Sg.
  rewrite Z.add_0_l, Z.add_0_r, <- Sv, <- Sg in Hprod. clear Sv Sg.
  unfold digit_ok in *. rewrite radix_eq in *. no_overflow lia. lia.
Qed.

(** [U] and [V2] are the leading digits of [W] and [V]. *)
Lemma divide_guess_loop_spec v1 v2 cl U W V g ch :
  let V2 := v1 * BIGNUM_RADIX + v2 in
  digit_ok v1 → digit_ok v2 → digit_ok cl → digit_ok g → 0 ≤ ch < 2 * BIGNUM_RADIX →
  (ch + g * v1) * BIGNUM_RADIX + cl = U →
  (∀ k, U < k * V2 → W < k * V) → W < (g + 1) * V →
  ∃ g', while_loop (divide_guess_body v1 (HD_LOW v2) (HD_HIGH v2) cl) (g, ch) = Ok g' ∧
    digit_ok g' ∧ g' * V2 ≤ U ∧ W < (g' + 1) * V.
Proof.
  intros V2 Hv1 Hv2 Hcl Hg Hch EU Hlead HW. subst V2.
  apply (while_loop_ok _
    (λ '(g, ch), digit_ok g ∧ 0 ≤ ch < 2 * BIGNUM_RADIX ∧
       (ch + g * v1) * BIGNUM_RADIX + cl = U ∧ W < (g + 1) * V) fst);
    [|cbn beta iota; auto|cbn; unfold digit_ok in *; rewrite radix_eq in *; lia].
  clear g ch Hg Hch EU HW. intros [g ch] (Hg & Hch & EU & HW).
  destruct (guess_product v2 g Hv2 Hg) as (Hpl & Hph & Hprod). cbv zeta in *.
  unfold divide_guess_body. cbv zeta.
  set (pl := HD_CONS (HD_LOW _) (HD_LOW _)) in *.
  set (ph := (HD_HIGH v2 *! HD_HIGH g) +! _) in *. clearbody pl ph.
  unfold digit_ok in *. rewrite radix_eq in *.
  destruct ((ph <? ch) || (ch =? ph) && (pl <=? cl)) eqn:Ecmp.
  - assert (g * v2 ≤ ch * 2 ^ 62 + cl) by nia. split_and!; lia.
  - assert (ch * 2 ^ 62 + cl < g * v2) by nia. assert (1 ≤ g) by nia.
    assert (W < g * V) as HWg by (apply Hlead; lia).
    rewrite (s64_id (g - 1)), (s64_id (ch + v1)) by (unfold is_fixnum; nia).
    replace (g - 1 + 1) with g by lia.
    destruct (Z.leb_spec (2 ^ 62) (ch + v1)); cbn [fst]; split_and!; nia.
Qed.

(** Knuth's bound: a guess that is at least the quotient digit, and not above
    the quotient of the leading digits by the two leading digits of a
    normalized divisor, is the quotient digit or one more. *)
Lemma leading_digits_quotient W U W' V V2 V' P g :
  W = U * P + W' → V = V2 * P + V' → 0 ≤ W' < P → 0 ≤ V' < P →
  BIGNUM_RADIX / 2 * BIGNUM_RADIX ≤ V2 → digit_ok g →
  g * V2 ≤ U → W < (g + 1) * V → W / V ≤ g ≤ W / V + 1.
Proof.
  intros EW EV HW' HV' HV2 Hg Hg1 Hg2. unfold digit_ok in Hg. rewrite radix_eq in *.
  change (2 ^ 62 / 2) with (2 ^ 61) in HV2. assert (0 < V) as HV by nia. split.
  - apply Z.lt_succ_r. apply Z.div_lt_upper_bound; [done|]. lia.
  - assert (g - 1 ≤ W / V); [|lia]. apply Z.div_le_lower_bound; [done|]. nia.
Qed.

(** The guess for one quotient digit: [ws] is [length vs + 1] digits of the
    dividend, below [BIGNUM_RADIX] times the divisor. *)
Lemma quotient_guess_spec vs' v2 v1 ws' cl uj1 uj :
  let vs := vs' ++ [v2; v1] in
  let ws := ws' ++ [cl; uj1; uj] in
  digits_ok vs → digits_ok ws → length ws' = length vs' → BIGNUM_RADIX / 2 ≤ v1 →
  digits_value ws < BIGNUM_RADIX * digits_value vs →
  ∃ ch g g',
    (if negb (uj =? v1) then bignum_digit_divide uj uj1 v1
     else Ok (uj1 +! v1, BIGNUM_RADIX -! 1)) = Ok (ch, g) ∧
    while_loop (divide_guess_body v1 (HD_LOW v2) (HD_HIGH v2) cl) (g, ch) = Ok g' ∧
    digit_ok g' ∧
    digits_value ws / digits_value vs ≤ g' ≤ digits_value ws / digits_value vs + 1.
Proof.
  intros vs ws Hvs Hws Hl Hnorm Hlt. subst vs ws.
  apply Forall_app in Hvs as [Hvs' Hv], Hws as [Hws' Hw].
  apply Forall_cons in Hv as [Hv2 Hv], Hw as [Hcl Hw].
  apply Forall_cons in Hv as [Hv1 _], Hw as [Huj1 Hw]. apply Forall_cons in Hw as [Huj _].
  rewrite !digits_value_app, Hl in *. cbn [digits_value] in *.
  apply digits_value_range in Hvs', Hws'. rewrite Hl in Hws'.
  set (P := radix_pow (length vs')) in *. set (V' := digits_value vs') in *.
  set (W' := digits_value ws') in *. rewrite Z.mul_0_r, !Z.add_0_r in *.
  set (V := V' + P * (v2 + BIGNUM_RADIX * v1)) in *.
  set (U := uj * BIGNUM_RADIX * BIGNUM_RADIX + uj1 * BIGNUM_RADIX + cl) in *.
  set (W := W' + P * (cl + BIGNUM_RADIX * (uj1 + BIGNUM_RADIX * uj))) in *.
  set (V2 := v1 * BIGNUM_RADIX + v2).
  assert (W = U * P + W') as EW by lia. assert (V = V2 * P + V') as EV by lia.
  assert (∀ k, U < k * V2 → W < k * V) as Hlead.
  { intros k Hk. assert (0 ≤ k) by (subst U V2; unfold digit_ok in *; rewrite radix_eq in *; nia).
    nia. }
  assert (uj ≤ v1) as Huv.
  { assert (¬ (v1 + 1 ≤ uj)); [|lia]. intros Hge.
    subst U V2 W V. unfold digit_ok in *. rewrite radix_eq in *. nia. }
  assert (∃ ch g, (if negb (uj =? v1) then bignum_digit_divide uj uj1 v1
                   else Ok (uj1 +! v1, BIGNUM_RADIX -! 1)) = Ok (ch, g) ∧
            digit_ok g ∧ 0 ≤ ch < 2 * BIGNUM_RADIX ∧
            (ch + g * v1) * BIGNUM_RADIX + cl = U ∧ W < (g + 1) * V)
    as (ch & g & Eg & Hg & Hch & EU & HWg).
  { destruct (Z.eqb_spec uj v1) as [->|Hne]; cbn [negb].
    - eexists _, _; split; [reflexivity|]. subst U V2. unfold digit_ok in *. rewrite radix_eq in *.
      no_overflow lia. split_and!; lia.
    - destruct (bignum_digit_divide_spec uj uj1 v1) as (r & q & -> & Hq & Hqr & Hr);
        [unfold digit_ok in *; lia..|].
      exists r, q. split; [done|]. split; [done|]. subst U V2. unfold digit_ok in *.
      rewrite radix_eq in *. split_and!; [lia..|nia|]. apply Hlead. nia. }
  destruct (divide_guess_loop_spec v1 v2 cl U W V g ch) as (g' & Eg' & Hg' & HgU & HgW);
    [done..|].
  exists ch, g, g'. split_and!; try done;
    apply (leading_digits_quotient W U W' V V2 V' P g'); try done;
    subst V2; unfold digit_ok in *; rewrite radix_eq in *; nia.
Qed.
