(* ===== verification/BignumDivide.v ===== *)
(** Correctness of bignum division (vm/bignum.cpp): algorithm D over all
    quotient digits, normalization, and the signed operations. *)

From S2P Require Import Prelude.
From S2P Require Import Arrays.
From S2P Require Import Bignum.
From S2P Require Import BignumDiv.
From S2P Require Import BignumKnuthD.
Local Open Scope fixnum_scope.

(** * The loop over the quotient digits *)

(** A list of [k + 1] elements is [k] elements and a last one. *)
Lemma list_snoc_length {A} (l : list A) k :
  length l = S k → ∃ l' x, l = l' ++ [x] ∧ length l' = k.
Proof.
  intros Hl. destruct l as [|x l _] using rev_ind; [done|].
  exists l, x. rewrite length_app in Hl. cbn in Hl. split; [done|lia].
Qed.

Lemma read_middle {A} (l a b : list A) x i : l = a ++ x :: b → length a = i → read l i = Ok x.
Proof. intros -> <-. apply read_Ok. by apply list_lookup_middle. Qed.

Lemma digits_value_tl ds V :
  digits_ok ds → digits_value (drop 1 ds) < V → digits_value ds < BIGNUM_RADIX * V.
Proof.
  destruct 1 as [|d ds [? ?] ?]; cbn [drop digits_value]; rewrite ?drop_0, radix_eq in *; lia.
Qed.

(** One quotient digit: [n] low digits of the dividend are left alone. *)
Lemma divide_normalized_step vs' v2 v1 lo ws' cl uj1 uj hi qs :
  let vs := vs' ++ [v2; v1] in
  let ws := ws' ++ [cl; uj1; uj] in
  let n := length lo in
  digits_ok vs → digits_ok ws → length ws' = length vs' → BIGNUM_RADIX / 2 ≤ v1 →
  digits_value ws < BIGNUM_RADIX * digits_value vs →
  ∃ r, divide_normalized_loop vs v1 v2 (S n) (lo ++ ws ++ hi) qs =
         divide_normalized_loop vs v1 v2 n (lo ++ r ++ 0 :: hi)
           (digits_value ws / digits_value vs :: qs) ∧
    digits_ok r ∧ length r = length vs ∧ digit_ok (digits_value ws / digits_value vs) ∧
    digits_value r = digits_value ws mod digits_value vs.
Proof.
  intros vs ws n Hvs Hws Hl Hnorm Hlt. cbn [divide_normalized_loop].
  assert (length vs = S (S (length vs'))) as Hlv by (unfold vs; rewrite length_app; cbn; lia).
  assert (read (lo ++ ws ++ hi) (n + length vs) = Ok uj) as ->.
  { apply (read_middle _ (lo ++ ws' ++ [cl; uj1]) (hi)); [unfold ws; by rewrite <- !app_assoc|rewrite !length_app; cbn; lia]. }
  assert (read (lo ++ ws ++ hi) (n + length vs - 1) = Ok uj1) as ->.
  { apply (read_middle _ (lo ++ ws' ++ [cl]) (uj :: hi)); [unfold ws; by rewrite <- !app_assoc|rewrite !length_app; cbn; lia]. }
  assert (read (lo ++ ws ++ hi) (n + length vs - 2) = Ok cl) as ->.
  { apply (read_middle _ (lo ++ ws') (uj1 :: uj :: hi)); [unfold ws; by rewrite <- !app_assoc|rewrite !length_app; cbn; lia]. }
  rewrite !result_bind_ok.
  destruct (quotient_guess_spec vs' v2 v1 ws' cl uj1 uj Hvs Hws Hl Hnorm Hlt)
    as (ch & g & g' & -> & Eg & Hg' & HQ).
  cbn beta iota. rewrite result_bind_ok, Eg, result_bind_ok. clear Eg. fold vs ws in HQ.
  pose proof (digits_value_nonneg _ Hws) as HW0.
  assert (0 < digits_value vs) as HV by (pose proof (digits_value_nonneg _ Hvs); rewrite radix_eq in *; lia).
  pose proof (Z.div_mod (digits_value ws) (digits_value vs) ltac:(lia)) as Hdm.
  pose proof (Z.mod_pos_bound (digits_value ws) (digits_value vs) HV) as Hmb.
  set (Q := digits_value ws / digits_value vs) in *.
  assert (0 ≤ Q < BIGNUM_RADIX) as HQd
    by (split; [by apply Z.div_pos|apply Z.div_lt_upper_bound; lia]).
  assert (ws = (ws' ++ [cl; uj1]) ++ [uj]) as Ews by (unfold ws; by rewrite <- app_assoc).
  assert (digits_ok (ws' ++ [cl; uj1]) ∧ digit_ok uj) as [Hus Huj].
  { apply digits_ok_snoc. by rewrite <- Ews. }
  assert (length (ws' ++ [cl; uj1]) = length vs) as Hlus by (rewrite length_app; cbn; lia).
  assert (digits_value (ws' ++ [cl; uj1]) + radix_pow (length vs) * uj = digits_value ws) as EW.
  { rewrite Ews, (digits_value_app (ws' ++ [cl; uj1]) [uj]), Hlus. cbn [digits_value]. lia. }
  unfold n. rewrite drop_app_length, take_app_length, Ews, <- app_assoc. cbn [app].
  destruct (bignum_divide_subtract_spec vs g' (ws' ++ [cl; uj1]) uj hi Q) as (r & -> & Hr & Hlr & Hval);
    try (done || lia).
  { rewrite EW. unfold exact_quotient. nia. }
  exists r. cbn beta iota. rewrite <- Ews. split_and!; try done. lia.
Qed.

Lemma divide_normalized_loop_spec vs' v2 v1 :
  let vs := vs' ++ [v2; v1] in
  digits_ok vs → BIGNUM_RADIX / 2 ≤ v1 → ∀ n lo hi qs,
  digits_ok lo → length lo = (n + length vs)%nat →
  digits_value (drop n lo) < digits_value vs →
  ∃ r qs', divide_normalized_loop vs v1 v2 n (lo ++ hi) qs =
             Ok (r ++ replicate n 0 ++ hi, qs' ++ qs) ∧
    digits_ok r ∧ digits_ok qs' ∧ length qs' = n ∧ length r = length vs ∧
    digits_value lo = digits_value qs' * digits_value vs + digits_value r ∧
    digits_value r < digits_value vs.
Proof.
  intros vs Hvs Hnorm.
  assert (length vs = S (S (length vs'))) as Hlv by (unfold vs; rewrite length_app; cbn; lia).
  induction n as [|n IH]; intros lo hi qs Hlo Hl Hlt.
  { exists lo, []. cbn. rewrite drop_0 in Hlt. split_and!; (done || lia). }
  assert (∃ lo' ws' cl uj1 uj, lo = lo' ++ ws' ++ [cl; uj1; uj] ∧ length lo' = n ∧
            length ws' = length vs') as (lo' & ws' & cl & uj1 & uj & -> & <- & Hlw).
  { destruct (list_snoc_length (drop n lo) (S (S (length vs')))) as (l1 & uj & E1 & Hl1);
      [rewrite length_drop; lia|].
    destruct (list_snoc_length l1 (S (length vs'))) as (l2 & uj1 & -> & Hl2); [lia|].
    destruct (list_snoc_length l2 (length vs')) as (l3 & cl & -> & Hl3); [lia|].
    exists (take n lo), l3, cl, uj1, uj. rewrite length_take. split_and!; [|lia|done].
    rewrite <- (take_drop n lo) at 1. f_equal. by rewrite E1, <- !app_assoc. }
  apply Forall_app in Hlo as [Hlo' Hws].
  set (ws := ws' ++ [cl; uj1; uj]) in *.
  assert (digits_value ws < BIGNUM_RADIX * digits_value vs) as Hlt'.
  { rewrite drop_app, (drop_ge lo') in Hlt by lia.
    replace (S (length lo') - length lo')%nat with 1%nat in Hlt by lia.
    by apply digits_value_tl. }
  rewrite <- app_assoc.
  destruct (divide_normalized_step vs' v2 v1 lo' ws' cl uj1 uj hi qs Hvs Hws Hlw Hnorm Hlt')
    as (r & Estep & Hr & Hlr & HQ & Hval). fold vs ws in Estep, Hlr, HQ, Hval. rewrite Estep.
  assert (0 < digits_value vs) as HV
    by (pose proof (digits_value_nonneg _ Hvs); pose proof (digits_value_nonneg _ Hws); rewrite radix_eq in *; lia).
  pose proof (Z.mod_pos_bound (digits_value ws) (digits_value vs) HV).
  destruct (IH (lo' ++ r) (0 :: hi) (digits_value ws / digits_value vs :: qs))
    as (r' & qs' & E & Hr' & Hqs' & Hlq & Hlr' & Hv' & Hlt'').
  { by apply Forall_app. }
  { rewrite length_app. lia. }
  { rewrite drop_app_length. lia. }
  exists r', (qs' ++ [digits_value ws / digits_value vs]).
  rewrite app_assoc, E, <- app_assoc. split_and!; try done.
  - do 2 f_equal. replace (S (length lo')) with (length lo' + 1)%nat by lia.
    by rewrite replicate_add, <- !app_assoc.
  - apply Forall_app. split; [done|]. by apply Forall_singleton.
  - rewrite length_app. cbn. lia.
  - rewrite !digits_value_app in *. cbn [digits_value]. rewrite Hlq.
    pose proof (Z.div_mod (digits_value ws) (digits_value vs) ltac:(lia)). rewrite Hval in Hv'. nia.
Qed.

(** * Normalization *)

Lemma normalize_shift_spec v :
  0 < v < BIGNUM_RADIX →
  ∃ s, while_loop normalize_shift_body (v, 0) = Ok (v * 2 ^ s, s) ∧
    0 ≤ s < 62 ∧ BIGNUM_RADIX / 2 ≤ v * 2 ^ s < BIGNUM_RADIX.
Proof.
  intros Hv.
  destruct (while_loop_ok normalize_shift_body
    (λ '(w, s), w = v * 2 ^ s ∧ 0 ≤ s < 62 ∧ 0 < w < BIGNUM_RADIX)
    (λ '(w, s), BIGNUM_RADIX - w)
    (λ '(w, s), w = v * 2 ^ s ∧ 0 ≤ s < 62 ∧ BIGNUM_RADIX / 2 ≤ w < BIGNUM_RADIX) (v, 0))
    as ([w s] & E & -> & Hs & Hw); rewrite radix_eq in *.
  - intros [w s] (Ew & Hs & Hw). unfold normalize_shift_body. rewrite radix_eq.
    change (2 ^ 62 `quot` 2) with (2 ^ 61). change (2 ^ 62 / 2) with (2 ^ 61).
    destruct (Z.ltb_spec w (2 ^ 61)) as [Hlt|Hge]; [|split_and!; (done || lia)].
    rewrite Z.shiftl_mul_pow2 by lia. rewrite s64_id by (unfold is_fixnum; lia).
    assert (w * 2 ^ 1 = v * 2 ^ (s + 1)) as Ew' by (rewrite Z.pow_add_r by lia; lia).
    split_and!; try lia. assert (s + 1 ≠ 62); [|lia].
    intros E. rewrite E in Ew'. lia.
  - cbn. lia.
  - lia.
  - eauto.
Qed.

Lemma normalization_loop_spec s ds : ∀ c,
  0 < s < 62 → digits_ok ds → 0 ≤ c < 2 ^ s →
  ∃ r c', normalization_loop s ds c = (r, c') ∧ digits_ok r ∧ length r = length ds ∧
    0 ≤ c' < 2 ^ s ∧
    digits_value r + radix_pow (length ds) * c' = digits_value ds * 2 ^ s + c.
Proof.
  intros c Hs Hds. revert c. induction Hds as [|d ds Hd Hds IH]; intros c Hc.
  { exists [], c. cbn. split_and!; (done || lia). }
  cbn [normalization_loop]. change BIGNUM_DIGIT_LENGTH with 62.
  destruct (digit_cut s d ltac:(lia) Hd) as (Hp & Hh & Hl & Ed).
  rewrite Z.shiftr_div_pow2, Z.shiftl_1_l, land_ones_mod by lia.
  destruct (IH (d / 2 ^ (62 - s)) Hh) as (r & c' & -> & Hr & Hlr & Hc' & Hval).
  rewrite s64_id by (unfold is_fixnum; rewrite Z.shiftl_mul_pow2 by lia; nia).
  rewrite lor_shiftl_add by lia.
  eexists _, c'. split_and!; [reflexivity| |cbn; lia|lia..|].
  - constructor; [|done]. split; rewrite ?radix_eq; nia.
  - cbn [digits_value length]. rewrite radix_pow_S, radix_eq in *. nia.
Qed.

Lemma unnormalization_loop_spec s ds : ∀ c,
  0 < s < 62 → digits_ok ds → 0 ≤ c < 2 ^ s →
  ∃ r c', unnormalization_loop s ds (c * 2 ^ (62 - s)) = (r, c' * 2 ^ (62 - s)) ∧
    digits_ok r ∧ length r = length ds ∧ 0 ≤ c' < 2 ^ s ∧
    2 ^ s * digits_value (rev r) + c' = radix_pow (length ds) * c + digits_value (rev ds).
Proof.
  intros c Hs Hds. revert c. induction Hds as [|d ds Hd Hds IH]; intros c Hc.
  { exists [], c. cbn. split_and!; (done || lia). }
  cbn [unnormalization_loop]. change BIGNUM_DIGIT_LENGTH with 62.
  destruct (digit_cut (62 - s) d ltac:(lia) Hd) as (Hp & Hh & Hl & Ed).
  replace (62 - (62 - s)) with s in * by lia.
  rewrite Z.shiftr_div_pow2, Z.shiftl_1_l, land_ones_mod by lia.
  rewrite Z.shiftl_mul_pow2 by lia.
  rewrite (s64_id (d mod _ * _)) by (unfold is_fixnum; nia).
  destruct (IH (d mod 2 ^ s) Hl) as (r & c' & -> & Hr & Hlr & Hc' & Hval).
  rewrite Z.lor_comm, <- Z.shiftl_mul_pow2, lor_shiftl_add by lia.
  eexists _, c'. split_and!; [reflexivity| |cbn; lia|lia..|].
  - constructor; [|done]. split; rewrite ?radix_eq; nia.
  - cbn [rev length]. rewrite !digits_value_app, !length_rev, Hlr. cbn [digits_value].
    rewrite radix_pow_S, radix_eq in *. nia.
Qed.

Lemma bignum_destructive_normalization_spec source target s :
  0 < s < 62 → digits_ok (bn_digits source) →
  (BIGNUM_LENGTH target = S (BIGNUM_LENGTH source) ∨
   BIGNUM_LENGTH target = BIGNUM_LENGTH source ∧
   digits_value (bn_digits source) * 2 ^ s < radix_pow (BIGNUM_LENGTH source)) →
  ∃ r, bignum_destructive_normalization source target s = Ok (mk_bignum (bn_negative target) r) ∧
    digits_ok r ∧ length r = BIGNUM_LENGTH target ∧
    digits_value r = digits_value (bn_digits source) * 2 ^ s.
Proof.
  destruct source as [ns ds], target as [nt ts]. unfold bignum_destructive_normalization, BIGNUM_LENGTH.
  cbn [bn_negative bn_digits]. intros Hs Hds Hl.
  assert (0 < 2 ^ s) by (apply Z.pow_pos_nonneg; lia).
  assert (2 ^ s < BIGNUM_RADIX) by (rewrite radix_eq; apply Z.pow_lt_mono_r; lia).
  destruct (normalization_loop_spec s ds 0 Hs Hds ltac:(lia)) as (r & c & -> & Hr & Hlr & Hc & Hval).
  destruct Hl as [Hl|[Hl Hlt]].
  - destruct (Nat.ltb_spec (length r) (length ts)); [|lia].
    destruct (list_snoc_length ts (length r)) as (ts' & t & -> & Hlt'); [lia|].
    rewrite list_inserts_0_r, insert_app_r_alt, Nat.sub_diag by lia. cbn.
    exists (r ++ [c]). split_and!; [done|apply digits_ok_snoc; split; [done|split; lia]|rewrite !length_app; cbn; lia|].
    rewrite digits_value_app, Hlr. cbn [digits_value]. lia.
  - destruct (Nat.ltb_spec (length r) (length ts)); [lia|].
    pose proof (digits_value_nonneg _ Hr). pose proof (radix_pow_pos (length ds)).
    assert (c = 0) as -> by nia. cbn. exists r. rewrite list_inserts_all by lia.
    split_and!; (done || lia).
Qed.

Lemma bignum_destructive_unnormalization_spec neg ds s V :
  0 < s < 62 → digits_ok ds → digits_value ds = V * 2 ^ s →
  ∃ r, bignum_destructive_unnormalization (mk_bignum neg ds) s = Ok (mk_bignum neg r) ∧
    digits_ok r ∧ length r = length ds ∧ digits_value r = V.
Proof.
  intros Hs Hds HV. unfold bignum_destructive_unnormalization. cbn [bn_negative bn_digits].
  assert (0 < 2 ^ s) by (apply Z.pow_pos_nonneg; lia).
  destruct (unnormalization_loop_spec s (rev ds) 0 Hs) as (r & c & E & Hr & Hlr & Hc & Hval);
    [by apply Forall_rev|lia|]. rewrite Z.mul_0_l in E. rewrite E.
  rewrite rev_involutive, HV in Hval. assert (digits_value (rev r) = V) as Hr' by nia.
  assert (c = 0) as -> by nia.
  exists (rev r). rewrite length_rev, Hlr, length_rev. cbn.
  by split_and!; [|apply Forall_rev| |].
Qed.

(** * Division of digit strings *)

Lemma bignum_divide_unsigned_normalized_spec nu us vs' v2 v1 nv q :
  let vs := vs' ++ [v2; v1] in
  let n := (length us - length vs)%nat in
  digits_ok us → digits_ok vs → BIGNUM_RADIX / 2 ≤ v1 → (length vs ≤ length us)%nat →
  digits_value (drop n us) < digits_value vs →
  (∀ q0, q = Some q0 → BIGNUM_LENGTH q0 = n) →
  ∃ r qs, bignum_divide_unsigned_normalized (mk_bignum nu us) (mk_bignum nv vs) q =
            Ok (mk_bignum nu r, q ← q; Some (mk_bignum (bn_negative q) qs)) ∧
    digits_ok r ∧ digits_ok qs ∧ length r = length us ∧ length qs = n ∧
    digits_value us = digits_value qs * digits_value vs + digits_value r ∧
    digits_value r < digits_value vs.
Proof.
  intros vs n Hus Hvs Hnorm Hl Hlt Hq. unfold bignum_divide_unsigned_normalized, BIGNUM_LENGTH.
  cbn [bn_negative bn_digits].
  rewrite (read_middle vs (vs' ++ [v2]) [] v1 (length vs - 1)), (read_middle vs vs' [v1] v2 (length vs - 2)), !result_bind_ok;
    try (unfold vs; rewrite <- ?app_assoc, ?length_app; cbn; done || lia).
  fold n. destruct (divide_normalized_loop_spec vs' v2 v1 Hvs Hnorm n us [] []) as
    (r & qs & E & Hr & Hqs & Hlq & Hlr & Hval & Hlt'); [done|unfold n; fold vs; lia|done|].
  fold vs in E. rewrite !app_nil_r in E. rewrite E, result_bind_ok. clear E.
  exists (r ++ replicate n 0), qs. fold vs in Hlr, Hval, Hlt'.
  rewrite digits_value_app, digits_value_replicate_0, Z.mul_0_r, Z.add_0_r.
  split_and!; try done.
  - destruct q as [q0|]; [|done]. specialize (Hq q0 eq_refl). unfold BIGNUM_LENGTH in Hq. cbn.
    rewrite Hq, Hlq, Nat.sub_diag, list_inserts_all by lia. done.
  - apply Forall_app. split; [done|]. apply Forall_replicate. by split.
  - rewrite length_app, length_replicate. unfold n. lia.
Qed.

Lemma leading_digits_lt us n V :
  digits_ok us → (n ≤ length us)%nat → digits_value us < radix_pow n * V →
  digits_value (drop n us) < V.
Proof.
  intros Hus Hn Hlt. rewrite <- (take_drop n us) in Hus, Hlt.
  apply Forall_app in Hus as [Ht Hd]. rewrite digits_value_app, length_take_le in Hlt by done.
  pose proof (digits_value_nonneg _ Ht). pose proof (radix_pow_pos n). nia.
Qed.

(** Division of [N 2^s] by [D 2^s]. *)
Lemma scaled_division N D s q r :
  0 ≤ s → 0 < D → N * 2 ^ s = q * (D * 2 ^ s) + r → 0 ≤ r < D * 2 ^ s →
  q = N / D ∧ r = N mod D * 2 ^ s.
Proof.
  intros Hs HD E Hr. assert (0 < 2 ^ s) by (apply Z.pow_pos_nonneg; lia).
  rewrite <- (Z.div_mul_cancel_r N D (2 ^ s)), <- Z.mul_mod_distr_r by lia. split.
  - apply (Z.div_unique_pos _ _ _ r); lia.
  - apply (Z.mod_unique_pos _ _ q); lia.
Qed.

(** The divisor shifted so that its leading digit is at least half the radix. *)
Lemma scaled_divisor ds' d s :
  digits_ok (ds' ++ [d]) → 0 ≤ s < 62 → BIGNUM_RADIX / 2 ≤ d * 2 ^ s < BIGNUM_RADIX →
  BIGNUM_RADIX / 2 * radix_pow (length ds') ≤ digits_value (ds' ++ [d]) * 2 ^ s
    < BIGNUM_RADIX * radix_pow (length ds').
Proof.
  intros Hds Hs Hd. apply digits_ok_snoc in Hds as [Hds' _].
  rewrite digits_value_app. cbn [digits_value]. rewrite Z.mul_0_r, Z.add_0_r.
  pose proof (digits_value_range _ Hds'). pose proof (radix_pow_pos (length ds')).
  rewrite radix_eq in *. change (2 ^ 62 / 2) with (2 ^ 61) in *.
  set (P := (2 ^ 62) ^ Z.of_nat (length ds')) in *.
  assert (0 < 2 ^ s) by (apply Z.pow_pos_nonneg; lia).
  assert (2 ^ 62 = 2 ^ s * 2 ^ (62 - s)) as Hp by (rewrite <- Z.pow_add_r by lia; f_equal; lia).
  assert ((d + 1) * 2 ^ s ≤ 2 ^ 62) by (assert (d + 1 ≤ 2 ^ (62 - s)) by nia; nia).
  split; nia.
Qed.

Lemma leading_digit_half vs' v1 :
  digits_ok (vs' ++ [v1]) →
  BIGNUM_RADIX / 2 * radix_pow (length vs') ≤ digits_value (vs' ++ [v1]) →
  BIGNUM_RADIX / 2 ≤ v1.
Proof.
  intros Hvs Hv. apply digits_ok_snoc in Hvs as [Hvs' _]. rewrite digits_value_app in Hv.
  cbn [digits_value] in Hv. pose proof (digits_value_range _ Hvs'). nia.
Qed.

(** Knuth's algorithm on a dividend and a divisor both scaled by [2^s]. *)
Lemma scaled_divide_spec nu us nv vs q N D s :
  digits_ok us → digits_ok vs → (2 ≤ length vs)%nat → (length vs < length us)%nat →
  0 ≤ s → digits_value us = N * 2 ^ s → digits_value vs = D * 2 ^ s →
  BIGNUM_RADIX / 2 * radix_pow (length vs - 1) ≤ digits_value vs →
  radix_pow (length vs - 1) ≤ D → N < radix_pow (length us - 1) →
  (∀ q0, q = Some q0 → BIGNUM_LENGTH q0 = (length us - length vs)%nat) →
  ∃ r qs, bignum_divide_unsigned_normalized (mk_bignum nu us) (mk_bignum nv vs) q =
            Ok (mk_bignum nu r, q ← q; Some (mk_bignum (bn_negative q) qs)) ∧
    digits_ok r ∧ digits_ok qs ∧ length r = length us ∧ length qs = (length us - length vs)%nat ∧
    digits_value qs = N / D ∧ digits_value r = N mod D * 2 ^ s.
Proof.
  intros Hus Hvs Hlv Hlu Hs Eus Evs Hhalf HD HN Hq.
  assert (0 < 2 ^ s) by (apply Z.pow_pos_nonneg; lia).
  destruct (list_snoc_length vs (length vs - 1)) as (vs1 & v1 & E1 & Hl1); [lia|].
  destruct (list_snoc_length vs1 (length vs - 2)) as (vs' & v2 & -> & Hl2); [lia|].
  rewrite <- app_assoc in E1. cbn in E1.
  assert (BIGNUM_RADIX / 2 ≤ v1) as Hv1.
  { apply (leading_digit_half (vs' ++ [v2])); rewrite ?Hl1, <- app_assoc; cbn [app]; by rewrite <- E1. }
  subst vs. pose proof (radix_pow_pos (length (vs' ++ [v2; v1]) - 1)).
  destruct (bignum_divide_unsigned_normalized_spec nu us vs' v2 v1 nv q) as
    (r & qs & E & Hr & Hqs & Hlr & Hlq & Hval & Hlt); try (done || lia).
  { apply leading_digits_lt; [done|lia|]. rewrite Eus, Evs.
    replace (length us - 1)%nat with
      (length us - length (vs' ++ [v2; v1]) + (length (vs' ++ [v2; v1]) - 1))%nat in HN by lia.
    rewrite radix_pow_add in HN. pose proof (radix_pow_pos (length us - length (vs' ++ [v2; v1]))).
    rewrite Z.mul_assoc. apply Z.mul_lt_mono_pos_r; [done|]. eapply Z.lt_le_trans; [done|].
    apply Z.mul_le_mono_nonneg_l; lia. }
  exists r, qs. rewrite Eus, Evs in Hval. rewrite Evs in Hlt.
  destruct (scaled_division N D s (digits_value qs) (digits_value r)); try (done || lia).
  split; [by apply digits_value_nonneg|done].
Qed.

Lemma divide_medium_loop_spec d ds : ∀ r,
  BIGNUM_RADIX / 2 ≤ d < BIGNUM_RADIX → digits_ok ds → 0 ≤ r < d →
  ∃ qs r', divide_medium_loop d ds r = Ok (qs, r') ∧ digits_ok qs ∧ length qs = length ds ∧
    0 ≤ r' < d ∧
    radix_pow (length ds) * r + digits_value (rev ds) = digits_value (rev qs) * d + r'.
Proof.
  intros r Hd Hds. revert r. induction Hds as [|x ds Hx Hds IH]; intros r Hr.
  { exists [], r. cbn. split_and!; (done || lia). }
  cbn [divide_medium_loop].
  destruct (bignum_digit_divide_spec r x d Hd Hr Hx) as (r1 & q & -> & Hq & E & Hr1).
  cbn beta iota. rewrite result_bind_ok.
  destruct (IH r1 Hr1) as (qs & r' & -> & Hqs & Hl & Hr' & Hval). rewrite result_bind_ok.
  exists (q :: qs), r'. split_and!; try (done || lia).
  - by constructor.
  - cbn. lia.
  - cbn [rev length]. rewrite !digits_value_app, !length_rev, Hl. cbn [digits_value].
    rewrite radix_pow_S. nia.
Qed.

(** Half a digit of the quotient by a small divisor. *)
Lemma half_division a h d :
  1 < d < BIGNUM_RADIX_ROOT → 0 ≤ a < d → half_ok h →
  ∃ q r, HD_CONS a h `quot` d = q ∧ HD_CONS a h `rem` d = r ∧
    half_ok q ∧ 0 ≤ r < d ∧ root * a + h = d * q + r.
Proof.
  intros Hd Ha Hh. assert (half_ok a) as Hah by (unfold half_ok in *; lia).
  destruct (HD_CONS_digit a h Hah Hh) as [-> _]. unfold half_ok in *.
  rewrite Z.quot_div_nonneg, Z.rem_mod_nonneg by (rewrite root_eq in *; lia).
  eexists _, _. split_and!; [done|done|apply Z.div_pos; rewrite ?root_eq in *; lia|
    apply Z.div_lt_upper_bound; rewrite ?root_eq in *; nia|apply Z.mod_pos_bound; lia..|
    apply Z.div_mod; lia].
Qed.

Lemma scale_down_loop_cons d x ds r :
  scale_down_loop d (x :: ds) r =
    let '(qs, r') :=
      scale_down_loop d ds (HD_CONS (HD_CONS r (HD_HIGH x) `rem` d) (HD_LOW x) `rem` d) in
    (HD_CONS (HD_CONS r (HD_HIGH x) `quot` d)
       (HD_CONS (HD_CONS r (HD_HIGH x) `rem` d) (HD_LOW x) `quot` d) :: qs, r').
Proof. reflexivity. Qed.

Lemma scale_down_loop_spec d ds : ∀ r,
  1 < d < BIGNUM_RADIX_ROOT → digits_ok ds → 0 ≤ r < d →
  ∃ qs r', scale_down_loop d ds r = (qs, r') ∧ digits_ok qs ∧ length qs = length ds ∧
    0 ≤ r' < d ∧
    radix_pow (length ds) * r + digits_value (rev ds) = digits_value (rev qs) * d + r'.
Proof.
  intros r Hd Hds. revert r. induction Hds as [|x ds Hx Hds IH]; intros r Hr.
  { exists [], r. cbn. split_and!; (done || lia). }
  rewrite scale_down_loop_cons. destruct (HD_split x) as [Ex _].
  destruct (half_division r (HD_HIGH x) d Hd Hr (HD_HIGH_half x Hx)) as (q1 & r1 & -> & -> & Hq1 & Hr1 & E1).
  destruct (half_division r1 (HD_LOW x) d Hd Hr1 (HD_LOW_half x)) as (q2 & r2 & -> & -> & Hq2 & Hr2 & E2).
  destruct (IH r2 Hr2) as (qs & r' & -> & Hqs & Hl & Hr' & Hval).
  destruct (HD_CONS_digit _ _ Hq1 Hq2) as [Eq Hq].
  eexists _, r'. split_and!; [reflexivity|by constructor|cbn; lia|lia..|].
  cbn [rev length]. rewrite !digits_value_app, !length_rev, Hl. cbn [digits_value].
  rewrite Eq, Z.mul_0_r, !Z.add_0_r, radix_pow_S.
  set (P := radix_pow (length ds)) in *. clearbody P. rewrite radix_root, Ex.
  replace (HD_HIGH x) with (d * q1 + r1 - root * r) by lia.
  replace (HD_LOW x) with (d * q2 + r2 - root * r1) by lia.
  replace (digits_value (rev ds)) with (digits_value (rev qs) * d + r' - P * r2) by lia.
  ring.
Qed.

Lemma remainder_small_loop_eq d ds r :
  remainder_small_loop d r ds = (scale_down_loop d ds r).2.
Proof.
  revert r. induction ds as [|x ds IH]; intros r; [done|].
  rewrite scale_down_loop_cons. cbn [remainder_small_loop]. rewrite IH.
  by destruct (scale_down_loop _ ds _).
Qed.

Section div_spec.
Context `{!alloc_env Z}.

(** What a division routine is asked for and returns. *)
Definition divides_to (res : result (option bignum * option bignum)) (want_q want_r : bool)
    (q r : Z) : Prop :=
  ∃ qb rb, res = Ok (if want_q then Some qb else None, if want_r then Some rb else None) ∧
    (want_q = true → denotes qb q) ∧ (want_r = true → denotes rb r).

Lemma divide_large_shifted_spec ns ds' d sn sd qn rn q wr s :
  let ds := ds' ++ [d] in
  let N := digits_value ns in
  let D := digits_value ds in
  let num := mk_bignum sn ns in
  let den := mk_bignum sd ds in
  digits_ok ns → digits_ok ds → d ≠ 0 → (2 ≤ length ds ≤ length ns)%nat → 0 ≤ s < 62 →
  BIGNUM_RADIX / 2 ≤ d * 2 ^ s < BIGNUM_RADIX →
  (∀ q0, q = Some q0 → bn_negative q0 = qn ∧ BIGNUM_LENGTH q0 = (S (length ns) - length ds)%nat) →
  ∃ u qs, divide_large_shifted num den (allot_bignum (length ns + 1) rn) q wr s =
            Ok (mk_bignum rn u, q ← q; Some (mk_bignum qn qs)) ∧
    digits_ok u ∧ digits_ok qs ∧ length u = S (length ns) ∧ qs ≠ [] ∧
    digits_value qs = N / D ∧ (wr = true → digits_value u = N mod D).
Proof.
  intros ds N D num den HN HD Hd0 Hl Hs Hd Hq. unfold divide_large_shifted.
  pose proof (digits_value_range _ HN) as HNr. fold N in HNr.
  assert (length ds - 1 = length ds')%nat as Hld by (unfold ds; rewrite length_app; cbn; lia).
  assert (radix_pow (length ds - 1) ≤ D) as HDlow.
  { apply normalized_lower_bound; [done|by apply normalized_snoc|]. intros E. rewrite E in Hl. cbn in Hl. lia. }
  destruct (scaled_divisor ds' d s) as [Hhalf Htop]; [done|lia|done|].
  fold ds in Hhalf, Htop. fold D in Hhalf, Htop. rewrite <- Hld in Hhalf, Htop.
  rewrite <- radix_pow_S in Htop. replace (S (length ds - 1)) with (length ds) in Htop by lia.
  assert (∀ q0, q = Some q0 → BIGNUM_LENGTH q0 = (S (length ns) - length ds)%nat) as Hlq
    by (intros q0 E; by apply Hq).
  assert (∀ qs, q ≫= (λ q, Some (mk_bignum (bn_negative q) qs)) =
                q ≫= (λ q, Some (mk_bignum qn qs))) as Hqneg.
  { intros qs. destruct q as [q0|]; [|done]. cbn. by destruct (Hq q0 eq_refl) as [-> _]. }
  destruct (Z.eqb_spec s 0) as [->|Hs0].
  - unfold bignum_destructive_copy, BIGNUM_LENGTH. cbn [bn_negative bn_digits num den].
    rewrite allot_bignum_write_init by done. cbn [allot_bignum bn_negative].
    rewrite Nat.add_sub, write_Ok by (rewrite length_app; cbn; lia). rewrite result_bind_ok.
    rewrite insert_app_r_alt, Nat.sub_diag by done. cbn [list_insert insert].
    rewrite Z.mul_1_r in Hhalf.
    destruct (scaled_divide_spec rn (ns ++ [0]) sd ds q N D 0) as
      (r & qs & E & Hr & Hqs & Hlr & Hlqs & Eqs & Er);
      rewrite ?length_app, ?digits_value_app; cbn [length digits_value]; try (done || lia).
    { apply digits_ok_snoc. by split. }
    { rewrite Nat.add_sub. lia. }
    { intros q0 E. rewrite (Hlq q0 E). lia. }
    rewrite length_app in Hlr, Hlqs. cbn in Hlr, Hlqs.
    exists r, qs. rewrite <- Hqneg. split_and!; try (done || lia).
    intros ->. cbn in Hlqs. lia.
  - destruct (bignum_destructive_normalization_spec num (allot_bignum (length ns + 1) rn) s)
      as (u & -> & Hu & Hlu & Eu); [lia|done| |].
    { left. rewrite allot_bignum_length. apply Nat.add_1_r. }
    rewrite result_bind_ok.
    destruct (bignum_destructive_normalization_spec den (allot_bignum (BIGNUM_LENGTH den) false) s)
      as (v & -> & Hv & Hlv & Ev); [lia|done| |].
    { right. by rewrite allot_bignum_length. }
    rewrite allot_bignum_length in Hlu, Hlv. rewrite Nat.add_1_r in Hlu.
    change (BIGNUM_LENGTH den) with (length ds) in Hlv.
    rewrite result_bind_ok. cbn [num den bn_digits bn_negative allot_bignum] in *.
    destruct (scaled_divide_spec rn u false v q N D s) as
      (r & qs & -> & Hr & Hqs & Hlr & Hlqs & Eqs & Er);
      rewrite ?Hlu, ?Hlv, ?Ev; try (done || lia).
    { replace (S (length ns) - 1)%nat with (length ns) by lia. lia. }
    rewrite result_bind_ok. rewrite Hqneg. rewrite Hlu in Hlr, Hlqs. rewrite Hlv in Hlqs.
    assert (qs ≠ []) by (intros ->; cbn in Hlqs; lia).
    destruct wr.
    + destruct (bignum_destructive_unnormalization_spec rn r s (N mod D)) as (r' & -> & ? & ? & ?);
        [lia|done..|].
      exists r', qs. rewrite result_bind_ok. split_and!; (done || lia).
    + exists r, qs. by split_and!.
Qed.

Lemma bignum_divide_unsigned_large_denominator_spec num den wq wr qn rn :
  bignum_ok num → bignum_ok den → (2 ≤ BIGNUM_LENGTH den ≤ BIGNUM_LENGTH num)%nat →
  let N := digits_value (bn_digits num) in
  let D := digits_value (bn_digits den) in
  divides_to (bignum_divide_unsigned_large_denominator num den wq wr qn rn) wq wr
    (with_sign qn (N / D)) (with_sign rn (N mod D)).
Proof.
  intros [HN _ _] [HD HnD _] Hl N D. unfold bignum_divide_unsigned_large_denominator, divides_to.
  destruct num as [sn ns], den as [sd ds]. unfold BIGNUM_REF, BIGNUM_LENGTH in *.
  cbn [bn_digits bn_negative] in *.
  destruct (list_snoc_length ds (length ds - 1)) as (ds' & d & -> & Hld); [lia|].
  apply normalized_snoc in HnD as Hd0. destruct (proj1 (digits_ok_snoc ds' d) HD) as [_ [? ?]].
  destruct (Nat.ltb_spec 1 (length (ds' ++ [d]))); [|lia]. rewrite check_true, result_bind_ok.
  rewrite (read_middle _ ds' [] d (length (ds' ++ [d]) - 1)), result_bind_ok by done.
  destruct (normalize_shift_spec d) as (s & -> & Hs & Hds); [lia|].
  cbn beta iota. rewrite result_bind_ok.
  set (q := if wq then _ else _).
  destruct (divide_large_shifted_spec ns ds' d sn sd qn rn q wr s) as
    (u & qs & -> & Hu & Hqs & Hlu & Hne & Eqs & Eu); try done.
  - intros q0. unfold q. destruct wq; [|done]. intros [= <-]. split; [done|].
    rewrite allot_bignum_length. lia.
  - rewrite result_bind_ok.
    exists (bignum_trim (mk_bignum qn qs)), (bignum_trim (mk_bignum rn u)). split_and!.
    + unfold q. by destruct wq, wr.
    + intros _. unfold N, D. rewrite <- Eqs. by apply bignum_trim_denotes.
    + intros ->. unfold N, D. rewrite <- Eu by done. apply bignum_trim_denotes; [done|]. by intros ->.
Qed.

Lemma bignum_destructive_copy_eq source n neg :
  BIGNUM_LENGTH source = n →
  bignum_destructive_copy source (allot_bignum n neg) = mk_bignum neg (bn_digits source).
Proof. intros. unfold bignum_destructive_copy. by rewrite allot_bignum_write. Qed.

Lemma bignum_divide_unsigned_medium_denominator_spec num d wq wr qn rn :
  bignum_ok num → bn_digits num ≠ [] → 0 < d < BIGNUM_RADIX →
  let N := digits_value (bn_digits num) in
  divides_to (bignum_divide_unsigned_medium_denominator num d wq wr qn rn) wq wr
    (with_sign qn (N / d)) (with_sign rn (N mod d)).
Proof.
  intros [HN _ _] Hne Hd N. unfold bignum_divide_unsigned_medium_denominator, divides_to.
  destruct (normalize_shift_spec d Hd) as (s & -> & Hs & Hds). cbn beta iota. rewrite result_bind_ok.
  set (len := if s =? 0 then BIGNUM_LENGTH num else _).
  assert (∃ us, (if s =? 0 then Ok (bignum_destructive_copy num (allot_bignum len qn))
                 else bignum_destructive_normalization num (allot_bignum len qn) s) =
                Ok (mk_bignum qn us) ∧
            digits_ok us ∧ us ≠ [] ∧ digits_value us = N * 2 ^ s) as (us & -> & Hus & Hne' & Eus).
  { unfold len. destruct (Z.eqb_spec s 0) as [->|Hs0].
    - exists (bn_digits num). rewrite bignum_destructive_copy_eq by done.
      split_and!; (done || unfold N; lia).
    - destruct (bignum_destructive_normalization_spec num (allot_bignum (BIGNUM_LENGTH num + 1) qn) s)
        as (r & E & Hr & Hlr & Er); [lia|done|left; rewrite allot_bignum_length; lia|].
      rewrite allot_bignum_length in Hlr. exists r. split_and!; try done. intros ->. cbn in Hlr. lia. }
  rewrite result_bind_ok. cbn [bn_digits bn_negative].
  assert (0 < 2 ^ s) by (apply Z.pow_pos_nonneg; lia).
  destruct (divide_medium_loop_spec (d * 2 ^ s) (rev us) 0 Hds) as (qs & r & -> & Hqs & Hlq & Hr & Hval);
    [by apply Forall_rev|nia|]. rewrite result_bind_ok.
  rewrite rev_involutive, Z.mul_0_r, Z.add_0_l, Eus in Hval.
  destruct (scaled_division N d s (digits_value (rev qs)) r) as [Eq Er]; [lia..|].
  eexists _, _. split_and!; [reflexivity| |].
  - intros _. rewrite <- Eq. apply bignum_trim_denotes; [by apply Forall_rev|].
    intros E. apply (f_equal length) in E. rewrite length_rev, Hlq, length_rev in E. by destruct us.
  - intros _. assert ((if negb (s =? 0) then Z.shiftr r s else r) = N mod d) as ->.
    { rewrite Er. destruct (Z.eqb_spec s 0) as [->|]; cbn [negb]; [lia|].
      rewrite Z.shiftr_div_pow2 by lia. apply Z.div_mul. lia. }
    apply bignum_digit_to_bignum_denotes. pose proof (Z.mod_pos_bound N d). split; lia.
Qed.

Lemma scale_down_spec ds d :
  digits_ok ds → 1 < d < BIGNUM_RADIX_ROOT →
  ∃ qs, scale_down_loop d (rev ds) 0 = (rev qs, digits_value ds mod d) ∧
    digits_ok qs ∧ length qs = length ds ∧ digits_value qs = digits_value ds / d.
Proof.
  intros Hds Hd.
  destruct (scale_down_loop_spec d (rev ds) 0 Hd) as (qs & r & -> & Hqs & Hlq & Hr & Hval);
    [by apply Forall_rev|lia|].
  rewrite rev_involutive, Z.mul_0_r, Z.add_0_l in Hval. exists (rev qs).
  rewrite rev_involutive, length_rev, Hlq, length_rev. split_and!; [|by apply Forall_rev|done|].
  - f_equal. apply (Z.mod_unique_pos _ _ (digits_value (rev qs))); lia.
  - apply (Z.div_unique_pos _ _ _ r); lia.
Qed.

Lemma small_denominator_check d :
  1 < d < BIGNUM_RADIX_ROOT → (1 <? d) && (d <? BIGNUM_RADIX_ROOT) = true.
Proof. intros. rewrite andb_true_iff, !Z.ltb_lt. lia. Qed.

Lemma bignum_divide_unsigned_small_denominator_spec num d wr qn rn :
  bignum_ok num → bn_digits num ≠ [] → 1 < d < BIGNUM_RADIX_ROOT →
  let N := digits_value (bn_digits num) in
  ∃ qb rb, bignum_divide_unsigned_small_denominator num d wr qn rn =
             Ok (qb, if wr then Some rb else None) ∧
    denotes qb (with_sign qn (N / d)) ∧ denotes rb (with_sign rn (N mod d)).
Proof.
  intros [HN _ _] Hne Hd N. unfold bignum_divide_unsigned_small_denominator, bignum_destructive_scale_down.
  rewrite bignum_new_sign_eq, small_denominator_check by done. cbn [bn_digits bn_negative].
  rewrite check_true, result_bind_ok.
  destruct (scale_down_spec (bn_digits num) d HN Hd) as (qs & -> & Hqs & Hlq & Eq).
  rewrite rev_involutive, result_bind_ok. eexists _, _. split_and!; [reflexivity| |].
  - unfold N. rewrite <- Eq. apply bignum_trim_denotes; [done|]. intros ->. by destruct (bn_digits num).
  - apply bignum_digit_to_bignum_denotes. unfold N in *. rewrite root_eq in *.
    pose proof (Z.mod_pos_bound (digits_value (bn_digits num)) d). split; rewrite ?radix_eq; lia.
Qed.

Lemma bignum_remainder_unsigned_small_denominator_spec num d rn :
  bignum_ok num → bn_digits num ≠ [] → 1 < d < BIGNUM_RADIX_ROOT →
  ∃ rb, bignum_remainder_unsigned_small_denominator num d rn = Ok rb ∧
    denotes rb (with_sign rn (digits_value (bn_digits num) mod d)).
Proof.
  intros [HN _ _] Hne Hd. unfold bignum_remainder_unsigned_small_denominator.
  rewrite small_denominator_check by done. rewrite check_true, result_bind_ok, remainder_small_loop_eq.
  destruct (scale_down_spec (bn_digits num) d HN Hd) as (qs & -> & _).
  eexists. split; [reflexivity|]. apply bignum_digit_to_bignum_denotes. rewrite root_eq in *.
  pose proof (Z.mod_pos_bound (digits_value (bn_digits num)) d). split; rewrite ?radix_eq; cbn; lia.
Qed.
(** * The signed operations *)

Definition quotient_sign (x y : bignum) : bool :=
  if BIGNUM_NEGATIVE_P y then negb (BIGNUM_NEGATIVE_P x) else BIGNUM_NEGATIVE_P x.

Lemma quot_with_sign x y :
  0 ≤ digits_value (bn_digits x) → 0 < digits_value (bn_digits y) →
  Z.quot (bignum_value x) (bignum_value y) =
    with_sign (quotient_sign x y) (digits_value (bn_digits x) / digits_value (bn_digits y)).
Proof.
  intros Hx Hy. rewrite !bignum_value_with_sign, <- Z.quot_div_nonneg by done.
  unfold with_sign, quotient_sign, BIGNUM_NEGATIVE_P.
  destruct (bn_negative x), (bn_negative y); cbn [negb];
    rewrite ?Z.quot_opp_opp, ?Z.quot_opp_l, ?Z.quot_opp_r by lia; done.
Qed.

Lemma rem_with_sign x y :
  0 ≤ digits_value (bn_digits x) → 0 < digits_value (bn_digits y) →
  Z.rem (bignum_value x) (bignum_value y) =
    with_sign (BIGNUM_NEGATIVE_P x) (digits_value (bn_digits x) mod digits_value (bn_digits y)).
Proof.
  intros Hx Hy. rewrite !bignum_value_with_sign, <- Z.rem_mod_nonneg by done.
  unfold with_sign, BIGNUM_NEGATIVE_P.
  destruct (bn_negative x), (bn_negative y);
    rewrite ?Z.rem_opp_opp, ?Z.rem_opp_l, ?Z.rem_opp_r by lia; done.
Qed.

Lemma bignum_maybe_new_sign_denotes x neg :
  bignum_ok x → bn_digits x ≠ [] →
  denotes (bignum_maybe_new_sign x neg) (with_sign neg (digits_value (bn_digits x))).
Proof. intros. rewrite bignum_maybe_new_sign_eq. by apply denotes_sign. Qed.

(** The case analysis the three signed operations share: the dividend is
    zero, as large as the divisor, smaller, or larger, with a divisor of one
    or of several digits. *)
Inductive division_case (x y : bignum) : Prop :=
  | DivByZero : bn_digits y = [] → division_case x y
  | DivZero : bn_digits y ≠ [] → bn_digits x = [] → division_case x y
  | DivEqual : bn_digits y ≠ [] → bn_digits x ≠ [] →
      bignum_compare_unsigned x y = BIGNUM_COMPARISON_EQUAL →
      digits_value (bn_digits x) = digits_value (bn_digits y) → division_case x y
  | DivLess : bn_digits y ≠ [] → bn_digits x ≠ [] →
      bignum_compare_unsigned x y = BIGNUM_COMPARISON_LESS →
      digits_value (bn_digits x) < digits_value (bn_digits y) → division_case x y
  | DivDigit d : bn_digits x ≠ [] → bn_digits y = [d] → 0 < d < BIGNUM_RADIX →
      bignum_compare_unsigned x y = BIGNUM_COMPARISON_GREATER → division_case x y
  | DivLarge : bn_digits y ≠ [] → bn_digits x ≠ [] →
      bignum_compare_unsigned x y = BIGNUM_COMPARISON_GREATER →
      (2 ≤ BIGNUM_LENGTH y ≤ BIGNUM_LENGTH x)%nat → division_case x y.

Lemma division_cases x y : bignum_ok x → bignum_ok y → division_case x y.
Proof.
  intros Hx Hy.
  destruct (decide (bn_digits y = [])) as [|Hy0]; [by apply DivByZero|].
  destruct (decide (bn_digits x = [])) as [|Hx0]; [by apply DivZero|].
  pose proof (bignum_compare_unsigned_spec x y Hx Hy) as Hc.
  destruct (Z.compare_spec (digits_value (bn_digits x)) (digits_value (bn_digits y))) as [E|E|E];
    cbn in Hc; [by apply DivEqual|by apply DivLess|].
  pose proof (nonzero_value y Hy Hy0) as Hv. destruct Hx as [Hxd Hxn _], Hy as [Hyd _ _].
  assert (BIGNUM_LENGTH y ≤ BIGNUM_LENGTH x)%nat as Hl.
  { unfold BIGNUM_LENGTH. destruct (decide (length (bn_digits y) ≤ length (bn_digits x)))%nat; [done|].
    destruct (bignum_compare_unsigned x y) eqn:Ec in Hc; try done.
    unfold bignum_compare_unsigned, BIGNUM_LENGTH in Ec.
    destruct (Nat.ltb_spec (length (bn_digits x)) (length (bn_digits y))); [done|lia]. }
  destruct (decide (2 ≤ BIGNUM_LENGTH y))%nat as [H2|H2]; [by apply DivLarge|].
  unfold BIGNUM_LENGTH in H2. destruct (bn_digits y) as [|d [|? ?]] eqn:Ey; cbn in H2; [done| |lia].
  apply (DivDigit x y d); [done..| |done].
  apply Forall_singleton in Hyd as [? ?]. cbn in Hv. lia.
Qed.

Lemma division_by_one x y :
  bignum_ok x → bn_digits y = [1] →
  Z.quot (bignum_value x) (bignum_value y) =
    with_sign (quotient_sign x y) (digits_value (bn_digits x)) ∧
  Z.rem (bignum_value x) (bignum_value y) = 0.
Proof.
  intros [Hx _ _] Hy. apply digits_value_nonneg in Hx.
  rewrite quot_with_sign, rem_with_sign, Hy by (rewrite ?Hy; done).
  change (digits_value [1]) with 1. rewrite Z.div_1_r, Z.mod_1_r. split; [done|].
  by destruct (BIGNUM_NEGATIVE_P x).
Qed.
Lemma division_zero x y :
  bignum_ok x → bn_digits x = [] → bignum_value y ≠ 0 →
  denotes x (Z.quot (bignum_value x) (bignum_value y)) ∧
  denotes x (Z.rem (bignum_value x) (bignum_value y)).
Proof.
  intros Hx E Hy. assert (bignum_value x = 0) as Hx0.
  { unfold bignum_value. rewrite E. by destruct (bn_negative x). }
  unfold denotes. rewrite Hx0, Z.quot_0_l, Z.rem_0_l by done. done.
Qed.

Lemma division_equal x y :
  0 < digits_value (bn_digits y) → digits_value (bn_digits x) = digits_value (bn_digits y) →
  Z.quot (bignum_value x) (bignum_value y) = with_sign (quotient_sign x y) 1 ∧
  Z.rem (bignum_value x) (bignum_value y) = 0.
Proof.
  intros Hy E. rewrite quot_with_sign, rem_with_sign, E by lia.
  rewrite Z.div_same, Z.mod_same by lia. split; [done|]. by destruct (BIGNUM_NEGATIVE_P x).
Qed.

Lemma division_less x y :
  0 ≤ digits_value (bn_digits x) < digits_value (bn_digits y) →
  Z.quot (bignum_value x) (bignum_value y) = 0 ∧
  Z.rem (bignum_value x) (bignum_value y) = bignum_value x.
Proof.
  intros H. rewrite quot_with_sign, rem_with_sign by lia.
  rewrite Z.div_small, Z.mod_small by lia. split; [by destruct (quotient_sign x y)|done].
Qed.

Lemma nonzero_bignum_value x : bignum_ok x → bn_digits x ≠ [] → bignum_value x ≠ 0.
Proof.
  intros Hx Hne. pose proof (nonzero_value x Hx Hne). unfold bignum_value. destruct (bn_negative x); lia.
Qed.

(** The value a division has, or its error, given the quotient and the
    remainder it must produce. *)
Definition division_result {A} (res : result A) (y : bignum) (post : A → Prop) : Prop :=
  match res with
  | Ok a => bignum_value y ≠ 0 ∧ post a
  | Err e => bignum_value y = 0 ∧ e = ERROR_DIVIDE_BY_ZERO
  end.

Ltac zero_p_simpl :=
  repeat match goal with
  | H : bn_digits ?y ≠ [] |- context [BIGNUM_ZERO_P ?y] => rewrite (proj2 (zero_p_false y) H)
  | H : bn_digits ?y = [] |- context [BIGNUM_ZERO_P ?y] => rewrite (proj2 (zero_p_spec y) H)
  end.

Ltac division_setup x y Hx Hy :=
  pose proof (digits_value_nonneg _ (bignum_ok_digits _ Hx)) as HxN;
  destruct (division_cases x y Hx Hy) as
    [Hy0|Hy0 Hx0|Hy0 Hx0 Hc Hv|Hy0 Hx0 Hc Hv|d Hx0 Ey Hd Hc|Hy0 Hx0 Hc Hl];
  [|pose proof (nonzero_bignum_value y Hy Hy0) as Hyv; pose proof (nonzero_value y Hy Hy0) as HyP..
   |assert (bn_digits y ≠ []) as Hy0 by (by rewrite Ey);
    pose proof (nonzero_bignum_value y Hy Hy0) as Hyv; pose proof (nonzero_value y Hy Hy0) as HyP
   |pose proof (nonzero_bignum_value y Hy Hy0) as Hyv; pose proof (nonzero_value y Hy Hy0) as HyP];
  zero_p_simpl; try rewrite Hc.

(** A divisor of one digit: 1, below the root of the radix, or above. *)
Ltac one_digit_divisor Ey d :=
  unfold BIGNUM_LENGTH, BIGNUM_REF; rewrite Ey;
  change (length [d] =? 1)%nat with true; change (read [d] 0) with (Ok d);
  cbn iota; rewrite result_bind_ok, ?quot_with_sign, ?rem_with_sign by lia;
  rewrite Ey; cbn [digits_value]; rewrite Z.mul_0_r, Z.add_0_r;
  destruct (Z.eqb_spec d 1) as [->|]; [|destruct (Z.ltb_spec d BIGNUM_RADIX_ROOT)].

(** Bignum division truncates towards zero, as [Z.quot] and [Z.rem] do,
    for every numerator and every nonzero denominator, and signals
    [ERROR_DIVIDE_BY_ZERO] for a zero one. *)
Theorem bignum_divide_spec x y :
  bignum_ok x → bignum_ok y →
  division_result (bignum_divide x y) y (λ '(q, r),
    denotes q (Z.quot (bignum_value x) (bignum_value y)) ∧
    denotes r (Z.rem (bignum_value x) (bignum_value y))).
Proof.
  intros Hx Hy. unfold bignum_divide. division_setup x y Hx Hy; cbn [division_result].
  - split; [|done]. unfold bignum_value. rewrite Hy0. by destruct (bn_negative y).
  - split; [done|]. by apply division_zero.
  - destruct (division_equal x y HyP Hv) as [-> ->]. split; [done|].
    split; [apply denotes_one|apply denotes_zero].
  - destruct (division_less x y ltac:(lia)) as [-> ->]. split; [done|].
    split; [apply denotes_zero|done].
  - one_digit_divisor Ey d.
    + split; [done|]. rewrite Z.div_1_r, Z.mod_1_r. split; [by apply bignum_maybe_new_sign_denotes|].
      destruct (BIGNUM_NEGATIVE_P x); apply denotes_zero.
    + destruct (bignum_divide_unsigned_small_denominator_spec x d true (quotient_sign x y)
        (BIGNUM_NEGATIVE_P x)) as (q & r & E & Hq & Hr); [done..|lia|].
      unfold quotient_sign in E. rewrite E. done.
    + destruct (bignum_divide_unsigned_medium_denominator_spec x d true true (quotient_sign x y)
        (BIGNUM_NEGATIVE_P x)) as (q & r & E & Hq & Hr); [done..|].
      unfold quotient_sign in E. rewrite E. split; [done|]. auto.
  - destruct (Nat.eqb_spec (BIGNUM_LENGTH y) 1); [lia|]. rewrite quot_with_sign, rem_with_sign by lia.
    destruct (bignum_divide_unsigned_large_denominator_spec x y true true (quotient_sign x y)
        (BIGNUM_NEGATIVE_P x)) as (q & r & E & Hq & Hr); [done..|].
    unfold quotient_sign in E. rewrite E. split; [done|]. auto.
Qed.

(** [bignum_quotient] is the truncated quotient. *)
Theorem bignum_quotient_spec x y :
  bignum_ok x → bignum_ok y →
  division_result (bignum_quotient x y) y (λ q,
    denotes q (Z.quot (bignum_value x) (bignum_value y))).
Proof.
  intros Hx Hy. unfold bignum_quotient. division_setup x y Hx Hy; cbn [division_result].
  - split; [|done]. unfold bignum_value. rewrite Hy0. by destruct (bn_negative y).
  - split; [done|]. by apply division_zero.
  - destruct (division_equal x y HyP Hv) as [-> _]. split; [done|]. apply denotes_one.
  - destruct (division_less x y ltac:(lia)) as [-> _]. split; [done|]. apply denotes_zero.
  - one_digit_divisor Ey d.
    + split; [done|]. rewrite Z.div_1_r. by apply bignum_maybe_new_sign_denotes.
    + destruct (bignum_divide_unsigned_small_denominator_spec x d false (quotient_sign x y) false)
        as (q & r & E & Hq & Hr); [done..|lia|]. unfold quotient_sign in E. by rewrite E.
    + destruct (bignum_divide_unsigned_medium_denominator_spec x d true false (quotient_sign x y) false)
        as (q & r & E & Hq & _); [done..|]. unfold quotient_sign in E. rewrite E. split; auto.
  - destruct (Nat.eqb_spec (BIGNUM_LENGTH y) 1); [lia|]. rewrite quot_with_sign by lia.
    destruct (bignum_divide_unsigned_large_denominator_spec x y true false (quotient_sign x y) false)
      as (q & r & E & Hq & _); [done..|]. unfold quotient_sign in E. rewrite E. split; auto.
Qed.

(** [bignum_remainder] is the remainder with the sign of the numerator. *)
Theorem bignum_remainder_spec x y :
  bignum_ok x → bignum_ok y →
  division_result (bignum_remainder x y) y (λ r,
    denotes r (Z.rem (bignum_value x) (bignum_value y))).
Proof.
  intros Hx Hy. unfold bignum_remainder. division_setup x y Hx Hy; cbn [division_result].
  - split; [|done]. unfold bignum_value. rewrite Hy0. by destruct (bn_negative y).
  - split; [done|]. by apply division_zero.
  - destruct (division_equal x y HyP Hv) as [_ ->]. split; [done|]. apply denotes_zero.
  - destruct (division_less x y ltac:(lia)) as [_ ->]. done.
  - one_digit_divisor Ey d.
    + split; [done|]. rewrite Z.mod_1_r. destruct (BIGNUM_NEGATIVE_P x); apply denotes_zero.
    + destruct (bignum_remainder_unsigned_small_denominator_spec x d (BIGNUM_NEGATIVE_P x))
        as (r & -> & Hr); [done..|lia|]. done.
    + destruct (bignum_divide_unsigned_medium_denominator_spec x d false true false
        (BIGNUM_NEGATIVE_P x)) as (q & r & -> & _ & Hr); [done..|]. split; auto.
  - destruct (Nat.eqb_spec (BIGNUM_LENGTH y) 1); [lia|]. rewrite rem_with_sign by lia.
    destruct (bignum_divide_unsigned_large_denominator_spec x y false true false
      (BIGNUM_NEGATIVE_P x)) as (q & r & -> & _ & Hr); [done..|]. split; auto.
Qed.
End div_spec.
