(* ===== verification/BignumBits.v ===== *)
(** Bignum bitwise operations and shifts: vm/bignum.cpp.

    A negative operand is taken in two's complement, digit by digit, and a
    negative result is complemented back into sign and magnitude. *)

From S2P Require Import Prelude.
From S2P Require Import Arrays.
From S2P Require Import Bignum.
From S2P Require Import BignumMul.
Local Open Scope fixnum_scope.

(** src/vm/bignum.cpp:1384-1386 [AND_OP] *)
Inductive bitwise_op := AND_OP | IOR_OP | XOR_OP.

Definition op_eqb (a b : bitwise_op) : bool :=
  match a, b with
  | AND_OP, AND_OP | IOR_OP, IOR_OP | XOR_OP, XOR_OP => true
  | _, _ => false
  end.

(** src/vm/bignum.cpp:1506-1512 [bignum_pospos_bitwise_op] (part):
    The digit the three loops store. *)
Definition bitwise_digit (op : bitwise_op) (digit1 digit2 : Z) : Z :=
  if op_eqb op AND_OP then Z.land digit1 digit2
  else if op_eqb op IOR_OP then Z.lor digit1 digit2
  else Z.lxor digit1 digit2.

(** src/vm/bignum.cpp:1547-1556 [bignum_posneg_bitwise_op] (part):
    One digit of a two's complement with the carry into it: the digit and
    the carry out. *)
Definition complement_digit (d carry : Z) : Z * Z :=
  let digit := Z.land (Z.lnot d) BIGNUM_DIGIT_MASK +! carry in
  if digit <? BIGNUM_RADIX then (digit, 0) else (digit -! BIGNUM_RADIX, 1).

(** src/vm/bignum.cpp:1337-1346 [bignum_bitwise_not] (part):
    The loops of [bignum_bitwise_not]: the digits of [y] and the carry. *)
Fixpoint not_negative_loop (xs : list Z) : list Z * bool :=
  match xs with
  | [] => ([], true)
  | x :: xs' =>
      if x =? 0 then let '(r, c) := not_negative_loop xs' in (BIGNUM_RADIX -! 1 :: r, c)
      else (x -! 1 :: xs', false)
  end.

(** src/vm/bignum.cpp:1348-1357 [bignum_bitwise_not] (part) *)
Fixpoint not_positive_loop (xs : list Z) : list Z * bool :=
  match xs with
  | [] => ([], true)
  | x :: xs' =>
      if x =? BIGNUM_RADIX - 1 then let '(r, c) := not_positive_loop xs' in (0 :: r, c)
      else (x +! 1 :: xs', false)
  end.

(** src/vm/bignum.cpp:1446-1452 [bignum_magnitude_ash] (part):
    The loop of [bignum_magnitude_ash] that shifts left: [cur] is the digit
    [scanr] points to. *)
Fixpoint ash_left_loop (bit_offset : Z) (xs : list Z) (cur : Z) : list Z :=
  match xs with
  | [] => [cur]
  | x :: xs' =>
      Z.land (Z.lor cur (Z.land x BIGNUM_DIGIT_MASK <<! bit_offset)) BIGNUM_DIGIT_MASK ::
      ash_left_loop bit_offset xs'
        (Z.land (Z.shiftr x (BIGNUM_DIGIT_LENGTH - bit_offset)) BIGNUM_DIGIT_MASK)
  end.

(** src/vm/bignum.cpp:1467-1472 [bignum_magnitude_ash] (part):
    The loop that shifts right, over the digits from [scan1] on. *)
Fixpoint ash_right_loop (bit_offset : Z) (xs : list Z) : list Z :=
  match xs with
  | [] => []
  | x :: xs' =>
      let r := Z.shiftr (Z.land x BIGNUM_DIGIT_MASK) bit_offset in
      match xs' with
      | [] => [r]
      | x' :: _ =>
          Z.land (Z.lor r (x' <<! (BIGNUM_DIGIT_LENGTH - bit_offset))) BIGNUM_DIGIT_MASK ::
          ash_right_loop bit_offset xs'
      end
  end.

(** src/vm/bignum.cpp:1506-1512 [bignum_pospos_bitwise_op] (part):
    The loops of the three bitwise operations over [n] result digits: an
    operand that is exhausted continues with 0. *)
Fixpoint pospos_loop (op : bitwise_op) (n : nat) (xs ys : list Z) : list Z :=
  match n with
  | 0%nat => []
  | S n' => bitwise_digit op (hd 0 xs) (hd 0 ys) :: pospos_loop op n' (tl xs) (tl ys)
  end.

(** src/vm/bignum.cpp:1545-1559 [bignum_posneg_bitwise_op] (part) *)
Fixpoint posneg_loop (op : bitwise_op) (n : nat) (xs ys : list Z) (carry2 : Z) : list Z :=
  match n with
  | 0%nat => []
  | S n' =>
      let digit1 := hd 0 xs in
      let '(digit2, carry2) := complement_digit (hd 0 ys) carry2 in
      bitwise_digit op digit1 digit2 :: posneg_loop op n' (tl xs) (tl ys) carry2
  end.

(** src/vm/bignum.cpp:1597-1618 [bignum_negneg_bitwise_op] (part) *)
Fixpoint negneg_loop (op : bitwise_op) (n : nat) (xs ys : list Z) (carry1 carry2 : Z) : list Z :=
  match n with
  | 0%nat => []
  | S n' =>
      let '(digit1, carry1) := complement_digit (hd 0 xs) carry1 in
      let '(digit2, carry2) := complement_digit (hd 0 ys) carry2 in
      bitwise_digit op digit1 digit2 :: negneg_loop op n' (tl xs) (tl ys) carry1 carry2
  end.

(** src/vm/bignum.cpp:1637-1648 [bignum_negate_magnitude] (part):
    The loop of [bignum_negate_magnitude]. *)
Fixpoint negate_loop (ds : list Z) (carry : Z) : list Z :=
  match ds with
  | [] => []
  | d :: ds' => let '(digit, carry) := complement_digit d carry in digit :: negate_loop ds' carry
  end.

(** src/vm/bignum.cpp:1626-1649 [bignum_negate_magnitude] *)
Definition bignum_negate_magnitude (arg : bignum) : bignum :=
  mk_bignum (bn_negative arg) (negate_loop (bn_digits arg) 1).

(** src/vm/bignum.cpp:1659-1662 [bignum_integer_length] (part):
    The [while (digit > 1)] loop of [bignum_integer_length]. *)
Definition integer_length_body (st : Z * Z) : Z * Z + Z :=
  let '(digit, carry) := st in
  if 1 <? digit then inl (Z.shiftr digit 1, carry + 1) else inr carry.

Section bits.
Context `{!alloc_env Z}.

(** src/vm/bignum.cpp:1323-1373 [bignum_bitwise_not] *)
Definition bignum_bitwise_not (x : bignum) : bignum :=
  let size := BIGNUM_LENGTH x in
  let is_negative := BIGNUM_NEGATIVE_P x in
  let y := allot_bignum size (if is_negative then false else true) in
  let '(r, carry) :=
    if is_negative then not_negative_loop (bn_digits x) else not_positive_loop (bn_digits x) in
  let y := mk_bignum (bn_negative y) (list_inserts 0 r (bn_digits y)) in
  if carry then
    let ret := bignum_destructive_copy y (allot_bignum (size + 1) (BIGNUM_NEGATIVE_P y)) in
    mk_bignum (bn_negative ret) (<[size := 1]> (bn_digits ret))
  else bignum_trim y.

(** src/vm/bignum.cpp:1418-1479 [bignum_magnitude_ash]: [BIGNUM_DIGIT_LENGTH]
    is a [size_t], so the divisions are unsigned. *)
Definition bignum_magnitude_ash (arg1 : bignum) (n : Z) : bignum :=
  let len := BIGNUM_LENGTH arg1 in
  if BIGNUM_ZERO_P arg1 then arg1
  else if 0 <? n then
    let digit_offset := u64 n / BIGNUM_DIGIT_LENGTH in
    let bit_offset := u64 n mod BIGNUM_DIGIT_LENGTH in
    let result := allot_bignum_zeroed (len + Z.to_nat digit_offset + 1) (BIGNUM_NEGATIVE_P arg1) in
    bignum_trim (mk_bignum (bn_negative result)
      (list_inserts (Z.to_nat digit_offset) (ash_left_loop bit_offset (bn_digits arg1) 0)
        (bn_digits result)))
  else if (n <? 0) && (Z.of_nat len * BIGNUM_DIGIT_LENGTH <=? s64 (- n)) then
    bignum_trim BIGNUM_ZERO
  else if n <? 0 then
    let digit_offset := u64 (- n) / BIGNUM_DIGIT_LENGTH in
    let bit_offset := u64 (- n) mod BIGNUM_DIGIT_LENGTH in
    let result := allot_bignum_zeroed (len - Z.to_nat digit_offset) (BIGNUM_NEGATIVE_P arg1) in
    bignum_trim (mk_bignum (bn_negative result)
      (list_inserts 0 (ash_right_loop bit_offset (drop (Z.to_nat digit_offset) (bn_digits arg1)))
        (bn_digits result)))
  else bignum_trim arg1.

(** src/vm/bignum.cpp:1375-1382 [bignum_arithmetic_shift] *)
Definition bignum_arithmetic_shift (arg1 : bignum) (n : Z) : bignum :=
  if BIGNUM_NEGATIVE_P arg1 && (n <? 0) then
    bignum_bitwise_not (bignum_magnitude_ash (bignum_bitwise_not arg1) n)
  else bignum_magnitude_ash arg1 n.

(** src/vm/bignum.cpp:1481-1514 [bignum_pospos_bitwise_op] *)
Definition bignum_pospos_bitwise_op (op : bitwise_op) (arg1 arg2 : bignum) : bignum :=
  let max_length :=
    if (BIGNUM_LENGTH arg2 <? BIGNUM_LENGTH arg1)%nat then BIGNUM_LENGTH arg1
    else BIGNUM_LENGTH arg2 in
  let result := allot_bignum max_length false in
  bignum_trim (mk_bignum (bn_negative result)
    (list_inserts 0 (pospos_loop op max_length (bn_digits arg1) (bn_digits arg2))
      (bn_digits result))).

(** src/vm/bignum.cpp:1516-1565 [bignum_posneg_bitwise_op] *)
Definition bignum_posneg_bitwise_op (op : bitwise_op) (arg1 arg2 : bignum) : bignum :=
  let neg_p := op_eqb op IOR_OP || op_eqb op XOR_OP in
  let max_length :=
    if (BIGNUM_LENGTH arg2 + 1 <? BIGNUM_LENGTH arg1)%nat then BIGNUM_LENGTH arg1
    else (BIGNUM_LENGTH arg2 + 1)%nat in
  let result := allot_bignum max_length neg_p in
  let result := mk_bignum (bn_negative result)
    (list_inserts 0 (posneg_loop op max_length (bn_digits arg1) (bn_digits arg2) 1)
      (bn_digits result)) in
  let result := if neg_p then bignum_negate_magnitude result else result in
  bignum_trim result.

(** src/vm/bignum.cpp:1567-1624 [bignum_negneg_bitwise_op] *)
Definition bignum_negneg_bitwise_op (op : bitwise_op) (arg1 arg2 : bignum) : bignum :=
  let neg_p := op_eqb op AND_OP || op_eqb op IOR_OP in
  let max_length :=
    if (BIGNUM_LENGTH arg2 <? BIGNUM_LENGTH arg1)%nat then (BIGNUM_LENGTH arg1 + 1)%nat
    else (BIGNUM_LENGTH arg2 + 1)%nat in
  let result := allot_bignum max_length neg_p in
  let result := mk_bignum (bn_negative result)
    (list_inserts 0 (negneg_loop op max_length (bn_digits arg1) (bn_digits arg2) 1 1)
      (bn_digits result)) in
  let result := if neg_p then bignum_negate_magnitude result else result in
  bignum_trim result.

(** src/vm/bignum.cpp:1388-1396 [bignum_bitwise_and] *)
Definition bignum_bitwise_and (arg1 arg2 : bignum) : bignum :=
  if BIGNUM_NEGATIVE_P arg1 then
    if BIGNUM_NEGATIVE_P arg2 then bignum_negneg_bitwise_op AND_OP arg1 arg2
    else bignum_posneg_bitwise_op AND_OP arg2 arg1
  else if BIGNUM_NEGATIVE_P arg2 then bignum_posneg_bitwise_op AND_OP arg1 arg2
  else bignum_pospos_bitwise_op AND_OP arg1 arg2.

(** src/vm/bignum.cpp:1398-1406 [bignum_bitwise_ior] *)
Definition bignum_bitwise_ior (arg1 arg2 : bignum) : bignum :=
  if BIGNUM_NEGATIVE_P arg1 then
    if BIGNUM_NEGATIVE_P arg2 then bignum_negneg_bitwise_op IOR_OP arg1 arg2
    else bignum_posneg_bitwise_op IOR_OP arg2 arg1
  else if BIGNUM_NEGATIVE_P arg2 then bignum_posneg_bitwise_op IOR_OP arg1 arg2
  else bignum_pospos_bitwise_op IOR_OP arg1 arg2.

(** src/vm/bignum.cpp:1408-1416 [bignum_bitwise_xor] *)
Definition bignum_bitwise_xor (arg1 arg2 : bignum) : bignum :=
  if BIGNUM_NEGATIVE_P arg1 then
    if BIGNUM_NEGATIVE_P arg2 then bignum_negneg_bitwise_op XOR_OP arg1 arg2
    else bignum_posneg_bitwise_op XOR_OP arg2 arg1
  else if BIGNUM_NEGATIVE_P arg2 then bignum_posneg_bitwise_op XOR_OP arg1 arg2
  else bignum_pospos_bitwise_op XOR_OP arg1 arg2.

(** src/vm/bignum.cpp:1651-1675 [bignum_integer_length] *)
Definition bignum_integer_length (x : bignum) : result bignum :=
  match BIGNUM_LENGTH x with
  | 0%nat => Err BAD_ACCESS (* reads the sign word in front of the digits *)
  | S index =>
      digit ← BIGNUM_REF x index;
      carry ← while_loop integer_length_body (digit, 0);
      if Z.of_nat index <? BIGNUM_RADIX_ROOT then
        Ok (bignum_trim (mk_bignum false [s64 (Z.of_nat index * BIGNUM_DIGIT_LENGTH + carry)]))
      else
        let result := mk_bignum false [Z.of_nat index; 0] in
        result ← bignum_destructive_scale_up result BIGNUM_DIGIT_LENGTH;
        result ← bignum_destructive_add result carry;
        Ok (bignum_trim result)
  end.
End bits.

(** src/vm/bignum.cpp:1684-1693 [bignum_unsigned_logbitp]: [shift] is an [int],
    which [shift / BIGNUM_DIGIT_LENGTH] converts to an unsigned 64-bit
    integer. *)
Definition bignum_unsigned_logbitp (shift : Z) (bn : bignum) : result bool :=
  let index := s32 (u64 shift / BIGNUM_DIGIT_LENGTH) in
  if Z.of_nat (BIGNUM_LENGTH bn) <=? index then Ok false
  else if index <? 0 then Err BAD_ACCESS
  else
    digit ← BIGNUM_REF bn (Z.to_nat index);
    let p := s32 (u64 shift mod BIGNUM_DIGIT_LENGTH) in
    let mask := 1 <<! p in
    Ok (negb (Z.land digit mask =? 0)).

(** src/vm/bignum.cpp:1677-1682 [bignum_logbitp] *)
Definition bignum_logbitp `{!alloc_env Z} (shift : Z) (arg : bignum) : result bool :=
  if BIGNUM_NEGATIVE_P arg then negb <$> bignum_unsigned_logbitp shift (bignum_bitwise_not arg)
  else bignum_unsigned_logbitp shift arg.

(** * Bitwise operations digit by digit *)

(** The operation on integers. *)
Abbreviation Z_bitwise := bitwise_digit.

Definition bool_bitwise (op : bitwise_op) (a b : bool) : bool :=
  match op with AND_OP => a && b | IOR_OP => a || b | XOR_OP => xorb a b end.

Lemma bitwise_spec op a b i : Z.testbit (Z_bitwise op a b) i = bool_bitwise op (Z.testbit a i) (Z.testbit b i).
Proof.
  destruct op; cbn; [apply Z.land_spec|apply Z.lor_spec|apply Z.lxor_spec].
Qed.

Lemma bool_bitwise_false op : bool_bitwise op false false = false.
Proof. by destruct op. Qed.

Lemma testbit_digit_cons d z i :
  digit_ok d → 0 ≤ i →
  Z.testbit (d + BIGNUM_RADIX * z) i = if i <? 62 then Z.testbit d i else Z.testbit z (i - 62).
Proof.
  intros [Hd0 Hd] Hi. rewrite radix_eq in *.
  replace (d + 2 ^ 62 * z) with (z * 2 ^ 62 + d) by lia.
  rewrite <- lor_shiftl_add, Z.lor_spec by lia. destruct (Z.ltb_spec i 62).
  - by rewrite Z.shiftl_spec_low by lia.
  - rewrite Z.shiftl_spec, (testbit_small d 62 i) by lia. apply orb_false_r.
Qed.

Lemma bitwise_mod op a b n :
  0 ≤ n → Z_bitwise op a b mod 2 ^ n = Z_bitwise op (a mod 2 ^ n) (b mod 2 ^ n).
Proof.
  intros Hn. apply Z.bits_inj'. intros i Hi. rewrite bitwise_spec.
  destruct (decide (i < n)).
  - rewrite !Z.mod_pow2_bits_low by lia. apply bitwise_spec.
  - rewrite !Z.mod_pow2_bits_high by lia. by rewrite bool_bitwise_false.
Qed.

(** [- 2^n ≤ z < 2^n] is a property of the bits from [n] on. *)
Lemma shiftr_sign z n :
  0 ≤ n → (- 2 ^ n ≤ z < 2 ^ n ↔ Z.shiftr z n = 0 ∨ Z.shiftr z n = -1).
Proof.
  intros Hn. rewrite Z.shiftr_div_pow2 by done.
  assert (0 < 2 ^ n) by (apply Z.pow_pos_nonneg; lia).
  pose proof (Z.div_mod z (2 ^ n) ltac:(lia)). pose proof (Z.mod_pos_bound z (2 ^ n) ltac:(lia)).
  split; [|nia]. intros Hz. assert (-1 ≤ z / 2 ^ n ≤ 0); [nia|lia].
Qed.

Lemma bitwise_shiftr op a b n :
  0 ≤ n → Z.shiftr (Z_bitwise op a b) n = Z_bitwise op (Z.shiftr a n) (Z.shiftr b n).
Proof.
  intros Hn. apply Z.bits_inj'. intros i Hi.
  by rewrite bitwise_spec, !Z.shiftr_spec, bitwise_spec by lia.
Qed.

(** The operations do not need more bits than their operands. *)
Lemma bitwise_range op a b n :
  0 ≤ n → - 2 ^ n ≤ a < 2 ^ n → - 2 ^ n ≤ b < 2 ^ n → - 2 ^ n ≤ Z_bitwise op a b < 2 ^ n.
Proof.
  intros Hn Ha Hb. apply shiftr_sign; [done|]. rewrite bitwise_shiftr by done.
  apply shiftr_sign in Ha as [-> | ->], Hb as [-> | ->]; try done; destruct op; cbn; auto.
Qed.

Lemma bitwise_nonneg op a b : 0 ≤ a → 0 ≤ b → 0 ≤ Z_bitwise op a b.
Proof.
  intros Ha Hb. destruct op; cbn; [apply Z.land_nonneg; auto|by apply Z.lor_nonneg|].
  apply Z.lxor_nonneg. lia.
Qed.

Lemma radix_pow_pow2 n : radix_pow n = 2 ^ (62 * Z.of_nat n).
Proof. rewrite radix_eq, Z.pow_mul_r by lia. done. Qed.

Lemma bitwise_digit_ok op a b : digit_ok a → digit_ok b → digit_ok (bitwise_digit op a b).
Proof.
  intros [? ?] [? ?]. split; [by apply bitwise_nonneg|]. rewrite radix_eq in *.
  apply bitwise_range; lia.
Qed.

Lemma bitwise_digit_cons op a b x y :
  digit_ok a → digit_ok b →
  Z_bitwise op (a + BIGNUM_RADIX * x) (b + BIGNUM_RADIX * y) =
    bitwise_digit op a b + BIGNUM_RADIX * Z_bitwise op x y.
Proof.
  intros Ha Hb. apply Z.bits_inj'. intros i Hi.
  rewrite bitwise_spec, !testbit_digit_cons by auto using bitwise_digit_ok.
  destruct (i <? 62); by rewrite bitwise_spec.
Qed.

Lemma digits_value_zip op xs : ∀ ys,
  digits_ok xs → digits_ok ys → length xs = length ys →
  digits_ok (zip_with (bitwise_digit op) xs ys) ∧
  length (zip_with (bitwise_digit op) xs ys) = length xs ∧
  digits_value (zip_with (bitwise_digit op) xs ys) = Z_bitwise op (digits_value xs) (digits_value ys).
Proof.
  induction xs as [|x xs IH]; intros [|y ys] Hx Hy Hl; try done.
  { split_and!; [done..|]. by destruct op. }
  apply Forall_cons in Hx as [Hx Hxs], Hy as [Hy Hys].
  destruct (IH ys Hxs Hys ltac:(cbn in Hl; lia)) as (Hok & Hlen & Hval).
  cbn [zip_with digits_value length]. split_and!.
  - constructor; [by apply bitwise_digit_ok|done].
  - by rewrite Hlen.
  - by rewrite bitwise_digit_cons, Hval.
Qed.

(** * Two's complement *)

(** The digits of an operand continued with zeros. *)
Definition pad (n : nat) (xs : list Z) : list Z := xs ++ replicate (n - length xs) 0.

Fixpoint complement_loop (n : nat) (ys : list Z) (carry : Z) : list Z :=
  match n with
  | 0%nat => []
  | S n' =>
      let '(digit, carry) := complement_digit (hd 0 ys) carry in
      digit :: complement_loop n' (tl ys) carry
  end.

Lemma pad_S n xs : (length xs ≤ S n)%nat → pad (S n) xs = hd 0 xs :: pad n (tl xs).
Proof.
  intros Hl. unfold pad. destruct xs as [|x xs]; cbn [hd tl length app]; [|done].
  rewrite !Nat.sub_0_r. done.
Qed.

Lemma pospos_loop_zip op n : ∀ xs ys,
  (length xs ≤ n)%nat → (length ys ≤ n)%nat →
  pospos_loop op n xs ys = zip_with (bitwise_digit op) (pad n xs) (pad n ys).
Proof.
  induction n as [|n IH]; intros xs ys Hx Hy.
  { destruct xs, ys; cbn in *; (done || lia). }
  rewrite !pad_S by done. cbn [pospos_loop zip_with]. rewrite IH; [done|..].
  - destruct xs; cbn in *; lia.
  - destruct ys; cbn in *; lia.
Qed.

Lemma posneg_loop_zip op n : ∀ xs ys c,
  (length xs ≤ n)%nat →
  posneg_loop op n xs ys c = zip_with (bitwise_digit op) (pad n xs) (complement_loop n ys c).
Proof.
  induction n as [|n IH]; intros xs ys c Hx.
  { destruct xs; cbn in *; (done || lia). }
  rewrite pad_S by done. cbn [posneg_loop complement_loop].
  destruct (complement_digit (hd 0 ys) c). cbn [zip_with]. rewrite IH; [done|].
  destruct xs; cbn in *; lia.
Qed.

Lemma negneg_loop_zip op n : ∀ xs ys c1 c2,
  negneg_loop op n xs ys c1 c2 =
    zip_with (bitwise_digit op) (complement_loop n xs c1) (complement_loop n ys c2).
Proof.
  induction n as [|n IH]; intros xs ys c1 c2; [done|]. cbn [negneg_loop complement_loop].
  destruct (complement_digit (hd 0 xs) c1), (complement_digit (hd 0 ys) c2).
  cbn [zip_with]. by rewrite IH.
Qed.

Lemma negate_loop_complement ds c : negate_loop ds c = complement_loop (length ds) ds c.
Proof.
  revert c. induction ds as [|d ds IH]; intros c; [done|]. cbn [negate_loop complement_loop length hd tl].
  destruct (complement_digit d c). by rewrite IH.
Qed.

Lemma complement_digit_spec d c :
  digit_ok d → (c = 0 ∨ c = 1) →
  ∃ d' c', complement_digit d c = (d', c') ∧ digit_ok d' ∧ (c' = 0 ∨ c' = 1) ∧
    d' + BIGNUM_RADIX * c' = BIGNUM_RADIX - 1 - d + c.
Proof.
  intros [Hd0 Hd] Hc. unfold complement_digit. rewrite mask_mod.
  assert (Z.lnot d mod BIGNUM_RADIX = BIGNUM_RADIX - 1 - d) as ->.
  { symmetry. apply (Z.mod_unique_pos _ _ (-1)); unfold Z.lnot; rewrite radix_eq in *; lia. }
  unfold digit_ok. rewrite radix_eq in *.
  rewrite (s64_id (2 ^ 62 - 1 - d + c)) by (unfold is_fixnum; lia).
  destruct (Z.ltb_spec (2 ^ 62 - 1 - d + c) (2 ^ 62)) as [Hlt|Hge].
  - eexists _, 0. split_and!; [done|lia..].
  - rewrite s64_id by (unfold is_fixnum; lia). eexists _, 1. split_and!; [done|lia..].
Qed.

Lemma complement_loop_spec n : ∀ ys c,
  digits_ok ys → (length ys ≤ n)%nat → (c = 0 ∨ c = 1) →
  ∃ c', digits_ok (complement_loop n ys c) ∧ length (complement_loop n ys c) = n ∧
    (c' = 0 ∨ c' = 1) ∧
    digits_value (complement_loop n ys c) + radix_pow n * c' = radix_pow n - 1 - digits_value ys + c.
Proof.
  induction n as [|n IH]; intros ys c Hys Hl Hc; cbn [complement_loop].
  { destruct ys; [|cbn in Hl; lia]. exists c. cbn. split_and!; (done || lia). }
  assert (digit_ok (hd 0 ys) ∧ digits_ok (tl ys) ∧ (length (tl ys) ≤ n)%nat ∧
          digits_value ys = hd 0 ys + BIGNUM_RADIX * digits_value (tl ys)) as (Hd & Hds & Hl' & Hv).
  { destruct Hys; cbn [hd tl length digits_value] in *; split_and!; (done || lia). }
  destruct (complement_digit_spec (hd 0 ys) c Hd Hc) as (d' & c1 & -> & Hd' & Hc1 & E).
  destruct (IH (tl ys) c1 Hds Hl' Hc1) as (c' & Hok & Hlen & Hc' & Hval).
  exists c'. split_and!; [by constructor|cbn; lia|done|]. cbn [digits_value].
  rewrite radix_pow_S, Hv. nia.
Qed.

(** Two's complement on [n] digits. *)
Lemma complement_loop_mod n ys :
  digits_ok ys → (length ys ≤ n)%nat →
  digits_ok (complement_loop n ys 1) ∧ length (complement_loop n ys 1) = n ∧
  digits_value (complement_loop n ys 1) = (- digits_value ys) mod radix_pow n.
Proof.
  intros Hys Hl. destruct (complement_loop_spec n ys 1 Hys Hl) as (c' & Hok & Hlen & Hc' & Hval); [by right|].
  split_and!; [done..|]. pose proof (digits_value_range _ Hok) as Hr. rewrite Hlen in Hr.
  apply (Z.mod_unique_pos _ _ (c' - 1)); lia.
Qed.

Lemma pad_spec n xs :
  digits_ok xs → (length xs ≤ n)%nat →
  digits_ok (pad n xs) ∧ length (pad n xs) = n ∧ digits_value (pad n xs) = digits_value xs.
Proof.
  intros Hx Hl. unfold pad. rewrite length_app, length_replicate, digits_value_app, digits_value_replicate_0.
  split_and!; [|lia..]. apply Forall_app. split; [done|]. apply Forall_replicate. by split.
Qed.

Lemma radix_pow_le n m : (n ≤ m)%nat → radix_pow n ≤ radix_pow m.
Proof. intros. apply Z.pow_le_mono_r; [done|lia]. Qed.

Lemma digits_value_lt n xs : digits_ok xs → (length xs ≤ n)%nat → 0 ≤ digits_value xs < radix_pow n.
Proof. intros Hx Hl. apply radix_pow_le in Hl. apply digits_value_range in Hx. lia. Qed.

(** The digits stored by the loops: the operation modulo [radix_pow n]. *)
Lemma zip_mod op n a b x y :
  digits_ok a → digits_ok b → length a = n → length b = n →
  digits_value a = x mod radix_pow n → digits_value b = y mod radix_pow n →
  digits_ok (zip_with (bitwise_digit op) a b) ∧ length (zip_with (bitwise_digit op) a b) = n ∧
  digits_value (zip_with (bitwise_digit op) a b) = Z_bitwise op x y mod radix_pow n.
Proof.
  intros Ha Hb Hla Hlb Ea Eb.
  destruct (digits_value_zip op a b Ha Hb ltac:(congruence)) as (Hok & Hl & Hv).
  split_and!; [done|congruence|]. rewrite Hv, Ea, Eb, radix_pow_pow2. symmetry. apply bitwise_mod. lia.
Qed.

Lemma posneg_loop_spec op n xs ys :
  digits_ok xs → digits_ok ys → (length xs ≤ n)%nat → (length ys ≤ n)%nat →
  digits_ok (posneg_loop op n xs ys 1) ∧ length (posneg_loop op n xs ys 1) = n ∧
  digits_value (posneg_loop op n xs ys 1) =
    Z_bitwise op (digits_value xs) (- digits_value ys) mod radix_pow n.
Proof.
  intros Hx Hy Hlx Hly. rewrite posneg_loop_zip by done.
  destruct (pad_spec n xs Hx Hlx) as (? & ? & ?). destruct (complement_loop_mod n ys Hy Hly) as (? & ? & ?).
  apply zip_mod; try done. rewrite Z.mod_small; [done|]. by apply digits_value_lt.
Qed.

Lemma negneg_loop_spec op n xs ys :
  digits_ok xs → digits_ok ys → (length xs ≤ n)%nat → (length ys ≤ n)%nat →
  digits_ok (negneg_loop op n xs ys 1 1) ∧ length (negneg_loop op n xs ys 1 1) = n ∧
  digits_value (negneg_loop op n xs ys 1 1) =
    Z_bitwise op (- digits_value xs) (- digits_value ys) mod radix_pow n.
Proof.
  intros Hx Hy Hlx Hly. rewrite negneg_loop_zip.
  destruct (complement_loop_mod n xs Hx Hlx) as (? & ? & ?).
  destruct (complement_loop_mod n ys Hy Hly) as (? & ? & ?). by apply zip_mod.
Qed.

Lemma negate_loop_spec ds :
  digits_ok ds →
  digits_ok (negate_loop ds 1) ∧ length (negate_loop ds 1) = length ds ∧
  digits_value (negate_loop ds 1) = (- digits_value ds) mod radix_pow (length ds).
Proof. intros Hds. rewrite negate_loop_complement. by apply complement_loop_mod. Qed.

Section bits_spec.
Context `{!alloc_env Z}.

(** Storing the result of a loop, complementing it back and trimming it. *)
Lemma bitwise_finish (neg : bool) n r T :
  (0 < n)%nat → digits_ok r → length r = n → digits_value r = T mod radix_pow n →
  (if neg then - radix_pow n ≤ T < 0 else 0 ≤ T < radix_pow n) →
  let res := mk_bignum neg (list_inserts 0 r (bn_digits (allot_bignum n neg))) in
  denotes (bignum_trim (if neg then bignum_negate_magnitude res else res))
    (if neg then - ((- T) mod radix_pow n) else T).
Proof.
  intros Hn Hr Hl Hv HT. rewrite allot_bignum_write by done. cbv zeta.
  assert (r ≠ []) as Hne by (intros ->; cbn in Hl; lia). destruct neg.
  - unfold bignum_negate_magnitude. cbn [bn_negative bn_digits].
    destruct (negate_loop_spec r Hr) as (Hok & Hlen & Hval).
    rewrite Hl, Hv, opp_mod_idemp in Hval. rewrite <- Hval.
    apply bignum_trim_denotes; [done|]. intros E. rewrite E in Hlen. by destruct r.
  - rewrite Z.mod_small in Hv by done. rewrite <- Hv. by apply bignum_trim_denotes.
Qed.

Lemma bignum_pospos_bitwise_op_denotes op x y :
  bignum_ok x → bignum_ok y → bn_negative x = false → bn_negative y = false →
  denotes (bignum_pospos_bitwise_op op x y) (Z_bitwise op (bignum_value x) (bignum_value y)).
Proof.
  intros [Hx _ _] [Hy _ _] Hsx Hsy. unfold bignum_pospos_bitwise_op, bignum_value, BIGNUM_LENGTH.
  rewrite Hsx, Hsy. cbn [allot_bignum bn_negative].
  set (n := if (_ <? _)%nat then _ else _).
  assert (length (bn_digits x) ≤ n ∧ length (bn_digits y) ≤ n)%nat as [Hlx Hly].
  { unfold n. destruct (Nat.ltb_spec (length (bn_digits y)) (length (bn_digits x))); lia. }
  rewrite pospos_loop_zip by done.
  destruct (pad_spec n _ Hx Hlx) as (? & ? & <-), (pad_spec n _ Hy Hly) as (? & ? & <-).
  destruct (digits_value_zip op (pad n (bn_digits x)) (pad n (bn_digits y))) as (? & ? & <-);
    [done..|congruence|].
  rewrite allot_bignum_write by congruence. by apply bignum_trim_denotes.
Qed.

Lemma negative_nonzero x : bignum_ok x → bn_negative x = true → 0 < digits_value (bn_digits x).
Proof.
  intros Hx Hs. apply nonzero_value; [done|]. intros E. destruct Hx as [_ _ Hz].
  rewrite Hz in Hs; done.
Qed.

(** The number of digits of a mixed-sign operation. *)
Definition posneg_length (x y : bignum) : nat := Nat.max (BIGNUM_LENGTH x) (BIGNUM_LENGTH y + 1).

Lemma bignum_posneg_bitwise_op_denotes op x y :
  bignum_ok x → bignum_ok y → bn_negative x = false → bn_negative y = true →
  let T := Z_bitwise op (bignum_value x) (bignum_value y) in
  denotes (bignum_posneg_bitwise_op op x y)
    (match op with AND_OP => T | _ => - ((- T) mod radix_pow (posneg_length x y)) end).
Proof.
  intros Hx Hy Hsx Hsy T. unfold bignum_posneg_bitwise_op.
  set (n := if (_ <? _)%nat then _ else _).
  assert (n = posneg_length x y) as En.
  { unfold n, posneg_length. destruct (Nat.ltb_spec (BIGNUM_LENGTH y + 1) (BIGNUM_LENGTH x)); lia. }
  rewrite <- En.
  assert (BIGNUM_LENGTH x ≤ n ∧ BIGNUM_LENGTH y < n)%nat as [Hlx Hly]
    by (unfold posneg_length in En; lia).
  pose proof (negative_nonzero y Hy Hsy) as Hy0.
  destruct Hx as [Hx _ _], Hy as [Hy _ _].
  pose proof (digits_value_lt n _ Hx Hlx) as HX.
  pose proof (digits_value_lt n _ Hy ltac:(unfold BIGNUM_LENGTH in *; lia)) as HY.
  destruct (posneg_loop_spec op n (bn_digits x) (bn_digits y)) as (Hok & Hl & Hv);
    [done..|unfold BIGNUM_LENGTH in *; lia|].
  assert (T = Z_bitwise op (digits_value (bn_digits x)) (- digits_value (bn_digits y))) as ET
    by (unfold T, bignum_value; by rewrite Hsx, Hsy).
  rewrite <- ET in Hv. clearbody T.
  assert (- radix_pow n ≤ T < radix_pow n) as HT.
  { rewrite ET, radix_pow_pow2 in *. apply bitwise_range; lia. }
  assert (match op with AND_OP => 0 ≤ T | _ => T < 0 end) as HTsign.
  { rewrite ET. destruct op; cbn.
    - apply Z.land_nonneg. lia.
    - apply Z.lor_neg. lia.
    - destruct (Z.lxor_nonneg (digits_value (bn_digits x)) (- digits_value (bn_digits y))) as [H _].
      destruct (decide (Z.lxor (digits_value (bn_digits x)) (- digits_value (bn_digits y)) < 0)); [done|].
      assert (0 ≤ - digits_value (bn_digits y)); [apply H; lia|lia]. }
  destruct op; cbn [op_eqb orb allot_bignum bn_negative].
  - apply (bitwise_finish false n _ T); (done || lia).
  - apply (bitwise_finish true n _ T); (done || lia).
  - apply (bitwise_finish true n _ T); (done || lia).
Qed.

Lemma bignum_negneg_bitwise_op_denotes op x y :
  bignum_ok x → bignum_ok y → bn_negative x = true → bn_negative y = true →
  denotes (bignum_negneg_bitwise_op op x y) (Z_bitwise op (bignum_value x) (bignum_value y)).
Proof.
  intros Hxok Hyok Hsx Hsy. unfold bignum_negneg_bitwise_op.
  pose proof (negative_nonzero x Hxok Hsx) as HX0. pose proof (negative_nonzero y Hyok Hsy) as HY0.
  destruct Hxok as [Hx _ _], Hyok as [Hy _ _].
  set (n := if (_ <? _)%nat then _ else _).
  assert (∃ m, n = S m ∧ length (bn_digits x) ≤ m ∧ length (bn_digits y) ≤ m)%nat
    as (m & En & Hlx & Hly).
  { unfold n, BIGNUM_LENGTH.
    destruct (Nat.ltb_spec (length (bn_digits y)) (length (bn_digits x))); eexists;
      (split; [apply Nat.add_1_r|lia]). }
  clearbody n. subst n. unfold bignum_value. rewrite Hsx, Hsy.
  pose proof (digits_value_lt m _ Hx Hlx) as HX. pose proof (digits_value_lt m _ Hy Hly) as HY.
  destruct (negneg_loop_spec op (S m) (bn_digits x) (bn_digits y)) as (Hok & Hl & Hv); [done..|lia|lia|].
  set (T := Z_bitwise op _ _) in *.
  assert (- radix_pow m ≤ T < radix_pow m) as HT.
  { rewrite radix_pow_pow2 in *. apply bitwise_range; lia. }
  assert (radix_pow m < radix_pow (S m)) as HS.
  { pose proof (radix_pow_pos m). assert (1 < BIGNUM_RADIX) by done. rewrite radix_pow_S. nia. }
  assert (match op with XOR_OP => 0 ≤ T | _ => T < 0 end) as HTsign.
  { destruct op; unfold T; cbn.
    - apply Z.land_neg. lia.
    - apply Z.lor_neg. lia.
    - apply Z.lxor_nonneg. lia. }
  assert (T < 0 → - ((- T) mod radix_pow (S m)) = T) as Hneg
    by (intros; rewrite Z.mod_small by lia; lia).
  destruct op; cbn [op_eqb orb allot_bignum bn_negative].
  - rewrite <- Hneg by done. apply (bitwise_finish true (S m) _ T); (done || lia).
  - rewrite <- Hneg by done. apply (bitwise_finish true (S m) _ T); (done || lia).
  - apply (bitwise_finish false (S m) _ T); (done || lia).
Qed.
(** The three operations, by the signs of the operands. *)
Definition bignum_bitwise (op : bitwise_op) : bignum → bignum → bignum :=
  match op with
  | AND_OP => bignum_bitwise_and | IOR_OP => bignum_bitwise_ior | XOR_OP => bignum_bitwise_xor
  end.

(** A mixed-sign exclusive or whose magnitude is a power of the radix just
    past the digits allotted for it. *)
Definition xor_overflow (m n : Z) : bool :=
  let '(p, q) := if m <? 0 then (n, m) else (m, n) in
  (0 <=? p) && (q <? 0) &&
  (Z.lxor m n =? - radix_pow (posneg_length (bignum_of_Z p) (bignum_of_Z q))).

Lemma bitwise_comm op a b : Z_bitwise op a b = Z_bitwise op b a.
Proof. destruct op; cbn; [apply Z.land_comm|apply Z.lor_comm|apply Z.lxor_comm]. Qed.

Lemma lor_lower_bound a b : 0 ≤ a → b ≤ Z.lor a b.
Proof.
  intros Ha. pose proof (Z.sub_lor_l_same_r a b) as E.
  assert (0 ≤ Z.land a (Z.lnot b)) by (apply Z.land_nonneg; by left). lia.
Qed.

(** The mixed-sign case on integers. *)
Lemma bignum_posneg_of_Z op p q :
  0 ≤ p → q < 0 →
  bignum_posneg_bitwise_op op (bignum_of_Z p) (bignum_of_Z q) =
    bignum_of_Z (if op_eqb op XOR_OP && xor_overflow p q then 0 else Z_bitwise op p q).
Proof.
  intros Hp Hq. apply denotes_of_Z.
  pose proof (bignum_posneg_bitwise_op_denotes op (bignum_of_Z p) (bignum_of_Z q)
    (bignum_of_Z_ok p) (bignum_of_Z_ok q)) as H.
  cbn [bignum_of_Z bn_negative] in H. fold (bignum_of_Z p) (bignum_of_Z q) in H.
  rewrite !bignum_of_Z_value in H.
  specialize (H ltac:(apply Z.ltb_ge; lia) ltac:(apply Z.ltb_lt; lia)). cbv zeta in H.
  unfold xor_overflow. rewrite (proj2 (Z.ltb_ge p 0) Hp), (proj2 (Z.ltb_lt q 0) Hq), (proj2 (Z.leb_le 0 p) Hp).
  set (n := posneg_length _ _) in *. pose proof (radix_pow_pos n) as HM.
  assert (- q < radix_pow n ∧ p < radix_pow n) as [HqM HpM].
  { destruct (bignum_of_Z_denotes q) as [[Hqd _ _] Hqv], (bignum_of_Z_denotes p) as [[Hpd _ _] Hpv].
    unfold bignum_value in Hqv, Hpv. cbn [bignum_of_Z bn_negative] in Hqv, Hpv.
    rewrite (proj2 (Z.ltb_lt q 0) Hq) in Hqv. rewrite (proj2 (Z.ltb_ge p 0) Hp) in Hpv.
    apply (digits_value_lt n) in Hqd, Hpd; [|unfold n, posneg_length, BIGNUM_LENGTH; lia..].
    cbn [bignum_of_Z bn_digits] in Hqd, Hpd, Hqv, Hpv. lia. }
  clearbody n. destruct op; cbn [bitwise_digit op_eqb andb] in *.
  - done.
  - pose proof (lor_lower_bound p q Hp). assert (Z.lor p q < 0) by (apply Z.lor_neg; by right).
    rewrite Z.mod_small in H by lia. by rewrite Z.opp_involutive in H.
  - assert (- radix_pow n ≤ Z.lxor p q < 0) as HT.
    { split.
      - rewrite radix_pow_pow2 in *. apply (bitwise_range XOR_OP); lia.
      - destruct (Z.lxor_nonneg p q) as [Hnn _]. destruct (decide (Z.lxor p q < 0)); [done|].
        specialize (Hnn ltac:(lia)). lia. }
    destruct (Z.eqb_spec (Z.lxor p q) (- radix_pow n)) as [E|E].
    + rewrite E, Z.opp_involutive, Z.mod_same in H by lia. done.
    + rewrite Z.mod_small in H by lia. by rewrite Z.opp_involutive in H.
Qed.

Lemma xor_overflow_comm m n : xor_overflow m n = xor_overflow n m.
Proof.
  unfold xor_overflow. rewrite (Z.lxor_comm n m).
  destruct (Z.ltb_spec m 0), (Z.ltb_spec n 0), (Z.leb_spec 0 m), (Z.leb_spec 0 n);
    try lia; try done; cbn; by rewrite ?andb_false_r.
Qed.

Lemma bignum_bitwise_of_Z op m n :
  bignum_bitwise op (bignum_of_Z m) (bignum_of_Z n) =
    bignum_of_Z (if op_eqb op XOR_OP && xor_overflow m n then 0 else Z_bitwise op m n).
Proof.
  assert (bignum_bitwise op (bignum_of_Z m) (bignum_of_Z n) =
    if m <? 0 then
      if n <? 0 then bignum_negneg_bitwise_op op (bignum_of_Z m) (bignum_of_Z n)
      else bignum_posneg_bitwise_op op (bignum_of_Z n) (bignum_of_Z m)
    else if n <? 0 then bignum_posneg_bitwise_op op (bignum_of_Z m) (bignum_of_Z n)
    else bignum_pospos_bitwise_op op (bignum_of_Z m) (bignum_of_Z n)) as -> by (by destruct op).
  destruct (Z.ltb_spec m 0) as [Hm|Hm], (Z.ltb_spec n 0) as [Hn|Hn].
  - replace (xor_overflow m n) with false
      by (unfold xor_overflow; rewrite (proj2 (Z.ltb_lt m 0) Hm), (proj2 (Z.leb_gt 0 n) Hn); done).
    rewrite andb_false_r. apply denotes_of_Z.
    rewrite <- (bignum_of_Z_value m) at 2. rewrite <- (bignum_of_Z_value n) at 2.
    apply bignum_negneg_bitwise_op_denotes; [apply bignum_of_Z_ok..|by apply Z.ltb_lt|by apply Z.ltb_lt].
  - rewrite xor_overflow_comm, bitwise_comm. by apply bignum_posneg_of_Z.
  - by apply bignum_posneg_of_Z.
  - replace (xor_overflow m n) with false
      by (unfold xor_overflow; rewrite (proj2 (Z.ltb_ge m 0) Hm), (proj2 (Z.ltb_ge n 0) Hn), andb_false_r; done).
    rewrite andb_false_r. apply denotes_of_Z.
    rewrite <- (bignum_of_Z_value m) at 2. rewrite <- (bignum_of_Z_value n) at 2.
    apply bignum_pospos_bitwise_op_denotes; [apply bignum_of_Z_ok..|by apply Z.ltb_ge|by apply Z.ltb_ge].
Qed.
(** * Complement *)

Lemma not_negative_loop_spec xs :
  digits_ok xs → ∃ r c, not_negative_loop xs = (r, c) ∧ digits_ok r ∧ length r = length xs ∧
    if c then digits_value xs = 0 else digits_value r = digits_value xs - 1.
Proof.
  induction 1 as [|x xs [Hx0 Hx] Hxs IH]; cbn [not_negative_loop]; [by exists [], true|].
  destruct (Z.eqb_spec x 0) as [->|Hne].
  - destruct IH as (r & c & -> & Hr & Hl & Hv). eexists _, c.
    split_and!; [done|constructor; [by split|done]|cbn; lia|].
    rewrite s64_id by (unfold is_fixnum; rewrite radix_eq; lia).
    destruct c; cbn [digits_value]; lia.
  - rewrite s64_id by (unfold is_fixnum; rewrite radix_eq in *; lia).
    eexists _, false. split_and!; [done|constructor; [split; lia|done]|done|cbn [digits_value]; lia].
Qed.

Lemma not_positive_loop_spec xs :
  digits_ok xs → ∃ r c, not_positive_loop xs = (r, c) ∧ digits_ok r ∧ length r = length xs ∧
    digits_value r + radix_pow (length xs) * (if c then 1 else 0) = digits_value xs + 1.
Proof.
  induction 1 as [|x xs [Hx0 Hx] Hxs IH]; cbn [not_positive_loop]; [by exists [], true|].
  destruct (Z.eqb_spec x (BIGNUM_RADIX - 1)) as [->|Hne].
  - destruct IH as (r & c & -> & Hr & Hl & Hv). eexists _, c.
    split_and!; [done|constructor; [by split|done]|cbn; lia|].
    cbn [digits_value length]. rewrite radix_pow_S. lia.
  - rewrite s64_id by (unfold is_fixnum; rewrite radix_eq in *; lia).
    eexists _, false. split_and!; [done|constructor; [split; lia|done]|done|cbn [digits_value]; lia].
Qed.

Lemma bignum_bitwise_not_denotes x :
  bignum_ok x → denotes (bignum_bitwise_not x) (Z.lnot (bignum_value x)).
Proof.
  intros Hx. unfold bignum_bitwise_not, Z.lnot, Z.pred, bignum_value, BIGNUM_NEGATIVE_P.
  destruct (bn_negative x) eqn:Hs.
  - destruct (not_negative_loop_spec (bn_digits x) (bignum_ok_digits _ Hx)) as (r & c & -> & Hr & Hl & Hv).
    pose proof (negative_nonzero x Hx Hs). destruct c; [lia|].
    cbn [allot_bignum bn_negative]. fold (allot_bignum (BIGNUM_LENGTH x) false).
    rewrite allot_bignum_write by done. replace (- - _ + -1) with (digits_value r) by lia.
    by apply bignum_trim_denotes.
  - destruct (not_positive_loop_spec (bn_digits x) (bignum_ok_digits _ Hx)) as (r & c & -> & Hr & Hl & Hv).
    cbn [allot_bignum bn_negative]. fold (allot_bignum (BIGNUM_LENGTH x) true).
    rewrite allot_bignum_write by done. destruct c.
    + unfold bignum_destructive_copy. cbn [bn_digits bn_negative]. unfold BIGNUM_NEGATIVE_P, BIGNUM_LENGTH.
      cbn [bn_negative].
      rewrite <- Hl, allot_bignum_write_init, insert_app_r_alt, Nat.sub_diag by done.
      cbn [allot_bignum bn_negative list_insert insert].
      split; [split|]; cbn [bn_digits bn_negative].
      * apply digits_ok_snoc. by split.
      * by apply normalized_snoc.
      * intros E. by destruct r.
      * unfold bignum_value. cbn [bn_digits bn_negative]. rewrite digits_value_app, Hl.
        cbn [digits_value]. lia.
    + replace (- _ + -1) with (- digits_value r) by lia. apply bignum_trim_denotes; [done|].
      intros ->. cbn in Hl, Hv. pose proof (digits_value_nonneg _ (bignum_ok_digits _ Hx)). lia.
Qed.
(** * Shifts *)

Lemma ash_left_loop_spec b xs : ∀ cur,
  0 ≤ b < 62 → digits_ok xs → 0 ≤ cur < 2 ^ b →
  digits_ok (ash_left_loop b xs cur) ∧ length (ash_left_loop b xs cur) = S (length xs) ∧
  digits_value (ash_left_loop b xs cur) = digits_value xs * 2 ^ b + cur.
Proof.
  intros cur Hb Hxs. revert cur.
  assert (2 ^ b < 2 ^ 62) by (apply Z.pow_lt_mono_r; lia).
  induction Hxs as [|x xs Hx Hxs IH]; intros cur Hcur; cbn [ash_left_loop].
  { cbn. rewrite Forall_singleton. split_and!; [split; rewrite ?radix_eq; lia|done|lia]. }
  destruct (digit_cut b x ltac:(lia) Hx) as (Hp & Hh & Hl & Ex).
  change BIGNUM_DIGIT_LENGTH with 62. rewrite Z.land_lor_distr_l, !mask_mod.
  rewrite (Z.shiftr_div_pow2 x) by lia.
  rewrite (Z.mod_small x BIGNUM_RADIX) by done.
  rewrite (Z.mod_small (x / _) BIGNUM_RADIX) by (rewrite radix_eq; lia).
  rewrite (Z.mod_small cur BIGNUM_RADIX) by (rewrite radix_eq; lia).
  rewrite radix_eq, s64_mod, Z.shiftl_mul_pow2, <- Hp, Z.mul_comm, Z.mul_mod_distr_l by lia.
  rewrite (Z.mul_comm (2 ^ b) (x mod _)), <- Z.shiftl_mul_pow2, Z.lor_comm, lor_shiftl_add by lia.
  destruct (IH (x / 2 ^ (62 - b)) Hh) as (Hok & Hlen & Hv).
  split_and!; [constructor; [|done]|cbn; lia|].
  - split; rewrite ?radix_eq; nia.
  - cbn [digits_value]. rewrite Hv, radix_eq. nia.
Qed.

Lemma ash_right_loop_spec b xs :
  0 ≤ b < 62 → digits_ok xs →
  digits_ok (ash_right_loop b xs) ∧ length (ash_right_loop b xs) = length xs ∧
  digits_value (ash_right_loop b xs) = digits_value xs / 2 ^ b.
Proof.
  intros Hb Hxs. assert (0 < 2 ^ b) by (apply Z.pow_pos_nonneg; lia).
  induction Hxs as [|x xs Hx Hxs IH].
  { cbn. split_and!; [done..|]. by rewrite Z.div_0_l by lia. }
  destruct (digit_cut (62 - b) x ltac:(lia) Hx) as (Hp & Hh & Hl & Ex).
  replace (62 - (62 - b)) with b in * by lia.
  assert (2 ^ (62 - b) ≤ 2 ^ 62) by (apply Z.pow_le_mono_r; lia).
  cbn [ash_right_loop]. change BIGNUM_DIGIT_LENGTH with 62.
  rewrite mask_mod, (Z.mod_small x BIGNUM_RADIX), Z.shiftr_div_pow2 by (done || lia).
  destruct xs as [|x' xs'].
  { cbn. rewrite Forall_singleton, Z.mul_0_r, Z.add_0_r, Z.add_0_r.
    split_and!; [split; rewrite ?radix_eq; lia|done..]. }
  destruct IH as (Hok & Hlen & Hv).
  assert (digits_value (x' :: xs') mod 2 ^ b = x' mod 2 ^ b) as Hmod.
  { cbn [digits_value]. rewrite radix_eq, <- Hp.
    replace (x' + _) with (x' + 2 ^ (62 - b) * digits_value xs' * 2 ^ b) by ring.
    apply Z_mod_plus_full. }
  change (digits_value (x :: x' :: xs')) with (x + BIGNUM_RADIX * digits_value (x' :: xs')).
  set (V := digits_value (x' :: xs')) in *. clearbody V.
  rewrite Z.land_lor_distr_l, !mask_mod.
  rewrite (Z.mod_small (x / _) BIGNUM_RADIX) by (rewrite radix_eq; lia).
  rewrite radix_eq, s64_mod, Z.shiftl_mul_pow2, <- Hp, Z.mul_comm, Z.mul_mod_distr_l by lia.
  rewrite (Z.mul_comm (2 ^ (62 - b)) (x' mod _)), <- Z.shiftl_mul_pow2, Z.lor_comm, lor_shiftl_add, <- Hmod
    by lia.
  pose proof (Z.mod_pos_bound V (2 ^ b) ltac:(lia)).
  split_and!; [constructor; [split; rewrite ?radix_eq; nia|done]|cbn [length] in *; lia|].
  cbn [digits_value]. rewrite Hv, radix_eq.
  apply (Z.div_unique_pos _ _ _ (x mod 2 ^ b)); [lia|].
  pose proof (Z.div_mod V (2 ^ b) ltac:(lia)) as HV. rewrite <- Hp.
  set (q := V / 2 ^ b) in *. set (m := V mod 2 ^ b) in *.
  set (xq := x / 2 ^ b) in *. set (xm := x mod 2 ^ b) in *. clearbody q m xq xm.
  rewrite HV, Ex. ring.
Qed.

Lemma list_inserts_zeros k (r : list Z) :
  list_inserts k r (replicate (k + length r) 0) = replicate k 0 ++ r.
Proof.
  rewrite replicate_add, <- (Nat.add_0_r k), <- (length_replicate k 0) at 1.
  rewrite list_inserts_app_r. f_equal.
  apply list_inserts_all. by rewrite length_replicate.
Qed.

Lemma digits_value_drop n xs :
  digits_ok xs → (n ≤ length xs)%nat → digits_value (drop n xs) = digits_value xs / radix_pow n.
Proof.
  intros Hxs Hn. rewrite <- (take_drop n xs) in Hxs |- * at 2. apply Forall_app in Hxs as [Ht _].
  rewrite digits_value_app, length_take_le by done.
  apply digits_value_range in Ht. rewrite length_take_le in Ht by done.
  pose proof (radix_pow_pos n). rewrite Z.mul_comm, Z.div_add by lia. rewrite Z.div_small by lia. lia.
Qed.

(** A right shift by [n] bits that leaves something of [xs]: [n / 62] digits
    are dropped and the rest is shifted by [n mod 62] bits. *)
Lemma ash_right_digits xs n :
  digits_ok xs → 0 ≤ n < Z.of_nat (length xs) * 62 →
  let r := ash_right_loop (n mod 62) (drop (Z.to_nat (n / 62)) xs) in
  digits_ok r ∧ length r = (length xs - Z.to_nat (n / 62))%nat ∧ r ≠ [] ∧
  digits_value r = digits_value xs / 2 ^ n.
Proof.
  intros Hxs Hn. pose proof (Z.div_mod n 62 ltac:(lia)) as Hdm.
  pose proof (Z.mod_pos_bound n 62 ltac:(lia)) as Hm.
  assert (0 ≤ n / 62 < Z.of_nat (length xs))
    by (split; [apply Z.div_pos; lia|apply Z.div_lt_upper_bound; lia]).
  destruct (ash_right_loop_spec (n mod 62) (drop (Z.to_nat (n / 62)) xs) Hm) as (Hr & Hl & Hv);
    [by apply Forall_drop|]. cbv zeta. rewrite length_drop in Hl. split_and!; [done|done| |].
  - intros E. rewrite E in Hl. cbn in Hl. lia.
  - rewrite Hv, digits_value_drop by (done || lia).
    assert (0 < 2 ^ (n mod 62)) by (apply Z.pow_pos_nonneg; lia).
    pose proof (radix_pow_pos (Z.to_nat (n / 62))).
    rewrite Z.div_div by lia. f_equal. rewrite radix_pow_pow2, Z2Nat.id, <- Z.pow_add_r by lia.
    f_equal. lia.
Qed.

(** The magnitude shifted by [n] bits, under the sign of the argument. *)
Lemma bignum_magnitude_ash_denotes x n :
  bignum_ok x → - 2 ^ 63 < n < 2 ^ 63 →
  denotes (bignum_magnitude_ash x n)
    (with_sign (bn_negative x) (Z.shiftl (digits_value (bn_digits x)) n)).
Proof.
  intros Hx Hn. unfold bignum_magnitude_ash. destruct (BIGNUM_ZERO_P x) eqn:Hz.
  { apply zero_p_spec in Hz. split; [done|]. unfold bignum_value. rewrite Hz. cbn [digits_value].
    rewrite Z.shiftl_0_l. done. }
  apply zero_p_false in Hz. pose proof (nonzero_value x Hx Hz) as Hpos.
  destruct Hx as [Hok Hnorm Hzero]. change BIGNUM_DIGIT_LENGTH with 62.
  destruct (Z.ltb_spec 0 n) as [Hn0|Hn0].
  - rewrite u64_id by (unfold is_cell; lia). rewrite allot_bignum_zeroed_eq. cbn [bn_digits bn_negative].
    pose proof (Z.div_mod n 62 ltac:(lia)) as Hdm. pose proof (Z.mod_pos_bound n 62 ltac:(lia)) as Hm.
    assert (0 ≤ n / 62) by (apply Z.div_pos; lia).
    set (k := Z.to_nat (n / 62)). set (b := n mod 62) in *.
    destruct (ash_left_loop_spec b (bn_digits x) 0 Hm Hok) as (Hr & Hlr & Hv).
    { split; [done|]. apply Z.pow_pos_nonneg; lia. }
    replace (BIGNUM_LENGTH x + k + 1)%nat with (k + length (ash_left_loop b (bn_digits x) 0))%nat
      by (rewrite Hlr; unfold BIGNUM_LENGTH; lia).
    rewrite list_inserts_zeros. unfold BIGNUM_NEGATIVE_P, with_sign.
    replace (Z.shiftl (digits_value (bn_digits x)) n) with
      (digits_value (replicate k 0 ++ ash_left_loop b (bn_digits x) 0)).
    + apply bignum_trim_denotes.
      * apply Forall_app. split; [apply Forall_replicate; by split|done].
      * intros E. apply (f_equal length) in E. rewrite length_app, Hlr in E. cbn in E. lia.
    + rewrite digits_value_app, digits_value_replicate_0, length_replicate, Hv, radix_pow_pow2.
      unfold k. rewrite Z2Nat.id, Z.shiftl_mul_pow2 by lia. rewrite Hdm at 2. rewrite Z.pow_add_r by lia. ring.
  - assert (s64 (- n) = - n) as -> by (apply s64_id; unfold is_fixnum; lia).
    destruct (Z.ltb_spec n 0) as [Hneg|Hge]; cbn [andb].
    2: { assert (n = 0) as -> by lia. rewrite Z.shiftl_0_r. by apply bignum_trim_ok. }
    rewrite u64_id by (unfold is_cell; lia).
    replace (Z.shiftl (digits_value (bn_digits x)) n) with (digits_value (bn_digits x) / 2 ^ (- n))
      by (rewrite <- Z.shiftr_div_pow2, Z.shiftr_opp_r by lia; done).
    unfold BIGNUM_LENGTH.
    destruct (Z.leb_spec (Z.of_nat (length (bn_digits x)) * 62) (- n)) as [Hall|Hsome].
    + rewrite Z.div_small; [by destruct (bn_negative x)|].
      apply digits_value_range in Hok. rewrite radix_pow_pow2 in Hok. split; [lia|].
      eapply Z.lt_le_trans; [apply Hok|]. apply Z.pow_le_mono_r; lia.
    + rewrite allot_bignum_zeroed_eq. cbn [bn_digits bn_negative].
      destruct (ash_right_digits (bn_digits x) (- n) Hok ltac:(lia)) as (Hr & Hl & Hne & Hv).
      rewrite list_inserts_all by (by rewrite length_replicate).
      unfold BIGNUM_NEGATIVE_P, with_sign. rewrite <- Hv. by apply bignum_trim_denotes.
Qed.

Lemma shiftl_opp a n : Z.shiftl (- a) n = - Z.shiftl a n ∨ n < 0.
Proof.
  destruct (decide (n < 0)); [by right|left]. rewrite !Z.shiftl_mul_pow2 by lia. lia.
Qed.

Lemma bignum_arithmetic_shift_denotes x n :
  bignum_ok x → - 2 ^ 63 < n < 2 ^ 63 →
  denotes (bignum_arithmetic_shift x n) (Z.shiftl (bignum_value x) n).
Proof.
  intros Hx Hn. unfold bignum_arithmetic_shift, BIGNUM_NEGATIVE_P.
  destruct (bn_negative x) eqn:Hs; [destruct (Z.ltb_spec n 0) as [Hneg|Hge]|]; cbn [andb].
  - destruct (bignum_bitwise_not_denotes x Hx) as [Hy Hyv]. set (y := bignum_bitwise_not x) in *.
    assert (bignum_value x < 0) as Hx0.
    { pose proof (negative_nonzero x Hx Hs). unfold bignum_value. rewrite Hs. lia. }
    assert (bn_negative y = false) as Hys.
    { destruct (bn_negative y) eqn:E; [|done]. pose proof (negative_nonzero y Hy E) as H.
      unfold bignum_value at 1 in Hyv. rewrite E in Hyv. unfold Z.lnot in Hyv. lia. }
    destruct (bignum_magnitude_ash_denotes y n Hy Hn) as [Hr Hrv].
    rewrite Hys in Hrv. unfold with_sign in Hrv.
    destruct (bignum_bitwise_not_denotes _ Hr) as [Hz Hzv]. split; [done|]. rewrite Hzv, Hrv.
    unfold bignum_value at 1 in Hyv. rewrite Hys in Hyv. rewrite Hyv.
    rewrite <- (Z.opp_involutive n), !Z.shiftl_opp_r.
    apply Z.bits_inj'. intros i Hi. rewrite Z.lnot_spec, !Z.shiftr_spec, Z.lnot_spec by lia.
    apply negb_involutive.
  - destruct (bignum_magnitude_ash_denotes x n Hx Hn) as [Hr Hv]. split; [done|]. rewrite Hv, Hs.
    unfold bignum_value, with_sign. rewrite Hs. destruct (shiftl_opp (digits_value (bn_digits x)) n); lia.
  - destruct (bignum_magnitude_ash_denotes x n Hx Hn) as [Hr Hv]. split; [done|]. rewrite Hv, Hs.
    unfold bignum_value, with_sign. by rewrite Hs.
Qed.
(** * Single bits and the length in bits *)

Lemma digits_value_testbit ds : ∀ i,
  digits_ok ds → 0 ≤ i →
  Z.testbit (digits_value ds) i =
    match ds !! Z.to_nat (i / 62) with Some d => Z.testbit d (i mod 62) | None => false end.
Proof.
  induction ds as [|d ds IH]; intros i Hds Hi; [by rewrite Z.testbit_0_l|].
  apply Forall_cons in Hds as [Hd Hds]. cbn [digits_value]. rewrite testbit_digit_cons by done.
  destruct (Z.ltb_spec i 62).
  - rewrite Z.div_small, Z.mod_small by lia. done.
  - rewrite IH by (done || lia). 
    assert (i / 62 = (i - 62) / 62 + 1) as -> by dlia.
    assert (i mod 62 = (i - 62) mod 62) as -> by dlia.
    assert (0 ≤ (i - 62) / 62) by (apply Z.div_pos; lia).
    rewrite Z2Nat.inj_add, Nat.add_1_r by lia. done.
Qed.

Lemma bignum_unsigned_logbitp_spec shift x :
  digits_ok (bn_digits x) → 0 ≤ shift < 2 ^ 31 →
  bignum_unsigned_logbitp shift x = Ok (Z.testbit (digits_value (bn_digits x)) shift).
Proof.
  intros Hx Hs. unfold bignum_unsigned_logbitp, BIGNUM_REF, BIGNUM_LENGTH, read.
  change BIGNUM_DIGIT_LENGTH with 62. rewrite u64_id by (unfold is_cell; lia).
  rewrite !s32_id by dlia. rewrite digits_value_testbit by (done || lia).
  assert (0 ≤ shift / 62) by (apply Z.div_pos; lia).
  destruct (Z.leb_spec (Z.of_nat (length (bn_digits x))) (shift / 62)).
  - rewrite lookup_ge_None_2; [done|lia].
  - destruct (Z.ltb_spec (shift / 62) 0); [lia|].
    destruct (lookup_lt_is_Some_2 (bn_digits x) (Z.to_nat (shift / 62))) as [d ->]; [lia|].
    rewrite result_bind_ok, Z.shiftl_1_l. pose proof (Z.mod_pos_bound shift 62 ltac:(lia)).
    assert (2 ^ (shift mod 62) < 2 ^ 62) by (apply Z.pow_lt_mono_r; lia).
    assert (0 < 2 ^ (shift mod 62)) by (apply Z.pow_pos_nonneg; lia).
    rewrite s64_id by (unfold is_fixnum; lia). by rewrite land_pow2_nonzero by lia.
Qed.

Lemma bignum_logbitp_spec shift x :
  bignum_ok x → 0 ≤ shift < 2 ^ 31 →
  bignum_logbitp shift x = Ok (Z.testbit (bignum_value x) shift).
Proof.
  intros Hx Hs. unfold bignum_logbitp, BIGNUM_NEGATIVE_P. destruct (bn_negative x) eqn:Hsx.
  - destruct (bignum_bitwise_not_denotes x Hx) as [Hy Hyv]. set (y := bignum_bitwise_not x) in *.
    rewrite bignum_unsigned_logbitp_spec by (done || apply Hy).
    assert (bn_negative y = false) as Hys.
    { destruct (bn_negative y) eqn:E; [|done]. pose proof (negative_nonzero y Hy E).
      pose proof (negative_nonzero x Hx Hsx). unfold bignum_value, Z.lnot in Hyv.
      rewrite E, Hsx in Hyv. lia. }
    unfold bignum_value at 1 in Hyv. rewrite Hys in Hyv. rewrite Hyv, Z.lnot_spec by lia.
    cbn. by rewrite negb_involutive.
  - rewrite bignum_unsigned_logbitp_spec by (done || apply Hx). unfold bignum_value. by rewrite Hsx.
Qed.

Lemma integer_length_loop_spec d :
  digit_ok d → 0 < d → while_loop integer_length_body (d, 0) = Ok (Z.log2 d).
Proof.
  intros [_ Hd] Hd0. rewrite radix_eq in Hd.
  destruct (while_loop_ok integer_length_body
    (λ '(g, c), 0 < g ∧ Z.log2 g + c = Z.log2 d) fst (λ c, c = Z.log2 d) (d, 0)) as (c & -> & ->);
    [|cbn; lia|cbn; lia|done].
  intros [g c] [Hg Hc]. unfold integer_length_body. destruct (Z.ltb_spec 1 g) as [H1|H1].
  - rewrite Z.shiftr_div_pow2 by lia. change (2 ^ 1) with 2.
    assert (0 < g / 2) by (apply Z.div_str_pos; lia). cbn [fst].
    split_and!; [done| |lia|apply Z.div_lt; lia].
    rewrite <- Hc. pose proof (Z.div_mod g 2 ltac:(lia)) as E. pose proof (Z.mod_pos_bound g 2 ltac:(lia)).
    destruct (decide (g mod 2 = 0)).
    + rewrite E at 2. replace (2 * (g / 2) + g mod 2) with (2 * (g / 2)) by lia.
      rewrite Z.log2_double by lia. lia.
    + rewrite E at 2. replace (2 * (g / 2) + g mod 2) with (2 * (g / 2) + 1) by lia.
      rewrite Z.log2_succ_double by lia. lia.
  - assert (g = 1) as -> by lia. cbn in Hc. lia.
Qed.

Lemma log2_snoc ds d :
  digits_ok ds → 0 < d →
  Z.log2 (digits_value (ds ++ [d])) = 62 * Z.of_nat (length ds) + Z.log2 d.
Proof.
  intros Hds Hd. rewrite digits_value_app. cbn [digits_value]. rewrite Z.mul_0_r, Z.add_0_r.
  apply digits_value_range in Hds. rewrite radix_pow_pow2 in *.
  set (k := 62 * Z.of_nat (length ds)) in *. pose proof (Z.log2_nonneg d). pose proof (Z.log2_spec d Hd).
  apply Z.log2_unique; [lia|]. rewrite <- Z.add_succ_r, !Z.pow_add_r by lia. nia.
Qed.

Lemma bignum_integer_length_denotes x :
  bignum_ok x → bn_digits x ≠ [] → Z.of_nat (BIGNUM_LENGTH x) < 2 ^ 61 →
  ∃ r, bignum_integer_length x = Ok r ∧ denotes r (Z.log2 (Z.abs (bignum_value x))).
Proof.
  intros Hx Hne Hlen. replace (Z.abs (bignum_value x)) with (digits_value (bn_digits x)).
  2: { pose proof (digits_value_nonneg _ (bignum_ok_digits _ Hx)). unfold bignum_value.
       destruct (bn_negative x); lia. }
  destruct x as [sx xs], Hx as [Hx Hn _]. unfold bignum_integer_length, BIGNUM_LENGTH, BIGNUM_REF in *.
  cbn [bn_digits bn_negative] in *.
  destruct (digits_snoc_inv xs) as [->|(ds & d & ->)]; [done|].
  apply normalized_snoc in Hn. apply digits_ok_snoc in Hx as [Hds Hd].
  assert (0 < d) by (unfold digit_ok in Hd; lia).
  rewrite length_app in *. cbn [length] in *. rewrite Nat.add_1_r in *.
  unfold read. rewrite list_lookup_middle by done. rewrite result_bind_ok.
  rewrite integer_length_loop_spec, result_bind_ok, log2_snoc by done.
  change BIGNUM_DIGIT_LENGTH with 62. pose proof (Z.log2_nonneg d).
  assert (Z.log2 d < 62) by (apply Z.log2_lt_pow2; [done|unfold digit_ok in Hd; rewrite radix_eq in Hd; lia]).
  destruct (Z.ltb_spec (Z.of_nat (length ds)) BIGNUM_RADIX_ROOT) as [Hlt|Hge].
  - rewrite root_eq in Hlt. rewrite s64_id by (unfold is_fixnum; lia).
    eexists. split; [done|]. replace (62 * _) with (Z.of_nat (length ds) * 62) by lia.
    set (k := Z.of_nat (length ds) * 62 + Z.log2 d) in *.
    replace k with (digits_value [k]) at 2 by (cbn; lia). apply (bignum_trim_denotes false [k]); [|done].
    apply Forall_singleton. split; rewrite ?radix_eq; lia.
  - destruct (bignum_destructive_scale_up_spec false [Z.of_nat (length ds); 0] 62) as (r & -> & Hr & Hlr & Hv).
    { rewrite root_eq. lia. }
    { repeat constructor; unfold digit_ok; rewrite ?radix_eq; lia. }
    { cbn [digits_value length]. rewrite radix_pow_pow2. change (2 ^ (62 * Z.of_nat 2)) with (2 ^ 124). lia. }
    rewrite result_bind_ok. cbn [digits_value length] in Hv, Hlr.
    destruct (bignum_destructive_add_spec false r (Z.log2 d)) as (r' & -> & Hr' & Hlr' & Hv'); [done| | | |].
    { intros ->. done. }
    { split; rewrite ?radix_eq; lia. }
    { rewrite Hlr, Hv, radix_pow_pow2. change (2 ^ (62 * Z.of_nat 2)) with (2 ^ 124). lia. }
    rewrite result_bind_ok. eexists. split; [done|].
    replace (62 * _ + _) with (digits_value r') by lia. apply (bignum_trim_denotes false r'); [done|].
    intros ->. cbn in Hlr'. lia.
Qed.
End bits_spec.
