(* ===== verification/BignumConv.v ===== *)
(** Conversions between machine integers and bignums: vm/bignum.cpp. *)

From S2P Require Import Prelude.
From S2P Require Import Layouts.
From S2P Require Import Arrays.
From S2P Require Import Bignum.

(** src/vm/bignum.cpp:323-324 [FOO_TO_BIGNUM] (part):
    A C integer type of 64 bits: [FOO_TO_BIGNUM] and [BIGNUM_TO_FOO] are
    macros over one. *)
Inductive int_type := UNSIGNED | SIGNED.

Definition cast (t : int_type) (z : Z) : Z :=
  match t with UNSIGNED => u64 z | SIGNED => s64 z end.

Definition in_type (t : int_type) (z : Z) : Prop :=
  match t with UNSIGNED => is_cell z | SIGNED => is_fixnum z end.

(** src/vm/bignum.cpp:346-349 [FOO_TO_BIGNUM] (part):
    The [do ... while (accumulator != 0)] loop, which fills the buffer
    [result_digits]: [room] entries of it are left. *)
Fixpoint to_digits_loop (room : nat) (accumulator : Z) : result (list Z) :=
  match room with
  | 0%nat => Err BAD_ACCESS
  | S room' =>
      let digit := Z.land accumulator BIGNUM_DIGIT_MASK in
      let accumulator := Z.shiftr accumulator BIGNUM_DIGIT_LENGTH in
      if negb (accumulator =? 0) then
        rest ← to_digits_loop room' accumulator; Ok (digit :: rest)
      else Ok [digit]
  end.

(** src/vm/bignumint.hpp:95-96 [BIGNUM_DIGITS_FOR]: of a type of 8 bytes. *)
Definition BIGNUM_DIGITS_FOR : nat := Z.to_nat (BIGNUM_BITS_TO_DIGITS (8 * 8)).

Section conv.
Context `{!alloc_env Z}.

(** src/vm/bignum.cpp:323-359 [FOO_TO_BIGNUM] *)
Definition foo_to_bignum (type : int_type) (n : Z) : result bignum :=
  if n =? 0 then Ok BIGNUM_ZERO
  else if n =? 1 then Ok (BIGNUM_ONE false)
  else if (n <? 0) && (n =? cast type (-1)) then Ok (BIGNUM_ONE true)
  else
    let negative_p := n <? 0 in
    let accumulator := u64 (if negative_p then cast type (s64 (- s64 n)) else n) in
    if accumulator <? BIGNUM_RADIX then
      let result := allot_bignum 1 negative_p in
      Ok (mk_bignum (bn_negative result)
            (<[0%nat := Z.land accumulator BIGNUM_DIGIT_MASK]> (bn_digits result)))
    else
      result_digits ← to_digits_loop BIGNUM_DIGITS_FOR accumulator;
      let result := allot_bignum (length result_digits) negative_p in
      Ok (mk_bignum (bn_negative result) (list_inserts 0 result_digits (bn_digits result))).

(** src/vm/bignum.cpp:361-361 [cell_to_bignum] *)
Definition cell_to_bignum : Z → result bignum := foo_to_bignum UNSIGNED.
(** src/vm/bignum.cpp:362-362 [fixnum_to_bignum] *)
Definition fixnum_to_bignum : Z → result bignum := foo_to_bignum SIGNED.
(** src/vm/bignum.cpp:363-363 [long_long_to_bignum] *)
Definition long_long_to_bignum : Z → result bignum := foo_to_bignum SIGNED.
(** src/vm/bignum.cpp:364-364 [ulong_long_to_bignum] *)
Definition ulong_long_to_bignum : Z → result bignum := foo_to_bignum UNSIGNED.
End conv.

(** src/vm/bignum.cpp:367-381 [BIGNUM_TO_FOO] *)
Definition bignum_to_foo (type : int_type) (bn : bignum) : Z :=
  if BIGNUM_ZERO_P bn then 0
  else
    let accumulator :=
      foldr (λ d accumulator, u64 (u64 (Z.shiftl accumulator BIGNUM_DIGIT_LENGTH) + d)) 0
        (bn_digits bn) in
    if BIGNUM_NEGATIVE_P bn then cast type (s64 (- s64 accumulator)) else cast type accumulator.

(** src/vm/bignum.cpp:383-383 [bignum_to_cell] *)
Definition bignum_to_cell : bignum → Z := bignum_to_foo UNSIGNED.
(** src/vm/bignum.cpp:384-384 [bignum_to_fixnum] *)
Definition bignum_to_fixnum : bignum → Z := bignum_to_foo SIGNED.
(** src/vm/bignum.cpp:385-385 [bignum_to_long_long] *)
Definition bignum_to_long_long : bignum → Z := bignum_to_foo SIGNED.
(** src/vm/bignum.cpp:386-386 [bignum_to_ulong_long] *)
Definition bignum_to_ulong_long : bignum → Z := bignum_to_foo UNSIGNED.

(** src/vm/bignum.cpp:388-397 [bignum_fits_fixnum_p] *)
Definition bignum_fits_fixnum_p (bn : bignum) : bool :=
  match bn_digits bn with
  | [] => true
  | [dig] =>
      (BIGNUM_NEGATIVE_P bn && (dig <=? - fixnum_min)) ||
      (negb (BIGNUM_NEGATIVE_P bn) && (dig <=? fixnum_max))
  | _ => false
  end.

(** src/vm/bignum.cpp:405-414 [bignum_to_fixnum_strict] *)
Definition bignum_to_fixnum_strict (bn : bignum) : result Z :=
  if negb (bignum_fits_fixnum_p bn) then Err ERROR_OUT_OF_FIXNUM_RANGE
  else
    let fix_ := bignum_to_fixnum bn in
    check ((fix_ <=? fixnum_max) && (fixnum_min <=? fix_)) ≫= λ _, Ok fix_.

(** * Lemmas *)

Lemma u64_add_l a b : u64 (u64 a + b) = u64 (a + b).
Proof. unfold u64. apply Zplus_mod_idemp_l. Qed.

Lemma u64_opp a : u64 (- u64 a) = u64 (- a).
Proof. unfold u64. apply opp_mod_idemp. Qed.

Lemma u64_mul_l a b : u64 (u64 a * b) = u64 (a * b).
Proof. unfold u64. apply Zmult_mod_idemp_l. Qed.

Lemma cast_u64 t z : cast t (u64 z) = cast t z.
Proof. destruct t; cbn; [unfold u64; apply Z.mod_mod; lia|apply s64_u64]. Qed.

(** A cast only looks at the integer modulo [2^64]. *)
Lemma cast_eq t a b : u64 a = u64 b → cast t a = cast t b.
Proof. intros E. by rewrite <- (cast_u64 t a), E, cast_u64. Qed.

Lemma cast_id t z : in_type t z → cast t z = z.
Proof. destruct t; [apply u64_id|apply s64_id]. Qed.

Lemma u64_cast t z : u64 (cast t z) = u64 z.
Proof. destruct t; cbn; [unfold u64; apply Z.mod_mod; lia|apply u64_s64]. Qed.

(** The accumulator of [BIGNUM_TO_FOO]. *)
Lemma to_foo_accumulator ds :
  foldr (λ d acc, u64 (u64 (Z.shiftl acc BIGNUM_DIGIT_LENGTH) + d)) 0 ds = u64 (digits_value ds).
Proof.
  induction ds as [|d ds IH]; [done|]. cbn [foldr digits_value]. rewrite IH, u64_add_l.
  change BIGNUM_DIGIT_LENGTH with 62. rewrite Z.shiftl_mul_pow2, radix_eq by lia.
  rewrite <- u64_add_l, u64_mul_l, u64_add_l. f_equal. lia.
Qed.

Lemma bignum_to_foo_value type bn : bignum_to_foo type bn = cast type (bignum_value bn).
Proof.
  unfold bignum_to_foo, bignum_value, BIGNUM_NEGATIVE_P. destruct (BIGNUM_ZERO_P bn) eqn:Hz.
  { apply zero_p_spec in Hz. rewrite Hz. by destruct type, (bn_negative bn). }
  rewrite to_foo_accumulator. destruct (bn_negative bn); [|apply cast_u64].
  apply cast_eq. rewrite u64_s64, <- u64_opp, u64_s64, !u64_opp. done.
Qed.

Lemma to_digits_loop_spec acc :
  BIGNUM_RADIX ≤ acc < 2 ^ 64 →
  to_digits_loop BIGNUM_DIGITS_FOR acc = Ok [acc mod BIGNUM_RADIX; acc / BIGNUM_RADIX] ∧
  0 < acc / BIGNUM_RADIX < BIGNUM_RADIX.
Proof.
  intros Hacc. change BIGNUM_DIGITS_FOR with 2%nat. cbn [to_digits_loop].
  change BIGNUM_DIGIT_LENGTH with 62. rewrite !mask_mod, !Z.shiftr_div_pow2 by lia.
  rewrite radix_eq in *.
  assert (0 < acc / 2 ^ 62 < 2 ^ 62) by dlia.
  destruct (Z.eqb_spec (acc / 2 ^ 62) 0); [lia|]. cbn [negb].
  rewrite (Z.div_small (acc / 2 ^ 62)), (Z.mod_small (acc / 2 ^ 62)) by lia. done.
Qed.

Lemma foo_to_bignum_spec `{!alloc_env Z} type n :
  in_type type n → foo_to_bignum type n = Ok (bignum_of_Z n).
Proof.
  intros Hn. unfold foo_to_bignum.
  destruct (Z.eqb_spec n 0) as [->|]; [done|]. destruct (Z.eqb_spec n 1) as [->|]; [done|].
  destruct ((n <? 0) && (n =? cast type (-1))) eqn:Hm1.
  { apply andb_true_iff in Hm1 as [Hneg E]. apply Z.ltb_lt in Hneg. apply Z.eqb_eq in E.
    destruct type; cbn in E, Hn; [unfold is_cell in Hn; lia|]. rewrite E. done. }
  clear Hm1. set (acc := u64 _).
  assert (acc = Z.abs n ∧ 0 < acc < 2 ^ 64) as [Eacc Hacc].
  { unfold acc. destruct type; cbn [cast in_type] in *; unfold is_cell, is_fixnum in Hn.
    - destruct (Z.ltb_spec n 0); [lia|]. rewrite u64_id by (unfold is_cell; lia). lia.
    - destruct (Z.ltb_spec n 0).
      + rewrite u64_s64, u64_s64, (s64_id n) by (unfold is_fixnum; lia).
        rewrite u64_id by (unfold is_cell; lia). lia.
      + rewrite u64_id by (unfold is_cell; lia). lia. }
  clearbody acc.
  assert (∀ ds, digits_ok ds → normalized ds → ds ≠ [] → digits_value ds = acc →
    Ok (mk_bignum (n <? 0) ds) = Ok (bignum_of_Z n)) as Hfin.
  { intros ds Hds Hnorm Hne Hv. f_equal. apply denotes_of_Z. split; [by split|].
    unfold bignum_value. cbn [bn_digits bn_negative]. rewrite Hv. destruct (Z.ltb_spec n 0); lia. }
  destruct (Z.ltb_spec acc BIGNUM_RADIX) as [Hlt|Hge].
  - rewrite mask_mod, Z.mod_small by lia. apply (Hfin [acc]).
    + apply Forall_singleton. split; lia.
    + apply (normalized_snoc []). lia.
    + done.
    + cbn. lia.
  - destruct (to_digits_loop_spec acc) as [-> Hq]; [lia|]. rewrite result_bind_ok.
    rewrite allot_bignum_write by done. cbn [allot_bignum bn_negative].
    pose proof (Z.mod_pos_bound acc BIGNUM_RADIX ltac:(done)).
    pose proof (Z.div_mod acc BIGNUM_RADIX ltac:(done)). apply Hfin.
    + repeat constructor; lia.
    + apply (normalized_snoc [_]). lia.
    + done.
    + cbn. lia.
Qed.

Lemma bignum_fits_fixnum_p_spec x :
  bignum_ok x → bignum_fits_fixnum_p x = true ↔ fixnum_range (bignum_value x).
Proof.
  intros Hx. unfold bignum_fits_fixnum_p, bignum_value, fixnum_range, BIGNUM_NEGATIVE_P.
  change fixnum_min with (- 2 ^ 59). change fixnum_max with (2 ^ 59 - 1).
  destruct (bn_digits x) as [|d [|d' ds]] eqn:E.
  - cbn. destruct (bn_negative x); split; (done || lia).
  - destruct Hx as [Hok _ _]. rewrite E in Hok. apply Forall_singleton in Hok as [Hd _].
    cbn [digits_value]. rewrite Z.mul_0_r, Z.add_0_r.
    destruct (bn_negative x); cbn [andb negb orb]; rewrite ?orb_false_r, Z.leb_le; lia.
  - split; [done|]. destruct Hx as [Hok Hn _]. rewrite <- E in *.
    assert (bn_digits x ≠ []) as Hne by (by rewrite E).
    pose proof (normalized_lower_bound _ Hok Hn Hne) as Hlow.
    assert (radix_pow 1 ≤ radix_pow (length (bn_digits x) - 1)) as H1.
    { apply Z.pow_le_mono_r; [done|]. rewrite E. cbn. lia. }
    change (radix_pow 1) with (2 ^ 62) in H1. destruct (bn_negative x); lia.
Qed.

Lemma bignum_to_fixnum_strict_spec m :
  bignum_to_fixnum_strict (bignum_of_Z m) =
    if decide (fixnum_range m) then Ok m else Err ERROR_OUT_OF_FIXNUM_RANGE.
Proof.
  unfold bignum_to_fixnum_strict. pose proof (bignum_fits_fixnum_p_spec _ (bignum_of_Z_ok m)) as H.
  rewrite bignum_of_Z_value in H. destruct (decide (fixnum_range m)) as [Hm|Hm].
  - rewrite (proj2 H Hm). cbn [negb]. unfold bignum_to_fixnum.
    rewrite bignum_to_foo_value, bignum_of_Z_value. unfold fixnum_range in Hm.
    change fixnum_min with (- 2 ^ 59) in *. change fixnum_max with (2 ^ 59 - 1) in *.
    rewrite cast_id by (cbn; unfold is_fixnum; lia).
    destruct (Z.leb_spec m (2 ^ 59 - 1)), (Z.leb_spec (- 2 ^ 59) m); (done || lia).
  - destruct (bignum_fits_fixnum_p _); [|done]. by destruct Hm; apply H.
Qed.
