(* ===== verification/BignumGcd.v ===== *)
(** The greatest common divisor of bignums: Lehmer's algorithm in
    vm/bignum.cpp.

    Each turn of the outer loop takes the 63 leading bits of both numbers and
    runs the Euclidean algorithm on them, as long as the quotients are certain
    to be those of the whole numbers; the steps are collected in a matrix
    ([A], [B], [C], [D]), which is then applied to the digits.  When the
    leading bits decide no quotient, the turn is a division.

    The first part below defines the code; the second part is about the
    integers only: [lehmer_ok] says what the matrix does to any two numbers
    with the given leading bits; the third part is about digits. *)

From S2P Require Import Prelude.
From S2P Require Import BitwiseHacks.
From S2P Require Import Arrays.
From S2P Require Import Bignum.
From S2P Require Import BignumMul.
From S2P Require Import BignumDiv.
From S2P Require Import BignumDivide.
From S2P Require Import BignumConv.
Local Open Scope Z_scope.
Local Open Scope fixnum_scope.

(** * The code *)

(** src/vm/bignum.cpp:1725-1725 [bignum_gcd] (part): The variables of the inner
    loop; [lk] is its counter, an [int], the others have 128 bits. *)
Record lehmer := mk_lehmer { lx : Z; ly : Z; lA : Z; lB : Z; lC : Z; lD : Z; lk : Z }.

(** src/vm/bignum.cpp:1774-1796 [bignum_gcd] (part): One turn of the inner
    loop. *)
Definition lehmer_body (st : lehmer) : lehmer + lehmer :=
  let '(mk_lehmer x y A B C D k) := st in
  if s128 (y - C) =? 0 then inr st
  else
    let q := s128 (s128 (x + s128 (A - 1)) `quot` s128 (y - C)) in
    let s := s128 (B + s128 (q * D)) in
    let t := s128 (x - s128 (q * y)) in
    if t <? s then inr st
    else
      let x := y in
      let y := t in
      let t := s128 (A + s128 (q * C)) in
      inl (mk_lehmer x y D C s t (s32 (k + 1))).

(** src/vm/bignum.cpp:1769-1796 [bignum_gcd] (part) *)
Definition lehmer_loop (x y : Z) : result lehmer := while_loop lehmer_body (mk_lehmer x y 1 0 0 1 0).

(** src/vm/bignum.cpp:1760-1766 [bignum_gcd] (part): The leading bits of both
    numbers. *)
Definition leading_bits (a : list Z) (size_a : nat) (b : list Z) (size_b : nat) : result (Z * Z) :=
  top ← read a (size_a - 1);
  let nbits := s32 (log2 top) in
  next ← read a (size_a - 2);
  let x := Z.lor (top <<! (BIGNUM_DIGIT_LENGTH - nbits)) (Z.shiftr next nbits) in
  low ← (if (size_a - 1 <=? size_b)%nat then d ← read b (size_a - 2); Ok (Z.shiftr d nbits) else Ok 0);
  high ← (if (size_a <=? size_b)%nat
          then d ← read b (size_a - 1); Ok (d <<! (BIGNUM_DIGIT_LENGTH - nbits)) else Ok 0);
  Ok (x, Z.lor low high).

(** src/vm/bignum.cpp:1844-1851 [bignum_gcd] (part): While there are digits
    [ys] of [b], both numbers are replaced digit by digit; [xs] are the digits
    of [a].  In the other case, in the lines from 1862, the two numbers change
    places. *)
Fixpoint update_both (odd : bool) (A B C D : Z) (xs ys : list Z) (s t : Z) {struct ys}
    : result (list Z * list Z * list Z * Z * Z) :=
  match ys with
  | [] => Ok ([], [], xs, s, t)
  | y :: ys =>
      match xs with
      | [] => Err BAD_ACCESS
      | x :: xs =>
          let '(p, q) := if odd then (y, x) else (x, y) in
          let s := s128 (s + s128 (s128 (A * p) - s128 (B * q))) in
          let t := s128 (t + s128 (s128 (D * q) - s128 (C * p))) in
          '(xs', ys', rest, s', t') ← update_both odd A B C D xs ys
            (Z.shiftr s BIGNUM_DIGIT_LENGTH) (Z.shiftr t BIGNUM_DIGIT_LENGTH);
          Ok (Z.land s BIGNUM_DIGIT_MASK :: xs', Z.land t BIGNUM_DIGIT_MASK :: ys', rest, s', t')
      end
  end.

(** src/vm/bignum.cpp:1852-1859 [bignum_gcd] (part): The other digits of [a]. *)
Fixpoint update_rest (odd : bool) (A B C D : Z) (xs : list Z) (s t : Z) : list Z * Z * Z :=
  match xs with
  | [] => ([], s, t)
  | x :: xs =>
      let s := if odd then s128 (s - s128 (B * x)) else s128 (s + s128 (A * x)) in
      let t := if odd then s128 (t + s128 (D * x)) else s128 (t - s128 (C * x)) in
      let '(xs', s', t') := update_rest odd A B C D xs
        (Z.shiftr s BIGNUM_DIGIT_LENGTH) (Z.shiftr t BIGNUM_DIGIT_LENGTH) in
      (Z.land s BIGNUM_DIGIT_MASK :: xs', s', t')
  end.

(** The digits of [a] and [b], and the number of each that is used. *)
Record gcd_state := mk_gcd { ga : list Z; size_a : nat; gb : list Z; size_b : nat }.

(** The first [n] digits, read through a pointer. *)
Definition first_digits (ds : list Z) (n : nat) : result (list Z) :=
  if (n <=? length ds)%nat then Ok (take n ds) else Err BAD_ACCESS.

(** src/vm/bignum.cpp:1833-1883 [bignum_gcd] (part): The matrix is applied to
    [a] and [b], and their sizes are brought up to date. *)
Definition lehmer_apply (st : gcd_state) (l : lehmer) : result gcd_state :=
  let '(mk_gcd a size_a b size_b) := st in
  let odd := negb (Z.land (lk l) 1 =? 0) in
  xs ← first_digits a size_a;
  ys ← first_digits b size_b;
  '(xs1, ys1, rest, s, t) ← update_both odd (lA l) (lB l) (lC l) (lD l) xs ys 0 0;
  let '(xs2, s, t) := update_rest odd (lA l) (lB l) (lC l) (lD l) rest s t in
  _ ← check (s =? 0);
  _ ← check (t =? 0);
  let a := xs1 ++ xs2 ++ drop size_a a in
  let b := ys1 ++ drop size_b b in
  let size_a := bignum_trim_scan a size_a in
  let size_b := bignum_trim_scan b size_b in
  _ ← check (size_b <=? size_a)%nat;
  Ok (mk_gcd a size_a b size_b).

(** src/vm/bignum.cpp:1809-1818 [bignum_gcd] (part): The digits [source] are
    copied to the start of [target], and zeros follow them up to the digit
    [size]. *)
Definition copy_digits (target source : list Z) (size : nat) : result (list Z) :=
  let last := (length source `max` size)%nat in
  if (last <=? length target)%nat
  then Ok (source ++ replicate (size - length source) 0 ++ drop last target)
  else Err BAD_ACCESS.

Section gcd.
Context `{!alloc_env Z}.

(** [bignum_trim] shortens a bignum of the nursery in place, so that the
    argument is the result; another bignum is copied. *)
Definition after_trim (digits : list Z) : list Z :=
  if in_nursery then bn_digits (bignum_trim (mk_bignum false digits)) else digits.

(** src/vm/bignum.cpp:1800-1831 [bignum_gcd] (part): A Euclidean step. *)
Definition euclid_step (st : gcd_state) : result gcd_state :=
  let '(mk_gcd a size_a b size_b) := st in
  let e := bignum_trim (mk_bignum false a) in
  let a := after_trim a in
  let f := bignum_trim (mk_bignum false b) in
  let b := after_trim b in
  c ← bignum_remainder e f;
  ys ← first_digits b size_b;
  a ← copy_digits a ys size_a;
  b ← copy_digits b (bn_digits c) size_b;
  Ok (mk_gcd a size_b b (BIGNUM_LENGTH c)).

(** src/vm/bignum.cpp:1759-1884 [bignum_gcd] (part): One turn of the outer
    loop; [inr] returns from the function. *)
Definition gcd_turn (st : gcd_state) : result (gcd_state + bignum) :=
  '(x, y) ← leading_bits (ga st) (size_a st) (gb st) (size_b st);
  l ← lehmer_loop x y;
  if lk l =? 0 then
    if (size_b st =? 0)%nat then Ok (inr (bignum_trim (mk_bignum false (ga st))))
    else st ← euclid_step st; Ok (inl st)
  else st ← lehmer_apply st l; Ok (inl st).

Definition gcd_body (st : gcd_state) : gcd_state + result (gcd_state + bignum) :=
  if (1 <? size_a st)%nat then
    match gcd_turn st with
    | Ok (inl st) => inl st
    | Ok (inr g) => inr (Ok (inr g))
    | Err e => inr (Err e)
    end
  else inr (Ok (inl st)).

(** src/vm/bignum.cpp:1891-1896 [bignum_gcd] (part): The Euclidean algorithm
    on machine integers. *)
Definition fixnum_gcd (xx yy : Z) : result Z :=
  while_loop (λ '(xx, yy), if yy =? 0 then inr xx else inl (yy, xx `rem` yy)) (xx, yy).

(** src/vm/bignum.cpp:1721-1901 [bignum_gcd] *)
Definition bignum_gcd (a_ b_ : bignum) : result bignum :=
  let a := bignum_destructive_copy a_ (allot_bignum (BIGNUM_LENGTH a_) false) in
  let b := bignum_destructive_copy b_ (allot_bignum (BIGNUM_LENGTH b_) false) in
  let '(a, b) := if decide (bignum_compare a b = BIGNUM_COMPARISON_LESS) then (b, a) else (a, b) in
  out ← while_loop gcd_body (mk_gcd (bn_digits a) (BIGNUM_LENGTH a) (bn_digits b) (BIGNUM_LENGTH b));
  out ← out;
  match out with
  | inr g => Ok g
  | inl st =>
      xx ← fixnum_gcd (bignum_to_fixnum (mk_bignum false (ga st))) (bignum_to_fixnum (mk_bignum false (gb st)));
      fixnum_to_bignum xx
  end.

(** src/vm/bignum.cpp:1710-1717 [bignum_gcd] (part): One turn of the loop of
    the Windows build. *)
Definition gcd_win64_body (st : bignum * bignum) : bignum * bignum + result bignum :=
  let '(ac, bc) := st in
  if (BIGNUM_LENGTH bc =? 0)%nat then inr (Ok ac)
  else match bignum_remainder ac bc with
       | Ok d => inl (bc, d)
       | Err e => inr (Err e)
       end.

(** src/vm/bignum.cpp:1697-1719 [bignum_gcd]: the Windows build has no integers
    of 128 bits and uses the Euclidean algorithm. *)
Definition bignum_gcd_win64 (a_ b_ : bignum) : result bignum :=
  let ac := bignum_maybe_new_sign a_ false in
  let bc := bignum_maybe_new_sign b_ false in
  let '(ac, bc) := if decide (bignum_compare ac bc = BIGNUM_COMPARISON_LESS) then (bc, ac) else (ac, bc) in
  g ← while_loop gcd_win64_body (ac, bc);
  g.
End gcd.

(** * The matrix *)

(** The number of bits of a nonnegative integer. *)
Definition bits (z : Z) : Z := if z =? 0 then 0 else Z.log2 z + 1.

Lemma bits_nonneg z : 0 ≤ bits z.
Proof. unfold bits. pose proof (Z.log2_nonneg z). destruct (z =? 0); lia. Qed.

Lemma bits_half z z' : 0 < z → 0 ≤ z' → 2 * z' ≤ z → bits z' < bits z.
Proof.
  intros Hz Hz' Hle. unfold bits. rewrite (proj2 (Z.eqb_neq z 0)) by lia. pose proof (Z.log2_nonneg z).
  destruct (Z.eqb_spec z' 0); [lia|]. apply (Z.log2_le_mono (2 * z')) in Hle. rewrite Z.log2_double in Hle; lia.
Qed.

Lemma bits_lt z n : 0 ≤ n → 0 ≤ z < 2 ^ n → bits z ≤ n.
Proof.
  intros Hn [Hz Hlt]. unfold bits. destruct (Z.eqb_spec z 0); [lia|]. apply Z.log2_lt_pow2 in Hlt; lia.
Qed.

(** A step of the Euclidean algorithm. *)
Lemma euclid_step_facts a b q :
  1 ≤ q → 0 ≤ a - q * b < b → Z.gcd b (a - q * b) = Z.gcd a b ∧ 2 * (b * (a - q * b)) ≤ a * b.
Proof.
  intros Hq Hr. split; [|nia]. rewrite (Z.gcd_comm a b). replace (a - q * b) with (a + (- q) * b) by lia.
  rewrite (Z.gcd_add_mult_diag_r b a (- q)). done.
Qed.

(** What the matrix does to two numbers. *)
Definition image (l : lehmer) (a b : Z) : Z * Z :=
  if Z.odd (lk l) then (lA l * b - lB l * a, lD l * a - lC l * b)
  else (lA l * a - lB l * b, lD l * b - lC l * a).

(** The invariant of the inner loop that was started with [x0] and [y0]. *)
Record matrix_ok (x0 y0 : Z) (l : lehmer) : Prop := {
  mx_A : 1 ≤ lA l < 2 ^ 63;
  mx_B : 0 ≤ lB l < 2 ^ 63;
  mx_C : 0 ≤ lC l ≤ ly l;
  mx_D : 1 ≤ lD l < 2 ^ 63;
  mx_xy : ly l ≤ lx l < 2 ^ 63;
  mx_det : lA l * lD l - lB l * lC l = 1;
  mx_inverse : if Z.odd (lk l) then x0 = lC l * lx l + lA l * ly l ∧ y0 = lD l * lx l + lB l * ly l
               else x0 = lD l * lx l + lB l * ly l ∧ y0 = lC l * lx l + lA l * ly l;
  mx_k : 0 ≤ lk l ∧ lk l + bits (lx l * ly l) ≤ 126
}.

(** The numbers [a] and [b] have the leading bits [x0] and [y0]. *)
Definition leads (w x0 y0 a b : Z) : Prop :=
  0 ≤ w ∧ 2 ^ w * x0 ≤ a < 2 ^ w * (x0 + 1) ∧ 2 ^ w * y0 ≤ b < 2 ^ w * (y0 + 1).

(** The image lies between multiples of [2^w]. *)
Lemma image_bounds w x0 y0 a b l :
  matrix_ok x0 y0 l → leads w x0 y0 a b →
  let '(a', b') := image l a b in
  2 ^ w * (lx l - lB l) ≤ a' < 2 ^ w * (lx l + lA l) ∧ 2 ^ w * (ly l - lC l) ≤ b' < 2 ^ w * (ly l + lD l).
Proof.
  intros [HA HB HC HD _ Hdet Hinv _] (Hw & Ha & Hb). unfold image.
  set (u := a - 2 ^ w * x0). set (v := b - 2 ^ w * y0). set (W := 2 ^ w) in *.
  assert (0 ≤ u < W ∧ 0 ≤ v < W) as [Hu Hv] by (unfold u, v; lia).
  replace a with (W * x0 + u) by (unfold u; lia). replace b with (W * y0 + v) by (unfold v; lia). clearbody u v W.
  destruct l as [x y A B C D k]. cbn [lx ly lA lB lC lD lk] in *. destruct (Z.odd k), Hinv as [-> ->].
  - replace (A * (W * (D * x + B * y) + v) - B * (W * (C * x + A * y) + u))
      with (W * (x * (A * D - B * C)) + (A * v - B * u)) by ring.
    replace (D * (W * (C * x + A * y) + u) - C * (W * (D * x + B * y) + v))
      with (W * (y * (A * D - B * C)) + (D * u - C * v)) by ring. rewrite Hdet. clear Hdet. nia.
  - replace (A * (W * (D * x + B * y) + u) - B * (W * (C * x + A * y) + v))
      with (W * (x * (A * D - B * C)) + (A * u - B * v)) by ring.
    replace (D * (W * (C * x + A * y) + v) - C * (W * (D * x + B * y) + u))
      with (W * (y * (A * D - B * C)) + (D * v - C * u)) by ring. rewrite Hdet. clear Hdet. nia.
Qed.

(** The image of [a] and [b] is a later pair of the Euclidean algorithm. *)
Definition image_ok (a b : Z) (l : lehmer) : Prop :=
  let '(a', b') := image l a b in
  0 ≤ b' ≤ a' ∧ a' ≤ a ∧ b' ≤ b ∧ Z.gcd a' b' = Z.gcd a b ∧ (lk l ≠ 0 → 2 * (a' * b') ≤ a * b).

(** The values of a turn of the inner loop. *)
Lemma lehmer_turn x y A B C D q :
  q = (x + (A - 1)) / (y - C) → 1 ≤ A → 0 ≤ C < y → y ≤ x → 0 ≤ B + q * D ≤ x - q * y →
  1 ≤ q ∧ q * y ≤ x ∧ x - q * y < y ∧ 2 * (y * (x - q * y)) ≤ x * y.
Proof.
  intros Eq HA HC Hxy Hs.
  assert (1 ≤ q) as Hq1 by (subst q; apply Z.div_le_lower_bound; lia).
  pose proof (Z.mul_succ_div_gt (x + (A - 1)) (y - C) ltac:(lia)) as Hgt. rewrite <- Eq in Hgt.
  assert (x - q * y < y) by nia. split_and!; [done|lia|done|nia].
Qed.

Lemma mul_bound u v m n : 0 ≤ u ≤ m → 0 ≤ v ≤ n → 0 ≤ u * v ≤ m * n.
Proof. nia. Qed.

Lemma lehmer_body_eq x0 y0 x y A B C D k :
  let l := mk_lehmer x y A B C D k in
  matrix_ok x0 y0 l → C < y →
  let q := (x + (A - 1)) / (y - C) in
  lehmer_body l = if x - q * y <? B + q * D then inr l
                  else inl (mk_lehmer y (x - q * y) D C (B + q * D) (A + q * C) (k + 1)).
Proof.
  intros l [HA HB HC HD Hxy _ _ [Hk Hk']] Hy q. pose proof (bits_nonneg (lx l * ly l)).
  unfold l in *. cbn [lx ly lA lB lC lD lk] in *.
  assert (0 ≤ q ≤ 2 ^ 64 - 3) as Hq.
  { split; [apply Z.div_pos; lia|]. apply Z.div_le_upper_bound; [lia|]. nia. }
  pose proof (mul_bound q y _ (2 ^ 63 - 1) Hq ltac:(lia)). pose proof (mul_bound q D _ (2 ^ 63 - 1) Hq ltac:(lia)).
  unfold lehmer_body. rewrite !(s128_id (y - C)), (proj2 (Z.eqb_neq (y - C) 0)) by lia.
  rewrite !(s128_id (A - 1)), !(s128_id (x + (A - 1))), Z.quot_div_nonneg by lia. fold q.
  rewrite !(s128_id q), !(s128_id (q * D)), !(s128_id (q * y)) by lia.
  rewrite !(s128_id (B + q * D)), !(s128_id (x - q * y)) by lia.
  destruct (Z.ltb_spec (x - q * y) (B + q * D)); [done|].
  assert (0 ≤ q * C ≤ q * y) by nia.
  rewrite !(s128_id (q * C)), !(s128_id (A + q * C)), s32_id by lia. done.
Qed.

Lemma odd_S k : Z.odd (k + 1) = negb (Z.odd k).
Proof. by rewrite Z.add_1_r, Z.odd_succ, Z.negb_odd. Qed.

Lemma lehmer_step x0 y0 x y A B C D k :
  let l := mk_lehmer x y A B C D k in
  let q := (x + (A - 1)) / (y - C) in
  let l' := mk_lehmer y (x - q * y) D C (B + q * D) (A + q * C) (k + 1) in
  matrix_ok x0 y0 l → x0 < 2 ^ 63 → y0 ≤ x0 → C < y → B + q * D ≤ x - q * y →
  matrix_ok x0 y0 l' ∧ bits (y * (x - q * y)) < bits (x * y) ∧
  ∀ w a b, leads w x0 y0 a b → image_ok a b l → image_ok a b l'.
Proof.
  intros l q l' Hm Hx0 Hy0 Hy Hs. pose proof Hm as [HA HB HC HD Hxy Hdet Hinv [Hk Hk']].
  unfold l in *. cbn [lx ly lA lB lC lD lk] in *.
  assert (0 ≤ q) as Hq0 by (apply Z.div_pos; lia).
  destruct (lehmer_turn x y A B C D q eq_refl ltac:(lia) ltac:(lia) ltac:(lia) ltac:(nia)) as (Hq & Hqy & Hlt & Hhalf).
  assert (bits (y * (x - q * y)) < bits (x * y)) as Hbits by (apply bits_half; nia).
  pose proof (Z.mul_succ_div_gt (x + (A - 1)) (y - C) ltac:(lia)) as Hgt. fold q in Hgt. unfold l'. clearbody q. clear l'.
  assert (x0 = (if Z.odd k then C * x + A * y else D * x + B * y) ∧
          y0 = (if Z.odd k then D * x + B * y else C * x + A * y)) as [Ex Ey] by by destruct (Z.odd k).
  split; [|split; [done|]].
  - assert (C * (q * y) ≤ C * x) by (apply Z.mul_le_mono_nonneg_l; lia).
    assert ((A + q * C) * y ≤ x0) by (destruct (Z.odd k); lia).
    assert (0 ≤ q * C) by (apply Z.mul_nonneg_nonneg; lia). assert (0 ≤ q * D) by (apply Z.mul_nonneg_nonneg; lia).
    assert ((A + q * C) * 1 ≤ (A + q * C) * y) by (apply Z.mul_le_mono_nonneg_l; lia).
    split; cbn [lx ly lA lB lC lD lk]; [lia|lia|lia|lia|lia| |rewrite odd_S; destruct (Z.odd k); cbn [negb]|lia].
    + rewrite <- Hdet. ring.
    + split; [rewrite Ex|rewrite Ey]; ring.
    + split; [rewrite Ex|rewrite Ey]; ring.
  - intros w a b Hl. pose proof (image_bounds _ _ _ _ _ _ Hm Hl) as Hb.
    unfold image_ok, image in *. cbn [lx ly lA lB lC lD lk] in *. rewrite odd_S.
    destruct (if Z.odd k then (A * b - B * a, D * a - C * b) else (A * a - B * b, D * b - C * a)) as [a' b'] eqn:E.
    replace (if negb (Z.odd k) then (D * b - C * a, (A + q * C) * a - (B + q * D) * b)
             else (D * a - C * b, (A + q * C) * b - (B + q * D) * a)) with (b', a' - q * b')
      by (destruct (Z.odd k); injection E as <- <-; cbn [negb]; f_equal; ring).
    intros (Hab & Ha & Hb' & Hg & Hh). destruct Hl as [Hw _]. pose proof (Z.pow_pos_nonneg 2 w ltac:(lia) Hw).
    set (W := 2 ^ w) in *. clearbody W.
    assert (0 ≤ a' - q * b' < b') as Hr.
    { clear - Hb Hgt Hs H HB HC HD Hq0. nia. }
    destruct (euclid_step_facts a' b' q Hq Hr) as [Eg Hhf].
    split_and!; [lia|lia|lia|lia|by rewrite Eg|]. intros _.
    etrans; [exact Hhf|]. apply Z.mul_le_mono_nonneg; lia.
Qed.

(** The inner loop ends, with a matrix that takes any numbers with the given
    leading bits to a later pair of the Euclidean algorithm. *)
Lemma lehmer_loop_ok x0 y0 :
  0 ≤ y0 ≤ x0 → x0 < 2 ^ 63 →
  ∃ l, lehmer_loop x0 y0 = Ok l ∧ matrix_ok x0 y0 l ∧
    ∀ w a b, leads w x0 y0 a b → 0 ≤ b ≤ a → image_ok a b l.
Proof.
  intros Hy0 Hx0. unfold lehmer_loop.
  apply (while_loop_ok _ (λ l, matrix_ok x0 y0 l ∧ ∀ w a b, leads w x0 y0 a b → 0 ≤ b ≤ a → image_ok a b l)
           (λ l, bits (lx l * ly l))).
  - intros [x y A B C D k] [Hm Himg]. destruct (decide (C = y)) as [->|Hne].
    { unfold lehmer_body. by rewrite Z.sub_diag. }
    pose proof (mx_C _ _ _ Hm) as HC. cbn [lC ly] in HC.
    rewrite (lehmer_body_eq x0 y0) by (done || lia). cbv zeta.
    match goal with |- context [?u <? ?v] => destruct (Z.ltb_spec u v) as [Hs|Hs]; [done|] end.
    destruct (lehmer_step x0 y0 x y A B C D k) as (Hm' & Hbits & Himg'); [done|lia|lia|lia|done|].
    split; [split; [done|naive_solver]|]. split; [apply bits_nonneg|done].
  - split.
    + assert (0 ≤ x0 * y0 < 2 ^ 126) by (change (2 ^ 126) with (2 ^ 63 * 2 ^ 63); nia).
      pose proof (bits_lt (x0 * y0) 126 ltac:(lia) ltac:(lia)).
      split; cbn [lx ly lA lB lC lD lk]; try lia. change (Z.odd 0) with false. cbv iota. lia.
    + intros w a b _ Hab. unfold image_ok, image. cbn [lx ly lA lB lC lD lk]. change (Z.odd 0) with false.
      cbv iota zeta. split_and!; try lia. f_equal; lia.
  - cbn [lx ly]. assert (0 ≤ x0 * y0 < 2 ^ 126) by (change (2 ^ 126) with (2 ^ 63 * 2 ^ 63); nia).
    pose proof (bits_lt (x0 * y0) 126 ltac:(lia) ltac:(lia)). lia.
Qed.

(** * Digits *)

(** The first [n] digits of [l] are the digits of [z], and zeros follow. *)
Record holds (l : list Z) (n : nat) (z : Z) : Prop := {
  h_ok : digits_ok l;
  h_size : (n ≤ length l)%nat;
  h_zeros : drop n l = replicate (length l - n) 0;
  h_normalized : normalized (take n l);
  h_value : digits_value (take n l) = z
}.

Lemma holds_take l n z : holds l n z → digits_ok (take n l) ∧ length (take n l) = n.
Proof. intros H. split; [apply Forall_take, H|]. rewrite length_take. pose proof (h_size _ _ _ H). lia. Qed.

Lemma holds_nonneg l n z : holds l n z → 0 ≤ z < radix_pow n.
Proof.
  intros H. destruct (holds_take _ _ _ H) as [Hok Hlen]. rewrite <- (h_value _ _ _ H).
  pose proof (digits_value_range _ Hok). by rewrite Hlen in *.
Qed.

(** The digits of the smaller number are not more. *)
Lemma holds_le la na a lb nb b : holds la na a → holds lb nb b → b ≤ a → (nb ≤ na)%nat.
Proof.
  intros Ha Hb Hle. destruct (decide (nb ≤ na)%nat); [done|].
  destruct (holds_take _ _ _ Ha) as [Hoka Hla], (holds_take _ _ _ Hb) as [Hokb Hlb].
  pose proof (normalized_length_lt _ _ Hoka Hokb (h_normalized _ _ _ Hb) ltac:(lia)) as Hlt.
  rewrite (h_value _ _ _ Ha), (h_value _ _ _ Hb) in Hlt. lia.
Qed.

(** The leading two digits of a number of [n] digits, some of which may be
    leading zeros. *)
Lemma two_digits ds n :
  digits_ok ds → (2 ≤ n)%nat → length ds = n →
  ∃ lo d1 d2, ds = lo ++ [d1; d2] ∧ length lo = (n - 2)%nat ∧ digit_ok d1 ∧ digit_ok d2 ∧
    0 ≤ digits_value lo < radix_pow (n - 2) ∧
    digits_value ds = digits_value lo + radix_pow (n - 2) * (d1 + BIGNUM_RADIX * d2).
Proof.
  intros Hok Hn Hlen. destruct (digits_snoc_inv ds) as [->|(ds1 & d2 & ->)]; [cbn in Hlen; lia|].
  rewrite length_app in Hlen. cbn in Hlen. destruct (digits_snoc_inv ds1) as [->|(lo & d1 & ->)]; [cbn in Hlen; lia|].
  rewrite length_app in Hlen. cbn in Hlen. apply digits_ok_snoc in Hok as [Hok H2]. apply digits_ok_snoc in Hok as [Hok H1].
  exists lo, d1, d2. rewrite <- app_assoc. assert (length lo = (n - 2)%nat) as Hlo by lia.
  split_and!; [done|done|done|done| | |].
  - by apply digits_value_nonneg.
  - rewrite <- Hlo. by apply digits_value_range.
  - rewrite digits_value_app, Hlo. cbn [digits_value app]. lia.
Qed.

(** The window of 63 bits below the leading one of [d2]. *)
Lemma window d1 d2 nbits :
  digit_ok d1 → 0 ≤ nbits < 62 → 0 ≤ d2 < 2 ^ (nbits + 1) →
  Z.lor (d2 <<! (BIGNUM_DIGIT_LENGTH - nbits)) (Z.shiftr d1 nbits) = (d1 + BIGNUM_RADIX * d2) / 2 ^ nbits ∧
  0 ≤ (d1 + BIGNUM_RADIX * d2) / 2 ^ nbits < 2 ^ 63.
Proof.
  intros [Hd0 Hd1] Hn Hd2. change BIGNUM_DIGIT_LENGTH with 62. rewrite radix_eq in *.
  assert (2 ^ 62 = 2 ^ nbits * 2 ^ (62 - nbits)) as E by (rewrite <- Z.pow_add_r by lia; f_equal; lia).
  assert (0 < 2 ^ nbits) as Hp by (apply Z.pow_pos_nonneg; lia).
  assert (0 ≤ d1 / 2 ^ nbits < 2 ^ (62 - nbits)) as Hq.
  { split; [apply Z.div_pos; lia|]. apply Z.div_lt_upper_bound; lia. }
  rewrite Z.pow_add_r in Hd2 by lia.
  assert (d2 * 2 ^ (62 - nbits) < 2 ^ 63) by (change (2 ^ 63) with (2 * 2 ^ 62); nia).
  rewrite s64_id by (rewrite Z.shiftl_mul_pow2 by lia; unfold is_fixnum; nia).
  rewrite Z.shiftr_div_pow2, lor_shiftl_add by lia.
  assert ((d1 + 2 ^ 62 * d2) / 2 ^ nbits = d2 * 2 ^ (62 - nbits) + d1 / 2 ^ nbits) as ->.
  { rewrite E. replace (d1 + 2 ^ nbits * 2 ^ (62 - nbits) * d2) with (d1 + (d2 * 2 ^ (62 - nbits)) * 2 ^ nbits) by ring.
    rewrite Z.div_add by lia. lia. }
  split; [done|]. split; [nia|]. change (2 ^ 63) with (2 * 2 ^ 62). nia.
Qed.

(** The two digits of [b] at the places of the leading digits of a number with
    [n] digits. *)
Lemma padded_digits lb nb b n :
  holds lb nb b → (nb ≤ n)%nat → (2 ≤ n)%nat →
  ∃ v d1 d2, digit_ok d1 ∧ digit_ok d2 ∧ 0 ≤ v < radix_pow (n - 2) ∧
    b = v + radix_pow (n - 2) * (d1 + BIGNUM_RADIX * d2) ∧
    (if (n - 1 <=? nb)%nat then lb !! (n - 2)%nat = Some d1 else d1 = 0) ∧
    (if (n <=? nb)%nat then lb !! (n - 1)%nat = Some d2 else d2 = 0).
Proof.
  intros H Hnb Hn. destruct (holds_take _ _ _ H) as [Hok Hlen].
  set (pad := take nb lb ++ replicate (n - nb) 0).
  assert (length pad = n) as Hpad by (unfold pad; rewrite length_app, length_replicate; lia).
  destruct (two_digits pad n) as (lo & d1 & d2 & E & Hlo & H1 & H2 & Hv & Ev); [|done|done|].
  { apply Forall_app_2; [done|]. apply Forall_replicate. by split. }
  exists (digits_value lo), d1, d2. split_and!; [done|done|lia|lia| | |].
  - rewrite <- Ev. unfold pad. rewrite digits_value_app, digits_value_replicate_0, (h_value _ _ _ H). lia.
  - assert (pad !! (n - 2)%nat = Some d1) as Hd by (rewrite E, <- Hlo; apply list_lookup_middle; lia).
    unfold pad in Hd. destruct (Nat.leb_spec (n - 1) nb).
    + rewrite lookup_app_l in Hd by lia. rewrite lookup_take in Hd. by case_decide.
    + rewrite lookup_app_r in Hd by lia. by apply lookup_replicate in Hd as [<- _].
  - assert (pad !! (n - 1)%nat = Some d2) as Hd.
    { rewrite E. replace (n - 1)%nat with (length (lo ++ [d1])) by (rewrite length_app; cbn; lia).
      change [d1; d2] with ([d1] ++ [d2]). rewrite app_assoc. by apply list_lookup_middle. }
    unfold pad in Hd. destruct (Nat.leb_spec n nb).
    + rewrite lookup_app_l in Hd by lia. rewrite lookup_take in Hd. by case_decide.
    + rewrite lookup_app_r in Hd by lia. by apply lookup_replicate in Hd as [<- _].
Qed.

(** A number has the leading bits that are its window. *)
Lemma leads_window v X P nbits :
  0 ≤ v < P → 0 ≤ nbits →
  P * 2 ^ nbits * (X / 2 ^ nbits) ≤ v + P * X < P * 2 ^ nbits * (X / 2 ^ nbits + 1).
Proof.
  intros Hv Hn. assert (0 < 2 ^ nbits) as Hp by (apply Z.pow_pos_nonneg; lia).
  pose proof (Z.mul_div_le X (2 ^ nbits) Hp). pose proof (Z.mul_succ_div_gt X (2 ^ nbits) Hp).
  set (x := X / 2 ^ nbits) in *. set (N := 2 ^ nbits) in *. clearbody x N. nia.
Qed.

Lemma leading_bits_ok la na a lb nb b :
  holds la na a → holds lb nb b → b ≤ a → (1 < na)%nat →
  ∃ w x y, leading_bits la na lb nb = Ok (x, y) ∧ leads w x y a b ∧ 0 ≤ y ≤ x ∧ x < 2 ^ 63.
Proof.
  intros Ha Hb Hle Hna. pose proof (holds_le _ _ _ _ _ _ Ha Hb Hle) as Hnb.
  destruct (padded_digits la na a na Ha ltac:(lia) ltac:(lia)) as (u & d1 & d2 & Hd1 & Hd2 & Hu & Ea & R1 & R2).
  destruct (padded_digits lb nb b na Hb Hnb ltac:(lia)) as (v & e1 & e2 & He1 & He2 & Hv & Eb & S1 & S2).
  rewrite (proj2 (Nat.leb_le (na - 1) na)) in R1 by lia. rewrite Nat.leb_refl in R2.
  assert (0 < d2) as Hpos.
  { pose proof (h_normalized _ _ _ Ha) as Hn. unfold normalized in Hn. rewrite last_lookup in Hn.
    destruct (holds_take _ _ _ Ha) as [_ El]. rewrite El, lookup_take, decide_True in Hn by lia.
    replace (pred na) with (na - 1)%nat in Hn by lia. rewrite R2 in Hn. destruct Hd2 as [? _].
    destruct (decide (d2 = 0)) as [->|]; [done|lia]. }
  set (nbits := Z.log2 d2). destruct (Z.log2_spec d2 Hpos) as [Hlo Hhi]. fold nbits in Hlo, Hhi.
  assert (0 ≤ nbits < 62) as Hn.
  { split; [apply Z.log2_nonneg|]. apply Z.log2_lt_pow2; [done|]. apply Hd2. }
  pose proof (radix_pow_pos (na - 2)) as HP. set (P := radix_pow (na - 2)) in *.
  assert (e1 + BIGNUM_RADIX * e2 ≤ d1 + BIGNUM_RADIX * d2) as HX by nia.
  assert (e2 ≤ d2) as He by (unfold digit_ok in *; nia).
  destruct (window d1 d2 nbits Hd1 Hn ltac:(unfold digit_ok in *; lia)) as [Ex Rx].
  destruct (window e1 e2 nbits He1 Hn ltac:(unfold digit_ok in *; lia)) as [Ey Ry].
  set (X := d1 + BIGNUM_RADIX * d2) in *. set (Y := e1 + BIGNUM_RADIX * e2) in *.
  exists (62 * Z.of_nat (na - 2) + nbits), (X / 2 ^ nbits), (Y / 2 ^ nbits). split_and!.
  - unfold leading_bits. rewrite (proj2 (read_Ok _ _ _) R2), result_bind_ok. unfold log2. fold nbits.
    rewrite s32_id by lia. rewrite (proj2 (read_Ok _ _ _) R1), result_bind_ok, Ex.
    assert ((if (na - 1 <=? nb)%nat then d ← read lb (na - 2); Ok (Z.shiftr d nbits) else Ok 0) = Ok (Z.shiftr e1 nbits)) as ->.
    { destruct (na - 1 <=? nb)%nat; [by rewrite (proj2 (read_Ok _ _ _) S1)|]. by rewrite S1, Z.shiftr_0_l. }
    rewrite result_bind_ok.
    assert ((if (na <=? nb)%nat then d ← read lb (na - 1); Ok (d <<! (BIGNUM_DIGIT_LENGTH - nbits)) else Ok 0) =
      Ok (e2 <<! (BIGNUM_DIGIT_LENGTH - nbits))) as ->.
    { destruct (na <=? nb)%nat; [by rewrite (proj2 (read_Ok _ _ _) S2)|]. by rewrite S2, Z.shiftl_0_l. }
    by rewrite result_bind_ok, Z.lor_comm, Ey.
  - assert (2 ^ (62 * Z.of_nat (na - 2) + nbits) = P * 2 ^ nbits) as Ew.
    { rewrite Z.pow_add_r, Z.pow_mul_r by lia. done. }
    unfold leads. rewrite Ew, Ea, Eb. split; [lia|]. split; by apply leads_window; [|lia].
  - lia.
  - apply Z.div_le_mono; [apply Z.pow_pos_nonneg; lia|done].
  - lia.
Qed.

(** ** Applying the matrix *)

Definition coefficients_ok (A B C D : Z) : Prop :=
  0 ≤ A < 2 ^ 63 ∧ 0 ≤ B < 2 ^ 63 ∧ 0 ≤ C < 2 ^ 63 ∧ 0 ≤ D < 2 ^ 63.

(** A carry between two digits. *)
Definition carry_ok (s : Z) : Prop := - 2 ^ 64 ≤ s ≤ 2 ^ 64.

(** A digit and the carry to the next one. *)
Lemma digit_carry z :
  - 2 ^ 126 ≤ z ≤ 2 ^ 126 →
  z = Z.land z BIGNUM_DIGIT_MASK + BIGNUM_RADIX * Z.shiftr z BIGNUM_DIGIT_LENGTH ∧
  digit_ok (Z.land z BIGNUM_DIGIT_MASK) ∧ carry_ok (Z.shiftr z BIGNUM_DIGIT_LENGTH).
Proof.
  intros Hz. rewrite mask_mod, (Z.shiftr_div_pow2 _ 62) by lia. change (2 ^ 62) with BIGNUM_RADIX.
  unfold digit_ok, carry_ok. pose proof (Z.div_mod z BIGNUM_RADIX ltac:(done)).
  pose proof (Z.mod_pos_bound z BIGNUM_RADIX ltac:(done)). rewrite radix_eq in *. lia.
Qed.

Lemma coefficient_digit A x : 0 ≤ A < 2 ^ 63 → digit_ok x → 0 ≤ A * x ≤ 2 ^ 125.
Proof.
  intros HA [Hx0 Hx]. rewrite radix_eq in Hx. pose proof (mul_bound A x (2 ^ 63) (2 ^ 62) ltac:(lia) ltac:(lia)).
  change (2 ^ 125) with (2 ^ 63 * 2 ^ 62). lia.
Qed.

Lemma update_both_spec odd A B C D : coefficients_ok A B C D → ∀ ys xs s t,
  digits_ok xs → digits_ok ys → (length ys ≤ length xs)%nat → carry_ok s → carry_ok t →
  ∃ xs' ys' s' t',
    update_both odd A B C D xs ys s t = Ok (xs', ys', drop (length ys) xs, s', t') ∧
    digits_ok xs' ∧ digits_ok ys' ∧ length xs' = length ys ∧ length ys' = length ys ∧ carry_ok s' ∧ carry_ok t' ∧
    let X := digits_value (take (length ys) xs) in
    let Y := digits_value ys in
    let '(P, Q) := if odd then (Y, X) else (X, Y) in
    digits_value xs' + radix_pow (length ys) * s' = s + A * P - B * Q ∧
    digits_value ys' + radix_pow (length ys) * t' = t + D * Q - C * P.
Proof.
  intros (HA & HB & HC & HD) ys. induction ys as [|y ys IH]; intros xs s t Hx Hy Hl Hs Ht.
  { exists [], [], s, t. cbn [length take drop update_both digits_value]. rewrite Z.pow_0_r.
    unfold carry_ok in *. rewrite take_0. destruct odd; cbn [digits_value]; split_and!; solve [done | lia]. }
  destruct xs as [|x xs]; [cbn in Hl; lia|]. apply Forall_cons in Hx as [Hdx Hx]. apply Forall_cons in Hy as [Hdy Hy].
  cbn [update_both length take drop]. set (pq := if odd then (y, x) else (x, y)).
  assert (digit_ok pq.1 ∧ digit_ok pq.2) as [Hp Hq] by (unfold pq; by destruct odd).
  rewrite (surjective_pairing pq). pose proof (coefficient_digit A pq.1 HA Hp). pose proof (coefficient_digit B pq.2 HB Hq).
  pose proof (coefficient_digit C pq.1 HC Hp). pose proof (coefficient_digit D pq.2 HD Hq).
  unfold carry_ok in Hs, Ht. cbv zeta.
  rewrite !(s128_id (A * pq.1)), !(s128_id (B * pq.2)), !(s128_id (C * pq.1)), !(s128_id (D * pq.2)) by lia.
  rewrite !(s128_id (A * pq.1 - B * pq.2)), !(s128_id (D * pq.2 - C * pq.1)) by lia.
  rewrite !(s128_id (s + _)), !(s128_id (t + _)) by lia.
  set (u := s + (A * pq.1 - B * pq.2)). set (v := t + (D * pq.2 - C * pq.1)).
  destruct (digit_carry u ltac:(unfold u; lia)) as (Eu & Hu & Hcu).
  destruct (digit_carry v ltac:(unfold v; lia)) as (Ev & Hv & Hcv).
  destruct (IH xs _ _ Hx Hy ltac:(cbn in Hl; lia) Hcu Hcv) as (xs' & ys' & s' & t' & E & Hx' & Hy' & Lx & Ly & Hs' & Ht' & Heq).
  rewrite E. exists (Z.land u BIGNUM_DIGIT_MASK :: xs'), (Z.land v BIGNUM_DIGIT_MASK :: ys'), s', t'.
  split_and!; [done|by constructor|by constructor|cbn; lia|cbn; lia|done|done|].
  cbn [digits_value]. rewrite radix_pow_S. revert Heq. unfold u, v, pq in *. cbv zeta.
  destruct odd; cbn [fst snd] in *; intros [E1 E2]; split; nia.
Qed.

Lemma update_rest_spec odd A B C D : coefficients_ok A B C D → ∀ xs s t,
  digits_ok xs → carry_ok s → carry_ok t →
  ∃ xs' s' t', update_rest odd A B C D xs s t = (xs', s', t') ∧
    digits_ok xs' ∧ length xs' = length xs ∧
    let X := digits_value xs in
    digits_value xs' + radix_pow (length xs) * s' = s + (if odd then - B * X else A * X) ∧
    t' = (t + (if odd then D * X else - C * X)) / radix_pow (length xs).
Proof.
  intros (HA & HB & HC & HD) xs. induction xs as [|x xs IH]; intros s t Hx Hs Ht.
  { exists [], s, t. cbn [length update_rest digits_value]. rewrite Z.pow_0_r, Z.div_1_r.
    destruct odd; split_and!; solve [done | lia]. }
  apply Forall_cons in Hx as [Hdx Hx]. cbn [update_rest length]. unfold carry_ok in Hs, Ht.
  pose proof (coefficient_digit A x HA Hdx). pose proof (coefficient_digit B x HB Hdx).
  pose proof (coefficient_digit C x HC Hdx). pose proof (coefficient_digit D x HD Hdx). cbv zeta.
  rewrite !(s128_id (A * x)), !(s128_id (B * x)), !(s128_id (C * x)), !(s128_id (D * x)) by lia.
  rewrite !(s128_id (s + _)), !(s128_id (s - _)), !(s128_id (t + _)), !(s128_id (t - _)) by lia.
  set (u := if odd then s - B * x else s + A * x). set (v := if odd then t + D * x else t - C * x).
  destruct (digit_carry u ltac:(unfold u; destruct odd; lia)) as (Eu & Hu & Hcu).
  destruct (digit_carry v ltac:(unfold v; destruct odd; lia)) as (Ev & Hv & Hcv).
  destruct (IH _ _ Hx Hcu Hcv) as (xs' & s' & t' & -> & Hx' & Lx & E1 & E2).
  eexists _, s', t'. split_and!; [reflexivity|by constructor|cbn; lia|..].
  - cbn [digits_value]. rewrite radix_pow_S. unfold u in *. destruct odd; nia.
  - rewrite E2, radix_pow_S. pose proof (radix_pow_pos (length xs)). cbn [digits_value].
    rewrite <- Z.div_div by done. f_equal. rewrite (Z.shiftr_div_pow2 _ 62) by lia. change (2 ^ 62) with BIGNUM_RADIX.
    unfold v. destruct odd.
    + replace (t + D * (x + BIGNUM_RADIX * digits_value xs)) with (t + D * x + (D * digits_value xs) * BIGNUM_RADIX) by ring.
      by rewrite Z.div_add.
    + replace (t + - C * (x + BIGNUM_RADIX * digits_value xs)) with (t - C * x + (- C * digits_value xs) * BIGNUM_RADIX) by ring.
      by rewrite Z.div_add.
Qed.

Lemma odd_land k : negb (Z.land k 1 =? 0) = Z.odd k.
Proof. change 1 with (2 ^ 0). by rewrite land_pow2_nonzero, Z.bit0_odd. Qed.

(** Leading zeros are left out of the size. *)
Lemma holds_trim l n :
  digits_ok l → (n ≤ length l)%nat → drop n l = replicate (length l - n) 0 →
  holds l (bignum_trim_scan l n) (digits_value (take n l)).
Proof.
  intros Hok Hn Hz. assert (length (take n l) = n) as Hlen by (rewrite length_take; lia).
  rewrite <- (take_drop n l) at 2. rewrite bignum_trim_scan_app by lia.
  pose proof (bignum_trim_scan_spec (take n l)) as (Hle & Hnorm & E). rewrite Hlen in Hle, Hnorm, E.
  set (k := bignum_trim_scan (take n l) n) in *. rewrite take_take, Nat.min_l in Hnorm, E by lia.
  split; [done|lia| |done|].
  - rewrite <- (take_drop n l) at 1. rewrite E, <- app_assoc, drop_app_ge by (rewrite length_take; lia).
    rewrite length_take, Nat.min_l, Nat.sub_diag, drop_0, Hz, <- replicate_add by lia. f_equal. lia.
  - rewrite E, digits_value_app, digits_value_replicate_0. lia.
Qed.

(** A number below the radix power of its digits has no carry. *)
Lemma no_carry ds n s v :
  digits_ok ds → length ds = n → digits_value ds + radix_pow n * s = v → 0 ≤ v < radix_pow n →
  s = 0 ∧ digits_value ds = v.
Proof.
  intros Hok <- E Hv. pose proof (digits_value_range _ Hok). pose proof (radix_pow_pos (length ds)).
  assert (s = 0) as -> by nia. lia.
Qed.

Lemma lehmer_apply_ok la na a lb nb b l :
  holds la na a → holds lb nb b → b ≤ a → coefficients_ok (lA l) (lB l) (lC l) (lD l) → image_ok a b l →
  ∃ la' na' lb' nb', lehmer_apply (mk_gcd la na lb nb) l = Ok (mk_gcd la' na' lb' nb') ∧
    holds la' na' (image l a b).1 ∧ holds lb' nb' (image l a b).2.
Proof.
  intros Ha Hb Hle Hco Himg. pose proof (holds_le _ _ _ _ _ _ Ha Hb Hle) as Hnb.
  destruct (holds_take _ _ _ Ha) as [Hoka Hla], (holds_take _ _ _ Hb) as [Hokb Hlb].
  pose proof (h_size _ _ _ Ha) as Sa. pose proof (h_size _ _ _ Hb) as Sb.
  pose proof (holds_nonneg _ _ _ Ha) as Ra. pose proof (holds_nonneg _ _ _ Hb) as Rb.
  unfold lehmer_apply, first_digits. rewrite !(proj2 (Nat.leb_le _ _)), !result_bind_ok, odd_land by done.
  set (odd := Z.odd (lk l)) in *.
  destruct (update_both_spec odd _ _ _ _ Hco (take nb lb) (take na la) 0 0)
    as (xs1 & ys1 & s1 & t1 & E & Hx1 & Hy1 & Lx1 & Ly1 & Cs & Ct & Eq1); [done|done|lia|done|done|].
  rewrite E, result_bind_ok. clear E. rewrite Hlb in *.
  destruct (update_rest_spec odd _ _ _ _ Hco (drop nb (take na la)) s1 t1) as (xs2 & s2 & t2 & -> & Hx2 & Lx2 & Es & Et);
    [by apply Forall_drop|done|done|].
  assert (length (drop nb (take na la)) = (na - nb)%nat) as Lr by (rewrite length_drop; lia). rewrite Lr in *.
  set (X0 := digits_value (take nb (take na la))) in *. set (X1 := digits_value (drop nb (take na la))) in *.
  assert (a = X0 + radix_pow nb * X1) as Ea.
  { rewrite <- (h_value _ _ _ Ha), <- (take_drop nb (take na la)), digits_value_app, length_take, Hla, Nat.min_l by lia. done. }
  rewrite (h_value _ _ _ Hb) in Eq1.
  assert (radix_pow na = radix_pow nb * radix_pow (na - nb)) as Ep by (rewrite <- radix_pow_add; f_equal; lia).
  unfold image_ok in Himg. destruct (image l a b) as [a' b'] eqn:Ei. destruct Himg as (Hab & Haa & Hbb & _).
  destruct (no_carry (xs1 ++ xs2) na s2 a') as [-> Ea']; [by apply Forall_app_2|rewrite length_app; lia| |lia|].
  { rewrite digits_value_app, Lx1, Ep. unfold image in Ei. fold odd in Ei.
    destruct odd; injection Ei as <- <-; destruct Eq1 as [Eq1 _]; nia. }
  destruct (no_carry ys1 nb (t1 + (if odd then lD l * X1 else - lC l * X1)) b') as [Et1 Eb']; [done|done| |lia|].
  { unfold image in Ei. fold odd in Ei. destruct odd; injection Ei as <- <-; destruct Eq1 as [_ Eq1]; nia. }
  rewrite Et1, Zdiv_0_l in Et. rewrite Et, Z.eqb_refl, check_true, !result_bind_ok.
  set (la' := xs1 ++ xs2 ++ drop na la). set (lb' := ys1 ++ drop nb lb).
  assert (la' = (xs1 ++ xs2) ++ drop na la) as Ela by (unfold la'; by rewrite app_assoc).
  assert (length (xs1 ++ xs2) = na) as Lx by (rewrite length_app; lia).
  assert (holds la' (bignum_trim_scan la' na) a') as Ha'.
  { rewrite <- Ea', Ela. rewrite <- (take_app_length' (xs1 ++ xs2) (drop na la) na) at 3 by done. apply holds_trim.
    - apply Forall_app_2; [by apply Forall_app_2|]. apply Forall_drop, Ha.
    - rewrite length_app. lia.
    - rewrite drop_app_length', (h_zeros _ _ _ Ha), !length_app, length_replicate by done. f_equal. rewrite length_app in Lx. lia. }
  assert (holds lb' (bignum_trim_scan lb' nb) b') as Hb'.
  { rewrite <- Eb'. unfold lb'. rewrite <- (take_app_length' ys1 (drop nb lb) nb) at 3 by done. apply holds_trim.
    - apply Forall_app_2; [done|]. apply Forall_drop, Hb.
    - rewrite length_app. lia.
    - rewrite drop_app_length', (h_zeros _ _ _ Hb), !length_app, length_replicate by done. f_equal. lia. }
  rewrite (proj2 (Nat.leb_le _ _)) by (apply (holds_le _ _ _ _ _ _ Ha' Hb'); lia).
  eexists _, _, _, _. split; [reflexivity|]. done.
Qed.

(** ** A Euclidean step *)

Lemma holds_copy t n z ds :
  holds t n z → digits_ok ds → normalized ds → (length ds ≤ n)%nat →
  ∃ t', copy_digits t ds n = Ok t' ∧ holds t' (length ds) (digits_value ds).
Proof.
  intros Ht Hok Hn Hl. pose proof (h_size _ _ _ Ht). unfold copy_digits. rewrite Nat.max_r by lia.
  rewrite (proj2 (Nat.leb_le _ _)) by done. eexists. split; [reflexivity|]. rewrite (h_zeros _ _ _ Ht), <- replicate_add.
  split.
  - apply Forall_app_2; [done|]. apply Forall_replicate. by split.
  - rewrite length_app. lia.
  - rewrite drop_app_length, length_app, length_replicate. f_equal. lia.
  - by rewrite take_app_length.
  - by rewrite take_app_length.
Qed.

Section steps.
Context `{!alloc_env Z}.

Lemma holds_bignum l n z : holds l n z → bignum_ok (mk_bignum false (take n l)) ∧ bignum_value (mk_bignum false (take n l)) = z.
Proof. intros H. split; [split|]; [apply Forall_take, H|apply H|done|apply H]. Qed.

Lemma holds_full l n z : holds l n z → digits_value l = z.
Proof.
  intros H. rewrite <- (take_drop n l), digits_value_app, (h_zeros _ _ _ H), digits_value_replicate_0, (h_value _ _ _ H). lia.
Qed.

Lemma holds_bignum_trim l n z : holds l n z → bignum_trim (mk_bignum false l) = mk_bignum false (take n l).
Proof.
  intros H. destruct (bignum_trim_denotes false l (h_ok _ _ _ H) ltac:(done)) as [Hok Hv].
  destruct (holds_bignum _ _ _ H) as [Hok' Hv'].
  apply bignum_value_inj; [done|done|]. rewrite Hv, Hv'. by eapply holds_full.
Qed.

Lemma holds_after_trim l n z : holds l n z → holds (after_trim l) n z.
Proof.
  intros H. unfold after_trim. destruct in_nursery; [|done]. rewrite (holds_bignum_trim _ _ _ H). cbn [bn_digits].
  destruct (holds_take _ _ _ H) as [Hok Hl].
  split; rewrite ?Hl, ?take_take, ?Nat.min_id; [done|lia| |apply H|apply H].
  by rewrite Nat.sub_diag, drop_ge by lia.
Qed.

Lemma euclid_step_ok la na a lb nb b :
  holds la na a → holds lb nb b → 0 < b ≤ a →
  ∃ la' lb' nc, euclid_step (mk_gcd la na lb nb) = Ok (mk_gcd la' nb lb' nc) ∧
    holds la' nb b ∧ holds lb' nc (a mod b).
Proof.
  intros Ha Hb Hab. pose proof (holds_le _ _ _ _ _ _ Ha Hb ltac:(lia)) as Hnb.
  pose proof (holds_after_trim _ _ _ Ha) as Ha'. pose proof (holds_after_trim _ _ _ Hb) as Hb'.
  destruct (holds_bignum _ _ _ Ha) as [Hoka Va], (holds_bignum _ _ _ Hb) as [Hokb Vb].
  destruct (holds_take _ _ _ Hb') as [Hokb' Lb'].
  unfold euclid_step. rewrite (holds_bignum_trim _ _ _ Ha), (holds_bignum_trim _ _ _ Hb).
  pose proof (bignum_remainder_spec _ _ Hoka Hokb) as Hc. unfold division_result in Hc. rewrite Va, Vb in Hc.
  destruct (bignum_remainder _ _) as [c|e]; [|lia]. destruct Hc as [_ [[Hokc Hnc _] Vc]]. rewrite result_bind_ok.
  rewrite Z.rem_mod_nonneg in Vc by lia. pose proof (Z.mod_pos_bound a b ltac:(lia)) as Hr.
  assert (digits_value (bn_digits c) = a mod b) as Ec.
  { pose proof (digits_value_nonneg _ Hokc). unfold bignum_value in Vc. destruct (bn_negative c); lia. }
  assert (length (bn_digits c) ≤ nb)%nat as Hlc.
  { destruct (decide (length (bn_digits c) ≤ nb)%nat); [done|]. destruct (holds_take _ _ _ Hb) as [Hok Hl].
    pose proof (normalized_length_lt _ _ Hok Hokc Hnc ltac:(lia)) as Hlt. rewrite (h_value _ _ _ Hb) in Hlt. lia. }
  unfold first_digits. rewrite (proj2 (Nat.leb_le _ _)), result_bind_ok by apply Hb'.
  destruct (holds_copy _ _ _ (take nb (after_trim lb)) Ha' Hokb' (h_normalized _ _ _ Hb') ltac:(lia)) as (la' & -> & Hla').
  rewrite result_bind_ok. destruct (holds_copy _ _ _ _ Hb' Hokc Hnc Hlc) as (lb' & -> & Hlb'). rewrite result_bind_ok.
  exists la', lb', (length (bn_digits c)). rewrite Lb', (h_value _ _ _ Hb') in Hla'. rewrite Ec in Hlb'. done.
Qed.

(** ** The outer loop *)

Lemma holds_zero l n z : holds l n z → (n = 0%nat ↔ z = 0).
Proof.
  intros H. destruct (holds_take _ _ _ H) as [Hok Hl]. rewrite <- (h_value _ _ _ H). split.
  - intros ->. by rewrite take_0.
  - intros Hz. by rewrite <- Hl, (normalized_zero _ Hok (h_normalized _ _ _ H) Hz).
Qed.

(** Nothing is decided when the leading bits of [b] are zero. *)
Lemma lehmer_loop_zero x : lehmer_loop x 0 = Ok (mk_lehmer x 0 1 0 0 1 0).
Proof.
  unfold lehmer_loop. set (l := mk_lehmer x 0 1 0 0 1 0).
  destruct (while_loop_ok lehmer_body (λ l', l' = l) (λ _, 0) (λ l', l' = l) l) as (l' & -> & ->); [|done|done|done].
  by intros l' ->.
Qed.

(** The state of the outer loop, with the numbers it holds. *)
Record gcd_holds (st : gcd_state) (a b : Z) : Prop := {
  gh_a : holds (ga st) (size_a st) a;
  gh_b : holds (gb st) (size_b st) b;
  gh_le : b ≤ a
}.

Lemma gcd_turn_ok st a b :
  gcd_holds st a b → (1 < size_a st)%nat →
  (b = 0 → gcd_turn st = Ok (inr (bignum_of_Z a))) ∧
  (0 < b → ∃ st' a' b', gcd_turn st = Ok (inl st') ∧ gcd_holds st' a' b' ∧ 0 ≤ b' ∧
     Z.gcd a' b' = Z.gcd a b ∧ 2 * (a' * b') ≤ a * b).
Proof.
  destruct st as [la na lb nb]. intros [Ha Hb Hle] Hna. cbn [ga gb size_a size_b] in *.
  destruct (leading_bits_ok _ _ _ _ _ _ Ha Hb Hle Hna) as (w & x & y & Exy & Hl & Hy & Hx).
  unfold gcd_turn. cbn [ga gb size_a size_b]. rewrite Exy, result_bind_ok. split.
  - intros ->. assert (y = 0) as ->.
    { destruct Hl as (Hw & _ & Hl). pose proof (Z.pow_pos_nonneg 2 w ltac:(lia) Hw). nia. }
    rewrite lehmer_loop_zero, result_bind_ok. cbn [lk]. rewrite Z.eqb_refl, (proj2 (holds_zero _ _ _ Hb)) by done.
    rewrite Nat.eqb_refl. do 2 f_equal. apply denotes_of_Z. rewrite (holds_bignum_trim _ _ _ Ha).
    by apply holds_bignum.
  - intros Hpos. destruct (lehmer_loop_ok x y Hy Hx) as (l & -> & Hm & Himg). rewrite result_bind_ok.
    specialize (Himg w a b Hl ltac:(lia)). destruct (Z.eqb_spec (lk l) 0) as [Hk|Hk].
    + rewrite (proj2 (Nat.eqb_neq nb 0)) by (rewrite (holds_zero _ _ _ Hb); lia).
      destruct (euclid_step_ok _ _ _ _ _ _ Ha Hb ltac:(lia)) as (la' & lb' & nc & -> & Ha' & Hb').
      pose proof (Z.mod_pos_bound a b Hpos) as Hr. rewrite Z.mod_eq in Hr by lia.
      destruct (euclid_step_facts a b (a / b)) as [Hg Hh]; [apply Z.div_le_lower_bound; lia|lia|].
      exists (mk_gcd la' nb lb' nc), b, (a mod b). rewrite Z.mod_eq in * by lia.
      rewrite (Z.mul_comm b (a / b)) in *. split; [done|]. split; [by split; [..|lia]|]. split; [lia|]. done.
    + pose proof Hm as [HA HB HC HD Hxy _ _ _].
      destruct (lehmer_apply_ok _ _ _ _ _ _ l Ha Hb Hle) as (la' & na' & lb' & nb' & -> & Ha' & Hb'); [|done|].
      { unfold coefficients_ok. lia. }
      unfold image_ok in Himg. destruct (image l a b) as [a' b']. destruct Himg as (Hab & _ & _ & Hg & Hh).
      exists (mk_gcd la' na' lb' nb'), a', b'. split; [done|]. split; [by split; [..|cbn; lia]|].
      split; [lia|]. split; [done|]. by apply Hh.
Qed.

(** The outer loop ends with the result, or with numbers of at most one digit
    that have the same divisors. *)
Lemma gcd_loop_ok st a b :
  gcd_holds st a b → Z.of_nat (length (ga st)) < 2 ^ 57 → Z.of_nat (length (gb st)) < 2 ^ 57 →
  ∃ out, while_loop gcd_body st = Ok (Ok out) ∧
    match out with
    | inr g => g = bignum_of_Z (Z.gcd a b)
    | inl st' => ∃ a' b', gcd_holds st' a' b' ∧ 0 ≤ b' ∧ a' < BIGNUM_RADIX ∧ Z.gcd a' b' = Z.gcd a b
    end.
Proof.
  intros Hst La Lb. set (Q := λ out : result (gcd_state + bignum), ∃ out', out = Ok out' ∧
    match out' with
    | inr g => g = bignum_of_Z (Z.gcd a b)
    | inl st' => ∃ a' b', gcd_holds st' a' b' ∧ 0 ≤ b' ∧ a' < BIGNUM_RADIX ∧ Z.gcd a' b' = Z.gcd a b
    end).
  destruct (while_loop_ok gcd_body
    (λ st, ∃ a' b', gcd_holds st a' b' ∧ 0 ≤ b' ∧ Z.gcd a' b' = Z.gcd a b)
    (λ st, bits (digits_value (ga st) * digits_value (gb st))) Q st) as (out & -> & out' & -> & Hout).
  - intros st1 (a1 & b1 & H1 & Hb1 & Hg). unfold gcd_body. destruct (Nat.ltb_spec 1 (size_a st1)) as [Hs|Hs].
    + destruct (gcd_turn_ok _ _ _ H1 Hs) as [Hz Hp]. destruct (decide (b1 = 0)) as [->|Hne].
      * rewrite Hz by done. eexists. split; [done|]. cbv beta iota. rewrite <- Hg, Z.gcd_0_r, Z.abs_eq; [done|].
        apply H1.
      * destruct Hp as (st' & a' & b' & -> & H' & Hb' & Hg' & Hh); [lia|].
        split; [exists a', b'; by rewrite Hg'|].
        rewrite (holds_full _ _ _ (gh_a _ _ _ H')), (holds_full _ _ _ (gh_b _ _ _ H')),
          (holds_full _ _ _ (gh_a _ _ _ H1)), (holds_full _ _ _ (gh_b _ _ _ H1)).
        pose proof (gh_le _ _ _ H'). pose proof (gh_le _ _ _ H1). split; [apply bits_nonneg|]. apply bits_half; nia.
    + eexists. split; [done|]. exists a1, b1. split_and!; [done|done| |done].
      destruct (holds_nonneg _ _ _ (gh_a _ _ _ H1)) as [_ Hlt]. eapply Z.lt_le_trans; [exact Hlt|].
      transitivity (radix_pow 1); [apply Z.pow_le_mono_r; [done|lia]|done].
  - exists a, b. split_and!; [done| |done]. by apply (holds_nonneg _ _ _ (gh_b _ _ _ Hst)).
  - pose proof (digits_value_range _ (h_ok _ _ _ (gh_a _ _ _ Hst))) as Ra.
    pose proof (digits_value_range _ (h_ok _ _ _ (gh_b _ _ _ Hst))) as Rb.
    eapply Z.le_lt_trans; [apply (bits_lt _ (62 * (Z.of_nat (length (ga st)) + Z.of_nat (length (gb st))))); [lia|]|lia].
    rewrite Z.pow_mul_r, Z.pow_add_r by lia. change (2 ^ 62) with BIGNUM_RADIX. split; [nia|].
    apply Z.mul_lt_mono_nonneg; lia.
  - by exists out'.
Qed.

Lemma fixnum_gcd_ok x y : 0 ≤ x → 0 ≤ y < 2 ^ 64 → fixnum_gcd x y = Ok (Z.gcd x y).
Proof.
  intros Hx Hy. unfold fixnum_gcd.
  destruct (while_loop_ok (λ '(xx, yy), if yy =? 0 then inr xx else inl (yy, xx `rem` yy))
    (λ '(u, v), 0 ≤ u ∧ 0 ≤ v ∧ Z.gcd u v = Z.gcd x y) snd (λ g, g = Z.gcd x y) (x, y)) as (g & -> & ->); [|cbn; lia|cbn; lia|done].
  intros [u v] (Hu & Hv & Hg). destruct (Z.eqb_spec v 0) as [->|Hne].
  - rewrite <- Hg, Z.gcd_0_r. lia.
  - rewrite Z.rem_mod_nonneg by lia. pose proof (Z.mod_pos_bound u v ltac:(lia)).
    split; [|cbn; lia]. split_and!; [lia|lia|]. by rewrite Z.gcd_comm, Z.gcd_mod, Z.gcd_comm.
Qed.

Lemma holds_digits x : bignum_ok x → holds (bn_digits x) (BIGNUM_LENGTH x) (Z.abs (bignum_value x)).
Proof.
  intros [Hok Hn Hz]. unfold BIGNUM_LENGTH. split; rewrite ?firstn_all, ?drop_all, ?Nat.sub_diag; try done.
  pose proof (digits_value_nonneg _ Hok). unfold bignum_value. destruct (bn_negative x); lia.
Qed.

Lemma fixnum_of_digits l n z : holds l n z → z < 2 ^ 63 → bignum_to_fixnum (mk_bignum false l) = z.
Proof.
  intros H Hz. unfold bignum_to_fixnum. rewrite bignum_to_foo_value. unfold bignum_value. cbn [bn_negative bn_digits].
  rewrite (holds_full _ _ _ H). apply cast_id. pose proof (holds_nonneg _ _ _ H). unfold in_type, is_fixnum. lia.
Qed.

Lemma bignum_gcd_denotes x y :
  bignum_ok x → bignum_ok y → Z.of_nat (BIGNUM_LENGTH x) < 2 ^ 57 → Z.of_nat (BIGNUM_LENGTH y) < 2 ^ 57 →
  ∃ g, bignum_gcd x y = Ok g ∧ denotes g (Z.gcd (bignum_value x) (bignum_value y)).
Proof.
  intros Hx Hy Lx Ly. exists (bignum_of_Z (Z.gcd (bignum_value x) (bignum_value y))).
  split; [|apply bignum_of_Z_denotes]. rewrite <- (Z.gcd_abs_l (bignum_value x)), <- (Z.gcd_abs_r _ (bignum_value y)).
  pose proof (holds_digits _ Hx) as Ha. pose proof (holds_digits _ Hy) as Hb.
  unfold bignum_gcd, bignum_destructive_copy.
  rewrite !allot_bignum_write by done. cbn [bn_digits bn_negative allot_bignum].
  set (cx := mk_bignum false (bn_digits x)). set (cy := mk_bignum false (bn_digits y)).
  set (a := Z.abs (bignum_value x)) in *. set (b := Z.abs (bignum_value y)) in *.
  assert (bignum_compare cx cy = comparison_of (a ?= b)) as Hcmp.
  { destruct Hx as [Hx1 Hx2 _], Hy as [Hy1 Hy2 _].
    rewrite bignum_compare_spec by (split; done). f_equal. unfold bignum_value at 1 2, cx, cy. cbn [bn_negative bn_digits].
    by rewrite (holds_full _ _ _ Ha), (holds_full _ _ _ Hb). }
  assert (∃ p q : bignum, (if decide (bignum_compare cx cy = BIGNUM_COMPARISON_LESS) then (cy, cx) else (cx, cy)) = (p, q) ∧
    Z.of_nat (BIGNUM_LENGTH p) < 2 ^ 57 ∧ Z.of_nat (BIGNUM_LENGTH q) < 2 ^ 57 ∧ ∃ u v,
    gcd_holds (mk_gcd (bn_digits p) (BIGNUM_LENGTH p) (bn_digits q) (BIGNUM_LENGTH q)) u v ∧ Z.gcd u v = Z.gcd a b)
    as (p & q & -> & Lp & Lq & u & v & Hst & Hg).
  { rewrite Hcmp. destruct (Z.compare_spec a b); cbn [comparison_of]; case_decide; try done.
    - exists cx, cy. split_and!; [done..|]. exists a, b. split; [split; [done|done|lia]|done].
    - exists cy, cx. split_and!; [done..|]. exists b, a. split; [split; [done|done|lia]|apply Z.gcd_comm].
    - exists cx, cy. split_and!; [done..|]. exists a, b. split; [split; [done|done|lia]|done]. }
  destruct (gcd_loop_ok _ _ _ Hst Lp Lq) as (out & -> & Hout). rewrite !result_bind_ok.
  destruct out as [st'|g]; [|by rewrite Hout, Hg].
  destruct Hout as (a' & b' & [Ha' Hb' Hle] & Hb0 & Hlt & Hg'). rewrite radix_eq in Hlt.
  rewrite (fixnum_of_digits _ _ _ Ha'), (fixnum_of_digits _ _ _ Hb'), fixnum_gcd_ok, result_bind_ok, Hg', Hg by lia.
  apply foo_to_bignum_spec. unfold in_type, is_fixnum. pose proof (Z.gcd_nonneg a b).
  rewrite <- Hg, <- Hg' in *. destruct (decide (a' = 0)) as [->|].
  - assert (b' = 0) as -> by lia. by change (Z.gcd 0 0) with 0.
  - pose proof (Z.divide_pos_le (Z.gcd a' b') a' ltac:(lia) (Z.gcd_divide_l a' b')). lia.
Qed.

(** A Euclidean step halves the product. *)
Lemma mod_half a b : 0 < b ≤ a → 2 * (b * (a mod b)) ≤ a * b.
Proof. intros. pose proof (Z.mod_pos_bound a b ltac:(lia)). pose proof (Z.div_mod a b ltac:(lia)).
  assert (1 ≤ a / b) by (apply Z.div_le_lower_bound; lia). assert (2 * (a mod b) ≤ a) by nia. nia. Qed.

Lemma bignum_abs_ok x : bignum_ok x →
  bignum_ok (mk_bignum false (bn_digits x)) ∧ bignum_value (mk_bignum false (bn_digits x)) = Z.abs (bignum_value x).
Proof.
  intros Hx. pose proof (holds_full _ _ _ (holds_digits _ Hx)) as Hv. split; [|done].
  destruct Hx as [H1 H2 _]. by split.
Qed.

Lemma gcd_win64_loop_ok x y :
  bignum_ok x → bignum_ok y → 0 ≤ bignum_value y ≤ bignum_value x → bits (bignum_value x * bignum_value y) < 2 ^ 64 →
  ∃ g, while_loop gcd_win64_body (x, y) = Ok (Ok g) ∧ denotes g (Z.gcd (bignum_value x) (bignum_value y)).
Proof.
  intros Hx Hy Hle Hbits.
  destruct (while_loop_ok gcd_win64_body
    (λ '(u, v), bignum_ok u ∧ bignum_ok v ∧ 0 ≤ bignum_value v ≤ bignum_value u ∧
       Z.gcd (bignum_value u) (bignum_value v) = Z.gcd (bignum_value x) (bignum_value y))
    (λ '(u, v), bits (bignum_value u * bignum_value v))
    (λ g, ∃ g', g = Ok g' ∧ denotes g' (Z.gcd (bignum_value x) (bignum_value y))) (x, y))
    as (g & -> & g' & -> & Hg); [|done|done|eauto].
  intros [u v] (Hu & Hv & Huv & Hg). unfold gcd_win64_body.
  destruct (Nat.eqb_spec (BIGNUM_LENGTH v) 0) as [Hz|Hz].
  - exists u. split; [done|]. apply (holds_zero _ _ _ (holds_digits _ Hv)) in Hz.
    assert (bignum_value v = 0) as Hv0 by lia. rewrite Hv0, Z.gcd_0_r, Z.abs_eq in Hg by lia. by split.
  - assert (bignum_value v ≠ 0) as Hne.
    { intros E. apply Hz, (holds_zero _ _ _ (holds_digits _ Hv)). lia. }
    pose proof (bignum_remainder_spec _ _ Hu Hv) as Hc. unfold division_result in Hc.
    destruct (bignum_remainder u v) as [c|e]; [|lia]. destruct Hc as [_ [Hok Vc]].
    rewrite Z.rem_mod_nonneg in Vc by lia. rewrite Vc.
    pose proof (Z.mod_pos_bound (bignum_value u) (bignum_value v) ltac:(lia)).
    pose proof (mod_half (bignum_value u) (bignum_value v) ltac:(lia)).
    split; [split_and!; [done|done|lia|lia|by rewrite Z.gcd_comm, Z.gcd_mod, Z.gcd_comm by lia]|].
    split; [apply bits_nonneg|]. apply bits_half; nia.
Qed.

Lemma bignum_gcd_win64_denotes x y :
  bignum_ok x → bignum_ok y → Z.of_nat (BIGNUM_LENGTH x) < 2 ^ 57 → Z.of_nat (BIGNUM_LENGTH y) < 2 ^ 57 →
  ∃ g, bignum_gcd_win64 x y = Ok g ∧ denotes g (Z.gcd (bignum_value x) (bignum_value y)).
Proof.
  intros Hx Hy Lx Ly. rewrite <- (Z.gcd_abs_l (bignum_value x)), <- (Z.gcd_abs_r _ (bignum_value y)).
  unfold bignum_gcd_win64. rewrite !bignum_maybe_new_sign_eq.
  destruct (bignum_abs_ok _ Hx) as [Hcx Vx], (bignum_abs_ok _ Hy) as [Hcy Vy].
  set (cx := mk_bignum false (bn_digits x)) in *. set (cy := mk_bignum false (bn_digits y)) in *.
  assert (bits (bignum_value cx * bignum_value cy) < 2 ^ 64) as Hbits.
  { pose proof (holds_nonneg _ _ _ (holds_digits _ Hx)) as Rx. pose proof (holds_nonneg _ _ _ (holds_digits _ Hy)) as Ry.
    eapply Z.le_lt_trans; [apply (bits_lt _ (62 * (Z.of_nat (BIGNUM_LENGTH x) + Z.of_nat (BIGNUM_LENGTH y)))); [lia|]|lia].
    rewrite Vx, Vy, Z.pow_mul_r, Z.pow_add_r by lia. change (2 ^ 62) with BIGNUM_RADIX. split; [nia|].
    apply Z.mul_lt_mono_nonneg; apply Rx || apply Ry. }
  rewrite bignum_compare_spec, <- Vx, <- Vy by done.
  destruct (Z.compare_spec (bignum_value cx) (bignum_value cy)); cbn [comparison_of]; case_decide; try done.
  - destruct (gcd_win64_loop_ok cx cy) as (g & -> & Hg); [done|done|lia|done|eauto].
  - destruct (gcd_win64_loop_ok cy cx) as (g & -> & Hg); [done|done|lia|by rewrite Z.mul_comm|].
    rewrite Z.gcd_comm. eauto.
  - destruct (gcd_win64_loop_ok cx cy) as (g & -> & Hg); [done|done|lia|done|eauto].
Qed.
End steps.
