(* ===== verification/Integers.v ===== *)
(** Bignum arithmetic refines integer arithmetic.

    The abstract specification of vm/bignum.cpp is [Z] itself: every
    well-formed bignum is [bignum_of_Z z] for exactly one [z]
    ([denotes_of_Z]), and each operation maps the bignums of integers to the
    bignum of the mathematical result, for every allocator.  Where an
    operation can fail (division by zero) the theorem says exactly when. *)

From S2P Require Import Prelude.
From S2P Require Import Layouts.
From S2P Require Import Arrays.
From S2P Require Import Bignum.
From S2P Require Import BignumAdd.
From S2P Require Import BignumMul.
From S2P Require Import BignumDiv.
From S2P Require Import BignumKnuthD.
From S2P Require Import BignumDivide.
From S2P Require Import BignumBits.
From S2P Require Import BignumConv.
From S2P Require Import BignumGcd.

(** From [denotes] to [bignum_of_Z]. *)
Ltac of_Z_result H :=
  destruct H as (? & -> & ?);
  match goal with H : denotes _ _ |- _ => apply denotes_of_Z in H as ->; by rewrite ?bignum_of_Z_value end.

Section integers.
Context `{!alloc_env Z}.

(** Comparison of bignums is comparison of the integers, and equality
    of bignums is equality of the integers. *)
Theorem bignum_compare_of_Z m n :
  bignum_compare (bignum_of_Z m) (bignum_of_Z n) = comparison_of (m ?= n) ∧
  bignum_equal_p (bignum_of_Z m) (bignum_of_Z n) = bool_decide (m = n).
Proof.
  rewrite bignum_compare_spec, bignum_equal_p_spec by apply bignum_of_Z_ok.
  by rewrite !bignum_of_Z_value.
Qed.

(** C9. [bignum_add] and [bignum_subtract] are integer addition and
    subtraction: no digit operation overflows 64 bits, no assertion fails and
    no access is out of bounds. *)
Theorem bignum_add_subtract_of_Z m n :
  bignum_add (bignum_of_Z m) (bignum_of_Z n) = Ok (bignum_of_Z (m + n)) ∧
  bignum_subtract (bignum_of_Z m) (bignum_of_Z n) = Ok (bignum_of_Z (m - n)).
Proof.
  split; [of_Z_result (bignum_add_denotes _ _ (bignum_of_Z_ok m) (bignum_of_Z_ok n))|].
  of_Z_result (bignum_subtract_denotes _ _ (bignum_of_Z_ok m) (bignum_of_Z_ok n)).
Qed.


Lemma bignum_divide_both m n :
  bignum_divide (bignum_of_Z m) (bignum_of_Z n) =
    if n =? 0 then Err ERROR_DIVIDE_BY_ZERO
    else Ok (bignum_of_Z (Z.quot m n), bignum_of_Z (Z.rem m n)).
Proof.
  pose proof (bignum_divide_spec _ _ (bignum_of_Z_ok m) (bignum_of_Z_ok n)) as H.
  unfold division_result in H. rewrite !bignum_of_Z_value in H.
  destruct (bignum_divide _ _) as [[q r]|e].
  - destruct H as (Hn & Hq & Hr). destruct (Z.eqb_spec n 0); [done|].
    by apply denotes_of_Z in Hq as ->, Hr as ->.
  - by destruct H as [-> ->].
Qed.

(** C3. [bignum_divide] computes the truncated quotient and the remainder
    with the sign of the numerator for every nonzero denominator, and
    signals [ERROR_DIVIDE_BY_ZERO] for zero: Knuth's algorithm D, its
    normalization and its correction steps included.  [bignum_quotient] and
    [bignum_remainder], which ask the division for one of its results only,
    agree with it. *)
Theorem bignum_divide_of_Z m n :
  (bignum_divide (bignum_of_Z m) (bignum_of_Z n) =
     if n =? 0 then Err ERROR_DIVIDE_BY_ZERO
     else Ok (bignum_of_Z (Z.quot m n), bignum_of_Z (Z.rem m n))) ∧
  (bignum_quotient (bignum_of_Z m) (bignum_of_Z n) =
     if n =? 0 then Err ERROR_DIVIDE_BY_ZERO else Ok (bignum_of_Z (Z.quot m n))) ∧
  (bignum_remainder (bignum_of_Z m) (bignum_of_Z n) =
     if n =? 0 then Err ERROR_DIVIDE_BY_ZERO else Ok (bignum_of_Z (Z.rem m n))).
Proof.
  split; [apply bignum_divide_both|].
  pose proof (bignum_quotient_spec _ _ (bignum_of_Z_ok m) (bignum_of_Z_ok n)) as Hq.
  pose proof (bignum_remainder_spec _ _ (bignum_of_Z_ok m) (bignum_of_Z_ok n)) as Hr.
  unfold division_result in Hq, Hr. rewrite !bignum_of_Z_value in Hq, Hr. split.
  - destruct (bignum_quotient _ _); [|by destruct Hq as [-> ->]].
    destruct Hq as [Hn Hq], (Z.eqb_spec n 0); [done|]. by apply denotes_of_Z in Hq as ->.
  - destruct (bignum_remainder _ _); [|by destruct Hr as [-> ->]].
    destruct Hr as [Hn Hr], (Z.eqb_spec n 0); [done|]. by apply denotes_of_Z in Hr as ->.
Qed.

(** C11. [bignum_gcd], Lehmer's algorithm, computes the greatest common
    divisor of integers of any sign, whose bignums have less than [2^57]
    digits (an address space of [2^60] bytes).  Both loops end, no operation
    on 128 bits overflows, the updates of the digits leave no carry, and every
    pair the algorithm goes through is in order.  The Euclidean algorithm of
    the Windows build computes the same. *)
Theorem bignum_gcd_of_Z m n :
  Z.of_nat (BIGNUM_LENGTH (bignum_of_Z m)) < 2 ^ 57 → Z.of_nat (BIGNUM_LENGTH (bignum_of_Z n)) < 2 ^ 57 →
  bignum_gcd (bignum_of_Z m) (bignum_of_Z n) = Ok (bignum_of_Z (Z.gcd m n)) ∧
  bignum_gcd_win64 (bignum_of_Z m) (bignum_of_Z n) = bignum_gcd (bignum_of_Z m) (bignum_of_Z n).
Proof.
  intros Hm Hn.
  assert (bignum_gcd (bignum_of_Z m) (bignum_of_Z n) = Ok (bignum_of_Z (Z.gcd m n))) as Hgcd
    by of_Z_result (bignum_gcd_denotes _ _ (bignum_of_Z_ok m) (bignum_of_Z_ok n) Hm Hn).
  split; [done|]. rewrite Hgcd.
  of_Z_result (bignum_gcd_win64_denotes _ _ (bignum_of_Z_ok m) (bignum_of_Z_ok n) Hm Hn).
Qed.

(** An arithmetic shift by a 64-bit amount multiplies by a power of two
    or divides by one rounding down, on negative integers too. *)
Theorem bignum_arithmetic_shift_of_Z m n :
  - 2 ^ 63 < n < 2 ^ 63 →
  bignum_arithmetic_shift (bignum_of_Z m) n = bignum_of_Z (Z.shiftl m n).
Proof.
  intros Hn. pose proof (bignum_arithmetic_shift_denotes _ n (bignum_of_Z_ok m) Hn) as H.
  apply denotes_of_Z in H as ->. by rewrite bignum_of_Z_value.
Qed.

(** Bitwise and, inclusive or and complement of any integers in two's
    complement. *)
Theorem bignum_bitwise_and_ior_not_of_Z m n :
  bignum_bitwise_and (bignum_of_Z m) (bignum_of_Z n) = bignum_of_Z (Z.land m n) ∧
  bignum_bitwise_ior (bignum_of_Z m) (bignum_of_Z n) = bignum_of_Z (Z.lor m n) ∧
  bignum_bitwise_not (bignum_of_Z m) = bignum_of_Z (Z.lnot m).
Proof.
  split_and!; [exact (bignum_bitwise_of_Z AND_OP m n)|exact (bignum_bitwise_of_Z IOR_OP m n)|].
  pose proof (bignum_bitwise_not_denotes _ (bignum_of_Z_ok m)) as H.
  apply denotes_of_Z in H as ->. by rewrite bignum_of_Z_value.
Qed.

(** C17. Exclusive or is exact except in one case, where the result is 0:
    operands of different signs whose exclusive or is minus the power of
    the radix that has one digit more than the result was allotted.  The
    case is reached: [2^124 - 1] and [-1] give 0 instead of [- 2^124]. *)
Theorem bignum_bitwise_xor_of_Z m n :
  (bignum_bitwise_xor (bignum_of_Z m) (bignum_of_Z n) =
     if xor_overflow m n then BIGNUM_ZERO else bignum_of_Z (Z.lxor m n)) ∧
  bignum_bitwise_xor (bignum_of_Z (2 ^ 124 - 1)) (bignum_of_Z (-1)) = bignum_of_Z 0 ∧
  Z.lxor (2 ^ 124 - 1) (-1) = - 2 ^ 124.
Proof.
  split; [|split; [|reflexivity]].
  2:{ pose proof (bignum_bitwise_of_Z XOR_OP (2 ^ 124 - 1) (-1)) as H. exact H. }
  change (bignum_bitwise_xor _ _) with (bignum_bitwise XOR_OP (bignum_of_Z m) (bignum_of_Z n)).
  rewrite bignum_bitwise_of_Z. by destruct (xor_overflow m n).
Qed.

(** [bignum_logbitp] reads one bit of the two's complement of any
    integer, for a bit index that is a nonnegative [int]. *)
Theorem bignum_logbitp_of_Z i m :
  0 ≤ i < 2 ^ 31 → bignum_logbitp i (bignum_of_Z m) = Ok (Z.testbit m i).
Proof. intros Hi. rewrite bignum_logbitp_spec by (done || apply bignum_of_Z_ok). by rewrite bignum_of_Z_value. Qed.

(** [bignum_integer_length] of a nonzero bignum (of fewer than [2^61]
    digits) is the floor of the binary logarithm of its magnitude. *)
Theorem bignum_integer_length_of_Z m :
  m ≠ 0 → Z.of_nat (BIGNUM_LENGTH (bignum_of_Z m)) < 2 ^ 61 →
  bignum_integer_length (bignum_of_Z m) = Ok (bignum_of_Z (Z.log2 (Z.abs m))).
Proof.
  intros Hm Hl. of_Z_result (bignum_integer_length_denotes (bignum_of_Z m) (bignum_of_Z_ok m)
    ltac:(intros E; apply Hm; rewrite <- (bignum_of_Z_value m); unfold bignum_value; rewrite E;
          by destruct (bn_negative (bignum_of_Z m))) Hl).
Qed.

(** Conversion from machine integers is exact at full width (the most
    negative [fixnum] included), conversion to them is reduction modulo
    [2^64], so a machine integer survives the round trip. *)
Theorem foo_to_bignum_roundtrip type n m :
  in_type type n →
  foo_to_bignum type n = Ok (bignum_of_Z n) ∧ bignum_to_foo type (bignum_of_Z n) = n ∧
  bignum_to_foo type (bignum_of_Z m) = cast type m.
Proof.
  intros Hn. rewrite foo_to_bignum_spec, !bignum_to_foo_value, !bignum_of_Z_value, cast_id by done. done.
Qed.

(** [bignum_to_fixnum_strict] returns every integer in the range of a
    tagged fixnum and signals [ERROR_OUT_OF_FIXNUM_RANGE] for the others; its
    assertion never fails. *)
Theorem bignum_to_fixnum_strict_of_Z m :
  bignum_to_fixnum_strict (bignum_of_Z m) =
    if decide (fixnum_range m) then Ok m else Err ERROR_OUT_OF_FIXNUM_RANGE.
Proof.
  apply bignum_to_fixnum_strict_spec.
Qed.
End integers.

(** * Witnesses *)

Lemma bignum_gcd_of_Z_witness :
  @bignum_gcd plain_alloc (bignum_of_Z (- 3 ^ 200 * 5)) (bignum_of_Z (3 ^ 150 * 2 ^ 80)) = Ok (bignum_of_Z (3 ^ 150)).
Proof.
  destruct (@bignum_gcd_of_Z plain_alloc (- 3 ^ 200 * 5) (3 ^ 150 * 2 ^ 80)) as [Hgcd _];
    [vm_compute; reflexivity..|]. rewrite Hgcd. vm_compute; reflexivity.
Defined.

Lemma bignum_arithmetic_shift_of_Z_witness :
  @bignum_arithmetic_shift plain_alloc (bignum_of_Z (-7)) (-1) = bignum_of_Z (Z.shiftl (-7) (-1)).
Proof. apply (@bignum_arithmetic_shift_of_Z plain_alloc (-7) (-1)). lia. Defined.

Lemma bignum_logbitp_of_Z_witness :
  @bignum_logbitp plain_alloc 3 (bignum_of_Z (-9)) = Ok (Z.testbit (-9) 3).
Proof. apply (@bignum_logbitp_of_Z plain_alloc 3 (-9)). lia. Defined.

Lemma bignum_integer_length_of_Z_witness :
  @bignum_integer_length plain_alloc (bignum_of_Z (2 ^ 70)) = Ok (bignum_of_Z (Z.log2 (Z.abs (2 ^ 70)))).
Proof. apply (@bignum_integer_length_of_Z plain_alloc (2 ^ 70)); eval_side. Defined.

Lemma foo_to_bignum_roundtrip_witness :
  @foo_to_bignum plain_alloc SIGNED (- 2 ^ 63) = Ok (bignum_of_Z (- 2 ^ 63)) ∧
  bignum_to_foo SIGNED (bignum_of_Z (- 2 ^ 63)) = - 2 ^ 63 ∧
  bignum_to_foo SIGNED (bignum_of_Z (2 ^ 64 + 5)) = cast SIGNED (2 ^ 64 + 5).
Proof. apply (@foo_to_bignum_roundtrip plain_alloc SIGNED (- 2 ^ 63) (2 ^ 64 + 5)). eval_side. Defined.
