(* ===== verification/Math.v ===== *)
(** Integer primitives: vm/math.cpp, vm/math.hpp.

    A primitive works on the data stack of the current context; the model is
    a function on the stack, a list with the top first.  Popping or reading
    an empty stack is [BAD_ACCESS].  A stack cell is a [value]: what the tag
    and the object behind the pointer are.  A fixnum cell keeps its payload
    modulo [2^60] ([untag_tag_fixnum] of Layouts).  [FACTOR_ASSERT]s on tags
    are modelled as in a debug build. *)

From S2P Require Import Prelude.
From S2P Require Import Layouts.
From S2P Require Import Arrays.
From S2P Require Import Bignum.
From S2P Require Import BignumAdd.
From S2P Require Import BignumMul.
From S2P Require Import BignumDiv.
From S2P Require Import BignumDivide.
From S2P Require Import BignumBits.
From S2P Require Import BignumConv.
From S2P Require Import BignumGcd.
Local Open Scope fixnum_scope.

(** What a cell of the data stack holds. *)
Inductive value :=
  | Fixnum (n : Z)
  | Boolean (b : bool)
  | Bignum (b : bignum)
  | Other (type : Z).

#[export] Instance value_eq_dec : EqDecision value.
Proof. solve_decision. Defined.

Abbreviation stack := (list value).

(** src/vm/contexts.hpp:57-57 [context::peek] *)
Definition peek (st : stack) : result value :=
  match st with v :: _ => Ok v | [] => Err BAD_ACCESS end.

(** src/vm/contexts.hpp:59-59 [context::replace] *)
Definition replace (st : stack) (v : value) : result stack :=
  match st with _ :: st' => Ok (v :: st') | [] => Err BAD_ACCESS end.

(** src/vm/contexts.hpp:61-65 [context::pop] *)
Definition pop (st : stack) : result (value * stack) :=
  match st with v :: st' => Ok (v, st') | [] => Err BAD_ACCESS end.

(** src/vm/contexts.hpp:67-70 [context::push] *)
Definition push (st : stack) (v : value) : stack := v :: st.

(** The value of the cell [tag_fixnum(n)]. *)
Definition tagged_fixnum (n : Z) : value := Fixnum (s60 n).

(** [untag_fixnum], with its assertion on the tag. *)
Definition untagged_fixnum (v : value) : result Z :=
  match v with Fixnum n => Ok n | _ => Err ASSERTION_FAILED end.

(** [untag<bignum>], with its assertion on the tag. *)
Definition untagged_bignum (v : value) : result bignum :=
  match v with Bignum b => Ok b | _ => Err ASSERTION_FAILED end.

(** src/vm/bignum.cpp:399-403 [bignum_maybe_to_fixnum] *)
Definition bignum_maybe_to_fixnum (bn : bignum) : value :=
  if bignum_fits_fixnum_p bn then tagged_fixnum (bignum_to_fixnum bn) else Bignum bn.

(** src/vm/math.cpp:51-55 [sign_mask] *)
Definition sign_mask (x : Z) : Z := Z.shiftr x (WORD_SIZE - 1).

(** src/vm/math.cpp:57-59 [branchless_max] *)
Definition branchless_max (x y : Z) : Z := x -! Z.land (x -! y) (sign_mask (x -! y)).

(** src/vm/math.cpp:61-63 [branchless_abs] *)
Definition branchless_abs (x : Z) : Z := Z.lxor x (sign_mask x) -! sign_mask x.

(** The type of a value, as its tag says. *)
Definition value_type (v : value) : Z :=
  match v with Fixnum _ => FIXNUM_TYPE | Bignum _ => BIGNUM_TYPE | Boolean _ => F_TYPE | Other t => t end.

(** src/vm/math.cpp:328-343 [CELL_TO_FOO]: a macro over the C type and the
    conversion of a bignum. *)
Definition cell_to_foo (type : int_type) (converter : bignum → result Z) (v : value) : result Z :=
  match v with
  | Fixnum n => Ok (cast type n)
  | Bignum b => converter b
  | _ => Err (ERROR_TYPE FIXNUM_TYPE)
  end.

(** src/vm/math.cpp:345-345 [to_fixnum] *)
Definition to_fixnum : value → result Z := cell_to_foo SIGNED (λ b, Ok (bignum_to_fixnum b)).
(** src/vm/math.cpp:346-346 [to_fixnum_strict] *)
Definition to_fixnum_strict : value → result Z := cell_to_foo SIGNED bignum_to_fixnum_strict.
(** src/vm/math.cpp:347-347 [to_cell] *)
Definition to_cell : value → result Z := cell_to_foo UNSIGNED (λ b, Ok (bignum_to_cell b)).
(** src/vm/math.cpp:348-348 [to_signed_8] *)
Definition to_signed_8 : value → result Z := cell_to_foo SIGNED (λ b, Ok (bignum_to_long_long b)).
(** src/vm/math.cpp:349-349 [to_unsigned_8] *)
Definition to_unsigned_8 : value → result Z := cell_to_foo UNSIGNED (λ b, Ok (bignum_to_ulong_long b)).

(** src/vm/math.hpp:50-58 [unbox_array_size] *)
Definition unbox_array_size (st : stack) : result (Z * stack) :=
  '(obj, st) ← pop st;
  n ← to_fixnum_strict obj;
  if (0 <=? n) && (n <? array_size_max) then Ok (n, st) else Err ERROR_ARRAY_SIZE.

Section primitives.
Context `{!alloc_env Z}.

(** src/vm/math.hpp:8-13 [from_signed_cell] *)
Definition from_signed_cell (x : Z) : result value :=
  if (x <? fixnum_min) || (fixnum_max <? x) then b ← fixnum_to_bignum x; Ok (Bignum b)
  else Ok (tagged_fixnum x).

(** src/vm/math.hpp:15-20 [from_unsigned_cell] *)
Definition from_unsigned_cell (x : Z) : result value :=
  if fixnum_max <? x then b ← cell_to_bignum x; Ok (Bignum b) else Ok (tagged_fixnum x).

(** src/vm/math.cpp:361-367 [from_signed_8] *)
Definition from_signed_8 (n : Z) : result value :=
  if (n <? fixnum_min) || (fixnum_max <? n) then b ← long_long_to_bignum n; Ok (Bignum b)
  else Ok (tagged_fixnum n).

(** src/vm/math.cpp:373-379 [from_unsigned_8] *)
Definition from_unsigned_8 (n : Z) : result value :=
  if fixnum_max <? n then b ← ulong_long_to_bignum n; Ok (Bignum b) else Ok (tagged_fixnum n).

(** src/vm/math.cpp:97-99 [POP_BIGNUMS] (part):
    [POP_BIGNUMS]: [y] is popped, [x] is left to be replaced. *)
Definition POP_BIGNUMS (st : stack) : result (bignum * bignum * stack) :=
  '(v, st) ← pop st; y ← untagged_bignum v;
  u ← peek st; x ← untagged_bignum u;
  Ok (x, y, st).

(** src/vm/math.cpp:24-25 [primitive_fixnum_divint] (part):
    The operands of a fixnum primitive. *)
Definition pop_fixnums (st : stack) : result (Z * Z * stack) :=
  '(v, st) ← pop st; y ← untagged_fixnum v;
  u ← peek st; x ← untagged_fixnum u;
  Ok (x, y, st).

(** src/vm/math.cpp:8-10 [primitive_bignum_to_fixnum] *)
Definition primitive_bignum_to_fixnum (st : stack) : result stack :=
  v ← peek st; b ← untagged_bignum v; replace st (tagged_fixnum (bignum_to_fixnum b)).

(** src/vm/math.cpp:12-14 [primitive_bignum_to_fixnum_strict] *)
Definition primitive_bignum_to_fixnum_strict (st : stack) : result stack :=
  v ← peek st; b ← untagged_bignum v; n ← bignum_to_fixnum_strict b; replace st (tagged_fixnum n).

(** src/vm/math.cpp:20-32 [primitive_fixnum_divint]: C++ division by zero is
    undefined and traps on the supported processors. *)
Definition primitive_fixnum_divint (st : stack) : result stack :=
  '(x, y, st) ← pop_fixnums st;
  if y =? 0 then Err ERROR_DIVIDE_BY_ZERO
  else
    let result := s64 (x `quot` y) in
    if result =? - fixnum_min then v ← from_signed_cell (- fixnum_min); replace st v
    else replace st (tagged_fixnum result).

(** src/vm/math.cpp:34-48 [primitive_fixnum_divmod] *)
Definition primitive_fixnum_divmod (st : stack) : result stack :=
  match st with
  | s0 :: s1 :: st' =>
      y ← untagged_fixnum s0;
      x ← untagged_fixnum s1;
      if (y =? -1) && (x =? fixnum_min) then
        v ← from_signed_cell (- fixnum_min);
        Ok (tagged_fixnum 0 :: v :: st')
      else if y =? 0 then Err ERROR_DIVIDE_BY_ZERO
      else Ok (tagged_fixnum (x `rem` y) :: tagged_fixnum (x `quot` y) :: st')
  | _ => Err BAD_ACCESS
  end.

(** src/vm/math.cpp:84-84 [primitive_fixnum_shift] (part):
    The fall-through of [primitive_fixnum_shift] to bignums. *)
Definition fixnum_shift_bignum (st : stack) (x y : Z) : result stack :=
  b ← fixnum_to_bignum x; replace st (Bignum (bignum_arithmetic_shift b y)).

(** src/vm/math.cpp:65-85 [primitive_fixnum_shift] *)
Definition primitive_fixnum_shift (st : stack) : result stack :=
  '(x, y, st) ← pop_fixnums st;
  if x =? 0 then Ok st
  else if y <? 0 then
    let y := branchless_max y (- WORD_SIZE + 1) in
    replace st (tagged_fixnum (Z.shiftr x (- y)))
  else if y <? WORD_SIZE - TAG_BITS then
    let mask := s64 (- (1 <<! (WORD_SIZE - 1 - TAG_BITS - y))) in
    if Z.land (branchless_abs x) mask =? 0 then replace st (tagged_fixnum (x <<! y))
    else fixnum_shift_bignum st x y
  else fixnum_shift_bignum st x y.

(** src/vm/math.cpp:87-90 [primitive_fixnum_to_bignum] *)
Definition primitive_fixnum_to_bignum (st : stack) : result stack :=
  v ← peek st; n ← untagged_fixnum v; b ← fixnum_to_bignum n; replace st (Bignum b).

(** src/vm/math.cpp:101-104 [primitive_bignum_eq] *)
Definition primitive_bignum_eq (st : stack) : result stack :=
  '(x, y, st) ← POP_BIGNUMS st; replace st (Boolean (bignum_equal_p x y)).

(** src/vm/math.cpp:106-110 [primitive_bignum_add] *)
Definition primitive_bignum_add (st : stack) : result stack :=
  '(x, y, st) ← POP_BIGNUMS st; r ← bignum_add x y; replace st (Bignum r).

(** src/vm/math.cpp:112-116 [primitive_bignum_subtract] *)
Definition primitive_bignum_subtract (st : stack) : result stack :=
  '(x, y, st) ← POP_BIGNUMS st; r ← bignum_subtract x y; replace st (Bignum r).

(** src/vm/math.cpp:118-122 [primitive_bignum_multiply]: [same] says whether
    the two cells hold the same pointer. *)
Definition primitive_bignum_multiply (same : bool) (st : stack) : result stack :=
  '(x, y, st) ← POP_BIGNUMS st; r ← bignum_multiply same x y; replace st (Bignum r).

(** src/vm/math.cpp:124-128 [primitive_bignum_divint] *)
Definition primitive_bignum_divint (st : stack) : result stack :=
  '(x, y, st) ← POP_BIGNUMS st; r ← bignum_quotient x y; replace st (Bignum r).

(** src/vm/math.cpp:130-140 [primitive_bignum_divmod] *)
Definition primitive_bignum_divmod (st : stack) : result stack :=
  match st with
  | s0 :: s1 :: st' =>
      y ← untagged_bignum s0;
      x ← untagged_bignum s1;
      '(q, r) ← bignum_divide x y;
      Ok (bignum_maybe_to_fixnum r :: Bignum q :: st')
  | _ => Err BAD_ACCESS
  end.

(** src/vm/math.cpp:142-146 [primitive_bignum_mod] *)
Definition primitive_bignum_mod (st : stack) : result stack :=
  '(x, y, st) ← POP_BIGNUMS st; r ← bignum_remainder x y; replace st (bignum_maybe_to_fixnum r).

(** src/vm/math.cpp:148-151 [primitive_bignum_gcd] *)
Definition primitive_bignum_gcd (st : stack) : result stack :=
  '(x, y, st) ← POP_BIGNUMS st; g ← bignum_gcd x y; replace st (Bignum g).

(** src/vm/math.cpp:153-156 [primitive_bignum_and] *)
Definition primitive_bignum_and (st : stack) : result stack :=
  '(x, y, st) ← POP_BIGNUMS st; replace st (Bignum (bignum_bitwise_and x y)).

(** src/vm/math.cpp:158-161 [primitive_bignum_or] *)
Definition primitive_bignum_or (st : stack) : result stack :=
  '(x, y, st) ← POP_BIGNUMS st; replace st (Bignum (bignum_bitwise_ior x y)).

(** src/vm/math.cpp:163-166 [primitive_bignum_xor] *)
Definition primitive_bignum_xor (st : stack) : result stack :=
  '(x, y, st) ← POP_BIGNUMS st; replace st (Bignum (bignum_bitwise_xor x y)).

(** src/vm/math.cpp:168-173 [primitive_bignum_shift] *)
Definition primitive_bignum_shift (st : stack) : result stack :=
  '(v, st) ← pop st; y ← untagged_fixnum v;
  u ← peek st; x ← untagged_bignum u;
  replace st (Bignum (bignum_arithmetic_shift x y)).

(** src/vm/math.cpp:175-178 [primitive_bignum_less] *)
Definition primitive_bignum_less (st : stack) : result stack :=
  '(x, y, st) ← POP_BIGNUMS st;
  replace st (Boolean (bool_decide (bignum_compare x y = BIGNUM_COMPARISON_LESS))).

(** src/vm/math.cpp:180-183 [primitive_bignum_lesseq] *)
Definition primitive_bignum_lesseq (st : stack) : result stack :=
  '(x, y, st) ← POP_BIGNUMS st;
  replace st (Boolean (bool_decide (bignum_compare x y ≠ BIGNUM_COMPARISON_GREATER))).

(** src/vm/math.cpp:185-188 [primitive_bignum_greater] *)
Definition primitive_bignum_greater (st : stack) : result stack :=
  '(x, y, st) ← POP_BIGNUMS st;
  replace st (Boolean (bool_decide (bignum_compare x y = BIGNUM_COMPARISON_GREATER))).

(** src/vm/math.cpp:190-193 [primitive_bignum_greatereq] *)
Definition primitive_bignum_greatereq (st : stack) : result stack :=
  '(x, y, st) ← POP_BIGNUMS st;
  replace st (Boolean (bool_decide (bignum_compare x y ≠ BIGNUM_COMPARISON_LESS))).

(** src/vm/math.cpp:195-197 [primitive_bignum_not] *)
Definition primitive_bignum_not (st : stack) : result stack :=
  v ← peek st; b ← untagged_bignum v; replace st (Bignum (bignum_bitwise_not b)).

(** src/vm/math.cpp:199-203 [primitive_bignum_bitp]: the bit index is cast to
    [int]. *)
Definition primitive_bignum_bitp (st : stack) : result stack :=
  '(v, st) ← pop st; n ← to_fixnum v;
  let bit := s32 n in
  u ← peek st; x ← untagged_bignum u;
  b ← bignum_logbitp bit x;
  replace st (Boolean b).

(** src/vm/math.cpp:205-207 [primitive_bignum_log2] *)
Definition primitive_bignum_log2 (st : stack) : result stack :=
  v ← peek st; b ← untagged_bignum v; r ← bignum_integer_length b; replace st (Bignum r).

(** src/vm/math.cpp:393-399 [overflow_fixnum_add]: [x] and [y] are tagged. *)
Definition overflow_fixnum_add (x y : value) (st : stack) : result stack :=
  x ← untagged_fixnum x; y ← untagged_fixnum y;
  b ← fixnum_to_bignum (x +! y); replace st (Bignum b).

(** src/vm/math.cpp:405-409 [overflow_fixnum_subtract] *)
Definition overflow_fixnum_subtract (x y : value) (st : stack) : result stack :=
  x ← untagged_fixnum x; y ← untagged_fixnum y;
  b ← fixnum_to_bignum (x -! y); replace st (Bignum b).

(** src/vm/math.cpp:415-421 [overflow_fixnum_multiply]: [x] and [y] are
    untagged; [fixnum_to_bignum] returns the same object for equal arguments
    when they are 0, 1 or -1. *)
Definition overflow_fixnum_multiply (x y : Z) (st : stack) : result stack :=
  bx ← fixnum_to_bignum x; by_ ← fixnum_to_bignum y;
  r ← bignum_multiply ((x =? y) && (Z.abs x <=? 1)) bx by_; replace st (Bignum r).
End primitives.

(** * What the primitives compute *)

(** The canonical cell of an integer: a fixnum if it fits, else a bignum. *)
Definition integer_value (z : Z) : value :=
  if decide (fixnum_range z) then Fixnum z else Bignum (bignum_of_Z z).

Lemma tagged_fixnum_id z : fixnum_range z → tagged_fixnum z = Fixnum z.
Proof. intros. unfold tagged_fixnum. by rewrite s60_id. Qed.

Lemma fixnum_test z : (z <? fixnum_min) || (fixnum_max <? z) = negb (bool_decide (fixnum_range z)).
Proof.
  unfold fixnum_range. destruct (Z.ltb_spec z fixnum_min), (Z.ltb_spec fixnum_max z), (bool_decide_reflect (fixnum_min ≤ z ≤ fixnum_max));
    cbn; (done || lia).
Qed.

Lemma sign_mask_eq x : is_fixnum x → sign_mask x = if x <? 0 then -1 else 0.
Proof.
  unfold is_fixnum, sign_mask, WORD_SIZE. intros Hx. rewrite Z.shiftr_div_pow2 by lia.
  change (2 ^ (64 - 1)) with (2 ^ 63). destruct (Z.ltb_spec x 0); dlia.
Qed.

Lemma branchless_max_eq x y : is_fixnum x → is_fixnum y → is_fixnum (x - y) → branchless_max x y = Z.max x y.
Proof.
  intros Hx Hy Hd. unfold branchless_max. rewrite (s64_id (x - y)), sign_mask_eq by done.
  destruct (Z.ltb_spec (x - y) 0).
  - rewrite Z.land_m1_r. rewrite s64_id; unfold is_fixnum in *; lia.
  - rewrite Z.land_0_r, Z.sub_0_r, s64_id by done. lia.
Qed.

Lemma branchless_abs_eq x : is_fixnum x → x ≠ - 2 ^ 63 → branchless_abs x = Z.abs x.
Proof.
  intros Hx Hne. unfold branchless_abs. rewrite sign_mask_eq by done. unfold is_fixnum in Hx.
  destruct (Z.ltb_spec x 0).
  - rewrite Z.lxor_m1_r. unfold Z.lnot. rewrite s64_id by (unfold is_fixnum; lia). lia.
  - rewrite Z.lxor_0_r, Z.sub_0_r, s64_id by (unfold is_fixnum; lia). lia.
Qed.

(** No bit of [|x|] at or above [k]: the test of [primitive_fixnum_shift]. *)
Lemma abs_mask_zero a k :
  0 ≤ a < 2 ^ 63 → 0 ≤ k < 63 → (Z.land a (- 2 ^ k) =? 0) = (a <? 2 ^ k).
Proof.
  intros Ha Hk. replace (- 2 ^ k) with (Z.lnot (Z.ones k)) by (rewrite Z.ones_equiv; unfold Z.lnot; lia).
  assert (0 < 2 ^ k) by (apply Z.pow_pos_nonneg; lia).
  assert (Z.land a (Z.lnot (Z.ones k)) = Z.shiftl (Z.shiftr a k) k) as ->.
  { apply Z.bits_inj'. intros i Hi. rewrite Z.land_spec, Z.lnot_spec by done. destruct (decide (i < k)).
    - rewrite Z.ones_spec_low, Z.shiftl_spec_low by lia. apply andb_false_r.
    - rewrite Z.ones_spec_high, Z.shiftl_spec, Z.shiftr_spec by lia. rewrite andb_true_r. f_equal. lia. }
  rewrite Z.shiftr_div_pow2, Z.shiftl_mul_pow2 by lia.
  destruct (Z.ltb_spec a (2 ^ k)); [by rewrite Z.div_small by lia|].
  apply Z.eqb_neq. assert (1 ≤ a / 2 ^ k) by (apply Z.div_le_lower_bound; lia). nia.
Qed.

(** A shift past the width of a fixnum leaves only the sign. *)
Lemma shiftr_sign_fill x n :
  - 2 ^ 59 ≤ x < 2 ^ 59 → 59 ≤ n → Z.shiftr x n = if x <? 0 then -1 else 0.
Proof.
  intros Hx Hn. rewrite Z.shiftr_div_pow2 by lia.
  assert (2 ^ 59 ≤ 2 ^ n) by (apply Z.pow_le_mono_r; lia). destruct (Z.ltb_spec x 0).
  - symmetry. apply (Z.div_unique_pos _ _ _ (x + 2 ^ n)); lia.
  - apply Z.div_small. lia.
Qed.

Section theorems.
Context `{!alloc_env Z}.

Lemma fixnum_to_bignum_of_Z n : is_fixnum n → fixnum_to_bignum n = Ok (bignum_of_Z n).
Proof. apply (foo_to_bignum_spec SIGNED). Qed.

Lemma from_signed_cell_spec x : is_fixnum x → from_signed_cell x = Ok (integer_value x).
Proof.
  intros Hx. unfold from_signed_cell, integer_value. rewrite fixnum_test, fixnum_to_bignum_of_Z by done.
  case_bool_decide as Hr; cbn; [|by rewrite decide_False].
  by rewrite decide_True, tagged_fixnum_id.
Qed.

Lemma bignum_shift_of_Z m n :
  - 2 ^ 63 < n < 2 ^ 63 →
  bignum_arithmetic_shift (bignum_of_Z m) n = bignum_of_Z (Z.shiftl m n).
Proof.
  intros Hn. rewrite <- (bignum_of_Z_value m) at 2. apply denotes_of_Z.
  apply bignum_arithmetic_shift_denotes; [apply bignum_of_Z_ok|done].
Qed.

(** What [primitive_fixnum_shift] leaves: the shifted integer, as a fixnum
    or as a bignum. *)
Definition is_integer (v : value) (z : Z) : Prop :=
  (v = Fixnum z ∧ fixnum_range z) ∨ v = Bignum (bignum_of_Z z).

Lemma fixnum_shift_left_small x y :
  fixnum_range x → 0 ≤ y < 60 →
  (Z.land (branchless_abs x) (s64 (- (1 <<! (WORD_SIZE - 1 - TAG_BITS - y)))) =? 0) =
    (Z.abs x <? 2 ^ (59 - y)).
Proof.
  rewrite fixnum_range_eq. intros Hx Hy. rewrite branchless_abs_eq by (unfold is_fixnum; lia).
  change (WORD_SIZE - 1 - TAG_BITS - y) with (59 - y). rewrite Z.shiftl_1_l.
  assert (0 < 2 ^ (59 - y)) by (apply Z.pow_pos_nonneg; lia).
  assert (2 ^ (59 - y) ≤ 2 ^ 59) by (apply Z.pow_le_mono_r; lia).
  rewrite (s64_id (2 ^ (59 - y))), s64_id by (unfold is_fixnum; lia). apply abs_mask_zero; lia.
Qed.

(** [primitive_fixnum_shift] computes the arithmetic shift of any two
    fixnums exactly: right shifts by any amount, left shifts that stay in a
    fixnum, and left shifts that overflow into a bignum. *)
Theorem primitive_fixnum_shift_spec x y st :
  fixnum_range x → fixnum_range y →
  ∃ v, primitive_fixnum_shift (Fixnum y :: Fixnum x :: st) = Ok (v :: st) ∧
    is_integer v (Z.shiftl x y).
Proof.
  intros Hx Hy. pose proof (proj1 (fixnum_range_eq x) Hx) as Hx'. pose proof (proj1 (fixnum_range_eq y) Hy) as Hy'.
  unfold primitive_fixnum_shift. cbn. change (WORD_SIZE - TAG_BITS) with 60.
  assert (∃ v, fixnum_shift_bignum (Fixnum x :: st) x y = Ok (v :: st) ∧ is_integer v (Z.shiftl x y)) as Hbig.
  { unfold fixnum_shift_bignum. rewrite fixnum_to_bignum_of_Z by (unfold is_fixnum; lia). cbn.
    rewrite bignum_shift_of_Z by lia. eexists; split; [done|by right]. }
  destruct (Z.eqb_spec x 0) as [->|Hx0].
  { eexists; split; [done|]. left. rewrite Z.shiftl_0_l. done. }
  destruct (Z.ltb_spec y 0) as [Hneg|Hpos].
  - rewrite branchless_max_eq by (unfold is_fixnum; change (- WORD_SIZE + 1) with (-63); lia).
    change (- WORD_SIZE + 1) with (-63).
    assert (Z.shiftr x (- Z.max y (-63)) = Z.shiftl x y) as ->.
    { destruct (decide (y < -63)).
      - rewrite Z.max_r by lia. rewrite <- (Z.opp_involutive y), Z.shiftl_opp_r.
        by rewrite !shiftr_sign_fill by lia.
      - rewrite Z.max_l by lia. by rewrite Z.shiftr_opp_r. }
    assert (fixnum_range (Z.shiftl x y)) as Hr.
    { rewrite <- (Z.opp_involutive y), Z.shiftl_opp_r, Z.shiftr_div_pow2 by lia.
      assert (0 < 2 ^ (- y)) by (apply Z.pow_pos_nonneg; lia). apply fixnum_range_eq. split.
      - apply Z.div_le_lower_bound; nia.
      - apply Z.div_lt_upper_bound; nia. }
    rewrite tagged_fixnum_id by done. eexists; split; [done|by left].
  - destruct (Z.ltb_spec y 60) as [Hlt|]; [|done].
    rewrite fixnum_shift_left_small by (done || lia).
    destruct (Z.ltb_spec (Z.abs x) (2 ^ (59 - y))) as [Hsmall|]; [|done].
    assert (fixnum_range (Z.shiftl x y)) as Hr.
    { rewrite Z.shiftl_mul_pow2 by lia. apply fixnum_range_eq.
      assert (2 ^ 59 = 2 ^ (59 - y) * 2 ^ y) as E by (rewrite <- Z.pow_add_r by lia; f_equal; lia).
      assert (0 < 2 ^ y) by (apply Z.pow_pos_nonneg; lia). nia. }
    rewrite s64_id by (apply fixnum_range_eq in Hr; unfold is_fixnum; lia).
    rewrite tagged_fixnum_id by done. eexists; split; [done|by left].
Qed.

Lemma quot_range x y : fixnum_range x → fixnum_range y → y ≠ 0 →
  fixnum_range (x `rem` y) ∧ (fixnum_range (x `quot` y) ∨ x `quot` y = - fixnum_min ∧ x = fixnum_min ∧ y = -1).
Proof.
  rewrite !fixnum_range_eq. change fixnum_min with (- 2 ^ 59). intros Hx Hy Hy0.
  pose proof (Z.rem_bound_abs x y Hy0). pose proof (Z.quot_rem' x y) as E. split.
  - destruct (decide (0 ≤ x)); [pose proof (Z.rem_nonneg x y Hy0)|pose proof (Z.rem_nonpos x y Hy0)]; lia.
  - destruct (decide (y = -1)) as [->|]; [pose proof (Z.quot_opp_r x 1 ltac:(lia)) as Eq; rewrite Z.quot_1_r in Eq; change (- (1)) with (-1) in Eq; lia|].
    destruct (decide (y = 1)) as [->|]; [rewrite Z.quot_1_r in *; lia|]. left.
    assert (Z.abs (x `quot` y) ≤ 2 ^ 58); [|lia].
    rewrite <- Z.quot_abs by done. rewrite Z.quot_div_nonneg by lia.
    apply Z.lt_succ_r, Z.div_lt_upper_bound; nia.
Qed.

(** [fixnum/i] and [fixnum/mod] compute the truncated quotient and the
    remainder; the only quotient that is not a fixnum, [fixnum_min / -1],
    becomes a bignum. *)
Theorem primitive_fixnum_division_spec x y st :
  fixnum_range x → fixnum_range y →
  let st0 := Fixnum y :: Fixnum x :: st in
  primitive_fixnum_divint st0 =
    (if y =? 0 then Err ERROR_DIVIDE_BY_ZERO else Ok (integer_value (x `quot` y) :: st)) ∧
  primitive_fixnum_divmod st0 =
    (if y =? 0 then Err ERROR_DIVIDE_BY_ZERO
     else Ok (Fixnum (x `rem` y) :: integer_value (x `quot` y) :: st)).
Proof.
  intros Hx Hy st0. unfold primitive_fixnum_divint, primitive_fixnum_divmod, st0. cbn [pop_fixnums pop peek mbind result_bind untagged_fixnum].
  destruct (Z.eqb_spec y 0) as [->|Hy0]; [done|].
  destruct (quot_range x y Hx Hy Hy0) as [Hr Hq].
  rewrite !from_signed_cell_spec, (tagged_fixnum_id (x `rem` y)) by (done || (unfold is_fixnum; vm_compute; split; congruence)).
  assert (s64 (x `quot` y) = x `quot` y) as ->.
  { apply s64_id. unfold is_fixnum. destruct Hq as [Hq|(-> & _)]; [apply fixnum_range_eq in Hq; lia|].
    change fixnum_min with (- 2 ^ 59). lia. }
  cbn [mbind result_bind replace].
  destruct Hq as [Hq|(Eq & -> & ->)]; [|by rewrite Eq].
  rewrite !(tagged_fixnum_id (x `quot` y)) by done.
  unfold integer_value. rewrite (decide_True _ _ Hq). apply fixnum_range_eq in Hq as Hq'.
  change fixnum_min with (- 2 ^ 59) in *.
  destruct (Z.eqb_spec (x `quot` y) (- - 2 ^ 59)); [lia|]. split; [done|].
  destruct (Z.eqb_spec y (-1)) as [->|]; [|done]. destruct (Z.eqb_spec x (- 2 ^ 59)) as [->|]; [|done].
  vm_compute in Hq'. by destruct Hq'.
Qed.

(** Integers cross the boundary with C exactly: boxing a machine
    integer and unboxing it gives it back at full width, signed and
    unsigned; unboxing any Factor integer is reduction modulo [2^64]. *)
Theorem integer_boxing_roundtrip x u z :
  is_fixnum x → is_cell u →
  (v ← from_signed_cell x; to_fixnum v) = Ok x ∧
  (v ← from_unsigned_cell u; to_cell v) = Ok u ∧
  (v ← from_signed_8 x; to_signed_8 v) = Ok x ∧
  (v ← from_unsigned_8 u; to_unsigned_8 v) = Ok u ∧
  to_fixnum (Bignum (bignum_of_Z z)) = Ok (s64 z) ∧ to_cell (Bignum (bignum_of_Z z)) = Ok (u64 z).
Proof.
  intros Hx Hu.
  assert (∀ t z, in_type t z → bignum_to_foo t (bignum_of_Z z) = z) as Hbig.
  { intros t z' Hz. by rewrite bignum_to_foo_value, bignum_of_Z_value, cast_id. }
  assert ((v ← from_signed_cell x; to_fixnum v) = Ok x) as Hs.
  { rewrite from_signed_cell_spec by done. unfold integer_value, to_fixnum.
    case_decide; cbn; [by rewrite s64_id|]. unfold bignum_to_fixnum. by rewrite (Hbig SIGNED). }
  assert ((v ← from_unsigned_cell u; to_cell v) = Ok u) as Hun.
  { unfold from_unsigned_cell, to_cell, cell_to_bignum. rewrite foo_to_bignum_spec by done. change fixnum_max with (2 ^ 59 - 1).
    unfold is_cell in Hu. destruct (Z.ltb_spec (2 ^ 59 - 1) u); cbn.
    - unfold bignum_to_cell. by rewrite (Hbig UNSIGNED).
    - unfold tagged_fixnum. cbn. rewrite s60_id by (apply fixnum_range_eq; lia). by rewrite u64_id. }
  split_and!; [done|done|exact Hs|exact Hun|..]; cbn; unfold bignum_to_fixnum, bignum_to_cell;
    by rewrite bignum_to_foo_value, bignum_of_Z_value.
Qed.

(** [unbox_array_size] accepts exactly the integers from 0 below
    [array_size_max], whether fixnums or bignums, and signals an error for
    every other value. *)
Theorem unbox_array_size_spec v st :
  (∀ z, is_integer v z →
     unbox_array_size (v :: st) =
       if (0 <=? z) && (z <? array_size_max) then Ok (z, st)
       else if decide (fixnum_range z) then Err ERROR_ARRAY_SIZE else Err ERROR_OUT_OF_FIXNUM_RANGE) ∧
  (value_type v ≠ FIXNUM_TYPE → value_type v ≠ BIGNUM_TYPE →
     unbox_array_size (v :: st) = Err (ERROR_TYPE FIXNUM_TYPE)).
Proof.
  split.
  - intros z Hz. unfold unbox_array_size, to_fixnum_strict. cbn [pop mbind result_bind].
    assert (cell_to_foo SIGNED bignum_to_fixnum_strict v =
      if decide (fixnum_range z) then Ok z else Err ERROR_OUT_OF_FIXNUM_RANGE) as ->.
    { destruct Hz as [[-> Hz] | ->]; cbn [cell_to_foo].
      - rewrite decide_True by done. cbn. rewrite s64_id; [done|].
        apply fixnum_range_eq in Hz. unfold is_fixnum. lia.
      - apply bignum_to_fixnum_strict_spec. }
    case_decide as Hr; cbn [mbind result_bind]; [done|]. rewrite fixnum_range_eq in Hr.
    change array_size_max with (2 ^ 58). destruct (Z.leb_spec 0 z), (Z.ltb_spec z (2 ^ 58)); (done || lia).
  - intros Hf Hb. by destruct v.
Qed.

(** An operation that returns a bignum denoting [z] returns [bignum_of_Z z]. *)
Lemma denotes_result (c : result bignum) z : (∃ r, c = Ok r ∧ denotes r z) → c = Ok (bignum_of_Z z).
Proof. intros (r & -> & Hr). by apply denotes_of_Z in Hr as ->. Qed.

Lemma bignum_add_Z m n : bignum_add (bignum_of_Z m) (bignum_of_Z n) = Ok (bignum_of_Z (m + n)).
Proof.
  apply denotes_result. pose proof (bignum_add_denotes _ _ (bignum_of_Z_ok m) (bignum_of_Z_ok n)) as H.
  by rewrite !bignum_of_Z_value in H.
Qed.

Lemma bignum_subtract_Z m n : bignum_subtract (bignum_of_Z m) (bignum_of_Z n) = Ok (bignum_of_Z (m - n)).
Proof.
  apply denotes_result. pose proof (bignum_subtract_denotes _ _ (bignum_of_Z_ok m) (bignum_of_Z_ok n)) as H.
  by rewrite !bignum_of_Z_value in H.
Qed.

Lemma bignum_multiply_Z same m n :
  (same = true → m = n) →
  bignum_multiply same (bignum_of_Z m) (bignum_of_Z n) = Ok (bignum_of_Z (m * n)).
Proof.
  intros Hs. apply denotes_result.
  pose proof (bignum_multiply_denotes same _ _ (bignum_of_Z_ok m) (bignum_of_Z_ok n)) as H.
  rewrite !bignum_of_Z_value in H. apply H. by intros ->%Hs.
Qed.

Lemma bignum_compare_Z m n : bignum_compare (bignum_of_Z m) (bignum_of_Z n) = comparison_of (m ?= n).
Proof. rewrite bignum_compare_spec by apply bignum_of_Z_ok. by rewrite !bignum_of_Z_value. Qed.

(** The bignum primitives that compare, add, subtract and multiply pop
    one operand and replace the other by the integer result. *)
Theorem primitive_bignum_arithmetic_spec same m n st :
  (same = true → m = n) →
  let s := Bignum (bignum_of_Z n) :: Bignum (bignum_of_Z m) :: st in
  primitive_bignum_add s = Ok (Bignum (bignum_of_Z (m + n)) :: st) ∧
  primitive_bignum_subtract s = Ok (Bignum (bignum_of_Z (m - n)) :: st) ∧
  primitive_bignum_multiply same s = Ok (Bignum (bignum_of_Z (m * n)) :: st) ∧
  primitive_bignum_eq s = Ok (Boolean (m =? n) :: st) ∧
  primitive_bignum_less s = Ok (Boolean (m <? n) :: st) ∧
  primitive_bignum_lesseq s = Ok (Boolean (m <=? n) :: st) ∧
  primitive_bignum_greater s = Ok (Boolean (n <? m) :: st) ∧
  primitive_bignum_greatereq s = Ok (Boolean (n <=? m) :: st).
Proof.
  intros Hsame s. unfold s, primitive_bignum_add, primitive_bignum_subtract, primitive_bignum_multiply,
    primitive_bignum_eq, primitive_bignum_less, primitive_bignum_lesseq, primitive_bignum_greater,
    primitive_bignum_greatereq, POP_BIGNUMS. cbn [pop peek untagged_bignum mbind result_bind].
  rewrite bignum_add_Z, bignum_subtract_Z, bignum_multiply_Z, bignum_compare_Z by done.
  rewrite bignum_equal_p_spec, !bignum_of_Z_value by apply bignum_of_Z_ok. cbn [replace].
  split_and!; try done; repeat f_equal.
  - symmetry. destruct (Z.eqb_spec m n); by case_bool_decide.
  - destruct (Z.compare_spec m n), (Z.ltb_spec m n); (done || lia).
  - destruct (Z.compare_spec m n), (Z.leb_spec m n); (done || lia).
  - destruct (Z.compare_spec m n), (Z.ltb_spec n m); (done || lia).
  - destruct (Z.compare_spec m n), (Z.leb_spec n m); (done || lia).
Qed.

Lemma bignum_maybe_to_fixnum_Z z : bignum_maybe_to_fixnum (bignum_of_Z z) = integer_value z.
Proof.
  unfold bignum_maybe_to_fixnum, integer_value.
  pose proof (bignum_fits_fixnum_p_spec _ (bignum_of_Z_ok z)) as H. rewrite bignum_of_Z_value in H.
  case_decide as Hz.
  - rewrite (proj2 H Hz). unfold bignum_to_fixnum. rewrite bignum_to_foo_value, bignum_of_Z_value.
    rewrite cast_id, tagged_fixnum_id; [done..|]. apply fixnum_range_eq in Hz. cbn. unfold is_fixnum. lia.
  - destruct (bignum_fits_fixnum_p _); [|done]. by destruct Hz; apply H.
Qed.

(** [bignum/mod] and [bignum-mod] leave the quotient as a bignum and the
    remainder in its canonical form (a fixnum whenever it fits), or signal
    [ERROR_DIVIDE_BY_ZERO]. *)
Theorem primitive_bignum_division_spec m n st :
  let s := Bignum (bignum_of_Z n) :: Bignum (bignum_of_Z m) :: st in
  primitive_bignum_divmod s =
    (if n =? 0 then Err ERROR_DIVIDE_BY_ZERO
     else Ok (integer_value (Z.rem m n) :: Bignum (bignum_of_Z (Z.quot m n)) :: st)) ∧
  primitive_bignum_mod s =
    (if n =? 0 then Err ERROR_DIVIDE_BY_ZERO else Ok (integer_value (Z.rem m n) :: st)) ∧
  primitive_bignum_divint s =
    (if n =? 0 then Err ERROR_DIVIDE_BY_ZERO else Ok (Bignum (bignum_of_Z (Z.quot m n)) :: st)).
Proof.
  intros s. unfold s, primitive_bignum_divmod, primitive_bignum_mod, primitive_bignum_divint, POP_BIGNUMS.
  cbn [pop peek untagged_bignum mbind result_bind].
  pose proof (bignum_divide_spec _ _ (bignum_of_Z_ok m) (bignum_of_Z_ok n)) as Hd.
  pose proof (bignum_remainder_spec _ _ (bignum_of_Z_ok m) (bignum_of_Z_ok n)) as Hr.
  pose proof (bignum_quotient_spec _ _ (bignum_of_Z_ok m) (bignum_of_Z_ok n)) as Hq.
  unfold division_result in Hd, Hr, Hq. rewrite !bignum_of_Z_value in Hd, Hr, Hq. split_and!.
  - destruct (bignum_divide _ _) as [[q r]|]; [|by destruct Hd as [-> ->]].
    destruct Hd as (Hn & Hq' & Hr'), (Z.eqb_spec n 0); [done|].
    apply denotes_of_Z in Hq' as ->, Hr' as ->. by rewrite result_bind_ok, bignum_maybe_to_fixnum_Z.
  - destruct (bignum_remainder _ _) as [r|]; [|by destruct Hr as [-> ->]].
    destruct Hr as (Hn & Hr'), (Z.eqb_spec n 0); [done|].
    apply denotes_of_Z in Hr' as ->. by rewrite result_bind_ok, bignum_maybe_to_fixnum_Z.
  - destruct (bignum_quotient _ _) as [q|]; [|by destruct Hq as [-> ->]].
    destruct Hq as (Hn & Hq'), (Z.eqb_spec n 0); [done|]. by apply denotes_of_Z in Hq' as ->.
Qed.

(** C38. The slow paths of [fixnum+], [fixnum-] and [fixnum*] return the exact
    sum, difference and product. *)
Theorem overflow_fixnum_spec x y v st :
  fixnum_range x → fixnum_range y →
  overflow_fixnum_add (Fixnum x) (Fixnum y) (v :: st) = Ok (Bignum (bignum_of_Z (x + y)) :: st) ∧
  overflow_fixnum_subtract (Fixnum x) (Fixnum y) (v :: st) = Ok (Bignum (bignum_of_Z (x - y)) :: st) ∧
  overflow_fixnum_multiply x y (v :: st) = Ok (Bignum (bignum_of_Z (x * y)) :: st).
Proof.
  rewrite !fixnum_range_eq. intros Hx Hy.
  unfold overflow_fixnum_add, overflow_fixnum_subtract, overflow_fixnum_multiply.
  cbn [untagged_fixnum mbind result_bind].
  rewrite !s64_id by (unfold is_fixnum; lia). rewrite !fixnum_to_bignum_of_Z by (unfold is_fixnum; lia).
  cbn [mbind result_bind replace]. rewrite bignum_multiply_Z; [done|].
  intros [E%Z.eqb_eq _]%andb_true_iff. done.
Qed.

(** [bignum-bit?] tests bit [n] of the integer for every index that is
    an [int]; a larger index is silently reduced modulo [2^32], so bit
    [2^32 + n] of a bignum reads as bit [n]. *)
Theorem primitive_bignum_bitp_spec m n st :
  0 ≤ n < 2 ^ 31 →
  primitive_bignum_bitp (Fixnum n :: Bignum (bignum_of_Z m) :: st) =
    Ok (Boolean (Z.testbit m n) :: st) ∧
  primitive_bignum_bitp (Fixnum (2 ^ 32 + n) :: Bignum (bignum_of_Z m) :: st) =
    Ok (Boolean (Z.testbit m n) :: st).
Proof.
  intros Hn. unfold primitive_bignum_bitp. cbn [pop peek untagged_bignum mbind result_bind to_fixnum cell_to_foo cast].
  rewrite !s64_id by (unfold is_fixnum; lia).
  assert (s32 (2 ^ 32 + n) = n) as -> by (unfold s32; dlia). rewrite s32_id by lia.
  rewrite bignum_logbitp_spec, bignum_of_Z_value by (done || apply bignum_of_Z_ok). done.
Qed.
End theorems.

(** * Witnesses *)

Lemma primitive_fixnum_shift_spec_witness :
  ∃ v, @primitive_fixnum_shift plain_alloc [Fixnum 70; Fixnum 3] = Ok [v] ∧ is_integer v (Z.shiftl 3 70).
Proof. apply (@primitive_fixnum_shift_spec plain_alloc 3 70 []); eval_side. Defined.

Lemma primitive_fixnum_division_spec_witness :
  let st0 := [Fixnum (-1); Fixnum fixnum_min] in
  @primitive_fixnum_divint plain_alloc st0 =
    (if -1 =? 0 then Err ERROR_DIVIDE_BY_ZERO else Ok [integer_value (fixnum_min `quot` -1)]) ∧
  @primitive_fixnum_divmod plain_alloc st0 =
    (if -1 =? 0 then Err ERROR_DIVIDE_BY_ZERO
     else Ok [Fixnum (fixnum_min `rem` -1); integer_value (fixnum_min `quot` -1)]).
Proof. apply (@primitive_fixnum_division_spec plain_alloc fixnum_min (-1) []); eval_side. Defined.

Lemma integer_boxing_roundtrip_witness :
  (v ← @from_signed_cell plain_alloc (- 2 ^ 63); to_fixnum v) = Ok (- 2 ^ 63) ∧
  (v ← @from_unsigned_cell plain_alloc (2 ^ 64 - 1); to_cell v) = Ok (2 ^ 64 - 1) ∧
  (v ← @from_signed_8 plain_alloc (- 2 ^ 63); to_signed_8 v) = Ok (- 2 ^ 63) ∧
  (v ← @from_unsigned_8 plain_alloc (2 ^ 64 - 1); to_unsigned_8 v) = Ok (2 ^ 64 - 1) ∧
  to_fixnum (Bignum (bignum_of_Z (2 ^ 70))) = Ok (s64 (2 ^ 70)) ∧
  to_cell (Bignum (bignum_of_Z (2 ^ 70))) = Ok (u64 (2 ^ 70)).
Proof. apply (@integer_boxing_roundtrip plain_alloc (- 2 ^ 63) (2 ^ 64 - 1) (2 ^ 70)); eval_side. Defined.

Lemma primitive_bignum_arithmetic_spec_witness :
  @primitive_bignum_add plain_alloc [Bignum (bignum_of_Z 5); Bignum (bignum_of_Z 5)] =
    Ok [Bignum (bignum_of_Z (5 + 5))].
Proof. apply (@primitive_bignum_arithmetic_spec plain_alloc true 5 5 []). reflexivity. Defined.

Lemma overflow_fixnum_spec_witness :
  @overflow_fixnum_add plain_alloc (Fixnum fixnum_max) (Fixnum 1) [Boolean false] =
    Ok [Bignum (bignum_of_Z (fixnum_max + 1))].
Proof. apply (@overflow_fixnum_spec plain_alloc fixnum_max 1 (Boolean false) []); eval_side. Defined.

Lemma primitive_bignum_bitp_spec_witness :
  @primitive_bignum_bitp plain_alloc [Fixnum 3; Bignum (bignum_of_Z (2 ^ 70 + 8))] =
    Ok [Boolean (Z.testbit (2 ^ 70 + 8) 3)] ∧
  @primitive_bignum_bitp plain_alloc [Fixnum (2 ^ 32 + 3); Bignum (bignum_of_Z (2 ^ 70 + 8))] =
    Ok [Boolean (Z.testbit (2 ^ 70 + 8) 3)].
Proof. apply (@primitive_bignum_bitp_spec plain_alloc (2 ^ 70 + 8) 3 []). lia. Defined.

Lemma unbox_array_size_spec_witness :
  unbox_array_size [Fixnum 7] = Ok (7, []).
Proof. apply (proj1 (unbox_array_size_spec (Fixnum 7) []) 7). left. split; [reflexivity|eval_side]. Defined.
