(* ===== verification/VM.v ===== *)
(** The virtual machine's state: vm/vm.hpp, with the operations on the data
    stack of vm/contexts.hpp, data roots and allocation.

    A primitive is a computation on memory and on this state.  The structs of
    the contexts are a map from their addresses; the words of the stacks, the
    context objects, the special objects and the handles of data roots are
    words of memory, so a collection updates them. *)

From stdpp Require Import sorting.
From S2P Require Import Prelude.
From S2P Require Import Layouts.
From S2P Require Import Memory.
From S2P Require Import Bytes.
From S2P Require Import Effects.
From S2P Require Import FreeList.
From S2P Require Import Spaces.
From S2P Require Import DataHeap.
From S2P Require Import Objects.
From S2P Require Import Relocation.
From S2P Require Import SlotVisitor.
From S2P Require Import GC.
From S2P Require Import Arrays.
From S2P Require Import Bignum.
From S2P Require Import BignumConv.
Local Open Scope Z_scope.
Local Open Scope cell_scope.

(** * State *)

(** What the primitives of most files leave alone: the sizes of the stacks, the
    heap of callback stubs and the handles of samples, which only the callbacks
    and the profiler change, and the address of the first handle of a data
    root.  The address of a handle is that of a local
    variable, chosen by the compiler; here the handles are words one after the
    other, in the order in which they are made. *)
Record vm_config := mk_vm_config {
  datastack_size : Z;
  retainstack_size : Z;
  callstack_size : Z;
  callbacks_heap : free_list_allocator;
  samples : list Z;
  handles : Z
}.

(** src/vm/dispatch.hpp:3-14 [dispatch_statistics] *)
Record dispatch_statistics := mk_statistics {
  megamorphic_cache_hits : Z;
  megamorphic_cache_misses : Z;
  cold_call_to_ic_transitions : Z;
  ic_to_pic_transitions : Z;
  pic_to_mega_transitions : Z;
  pic_tag_count : Z;
  pic_tuple_count : Z
}.

(** The counters of the vm: the jits under way, and what dispatch has done. *)
Record counters := mk_counters { current_jit_count : Z; dispatch_stats : dispatch_statistics }.

Definition no_tally : counters := mk_counters 0 (mk_statistics 0 0 0 0 0 0 0).

(** src/vm/vm.hpp:20-67 [factor_vm] (part): The fields that the primitives
    use, with [data_roots] and [object_counter] from below.  The vectors
    [callback_ids] and [vm_data_roots] have their last element first.
    [contexts] holds the structs that the pointers in the other fields point
    to. *)
Record vm := mk_vm {
  vm_gc : gc_vm;
  ctx : Z;
  spare_ctx : Z;
  contexts : gmap Z context;
  unused_contexts : list Z;
  active_set : gset Z;
  callback_ids : list Z;
  callback_id : Z;
  vm_data_roots : list Z;
  faulting_p : bool;
  object_counter : Z;
  tally : counters;
  config : vm_config
}.

Definition with_gc (v : vm) (g : gc_vm) : vm :=
  mk_vm g (ctx v) (spare_ctx v) (contexts v) (unused_contexts v) (active_set v) (callback_ids v)
    (callback_id v) (vm_data_roots v) (faulting_p v) (object_counter v) (tally v) (config v).
Definition with_ctx (v : vm) (current spare : Z) : vm :=
  mk_vm (vm_gc v) current spare (contexts v) (unused_contexts v) (active_set v) (callback_ids v)
    (callback_id v) (vm_data_roots v) (faulting_p v) (object_counter v) (tally v) (config v).
Definition with_contexts (v : vm) (cs : gmap Z context) : vm :=
  mk_vm (vm_gc v) (ctx v) (spare_ctx v) cs (unused_contexts v) (active_set v) (callback_ids v)
    (callback_id v) (vm_data_roots v) (faulting_p v) (object_counter v) (tally v) (config v).
Definition with_pool (v : vm) (unused : list Z) (active : gset Z) : vm :=
  mk_vm (vm_gc v) (ctx v) (spare_ctx v) (contexts v) unused active (callback_ids v)
    (callback_id v) (vm_data_roots v) (faulting_p v) (object_counter v) (tally v) (config v).
Definition with_callbacks (v : vm) (ids : list Z) (id : Z) : vm :=
  mk_vm (vm_gc v) (ctx v) (spare_ctx v) (contexts v) (unused_contexts v) (active_set v) ids
    id (vm_data_roots v) (faulting_p v) (object_counter v) (tally v) (config v).
Definition with_roots (v : vm) (roots : list Z) : vm :=
  mk_vm (vm_gc v) (ctx v) (spare_ctx v) (contexts v) (unused_contexts v) (active_set v) (callback_ids v)
    (callback_id v) roots (faulting_p v) (object_counter v) (tally v) (config v).
Definition with_faulting (v : vm) (b : bool) : vm :=
  mk_vm (vm_gc v) (ctx v) (spare_ctx v) (contexts v) (unused_contexts v) (active_set v) (callback_ids v)
    (callback_id v) (vm_data_roots v) b (object_counter v) (tally v) (config v).
Definition with_counter (v : vm) (n : Z) : vm :=
  mk_vm (vm_gc v) (ctx v) (spare_ctx v) (contexts v) (unused_contexts v) (active_set v) (callback_ids v)
    (callback_id v) (vm_data_roots v) (faulting_p v) n (tally v) (config v).

Definition with_tally (v : vm) (t : counters) : vm :=
  mk_vm (vm_gc v) (ctx v) (spare_ctx v) (contexts v) (unused_contexts v) (active_set v) (callback_ids v)
    (callback_id v) (vm_data_roots v) (faulting_p v) (object_counter v) t (config v).

Definition ask {A} (f : vm → A) : eff vm A := v ← get_state; mret (f v).
Definition change (f : vm → vm) : eff vm () := v ← get_state; put_state (f v).
Definition raise {A} (e : vm_error) : eff vm A := reads (λ _, Err e).

(** * Contexts *)

(** The struct a [context*] points to. *)
Definition context_at (p : Z) : eff vm context :=
  v ← get_state;
  reads (λ _, match contexts v !! p with Some c => Ok c | None => Err BAD_ACCESS end).

Definition set_context (p : Z) (c : context) : eff vm () :=
  change (λ v, with_contexts v (<[p := c]> (contexts v))).

Definition with_datastack (c : context) (p : Z) : context :=
  mk_context (callstack_top c) (callstack_bottom c) p (retainstack c) (callstack_save c)
    (datastack_seg c) (retainstack_seg c) (callstack_seg c) (context_objects c).
Definition with_retainstack (c : context) (p : Z) : context :=
  mk_context (callstack_top c) (callstack_bottom c) (datastack c) p (callstack_save c)
    (datastack_seg c) (retainstack_seg c) (callstack_seg c) (context_objects c).
Definition with_callstack (c : context) (top bottom : Z) : context :=
  mk_context top bottom (datastack c) (retainstack c) (callstack_save c)
    (datastack_seg c) (retainstack_seg c) (callstack_seg c) (context_objects c).

Definition current_context : eff vm context := p ← ask ctx; context_at p.
Definition set_current_context (c : context) : eff vm () := p ← ask ctx; set_context p c.

(** ** The data stack *)

(** src/vm/contexts.hpp:57-57 [context::peek] *)
Definition ctx_peek : eff vm Z :=
  c ← current_context;
  reads (λ m, load m (datastack c)).

(** src/vm/contexts.hpp:59-59 [context::replace] *)
Definition ctx_replace (tagged : Z) : eff vm () :=
  c ← current_context;
  writes (λ m, store m (datastack c) tagged).

(** src/vm/contexts.hpp:61-65 [context::pop] *)
Definition ctx_pop : eff vm Z :=
  value ← ctx_peek;
  c ← current_context;
  _ ← set_current_context (with_datastack c (datastack c -& 8));
  mret value.

(** src/vm/contexts.hpp:67-70 [context::push] *)
Definition ctx_push (tagged : Z) : eff vm () :=
  c ← current_context;
  _ ← set_current_context (with_datastack c (datastack c +& 8));
  ctx_replace tagged.

(** * Data roots *)

(** src/vm/data_roots.hpp:3-25 [data_root]: [body] is the scope of a data
    root, and is given the address of its handle. *)
Definition rooted {A} (value : Z) (body : Z → eff vm A) : eff vm A :=
  v ← get_state;
  let h := handles (config v) + 8 * Z.of_nat (length (vm_data_roots v)) in
  _ ← writes (λ m, store m h value);
  _ ← change (λ v, with_roots v (h :: vm_data_roots v));
  a ← body h;
  _ ← change (λ v, with_roots v (tail (vm_data_roots v)));
  mret a.

(** src/vm/tagged.hpp:22-25 [tagged::value]: of a handle. *)
Definition root_value (type h : Z) : eff vm Z :=
  reads (λ m, value ← load m h;
              _ ← check ((type =? TYPE_COUNT) || (TAG value =? type)); Ok value).

(** src/vm/tagged.hpp:27-30 [tagged::untagged]: of a handle. *)
Definition root_untagged (type h : Z) : eff vm Z :=
  reads (λ m, value ← load m h; untag type value).

(** * Errors in arguments *)

(** src/vm/vm.hpp:519-523 [untag_check] *)
Definition untag_check (type value : Z) : eff vm Z :=
  if TAG value =? type then mret (UNTAG value) else raise (ERROR_TYPE type).

(** src/vm/vm.hpp:514-517 [check_tagged]: of a handle. *)
Definition check_tagged (type h : Z) : eff vm () :=
  value ← reads (λ m, load m h);
  if TAG value =? type then mret () else raise (ERROR_TYPE type).

(** * Integers *)

(** The bignum at an address; [digits] is the [n] words from [a] on. *)
Fixpoint words_at (m : memory) (a : Z) (n : nat) : result (list Z) :=
  match n with
  | 0%nat => Ok []
  | S n => w ← load m a; ws ← words_at m (a + 8) n; Ok (w :: ws)
  end.

Definition heap_bignum (m : memory) (a : Z) : result bignum :=
  capacity ← array_capacity BIGNUM_TYPE m a;
  sign ← load m (a +& sizeof_bignum);
  digits ← words_at m (a + sizeof_bignum + 8) (Z.to_nat (capacity - 1));
  Ok (mk_bignum (negb (sign =? 0)) digits).

(** src/vm/math.cpp:328-343 [CELL_TO_FOO] *)
Definition cell_to (type : int_type) (converter : bignum → result Z) (tagged : Z) : eff vm Z :=
  if TAG tagged =? FIXNUM_TYPE then reads (λ _, n ← untag_fixnum tagged; Ok (cast type n))
  else if TAG tagged =? BIGNUM_TYPE then
    reads (λ m, a ← untag BIGNUM_TYPE tagged; b ← heap_bignum m a; converter b)
  else raise (ERROR_TYPE FIXNUM_TYPE).

(** src/vm/math.cpp:345-345 [to_fixnum] *)
Definition cell_to_fixnum : Z → eff vm Z := cell_to SIGNED (λ b, Ok (bignum_to_fixnum b)).
(** src/vm/math.cpp:346-346 [to_fixnum_strict] *)
Definition cell_to_fixnum_strict : Z → eff vm Z := cell_to SIGNED bignum_to_fixnum_strict.
(** src/vm/math.cpp:347-347 [to_cell] *)
Definition cell_to_cell : Z → eff vm Z := cell_to UNSIGNED (λ b, Ok (bignum_to_cell b)).

(** src/vm/math.hpp:50-58 [unbox_array_size] *)
Definition pop_array_size : eff vm Z :=
  obj ← ctx_pop;
  n ← cell_to_fixnum_strict obj;
  if (0 <=? n) && (n <? array_size_max) then mret n else raise ERROR_ARRAY_SIZE.

(** [untag_fixnum] of a value. *)
Definition fixnum_of (value : Z) : eff vm Z := reads (λ _, untag_fixnum value).

(** * Collection and allocation *)

Definition read_contexts (cs : gmap Z context) (ps : list Z) : result (list context) :=
  foldr (λ p r, l ← r; match cs !! p with Some c => Ok (c :: l) | None => Err BAD_ACCESS end) (Ok []) ps.

Lemma read_contexts_insert cs ps l p c :
  read_contexts cs ps = Ok l → ∃ l', read_contexts (<[p := c]> cs) ps = Ok l'.
Proof.
  revert l. induction ps as [|q ps IH]; intros l; cbn [read_contexts foldr]; [eauto|].
  intros (l1 & E & Eq)%result_bind_inv. destruct (IH l1 E) as [l2 E2]. unfold read_contexts in E2.
  rewrite E2, result_bind_ok. destruct (decide (p = q)) as [<-|Hne]; [rewrite lookup_insert_eq; eauto|].
  rewrite lookup_insert_ne by done. destruct (cs !! q); [eauto|done].
Qed.

Section allocation.
Context `{!linkage, !os_memory}.

(** What a collection takes as roots.  A [std::set] of pointers is in the
    order of the addresses. *)
Definition roots_of (v : vm) : result vm_roots :=
  cs ← read_contexts (contexts v) (merge_sort Z.le (base.elements (active_set v)));
  Ok (mk_vm_roots (rev (vm_data_roots v)) (callbacks_heap (config v)) (samples (config v))
        special_objects_address cs).

(** A computation of the collector or the allocator. *)
Definition with_heaps {A} (c : vm_roots → eff gc_vm A) : eff vm A := λ s,
  match roots_of s.2 with
  | Err e => Fatal e
  | Ok parent =>
      match c parent (s.1, vm_gc s.2) with
      | Done s' a => Done (s'.1, with_gc s.2 s'.2) a
      | Again s' => Again (s'.1, with_gc s.2 s'.2)
      | Fatal e => Fatal e
      end
  end.

(** src/vm/vm.hpp:360-362 [allot] *)
Definition vm_allot (type size : Z) : eff vm Z := with_heaps (λ parent, allot_object parent type size).

(** src/vm/generic_arrays.hpp:16-22 [allot_uninitialized_array] *)
Definition vm_allot_array (type sizeof_header element_size capacity : Z) : eff vm Z :=
  array ← vm_allot type (array_size sizeof_header element_size capacity);
  _ ← writes (λ m, put_field m array 8 (tag_fixnum capacity));
  mret array.

(** src/vm/vm.hpp:321-324 [write_barrier] *)
Definition vm_write_barrier (slot_ptr : Z) : eff vm () :=
  g ← ask vm_gc;
  dh ← reads (λ _, write_barrier (gc_barrier g) (heap_of g) slot_ptr);
  change (λ v, with_gc v (with_heap (vm_gc v) dh)).

(** src/vm/arrays.hpp:9-15 [set_array_nth] *)
Definition vm_set_array_nth (array slot value : Z) : eff vm () :=
  _ ← reads (λ m, capacity ← array_capacity ARRAY_TYPE m array; check (slot <? capacity));
  let slot_ptr := element_address array slot in
  _ ← writes (λ m, store m slot_ptr value);
  vm_write_barrier slot_ptr.

(** ** Boxed integers *)

Fixpoint store_words (m : memory) (a : Z) (ws : list Z) : result memory :=
  match ws with
  | [] => Ok m
  | w :: ws => m ← store m a w; store_words m (a + 8) ws
  end.

(** A bignum object with the given contents; [FOO_TO_BIGNUM] allots exactly
    the digits it needs. *)
Definition vm_allot_bignum (b : bignum) : eff vm Z :=
  let length := Z.of_nat (length (bn_digits b)) in
  array ← vm_allot_array BIGNUM_TYPE sizeof_bignum 8 (length + 1);
  _ ← writes (λ m, store_words m (array +& sizeof_bignum) ((if bn_negative b then 1 else 0) :: bn_digits b));
  mret (tag BIGNUM_TYPE array).

(** src/vm/math.hpp:8-13 [from_signed_cell] *)
Definition box_signed_cell (x : Z) : eff vm Z :=
  if (x <? fixnum_min) || (fixnum_max <? x) then
    b ← reads (λ _, @fixnum_to_bignum plain_alloc x); vm_allot_bignum b
  else mret (tag_fixnum x).

(** src/vm/math.hpp:15-20 [from_unsigned_cell] *)
Definition box_unsigned_cell (x : Z) : eff vm Z :=
  if fixnum_max <? x then b ← reads (λ _, @cell_to_bignum plain_alloc x); vm_allot_bignum b
  else mret (tag_fixnum x).
End allocation.

(** [special_objects[i]] *)
Definition vm_special `{!linkage} (i : Z) : eff vm Z :=
  reads (λ m, special_object m special_objects_address i).

(** src/vm/objects.hpp:117-117 [OBJ_CANONICAL_TRUE] *)
Definition OBJ_CANONICAL_TRUE : Z := 78.

(** src/vm/vm.hpp:417-419 [tag_boolean] *)
Definition vm_tag_boolean `{!linkage} (b : bool) : eff vm Z :=
  if b then vm_special OBJ_CANONICAL_TRUE else mret false_object.

(** * Reasoning about the data stack *)

(** The segment of the data stack of a context: aligned, and with the address
    below its first word. *)
Record stack_seg_ok (s : segment) : Prop := {
  seg_low : 8 ≤ seg_start s;
  seg_aligned : seg_start s mod 8 = 0;
  seg_high : seg_start s ≤ seg_end s ≤ 2 ^ 47
}.

(** The bottom of the data stack; the word with the index [n] from it. *)
Definition stack_base (c : context) : Z := seg_start (datastack_seg c).
Definition stack_word (c : context) (n : nat) : Z := stack_base c + 8 * Z.of_nat n.

(** The vm with [n] elements on the data stack of the current context [c]. *)
Definition at_depth (v : vm) (c : context) (n : nat) : vm :=
  with_contexts v (<[ctx v := with_datastack c (stack_word c n - 8)]> (contexts v)).

(** The data stack of [c], with [n] elements, fits in its segment. *)
Definition stack_fits (c : context) (n : nat) : Prop :=
  stack_seg_ok (datastack_seg c) ∧ stack_word c n ≤ seg_end (datastack_seg c).

(** The current context is [c], and its data stack has the elements [l], the
    top last. *)
Record data_stack (m : memory) (v : vm) (c : context) (l : list Z) : Prop := {
  ds_context : contexts v !! ctx v = Some c;
  ds_top : datastack c = stack_word c (length l) - 8;
  ds_fits : stack_fits c (length l);
  ds_words : ∀ i x, l !! i = Some x → m !! stack_word c i = Some x
}.

Lemma at_depth_id m v c l : data_stack m v c l → at_depth v c (length l) = v.
Proof.
  intros [Hc Ht _ _]. unfold at_depth. rewrite <- Ht.
  replace (with_datastack c (datastack c)) with c by (by destruct c).
  rewrite insert_id by done. by destruct v.
Qed.

Lemma stack_fits_le c n n' : stack_fits c n → (n' ≤ n)%nat → stack_fits c n'.
Proof. intros [Hs Hf] Hn. split; [done|]. unfold stack_word in *. lia. Qed.

Lemma stack_word_cell c n : stack_fits c n → is_cell (stack_word c n) ∧ 8 ≤ stack_word c n ≤ 2 ^ 47.
Proof. intros [[Hl _ Hh] Hf]. unfold is_cell, stack_word, stack_base in *. lia. Qed.

Lemma stack_height c n :
  stack_fits c n →
  0 ≤ Z.of_nat n < 2 ^ 47 ∧ ((stack_word c n - 8 -& stack_base c) +& 8) / 8 = Z.of_nat n.
Proof.
  intros [[Hl _ Hh] Hf]. unfold stack_word, stack_base in *. split; [lia|].
  unfold u64. rewrite Zplus_mod_idemp_l, Z.mod_small by lia. dlia.
Qed.

Lemma stack_word_S c n : stack_word c (S n) = stack_word c n + 8.
Proof. unfold stack_word. lia. Qed.

Lemma context_at_eq m v p c : contexts v !! p = Some c → context_at p (m, v) = Done (m, v) c.
Proof. intros Hc. unfold context_at, mbind, eff_bind, get_state. apply reads_Ok. cbn. by rewrite Hc. Qed.

Section stack_steps.
Context (v : vm) (c : context).

Lemma current_context_eq m n :
  current_context (m, at_depth v c n) = Done (m, at_depth v c n) (with_datastack c (stack_word c n - 8)).
Proof.
  unfold current_context. rewrite (bind_Done _ _ _ (m, at_depth v c n) (ctx v)) by done.
  apply context_at_eq, lookup_insert_eq.
Qed.

Lemma set_datastack_eq m n n' :
  set_current_context (with_datastack (with_datastack c (stack_word c n - 8)) (stack_word c n' - 8))
    (m, at_depth v c n) = Done (m, at_depth v c n') ().
Proof.
  unfold set_current_context, set_context, change, ask, mbind, eff_bind, get_state, put_state, mret, eff_ret.
  cbn [fst snd ctx at_depth with_contexts contexts]. unfold at_depth, with_contexts. cbn.
  by rewrite insert_insert_eq.
Qed.

Lemma ctx_peek_eq m n x :
  m !! stack_word c n = Some x → ctx_peek (m, at_depth v c (S n)) = Done (m, at_depth v c (S n)) x.
Proof.
  intros Hx. unfold ctx_peek. erewrite bind_Done by apply current_context_eq.
  apply reads_Ok, load_Ok. cbn [fst datastack with_datastack].
  by rewrite stack_word_S, Z.add_simpl_r.
Qed.

Lemma ctx_replace_eq m n x :
  is_Some (m !! stack_word c n) →
  ctx_replace x (m, at_depth v c (S n)) = Done (<[stack_word c n := x]> m, at_depth v c (S n)) ().
Proof.
  intros Hx. unfold ctx_replace. erewrite bind_Done by apply current_context_eq.
  apply writes_Ok. cbn [fst datastack with_datastack].
  by rewrite stack_word_S, Z.add_simpl_r, store_Ok.
Qed.

Lemma ctx_pop_eq m n x :
  stack_fits c (S n) → m !! stack_word c n = Some x →
  ctx_pop (m, at_depth v c (S n)) = Done (m, at_depth v c n) x.
Proof.
  intros Hf Hx. apply stack_fits_le with (n' := n) in Hf; [|lia]. apply stack_word_cell in Hf as [_ Hf].
  unfold ctx_pop. erewrite bind_Done by by apply ctx_peek_eq.
  erewrite bind_Done by apply current_context_eq. cbn [datastack with_datastack].
  rewrite stack_word_S, Z.add_simpl_r, u64_id by (unfold is_cell; lia).
  pose proof (set_datastack_eq m (S n) n) as E. rewrite stack_word_S, Z.add_simpl_r in E.
  by rewrite (bind_Done _ _ _ _ _ E).
Qed.

Lemma ctx_push_eq m n x :
  stack_fits c (S n) → is_Some (m !! stack_word c n) →
  ctx_push x (m, at_depth v c n) = Done (<[stack_word c n := x]> m, at_depth v c (S n)) ().
Proof.
  intros Hf Hx. apply stack_word_cell in Hf as Hr. rewrite stack_word_S in Hr.
  apply stack_fits_le with (n' := n) in Hf; [|lia]. apply stack_word_cell in Hf as [_ Hf].
  unfold ctx_push. erewrite bind_Done by apply current_context_eq. cbn [datastack with_datastack].
  rewrite Z.sub_add, u64_id by (unfold is_cell; lia).
  replace (stack_word c n) with (stack_word c (S n) - 8) at 2 by (rewrite stack_word_S; lia).
  erewrite bind_Done by apply set_datastack_eq. by apply ctx_replace_eq.
Qed.
End stack_steps.

(** ** Values *)

Lemma TAG_tag_fixnum n : TAG (tag_fixnum n) = FIXNUM_TYPE.
Proof. rewrite TAG_mod, tag_fixnum_eq. unfold FIXNUM_TYPE. dlia. Qed.

Lemma cell_to_fixnum_eq n s : fixnum_range n → cell_to_fixnum (tag_fixnum n) s = Done s n.
Proof.
  intros Hn. unfold cell_to_fixnum, cell_to. rewrite TAG_tag_fixnum. cbn [Z.eqb].
  apply reads_Ok. rewrite untag_tag_fixnum, s60_id, result_bind_ok by done. cbn [cast].
  apply fixnum_range_eq in Hn. by rewrite s64_id by (unfold is_fixnum; lia).
Qed.

Lemma fixnum_of_eq n s : fixnum_range n → fixnum_of (tag_fixnum n) s = Done s n.
Proof. intros Hn. apply reads_Ok. by rewrite untag_tag_fixnum, s60_id. Qed.

Lemma untag_check_eq type value s : TAG value = type → untag_check type value s = Done s (UNTAG value).
Proof. intros Ht. unfold untag_check. by rewrite Ht, Z.eqb_refl. Qed.

(** Elements above the first [length l]. *)
Lemma data_stack_above m v c l k i x :
  data_stack m v c (l ++ k) → k !! i = Some x → m !! stack_word c (i + length l) = Some x.
Proof.
  intros [_ _ _ Hw] Hi. apply Hw. rewrite lookup_app_r by lia. by rewrite Nat.add_sub.
Qed.

(** Executes the next step of a sequence by a lemma about it. *)
Ltac step lem := rewrite (bind_Done _ _ _ _ _ lem).

(** * Blocks of words *)

(** Memory with the words [l] from [a] on. *)
Fixpoint with_words (m : memory) (a : Z) (l : list Z) : memory :=
  match l with [] => m | w :: l => <[a := w]> (with_words m (a + 8) l) end.

(** The words [l] are in memory from [a] on. *)
Definition words_in (m : memory) (a : Z) (l : list Z) : Prop :=
  ∀ i x, l !! i = Some x → m !! (a + 8 * Z.of_nat i) = Some x.

Lemma with_words_outside m a l x :
  x < a ∨ a + 8 * Z.of_nat (length l) ≤ x → with_words m a l !! x = m !! x.
Proof.
  revert a. induction l as [|w l IH]; intros a Hx; cbn [with_words length] in *; [done|].
  rewrite lookup_insert_ne by lia. apply IH. lia.
Qed.

Lemma with_words_inside m a l : words_in (with_words m a l) a l.
Proof.
  revert a. induction l as [|w l IH]; intros a i x Hi; [done|]. cbn [with_words].
  destruct i as [|i]; cbn in Hi.
  - injection Hi as <-. by rewrite Z.mul_0_r, Z.add_0_r, lookup_insert_eq.
  - rewrite lookup_insert_ne by lia. specialize (IH (a + 8) i x Hi).
    by replace (a + 8 * Z.of_nat (S i)) with (a + 8 + 8 * Z.of_nat i) by lia.
Qed.

Lemma with_words_mapped m a l x : is_Some (m !! x) → is_Some (with_words m a l !! x).
Proof.
  revert a. induction l as [|w l IH]; intros a Hx; cbn [with_words]; [done|].
  apply lookup_insert_is_Some'. right. by apply IH.
Qed.

(** Blocks of words that do not overlap. *)
Definition apart (a b : Z) (n : nat) : Prop := a + 8 * Z.of_nat n ≤ b ∨ b + 8 * Z.of_nat n ≤ a.

Lemma with_words_insert m a l x w :
  x < a ∨ a + 8 * Z.of_nat (length l) ≤ x → with_words (<[x := w]> m) a l = <[x := w]> (with_words m a l).
Proof.
  revert a. induction l as [|u l IH]; intros a Hx; cbn [with_words length] in *; [done|].
  rewrite IH by lia. apply insert_insert_ne. lia.
Qed.

(** [memcpy] between blocks that do not overlap. *)
Lemma move_words_eq m dest src l :
  words_in m src l → apart dest src (length l) →
  (∀ i, (i < length l)%nat → is_Some (m !! (dest + 8 * Z.of_nat i))) →
  move_words m dest src (length l) = Ok (with_words m dest l).
Proof.
  revert m dest src. induction l as [|w l IH]; intros m dest src Hsrc Hap Hdest; [done|].
  cbn [move_words length with_words]. unfold apart in Hap. cbn [length] in Hap.
  pose proof (Hsrc 0%nat w eq_refl) as Hw. rewrite Z.mul_0_r, Z.add_0_r in Hw.
  rewrite (proj2 (load_Ok _ _ _) Hw), result_bind_ok.
  specialize (Hdest 0%nat ltac:(cbn; lia)) as H0. rewrite Z.mul_0_r, Z.add_0_r in H0.
  rewrite store_Ok, result_bind_ok, IH; [|..|done].
  - f_equal. apply with_words_insert. lia.
  - intros i x Hi. specialize (Hsrc (S i) x Hi). pose proof (lookup_lt_Some _ _ _ Hi).
    rewrite lookup_insert_ne by lia. by replace (src + 8 + 8 * Z.of_nat i) with (src + 8 * Z.of_nat (S i)) by lia.
  - unfold apart. lia.
  - intros i Hi. rewrite lookup_insert_ne by lia. specialize (Hdest (S i) ltac:(cbn; lia)).
    by replace (dest + 8 + 8 * Z.of_nat i) with (dest + 8 * Z.of_nat (S i)) by lia.
Qed.

(** An object that has just been allotted. *)
Record fresh_object (type size : Z) (m : memory) (obj : Z) : Prop := {
  fresh_address : 0 ≤ obj < 2 ^ 47 ∧ obj mod 16 = 0;
  fresh_header : m !! obj = Some (initialize type);
  fresh_words : mapped m obj (obj + size)
}.

Lemma words_mapped m a b n :
  mapped m a b → a mod 8 = 0 → a + 8 * Z.of_nat n ≤ b →
  ∀ i, (i < n)%nat → is_Some (m !! (a + 8 * Z.of_nat i)).
Proof. intros Hm Ha Hb i Hi. apply Hm; [lia|dlia]. Qed.

Lemma tag_array_cell obj : 0 ≤ obj < 2 ^ 47 → obj mod 16 = 0 →
  is_cell (tag ARRAY_TYPE obj) ∧ TAG (tag ARRAY_TYPE obj) = ARRAY_TYPE ∧ UNTAG (tag ARRAY_TYPE obj) = obj.
Proof.
  intros Ho H16. assert (UNTAG obj = obj) as E by (rewrite UNTAG_sub by (unfold is_cell; lia); lia).
  assert (tag ARRAY_TYPE obj = obj + 2) as ->.
  { unfold tag, RETAG. rewrite E. pose proof (lor_shiftl_add (obj / 16) 2 4 ltac:(lia) ltac:(lia)) as L.
    rewrite Z.shiftl_mul_pow2 in L by lia. replace (obj / 16 * 2 ^ 4) with obj in L by dlia. done. }
  rewrite TAG_mod, UNTAG_sub by (unfold is_cell; lia). unfold ARRAY_TYPE, is_cell. split_and!; [lia|lia|dlia|dlia].
Qed.
