(* ===== verification/Room.v ===== *)
(** Computations of the vm when the nursery has room: data roots, allocation
    without a collection, the write barrier, and stores into a new array.

    [heap_ready] says that an allocation of a given size needs no collection;
    [barrier_ready] that the cards of a block are there to be marked. *)

From S2P Require Import Prelude.
From S2P Require Import Layouts.
From S2P Require Import Memory.
From S2P Require Import Effects.
From S2P Require Import Spaces.
From S2P Require Import DataHeap.
From S2P Require Import Objects.
From S2P Require Import Relocation.
From S2P Require Import SlotVisitor.
From S2P Require Import Frames.
From S2P Require Import GC.
From S2P Require Import VM.
Local Open Scope Z_scope.
Local Open Scope cell_scope.

(** * Data roots *)

(** The address of the next handle, and the next [n] of them. *)
Definition next_handle (v : vm) : Z := handles (config v) + 8 * Z.of_nat (length (vm_data_roots v)).

Definition handles_mapped (m : memory) (v : vm) (n : nat) : Prop :=
  ∀ i, (i < n)%nat → is_Some (m !! (next_handle v + 8 * Z.of_nat i)).

Lemma rooted_Done {A} value (body : Z → eff vm A) m v m' v' a :
  is_Some (m !! next_handle v) →
  body (next_handle v) (<[next_handle v := value]> m, with_roots v (next_handle v :: vm_data_roots v)) = Done (m', v') a →
  rooted value body (m, v) = Done (m', with_roots v' (tail (vm_data_roots v'))) a.
Proof.
  intros Hh E. unfold rooted. erewrite bind_Done by reflexivity. cbn [snd]. fold (next_handle v).
  erewrite bind_writes by by apply store_Ok. erewrite bind_Done by reflexivity. cbn [fst snd].
  rewrite (bind_Done _ _ _ _ _ E). done.
Qed.

Lemma rooted_Fatal {A} value (body : Z → eff vm A) m v e :
  is_Some (m !! next_handle v) →
  body (next_handle v) (<[next_handle v := value]> m, with_roots v (next_handle v :: vm_data_roots v)) = Fatal e →
  rooted value body (m, v) = Fatal e.
Proof.
  intros Hh E. unfold rooted. erewrite bind_Done by reflexivity. cbn [snd]. fold (next_handle v).
  erewrite bind_writes by by apply store_Ok. erewrite bind_Done by reflexivity. cbn [fst snd].
  by rewrite (bind_Fatal _ _ _ _ E).
Qed.

Lemma root_value_eq m v h x : m !! h = Some x → root_value TYPE_COUNT h (m, v) = Done (m, v) x.
Proof. intros Hx. apply reads_Ok. cbn [fst]. unfold load. rewrite Hx. done. Qed.

(** * Allocation *)

Definition vm_nursery (v : vm) : bump_allocator := nursery (heap_of (vm_gc v)).

(** The cards of [[lo, hi)] can be marked. *)
Record barrier_ready (g : gc_vm) (lo hi : Z) : Prop := {
  br_barrier : ∃ ca da, gc_barrier g = set_data_heap (heap_of g) ca da;
  br_cards : cards_ok (heap_of g);
  br_inside : dh_start (heap_of g) ≤ lo ∧ hi ≤ heap_end (heap_of g)
}.

(** An allocation of [size] bytes needs no collection. *)
Record heap_ready `{!linkage} (m : memory) (v : vm) (size : Z) : Prop := {
  hr_roots : ∃ parent, roots_of v = Ok parent;
  hr_sized : sized (vm_nursery v) (heap_sizes (heap_of (vm_gc v)));
  hr_idle : current_gc (vm_gc v) = None;
  hr_size : 0 < size < ba_size (vm_nursery v);
  hr_room : here (vm_nursery v) + size ≤ ba_end (vm_nursery v) ≤ 2 ^ 47;
  hr_mapped : mapped m (here (vm_nursery v)) (here (vm_nursery v) + size);
  hr_barrier : barrier_ready (vm_gc v) (here (vm_nursery v)) (here (vm_nursery v) + size)
}.

Lemma heap_ready_here `{!linkage} m v size :
  heap_ready m v size → 0 ≤ here (vm_nursery v) ∧ here (vm_nursery v) mod 16 = 0.
Proof.
  intros Hr. pose proof (hr_sized _ _ _ Hr) as Hs. unfold sized in Hs. destruct (heap_sizes _) as [[y b] t].
  destruct Hs as ([[? _] [? ?] _ _] & _). lia.
Qed.

(** Only the data heap has changed. *)
Definition heap_only (g g' : gc_vm) : Prop := ∃ dh, g' = with_heap g dh.

Lemma heap_only_trans g1 g2 g3 : heap_only g1 g2 → heap_only g2 g3 → heap_only g1 g3.
Proof. intros [d1 ->] [d2 ->]. by exists d2. Qed.

Lemma heap_only_refl g : heap_only g g.
Proof. exists (heap_of g). by destruct g as [[] ? ? ? ? ? ?]. Qed.

(** The bytes of an array of [n] elements. *)
Definition array_bytes (n : nat) : Z := 16 + 8 * Z.of_nat n.

Section room.
Context `{!linkage, !os_memory}.

Lemma vm_allot_ready type size m v :
  heap_ready m v size →
  ∃ g', vm_allot type size (m, v) =
      Done (<[here (vm_nursery v) := initialize type]> m, with_gc v g') (here (vm_nursery v)) ∧
    heap_only (vm_gc v) g' ∧ barrier_ready g' (here (vm_nursery v)) (here (vm_nursery v) + size).
Proof.
  intros [[parent Hp] Hs Hid Hsz [Hroom _] Hm [(ca & da & Hb) Hc Hin]].
  pose proof Hs as Hs'. destruct (heap_sizes (heap_of (vm_gc v))) as [[y a] t] eqn:Ez. destruct Hs' as (Hbump & _).
  pose proof Hbump as [_ [_ H16] _ _]. unfold vm_nursery in *.
  eexists. split; [|split].
  - unfold vm_allot, with_heaps. cbn [fst snd]. rewrite Hp.
    rewrite allot_object_room_eq; [reflexivity|by rewrite Ez|done|done|done|apply Hm; [lia|dlia]].
  - eexists. reflexivity.
  - split; [by exists ca, da|split; apply Hc|done].
Qed.

(** Handles do not matter for an allocation. *)
Lemma heap_ready_roots m m' v r size :
  (∀ a, is_Some (m !! a) → is_Some (m' !! a)) → heap_ready m v size → heap_ready m' (with_roots v r) size.
Proof.
  intros Hm [[parent Hp] Hs Hid Hsz Hroom Hmap Hb]. split; [|done..|by intros a Ha H8; apply Hm, Hmap|done].
  unfold roots_of in *. cbn [contexts active_set with_roots config] in *.
  destruct (read_contexts _ _) as [cs|]; [|done]. rewrite result_bind_ok. by eexists.
Qed.

(** The next [n] handles are not in the block that is allotted. *)
Definition handles_apart (v : vm) (n : nat) (size : Z) : Prop :=
  next_handle v + 8 * Z.of_nat n ≤ here (vm_nursery v) ∨ here (vm_nursery v) + size ≤ next_handle v.

(** A root within a scope that allots: the rest of the scope runs with one
    handle less. *)
Lemma next_handle_root v : next_handle (with_roots v (next_handle v :: vm_data_roots v)) = next_handle v + 8.
Proof. unfold next_handle. cbn [config vm_data_roots with_roots length]. lia. Qed.

Lemma handles_mapped_root m v n x :
  handles_mapped m v (S n) →
  handles_mapped (<[next_handle v := x]> m) (with_roots v (next_handle v :: vm_data_roots v)) n ∧
  is_Some (m !! next_handle v).
Proof.
  intros Hm. split; [|specialize (Hm 0%nat ltac:(lia)); by rewrite Z.mul_0_r, Z.add_0_r in Hm].
  intros i Hi. rewrite next_handle_root, lookup_insert_ne by lia. specialize (Hm (S i) ltac:(lia)).
  by replace (next_handle v + 8 + 8 * Z.of_nat i) with (next_handle v + 8 * Z.of_nat (S i)) by lia.
Qed.

(** [ready m v n size]: [n] roots can be made, and then [size] bytes allotted. *)
Definition ready (m : memory) (v : vm) (n : nat) (size : Z) : Prop :=
  heap_ready m v size ∧ handles_mapped m v n ∧ handles_apart v n size.

Lemma ready_root m v n size x :
  ready m v (S n) size →
  ready (<[next_handle v := x]> m) (with_roots v (next_handle v :: vm_data_roots v)) n size.
Proof.
  intros (Hh & Hm & Ha). destruct (handles_mapped_root m v n x Hm) as [Hm' _]. split_and!; [|done|].
  - eapply heap_ready_roots; [|done]. intros a Hs. apply lookup_insert_is_Some'. by right.
  - unfold handles_apart in *. rewrite next_handle_root. unfold vm_nursery in *. cbn [vm_gc with_roots]. lia.
Qed.

(** Neither do the pointers of a context. *)
Lemma ready_context m v p c n size : ready m v n size → ready m (with_contexts v (<[p := c]> (contexts v))) n size.
Proof.
  intros ([[parent Hp] Hs Hid Hsz Hroom Hm Hb] & Hh & Ha). split; [|done]. split; try done.
  unfold roots_of in *. cbn [contexts active_set with_contexts config vm_data_roots] in *.
  apply result_bind_inv in Hp as (cs & E & _). destruct (read_contexts_insert _ _ _ p c E) as [cs' E'].
  rewrite E'. by eexists.
Qed.

(** Less room, and room after an allocation. *)
Lemma heap_ready_less m v size size' : heap_ready m v size → 0 < size' ≤ size → heap_ready m v size'.
Proof.
  intros [Hp Hs Hid Hsz Hroom Hm [Hb Hc Hin]] Hle. split; [done|done|done|lia|lia| |].
  - intros a Ha. apply Hm. lia.
  - split; [done|done|lia].
Qed.

Lemma align_16 size : 0 ≤ size < 2 ^ 62 → size ≤ align size data_alignment < size + 16 ∧ align size data_alignment mod 16 = 0.
Proof. intros Hs. apply (align_bounds size 4); unfold is_cell; lia. Qed.

Lemma vm_allot_next type size m v n B :
  ready m v n B → 0 < size < 2 ^ 62 → align size data_alignment < B →
  let a := here (vm_nursery v) in
  ∃ g', vm_allot type size (m, v) = Done (<[a := initialize type]> m, with_gc v g') a ∧
    heap_only (vm_gc v) g' ∧ here (vm_nursery (with_gc v g')) = a + align size data_alignment ∧
    (∀ lo hi, barrier_ready (vm_gc v) lo hi → barrier_ready g' lo hi) ∧
    ready (<[a := initialize type]> m) (with_gc v g') n (B - align size data_alignment).
Proof.
  intros (Hr & Hh & Hap) Hs HB a. destruct Hr as [[parent Hp] Hsz Hid HsB [Hroom Hend] Hm [(ca & da & Hb) Hc Hin]].
  fold a in Hroom, Hm, Hin. pose proof (align_16 size ltac:(lia)) as [Hal Hal16].
  assert (bump_ok (vm_nursery v)) as Hbump by (unfold sized in Hsz; by destruct (heap_sizes _) as [[? ?] ?], Hsz).
  pose proof Hbump as [_ [Hhere H16] _ _]. fold a in Hhere, H16.
  destruct (bump_allot_spec (vm_nursery v) size Hbump ltac:(lia) ltac:(fold a; lia)) as (Eb & Hbump' & _).
  rewrite Eb in Hbump'. fold a in Eb, Hbump'. pose proof (bump_start _ Hbump) as Hstart. cbn [fst] in Hbump'.
  set (g' := with_heap (vm_gc v) (set_nursery (heap_of (vm_gc v)) (bump_allot (vm_nursery v) size).1)).
  pose proof (f_equal fst Eb : vm_nursery (with_gc v g') = _) as En. cbn [fst] in En.
  exists g'. split; [|split; [by eexists|split; [by rewrite En|split]]].
  - unfold vm_allot, with_heaps. cbn [fst snd]. rewrite Hp.
    rewrite allot_object_room_eq; [reflexivity|done|done|fold (vm_nursery v); lia|fold (vm_nursery v) a; lia|].
    fold (vm_nursery v). apply Hm; fold a; [lia|dlia].
  - intros lo hi [_ _ Hlh]. split; [by exists ca, da|split; apply Hc|].
    change (heap_end (heap_of g')) with (ba_end (vm_nursery (with_gc v g'))).
    rewrite En. change (heap_end (heap_of (vm_gc v))) with (ba_end (vm_nursery v)) in Hlh. cbn. lia.
  - split; [split; rewrite ?En; cbn [here ba_size ba_end]|split].
    + by exists parent.
    + change (heap_sizes (heap_of (vm_gc (with_gc v g')))) with (heap_sizes (heap_of (vm_gc v))).
      unfold sized in *. destruct (heap_sizes (heap_of (vm_gc v))) as [[y b] t]. split; [done|]. apply Hsz.
    + done.
    + lia.
    + lia.
    + intros x Hx H8. apply lookup_insert_is_Some'. right. apply Hm; [lia|done].
    + split; [by exists ca, da|split; apply Hc|].
      change (heap_end (heap_of (vm_gc (with_gc v g')))) with (ba_end (vm_nursery (with_gc v g'))).
      rewrite En. change (heap_end (heap_of (vm_gc v))) with (ba_end (vm_nursery v)) in Hin. cbn. lia.
    + intros k Hk. apply lookup_insert_is_Some'. right. by apply Hh.
    + unfold handles_apart in *. rewrite En. change (next_handle (with_gc v _)) with (next_handle v). cbn. unfold a in *. lia.
Qed.

(** A tagged pointer to an object. *)
Lemma tag_object type obj :
  1 < type < 16 → 0 ≤ obj < 2 ^ 47 → obj mod 16 = 0 →
  is_cell (tag type obj) ∧ TAG (tag type obj) = type ∧ UNTAG (tag type obj) = obj ∧ to_boolean (tag type obj) = true.
Proof.
  intros Ht Ho H16. assert (tag type obj = obj + type) as ->.
  { unfold tag, RETAG. rewrite UNTAG_sub by (unfold is_cell; lia). rewrite H16, Z.sub_0_r.
    apply cell_fits_type; [unfold is_cell; lia|done|lia]. }
  rewrite TAG_mod, UNTAG_sub by (unfold is_cell; lia). unfold is_cell, to_boolean, false_object, F_TYPE.
  split_and!; [lia|lia|dlia|dlia|]. rewrite (proj2 (Z.eqb_neq _ _)) by dlia. done.
Qed.

Lemma root_untagged_eq m v type h obj :
  m !! h = Some (tag type obj) → 1 < type < 16 → 0 ≤ obj < 2 ^ 47 → obj mod 16 = 0 →
  root_untagged type h (m, v) = Done (m, v) obj.
Proof.
  intros Hh Ht Ho H16. destruct (tag_object type obj Ht Ho H16) as (_ & Etag & Eun & _). apply reads_Ok.
  cbn [fst]. unfold load. rewrite Hh. cbn [mbind result_bind]. unfold untag. rewrite Etag, Eun, Z.eqb_refl, orb_true_r. done.
Qed.

(** The scope of a root that leaves the roots as they were. *)
Lemma rooted_ready {A} value (body : Z → eff vm A) m v n size (Q : memory → gc_vm → A → Prop) :
  ready m v (S n) size →
  (let m1 := <[next_handle v := value]> m in
   let v1 := with_roots v (next_handle v :: vm_data_roots v) in
   ready m1 v1 n size → next_handle v1 = next_handle v + 8 → vm_gc v1 = vm_gc v →
   ∃ m' g' a, body (next_handle v) (m1, v1) = Done (m', with_gc v1 g') a ∧ Q m' g' a) →
  ∃ m' g' a, rooted value body (m, v) = Done (m', with_gc v g') a ∧ Q m' g' a.
Proof.
  intros Hr Hbody. destruct Hbody as (m' & g' & a & E & HQ); [by apply ready_root|apply next_handle_root|done|].
  exists m', g', a. split; [|done]. erewrite rooted_Done; [|apply (handles_mapped_root m v n value), Hr|exact E].
  by destruct v.
Qed.

(** ** The write barrier *)

Lemma vm_write_barrier_ready m v lo hi slot :
  barrier_ready (vm_gc v) lo hi → lo ≤ slot < hi →
  ∃ g', vm_write_barrier slot (m, v) = Done (m, with_gc v g') () ∧ heap_only (vm_gc v) g' ∧ barrier_ready g' lo hi.
Proof.
  intros [(ca & da & Hb) Hc Hin] Hslot. unfold vm_write_barrier. erewrite bind_Done by reflexivity.
  cbn [snd]. rewrite Hb. erewrite bind_reads by (apply write_barrier_slot; [done|lia]).
  eexists. split; [reflexivity|]. split; [by eexists|]. split.
  - by exists ca, da.
  - by apply cards_ok_set; rewrite ?length_insert.
  - done.
Qed.

(** ** Arrays *)

(** An array without its elements. *)
Lemma array_at_header m a l : array_at m a l → 0 ≤ a < 2 ^ 62 ∧
  array_capacity ARRAY_TYPE m a = Ok (Z.of_nat (length l)) ∧ Z.of_nat (length l) < 2 ^ 58.
Proof. intros Ha. split_and!; [apply Ha..|by apply array_capacity_at|apply Ha]. Qed.

Lemma array_at_insert m a l i x :
  array_at m a l → (i < length l)%nat → array_at (<[a + 16 + 8 * Z.of_nat i := x]> m) a (<[i := x]> l).
Proof.
  intros [Had (h & Hh & Ht) [Hl Hr] Hsm Hel] Hi. split; [done|..].
  - exists h. split; [|done]. by rewrite lookup_insert_ne by lia.
  - rewrite length_insert. split; [|done]. by rewrite lookup_insert_ne by lia.
  - by rewrite length_insert.
  - intros j y [(-> & <- & _)|[Hne Hj]]%list_lookup_insert_Some; [by rewrite lookup_insert_eq|].
    rewrite lookup_insert_ne by lia. by apply Hel.
Qed.

Lemma array_at_agree m m' a l :
  (∀ x, a ≤ x < a + array_bytes (length l) → m' !! x = m !! x) → array_at m a l → array_at m' a l.
Proof.
  unfold array_bytes. intros Hm [Had (h & Hh & Ht) [Hl Hr] Hsm Hel]. split; [done|..|done|].
  - exists h. by rewrite Hm by lia.
  - split; [|done]. by rewrite Hm by lia.
  - intros i x Hi. pose proof (lookup_lt_Some _ _ _ Hi). rewrite Hm by lia. by apply Hel.
Qed.

(** [m'] has the words of [m] outside [[lo, hi)]. *)
Definition same_outside (m m' : memory) (lo hi : Z) : Prop :=
  ∀ a, a < lo ∨ hi ≤ a → m' !! a = m !! a.

Lemma same_outside_trans m1 m2 m3 lo hi :
  same_outside m1 m2 lo hi → same_outside m2 m3 lo hi → same_outside m1 m3 lo hi.
Proof. intros H12 H23 a Ha. by rewrite H23, H12. Qed.

Lemma same_outside_insert m lo hi x w : lo ≤ x < hi → same_outside m (<[x := w]> m) lo hi.
Proof. intros Hx a Ha. apply lookup_insert_ne. lia. Qed.

Lemma vm_set_array_nth_ready m v a l i x :
  array_at m a l → (i < length l)%nat → barrier_ready (vm_gc v) a (a + 16 + 8 * Z.of_nat (length l)) →
  ∃ m' g', vm_set_array_nth a (Z.of_nat i) x (m, v) = Done (m', with_gc v g') () ∧
    array_at m' a (<[i := x]> l) ∧ same_outside m m' a (a + 16 + 8 * Z.of_nat (length l)) ∧
    heap_only (vm_gc v) g' ∧ barrier_ready g' a (a + 16 + 8 * Z.of_nat (length l)).
Proof.
  intros Ha Hi Hb. destruct (array_at_header m a l Ha) as (Had & Hcap & Hsm).
  destruct (lookup_lt_is_Some_2 l i Hi) as [y Hy]. pose proof (arr_elements _ _ _ Ha i y Hy) as Hw.
  unfold vm_set_array_nth. rewrite (bind_reads _ _ _ _ ()).
  2:{ by rewrite Hcap, result_bind_ok, (proj2 (Z.ltb_lt _ _)) by lia. }
  rewrite element_address_eq by lia.
  rewrite (bind_writes _ _ _ _ (<[a + 16 + 8 * Z.of_nat i := x]> m)) by (apply store_Ok; eauto).
  destruct (vm_write_barrier_ready (<[a + 16 + 8 * Z.of_nat i := x]> m) v a (a + 16 + 8 * Z.of_nat (length l))
    (a + 16 + 8 * Z.of_nat i) Hb ltac:(lia)) as (g' & E & Hho & Hb').
  exists (<[a + 16 + 8 * Z.of_nat i := x]> m), g'. split; [exact E|].
  split; [by apply array_at_insert|]. split; [apply same_outside_insert; lia|done].
Qed.

Lemma vm_allot_array_ready m v (n : nat) :
  heap_ready m v (array_bytes n) → Z.of_nat n < 2 ^ 47 →
  let a := here (vm_nursery v) in
  ∃ m' g' l, vm_allot_array ARRAY_TYPE sizeof_array 8 (Z.of_nat n) (m, v) = Done (m', with_gc v g') a ∧
    length l = n ∧ array_at m' a l ∧ same_outside m m' a (a + array_bytes n) ∧
    heap_only (vm_gc v) g' ∧ barrier_ready g' a (a + array_bytes n) ∧ a mod 16 = 0.
Proof.
  intros Hr Hn a. destruct (vm_allot_ready ARRAY_TYPE (array_bytes n) m v Hr) as (g' & E & Hho & Hb).
  fold a in E, Hb. pose proof (hr_mapped _ _ _ Hr) as Hm. fold a in Hm. pose proof (hr_room _ _ _ Hr) as Hroom. fold a in Hroom.
  pose proof (heap_ready_here _ _ _ Hr : 0 ≤ a ∧ a mod 16 = 0) as [Ha H16].
  unfold array_bytes in *.
  assert (∃ l, length l = n ∧ ∀ i x, l !! i = Some x → m !! (a + 16 + 8 * Z.of_nat i) = Some x) as (l & Hl & Hel).
  { exists ((λ i : nat, default 0 (m !! (a + 16 + 8 * Z.of_nat i))) <$> seq 0 n).
    split; [by rewrite length_fmap, length_seq|]. intros i x Hi.
    apply list_lookup_fmap_Some in Hi as (j & -> & Hj). apply lookup_seq in Hj as [-> Hj].
    destruct (Hm (a + 16 + 8 * Z.of_nat i)) as [w Hw]; [lia|dlia|]. cbn [Nat.add]. by rewrite Hw. }
  exists (<[a + 8 := tag_fixnum (Z.of_nat n)]> (<[a := initialize ARRAY_TYPE]> m)), g', l.
  split_and!; [|done| | |done|done|done].
  - unfold vm_allot_array. rewrite array_size_eq by (change array_size_max with (2 ^ 58); change sizeof_array with 16; lia).
    change sizeof_array with 16. rewrite (bind_Done _ _ _ _ _ E). unfold put_field.
    erewrite bind_writes; [reflexivity|]. rewrite u64_id by (unfold is_cell; lia). apply store_Ok.
    rewrite lookup_insert_ne by lia. apply Hm; [lia|dlia].
  - split.
    + lia.
    + exists (initialize ARRAY_TYPE). by rewrite lookup_insert_ne, lookup_insert_eq by lia.
    + split; [|change array_size_max with (2 ^ 58); lia]. by rewrite lookup_insert_eq, Hl.
    + lia.
    + intros i x Hi. rewrite !lookup_insert_ne by lia. by apply Hel.
  - eapply same_outside_trans; apply same_outside_insert; lia.
Qed.
End room.
