(* ===== verification/Aliens.v ===== *)
(** Aliens, the objects that represent C pointers: vm/alien.cpp.

    An alien has a base, which is [f] or a byte array, a displacement from it
    and the address the two give, which is kept up to date when the base
    moves.  The accessors of floating-point numbers and the primitives that
    open and close libraries are not modelled. *)

From S2P Require Import Prelude.
From S2P Require Import Layouts.
From S2P Require Import Memory.
From S2P Require Import Bytes.
From S2P Require Import Effects.
From S2P Require Import Objects.
From S2P Require Import Relocation.
From S2P Require Import SlotVisitor.
From S2P Require Import GC.
From S2P Require Import Bignum.
From S2P Require Import BignumConv.
From S2P Require Import VM.
Local Open Scope Z_scope.
Local Open Scope cell_scope.

(** The offsets of the fields of an alien. *)
Definition alien_base : Z := 8.
Definition alien_expired : Z := 16.
Definition alien_displacement : Z := 24.
Definition alien_address_field : Z := 32.

(** src/vm/alien.cpp:7-24 [pinned_alien_offset] *)
Definition pinned_alien_offset (obj : Z) : eff vm Z :=
  let t := TAG obj in
  if t =? ALIEN_TYPE then
    ptr ← reads (λ _, untag ALIEN_TYPE obj);
    expired ← reads (λ m, field m ptr alien_expired);
    if to_boolean expired then raise ERROR_EXPIRED
    else
      base ← reads (λ m, field m ptr alien_base);
      if to_boolean base then raise (ERROR_TYPE ALIEN_TYPE)
      else reads (λ m, field m ptr alien_address_field)
  else if t =? F_TYPE then mret 0
  else raise (ERROR_TYPE ALIEN_TYPE).

Section aliens.
Context `{!linkage, !os_memory}.

(** src/vm/alien.cpp:28-47 [allot_alien] *)
Definition allot_displaced_alien (delegate_ displacement : Z) : eff vm Z :=
  if displacement =? 0 then mret delegate_
  else
    rooted delegate_ (λ delegate,
      ptr ← vm_allot ALIEN_TYPE sizeof_alien;
      rooted (tag ALIEN_TYPE ptr) (λ new_alien,
        alien ← root_untagged ALIEN_TYPE new_alien;
        displacement ←
          (if TAG delegate_ =? ALIEN_TYPE then
             delegate_alien ← root_untagged ALIEN_TYPE delegate;
             d ← reads (λ m, field m delegate_alien alien_displacement);
             base ← reads (λ m, field m delegate_alien alien_base);
             _ ← writes (λ m, put_field m alien alien_base base);
             mret (displacement +& d)
           else
             base ← root_value TYPE_COUNT delegate;
             _ ← writes (λ m, put_field m alien alien_base base);
             mret displacement);
        _ ← writes (λ m, put_field m alien alien_displacement displacement);
        _ ← writes (λ m, put_field m alien alien_expired false_object);
        _ ← writes (λ m, update_address m alien);
        root_value ALIEN_TYPE new_alien)).

(** src/vm/alien.cpp:50-52 [allot_alien] *)
Definition allot_alien (address : Z) : eff vm Z := allot_displaced_alien false_object address.

(** src/vm/alien.cpp:56-70 [primitive_displaced_alien] *)
Definition primitive_displaced_alien : eff vm () :=
  alien ← ctx_pop;
  d ← ctx_pop;
  displacement ← cell_to_cell d;
  let t := TAG alien in
  if (t =? BYTE_ARRAY_TYPE) || (t =? ALIEN_TYPE) || (t =? F_TYPE) then
    v ← allot_displaced_alien alien displacement;
    ctx_push v
  else raise (ERROR_TYPE ALIEN_TYPE).

(** src/vm/alien.cpp:75-77 [primitive_alien_address] *)
Definition primitive_alien_address : eff vm () :=
  obj ← ctx_peek;
  address ← pinned_alien_offset obj;
  v ← box_unsigned_cell address;
  ctx_replace v.

(** src/vm/alien.cpp:80-83 [alien_pointer] *)
Definition alien_pointer : eff vm Z :=
  n ← ctx_pop;
  offset ← cell_to_fixnum n;
  obj ← ctx_pop;
  base ← reads (λ m, alien_offset m obj);
  mret (base +& offset).

(** ** Accessors *)

(** The C integer types of the accessors: their size in bytes and whether
    they are signed.  A value of the type is its image in [Z]. *)
Definition of_width (bytes : nat) (signed : bool) (v : Z) : Z :=
  let n := 8 * Z.of_nat bytes in
  let v := v mod 2 ^ n in
  if signed && (2 ^ (n - 1) <=? v) then v - 2 ^ n else v.

(** src/vm/alien.cpp:86-89 [DEFINE_ALIEN_ACCESSOR] (part) *)
Definition primitive_alien_integer (bytes : nat) (signed : bool) : eff vm () :=
  ptr ← alien_pointer;
  v ← reads (λ m, load_bytes bytes m ptr);
  let n := of_width bytes signed v in
  boxed ← (if signed then box_signed_cell n else box_unsigned_cell n);
  ctx_push boxed.

(** src/vm/alien.cpp:90-94 [DEFINE_ALIEN_ACCESSOR] (part) *)
Definition primitive_set_alien_integer (bytes : nat) (signed : bool) : eff vm () :=
  ptr ← alien_pointer;
  v ← ctx_pop;
  value ← (if signed then cell_to_fixnum v else cell_to_cell v);
  writes (λ m, store_bytes bytes m ptr value).

(** src/vm/primitives.hpp:43-53 [EACH_ALIEN_PRIMITIVE] (part): The integer
    accessors by the suffix of their names. *)
Definition alien_accessors : list (nat * bool) :=
  [(8%nat, true); (8%nat, false); (8%nat, true); (8%nat, false); (4%nat, true); (4%nat, false);
   (2%nat, true); (2%nat, false); (1%nat, true); (1%nat, false)].

(** src/vm/alien.cpp:86-89 [DEFINE_ALIEN_ACCESSOR] (part): [alien_cell]. *)
Definition primitive_alien_cell : eff vm () :=
  ptr ← alien_pointer;
  v ← reads (λ m, load_bytes 8 m ptr);
  a ← allot_alien v;
  ctx_push a.

(** src/vm/alien.cpp:90-94 [DEFINE_ALIEN_ACCESSOR] (part): [set_alien_cell]. *)
Definition primitive_set_alien_cell : eff vm () :=
  ptr ← alien_pointer;
  v ← ctx_pop;
  value ← pinned_alien_offset v;
  writes (λ m, store_bytes 8 m ptr value).

(** ** Libraries *)

(** [dlopen] of a path, which is 0 when it fails, and whether [dlclose] of a
    handle succeeds. *)
Class dynamic_linker := {
  dlopen : list Z → Z;
  dlclose : Z → bool
}.
Section libraries.
Context `{!dynamic_linker}.

(** src/vm/layouts.hpp:308-314 [dll] (part) *)
Definition dll_path : Z := 8.

(** src/vm/os-unix.cpp:44-46 [ffi_dlopen]: the path is a byte array. *)
Definition ffi_dlopen (d : Z) : eff vm () :=
  path ← reads (λ m, field m d dll_path);
  name ← reads (λ m, address ← alien_offset m path; c_string m address);
  writes (λ m, put_field m d dll_handle (dlopen name)).

(** src/vm/os-unix.cpp:56-60 [ffi_dlclose] *)
Definition ffi_dlclose (d : Z) : eff vm () :=
  handle ← reads (λ m, field m d dll_handle);
  if dlclose handle then writes (λ m, put_field m d dll_handle 0) else raise ERROR_FFI.

(** src/vm/alien.cpp:100-107 [primitive_dlopen] *)
Definition primitive_dlopen : eff vm () :=
  p ← ctx_pop;
  rooted p (λ path,
    _ ← check_tagged BYTE_ARRAY_TYPE path;
    d ← vm_allot DLL_TYPE sizeof_dll;
    rooted (tag DLL_TYPE d) (λ library,
      d ← root_untagged DLL_TYPE library;
      p ← root_value BYTE_ARRAY_TYPE path;
      _ ← writes (λ m, put_field m d dll_path p);
      _ ← ffi_dlopen d;
      l ← root_value DLL_TYPE library;
      ctx_push l)).
End libraries.

(** src/vm/alien.cpp:111-127 [primitive_dlsym] *)
Definition primitive_dlsym : eff vm () :=
  l ← ctx_pop;
  rooted l (λ library,
    n ← ctx_peek;
    rooted n (λ name,
      _ ← check_tagged BYTE_ARRAY_TYPE name;
      nm ← root_untagged BYTE_ARRAY_TYPE name;
      let sym := nm +& sizeof_byte_array in
      lib ← root_value TYPE_COUNT library;
      if to_boolean lib then
        d ← untag_check DLL_TYPE lib;
        handle ← reads (λ m, field m d dll_handle);
        if handle =? 0 then ctx_replace false_object
        else
          address ← reads (λ m, ffi_dlsym_raw m d sym);
          a ← allot_alien address;
          ctx_replace a
      else
        address ← reads (λ m, ffi_dlsym_raw m 0 sym);
        a ← allot_alien address;
        ctx_replace a)).

(** src/vm/alien.cpp:131-147 [primitive_dlsym_raw]: on x86 the code pointer of
    a function is its address. *)
Definition primitive_dlsym_raw : eff vm () := primitive_dlsym.

(** src/vm/alien.cpp:150-152 [primitive_dlclose] (part): The test before the
    library is closed. *)
Definition dll_open_p (library : Z) : eff vm bool :=
  d ← untag_check DLL_TYPE library;
  handle ← reads (λ m, field m d dll_handle);
  mret (negb (handle =? 0)).

(** src/vm/alien.cpp:150-154 [primitive_dlclose] *)
Definition primitive_dlclose `{!dynamic_linker} : eff vm () :=
  library ← ctx_pop;
  open ← dll_open_p library;
  if open : bool then ffi_dlclose (UNTAG library) else mret ().

(** src/vm/alien.cpp:156-162 [primitive_dll_validp] *)
Definition primitive_dll_validp : eff vm () :=
  library ← ctx_peek;
  if to_boolean library then
    valid ← dll_open_p library;
    t ← vm_tag_boolean valid;
    ctx_replace t
  else
    t ← vm_special OBJ_CANONICAL_TRUE;
    ctx_replace t.
End aliens.
