(* ===== verification/Contexts.v ===== *)
(** Contexts: vm/contexts.cpp, and the guard pages of vm/segments.hpp.

    A context has a data stack, a retain stack and a call stack in segments
    between guard pages, and four context objects.  Contexts that are no longer
    used are kept in a pool of at most ten. *)

From S2P Require Import Prelude.
From S2P Require Import Layouts.
From S2P Require Import Memory.
From S2P Require Import Effects.
From S2P Require Import FreeList.
From S2P Require Import Sweep.
From S2P Require Import Spaces.
From S2P Require Import DataHeap.
From S2P Require Import Objects.
From S2P Require Import Relocation.
From S2P Require Import SlotVisitor.
From S2P Require Import GC.
From S2P Require Import BignumConv.
From S2P Require Import VM.
From S2P Require Import Aliens.
Local Open Scope Z_scope.
Local Open Scope cell_scope.
Local Open Scope fixnum_scope.

(** src/vm/contexts.hpp:7-12 [context_object] *)
Inductive context_object := OBJ_NAMESTACK | OBJ_CATCHSTACK | OBJ_CONTEXT | OBJ_IN_CALLBACK_P.

Definition context_object_index (o : context_object) : Z :=
  match o with
  | OBJ_NAMESTACK => 0
  | OBJ_CATCHSTACK => 1
  | OBJ_CONTEXT => 2
  | OBJ_IN_CALLBACK_P => 3
  end.

(** src/vm/contexts.hpp:18-18 [stack_reserved] *)
Definition stack_reserved : Z := 16384.

(** The size of a context, and the offset of its array of context objects. *)
Definition sizeof_context : Z := 96.
Definition offsetof_context_objects : Z := 64.

(** The operating system's memory for C++ objects ([operator new]), and its
    page size. *)
Class c_heap := {
  malloc : memory → Z → option (memory * Z);
  getpagesize : Z
}.

(** * Resetting *)

(** src/vm/contexts.cpp:17-20 [context::reset_datastack] *)
Definition reset_datastack (c : context) : context :=
  with_datastack c (seg_start (datastack_seg c) -& 8).

(** src/vm/contexts.cpp:22-25 [context::reset_retainstack] *)
Definition reset_retainstack (c : context) : context :=
  with_retainstack c (seg_start (retainstack_seg c) -& 8).

(** src/vm/cpu-x86.hpp:3-4 [CALLSTACK_BOTTOM] *)
Definition CALLSTACK_BOTTOM (c : context) : Z := seg_end (callstack_seg c) -& (8 * 5).

(** src/vm/contexts.cpp:27-29 [context::reset_callstack] *)
Definition reset_callstack (c : context) : context :=
  with_callstack c (CALLSTACK_BOTTOM c) (CALLSTACK_BOTTOM c).

(** src/vm/utilities.hpp:28-47 [memset_cell]: [n] words. *)
Fixpoint memset_cell (m : memory) (dst pattern : Z) (n : nat) : result memory :=
  match n with
  | 0%nat => Ok m
  | S n => m ← store m dst pattern; memset_cell m (dst + 8) pattern n
  end.

(** src/vm/contexts.cpp:31-34 [context::reset_context_objects] *)
Definition reset_context_objects (m : memory) (c : context) : result memory :=
  memset_cell m (context_objects c) false_object (Z.to_nat context_object_count).

(** src/vm/contexts.cpp:65-70 [context::reset] *)
Definition reset (p : Z) : eff vm () :=
  c ← context_at p;
  let c := reset_callstack (reset_retainstack (reset_datastack c)) in
  _ ← set_context p c;
  writes (λ m, reset_context_objects m c).

(** src/vm/contexts.cpp:72-80 [context::fix_stacks] *)
Definition fix_stacks (c : context) : context :=
  let c :=
    if ((datastack c +& 8) <? seg_start (datastack_seg c)) ||
       (seg_end (datastack_seg c) <=? (datastack c +& stack_reserved))
    then reset_datastack c else c in
  if ((retainstack c +& 8) <? seg_start (retainstack_seg c)) ||
     (seg_end (retainstack_seg c) <=? (retainstack c +& stack_reserved))
  then reset_retainstack c else c.

(** * Guard pages *)

Section contexts.
Context `{!linkage, !os_memory, !c_heap}.

(** src/vm/segments.hpp:17-19 [underflow_p] *)
Definition underflow_p (s : segment) (addr : Z) : bool :=
  ((seg_start s -& getpagesize) <=? addr) && (addr <? seg_start s).

(** src/vm/segments.hpp:21-23 [overflow_p] *)
Definition overflow_p (s : segment) (addr : Z) : bool :=
  (seg_end s <=? addr) && (addr <? (seg_end s +& getpagesize)).

(** src/vm/contexts.cpp:48-63 [context::address_to_error] *)
Definition address_to_error (c : context) (addr : Z) : vm_error :=
  if underflow_p (datastack_seg c) addr then ERROR_DATASTACK_UNDERFLOW
  else if overflow_p (datastack_seg c) addr then ERROR_DATASTACK_OVERFLOW
  else if underflow_p (retainstack_seg c) addr then ERROR_RETAINSTACK_UNDERFLOW
  else if overflow_p (retainstack_seg c) addr then ERROR_RETAINSTACK_OVERFLOW
  else if underflow_p (callstack_seg c) addr then ERROR_CALLSTACK_OVERFLOW
  else if overflow_p (callstack_seg c) addr then ERROR_CALLSTACK_UNDERFLOW
  else ERROR_MEMORY.

(** * The pool *)

(** src/vm/os-unix.cpp:77-99 [segment::segment] (part): The pages, or
    [fatal_error]; [map_segment] gives the address after the guard page. *)
Definition alloc_segment (size : Z) : eff vm segment :=
  '(m, start) ← reads (λ m, match map_segment m size with Some r => Ok r | None => Err FATAL_ERROR end);
  _ ← writes (λ _, Ok m);
  mret (new_segment start size).

(** src/vm/contexts.cpp:5-15 [context::context]: with [operator new]. *)
Definition construct_context (ds_size rs_size cs_size : Z) : eff vm Z :=
  '(m, p) ← reads (λ m, match malloc m sizeof_context with Some r => Ok r | None => Err FATAL_ERROR end);
  _ ← writes (λ _, Ok m);
  ds ← alloc_segment ds_size;
  rs ← alloc_segment rs_size;
  cs ← alloc_segment cs_size;
  _ ← set_context p (mk_context 0 0 0 0 0 ds rs cs (p +& offsetof_context_objects));
  _ ← reset p;
  mret p.

(** The words of the segment from [lo] to [hi] are given back. *)
Definition unmap_range (m : memory) (lo hi : Z) : memory := unmap m (mk_segment lo (hi - lo) hi).

(** src/vm/contexts.cpp:82-86 [context::~context]: with [operator delete]. *)
Definition destroy_context (p : Z) : eff vm () :=
  c ← context_at p;
  _ ← writes (λ m, Ok (unmap m (datastack_seg c)));
  _ ← writes (λ m, Ok (unmap m (retainstack_seg c)));
  _ ← writes (λ m, Ok (unmap m (callstack_seg c)));
  _ ← writes (λ m, Ok (unmap_range m p (p + sizeof_context)));
  change (λ v, with_contexts v (base.delete p (contexts v))).

(** src/vm/contexts.cpp:88-103 [factor_vm::new_context] *)
Definition new_context : eff vm Z :=
  v ← get_state;
  p ← match last (unused_contexts v) with
      | None => construct_context (datastack_size (config v)) (retainstack_size (config v)) (callstack_size (config v))
      | Some p =>
          _ ← change (λ v, with_pool v (removelast (unused_contexts v)) (active_set v));
          mret p
      end;
  _ ← reset p;
  _ ← change (λ v, with_pool v (unused_contexts v) ({[p]} ∪ active_set v));
  mret p.

(** src/vm/contexts.cpp:106-108 [factor_vm::init_context] *)
Definition init_context (p : Z) : eff vm () :=
  a ← allot_alien p;
  c ← context_at p;
  writes (λ m, store m (context_objects c +& (8 * context_object_index OBJ_CONTEXT)) a).

(** src/vm/contexts.cpp:111-115 [new_context] *)
Definition new_context_api : eff vm Z :=
  p ← new_context;
  _ ← init_context p;
  mret p.

(** src/vm/contexts.cpp:121-125 [factor_vm::delete_context] (part): The loop,
    on the list of unused contexts. *)
Fixpoint trim_unused (unused : list Z) : eff vm () :=
  match unused with
  | stale_context :: rest =>
      if (10 <? length unused)%nat then
        _ ← change (λ v, with_pool v rest (active_set v));
        _ ← destroy_context stale_context;
        trim_unused rest
      else mret ()
  | [] => mret ()
  end.

(** src/vm/contexts.cpp:117-126 [factor_vm::delete_context] *)
Definition delete_context : eff vm () :=
  _ ← change (λ v, with_pool v (unused_contexts v ++ [ctx v]) (active_set v ∖ {[ctx v]}));
  unused ← ask unused_contexts;
  trim_unused unused.

(** src/vm/contexts.cpp:132-146 [reset_context] *)
Definition reset_context : eff vm () :=
  arg1 ← ctx_pop;
  arg2 ← ctx_pop;
  p ← ask ctx;
  _ ← reset p;
  _ ← ctx_push arg2;
  _ ← ctx_push arg1;
  init_context p.

(** src/vm/contexts.cpp:149-159 [factor_vm::begin_callback]: the counter is an
    [int]. *)
Definition begin_callback (quot_ : Z) : eff vm Z :=
  rooted quot_ (λ quot,
    p ← ask ctx;
    _ ← reset p;
    spare ← new_context;
    _ ← change (λ v, with_ctx v (ctx v) spare);
    _ ← change (λ v, with_callbacks v (callback_id v :: callback_ids v)
                       (of_width 4 true (callback_id v + 1)));
    p ← ask ctx;
    _ ← init_context p;
    root_value TYPE_COUNT quot).

(** src/vm/contexts.cpp:166-169 [factor_vm::end_callback] *)
Definition end_callback : eff vm () :=
  _ ← change (λ v, with_callbacks v (tail (callback_ids v)) (callback_id v));
  delete_context.

(** src/vm/contexts.cpp:173-175 [primitive_current_callback] *)
Definition primitive_current_callback : eff vm () :=
  v ← get_state;
  id ← reads (λ _, match callback_ids v with id :: _ => Ok id | [] => Err BAD_ACCESS end);
  ctx_push (tag_fixnum id).

(** * Context objects *)

(** src/vm/contexts.cpp:177-180 [primitive_context_object] *)
Definition primitive_context_object : eff vm () :=
  v ← ctx_peek;
  n ← fixnum_of v;
  c ← current_context;
  o ← reads (λ m, load m (context_objects c +& (8 *& n)));
  ctx_replace o.

(** src/vm/contexts.cpp:182-186 [primitive_set_context_object] *)
Definition primitive_set_context_object : eff vm () :=
  v ← ctx_pop;
  n ← fixnum_of v;
  value ← ctx_pop;
  c ← current_context;
  writes (λ m, store m (context_objects c +& (8 *& n)) value).

(** src/vm/contexts.cpp:188-192 [primitive_context_object_for] *)
Definition primitive_context_object_for : eff vm () :=
  a ← ctx_pop;
  other_ctx ← pinned_alien_offset a;
  v ← ctx_peek;
  n ← fixnum_of v;
  c ← context_at other_ctx;
  o ← reads (λ m, load m (context_objects c +& (8 *& n)));
  ctx_replace o.

(** * Stacks and arrays *)

(** src/vm/contexts.cpp:195-204 [stack_to_array]: the division is unsigned, on
    a depth that is not negative. *)
Definition stack_to_array (bottom top : Z) (error : vm_error) : eff vm Z :=
  let depth := s64 ((top -& bottom) +& 8) in
  if depth <? 0 then raise error
  else
    a ← vm_allot_array ARRAY_TYPE sizeof_array 8 (depth / 8);
    _ ← writes (λ m, move_words m (a + sizeof_array) bottom (Z.to_nat (depth / 8)));
    mret (tag ARRAY_TYPE a).

(** src/vm/contexts.cpp:207-211 [datastack_to_array] *)
Definition datastack_to_array (p : Z) : eff vm Z :=
  c ← context_at p;
  stack_to_array (seg_start (datastack_seg c)) (datastack c) ERROR_DATASTACK_UNDERFLOW.

(** src/vm/contexts.cpp:214-219 [primitive_datastack_for] *)
Definition primitive_datastack_for : eff vm () :=
  a ← ctx_pop;
  rooted a (λ alien_ctx,
    a ← root_value ALIEN_TYPE alien_ctx;
    other_ctx ← pinned_alien_offset a;
    array ← datastack_to_array other_ctx;
    ctx_push array).

(** src/vm/contexts.cpp:222-226 [retainstack_to_array] *)
Definition retainstack_to_array (p : Z) : eff vm Z :=
  c ← context_at p;
  stack_to_array (seg_start (retainstack_seg c)) (retainstack c) ERROR_RETAINSTACK_UNDERFLOW.

(** src/vm/contexts.cpp:229-232 [primitive_retainstack_for] *)
Definition primitive_retainstack_for : eff vm () :=
  a ← ctx_peek;
  other_ctx ← pinned_alien_offset a;
  array ← retainstack_to_array other_ctx;
  ctx_replace array.

(** src/vm/contexts.cpp:235-239 [array_to_stack] *)
Definition array_to_stack (array bottom : Z) : eff vm Z :=
  capacity ← reads (λ m, array_capacity ARRAY_TYPE m array);
  let depth := capacity *& 8 in
  _ ← writes (λ m, move_words m bottom (array + sizeof_array) (Z.to_nat (depth / 8)));
  mret ((bottom +& depth) -& 8).

(** src/vm/contexts.cpp:241-244 [primitive_set_datastack] *)
Definition primitive_set_datastack : eff vm () :=
  v ← ctx_pop;
  arr ← untag_check ARRAY_TYPE v;
  c ← current_context;
  top ← array_to_stack arr (seg_start (datastack_seg c));
  set_current_context (with_datastack c top).

(** src/vm/contexts.cpp:246-249 [primitive_set_retainstack] *)
Definition primitive_set_retainstack : eff vm () :=
  v ← ctx_pop;
  arr ← untag_check ARRAY_TYPE v;
  c ← current_context;
  top ← array_to_stack arr (seg_start (retainstack_seg c));
  set_current_context (with_retainstack c top).

(** * Checking a stack effect *)

(** src/vm/contexts.cpp:265-270 [primitive_check_datastack] (part): The loop
    over the elements that must not have changed, from [i] on. *)
Fixpoint same_elements (m : memory) (ds_bot saved_datastack i : Z) (n : nat) : result bool :=
  match n with
  | 0%nat => Ok true
  | S n =>
      x ← load m (ds_bot +& (8 *& i));
      y ← heap_array_nth m saved_datastack (u64 i);
      if negb (x =? y) then Ok false else same_elements m ds_bot saved_datastack (i + 1) n
  end.

(** src/vm/contexts.cpp:252-273 [primitive_check_datastack] *)
Definition primitive_check_datastack : eff vm () :=
  v ← ctx_pop;
  out ← cell_to_fixnum v;
  v ← ctx_pop;
  in_ ← cell_to_fixnum v;
  let height := out -! in_ in
  v ← ctx_pop;
  saved_datastack ← untag_check ARRAY_TYPE v;
  capacity ← reads (λ m, array_capacity ARRAY_TYPE m saved_datastack);
  let saved_height := s64 capacity in
  c ← current_context;
  let current_height := s64 (((datastack c -& seg_start (datastack_seg c)) +& 8) / 8) in
  if negb (current_height -! height =? saved_height) then ctx_push false_object
  else
    same ← reads (λ m, same_elements m (seg_start (datastack_seg c)) saved_datastack 0
                         (Z.to_nat (saved_height -! in_)));
    if (same : bool) then
      t ← vm_special OBJ_CANONICAL_TRUE;
      ctx_push t
    else ctx_push false_object.

(** src/vm/contexts.cpp:275-282 [primitive_load_locals]: The two stacks do not
    overlap; [memcpy] of a negative size reads past all memory. *)
Definition primitive_load_locals : eff vm () :=
  v ← ctx_pop;
  count ← fixnum_of v;
  c ← current_context;
  _ ← writes (λ m,
        if count <? 0 then Err BAD_ACCESS
        else move_words m (retainstack c +& 8) (datastack c -& (8 *& (count - 1))) (Z.to_nat count));
  set_current_context
    (with_retainstack (with_datastack c (datastack c -& (8 *& count))) (retainstack c +& (8 *& count))).
End contexts.

(** * Faults on the stacks *)

Section faults.
Context `{!c_heap}.

(** The guard pages below and above a segment. *)
Definition below (s : segment) (a : Z) : Prop := seg_start s - getpagesize ≤ a < seg_start s.
Definition above (s : segment) (a : Z) : Prop := seg_end s ≤ a < seg_end s + getpagesize.

(** Segments with their guard pages do not overlap. *)
Definition guarded (s : segment) : Prop :=
  0 < getpagesize ≤ seg_start s ∧ seg_start s ≤ seg_end s ∧ seg_end s + getpagesize ≤ 2 ^ 47.
Definition guarded_apart (s t : segment) : Prop :=
  seg_end s + getpagesize ≤ seg_start t - getpagesize ∨ seg_end t + getpagesize ≤ seg_start s - getpagesize.

Record guarded_context (c : context) : Prop := {
  gc_guarded : guarded (datastack_seg c) ∧ guarded (retainstack_seg c) ∧ guarded (callstack_seg c);
  gc_apart : guarded_apart (datastack_seg c) (retainstack_seg c) ∧
             guarded_apart (datastack_seg c) (callstack_seg c) ∧
             guarded_apart (retainstack_seg c) (callstack_seg c)
}.

Lemma underflow_p_spec s a : guarded s → reflect (below s a) (underflow_p s a).
Proof.
  intros (Hp & Hs & He). unfold underflow_p, below. rewrite u64_id by (unfold is_cell; lia).
  apply iff_reflect. rewrite andb_true_iff, Z.leb_le, Z.ltb_lt. done.
Qed.

Lemma overflow_p_spec s a : guarded s → reflect (above s a) (overflow_p s a).
Proof.
  intros (Hp & Hs & He). unfold overflow_p, above. rewrite u64_id by (unfold is_cell; lia).
  apply iff_reflect. rewrite andb_true_iff, Z.leb_le, Z.ltb_lt. done.
Qed.

(** A fault is reported as what it is.  When the segments of a context and
    their guard pages do not overlap, a fault in the guard page below the data
    or the retain stack is an underflow of that stack and one above it an
    overflow; the call stack grows downwards, so there it is the other way
    round; a fault anywhere else is not one of the stacks. *)
Theorem address_to_error_spec c a :
  guarded_context c →
  (address_to_error c a = ERROR_DATASTACK_UNDERFLOW ↔ below (datastack_seg c) a) ∧
  (address_to_error c a = ERROR_DATASTACK_OVERFLOW ↔ above (datastack_seg c) a) ∧
  (address_to_error c a = ERROR_RETAINSTACK_UNDERFLOW ↔ below (retainstack_seg c) a) ∧
  (address_to_error c a = ERROR_RETAINSTACK_OVERFLOW ↔ above (retainstack_seg c) a) ∧
  (address_to_error c a = ERROR_CALLSTACK_OVERFLOW ↔ below (callstack_seg c) a) ∧
  (address_to_error c a = ERROR_CALLSTACK_UNDERFLOW ↔ above (callstack_seg c) a) ∧
  (address_to_error c a = ERROR_MEMORY ↔
     ∀ s, s ∈ [datastack_seg c; retainstack_seg c; callstack_seg c] → ¬ below s a ∧ ¬ above s a).
Proof.
  intros [(Gd & Gr & Gc) (A1 & A2 & A3)].
  assert ((∀ s, s ∈ [datastack_seg c; retainstack_seg c; callstack_seg c] → ¬ below s a ∧ ¬ above s a) ↔
    (¬ below (datastack_seg c) a ∧ ¬ above (datastack_seg c) a) ∧
    (¬ below (retainstack_seg c) a ∧ ¬ above (retainstack_seg c) a) ∧
    (¬ below (callstack_seg c) a ∧ ¬ above (callstack_seg c) a)) as ->.
  { rewrite <- !Forall_forall, !Forall_cons, Forall_nil. tauto. }
  unfold address_to_error.
  destruct (underflow_p_spec (datastack_seg c) a Gd), (overflow_p_spec (datastack_seg c) a Gd),
    (underflow_p_spec (retainstack_seg c) a Gr), (overflow_p_spec (retainstack_seg c) a Gr),
    (underflow_p_spec (callstack_seg c) a Gc), (overflow_p_spec (callstack_seg c) a Gc);
    try (exfalso; unfold guarded_apart, guarded, below, above in *; lia); naive_solver.
Qed.
End faults.

Lemma address_to_error_spec_witness :
  @address_to_error {| malloc := λ _ _, None; getpagesize := 4096 |}
    (mk_context 0 0 0 0 0 (mk_segment 8192 512 8704) (mk_segment 20480 512 20992) (mk_segment 32768 512 33280) 0) 33280 =
  ERROR_CALLSTACK_UNDERFLOW.
Proof.
  apply (@address_to_error_spec {| malloc := λ _ _, None; getpagesize := 4096 |}).
  - split; [split_and!; split; cbn; lia|]. split_and!; left; cbn; lia.
  - split; cbn; lia.
Defined.

(** * Checking a stack effect *)

Lemma same_elements_spec m base a (l s : list Z) (i n : nat) :
  array_at m a s → 0 ≤ base → base + 8 * Z.of_nat (length l) ≤ 2 ^ 47 →
  (∀ j x, l !! j = Some x → m !! (base + 8 * Z.of_nat j) = Some x) →
  (i + n ≤ length l)%nat → (i + n ≤ length s)%nat →
  same_elements m base a (Z.of_nat i) n = Ok (bool_decide (take n (drop i l) = take n (drop i s))).
Proof.
  intros Ha Hb Hhi Hl. pose proof (arr_small _ _ _ Ha) as Hs. revert i.
  induction n as [|n IH]; intros i Hil His; cbn [same_elements]; [by rewrite !take_0, bool_decide_true|].
  destruct (lookup_lt_is_Some_2 l i ltac:(lia)) as [x Hx].
  destruct (lookup_lt_is_Some_2 s i ltac:(lia)) as [y Hy].
  rewrite (u64_id (8 * _)), (u64_id (base + _)), (u64_id (Z.of_nat i)) by (unfold is_cell; lia).
  rewrite (proj2 (load_Ok _ _ _) (Hl i x Hx)), result_bind_ok.
  rewrite (heap_array_nth_spec _ _ _ _ _ Ha Hy), result_bind_ok.
  rewrite (drop_S l x i Hx), (drop_S s y i Hy). cbn [firstn].
  destruct (Z.eqb_spec x y) as [->|Hne]; cbn [negb].
  - replace (Z.of_nat i + 1) with (Z.of_nat (S i)) by lia. rewrite IH by lia. f_equal.
    apply bool_decide_ext. split; [by intros ->|by intros [=]].
  - rewrite bool_decide_false; [done|]. by intros [=].
Qed.

(** The stack effect holds: the height has changed by [out - in_] since the
    stack was [s], and the elements below the inputs are the same. *)
Definition effect_holds (l s : list Z) (in_ out : Z) : Prop :=
  Z.of_nat (length l) = Z.of_nat (length s) + out - in_ ∧
  let kept := Z.to_nat (Z.of_nat (length s) - in_) in take kept l = take kept s.

#[export] Instance effect_holds_dec l s in_ out : Decision (effect_holds l s in_ out).
Proof. unfold effect_holds. solve_decision. Defined.

(** Checking a stack effect ([call(]).  With the saved data stack, the
    number of inputs and the number of outputs on top of the data stack, the
    primitive replaces them by true when the height of the rest is that of the
    saved stack less the inputs plus the outputs and no element below the
    inputs has changed, and by false otherwise; it writes no other word. *)
Theorem check_datastack_spec `{!linkage} m v c l saved s in_ out t :
  data_stack m v c (l ++ [saved; tag_fixnum in_; tag_fixnum out]) → tagged_array m saved s →
  0 ≤ in_ ≤ fixnum_max → 0 ≤ out ≤ fixnum_max →
  m !! (special_objects_address +& (8 *& OBJ_CANONICAL_TRUE)) = Some t →
  primitive_check_datastack (m, v) =
    Done (<[stack_word c (length l) := if decide (effect_holds l s in_ out) then t else false_object]> m,
          at_depth v c (S (length l))) ().
Proof.
  change fixnum_max with (2 ^ 59 - 1). intros Hst Ha Hin Hout Ht.
  assert (fixnum_range in_ ∧ fixnum_range out) as [Hi Ho] by (rewrite !fixnum_range_eq; lia).
  pose proof (λ i x, data_stack_above _ _ _ _ _ i x Hst) as Hk.
  rewrite <- (at_depth_id _ _ _ _ Hst) at 1. pose proof (ds_fits _ _ _ _ Hst) as Hf.
  rewrite length_app in *. replace (length l + _)%nat with (3 + length l)%nat in * by (cbn; lia).
  pose proof (λ n, stack_fits_le _ _ n Hf) as Hfit. destruct Ha as (_ & Htag & Ha).
  pose proof (arr_small _ _ _ Ha) as Hsmall.
  pose proof (proj2 (stack_word_cell _ _ (Hfit (length l) ltac:(lia)))) as Hr.
  unfold primitive_check_datastack.
  step (ctx_pop_eq v c m (2 + length l) _ Hf (Hk 2%nat _ eq_refl)). step (cell_to_fixnum_eq _ (m, at_depth v c (2 + length l)) Ho).
  step (ctx_pop_eq v c m (1 + length l) _ (Hfit (2 + length l)%nat ltac:(lia)) (Hk 1%nat _ eq_refl)).
  step (cell_to_fixnum_eq _ (m, at_depth v c (1 + length l)) Hi).
  step (ctx_pop_eq v c m (length l) _ (Hfit (1 + length l)%nat ltac:(lia)) (Hk 0%nat _ eq_refl)).
  step (untag_check_eq _ _ (m, at_depth v c (length l)) Htag).
  rewrite (bind_reads _ _ _ _ _ (array_capacity_at _ _ _ Ha)).
  step (current_context_eq v c m (length l)).
  cbn [datastack with_datastack datastack_seg]. fold (stack_base c).
  destruct (stack_height c (length l)) as [Hlen ->]; [by apply Hfit; lia|].
  no_overflow lia. unfold effect_holds.
  assert (is_Some (m !! stack_word c (length l))) as Hmap by (eexists; by apply (Hk 0%nat)).
  destruct (Z.eqb_spec (Z.of_nat (length l) - (out - in_)) (Z.of_nat (length s))) as [E|E]; cbn [negb].
  - rewrite (bind_reads _ _ _ _ (bool_decide (take (Z.to_nat (Z.of_nat (length s) - in_)) l =
      take (Z.to_nat (Z.of_nat (length s) - in_)) s))).
    2:{ destruct (proj1 Hf) as [Hlo _ _]. fold (stack_base c) in Hlo. unfold stack_word in Hr.
        apply (same_elements_spec m (stack_base c) _ l s 0); [done|lia|lia| |lia|lia].
        intros j x Hj. apply (ds_words _ _ _ _ Hst). by apply lookup_app_l_Some. }
    case_bool_decide as Hs.
    + rewrite decide_True by (split; [lia|done]). unfold vm_special. rewrite (bind_reads _ _ _ _ t) by by apply load_Ok.
      by apply ctx_push_eq; [apply Hfit; lia|].
    + rewrite decide_False by naive_solver. by apply ctx_push_eq; [apply Hfit; lia|].
  - rewrite decide_False by lia. by apply ctx_push_eq; [apply Hfit; lia|].
Qed.

(** * Stacks and arrays *)

Lemma data_stack_words m v c l : data_stack m v c l → words_in m (stack_base c) l.
Proof. intros [_ _ _ Hw] i x Hi. by apply Hw. Qed.

Lemma data_stack_agree m m' v c l :
  (∀ i, (i < length l)%nat → m' !! stack_word c i = m !! stack_word c i) →
  data_stack m v c l → data_stack m' v c l.
Proof.
  intros Hm [Hc Ht Hf Hw]. split; [done|done|done|]. intros i x Hi.
  rewrite Hm by by eapply lookup_lt_Some. by apply Hw.
Qed.

(** A stack of [n] elements at [a] and an array for them at [obj] have no word
    in common. *)
Definition stack_apart (c : context) (n : nat) (obj : Z) : Prop :=
  stack_word c n ≤ obj ∨ obj + 16 + 8 * Z.of_nat n ≤ stack_base c.

(** The array made of a stack: its length field and its elements. *)
Definition with_array (m : memory) (obj : Z) (l : list Z) : memory :=
  with_words (<[obj + 8 := tag_fixnum (Z.of_nat (length l))]> m) (obj + 16) l.

Lemma with_array_at m obj l :
  fresh_object ARRAY_TYPE (16 + 8 * Z.of_nat (length l)) m obj → Z.of_nat (length l) < 2 ^ 47 →
  tagged_array (with_array m obj l) (tag ARRAY_TYPE obj) l.
Proof.
  intros [[Ho H16] Hh Hm] Hl. destruct (tag_array_cell obj Ho H16) as (Hc & Ht & Hu).
  split_and!; [done|done|]. rewrite Hu. unfold with_array. split.
  - lia.
  - exists (initialize ARRAY_TYPE). split; [|done].
    rewrite with_words_outside, lookup_insert_ne by lia. done.
  - split; [|change array_size_max with (2 ^ 58); lia].
    rewrite with_words_outside, lookup_insert_eq by lia. done.
  - lia.
  - intros i x Hi. by apply with_words_inside.
Qed.

Section stack_array.
Context `{!linkage, !os_memory}.

Lemma stack_to_array_eq e m v c (l : list Z) m1 v1 obj l1 :
  stack_fits c (length l) → length l1 = length l →
  vm_allot ARRAY_TYPE (16 + 8 * Z.of_nat (length l)) (m, v) = Done (m1, v1) obj →
  fresh_object ARRAY_TYPE (16 + 8 * Z.of_nat (length l)) m1 obj →
  data_stack m1 v1 c l1 → stack_apart c (length l) obj →
  stack_to_array (stack_base c) (stack_word c (length l) - 8) e (m, v) =
    Done (with_array m1 obj l1, v1) (tag ARRAY_TYPE obj).
Proof.
  intros Hfit Hlen Hal Hfr Hst Hap. pose proof Hfr as [[Ho H16] Hh Hm].
  destruct (stack_height c _ Hfit) as [Hl Hd]. unfold stack_to_array.
  assert (s64 ((stack_word c (length l) - 8 -& stack_base c) +& 8) = 8 * Z.of_nat (length l)) as ->.
  { unfold u64. rewrite Zplus_mod_idemp_l.
    replace (stack_word c (length l) - 8 - stack_base c + 8) with (8 * Z.of_nat (length l)) by (unfold stack_word; lia).
    rewrite Z.mod_small by lia. apply s64_id. unfold is_fixnum. lia. }
  rewrite (proj2 (Z.ltb_ge _ _)) by lia. rewrite (Z.mul_comm 8), Z.div_mul, Nat2Z.id by lia.
  unfold vm_allot_array. rewrite array_size_eq by (change array_size_max with (2 ^ 58); change sizeof_array with 16; lia).
  change sizeof_array with 16. unfold mbind at 1, eff_bind at 1.
  rewrite (bind_Done _ _ _ _ _ Hal). unfold put_field.
  rewrite (bind_writes _ _ _ _ (<[obj + 8 := tag_fixnum (Z.of_nat (length l))]> m1)).
  2:{ rewrite u64_id by (unfold is_cell; lia). apply store_Ok, Hm; [lia|dlia]. }
  cbn [mret eff_ret]. rewrite <- Hlen.
  rewrite (bind_writes _ _ _ _ (with_array m1 obj l1)); [done|].
  apply move_words_eq.
  - intros i x Hi. pose proof (lookup_lt_Some _ _ _ Hi).
    rewrite lookup_insert_ne by (unfold stack_apart, stack_word in Hap; lia).
    by apply (data_stack_words _ _ _ _ Hst).
  - unfold apart, stack_apart, stack_word in *. rewrite Hlen. lia.
  - intros i Hi. apply lookup_insert_is_Some'. right. apply Hm; [lia|dlia].
Qed.

Lemma set_datastack_spec m v c l a l1 :
  data_stack m v c (l ++ [a]) → tagged_array m a l1 → stack_fits c (length l1) →
  mapped m (stack_base c) (stack_word c (length l1)) → stack_apart c (length l1) (UNTAG a) →
  primitive_set_datastack (m, v) = Done (with_words m (stack_base c) l1, at_depth v c (length l1)) ().
Proof.
  intros Hst (Hcell & Htag & Ha) Hfit Hm Hap. rewrite <- (at_depth_id _ _ _ _ Hst) at 1.
  pose proof (data_stack_above _ _ _ _ _ 0%nat _ Hst eq_refl) as Htop. cbn [Nat.add] in Htop.
  pose proof (ds_fits _ _ _ _ Hst) as Hf. rewrite length_app, Nat.add_comm in *. cbn [length Nat.add] in *.
  destruct (stack_height c _ Hfit) as [Hl _]. destruct (proj1 Hfit) as [Hlo H8 Hhi].
  pose proof (proj2 (stack_word_cell _ _ Hfit)) as Hr.
  unfold primitive_set_datastack. step (ctx_pop_eq v c m (length l) a Hf Htop).
  step (untag_check_eq _ _ (m, at_depth v c (length l)) Htag). step (current_context_eq v c m (length l)).
  cbn [datastack_seg with_datastack]. fold (stack_base c) in *.
  erewrite (bind_Done _ _ _ (with_words m (stack_base c) l1, at_depth v c (length l)) (stack_word c (length l1) - 8)).
  - apply set_datastack_eq.
  - unfold array_to_stack. rewrite (bind_reads _ _ _ _ _ (array_capacity_at _ _ _ Ha)).
    rewrite (u64_id (_ * 8)) by (unfold is_cell; lia). rewrite Z.div_mul, Nat2Z.id by lia.
    rewrite (bind_writes _ _ _ _ (with_words m (stack_base c) l1)).
    + unfold stack_word in *. rewrite (u64_id (stack_base c + _)), u64_id by (unfold is_cell; lia).
      unfold mret, eff_ret. f_equal. lia.
    + apply move_words_eq.
      * intros i x Hi. change sizeof_array with 16. by apply (arr_elements _ _ _ Ha).
      * change sizeof_array with 16. unfold apart, stack_apart, stack_word in *. lia.
      * apply (words_mapped m _ (stack_word c (length l1))); [done|done|unfold stack_word; lia].
Qed.

End stack_array.

(** ** An example

    A context at 90112 with a data stack of 64 words at 8192; an array at 4096
    with two elements; a special object that is true. *)

Definition small_context (n : nat) : context :=
  mk_context 0 0 (8192 + 8 * Z.of_nat n - 8) 16376 0 (mk_segment 8192 512 8704) (mk_segment 16384 512 16896)
    (mk_segment 24576 512 25088) 90176.

Definition small_config : vm_config := mk_vm_config 512 512 512 (no_blocks 8388608 0) [] 98304.

Definition context_vm (pointer : Z) (n : nat) : vm :=
  mk_vm (small_vm pointer) 90112 0 {[ 90112 := small_context n ]} [] {[ 90112 ]} [] 0 [] false 0 no_tally small_config.

(** The same with a write barrier for its heap. *)
Definition marking_vm (pointer : Z) : gc_vm :=
  mk_gc_vm (mk_collector (small_heap pointer) small_code [] 0 0) (set_data_heap (small_heap pointer) 0 0) []
    true None false (Some true).

Lemma small_heap_cards pointer : cards_ok (small_heap pointer).
Proof.
  split; [done|unfold heap_end; cbn; lia|..]; intros a Ha; unfold card_of, deck_of, heap_end in *; cbn in *;
    rewrite ?length_replicate; dlia.
Qed.

Definition stack_memory (l : list Z) : memory :=
  with_words (with_words (<[66288 := tag WORD_TYPE 12288]> small_memory) 4096
      [initialize ARRAY_TYPE; tag_fixnum 2; tag_fixnum 7; tag_fixnum 5])
    8192 (l ++ replicate (64 - length l) 0).

(** A quotation with effect [( x -- y z )] has turned the stack [7 5] into
    [7 6 6]. *)
Definition effect_stack : list Z :=
  [tag_fixnum 7; tag_fixnum 6; tag_fixnum 6; tag ARRAY_TYPE 4096; tag_fixnum 1; tag_fixnum 2].

Lemma small_stack_fits n k : (k ≤ 64)%nat → stack_fits (small_context n) k.
Proof. intros Hk. split; [split; cbn; [lia|done|lia]|]. unfold stack_word, stack_base. cbn. lia. Qed.

(** A property of the elements of a list of known length. *)
Lemma elements_by_Forall {A} (P : nat → A → Prop) (l : list A) :
  Forall (λ ix, P ix.1 ix.2) (imap pair l) → ∀ i x, l !! i = Some x → P i x.
Proof.
  intros H i x Hi. rewrite Forall_lookup in H. specialize (H i (i, x)). apply H.
  by rewrite list_lookup_imap, Hi.
Qed.

Lemma check_datastack_spec_witness :
  data_stack (stack_memory effect_stack) (context_vm 0 6) (small_context 6) effect_stack ∧
  @primitive_check_datastack sample_linkage (stack_memory effect_stack, context_vm 0 6) =
    Done (<[8216 := tag WORD_TYPE 12288]> (stack_memory effect_stack), at_depth (context_vm 0 6) (small_context 6) 4) ().
Proof.
  assert (data_stack (stack_memory effect_stack) (context_vm 0 6) (small_context 6) effect_stack) as Hst.
  { split; [reflexivity|reflexivity|apply small_stack_fits; cbn; lia|].
    apply elements_by_Forall. repeat constructor. }
  split; [exact Hst|].
  apply (@check_datastack_spec sample_linkage (stack_memory effect_stack) (context_vm 0 6) (small_context 6)
    [tag_fixnum 7; tag_fixnum 6; tag_fixnum 6] (tag ARRAY_TYPE 4096) [tag_fixnum 7; tag_fixnum 5] 1 2
    (tag WORD_TYPE 12288)); [exact Hst| |eval_side|eval_side|reflexivity].
  split; [eval_side|split; [reflexivity|]].
  apply (array_at_intro _ _ _ (initialize ARRAY_TYPE)); [eval_side|reflexivity|reflexivity|reflexivity|eval_side|reflexivity].
Defined.

(** The data stack [7 5], with room for an array in the nursery. *)
Definition saved_stack : list Z := [tag_fixnum 7; tag_fixnum 5].
Definition saving_memory : memory := with_words (stack_memory saved_stack) 2621456 [0; 0; 0; 0].
Definition saving_vm : vm := context_vm 2621456 2.

(** The state after the array has been allotted. *)
Definition saving_state : memory * vm :=
  match @vm_allot sample_linkage no_memory ARRAY_TYPE 32 (saving_memory, saving_vm) with
  | Done s _ => s
  | _ => (∅, saving_vm)
  end.

