(* ===== verification/ContextPool.v ===== *)
(** The pool of contexts: new contexts are made or taken from the pool, deleted
    ones are returned to it, and at most ten are kept.

    [pool_ok] is the invariant: the structs that exist are exactly those in
    use and those in the pool, and their memory does not overlap.  It holds in
    every state that the operations reach from a vm without contexts. *)

From S2P Require Import Prelude.
From S2P Require Import Layouts.
From S2P Require Import Memory.
From S2P Require Import Effects.
From S2P Require Import DataHeap.
From S2P Require Import Relocation.
From S2P Require Import SlotVisitor.
From S2P Require Import GC.
From S2P Require Import VM.
From S2P Require Import Contexts.
Local Open Scope Z_scope.
Local Open Scope cell_scope.

(** * Blocks of memory *)

(** The addresses of a block [(lo, hi)]. *)
Definition in_block (r : Z * Z) (a : Z) : Prop := r.1 ≤ a < r.2.

Definition disjoint_blocks (r s : Z * Z) : Prop := ∀ a, in_block r a → ¬ in_block s a.

(** A block of words that exists. *)
Definition block_ok (m : memory) (r : Z * Z) : Prop :=
  8 ≤ r.1 ∧ r.1 mod 8 = 0 ∧ r.1 ≤ r.2 ≤ 2 ^ 47 ∧ mapped m r.1 r.2.

(** What [malloc] and [mmap] promise of a block they return: it is new, and
    the memory that was there stays. *)
Definition fresh_block (m m' : memory) (r : Z * Z) : Prop :=
  m ⊆ m' ∧ block_ok m' r ∧ ∀ a, in_block r a → m !! a = None.

Lemma fresh_disjoint m m' r s : fresh_block m m' r → block_ok m s → disjoint_blocks r s.
Proof.
  intros (_ & (_ & Hr8 & _) & Hnew) (_ & Hs8 & _ & Hm) a Hr Hs. unfold in_block in *.
  set (w := a - a mod 8). assert (in_block r w) as Hw by (unfold in_block, w; dlia).
  destruct (Hm w) as [x Hx]; [unfold w; dlia|unfold w; dlia|]. by rewrite (Hnew w Hw) in Hx.
Qed.

Lemma block_ok_weaken m m' r : (∀ a, in_block r a → is_Some (m !! a) → is_Some (m' !! a)) → block_ok m r → block_ok m' r.
Proof. intros Hm (? & ? & ? & Hr). split; [done|split; [done|split; [done|]]]. intros a Ha H8. apply Hm; [done|]. by apply Hr. Qed.

Lemma block_ok_sub m m' r : m ⊆ m' → block_ok m r → block_ok m' r.
Proof. intros Hm. apply block_ok_weaken. intros a _ [x Hx]. exists x. by eapply lookup_weaken. Qed.

(** * The memory of a context *)

(** The struct and the three segments. *)
Definition segment_block (s : segment) : Z * Z := (seg_start s, seg_end s).
Definition context_blocks (p : Z) (c : context) : list (Z * Z) :=
  [(p, p + sizeof_context); segment_block (datastack_seg c); segment_block (retainstack_seg c);
   segment_block (callstack_seg c)].

Definition separate (B : list (Z * Z)) : Prop :=
  ∀ i j r s, i ≠ j → B !! i = Some r → B !! j = Some s → disjoint_blocks r s.

Lemma disjoint_sym r s : disjoint_blocks r s → disjoint_blocks s r.
Proof. intros H a Hs Hr. by apply (H a). Qed.

Lemma separate_cons r B : (∀ s, s ∈ B → disjoint_blocks r s) → separate B → separate (r :: B).
Proof.
  intros Hr HB i j x y Hne Hi Hj. destruct i as [|i], j as [|j]; cbn in Hi, Hj; [done| | |].
  - injection Hi as <-. apply Hr. by eapply list_elem_of_lookup_2.
  - injection Hj as <-. apply disjoint_sym, Hr. by eapply list_elem_of_lookup_2.
  - apply (HB i j); [congruence|done|done].
Qed.

Lemma separate_perm r1 r2 r3 r4 : separate [r4; r3; r2; r1] → separate [r1; r2; r3; r4].
Proof.
  intros H i j r s Hne Hi Hj. apply (H (3 - i)%nat (3 - j)%nat).
  - apply lookup_lt_Some in Hi, Hj. cbn in Hi, Hj. lia.
  - destruct i as [|[|[|[|]]]]; done.
  - destruct j as [|[|[|[|]]]]; done.
Qed.

(** Blocks obtained one after the other, the last first. *)
Inductive fresh_blocks (m : memory) : memory → list (Z * Z) → Prop :=
  | fresh_nil : fresh_blocks m m []
  | fresh_cons m1 m2 r B : fresh_blocks m m1 B → fresh_block m1 m2 r → fresh_blocks m m2 (r :: B).

Lemma fresh_blocks_spec m m' B :
  fresh_blocks m m' B →
  m ⊆ m' ∧ (∀ r, r ∈ B → block_ok m' r) ∧ separate B ∧ ∀ r s, r ∈ B → block_ok m s → disjoint_blocks r s.
Proof.
  induction 1 as [|m1 m2 r B _ (Hsub & Hok & Hsep & Hdis) Hr].
  { split; [done|]. split; [by intros r ?%not_elem_of_nil|]. split; [by intros i j|by intros r s ?%not_elem_of_nil]. }
  pose proof Hr as (Hsub2 & Hrok & _). split; [by etrans|]. split; [|split].
  - intros r' [->|Hr']%elem_of_cons; [done|]. eapply block_ok_sub; [done|by apply Hok].
  - apply separate_cons; [|done]. intros s Hs. eapply fresh_disjoint; [done|by apply Hok].
  - intros r' s [->|Hr']%elem_of_cons Hs; [|by apply Hdis]. eapply fresh_disjoint; [done|by eapply block_ok_sub].
Qed.

(** * The invariant *)

(** The structs that exist. *)
Record contexts_ok (m : memory) (cs : gmap Z context) : Prop := {
  co_objects p c : cs !! p = Some c → context_objects c = p + offsetof_context_objects;
  co_blocks p c r : cs !! p = Some c → r ∈ context_blocks p c → block_ok m r;
  co_separate p c : cs !! p = Some c → separate (context_blocks p c);
  co_apart p q c d r s : p ≠ q → cs !! p = Some c → cs !! q = Some d →
    r ∈ context_blocks p c → s ∈ context_blocks q d → disjoint_blocks r s
}.

Record pool_ok (m : memory) (v : vm) : Prop := {
  pool_contexts : contexts_ok m (contexts v);
  pool_exist p : is_Some (contexts v !! p) ↔ p ∈ unused_contexts v ∨ p ∈ active_set v;
  pool_nodup : NoDup (unused_contexts v);
  pool_disjoint p : p ∈ unused_contexts v → p ∉ active_set v;
  pool_small : (length (unused_contexts v) ≤ 10)%nat
}.

(** ** Resetting a context *)

(** The blocks of a context do not depend on its stack pointers. *)
Definition same_blocks (c d : context) : Prop :=
  datastack_seg c = datastack_seg d ∧ retainstack_seg c = retainstack_seg d ∧
  callstack_seg c = callstack_seg d ∧ context_objects c = context_objects d.

Lemma same_blocks_eq p c d : same_blocks c d → context_blocks p c = context_blocks p d.
Proof. intros (E1 & E2 & E3 & _). unfold context_blocks. by rewrite E1, E2, E3. Qed.

(** Other contexts at the same addresses, with the same blocks, in a memory
    that has their words. *)
Lemma contexts_ok_update m m' cs cs' :
  (∀ p c, cs' !! p = Some c → ∃ d, cs !! p = Some d ∧ same_blocks c d) →
  (∀ p c r a, cs' !! p = Some c → r ∈ context_blocks p c → in_block r a → is_Some (m !! a) → is_Some (m' !! a)) →
  contexts_ok m cs → contexts_ok m' cs'.
Proof.
  intros Hcs Hm [Ho Hb Hs Ha]. split.
  - intros p c Hc. destruct (Hcs p c Hc) as (d & Hd & Hsame). rewrite <- (Ho p d Hd). apply Hsame.
  - intros p c r Hc Hr. destruct (Hcs p c Hc) as (d & Hd & Hsame).
    apply (block_ok_weaken m); [intros a; by apply (Hm p c r a)|]. rewrite (same_blocks_eq p c d Hsame) in Hr. by apply (Hb p d).
  - intros p c Hc. destruct (Hcs p c Hc) as (d & Hd & Hsame). rewrite (same_blocks_eq p c d Hsame). by apply Hs.
  - intros p q c d r s Hne Hc Hd. destruct (Hcs p c Hc) as (c' & Hc' & Hsc). destruct (Hcs q d Hd) as (d' & Hd' & Hsd).
    rewrite (same_blocks_eq p c c' Hsc), (same_blocks_eq q d d' Hsd). by apply (Ha p q c' d').
Qed.

Definition reset_stacks (c : context) : context := reset_callstack (reset_retainstack (reset_datastack c)).

Lemma memset_cell_eq n : ∀ m a x,
  (∀ i, (i < n)%nat → is_Some (m !! (a + 8 * Z.of_nat i))) →
  ∃ m', memset_cell m a x n = Ok m' ∧ ∀ b, is_Some (m !! b) → is_Some (m' !! b).
Proof.
  induction n as [|n IH]; intros m a x Hm; cbn [memset_cell]; [eauto|].
  specialize (Hm 0%nat ltac:(lia)) as H0. rewrite Z.mul_0_r, Z.add_0_r in H0.
  rewrite store_Ok, result_bind_ok by done. destruct (IH (<[a := x]> m) (a + 8) x) as (m' & -> & Hm').
  - intros i Hi. apply lookup_insert_is_Some'. right. specialize (Hm (S i) ltac:(lia)).
    by replace (a + 8 + 8 * Z.of_nat i) with (a + 8 * Z.of_nat (S i)) by lia.
  - exists m'. split; [done|]. intros b Hb. apply Hm', lookup_insert_is_Some'. by right.
Qed.

Lemma reset_ok m v p c :
  contexts_ok m (contexts v) → contexts v !! p = Some c →
  ∃ m', reset p (m, v) = Done (m', with_contexts v (<[p := reset_stacks c]> (contexts v))) () ∧
    contexts_ok m' (<[p := reset_stacks c]> (contexts v)).
Proof.
  intros Hok Hc. pose proof (co_blocks _ _ Hok p c (p, p + sizeof_context) Hc ltac:(left)) as (H8 & Hal & Hp & Hm).
  pose proof (co_objects _ _ Hok p c Hc) as Ho. cbn [fst snd] in *. unfold sizeof_context, offsetof_context_objects in *.
  destruct (memset_cell_eq (Z.to_nat context_object_count) m (context_objects c) false_object) as (m' & E & Hm').
  { intros i Hi. change (Z.to_nat context_object_count) with 4%nat in Hi. rewrite Ho. apply Hm; [lia|dlia]. }
  exists m'. split.
  - unfold reset. rewrite (bind_Done _ _ _ _ _ (context_at_eq m v p c Hc)). unfold set_context.
    erewrite bind_Done by reflexivity. by apply (writes_Ok _ (m, _)).
  - apply (contexts_ok_update m _ (contexts v)); [|by intros; apply Hm'|done].
    intros q d [[<- <-]|[_ Hd]]%lookup_insert_Some; [exists c; split; [done|by repeat split]|].
    exists d. split; [done|by repeat split].
Qed.

(** * The operations *)

Lemma lookup_unmap m s a x : unmap m s !! a = Some x ↔ m !! a = Some x ∧ ¬ in_block (segment_block s) a.
Proof. unfold unmap. by rewrite map_lookup_filter_Some. Qed.

Lemma destroy_context_ok m v p c :
  contexts_ok m (contexts v) → contexts v !! p = Some c →
  ∃ m', destroy_context p (m, v) = Done (m', with_contexts v (base.delete p (contexts v))) () ∧
    contexts_ok m' (base.delete p (contexts v)).
Proof.
  intros Hok Hc. unfold destroy_context. rewrite (bind_Done _ _ _ _ _ (context_at_eq m v p c Hc)).
  do 4 erewrite bind_writes by reflexivity. eexists. split; [reflexivity|].
  apply (contexts_ok_update m _ (contexts v)); [| |done].
  - intros q d [_ Hd]%lookup_delete_Some. exists d. by repeat split.
  - intros q d r a [Hne Hd]%lookup_delete_Some Hr Ha [x Hx]. exists x.
    assert (∀ s, s ∈ context_blocks p c → ¬ in_block s a) as Hout.
    { intros s Hs. by apply (co_apart _ _ Hok q p d c r s). }
    unfold context_blocks in Hout. unfold unmap_range. cbn [fst].
    rewrite !lookup_unmap. split_and!; [done|apply Hout..]; set_solver.
Qed.

Lemma trim_unused_ok u : ∀ m v,
  contexts_ok m (contexts v) → NoDup u → (∀ p, p ∈ u → is_Some (contexts v !! p)) →
  ∃ m' cs, trim_unused u (m, with_pool v u (active_set v)) =
      Done (m', with_pool (with_contexts v cs) (drop (length u - 10) u) (active_set v)) () ∧
    contexts_ok m' cs ∧ ∀ p, is_Some (cs !! p) ↔ is_Some (contexts v !! p) ∧ p ∉ take (length u - 10) u.
Proof.
  induction u as [|x u IH]; intros m v Hok Hnd Hex.
  { exists m, (contexts v). split; [by destruct v|]. split; [done|]. intros p. rewrite take_nil. set_solver. }
  cbn [trim_unused]. destruct (Nat.ltb_spec 10 (length (x :: u))) as [Hlong|Hshort].
  2:{ exists m, (contexts v). replace (length (x :: u) - 10)%nat with 0%nat by lia.
      split; [by destruct v|]. split; [done|]. intros p. rewrite take_0. set_solver. }
  apply NoDup_cons in Hnd as [Hx Hnd]. erewrite bind_Done by reflexivity. cbn [fst snd active_set with_pool].
  destruct (Hex x ltac:(left)) as [c Hc].
  destruct (destroy_context_ok m (with_pool v u (active_set v)) x c Hok Hc) as (m1 & E1 & Hok1).
  rewrite (bind_Done _ _ _ _ _ E1). cbn [contexts with_pool] in *.
  destruct (IH m1 (with_contexts v (base.delete x (contexts v)))) as (m2 & cs & E2 & Hok2 & Hcs); [done|done| |].
  { intros p Hp. cbn. rewrite lookup_delete_ne by (intros ->; done). apply Hex. by right. }
  exists m2, cs. cbn in Hlong. replace (length (x :: u) - 10)%nat with (S (length u - 10)) by (cbn; lia).
  split; [exact E2|]. split; [done|]. intros p. rewrite Hcs. cbn [contexts with_contexts take].
  rewrite lookup_delete_is_Some. set_solver.
Qed.

Lemma delete_context_ok m v :
  pool_ok m v → ctx v ∈ active_set v →
  ∃ m' v', delete_context (m, v) = Done (m', v') () ∧ pool_ok m' v' ∧ ctx v' = ctx v ∧
    ctx v ∈ unused_contexts v' ∧ active_set v' = active_set v ∖ {[ctx v]}.
Proof.
  intros [Hok Hex Hnd Hdis Hsm] Hctx. unfold delete_context.
  set (u := unused_contexts v ++ [ctx v]). erewrite bind_Done by reflexivity. fold u.
  set (v1 := with_pool v u (active_set v ∖ {[ctx v]})). erewrite bind_Done by reflexivity.
  assert (NoDup u) as Hndu.
  { apply NoDup_app. split; [done|]. split; [|apply NoDup_singleton].
    intros p Hp ->%list_elem_of_singleton. by apply (Hdis _ Hp). }
  destruct (trim_unused_ok u m v1) as (m' & cs & E & Hok' & Hcs); [done|done| |].
  { intros p. cbn. rewrite Hex. unfold u. set_solver. }
  exists m', (with_pool (with_contexts v1 cs) (drop (length u - 10) u) (active_set v1)). split; [exact E|].
  assert (length u = S (length (unused_contexts v))) as Hlen by (unfold u; rewrite length_app; cbn; lia).
  assert (∀ p, p ∈ u ↔ p ∈ take (length u - 10) u ∨ p ∈ drop (length u - 10) u) as Hsplit.
  { intros p. rewrite <- (take_drop (length u - 10) u) at 1. apply elem_of_app. }
  assert (∀ p, p ∈ take (length u - 10) u → p ∉ drop (length u - 10) u) as Hdj.
  { rewrite <- (take_drop (length u - 10) u), NoDup_app in Hndu. apply Hndu. }
  assert (∀ p, p ∈ u ↔ p ∈ unused_contexts v ∨ p = ctx v) as Hu by (unfold u; set_solver).
  split; [split; cbn|cbn; split; [done|split; [|done]]].
  - done.
  - intros p. rewrite Hcs. cbn. rewrite Hex. specialize (Hsplit p). specialize (Hdj p). specialize (Hu p).
    specialize (Hdis p). set_unfold. destruct (decide (p = ctx v)); naive_solver.
  - eapply sublist_NoDup; [exact Hndu|]. apply sublist_drop.
  - intros p Hp. specialize (proj2 (Hsplit p) (or_intror Hp)). rewrite Hu. specialize (Hdis p). set_solver.
  - rewrite length_drop. lia.
  - unfold u. rewrite drop_app. apply elem_of_app. right. rewrite length_app. cbn [length].
    replace (_ - _ - _)%nat with 0%nat by lia. left.
Qed.

Section pool.
Context `{!linkage, !os_memory, !c_heap}.

(** What the code relies on of the allocator of C++ objects and of [mmap]. *)
Definition memory_laws : Prop :=
  (∀ m n m' p, malloc m n = Some (m', p) → fresh_block m m' (p, p + n)) ∧
  (∀ m n m' p, map_segment m n = Some (m', p) → fresh_block m m' (p, p + n)).

Hypothesis laws : memory_laws.

Definition sizes_ok (cfg : vm_config) : Prop :=
  0 ≤ datastack_size cfg ∧ 0 ≤ retainstack_size cfg ∧ 0 ≤ callstack_size cfg.

Lemma alloc_segment_ok size m v :
  (∃ m' s, alloc_segment size (m, v) = Done (m', v) s ∧ fresh_block m m' (segment_block s)) ∨
  alloc_segment size (m, v) = Fatal FATAL_ERROR.
Proof using laws.
  unfold alloc_segment, mbind, eff_bind, reads. cbn [fst].
  destruct (map_segment m size) as [[m' a]|] eqn:E; [left|by right].
  exists m', (new_segment a size). split; [done|]. apply laws in E as (Hsub & (H8 & Hal & Hr & Hm) & Hnew).
  cbn [fst snd] in *. unfold segment_block, new_segment. cbn [seg_start seg_end].
  rewrite u64_id by (unfold is_cell; lia). done.
Qed.

(** The struct of a new context and its segments. *)
Lemma contexts_ok_insert m cs p c :
  contexts_ok m cs → context_objects c = p + offsetof_context_objects → separate (context_blocks p c) →
  (∀ r, r ∈ context_blocks p c → block_ok m r) →
  (∀ q d r s, cs !! q = Some d → s ∈ context_blocks q d → r ∈ context_blocks p c → disjoint_blocks r s) →
  contexts_ok m (<[p := c]> cs).
Proof.
  intros [Ho Hb Hs Ha] Hobj Hsep Hok Hdis. split.
  - intros q d [[<- <-]|[_ Hd]]%lookup_insert_Some; [done|by apply Ho].
  - intros q d r [[<- <-]|[_ Hd]]%lookup_insert_Some; [apply Hok|by apply Hb].
  - intros q d [[<- <-]|[_ Hd]]%lookup_insert_Some; [done|by apply Hs].
  - intros q q' d d' r s Hne [[<- <-]|[_ Hd]]%lookup_insert_Some [[<- <-]|[_ Hd']]%lookup_insert_Some Hr Hs'; [done| | |].
    + by apply (Hdis q' d').
    + apply disjoint_sym. by apply (Hdis q d).
    + by apply (Ha q q' d d').
Qed.

Lemma construct_context_ok ds rs cs m v :
  contexts_ok m (contexts v) →
  (∃ m' p c, construct_context ds rs cs (m, v) = Done (m', with_contexts v (<[p := c]> (contexts v))) p ∧
     contexts v !! p = None ∧ contexts_ok m' (<[p := c]> (contexts v))) ∨
  construct_context ds rs cs (m, v) = Fatal FATAL_ERROR.
Proof using laws.
  intros Hok. unfold construct_context.
  destruct (malloc m sizeof_context) as [[m1 p]|] eqn:Ep.
  2:{ right. by rewrite (bind_Fatal _ _ _ FATAL_ERROR) by (apply reads_Err; cbn; by rewrite Ep). }
  rewrite (bind_reads _ _ _ _ (m1, p)) by by rewrite Ep. rewrite (bind_writes _ _ _ _ m1) by done.
  destruct (alloc_segment_ok ds m1 v) as [(m2 & s1 & E1 & F1)|E1]; [|right; by rewrite (bind_Fatal _ _ _ _ E1)].
  rewrite (bind_Done _ _ _ _ _ E1).
  destruct (alloc_segment_ok rs m2 v) as [(m3 & s2 & E2 & F2)|E2]; [|right; by rewrite (bind_Fatal _ _ _ _ E2)].
  rewrite (bind_Done _ _ _ _ _ E2).
  destruct (alloc_segment_ok cs m3 v) as [(m4 & s3 & E3 & F3)|E3]; [|right; by rewrite (bind_Fatal _ _ _ _ E3)].
  rewrite (bind_Done _ _ _ _ _ E3). left.
  apply (proj1 laws) in Ep as F0. pose proof F0 as (_ & (H8 & _ & Hp & Hpm) & Hpnew). cbn [fst snd] in *.
  destruct (fresh_blocks_spec m m4 [segment_block s3; segment_block s2; segment_block s1; (p, p + sizeof_context)])
    as (Hsub & Hblocks & Hsep & Hdis); [repeat (econstructor; [|done]); constructor|].
  set (c := mk_context 0 0 0 0 0 s1 s2 s3 (p +& offsetof_context_objects)).
  assert (∀ r, r ∈ context_blocks p c ↔
    r ∈ [segment_block s3; segment_block s2; segment_block s1; (p, p + sizeof_context)]) as Hin.
  { intros r. unfold context_blocks. cbn [c datastack_seg retainstack_seg callstack_seg]. set_solver. }
  assert (contexts_ok m4 (<[p := c]> (contexts v))) as Hok4.
  { apply contexts_ok_insert.
    - eapply contexts_ok_update; [| |done]; [intros q d Hd; exists d; by repeat split|].
      intros q d r a _ _ _ [x Hx]. exists x. by eapply lookup_weaken.
    - cbn. unfold sizeof_context, offsetof_context_objects in *. by rewrite u64_id by (unfold is_cell; lia).
    - by apply separate_perm.
    - intros r Hr. by apply Hblocks, Hin.
    - intros q d r s Hd Hs Hr. apply Hdis; [by apply Hin|]. by apply (co_blocks _ _ Hok q d). }
  assert (contexts v !! p = None) as Hnone.
  { destruct (contexts v !! p) as [d|] eqn:Hd; [|done]. exfalso.
    apply (Hdis (p, p + sizeof_context) (p, p + sizeof_context) ltac:(set_solver)
      (co_blocks _ _ Hok p d _ Hd ltac:(left)) p); unfold in_block, sizeof_context; cbn; lia. }
  destruct (reset_ok m4 (with_contexts v (<[p := c]> (contexts v))) p c Hok4 ltac:(apply lookup_insert_eq))
    as (m5 & E5 & Hok5). cbn [contexts with_contexts] in *.
  exists m5, p, (reset_stacks c). rewrite insert_insert_eq in *. split_and!; [|done|done].
  unfold set_context. erewrite bind_Done by reflexivity. rewrite (bind_Done _ _ _ _ _ E5). done.
Qed.

Lemma new_context_ok m v :
  pool_ok m v →
  (∃ m' v' p, new_context (m, v) = Done (m', v') p ∧ pool_ok m' v' ∧
     p ∈ active_set v' ∧ p ∉ active_set v ∧ active_set v ⊆ active_set v') ∨
  new_context (m, v) = Fatal FATAL_ERROR.
Proof using laws.
  intros [Hok Hex Hnd Hdis Hsm]. unfold new_context. erewrite bind_Done by reflexivity. cbn [snd].
  destruct (unused_contexts v) as [|x u _] eqn:Eu using rev_ind; cbn [last].
  - destruct (construct_context_ok (datastack_size (config v)) (retainstack_size (config v))
      (callstack_size (config v)) m v Hok) as [(m1 & p & c & E1 & Hnone & Hok1)|E1];
      [left|right; by rewrite (bind_Fatal _ _ _ _ E1)].
    rewrite (bind_Done _ _ _ _ _ E1).
    destruct (reset_ok m1 (with_contexts v (<[p := c]> (contexts v))) p c Hok1 ltac:(apply lookup_insert_eq))
      as (m2 & E2 & Hok2). cbn [contexts with_contexts] in *. rewrite insert_insert_eq in *.
    rewrite (bind_Done _ _ _ _ _ E2). eexists _, _, p. split; [reflexivity|].
    assert (p ∉ active_set v) as Hp.
    { intros Hp. destruct (proj2 (Hex p)) as [y Hy]; [by right|]. congruence. }
    cbn. split; [|split; [set_solver|split; [done|set_solver]]].
    split; cbn; rewrite ?Eu; [done| |constructor|by intros q ?%not_elem_of_nil|lia].
    intros q. rewrite lookup_insert_is_Some, Hex. set_unfold. destruct (decide (p = q)); naive_solver.
  - left. rewrite last_snoc. erewrite bind_Done by reflexivity.
    assert (is_Some (contexts v !! x)) as [c Hc] by (apply Hex; left; set_solver).
    destruct (reset_ok m (with_pool v u (active_set v)) x c Hok Hc) as (m1 & E1 & Hok1).
    cbn [fst snd]. rewrite Eu, removelast_last. rewrite (bind_Done _ _ _ _ _ E1).
    eexists _, _, x. split; [reflexivity|]. cbn.
    apply NoDup_app in Hnd as (Hnd & Hx & _).
    split; [|split; [set_solver|split; [apply Hdis; set_solver|set_solver]]]. split; cbn.
    + done.
    + intros q. rewrite lookup_insert_is_Some, Hex. set_unfold. destruct (decide (x = q)); naive_solver.
    + done.
    + intros q Hq [->%elem_of_singleton|Ha]%elem_of_union; [set_solver|]. apply (Hdis q); set_solver.
    + rewrite length_app in Hsm. cbn in Hsm. lia.
Qed.


(** * Runs *)

(** Code other than these operations may move the stack pointers of contexts,
    switch to another active context and write memory, but neither makes nor
    frees contexts, and leaves their words in place. *)
Definition elsewhere (s s' : memory * vm) : Prop :=
  unused_contexts s'.2 = unused_contexts s.2 ∧ active_set s'.2 = active_set s.2 ∧
  (∀ p c, contexts s'.2 !! p = Some c → ∃ d, contexts s.2 !! p = Some d ∧ same_blocks c d) ∧
  (∀ p, is_Some (contexts s.2 !! p) → is_Some (contexts s'.2 !! p)) ∧
  (∀ a, is_Some (s.1 !! a) → is_Some (s'.1 !! a)).

(** A step of a run: one of the operations, each of them called by code that
    runs in an active context, or other code. *)
Inductive pool_step : memory * vm → memory * vm → Prop :=
  | step_new s s' p : new_context s = Done s' p → pool_step s s'
  | step_delete s s' : ctx s.2 ∈ active_set s.2 → delete_context s = Done s' () → pool_step s s'
  | step_reset s s' p : p ∈ active_set s.2 → reset p s = Done s' () → pool_step s s'
  | step_elsewhere s s' : elsewhere s s' → pool_step s s'.

Lemma pool_ok_contexts m m' v cs :
  pool_ok m v → contexts_ok m' cs → (∀ p, is_Some (cs !! p) ↔ is_Some (contexts v !! p)) →
  pool_ok m' (with_contexts v cs).
Proof.
  intros [Hok Hex Hnd Hdis Hsm] Hok' Hcs. split; [done| |done|done|done].
  intros p. cbn. by rewrite Hcs, Hex.
Qed.

Lemma pool_step_ok s s' : pool_ok s.1 s.2 → pool_step s s' → pool_ok s'.1 s'.2.
Proof using laws.
  intros Hok. destruct 1 as [[m v] s' p E|[m v] s' Hctx E|[m v] s' p Hp E|[m v] [m' v'] (Eu & Ea & Hcs & Hcs' & Hm)];
    cbn [fst snd] in *.
  - destruct (new_context_ok m v Hok) as [(m' & v' & p' & E' & Hok' & _)|E']; [|congruence].
    rewrite E in E'. injection E' as -> ->. done.
  - destruct (delete_context_ok m v Hok Hctx) as (m' & v' & E' & Hok' & _).
    rewrite E in E'. injection E' as ->. done.
  - destruct (proj2 (pool_exist _ _ Hok p) (or_intror Hp)) as [c Hc].
    destruct (reset_ok m v p c (pool_contexts _ _ Hok) Hc) as (m' & E' & Hok').
    rewrite E in E'. injection E' as ->. eapply pool_ok_contexts; [done|done|].
    intros q. rewrite lookup_insert_is_Some. destruct (decide (p = q)) as [<-|]; [|naive_solver].
    split; [by eauto|]. by left.
  - destruct Hok as [Hok Hex Hnd Hdis Hsm]. split; rewrite ?Eu, ?Ea; [|intros p; rewrite ?Eu, ?Ea, <- Hex|done|done|done].
    + eapply contexts_ok_update; [exact Hcs| |done]. intros p c r a _ _ _. apply Hm.
    + split; [|apply Hcs']. intros [c Hc]. destruct (Hcs p c Hc) as (d & Hd & _). eauto.
Qed.

Lemma pool_run_ok s s' : pool_ok s.1 s.2 → rtc pool_step s s' → pool_ok s'.1 s'.2.
Proof using laws. intros Hok Hrun. induction Hrun as [|s s1 s' Hstep _ IH]; [done|]. by apply IH, (pool_step_ok s). Qed.

Lemma pool_ok_empty m v : contexts v = ∅ → unused_contexts v = [] → active_set v = ∅ → pool_ok m v.
Proof.
  intros Hc Hu Ha. split; rewrite ?Hc, ?Hu, ?Ha; [split; by intros *; rewrite ?lookup_empty| |constructor|done|cbn; lia].
  intros p. rewrite lookup_empty. split; [by intros []|]. by intros [?%not_elem_of_nil|?%not_elem_of_empty].
Qed.

End pool.

(** ** An example: memory that is never given out twice *)

(** The first address above all words. *)
Definition first_free (m : memory) : Z := 8 * (foldr Z.max 0 (elements (dom m)) / 8 + 1).

Definition bump_memory (m : memory) (n : Z) : option (memory * Z) :=
  let a := first_free m in
  if (0 <=? n) && (a + n <=? 2 ^ 47) then Some (m ∪ zeroed_region a (Z.to_nat ((n + 7) / 8)), a) else None.

Definition bump_os : os_memory :=
  {| map_segment := bump_memory; cards_array := λ _, 0; decks_array := λ _, 0 |}.
Definition bump_heap : c_heap := {| malloc := bump_memory; getpagesize := 4096 |}.

Lemma foldr_max (l : list Z) x : x ∈ l → x ≤ foldr Z.max 0 l.
Proof. induction l as [|y l IH]; cbn; [by intros ?%not_elem_of_nil|]. intros [->|Hx]%elem_of_cons; [lia|]. specialize (IH Hx). lia. Qed.

Lemma foldr_max_pos (l : list Z) : 0 ≤ foldr Z.max 0 l.
Proof. induction l; cbn; lia. Qed.

Lemma bump_memory_fresh m n m' p : bump_memory m n = Some (m', p) → fresh_block m m' (p, p + n).
Proof.
  unfold bump_memory. destruct (Z.leb_spec 0 n); [|done]. destruct (Z.leb_spec (first_free m + n) (2 ^ 47)); [|done].
  cbn [andb]. intros [= <- <-]. pose proof (foldr_max_pos (elements (dom m))) as Hpos.
  set (a := first_free m) in *. assert (8 ≤ a ∧ a mod 8 = 0) as [Ha H8] by (unfold a, first_free; dlia).
  split; [apply map_union_subseteq_l|]. split; [split_and!; cbn; [lia|lia|lia|lia|]|].
  - intros x Hx Hx8. apply lookup_union_is_Some. right. apply (mapped_zeroed_region a); [done|dlia|done].
  - intros x [Hx _]. cbn in Hx. destruct (m !! x) as [w|] eqn:E; [|done]. exfalso.
    apply elem_of_dom_2 in E. rewrite <- elem_of_elements in E. apply foldr_max in E. unfold a, first_free in Hx. dlia.
Qed.

Lemma bump_laws : @memory_laws bump_os bump_heap.
Proof. split; intros m n m' p; apply bump_memory_fresh. Qed.

(** A vm that has made a context and switched to it. *)
Definition empty_vm : vm := mk_vm (small_vm 2621440) 0 0 ∅ [] ∅ [] 0 [] false 0 no_tally small_config.

Definition one_context : memory * vm :=
  match @new_context bump_os bump_heap (small_memory, empty_vm) with
  | Done (m, v) p => (m, with_ctx v p 0)
  | _ => (∅, empty_vm)
  end.

