(* ===== verification/HeapArrays.v ===== *)
(** Arrays and byte arrays in memory: vm/generic_arrays.hpp, vm/arrays.cpp and
    vm/byte_arrays.cpp, as computations that allocate.  [Arrays] has the same
    operations on lists. *)

From S2P Require Import Prelude.
From S2P Require Import Layouts.
From S2P Require Import Memory.
From S2P Require Import Bytes.
From S2P Require Import Effects.
From S2P Require Import FreeList.
From S2P Require Import Spaces.
From S2P Require Import DataHeap.
From S2P Require Import Objects.
From S2P Require Import Relocation.
From S2P Require Import Callbacks.
From S2P Require Import SlotVisitor.
From S2P Require Import GC.
From S2P Require Import VM.
From S2P Require Import Room.
From S2P Require Import Contexts.
Local Open Scope Z_scope.
Local Open Scope cell_scope.

(** [memset] of [n] bytes. *)
Fixpoint fill_bytes (m : memory) (a byte : Z) (n : nat) : result memory :=
  match n with
  | 0%nat => Ok m
  | S n => m ← store_byte m a byte; fill_bytes m (a + 1) byte n
  end.

Lemma fill_bytes_spec n m a b :
  bytes_mapped m a (a + Z.of_nat n) → 0 ≤ b < 256 →
  ∃ m', fill_bytes m a b n = Ok m' ∧ (∀ x, a ≤ x < a + Z.of_nat n → load_byte m' x = Ok b) ∧
    same_bytes_outside m m' a (a + Z.of_nat n) ∧ same_words_outside m m' a (a + Z.of_nat n).
Proof.
  revert m a. induction n as [|n IH]; intros m a Hm Hb; cbn [fill_bytes].
  { exists m. split; [done|]. split; [lia|]. split; [apply same_bytes_refl|done]. }
  destruct (store_bytes_spec 1 m a b) as (m1 & E1 & L1 & S1); [intros x Hx; apply Hm; lia|].
  pose proof (store_bytes_words 1 _ _ _ _ E1) as W1. cbn [store_bytes load_bytes] in E1, L1.
  apply result_bind_inv in E1 as (m1' & E1 & E1'). apply Ok_inj in E1'. subst m1'. rewrite Z.mod_small in E1 by lia.
  rewrite E1, result_bind_ok. change (Z.of_nat 1) with 1 in *.
  destruct (IH m1 (a + 1)) as (m2 & -> & L2 & S2 & W2); [|done|].
  { eapply same_bytes_mapped; [done|]. intros x Hx. apply Hm. lia. }
  exists m2. split; [done|]. split; [|split].
  - intros x Hx. destruct (decide (x = a)) as [->|]; [|apply L2; lia]. rewrite (proj2 S2) by lia.
    destruct (load_byte m1 a) as [c|]; [|done]. cbn in L1. apply Ok_inj in L1. rewrite Z.mod_small in L1 by lia. f_equal. lia.
  - eapply same_bytes_trans; [|done|eapply same_bytes_weaken; [| |exact S2]]; lia.
  - eapply same_words_trans; eapply same_words_weaken; [| |exact W1| | |exact W2]; lia.
Qed.

Section heap_arrays.
Context `{!linkage, !os_memory}.

(** src/vm/generic_arrays.hpp:24-28 [reallot_array_in_place_p] *)
Definition vm_reallot_in_place_p (type array capacity : Z) : eff vm bool :=
  g ← ask vm_gc;
  if bump_contains_p (nursery (heap_of g)) array then
    n ← reads (λ m, array_capacity type m array);
    mret (capacity <=? n)
  else mret false.

(** src/vm/generic_arrays.hpp:30-53 [reallot_array]: with the sizes of the
    header and of an element. *)
Definition vm_reallot_array (type sizeof_header element_size array_ capacity : Z) : eff vm Z :=
  rooted (tag type array_) (λ array,
    a ← root_untagged type array;
    n ← reads (λ m, array_capacity type m a);
    if n =? capacity then root_untagged type array
    else
      in_place ← vm_reallot_in_place_p type a capacity;
      if (in_place : bool) then
        _ ← writes (λ m, put_field m a 8 (tag_fixnum capacity));
        root_untagged type array
      else
        let to_copy := if capacity <? n then capacity else n in
        new_array ← vm_allot_array type sizeof_header element_size capacity;
        a ← root_untagged type array;
        _ ← writes (λ m, copy_bytes m (new_array +& sizeof_header) (a +& sizeof_header)
                           (Z.to_nat (to_copy *& element_size)));
        _ ← writes (λ m, fill_bytes m ((new_array +& sizeof_header) +& (to_copy *& element_size)) 0
                           (Z.to_nat ((capacity -& to_copy) *& element_size)));
        mret new_array).

(** src/vm/arrays.cpp:6-11 [allot_array] *)
Definition vm_allot_filled_array (capacity fill_ : Z) : eff vm Z :=
  rooted fill_ (λ fill,
    new_array ← vm_allot_array ARRAY_TYPE sizeof_array 8 capacity;
    value ← root_value TYPE_COUNT fill;
    _ ← writes (λ m, memset_cell m (new_array +& sizeof_array) value (Z.to_nat capacity));
    mret new_array).

(** src/vm/arrays.cpp:14-19 [primitive_array] *)
Definition primitive_array : eff vm () :=
  fill ← ctx_pop;
  capacity ← pop_array_size;
  new_array ← vm_allot_filled_array capacity fill;
  ctx_push (tag ARRAY_TYPE new_array).

(** src/vm/arrays.cpp:22-33 [allot_array_4] *)
Definition allot_array_4 (v1_ v2_ v3_ v4_ : Z) : eff vm Z :=
  rooted v1_ (λ v1, rooted v2_ (λ v2, rooted v3_ (λ v3, rooted v4_ (λ v4,
    a ← vm_allot_array ARRAY_TYPE sizeof_array 8 4;
    x1 ← root_value TYPE_COUNT v1;
    _ ← vm_set_array_nth a 0 x1;
    x2 ← root_value TYPE_COUNT v2;
    _ ← vm_set_array_nth a 1 x2;
    x3 ← root_value TYPE_COUNT v3;
    _ ← vm_set_array_nth a 2 x3;
    x4 ← root_value TYPE_COUNT v4;
    _ ← vm_set_array_nth a 3 x4;
    mret (tag ARRAY_TYPE a))))).

(** src/vm/arrays.cpp:36-41 [primitive_resize_array] *)
Definition primitive_resize_array : eff vm () :=
  v ← ctx_pop;
  rooted v (λ a,
    _ ← check_tagged ARRAY_TYPE a;
    capacity ← pop_array_size;
    arr ← root_untagged ARRAY_TYPE a;
    new_array ← vm_reallot_array ARRAY_TYPE sizeof_array 8 arr capacity;
    ctx_push (tag ARRAY_TYPE new_array)).

(** src/vm/arrays.cpp:44-58 [std_vector_to_array]: [elements] is the address of
    the elements of the vector. *)
Definition std_vector_to_array (elements element_count : Z) : eff vm Z :=
  orig ← ask vm_data_roots;
  _ ← change (λ v, with_roots v
        (rev ((λ n, elements + 8 * n) <$> seqZ 0 element_count) ++ vm_data_roots v));
  objects ← vm_allot_array ARRAY_TYPE sizeof_array 8 element_count;
  _ ← writes (λ m, move_words m (objects +& sizeof_array) elements (Z.to_nat element_count));
  _ ← change (λ v, with_roots v orig);
  mret (tag ARRAY_TYPE objects).

(** src/vm/byte_arrays.cpp:6-10 [allot_byte_array] *)
Definition vm_allot_byte_array (size : Z) : eff vm Z :=
  array ← vm_allot_array BYTE_ARRAY_TYPE sizeof_byte_array 1 size;
  _ ← writes (λ m, fill_bytes m (array +& sizeof_byte_array) 0 (Z.to_nat size));
  mret array.

(** src/vm/byte_arrays.cpp:13-16 [primitive_byte_array] *)
Definition primitive_byte_array : eff vm () :=
  size ← pop_array_size;
  array ← vm_allot_byte_array size;
  ctx_push (tag BYTE_ARRAY_TYPE array).

(** src/vm/byte_arrays.cpp:19-22 [primitive_uninitialized_byte_array] *)
Definition primitive_uninitialized_byte_array : eff vm () :=
  size ← pop_array_size;
  array ← vm_allot_array BYTE_ARRAY_TYPE sizeof_byte_array 1 size;
  ctx_push (tag BYTE_ARRAY_TYPE array).

(** src/vm/byte_arrays.cpp:25-30 [primitive_resize_byte_array] *)
Definition primitive_resize_byte_array : eff vm () :=
  v ← ctx_pop;
  rooted v (λ array,
    _ ← check_tagged BYTE_ARRAY_TYPE array;
    capacity ← pop_array_size;
    arr ← root_untagged BYTE_ARRAY_TYPE array;
    new_array ← vm_reallot_array BYTE_ARRAY_TYPE sizeof_byte_array 1 arr capacity;
    ctx_push (tag BYTE_ARRAY_TYPE new_array)).

(** ** An array of four elements *)

(** The stores of [allot_array_4]. *)
Lemma fill_array_4 m v a l x1 x2 x3 x4 h1 h2 h3 h4 :
  array_at m a l → length l = 4%nat → barrier_ready (vm_gc v) a (a + array_bytes 4) →
  (∀ h, h ∈ [h1; h2; h3; h4] → h < a ∨ a + array_bytes 4 ≤ h) →
  m !! h1 = Some x1 → m !! h2 = Some x2 → m !! h3 = Some x3 → m !! h4 = Some x4 →
  ∃ m' g', (x1 ← root_value TYPE_COUNT h1; _ ← vm_set_array_nth a 0 x1;
            x2 ← root_value TYPE_COUNT h2; _ ← vm_set_array_nth a 1 x2;
            x3 ← root_value TYPE_COUNT h3; _ ← vm_set_array_nth a 2 x3;
            x4 ← root_value TYPE_COUNT h4; _ ← vm_set_array_nth a 3 x4;
            mret (tag ARRAY_TYPE a)) (m, v) = Done (m', with_gc v g') (tag ARRAY_TYPE a) ∧
    array_at m' a [x1; x2; x3; x4] ∧ same_outside m m' a (a + array_bytes 4) ∧ heap_only (vm_gc v) g'.
Proof.
  unfold array_bytes. intros Ha Hl Hb Hout H1 H2 H3 H4.
  replace (a + (16 + 8 * Z.of_nat 4)) with (a + 16 + 8 * Z.of_nat 4) in * by lia.
  rewrite (bind_Done _ _ _ _ _ (root_value_eq m v h1 x1 H1)).
  destruct (vm_set_array_nth_ready m v a l 0 x1) as (m1 & g1 & E1 & A1 & S1 & O1 & B1); [done|lia|by rewrite Hl|].
  rewrite Hl in *. rewrite (bind_Done _ _ _ _ _ E1).
  rewrite (bind_Done _ _ _ _ _ (root_value_eq m1 _ h2 x2 ltac:(rewrite S1; [done|apply Hout; set_solver]))).
  destruct (vm_set_array_nth_ready m1 (with_gc v g1) a _ 1 x2 A1) as (m2 & g2 & E2 & A2 & S2 & O2 & B2);
    [rewrite length_insert; lia|by rewrite length_insert, Hl|]. rewrite length_insert, Hl in *.
  rewrite (bind_Done _ _ _ _ _ E2). pose proof (same_outside_trans _ _ _ _ _ S1 S2) as S12.
  rewrite (bind_Done _ _ _ _ _ (root_value_eq m2 _ h3 x3 ltac:(rewrite S12; [done|apply Hout; set_solver]))).
  destruct (vm_set_array_nth_ready m2 (with_gc v g2) a _ 2 x3 A2) as (m3 & g3 & E3 & A3 & S3 & O3 & B3);
    [rewrite !length_insert; lia|by rewrite !length_insert, Hl|]. rewrite !length_insert, Hl in *.
  rewrite (bind_Done _ _ _ _ _ E3). pose proof (same_outside_trans _ _ _ _ _ S12 S3) as S13.
  rewrite (bind_Done _ _ _ _ _ (root_value_eq m3 _ h4 x4 ltac:(rewrite S13; [done|apply Hout; set_solver]))).
  destruct (vm_set_array_nth_ready m3 (with_gc v g3) a _ 3 x4 A3) as (m4 & g4 & E4 & A4 & S4 & O4 & B4);
    [rewrite !length_insert; lia|by rewrite !length_insert, Hl|]. rewrite !length_insert, Hl in *.
  rewrite (bind_Done _ _ _ _ _ E4). exists m4, g4.
  split; [done|]. split; [|split; [by eapply same_outside_trans|]].
  - destruct l as [|y1 [|y2 [|y3 [|y4 [|]]]]]; done.
  - eapply heap_only_trans, heap_only_trans, heap_only_trans; done.
Qed.

Lemma allot_array_4_ready m v v1 v2 v3 v4 :
  ready m v 4 (array_bytes 4) →
  let a := here (vm_nursery v) in
  ∃ m' g' t, allot_array_4 v1 v2 v3 v4 (m, v) = Done (m', with_gc v g') t ∧
    t = tag ARRAY_TYPE a ∧ array_at m' a [v1; v2; v3; v4] ∧ heap_only (vm_gc v) g' ∧ a mod 16 = 0 ∧
    ∀ x, (x < a ∨ a + array_bytes 4 ≤ x) → (x < next_handle v ∨ next_handle v + 32 ≤ x) → m' !! x = m !! x.
Proof.
  intros Hr a. unfold allot_array_4. pose proof Hr as (Hh & _ & Hap). unfold handles_apart in Hap. fold a in Hap.
  apply (rooted_ready _ _ _ _ 3 _ _ Hr). intros m1 w1 Hr1 E1 G1.
  apply (rooted_ready _ _ _ _ 2 _ _ Hr1). intros m2 w2 Hr2 E2 G2.
  apply (rooted_ready _ _ _ _ 1 _ _ Hr2). intros m3 w3 Hr3 E3 G3.
  apply (rooted_ready _ _ _ _ 0 _ _ Hr3). intros m4 w4 Hr4 E4 G4.
  destruct (vm_allot_array_ready m4 w4 4 (proj1 Hr4) ltac:(lia)) as (m5 & g5 & l & E5 & Hl & A5 & S5 & O5 & B5 & H16).
  change (here (vm_nursery w4)) with a in *.
  rewrite (bind_Done _ _ _ _ _ E5).
  destruct (fill_array_4 m5 (with_gc w4 g5) a l v1 v2 v3 v4 (next_handle v) (next_handle w1) (next_handle w2) (next_handle w3))
    as (m' & g' & E & Ha & HS & HO); [done|done|done|set_solver by lia| | | | |].
  1-4: rewrite S5 by lia; unfold m4, m3, m2, m1; rewrite ?lookup_insert_ne by lia; apply lookup_insert_eq.
  exists m', g', (tag ARRAY_TYPE a). split; [exact E|]. split_and!; [done|done| |done|].
  - rewrite <- G1, <- G2, <- G3, <- G4. by eapply heap_only_trans.
  - intros x Hx Hn. rewrite HS, S5 by done. unfold m4, m3, m2, m1. by rewrite !lookup_insert_ne by lia.
Qed.
End heap_arrays.

(** ** A vm with room *)

Definition example_vm (depth : nat) : vm :=
  mk_vm (marking_vm 2621456) 90112 0 {[ 90112 := small_context depth ]} [] {[ 90112 ]} [] 0 [] false 0 no_tally small_config.

Lemma example_ready m depth n B :
  mapped m 2621456 (2621456 + B) → (∀ i, (i < n)%nat → is_Some (m !! (98304 + 8 * Z.of_nat i))) →
  0 < B ≤ 131072 → Z.of_nat n ≤ 256 → @ready sample_linkage m (example_vm depth) n B.
Proof.
  intros Hm Hh HB Hn. split; [split|split].
  - eexists. vm_compute. reflexivity.
  - apply small_heap_sized; [lia|reflexivity].
  - reflexivity.
  - change (ba_size (vm_nursery (example_vm depth))) with 262144. lia.
  - change (here (vm_nursery (example_vm depth))) with 2621456.
    change (ba_end (vm_nursery (example_vm depth))) with 2883584. lia.
  - exact Hm.
  - split; [by exists 0, 0|apply small_heap_cards|]. change (here (vm_nursery (example_vm depth))) with 2621456.
    change (heap_end (heap_of (vm_gc (example_vm depth)))) with 2883584.
    change (dh_start (heap_of (vm_gc (example_vm depth)))) with 1048576. lia.
  - exact Hh.
  - left. change (next_handle (example_vm depth)) with 98304. change (here (vm_nursery (example_vm depth))) with 2621456. lia.
Qed.
