(* ===== verification/Errors.v ===== *)
(** Errors: vm/errors.cpp.

    An error of the vm puts an array that describes it on the data stack and
    calls the error handler of the image, after the native frames have been
    removed from the call stack.  The models of other files stop at an error
    with a value of [vm_error]; this file has what happens then. *)

From S2P Require Import Prelude.
From S2P Require Import Layouts.
From S2P Require Import Memory.
From S2P Require Import Effects.
From S2P Require Import Spaces.
From S2P Require Import DataHeap.
From S2P Require Import Objects.
From S2P Require Import CodeBlocks.
From S2P Require Import Relocation.
From S2P Require Import SlotVisitor.
From S2P Require Import GC.
From S2P Require Import VM.
From S2P Require Import Room.
From S2P Require Import Contexts.
From S2P Require Import HeapArrays.
Local Open Scope Z_scope.
Local Open Scope cell_scope.

(** src/vm/errors.hpp:6-6 [KERNEL_ERROR] *)
Definition KERNEL_ERROR : Z := 0xfac7.

(** src/vm/objects.hpp:13-13 [ERROR_HANDLER_QUOT] *)
Definition ERROR_HANDLER_QUOT : Z := 5.

(** src/vm/errors.hpp:8-29 [vm_error_type]: The number of an error, which the
    image knows; the outcomes of models that are not errors of the vm have
    none. *)
Definition vm_error_type (e : vm_error) : option Z :=
  match e with
  | ERROR_EXPIRED => Some 0
  | ERROR_IO => Some 1
  | ERROR_TYPE _ => Some 3
  | ERROR_DIVIDE_BY_ZERO => Some 4
  | ERROR_SIGNAL => Some 5
  | ERROR_ARRAY_SIZE => Some 6
  | ERROR_OUT_OF_FIXNUM_RANGE => Some 7
  | ERROR_FFI => Some 8
  | ERROR_UNDEFINED_SYMBOL _ _ => Some 9
  | ERROR_DATASTACK_UNDERFLOW => Some 10
  | ERROR_DATASTACK_OVERFLOW => Some 11
  | ERROR_RETAINSTACK_UNDERFLOW => Some 12
  | ERROR_RETAINSTACK_OVERFLOW => Some 13
  | ERROR_CALLSTACK_UNDERFLOW => Some 14
  | ERROR_CALLSTACK_OVERFLOW => Some 15
  | ERROR_MEMORY => Some 16
  | ERROR_FP_TRAP => Some 17
  | ERROR_INTERRUPT => Some 18
  | ERROR_CALLBACK_SPACE_OVERFLOW => Some 19
  | ASSERTION_FAILED | BAD_ACCESS | CRITICAL_ERROR | FATAL_ERROR | PROCESS_EXIT _ | LOOP_BOUND => None
  end.

(** The call of the error handler by [unwind_native_frames]: its quotation and
    the top of the call stack that is kept. *)
Record handler_call := mk_handler_call { handler_quot : Z; unwind_to : Z }.

Definition with_gc_off (g : gc_vm) (b : bool) : gc_vm :=
  mk_gc_vm (collection g) (gc_barrier g) (code_roots g) b (current_gc g) (current_gc_p g) (border_locked g).

Section errors.
Context `{!linkage, !os_memory, !c_heap}.

(** src/vm/errors.cpp:43-51 [general_error] (part): The vm is made fit to
    allocate again. *)
Definition prepare_error : eff vm () :=
  _ ← change (λ v, with_faulting v true);
  c ← current_context;
  _ ← set_current_context (fix_stacks c);
  change (λ v, with_gc v (with_gc_off (vm_gc v) false)).

(** src/vm/errors.cpp:61-74 [general_error] (part) *)
Definition call_error_handler (error a1 a2 : Z) : eff vm handler_call :=
  error_object ← allot_array_4 (tag_fixnum KERNEL_ERROR) (tag_fixnum error) a1 a2;
  _ ← ctx_push error_object;
  _ ← change (λ v, with_roots v []);
  handler ← vm_special ERROR_HANDLER_QUOT;
  c ← current_context;
  mret (mk_handler_call handler (callstack_top c)).

(** src/vm/errors.cpp:38-89 [general_error]: [error] is the number of the
    error; without a handler the process is aborted. *)
Definition general_error (error arg1_ arg2_ : Z) : eff vm handler_call :=
  rooted arg1_ (λ arg1, rooted arg2_ (λ arg2,
    _ ← prepare_error;
    g ← ask vm_gc;
    handler ← vm_special ERROR_HANDLER_QUOT;
    if bool_decide (current_gc g = None) && to_boolean handler then
      a1 ← root_value TYPE_COUNT arg1;
      a2 ← root_value TYPE_COUNT arg2;
      call_error_handler error a1 a2
    else raise CRITICAL_ERROR)).

(** src/vm/errors.cpp:92-94 [type_error] *)
Definition type_error (type tagged : Z) : eff vm handler_call :=
  general_error 3 (tag_fixnum type) tagged.

(** src/vm/errors.cpp:112-114 [divide_by_zero_error] *)
Definition divide_by_zero_error : eff vm handler_call := general_error 4 false_object false_object.

(** src/vm/code_heap.hpp:59-62 [safepoint_p] *)
Definition safepoint_p (code : code_heap) (addr : Z) : bool :=
  Z.land addr (lnot64 (getpagesize - 1)) =? safepoint_page code.

(** src/vm/errors.cpp:96-109 [set_memory_protection_error]: whether the fault
    is passed on; the process is aborted otherwise. *)
Definition set_memory_protection_error (fatal_erroring_p fep_p : bool) (v : vm) (fault_addr : Z) : result () :=
  if fatal_erroring_p then Err FATAL_ERROR
  else if faulting_p v && negb (safepoint_p (code (collection (vm_gc v))) fault_addr) then Err FATAL_ERROR
  else if fep_p then Err FATAL_ERROR
  else if current_gc_p (vm_gc v) then Err FATAL_ERROR
  else Ok ().

(** src/vm/errors.cpp:123-127 [memory_signal_handler_impl] (part): A fault at
    an address that is not that of the safepoint page. *)
Definition memory_fault (signal_fault_addr : Z) : eff vm handler_call :=
  c ← current_context;
  number ← box_unsigned_cell signal_fault_addr;
  match vm_error_type (address_to_error c signal_fault_addr) with
  | Some type => general_error type number false_object
  | None => raise CRITICAL_ERROR
  end.
End errors.

(** * What the error handler finds *)

(** The data stack that an error leaves: the elements it had, if its pointer is
    in range with space to work with, or none. *)
Definition stack_left (m : memory) (v : vm) (c : context) (l : list Z) : Prop :=
  (data_stack m v c l ∧ stack_word c (length l) - 8 + stack_reserved < seg_end (datastack_seg c)) ∨
  (l = [] ∧ contexts v !! ctx v = Some c ∧
   ((datastack c +& 8) < stack_base c ∨ seg_end (datastack_seg c) ≤ (datastack c +& stack_reserved))).

(** The segment of the data stack, with its reserve. *)
Definition roomy_stack (m : memory) (c : context) : Prop :=
  stack_seg_ok (datastack_seg c) ∧ stack_base c + stack_reserved < seg_end (datastack_seg c) ∧
  mapped m (stack_base c) (seg_end (datastack_seg c)).

(** The context with its pointers in range again. *)
Lemma fix_stacks_eq m v c l :
  stack_left m v c l → roomy_stack m c →
  ∃ r, fix_stacks c = with_retainstack (with_datastack c (stack_word c (length l) - 8)) r.
Proof.
  intros Hl ([Hlo _ Hhi] & Hroom & _). unfold fix_stacks, stack_reserved in *. fold (stack_base c) in *.
  assert ((if ((datastack c +& 8) <? stack_base c) || (seg_end (datastack_seg c) <=? (datastack c +& 16384))
           then reset_datastack c else c) = with_datastack c (stack_word c (length l) - 8)) as ->.
  - destruct Hl as [[[_ Ht Hf _] Hr]|(-> & _ & Hr)].
    + unfold stack_reserved in Hr. pose proof (proj2 (stack_word_cell _ _ Hf)) as Hc.
      assert (stack_base c ≤ stack_word c (length l)) by (unfold stack_word; lia).
      rewrite Ht, Z.sub_add, !u64_id by (unfold is_cell; lia).
      rewrite (proj2 (Z.ltb_ge _ _)), (proj2 (Z.leb_gt _ _)) by lia. cbn [orb]. rewrite <- Ht. by destruct c.
    + assert (reset_datastack c = with_datastack c (stack_word c (length ([] : list Z)) - 8)) as <-.
      { unfold reset_datastack. fold (stack_base c). unfold stack_word. cbn [length].
        rewrite u64_id by (unfold is_cell; lia). f_equal. lia. }
      destruct Hr as [Hr|Hr]; [by rewrite (proj2 (Z.ltb_lt _ _) Hr)|].
      unfold stack_reserved in Hr. rewrite (proj2 (Z.leb_le _ _) Hr), orb_true_r. done.
  - match goal with |- context [if ?b then _ else _] => destruct b end; eexists; [reflexivity|by destruct c].
Qed.

Section general_error.
Context `{!linkage, !os_memory}.

(** The state in which the error object is allotted. *)
Definition error_state (v : vm) (c : context) : vm :=
  with_gc (with_contexts (with_faulting v true) (<[ctx v := c]> (contexts v))) (with_gc_off (vm_gc v) false).

Lemma ready_error_state m v c n size : ready m v n size → ready m (error_state v c) n size.
Proof.
  intros Hr. apply (ready_context _ _ (ctx v) c) in Hr as ([Hp Hs Hid Hsz Hroom Hm [Hb Hc Hin]] & Hh & Ha).
  split; [|done]. by split.
Qed.

(** What must not overlap: the handles, the block that is allotted, the data
    stack and the special object. *)
Record error_layout (v : vm) (c : context) : Prop := {
  el_outside x : (stack_base c ≤ x < seg_end (datastack_seg c) ∨
                  x = special_objects_address +& (8 *& ERROR_HANDLER_QUOT)) →
    (x < next_handle v ∨ next_handle v + 48 ≤ x) ∧
    (x < here (vm_nursery v) ∨ here (vm_nursery v) + array_bytes 4 ≤ x);
  el_special : ¬ (stack_base c ≤ special_objects_address +& (8 *& ERROR_HANDLER_QUOT) < seg_end (datastack_seg c))
}.

(** The part of [general_error] from the allocation on. *)
Lemma call_handler_spec m v c l error a1 a2 q :
  ready m v 4 (array_bytes 4) → data_stack m v c l → roomy_stack m c → stack_fits c (S (length l)) →
  (∀ x, (stack_base c ≤ x < seg_end (datastack_seg c) ∨ x = special_objects_address +& (8 *& ERROR_HANDLER_QUOT)) →
    (x < next_handle v ∨ next_handle v + 32 ≤ x) ∧
    (x < here (vm_nursery v) ∨ here (vm_nursery v) + array_bytes 4 ≤ x)) →
  ¬ (stack_base c ≤ special_objects_address +& (8 *& ERROR_HANDLER_QUOT) < seg_end (datastack_seg c)) →
  m !! (special_objects_address +& (8 *& ERROR_HANDLER_QUOT)) = Some q →
  ∃ m' g' err, call_error_handler error a1 a2 (m, v) =
    Done (m', with_roots (at_depth (with_gc v g') c (S (length l))) []) (mk_handler_call q (callstack_top c)) ∧
    heap_only (vm_gc v) g' ∧ words_in m' (stack_base c) (l ++ [err]) ∧
    tagged_array m' err [tag_fixnum KERNEL_ERROR; tag_fixnum error; a1; a2].
Proof.
  intros Hr Hst (Hseg & Hres & Hmap) Hfit Hout Hsp Hq.
  destruct (allot_array_4_ready m v (tag_fixnum KERNEL_ERROR) (tag_fixnum error) a1 a2 Hr)
    as (m1 & g1 & t & E1 & -> & Ha & HO & H16 & Hsame). unfold call_error_handler. rewrite (bind_Done _ _ _ _ _ E1).
  set (a := here (vm_nursery v)) in *.
  assert (∀ x, (stack_base c ≤ x < seg_end (datastack_seg c) ∨
    x = special_objects_address +& (8 *& ERROR_HANDLER_QUOT)) → m1 !! x = m !! x) as Hm1.
  { intros x Hx. destruct (Hout x Hx). by apply Hsame. }
  assert (∀ i, (i ≤ length l)%nat → stack_base c ≤ stack_word c i < seg_end (datastack_seg c)) as Hin.
  { intros i Hi. destruct Hfit as [_ Hfit]. unfold stack_word in *. lia. }
  assert (data_stack m1 (with_gc v g1) c l) as Hst1.
  { eapply (data_stack_agree m); [|by destruct Hst]. intros i Hi. apply Hm1. left. apply Hin. lia. }
  assert (is_Some (m1 !! stack_word c (length l))) as Hmapped.
  { rewrite Hm1 by (left; by apply Hin). apply Hmap; [by apply Hin|]. destruct Hseg as [_ H8 _].
    fold (stack_base c) in H8. unfold stack_word. dlia. }
  rewrite <- (at_depth_id _ _ _ _ Hst1). rewrite (bind_Done _ _ _ _ _ (ctx_push_eq _ _ _ _ _ Hfit Hmapped)).
  erewrite bind_Done by reflexivity. unfold vm_special, special_object. cbn [fst snd].
  rewrite (bind_reads _ _ _ _ q).
  2:{ apply load_Ok. rewrite lookup_insert_ne; [by rewrite Hm1 by by right|]. intros E. apply Hsp. rewrite <- E. by apply Hin. }
  rewrite (bind_Done _ _ _ _ (with_datastack c (stack_word c (S (length l)) - 8))) by (apply context_at_eq, lookup_insert_eq).
  eexists _, g1, (tag ARRAY_TYPE a). split; [reflexivity|]. split; [done|]. split.
  - intros i x [[Hi Hx]|[-> ->]]%lookup_snoc_Some.
    + rewrite lookup_insert_ne by (unfold stack_word; lia). by apply (ds_words _ _ _ _ Hst1).
    + apply lookup_insert_eq.
  - destruct (tag_array_cell a) as (Hcell & Htag & Hu); [|done|].
    { destruct Hr as ([_ _ _ _ Hroom _ _] & _). pose proof (arr_address _ _ _ Ha). unfold array_bytes in Hroom. fold a in Hroom. lia. }
    split_and!; [done|done|]. rewrite Hu. eapply array_at_agree; [|exact Ha]. intros x Hx.
    apply lookup_insert_ne. intros <-. destruct (Hout (stack_word c (length l))) as [_ Hx'];
      [left; by apply Hin|]. fold a in Hx'. cbn [length] in Hx. lia.
Qed.

(** The context and its stack once the pointers are in range. *)
Lemma data_stack_fixed m m' v v' c l :
  stack_left m v c l → roomy_stack m c → contexts v' !! ctx v' = Some (fix_stacks c) →
  (∀ x, stack_base c ≤ x < seg_end (datastack_seg c) → m' !! x = m !! x) →
  data_stack m' v' (fix_stacks c) l ∧ roomy_stack m' (fix_stacks c) ∧ stack_fits (fix_stacks c) (S (length l)).
Proof.
  intros Hl Hroomy Hc Hm. destruct (fix_stacks_eq m v c l Hl Hroomy) as [r E]. rewrite E in *.
  destruct Hroomy as (Hseg & Hres & Hmap). set (c1 := with_retainstack _ r) in *.
  assert (stack_word c (S (length l)) ≤ seg_end (datastack_seg c)) as Hfit.
  { unfold stack_reserved in *. destruct Hl as [[_ Hr]|(-> & _)]; rewrite stack_word_S in *; [unfold stack_reserved in Hr; lia|].
    unfold stack_word. cbn [length]. lia. }
  split_and!.
  - split; [done|done|split; [done|]|].
    + change (stack_word c1) with (stack_word c). rewrite stack_word_S in Hfit. cbn. lia.
    + intros i x Hi. pose proof (lookup_lt_Some _ _ _ Hi). change (stack_word c1) with (stack_word c).
      rewrite Hm by (unfold stack_word in *; lia). destruct Hl as [[Hst _]|(-> & _)]; [by apply (ds_words _ _ _ _ Hst)|done].
  - split; [done|]. split; [done|]. intros x Hx H8. change (stack_base c1) with (stack_base c) in Hx. cbn in Hx.
    rewrite Hm by done. by apply Hmap.
  - split; done.
Qed.

(** The body of [general_error], with its two roots. *)
Lemma error_body_eq m v c error arg1 arg2 h1 h2 q :
  contexts v !! ctx v = Some c → current_gc (vm_gc v) = None → m !! h1 = Some arg1 → m !! h2 = Some arg2 →
  m !! (special_objects_address +& (8 *& ERROR_HANDLER_QUOT)) = Some q →
  (_ ← prepare_error;
   g ← ask vm_gc;
   handler ← vm_special ERROR_HANDLER_QUOT;
   if bool_decide (current_gc g = None) && to_boolean handler then
     a1 ← root_value TYPE_COUNT h1;
     a2 ← root_value TYPE_COUNT h2;
     call_error_handler error a1 a2
   else raise CRITICAL_ERROR) (m, v) =
  if to_boolean q then call_error_handler error arg1 arg2 (m, error_state v (fix_stacks c)) else Fatal CRITICAL_ERROR.
Proof.
  intros Hc Hgc H1 H2 Hq. assert (prepare_error (m, v) = Done (m, error_state v (fix_stacks c)) ()) as Hprep.
  { unfold prepare_error. erewrite bind_Done by reflexivity.
    rewrite (bind_Done _ _ _ _ c) by by apply context_at_eq. erewrite bind_Done by reflexivity. reflexivity. }
  rewrite (bind_Done _ _ _ _ _ Hprep). erewrite bind_Done by reflexivity.
  unfold vm_special, special_object. rewrite (bind_reads _ _ _ _ q) by by apply load_Ok.
  rewrite bool_decide_true by done. cbn [andb]. destruct (to_boolean q); [|done].
  rewrite (bind_Done _ _ _ _ _ (root_value_eq m _ h1 arg1 H1)).
  by rewrite (bind_Done _ _ _ _ _ (root_value_eq m _ h2 arg2 H2)).
Qed.

End general_error.

(** ** An example

    The data stack has underflowed by two elements. *)

Definition underflow_context : context :=
  mk_context 512 1024 131048 16376 0 (mk_segment 131072 20480 151552) (mk_segment 16384 512 16896)
    (mk_segment 24576 512 25088) 90176.

Definition underflow_vm : vm :=
  mk_vm (marking_vm 2621456) 90112 0 {[ 90112 := underflow_context ]} [] {[ 90112 ]} [] 0 [] false 0 no_tally small_config.

Definition handler : Z := tag QUOTATION_TYPE 12288.

Definition underflow_memory : memory :=
  (<[65704 := handler]> small_memory) ∪ zeroed_region 98304 8 ∪ zeroed_region 2621456 6 ∪ zeroed_region 131072 2560.

