(* ===== verification/Tuples.v ===== *)
(** Tuples, words and wrappers: vm/tuples.cpp and the allocation in
    vm/words.cpp. *)

From S2P Require Import Prelude.
From S2P Require Import Layouts.
From S2P Require Import Memory.
From S2P Require Import Effects.
From S2P Require Import FreeList.
From S2P Require Import Spaces.
From S2P Require Import DataHeap.
From S2P Require Import Objects.
From S2P Require Import CodeBlocks.
From S2P Require Import Relocation.
From S2P Require Import SlotVisitor.
From S2P Require Import GC.
From S2P Require Import VM.
From S2P Require Import Room.
From S2P Require Import Contexts.
From S2P Require Import HeapArrays.
Local Open Scope Z_scope.
Local Open Scope cell_scope.

Section tuples.
Context `{!linkage, !os_memory}.

(** src/vm/tuples.cpp:7-16 [primitive_tuple] *)
Definition primitive_tuple : eff vm () :=
  l ← ctx_pop;
  rooted l (λ layout,
    ly ← root_untagged ARRAY_TYPE layout;
    size ← reads (λ m, tuple_size m ly);
    t ← vm_allot TUPLE_TYPE size;
    lv ← root_value ARRAY_TYPE layout;
    _ ← writes (λ m, put_field m t 8 lv);
    ly ← root_untagged ARRAY_TYPE layout;
    size ← reads (λ m, tuple_size m ly);
    _ ← writes (λ m, memset_cell m (t +& sizeof_tuple) false_object (Z.to_nat ((size -& 8) / 8)));
    ctx_push (tag TUPLE_TYPE t)).

(** src/vm/tuples.cpp:20-30 [primitive_tuple_boa] *)
Definition primitive_tuple_boa : eff vm () :=
  l ← ctx_pop;
  rooted l (λ layout,
    ly ← root_untagged ARRAY_TYPE layout;
    size ← reads (λ m, tuple_size m ly);
    t ← vm_allot TUPLE_TYPE size;
    lv ← root_value ARRAY_TYPE layout;
    _ ← writes (λ m, put_field m t 8 lv);
    ly ← root_untagged ARRAY_TYPE layout;
    n ← reads (λ m, size ← field m ly layout_size; untag_fixnum size);
    let size := u64 n *& 8 in
    c ← current_context;
    _ ← writes (λ m, move_words m (t +& sizeof_tuple) ((datastack c -& size) +& 8) (Z.to_nat (size / 8)));
    _ ← set_current_context (with_datastack c (datastack c -& size));
    ctx_push (tag TUPLE_TYPE t)).

(** src/vm/words.cpp:75-79 [primitive_wrapper] *)
Definition primitive_wrapper : eff vm () :=
  new_wrapper ← vm_allot WRAPPER_TYPE sizeof_wrapper;
  obj ← ctx_peek;
  _ ← writes (λ m, put_field m new_wrapper wrapper_object obj);
  ctx_replace (tag WRAPPER_TYPE new_wrapper).

(** src/vm/words.cpp:60-66 [primitive_word_code]: the entry point of a word is
    that of the code block before it. *)
Definition primitive_word_code : eff vm () :=
  v ← ctx_pop;
  rooted v (λ w,
    _ ← check_tagged WORD_TYPE w;
    wd ← root_untagged WORD_TYPE w;
    entry ← reads (λ m, field m wd word_entry_point);
    a ← box_unsigned_cell entry;
    _ ← ctx_push a;
    wd ← root_untagged WORD_TYPE w;
    entry ← reads (λ m, field m wd word_entry_point);
    let code := entry -& sizeof_code_block in
    size ← reads (λ m, code_size m code);
    b ← box_unsigned_cell (code +& size);
    ctx_push b).

(** src/vm/words.cpp:68-72 [primitive_word_optimized_p] *)
Definition primitive_word_optimized_p : eff vm () :=
  v ← ctx_peek;
  w ← untag_check WORD_TYPE v;
  entry ← reads (λ m, field m w word_entry_point);
  header ← reads (λ m, load m (entry -& sizeof_code_block));
  b ← vm_tag_boolean (code_type header =? code_block_type_value CODE_BLOCK_OPTIMIZED);
  ctx_replace b.
End tuples.

(** * New tuples *)

Lemma memset_cell_words n : ∀ m a x,
  (∀ i, (i < n)%nat → is_Some (m !! (a + 8 * Z.of_nat i))) →
  memset_cell m a x n = Ok (with_words m a (replicate n x)).
Proof.
  induction n as [|n IH]; intros m a x Hm; cbn [memset_cell replicate with_words]; [done|].
  specialize (Hm 0%nat ltac:(lia)) as H0. rewrite Z.mul_0_r, Z.add_0_r in H0.
  rewrite store_Ok, result_bind_ok, IH by
    (done || (intros i Hi; apply lookup_insert_is_Some'; right; specialize (Hm (S i) ltac:(lia));
       by replace (a + 8 + 8 * Z.of_nat i) with (a + 8 * Z.of_nat (S i)) by lia)).
  f_equal. apply with_words_insert. lia.
Qed.

Lemma memset_cell_past n : ∀ m a x,
  (∀ i, (i < n)%nat → is_Some (m !! (a + 8 * Z.of_nat i))) → m !! (a + 8 * Z.of_nat n) = None →
  memset_cell m a x (S n) = Err BAD_ACCESS.
Proof.
  induction n as [|n IH]; intros m a x Hm Hn; cbn [memset_cell].
  { rewrite Z.mul_0_r, Z.add_0_r in Hn. unfold store. by rewrite Hn. }
  specialize (Hm 0%nat ltac:(lia)) as H0. rewrite Z.mul_0_r, Z.add_0_r in H0.
  rewrite store_Ok, result_bind_ok by done. apply IH.
  - intros i Hi. apply lookup_insert_is_Some'. right. specialize (Hm (S i) ltac:(lia)).
    by replace (a + 8 + 8 * Z.of_nat i) with (a + 8 * Z.of_nat (S i)) by lia.
  - rewrite lookup_insert_ne by lia. by replace (a + 8 + 8 * Z.of_nat n) with (a + 8 * Z.of_nat (S n)) by lia.
Qed.

(** The bytes of a tuple with [n] slots. *)
Definition tuple_bytes (n : nat) : Z := 16 + 8 * Z.of_nat n.

(** The layout of tuples with [n] slots, tagged. *)
Definition layout_of (m : memory) (lay : Z) (n : nat) : Prop :=
  is_cell lay ∧ TAG lay = ARRAY_TYPE ∧ UNTAG lay < 2 ^ 47 ∧ length_at m (UNTAG lay + layout_size) (Z.of_nat n).

Lemma tuple_size_eq m lay n : layout_of m lay n → tuple_size m (UNTAG lay) = Ok (tuple_bytes n).
Proof.
  intros (Hc & _ & Hu & Hl). pose proof (UNTAG_range lay Hc) as [Hr _]. pose proof Hl as [_ Hn].
  change array_size_max with (2 ^ 58) in Hn. unfold tuple_size.
  rewrite (tuple_capacity_spec m (UNTAG lay) (Z.of_nat n)), result_bind_ok by (done || lia). f_equal.
  change sizeof_tuple with 16. unfold tuple_bytes. rewrite (u64_id (_ * 8)), u64_id by (unfold is_cell; lia). lia.
Qed.

Lemma layout_of_agree m m' lay n :
  m' !! (UNTAG lay + layout_size) = m !! (UNTAG lay + layout_size) → layout_of m lay n → layout_of m' lay n.
Proof. intros E (Hc & Ht & Hu & [Hl Hn]). split_and!; [done..|]. split; [by rewrite E|done]. Qed.

Lemma root_layout_eq m v h x : m !! h = Some x → TAG x = ARRAY_TYPE →
  root_untagged ARRAY_TYPE h (m, v) = Done (m, v) (UNTAG x) ∧ root_value ARRAY_TYPE h (m, v) = Done (m, v) x.
Proof.
  intros Hx Ht. split; apply reads_Ok; cbn [fst]; unfold load, untag; rewrite Hx, result_bind_ok, Ht; done.
Qed.

Section new_tuple.
Context `{!linkage, !os_memory}.

(** The tuple, with the words that [memset_cell] fills: one more than it has
    slots. *)
Definition with_tuple (m : memory) (t lay : Z) (n : nat) : memory :=
  with_words (<[t + 8 := lay]> (<[t := initialize TUPLE_TYPE]> m)) (t + 16) (replicate (S n) false_object).

(** The part of [primitive_tuple] in the scope of its root [h], up to the push. *)
Lemma fill_tuple_eq m v h lay n :
  let t := here (vm_nursery v) in
  m !! h = Some lay → layout_of m lay n → heap_ready m v (tuple_bytes n) →
  (h < t ∨ t + tuple_bytes n ≤ h) →
  (UNTAG lay + layout_size < t ∨ t + tuple_bytes n ≤ UNTAG lay + layout_size) →
  ∃ g', heap_only (vm_gc v) g' ∧
  ∀ (k : Z → eff vm ()), (ly ← root_untagged ARRAY_TYPE h;
   size ← reads (λ m, tuple_size m ly);
   t ← vm_allot TUPLE_TYPE size;
   lv ← root_value ARRAY_TYPE h;
   _ ← writes (λ m, put_field m t 8 lv);
   ly ← root_untagged ARRAY_TYPE h;
   size ← reads (λ m, tuple_size m ly);
   _ ← writes (λ m, memset_cell m (t +& sizeof_tuple) false_object (Z.to_nat ((size -& 8) / 8)));
   k t) (m, v) =
  (match m !! (t + tuple_bytes n) with
   | Some _ => k t (with_tuple m t lay n, with_gc v g')
   | None => Fatal BAD_ACCESS
   end).
Proof.
  intros t Hh Hlay Hr Hht Hlt. pose proof Hlay as (_ & Ht & _ & [_ Hn]). change array_size_max with (2 ^ 58) in Hn.
  destruct (vm_allot_ready TUPLE_TYPE (tuple_bytes n) m v Hr) as (g' & E & HO & _). fold t in E.
  exists g'. split; [done|]. intros k. pose proof (hr_mapped _ _ _ Hr) as Hm. pose proof (hr_room _ _ _ Hr) as Hroom. fold t in Hm, Hroom.
  pose proof (heap_ready_here _ _ _ Hr : 0 ≤ t ∧ t mod 16 = 0) as [Ht0 H16].
  unfold tuple_bytes in *. set (m1 := <[t := initialize TUPLE_TYPE]> m) in *. set (m2 := <[t + 8 := lay]> m1).
  assert (∀ x, x < t ∨ t + 16 ≤ x → m2 !! x = m !! x) as Hm2 by (intros x Hx; unfold m2, m1; by rewrite !lookup_insert_ne by lia).
  destruct (root_layout_eq m v h lay Hh Ht) as [Eu _].
  destruct (root_layout_eq m1 (with_gc v g') h lay) as [_ Ev1]; [unfold m1; by rewrite lookup_insert_ne by lia|done|].
  destruct (root_layout_eq m2 (with_gc v g') h lay) as [Eu2 _]; [by rewrite Hm2 by lia|done|].
  rewrite (bind_Done _ _ _ _ _ Eu), (bind_reads _ _ _ _ _ (tuple_size_eq m lay n Hlay)). unfold tuple_bytes.
  rewrite (bind_Done _ _ _ _ _ E), (bind_Done _ _ _ _ _ Ev1). unfold put_field.
  rewrite (bind_writes _ _ _ _ m2).
  2:{ rewrite u64_id by (unfold is_cell; lia). apply store_Ok. unfold m1. rewrite lookup_insert_ne by lia. apply Hm; [lia|dlia]. }
  rewrite (bind_Done _ _ _ _ _ Eu2), (bind_reads _ _ _ _ _ (tuple_size_eq m2 lay n ltac:(eapply layout_of_agree; [|done]; apply Hm2; lia))).
  unfold tuple_bytes. change sizeof_tuple with 16. rewrite (u64_id (t + 16)), u64_id by (unfold is_cell; lia).
  replace ((16 + 8 * Z.of_nat n - 8) / 8) with (Z.of_nat (S n)) by dlia. rewrite Nat2Z.id.
  assert (∀ i, (i < n)%nat → is_Some (m2 !! (t + 16 + 8 * Z.of_nat i))) as Hfill.
  { intros i Hi. rewrite Hm2 by lia. apply Hm; [lia|dlia]. }
  replace (t + (16 + 8 * Z.of_nat n)) with (t + 16 + 8 * Z.of_nat n) by lia.
  rewrite <- (Hm2 (t + 16 + 8 * Z.of_nat n)) by lia.
  destruct (m2 !! (t + 16 + 8 * Z.of_nat n)) as [w|] eqn:Hw.
  - erewrite bind_writes; [reflexivity|]. apply memset_cell_words. intros i Hi.
    destruct (decide (i = n)) as [->|]; [eauto|apply Hfill; lia].
  - rewrite (bind_Fatal _ _ _ BAD_ACCESS); [done|]. unfold writes. cbn [fst]. by rewrite memset_cell_past.
Qed.

Lemma with_tuple_lookup m t lay n :
  with_tuple m t lay n !! t = Some (initialize TUPLE_TYPE) ∧ with_tuple m t lay n !! (t + 8) = Some lay ∧
  (∀ i, (i ≤ n)%nat → with_tuple m t lay n !! (t + 16 + 8 * Z.of_nat i) = Some false_object) ∧
  ∀ x, x < t ∨ t + tuple_bytes n + 8 ≤ x → with_tuple m t lay n !! x = m !! x.
Proof.
  unfold with_tuple, tuple_bytes. split_and!.
  - rewrite with_words_outside, lookup_insert_ne, lookup_insert_eq by lia. done.
  - rewrite with_words_outside, lookup_insert_eq by lia. done.
  - intros i Hi. apply with_words_inside, lookup_replicate_2. lia.
  - intros x Hx. by rewrite with_words_outside, !lookup_insert_ne by (rewrite ?length_replicate; lia).
Qed.

(** Addresses outside the tuple and the word after it. *)
Definition far (t : Z) (n : nat) (x : Z) : Prop := x < t ∨ t + tuple_bytes n + 8 ≤ x.

Lemma primitive_tuple_eq m v c l lay n :
  let t := here (vm_nursery v) in
  data_stack m v c (l ++ [lay]) → layout_of m lay n → ready m v 1 (tuple_bytes n) →
  far t n (next_handle v) → far t n (stack_word c (length l)) → stack_word c (length l) ≠ next_handle v →
  far t n (UNTAG lay + layout_size) → UNTAG lay + layout_size ≠ next_handle v →
  ∃ g', primitive_tuple (m, v) =
    match m !! (t + tuple_bytes n) with
    | Some _ => Done (<[stack_word c (length l) := tag TUPLE_TYPE t]> (with_tuple (<[next_handle v := lay]> m) t lay n),
                      at_depth (with_gc v g') c (S (length l))) ()
    | None => Fatal BAD_ACCESS
    end.
Proof.
  intros t Hst Hlay Hr Hh Hs1 Hs2 Hl1 Hl2. unfold far in *.
  assert (16 ≤ tuple_bytes n) as Hb by (unfold tuple_bytes; lia).
  pose proof (data_stack_above _ _ _ _ _ 0%nat _ Hst eq_refl) as Htop. cbn [Nat.add] in Htop.
  pose proof (ds_fits _ _ _ _ Hst) as Hf. rewrite length_app, Nat.add_comm in Hf. cbn [length Nat.add] in Hf.
  set (w := at_depth v c (length l)). assert (ready m w 1 (tuple_bytes n)) as Hrw by by apply ready_context.
  set (h := next_handle v) in *. set (m1 := <[h := lay]> m). set (w1 := with_roots w (h :: vm_data_roots w)).
  pose proof (ready_root m w 0 _ lay Hrw : ready m1 w1 0 _) as (Hr1 & _).
  pose proof (proj2 (handles_mapped_root m w 0 lay (proj1 (proj2 Hrw))) : is_Some (m !! h)) as Hhm.
  destruct (fill_tuple_eq m1 w1 h lay n) as (g' & HO & Efill); [apply lookup_insert_eq| |done| | |].
  { eapply layout_of_agree; [|done]. by apply lookup_insert_ne. }
  1-2: change (here (vm_nursery w1)) with t; lia.
  change (here (vm_nursery w1)) with t in Efill. specialize (Efill (λ t, ctx_push (tag TUPLE_TYPE t))). cbv beta in Efill.
  assert (m1 !! (t + tuple_bytes n) = m !! (t + tuple_bytes n)) as Elast by (apply lookup_insert_ne; lia).
  rewrite Elast in Efill. exists g'.
  rewrite <- (at_depth_id _ _ _ _ Hst) at 1. rewrite length_app, Nat.add_comm.
  unfold primitive_tuple. rewrite (bind_Done _ _ _ _ _ (ctx_pop_eq v c m (length l) lay Hf Htop)).
  destruct (m !! (t + tuple_bytes n)) as [last|]; [|by apply rooted_Fatal].
  assert (is_Some (with_tuple m1 t lay n !! stack_word c (length l))) as Hmap.
  { rewrite (proj2 (proj2 (proj2 (with_tuple_lookup m1 t lay n)))) by done. unfold m1. rewrite lookup_insert_ne by done. eauto. }
  pose proof (ctx_push_eq (with_gc w1 g') c (with_tuple m1 t lay n) (length l) (tag TUPLE_TYPE t) Hf Hmap) as Epush.
  replace (at_depth (with_gc w1 g') c (length l)) with (with_gc w1 g') in Epush.
  2:{ unfold at_depth, w1, w, at_depth, with_contexts, with_gc, with_roots. cbn. by rewrite insert_insert_eq. }
  rewrite Epush in Efill. erewrite rooted_Done; [|done|exact Efill].
  unfold at_depth, w1, w, at_depth, with_contexts, with_gc, with_roots. cbn. by rewrite insert_insert_eq.
Qed.

(** C21. A new tuple with [n] slots of [f].  With room in the nursery the
    primitive replaces the layout on the data stack by the tuple, which has the
    layout, and [f] in each slot.  It fills one word too many: the word after the
    last slot is overwritten with [f] as well, and when there is none, the access
    is out of bounds. *)
Theorem primitive_tuple_spec m v c l lay n :
  let t := here (vm_nursery v) in
  data_stack m v c (l ++ [lay]) → layout_of m lay n → ready m v 1 (tuple_bytes n) → far t n (next_handle v) →
  (∀ i, (i ≤ length l)%nat → far t n (stack_word c i) ∧ stack_word c i ≠ next_handle v) →
  far t n (UNTAG lay + layout_size) → UNTAG lay + layout_size ≠ next_handle v →
  match m !! (t + tuple_bytes n) with
  | Some _ =>
      ∃ m' v' c', primitive_tuple (m, v) = Done (m', v') () ∧ data_stack m' v' c' (l ++ [tag TUPLE_TYPE t]) ∧
        m' !! t = Some (initialize TUPLE_TYPE) ∧ m' !! (t + 8) = Some lay ∧
        (∀ i, (i < n)%nat → m' !! (t + 16 + 8 * Z.of_nat i) = Some false_object) ∧
        m' !! (t + tuple_bytes n) = Some false_object ∧
        ∀ x, far t n x → x ≠ next_handle v → x ≠ stack_word c (length l) → m' !! x = m !! x
  | None => primitive_tuple (m, v) = Fatal BAD_ACCESS
  end.
Proof.
  intros t Hst Hlay Hr Hh Hstk Hl1 Hl2. destruct (Hstk (length l) ltac:(lia)) as [Hs1 Hs2].
  destruct (primitive_tuple_eq m v c l lay n Hst Hlay Hr Hh Hs1 Hs2 Hl1 Hl2) as (g' & E). fold t in E. rewrite E.
  destruct (m !! (t + tuple_bytes n)); [|done].
  set (m1 := <[next_handle v := lay]> m). destruct (with_tuple_lookup m1 t lay n) as (L1 & L2 & L3 & L4).
  assert (∀ x, t ≤ x < t + tuple_bytes n + 8 → stack_word c (length l) ≠ x) as Hne by (unfold far in Hs1; lia).
  assert (tuple_bytes n = 16 + 8 * Z.of_nat n) as Eb by done.
  eexists _, _, (with_datastack c (stack_word c (S (length l)) - 8)). split; [reflexivity|]. split_and!.
  - pose proof (ds_fits _ _ _ _ Hst) as Hf. rewrite length_app, Nat.add_1_r in Hf.
    split; rewrite ?length_app, ?Nat.add_1_r; [apply lookup_insert_eq|done|done|].
    intros i x [[Hi Hx]|[-> ->]]%lookup_snoc_Some; [|apply lookup_insert_eq].
    change (stack_word (with_datastack c _)) with (stack_word c). destruct (Hstk i ltac:(lia)) as [Hi1 Hi2].
    rewrite lookup_insert_ne, L4 by (done || (unfold stack_word; lia)). unfold m1. rewrite lookup_insert_ne by done.
    apply (ds_words _ _ _ _ Hst). by apply lookup_app_l_Some.
  - by rewrite lookup_insert_ne by (apply Hne; lia).
  - by rewrite lookup_insert_ne by (apply Hne; lia).
  - intros i Hi. rewrite lookup_insert_ne by (apply Hne; lia). apply L3. lia.
  - rewrite lookup_insert_ne by (apply Hne; lia). rewrite Eb, Z.add_assoc. by apply L3.
  - intros x Hx Hxh Hxs. rewrite lookup_insert_ne, L4 by done. by apply lookup_insert_ne.
Qed.
End new_tuple.

(** ** An example

    A layout at 12288 of tuples with two slots, on the data stack; the tuple
    ends at 2621488, where there is another word. *)

Definition layout_value : Z := tag ARRAY_TYPE 12288.

Definition tuple_vm : vm := example_vm 1.

Definition tuple_memory : memory :=
  (<[12312 := tag_fixnum 2]> (stack_memory [layout_value])) ∪ zeroed_region 98304 1 ∪ zeroed_region 2621456 5.

Lemma tuple_vm_ready : @ready sample_linkage tuple_memory tuple_vm 1 32.
Proof.
  unfold tuple_memory. apply example_ready; [| |lia|lia].
  - intros a Ha H8. apply lookup_union_is_Some. right. apply (mapped_zeroed_region 2621456); [reflexivity|lia|exact H8].
  - intros i Hi. assert (i = 0%nat) as -> by lia. apply lookup_union_is_Some. left. apply lookup_union_is_Some. right.
    apply (mapped_zeroed_region 98304); [reflexivity|lia|reflexivity].
Qed.

Lemma primitive_tuple_spec_witness :
  ∃ m' v' c', @primitive_tuple sample_linkage no_memory (tuple_memory, tuple_vm) = Done (m', v') () ∧
    data_stack m' v' c' [tag TUPLE_TYPE 2621456] ∧ m' !! 2621456 = Some (initialize TUPLE_TYPE) ∧
    m' !! 2621464 = Some layout_value ∧ m' !! 2621488 = Some false_object.
Proof.
  pose proof (@primitive_tuple_spec sample_linkage no_memory tuple_memory tuple_vm (small_context 1) [] layout_value 2) as H.
  cbv zeta in H. change (here (vm_nursery tuple_vm)) with 2621456 in H. change (next_handle tuple_vm) with 98304 in H.
  replace (tuple_memory !! (2621456 + tuple_bytes 2)) with (Some 0) in H by (vm_compute; reflexivity).
  destruct H as (m' & v' & c' & E & Hst & H0 & H8 & _ & Hlast & _).
  - split; [vm_compute; reflexivity|vm_compute; reflexivity|apply small_stack_fits; cbn; lia|].
    intros [|i] x Hx; [|destruct i; discriminate Hx]. injection Hx as <-. vm_compute. reflexivity.
  - vm_compute. done.
  - exact tuple_vm_ready.
  - left. vm_compute. reflexivity.
  - intros i Hi. destruct i; [|cbn in Hi; lia]. split; [left|]; vm_compute; done.
  - left. vm_compute. reflexivity.
  - vm_compute. discriminate.
  - exists m', v', c'. split; [exact E|]. split; [exact Hst|]. split; [exact H0|]. split; [exact H8|exact Hlast].
Defined.
