(* ===== verification/Strings.v ===== *)
(** Strings: vm/strings.cpp.

    A string has a byte for each character.  A character above 127 has the
    high bit of its byte set, and its other bits in the auxiliary byte array,
    16 bits for each character; [char_at] reads a character back. *)

From S2P Require Import Prelude.
From S2P Require Import Layouts.
From S2P Require Import Memory.
From S2P Require Import Bytes.
From S2P Require Import Effects.
From S2P Require Import FreeList.
From S2P Require Import Spaces.
From S2P Require Import DataHeap.
From S2P Require Import Objects.
From S2P Require Import CodeBlocks.
From S2P Require Import Relocation.
From S2P Require Import Callbacks.
From S2P Require Import SlotVisitor.
From S2P Require Import GC.
From S2P Require Import VM.
From S2P Require Import Room.
From S2P Require Import Contexts.
From S2P Require Import HeapArrays.
Local Open Scope Z_scope.
Local Open Scope cell_scope.

(** The fields of [string]. *)
Definition string_length : Z := 8.
Definition string_aux : Z := 16.
Definition string_hashcode : Z := 24.

(** src/vm/layouts.hpp:213-213 [string::data] *)
Definition string_data (str : Z) : Z := str +& sizeof_string.

(** [data<uint16_t>()] of a byte array. *)
Definition byte_array_data (array : Z) : Z := array +& sizeof_byte_array.

(** src/vm/utilities.hpp:10-26 [memset_2]: [n] elements of 16 bits. *)
Fixpoint memset_2 (m : memory) (dst pattern : Z) (n : nat) : result memory :=
  match n with
  | 0%nat => Ok m
  | S n => m ← store_bytes 2 m dst pattern; memset_2 m (dst + 2) pattern n
  end.

Section strings.
Context `{!linkage, !os_memory}.

(** src/vm/strings.cpp:6-14 [allot_string_internal] *)
Definition allot_string_internal (capacity : Z) : eff vm Z :=
  str ← vm_allot STRING_TYPE (string_size capacity);
  _ ← writes (λ m, put_field m str string_length (tag_fixnum capacity));
  _ ← writes (λ m, put_field m str string_hashcode false_object);
  _ ← writes (λ m, put_field m str string_aux false_object);
  mret str.

(** src/vm/strings.cpp:17-40 [fill_string] *)
Definition fill_string (str_ start capacity fill : Z) : eff vm () :=
  rooted (tag STRING_TYPE str_) (λ h,
    if fill <=? 127 then
      str ← root_untagged STRING_TYPE h;
      writes (λ m, fill_bytes m (string_data str +& start) (u8 fill) (Z.to_nat (capacity -& start)))
    else
      str ← root_untagged STRING_TYPE h;
      aux_value ← reads (λ m, field m str string_aux);
      aux ← (if to_boolean aux_value then reads (λ _, untag BYTE_ARRAY_TYPE aux_value)
             else
               n ← reads (λ m, w ← field m str string_length; untag_fixnum w);
               aux ← vm_allot_array BYTE_ARRAY_TYPE sizeof_byte_array 1 (n *& 2);
               str ← root_untagged STRING_TYPE h;
               _ ← writes (λ m, put_field m str string_aux (tag BYTE_ARRAY_TYPE aux));
               _ ← vm_write_barrier (str +& string_aux);
               mret aux);
      let lo_fill := u8 (Z.lor (Z.land fill 127) 128) in
      let hi_fill := u16 (Z.lxor (Z.shiftr fill 7) 1) in
      str ← root_untagged STRING_TYPE h;
      _ ← writes (λ m, fill_bytes m (string_data str +& start) lo_fill (Z.to_nat (capacity -& start)));
      writes (λ m, memset_2 m (byte_array_data aux +& (2 *& start)) hi_fill (Z.to_nat (capacity -& start)))).

(** src/vm/strings.cpp:43-47 [allot_string] *)
Definition allot_string (capacity fill : Z) : eff vm Z :=
  str ← allot_string_internal capacity;
  rooted (tag STRING_TYPE str) (λ h,
    str ← root_untagged STRING_TYPE h;
    _ ← fill_string str 0 capacity fill;
    root_untagged STRING_TYPE h).

(** src/vm/strings.cpp:50-54 [primitive_string] *)
Definition primitive_string : eff vm () :=
  value ← ctx_pop;
  initial ← cell_to_cell value;
  length ← pop_array_size;
  str ← allot_string length initial;
  ctx_push (tag STRING_TYPE str).

(** src/vm/strings.cpp:56-61 [reallot_string_in_place_p] *)
Definition reallot_string_in_place_p (str capacity : Z) : eff vm bool :=
  g ← ask vm_gc;
  let nu := nursery (heap_of g) in
  if bump_contains_p nu str then
    aux_value ← reads (λ m, field m str string_aux);
    aux_ok ← (if to_boolean aux_value
              then aux ← reads (λ _, untag BYTE_ARRAY_TYPE aux_value); mret (bump_contains_p nu aux)
              else mret true);
    if (aux_ok : bool) then n ← reads (λ m, string_capacity m str); mret (capacity <=? n) else mret false
  else mret false.

(** src/vm/strings.cpp:63-98 [reallot_string] *)
Definition reallot_string (str_ capacity : Z) : eff vm Z :=
  rooted (tag STRING_TYPE str_) (λ h,
    str ← root_untagged STRING_TYPE h;
    in_place ← reallot_string_in_place_p str capacity;
    if (in_place : bool) then
      _ ← writes (λ m, put_field m str string_length (tag_fixnum capacity));
      aux_value ← reads (λ m, field m str string_aux);
      _ ← (if to_boolean aux_value then
             aux ← reads (λ _, untag BYTE_ARRAY_TYPE aux_value);
             writes (λ m, put_field m aux 8 (tag_fixnum (capacity *& 2)))
           else mret ());
      root_untagged STRING_TYPE h
    else
      n ← reads (λ m, string_capacity m str);
      let to_copy := if capacity <? n then capacity else n in
      new_ ← allot_string_internal capacity;
      rooted (tag STRING_TYPE new_) (λ hn,
        str ← root_untagged STRING_TYPE h;
        new_str ← root_untagged STRING_TYPE hn;
        _ ← writes (λ m, copy_bytes m (string_data new_str) (string_data str) (Z.to_nat to_copy));
        aux_value ← reads (λ m, field m str string_aux);
        _ ← (if to_boolean aux_value then
               new_aux ← vm_allot_array BYTE_ARRAY_TYPE sizeof_byte_array 1 (capacity *& 2);
               new_str ← root_untagged STRING_TYPE hn;
               _ ← writes (λ m, put_field m new_str string_aux (tag BYTE_ARRAY_TYPE new_aux));
               _ ← vm_write_barrier (new_str +& string_aux);
               str ← root_untagged STRING_TYPE h;
               aux ← reads (λ m, w ← field m str string_aux; untag BYTE_ARRAY_TYPE w);
               writes (λ m, copy_bytes m (byte_array_data new_aux) (byte_array_data aux) (Z.to_nat (to_copy *& 2)))
             else mret ());
        new_str ← root_untagged STRING_TYPE hn;
        _ ← fill_string new_str to_copy capacity 0;
        root_untagged STRING_TYPE hn)).

(** src/vm/strings.cpp:100-106 [primitive_resize_string] *)
Definition primitive_resize_string : eff vm () :=
  v ← ctx_pop;
  rooted v (λ h,
    _ ← check_tagged STRING_TYPE h;
    capacity ← pop_array_size;
    str ← root_untagged STRING_TYPE h;
    new_str ← reallot_string str capacity;
    ctx_push (tag STRING_TYPE new_str)).
End strings.

(** src/vm/strings.cpp:108-113 [primitive_set_string_nth_fast] *)
Definition primitive_set_string_nth_fast : eff vm () :=
  v ← ctx_pop;
  str ← reads (λ _, untag STRING_TYPE v);
  w ← ctx_pop;
  index ← fixnum_of w;
  w ← ctx_pop;
  value ← fixnum_of w;
  writes (λ m, store_byte m (string_data str +& u64 index) (u8 value)).

(** * Characters *)

(** The character at an index: the word [string-nth] of core/strings, which
    reads strings in the language. *)
Definition string_nth (m : memory) (str index : Z) : result Z :=
  byte ← load_byte m (string_data str + index);
  if byte <=? 127 then Ok byte
  else
    aux_value ← field m str string_aux;
    aux ← untag BYTE_ARRAY_TYPE aux_value;
    half ← load_bytes 2 m (byte_array_data aux + 2 * index);
    Ok (Z.lxor (Z.shiftl half 7) byte).

(** The two parts of a character above 127 give it back. *)
Lemma char_parts fill :
  127 < fill < 2 ^ 23 →
  let lo := u8 (Z.lor (Z.land fill 127) 128) in
  let hi := u16 (Z.lxor (Z.shiftr fill 7) 1) in
  128 ≤ lo < 256 ∧ 0 ≤ hi < 2 ^ 16 ∧ Z.lxor (Z.shiftl hi 7) lo = fill.
Proof.
  intros Hf. cbv zeta. change 127 with (2 ^ 7 - 1). rewrite land_ones_mod by lia.
  assert (Z.lor (fill mod 2 ^ 7) 128 = fill mod 2 ^ 7 + 128) as E.
  { pose proof (lor_shiftl_add 1 (fill mod 2 ^ 7) 7 ltac:(lia) ltac:(dlia)) as L.
    change (Z.shiftl 1 7) with 128 in L. rewrite Z.lor_comm, L. lia. }
  rewrite E. unfold u8, u16. rewrite (Z.mod_small (_ + 128)) by dlia.
  assert (0 ≤ Z.lxor (Z.shiftr fill 7) 1 < 2 ^ 16) as Hx.
  { rewrite Z.shiftr_div_pow2 by lia. split; [apply Z.lxor_nonneg; dlia|].
    destruct (decide (Z.lxor (fill / 2 ^ 7) 1 = 0)) as [->|Hne]; [lia|].
    apply Z.log2_lt_pow2; [assert (0 ≤ Z.lxor (fill / 2 ^ 7) 1) by (apply Z.lxor_nonneg; dlia); lia|].
    eapply Z.le_lt_trans; [apply Z.log2_lxor; dlia|]. apply Z.max_lub_lt; [|done].
    apply Z.log2_lt_pow2; dlia. }
  rewrite (Z.mod_small _ (2 ^ 16)) by done. split; [dlia|]. split; [done|].
  rewrite <- E. apply Z.bits_inj'. intros i Hi.
  assert (Z.testbit 128 i = (i =? 7)) as E7.
  { change 128 with (2 ^ 7). rewrite Z.pow2_bits_eqb by lia. apply Z.eqb_sym. }
  rewrite Z.lxor_spec, Z.shiftl_spec, Z.lor_spec, E7 by done. destruct (decide (i < 7)).
  - rewrite Z.testbit_neg_r, Z.mod_pow2_bits_low by lia. destruct (Z.eqb_spec i 7); [lia|]. by rewrite orb_false_r, xorb_false_l.
  - rewrite Z.lxor_spec, Z.shiftr_spec, Z.mod_pow2_bits_high by lia. replace (i - 7 + 7) with i by lia. cbn [orb].
    destruct (Z.eqb_spec i 7) as [->|]; [by destruct (Z.testbit fill 7)|].
    rewrite (testbit_small 1 1 (i - 7)) by lia. by destruct (Z.testbit fill i).
Qed.

Lemma memset_2_spec n m a pattern :
  bytes_mapped m a (a + 2 * Z.of_nat n) → 0 ≤ pattern < 2 ^ 16 →
  ∃ m', memset_2 m a pattern n = Ok m' ∧
    (∀ i, 0 ≤ i < Z.of_nat n → load_bytes 2 m' (a + 2 * i) = Ok pattern) ∧
    same_bytes_outside m m' a (a + 2 * Z.of_nat n) ∧ same_words_outside m m' a (a + 2 * Z.of_nat n).
Proof.
  revert m a. induction n as [|n IH]; intros m a Hm Hp; cbn [memset_2].
  { exists m. split; [done|]. split; [lia|]. split; [apply same_bytes_refl|done]. }
  destruct (store_bytes_spec 2 m a pattern) as (m1 & E1 & L1 & S1); [intros x Hx; apply Hm; lia|].
  pose proof (store_bytes_words 2 _ _ _ _ E1) as W1. rewrite E1, result_bind_ok. change (Z.of_nat 2) with 2 in *.
  rewrite Z.mod_small in L1 by lia.
  destruct (IH m1 (a + 2)) as (m2 & -> & L2 & S2 & W2); [|done|].
  { eapply same_bytes_mapped; [done|]. intros x Hx. apply Hm. lia. }
  exists m2. split; [done|]. split; [|split].
  - intros i Hi. destruct (decide (i = 0)) as [->|].
    + rewrite Z.mul_0_r, Z.add_0_r, <- L1. eapply load_bytes_same; [exact S2|]. lia.
    + replace (a + 2 * i) with (a + 2 + 2 * (i - 1)) by lia. apply L2. lia.
  - eapply same_bytes_trans; [|done|eapply same_bytes_weaken; [| |exact S2]]; lia.
  - eapply same_words_trans; eapply same_words_weaken; [| |exact W1| | |exact W2]; lia.
Qed.

(** * Allocation

    A string that has just been allotted, and one without its last word. *)
Record string_at (m : memory) (str k aux : Z) : Prop := {
  str_address : 0 ≤ str < 2 ^ 47 ∧ str mod 16 = 0;
  str_header : m !! str = Some (initialize STRING_TYPE);
  str_length : m !! (str + string_length) = Some (tag_fixnum k);
  str_aux : m !! (str + string_aux) = Some aux;
  str_hash : m !! (str + string_hashcode) = Some false_object;
  str_bytes : bytes_mapped m (str + sizeof_string) (str + sizeof_string + k)
}.

(** Words that are not touched. *)
Definition untouched (m m' : memory) (P : Z → Prop) : Prop :=
  ∀ x, x mod 8 = 0 → ¬ P x → m' !! x = m !! x.

Lemma mapped_bytes m lo hi : mapped m lo hi → lo mod 8 = 0 → bytes_mapped m lo hi.
Proof. intros Hm Hlo a Ha. unfold word_address. apply Hm; dlia. Qed.

Lemma string_at_agree m m' str k aux :
  (∀ x, x mod 8 = 0 → str ≤ x < str + sizeof_string → m' !! x = m !! x) →
  (∀ a, is_Some (m !! a) → is_Some (m' !! a)) → string_at m str k aux → string_at m' str k aux.
Proof.
  intros Hm Hd [Ha Hh Hl Hx Hc Hb]. unfold string_length, string_aux, string_hashcode, sizeof_string in *.
  split; unfold string_length, string_aux, string_hashcode, sizeof_string; [done| | | | |by intros a Ha'; apply Hd, Hb].
  all: rewrite Hm; [done|dlia|lia].
Qed.

Section allocation.
Context `{!linkage, !os_memory}.

Lemma allot_string_internal_eq m v n k B :
  ready m v n B → 0 ≤ k < 2 ^ 40 → align (32 + k) data_alignment < B →
  let str := here (vm_nursery v) in
  ∃ m' g', allot_string_internal k (m, v) = Done (m', with_gc v g') str ∧ string_at m' str k false_object ∧
    untouched m m' (λ x, str ≤ x < str + sizeof_string) ∧ heap_only (vm_gc v) g' ∧
    here (vm_nursery (with_gc v g')) = str + align (32 + k) data_alignment ∧ barrier_ready g' str (str + 32) ∧
    ready m' (with_gc v g') n (B - align (32 + k) data_alignment).
Proof.
  intros Hr Hk HB str. pose proof (proj1 Hr) as Hh. pose proof (heap_ready_here _ _ _ Hh) as [Ha H16]. fold str in Ha, H16.
  pose proof (hr_room _ _ _ Hh) as Hroom. fold str in Hroom. pose proof (align_16 (32 + k) ltac:(lia)) as [Hal _].
  pose proof (hr_mapped _ _ _ Hh) as Hm. fold str in Hm. pose proof (hr_barrier _ _ _ Hh) as [Hbr Hbc Hbi]. fold str in Hbi.
  destruct (vm_allot_next STRING_TYPE (32 + k) m v n B Hr ltac:(lia) HB) as (g' & E & Hho & Hhere & Hb & Hr').
  fold str in E, Hhere, Hr'. unfold allot_string_internal, string_size. change sizeof_string with 32.
  rewrite u64_id by (unfold is_cell; lia). step E.
  set (m1 := <[str := initialize STRING_TYPE]> m) in *.
  set (m2 := <[str + 8 := tag_fixnum k]> m1). set (m3 := <[str + 24 := false_object]> m2).
  set (m4 := <[str + 16 := false_object]> m3).
  assert (∀ a, is_Some (m !! a) → is_Some (m4 !! a)) as Hd.
  { intros a Hs. unfold m4, m3, m2, m1. do 4 (apply lookup_insert_is_Some'; right). done. }
  assert (∀ d, d ∈ [8; 16; 24] → is_Some (m !! (str + d))) as Hf by (intros d Hd'; apply Hm; set_solver by dlia).
  exists m4, g'. split; [|split; [|split; [|split; [done|split; [done|split]]]]].
  - unfold put_field, string_length, string_hashcode, string_aux. rewrite !u64_id by (unfold is_cell; lia).
    erewrite bind_writes; [|apply store_Ok, lookup_insert_is_Some'; right; apply Hf; set_solver].
    erewrite bind_writes; [|apply store_Ok; do 2 (apply lookup_insert_is_Some'; right); apply Hf; set_solver].
    erewrite bind_writes; [reflexivity|]. apply store_Ok; do 3 (apply lookup_insert_is_Some'; right); apply Hf; set_solver.
  - split; unfold string_length, string_aux, string_hashcode, sizeof_string; [lia| | | | |].
    + unfold m4, m3, m2. rewrite !lookup_insert_ne by lia. apply lookup_insert_eq.
    + unfold m4, m3. rewrite !lookup_insert_ne by lia. apply lookup_insert_eq.
    + apply lookup_insert_eq.
    + unfold m4. rewrite !lookup_insert_ne by lia. apply lookup_insert_eq.
    + apply mapped_bytes; [|dlia]. intros a Ha' H8. apply Hd, Hm; [lia|done].
  - intros x _ Hx. change sizeof_string with 32 in Hx. unfold m4, m3, m2, m1. by rewrite !lookup_insert_ne by lia.
  - apply Hb. split; [done|done|]. lia.
  - destruct Hr' as ([Hp Hs Hid Hsz Hro Hmap Hba] & Hhm & Hap). split; [split; try done|split; [|done]].
    + intros a Ha' H8. specialize (Hmap a Ha' H8). unfold m4, m3, m2. do 3 (apply lookup_insert_is_Some'; right). done.
    + intros i Hi. specialize (Hhm i Hi). unfold m4, m3, m2. do 3 (apply lookup_insert_is_Some'; right). done.
Qed.

(** A string of characters up to 127. *)
Lemma fill_string_ascii m v str k fill :
  string_at m str k false_object → 0 ≤ k < 2 ^ 40 → 0 ≤ fill ≤ 127 →
  is_Some (m !! next_handle v) → (next_handle v < str ∨ str + 32 + k ≤ next_handle v) →
  ∃ m', fill_string str 0 k fill (m, v) = Done (m', v) () ∧ string_at m' str k false_object ∧
    (∀ i, 0 ≤ i < k → string_nth m' str i = Ok fill) ∧
    untouched m m' (λ x, str + 32 - 7 ≤ x < str + 32 + k ∨ x = next_handle v).
Proof.
  intros Hst Hk Hf Hh Hap. pose proof Hst as [[Hs H16] _ _ _ _ Hb].
  set (m1 := <[next_handle v := tag STRING_TYPE str]> m).
  assert (∀ a, is_Some (m !! a) → is_Some (m1 !! a)) as Hd by (intros a Ha; apply lookup_insert_is_Some'; by right).
  destruct (fill_bytes_spec (Z.to_nat k) m1 (str + 32) fill) as (m2 & E & L & S & W); [|lia|].
  { rewrite Z2Nat.id by lia. intros a Ha. by apply Hd, Hb. }
  rewrite Z2Nat.id in L, S, W by lia.
  exists m2. split; [|split; [|split]].
  - unfold fill_string. rewrite (rooted_Done _ _ _ _ m2 (with_roots v (next_handle v :: vm_data_roots v)) ());
      [by destruct v|done|]. fold m1. rewrite (proj2 (Z.leb_le fill 127)) by lia.
    step (root_untagged_eq m1 (with_roots v (next_handle v :: vm_data_roots v)) STRING_TYPE (next_handle v) str
            (lookup_insert_eq _ _ _) ltac:(done) Hs H16).
    unfold string_data. change sizeof_string with 32. rewrite Z.sub_0_r, Z.add_0_r.
    unfold u8. rewrite !(u64_id (str + 32)), (u64_id k), (Z.mod_small fill) by (unfold is_cell; lia).
    by apply (writes_Ok _ (m1, _)).
  - eapply string_at_agree; [| |exact Hst]; change sizeof_string with 32.
    + intros x Hx8 Hx. rewrite W by (done || dlia). apply lookup_insert_ne. lia.
    + intros a Ha. by apply (proj1 S), Hd.
  - intros i Hi. unfold string_nth, string_data. change sizeof_string with 32. rewrite u64_id by (unfold is_cell; lia).
    rewrite L, result_bind_ok by lia. by rewrite (proj2 (Z.leb_le fill 127)) by lia.
  - intros x Hx8 Hx. rewrite W by (done || lia). apply lookup_insert_ne. lia.
Qed.

(** The auxiliary array that [fill_string] allots. *)
Lemma allot_aux_eq m v n k B :
  ready m v n B → 0 ≤ k < 2 ^ 40 → align (16 + 2 * k) data_alignment < B →
  let aux := here (vm_nursery v) in
  ∃ g', vm_allot_array BYTE_ARRAY_TYPE sizeof_byte_array 1 (k *& 2) (m, v) =
      Done (<[aux + 8 := tag_fixnum (2 * k)]> (<[aux := initialize BYTE_ARRAY_TYPE]> m), with_gc v g') aux ∧
    heap_only (vm_gc v) g' ∧ (∀ lo hi, barrier_ready (vm_gc v) lo hi → barrier_ready g' lo hi).
Proof.
  intros Hr Hk HB aux. pose proof (proj1 Hr) as Hh. pose proof (heap_ready_here _ _ _ Hh) as [Ha H16]. fold aux in Ha, H16.
  pose proof (hr_room _ _ _ Hh) as Hroom. fold aux in Hroom. pose proof (align_16 (16 + 2 * k) ltac:(lia)) as [Hal _].
  pose proof (hr_mapped _ _ _ Hh) as Hm. fold aux in Hm.
  destruct (vm_allot_next BYTE_ARRAY_TYPE (16 + 2 * k) m v n B Hr ltac:(lia) HB) as (g' & E & Hho & _ & Hb & _).
  fold aux in E. exists g'. split; [|done]. unfold vm_allot_array. rewrite u64_id by (unfold is_cell; lia).
  rewrite array_size_eq by (change array_size_max with (2 ^ 58); change sizeof_byte_array with 16; lia).
  replace (sizeof_byte_array + 1 * (k * 2)) with (16 + 2 * k) by (change sizeof_byte_array with 16; lia). step E.
  unfold put_field. rewrite u64_id, (Z.mul_comm k 2) by (unfold is_cell; lia).
  erewrite bind_writes; [reflexivity|]. apply store_Ok, lookup_insert_is_Some'. right. apply Hm; [lia|dlia].
Qed.

(** A string that gets an auxiliary vector. *)
Lemma string_at_with_aux m m' str k aux aux' :
  (∀ x, x mod 8 = 0 → str ≤ x < str + 32 → x ≠ str + 16 → m' !! x = m !! x) →
  (∀ a, is_Some (m !! a) → is_Some (m' !! a)) → m' !! (str + 16) = Some aux' →
  string_at m str k aux → string_at m' str k aux'.
Proof.
  intros Hsame Hd Haux [Ha Hh Hl Hx Hc Hb].
  split; unfold string_length, string_aux, string_hashcode, sizeof_string in *; [done| | |done| |].
  1, 2, 3: rewrite Hsame by dlia; done.
  intros a Ha'. by apply Hd, Hb.
Qed.

(** A character above 127, from its two parts. *)
Lemma string_nth_wide m str aux i lo hi :
  0 ≤ str < 2 ^ 47 → 0 ≤ aux < 2 ^ 47 → aux mod 16 = 0 → 128 ≤ lo →
  m !! (str + 16) = Some (tag BYTE_ARRAY_TYPE aux) → load_byte m (str + 32 + i) = Ok lo →
  load_bytes 2 m (aux + 16 + 2 * i) = Ok hi → string_nth m str i = Ok (Z.lxor (Z.shiftl hi 7) lo).
Proof.
  intros Hs Ha Ha16 Hlo Eaux L4 L5.
  destruct (tag_object BYTE_ARRAY_TYPE aux ltac:(done) ltac:(lia) Ha16) as (_ & Ht & Hu & _).
  unfold string_nth, string_data, byte_array_data. change sizeof_string with 32. change sizeof_byte_array with 16.
  rewrite u64_id by (unfold is_cell; lia). rewrite L4, result_bind_ok.
  rewrite (proj2 (Z.leb_gt lo 127)), field_eq by (unfold string_aux; lia). unfold string_aux, load. rewrite Eaux.
  rewrite result_bind_ok. unfold untag. rewrite Ht, Hu, Z.eqb_refl, orb_true_r, check_true, !result_bind_ok.
  rewrite u64_id by (unfold is_cell; lia). by rewrite L5, result_bind_ok.
Qed.

(** A string of characters above 127. *)
Lemma fill_string_wide m v str k fill B :
  let aux := here (vm_nursery v) in
  string_at m str k false_object → 0 ≤ k < 2 ^ 40 → 127 < fill < 2 ^ 23 →
  ready m v 1 B → align (16 + 2 * k) data_alignment < B → str + 32 + k ≤ aux →
  (next_handle v < str ∨ str + 32 + k ≤ next_handle v) → barrier_ready (vm_gc v) str (str + 32) →
  ∃ m' g', fill_string str 0 k fill (m, v) = Done (m', with_gc v g') () ∧ heap_only (vm_gc v) g' ∧
    string_at m' str k (tag BYTE_ARRAY_TYPE aux) ∧ (∀ i, 0 ≤ i < k → string_nth m' str i = Ok fill) ∧
    untouched m m' (λ x, str ≤ x < str + 32 + k ∨ aux ≤ x < aux + 16 + 2 * k ∨ x = next_handle v).
Proof.
  intros aux Hst Hk Hf Hr HB Hle Hap Hbar. pose proof Hst as [[Hs H16] Hhd Hlen Haux Hhash Hb].
  unfold string_length, string_aux, string_hashcode, sizeof_string in *.
  pose proof (proj1 Hr) as Hh. pose proof (heap_ready_here _ _ _ Hh) as [Ha Ha16]. fold aux in Ha, Ha16.
  pose proof (hr_room _ _ _ Hh) as Hroom. fold aux in Hroom. pose proof (align_16 (16 + 2 * k) ltac:(lia)) as [Hal _].
  pose proof (hr_mapped _ _ _ Hh) as Hm. fold aux in Hm. pose proof Hr as (_ & Hhm & Hapart).
  assert (next_handle v < aux ∨ aux + B ≤ next_handle v) as Hap2 by (unfold handles_apart in Hapart; fold aux in Hapart; lia).
  destruct (char_parts fill Hf) as (Hlo & Hhi & Hchar).
  set (lo := u8 (Z.lor (Z.land fill 127) 128)) in *. set (hi := u16 (Z.lxor (Z.shiftr fill 7) 1)) in *.
  set (h := next_handle v) in *. set (m1 := <[h := tag STRING_TYPE str]> m). set (v1 := with_roots v (h :: vm_data_roots v)).
  pose proof (ready_root m v 0 B (tag STRING_TYPE str) Hr : ready m1 v1 0 B) as Hr1.
  destruct (allot_aux_eq m1 v1 0 k B Hr1 Hk HB) as (g2 & E2 & Hho2 & Hb2). change (here (vm_nursery v1)) with aux in E2.
  set (m2 := <[aux + 8 := tag_fixnum (2 * k)]> (<[aux := initialize BYTE_ARRAY_TYPE]> m1)) in *.
  set (m3 := <[str + 16 := tag BYTE_ARRAY_TYPE aux]> m2).
  destruct (vm_write_barrier_ready m3 (with_gc v1 g2) str (str + 32) (str + 16)) as (g3 & E3 & Hho3 & _); [by apply Hb2|lia|].
  assert (∀ a, is_Some (m !! a) → is_Some (m3 !! a)) as Hd3.
  { intros a Hs'. unfold m3, m2, m1. do 4 (apply lookup_insert_is_Some'; right). done. }
  assert (m1 !! h = Some (tag STRING_TYPE str) ∧ m2 !! h = Some (tag STRING_TYPE str) ∧ m3 !! h = Some (tag STRING_TYPE str))
    as (R1 & R2 & R3).
  { assert (m1 !! h = Some (tag STRING_TYPE str)) as R by apply lookup_insert_eq. split_and!; [done|..].
    - unfold m2. by rewrite !lookup_insert_ne by lia.
    - unfold m3, m2. by rewrite !lookup_insert_ne by lia. }
  destruct (fill_bytes_spec (Z.to_nat k) m3 (str + 32) lo) as (m4 & E4 & L4 & S4 & W4); [|lia|].
  { rewrite Z2Nat.id by lia. intros a Ha'. by apply Hd3, Hb. }
  destruct (memset_2_spec (Z.to_nat k) m4 (aux + 16) hi) as (m5 & E5 & L5 & S5 & W5); [|done|].
  { rewrite Z2Nat.id by lia. eapply same_bytes_mapped; [exact S4|]. apply mapped_bytes; [|dlia].
    intros a Ha' H8. apply Hd3, Hm; [lia|done]. }
  rewrite Z2Nat.id in L4, L5, S4, S5, W4, W5 by lia.
  assert (untouched m m5 (λ x, str + 16 ≤ x < str + 24 ∨ str + 32 - 7 ≤ x < str + 32 + k ∨ aux ≤ x < aux + 16 + 2 * k ∨ x = h))
    as Hun.
  { intros x Hx8 Hx. rewrite W5, W4 by (done || lia). unfold m3, m2, m1. by rewrite !lookup_insert_ne by lia. }
  assert (m5 !! (str + 16) = Some (tag BYTE_ARRAY_TYPE aux)) as Eaux by (rewrite W5, W4 by dlia; apply lookup_insert_eq).
  assert (∀ a, is_Some (m3 !! a) → is_Some (m5 !! a)) as Hd5 by (intros a; rewrite <- (proj1 S4 a), <- (proj1 S5 a); done).
  exists m5, g3. split; [|split; [|split; [|split]]].
  - unfold fill_string. rewrite (rooted_Done _ _ _ _ m5 (with_gc v1 g3) ()); [by destruct v|apply (handles_mapped_root m v 0 0), Hhm|].
    fold h m1 v1. rewrite (proj2 (Z.leb_gt fill 127)) by lia.
    step (root_untagged_eq m1 v1 STRING_TYPE h str R1 ltac:(done) Hs H16).
    erewrite bind_reads.
    2:{ rewrite field_eq by (unfold string_aux; lia). apply load_Ok. unfold m1. rewrite lookup_insert_ne by (unfold string_aux; lia).
        exact Haux. }
    change (to_boolean false_object) with false. cbv iota. rewrite (bind_Done _ _ _ (m3, with_gc v1 g3) aux).
    + step (root_untagged_eq m3 (with_gc v1 g3) STRING_TYPE h str R3 ltac:(done) Hs H16).
      unfold string_data, byte_array_data. change sizeof_string with 32. change sizeof_byte_array with 16.
      rewrite Z.sub_0_r, !(u64_id k), Z.mul_0_r, (u64_id 0), !Z.add_0_r, !(u64_id (str + 32)), !(u64_id (aux + 16))
        by (unfold is_cell; lia).
      rewrite (bind_writes _ _ _ _ _ E4). by apply (writes_Ok _ (m4, _)).
    + rewrite (bind_reads _ _ _ _ k).
      2:{ rewrite field_eq by (unfold string_length; lia). unfold load, m1, string_length.
          rewrite lookup_insert_ne, Hlen by lia. cbn [mbind result_bind].
          rewrite untag_tag_fixnum, s60_id; [done|]. apply fixnum_range_eq. lia. }
      step E2. step (root_untagged_eq m2 (with_gc v1 g2) STRING_TYPE h str R2 ltac:(done) Hs H16).
      unfold put_field, string_aux. rewrite u64_id by (unfold is_cell; lia).
      rewrite (bind_writes _ _ _ _ m3); [by step E3|]. apply store_Ok. unfold m2, m1.
      do 3 (apply lookup_insert_is_Some'; right). by eexists.
  - by eapply heap_only_trans.
  - apply (string_at_with_aux m m5 str k false_object); [|by intros a Ha'; apply Hd5, Hd3|done|done].
    intros x Hx8 Hx Hne. apply Hun; [done|]. dlia.
  - intros i Hi. rewrite (string_nth_wide m5 str aux i lo hi); [by rewrite Hchar|lia|lia|done|lia|done| |by apply L5].
    by rewrite (proj2 S5), L4 by lia.
  - intros x Hx8 Hx. apply Hun; [done|]. lia.
Qed.

(** C26. A new string: with room in the nursery, [allot_string] returns a string
    object of the given length in which every character is the one asked for,
    up to the limit of [2^23], whether the auxiliary array is needed or not.
    Nothing else changes but the handles of the two data roots. *)
Theorem allot_string_spec m v k fill B :
  0 ≤ k < 2 ^ 40 → 0 ≤ fill < 2 ^ 23 → ready m v 2 B → next_handle v mod 8 = 0 →
  align (32 + k) data_alignment + align (16 + 2 * k) data_alignment < B →
  let str := here (vm_nursery v) in
  ∃ m' g' aux, allot_string k fill (m, v) = Done (m', with_gc v g') str ∧ heap_only (vm_gc v) g' ∧
    string_at m' str k aux ∧ (∀ i, 0 ≤ i < k → string_nth m' str i = Ok fill) ∧
    untouched m m' (λ x, str ≤ x < str + B ∨ next_handle v ≤ x < next_handle v + 16).
Proof.
  intros Hk Hf Hr H8 HB str. pose proof (align_16 (32 + k) ltac:(lia)) as [Hal _].
  pose proof (align_16 (16 + 2 * k) ltac:(lia)) as [Hal2 _]. pose proof Hr as (_ & _ & Hap). unfold handles_apart in Hap. fold str in Hap.
  destruct (allot_string_internal_eq m v 2 k B Hr Hk ltac:(lia)) as (m1 & g1 & E1 & Hst & Hun1 & Hho1 & Hhere & Hb1 & Hr1).
  fold str in E1, Hst, Hun1, Hhere, Hb1. set (v1 := with_gc v g1) in *. set (h := next_handle v) in *.
  change (next_handle v1) with h in *. pose proof Hst as [[Hs H16] _ _ _ _ _].
  set (aux := here (vm_nursery v1)) in *.
  set (Q := λ m' g' (a : Z), a = str ∧ heap_only g1 g' ∧
    (∃ aux, string_at m' str k aux) ∧ (∀ i, 0 ≤ i < k → string_nth m' str i = Ok fill) ∧
    untouched m1 m' (λ x, str ≤ x < str + B ∨ h ≤ x < h + 16)).
  destruct (rooted_ready (tag STRING_TYPE str) (λ h, str ← root_untagged STRING_TYPE h;
      _ ← fill_string str 0 k fill; root_untagged STRING_TYPE h) m1 v1 1 _ Q Hr1) as (m' & g' & a & E & -> & Hho & [x Hx] & Hn & Hun).
  - intros m2 v2 Hr2 Eh2 Eg2. change (next_handle v1) with h in *. change (vm_gc v1) with g1 in Eg2. pose proof Hr2 as (_ & Hhm2 & _).
    assert (m2 !! h = Some (tag STRING_TYPE str)) as R2 by apply lookup_insert_eq.
    step (root_untagged_eq m2 v2 STRING_TYPE h str R2 ltac:(done) Hs H16).
    assert (string_at m2 str k false_object) as Hst2.
    { eapply string_at_agree; [| |exact Hst]; change sizeof_string with 32.
      - intros y _ Hy. apply lookup_insert_ne. lia.
      - intros y Hy. apply lookup_insert_is_Some'. by right. }
    assert (∃ m3 g3, fill_string str 0 k fill (m2, v2) = Done (m3, with_gc v2 g3) () ∧ heap_only g1 g3 ∧
      (∃ x, string_at m3 str k x) ∧ (∀ i, 0 ≤ i < k → string_nth m3 str i = Ok fill) ∧
      untouched m2 m3 (λ x, str ≤ x < str + B ∨ x = h + 8)) as (m3 & g3 & E3 & Hho3 & Hst3 & Hn3 & Hun3).
    { destruct (decide (fill ≤ 127)) as [Hle|Hgt].
      - destruct (fill_string_ascii m2 v2 str k fill) as (m3 & E3 & Hst3 & Hn3 & Hun3);
          [done|done|lia|by apply (handles_mapped_root m2 v2 0 0)|rewrite Eh2; lia|].
        exists m3, g1. replace (with_gc v2 g1) with v2 by by rewrite <- Eg2; destruct v2.
        split; [done|]. split; [apply heap_only_refl|]. split; [by eexists|]. split; [done|].
        intros y Hy8 Hy. apply Hun3; [done|]. rewrite Eh2. lia.
      - destruct (fill_string_wide m2 v2 str k fill (B - align (32 + k) data_alignment))
          as (m3 & g3 & E3 & Hho3 & Hst3 & Hn3 & Hun3); [done|done|lia|done|lia| |rewrite Eh2; lia|by rewrite Eg2|].
        { change (here (vm_nursery v2)) with aux. lia. }
        change (here (vm_nursery v2)) with aux in *. rewrite Eg2 in Hho3.
        exists m3, g3. split; [done|]. split; [done|]. split; [by eexists|]. split; [done|].
        intros y Hy8 Hy. apply Hun3; [done|]. rewrite Eh2. lia. }
    step E3. exists m3, g3, str. split.
    + apply root_untagged_eq; [|done|done|done]. by rewrite Hun3 by (done || lia).
    + split; [done|]. split; [done|]. split; [done|]. split; [done|].
      intros y Hy8 Hy. rewrite Hun3 by (done || lia). apply lookup_insert_ne. lia.
  - exists m', g', x. split; [|split; [|split; [done|split; [done|]]]].
    + unfold allot_string. step E1. rewrite E. done.
    + by eapply heap_only_trans.
    + intros y Hy8 Hy. rewrite Hun by (done || lia). apply Hun1; [done|]. change sizeof_string with 32. lia.
Qed.
End allocation.

(** ** An example: three characters above 127 *)

Definition string_memory : memory := small_memory ∪ zeroed_region 98304 2 ∪ zeroed_region 2621456 12.

Lemma allot_string_spec_witness :
  ∃ m' g' aux, @allot_string sample_linkage no_memory 3 955 (string_memory, example_vm 0) =
      Done (m', with_gc (example_vm 0) g') 2621456 ∧
    string_at m' 2621456 3 aux ∧ string_nth m' 2621456 2 = Ok 955.
Proof.
  destruct (@allot_string_spec sample_linkage no_memory string_memory (example_vm 0) 3 955 96)
    as (m' & g' & aux & E & _ & Hst & Hn & _).
  - lia.
  - lia.
  - unfold string_memory. apply example_ready; [| |lia|lia].
    + intros a Ha H8. apply lookup_union_is_Some. right. apply (mapped_zeroed_region 2621456); [reflexivity|lia|exact H8].
    + intros i Hi. apply lookup_union_is_Some. left. apply lookup_union_is_Some. right.
      apply (mapped_zeroed_region 98304); [reflexivity|lia|dlia].
  - reflexivity.
  - vm_compute. reflexivity.
  - exists m', g', aux. split; [exact E|]. split; [exact Hst|]. apply Hn. lia.
Defined.
