(* ===== verification/ObjectPrimitives.v ===== *)
(** The primitives on objects: vm/objects.cpp.

    [primitive_become] replaces every reference to one object by a reference to
    another: its fixup is an instance of [Fixup], and the visitor of the
    collectors does the rest. *)

From S2P Require Import Prelude.
From S2P Require Import Layouts.
From S2P Require Import Memory.
From S2P Require Import Bytes.
From S2P Require Import Effects.
From S2P Require Import FreeList.
From S2P Require Import Spaces.
From S2P Require Import DataHeap.
From S2P Require Import Objects.
From S2P Require Import CodeBlocks.
From S2P Require Import Relocation.
From S2P Require Import Callbacks.
From S2P Require Import SlotVisitor.
From S2P Require Import Collectors.
From S2P Require Import Compaction.
From S2P Require Import GC.
From S2P Require Import VM.
From S2P Require Import Room.
From S2P Require Import Contexts.
From S2P Require Import HeapArrays.
Local Open Scope Z_scope.
Local Open Scope cell_scope.

(** src/vm/tagged.hpp:7-9 [tag_dynamic] *)
Definition tag_dynamic (m : memory) (value : Z) : result Z :=
  header ← load m value; Ok (tag (header_type header) value).

Section primitives.
Context `{!linkage, !os_memory}.

(** The address of an element of [special_objects]. *)
Definition special_slot (n : Z) : Z := special_objects_address +& (8 *& n).

(** src/vm/objects.cpp:12-15 [primitive_special_object] *)
Definition primitive_special_object : eff vm () :=
  w ← ctx_peek;
  n ← fixnum_of w;
  value ← reads (λ m, load m (special_slot n));
  ctx_replace value.

(** src/vm/objects.cpp:17-21 [primitive_set_special_object] *)
Definition primitive_set_special_object : eff vm () :=
  w ← ctx_pop;
  n ← fixnum_of w;
  value ← ctx_pop;
  writes (λ m, store m (special_slot n) value).

(** src/vm/objects.cpp:23-27 [primitive_identity_hashcode] *)
Definition primitive_identity_hashcode : eff vm () :=
  tagged ← ctx_peek;
  header ← reads (λ m, load m (UNTAG tagged));
  ctx_replace (tag_fixnum (hashcode header)).

(** src/vm/objects.cpp:29-35 [primitive_compute_identity_hashcode] *)
Definition primitive_compute_identity_hashcode : eff vm () :=
  tagged ← ctx_pop;
  let obj := UNTAG tagged in
  _ ← change (λ v, with_counter v (object_counter v +& 1));
  counter ← ask object_counter;
  _ ← (if counter =? 0 then change (λ v, with_counter v (object_counter v +& 1)) else mret ());
  counter ← ask object_counter;
  writes (λ m, header ← load m obj; store m obj (set_hashcode header (Z.lxor obj counter))).

(** src/vm/objects.cpp:37-45 [primitive_set_slot] *)
Definition primitive_set_slot : eff vm () :=
  w ← ctx_pop;
  slot ← fixnum_of w;
  tagged ← ctx_pop;
  value ← ctx_pop;
  let slot_ptr := UNTAG tagged +& (8 *& slot) in
  _ ← writes (λ m, store m slot_ptr value);
  vm_write_barrier slot_ptr.

(** src/vm/objects.cpp:48-59 [primitive_clone] *)
Definition primitive_clone : eff vm () :=
  value ← ctx_peek;
  rooted value (λ obj,
    value ← root_value TYPE_COUNT obj;
    if immediate_p value then mret ()
    else
      size ← reads (λ m, object_size m value);
      new_obj ← vm_allot (TAG value) size;
      old ← root_untagged TYPE_COUNT obj;
      _ ← writes (λ m, copy_bytes m new_obj old (Z.to_nat size));
      _ ← writes (λ m, header ← load m new_obj; store m new_obj (set_hashcode header 0));
      new_value ← reads (λ m, tag_dynamic m new_obj);
      ctx_replace new_value).

(** src/vm/objects.cpp:62-64 [primitive_size] *)
Definition primitive_size : eff vm () :=
  value ← ctx_peek;
  size ← reads (λ m, object_size m value);
  boxed ← box_unsigned_cell size;
  ctx_replace boxed.

(** ** Become *)

(** src/vm/objects.cpp:66-78 [slot_become_fixup]: [translate_data] is that of
    [no_fixup], which calls the [fixup_data] of [no_fixup]. *)
Definition slot_become_fixup (become_map : gmap Z Z) : Fixup := {|
  translated_code_block_map := false;
  fixup_data := λ old, mret (default old (become_map !! old));
  fixup_code := λ compiled, mret compiled;
  translate_data := no_translation;
  translate_code := Ok
|}.

(** src/vm/objects.cpp:97-102 [primitive_become] (part): The map from old to
    new objects. *)
Fixpoint become_entries (m : memory) (old_objects new_objects : Z) (indices : list Z) (become_map : gmap Z Z)
    : result (gmap Z Z) :=
  match indices with
  | [] => Ok become_map
  | i :: indices =>
      old_ptr ← heap_array_nth m old_objects i;
      new_ptr ← heap_array_nth m new_objects i;
      become_entries m old_objects new_objects indices
        (if old_ptr =? new_ptr then become_map else <[UNTAG old_ptr := UNTAG new_ptr]> become_map)
  end.

(** src/vm/vm.hpp:286-293 [each_object]: with an iterator that is a computation
    of the visitor. *)
Definition each_object_of (first : collector → memory → result Z) (gen : generation) (iterator : Z → eff collector ())
    : eff collector () :=
  c ← get_state;
  obj ← reads (λ m, first c m);
  loop (λ obj,
    if obj =? 0 then mret (inr ())
    else
      _ ← iterator obj;
      c ← get_state;
      obj ← reads (λ m, gen_next_object_after gen c m obj);
      mret (inl obj)) obj.

(** src/vm/vm.hpp:295-306 [each_object] *)
Definition vm_each_object (iterator : Z → eff collector ()) : eff gc_vm () :=
  v ← get_state;
  _ ← reads (λ _, check (bump_occupied_space (nursery (heap_of v)) =? 0));
  _ ← modify_vm (λ v, mk_gc_vm (collection v) (gc_barrier v) (code_roots v) true (current_gc v) (current_gc_p v) (border_locked v));
  _ ← collect (each_object_of (λ c m, tenured_first_object m (tenured (data c))) tenured_generation iterator);
  _ ← collect (each_object_of (λ c _, Ok (aging_first_object (aging (data c)))) aging_generation iterator);
  modify_vm (λ v, mk_gc_vm (collection v) (gc_barrier v) (code_roots v) false (current_gc v) (current_gc_p v) (border_locked v)).

(** src/vm/vm.hpp:569-571 [each_code_block] *)
Definition each_code_block (iter : Z → Z → eff collector ()) : eff collector () := λ st,
  match iterate (λ _, code_size) (λ block size, as_iterator (iter block size)) (allocator (code st.2)) st.1 st.2 with
  | Ok st => Done st ()
  | Err e => Fatal e
  end.

(** src/vm/objects.cpp:115-120 [primitive_become] (part):
    [code_block_become_func]. *)
Definition code_block_become_func (V : Fixup) (compiled : Z) : eff collector () :=
  _ ← visit_code_block_objects (H := V) compiled;
  _ ← visit_embedded_literals (H := V) compiled;
  modify (λ c, with_code c (code_write_barrier (code c) compiled)).

(** src/vm/objects.cpp:83-125 [primitive_become] *)
Definition primitive_become : eff vm () :=
  _ ← with_heaps (λ parent, primitive_minor_gc parent);
  v ← ctx_pop;
  new_objects ← untag_check ARRAY_TYPE v;
  v ← ctx_pop;
  old_objects ← untag_check ARRAY_TYPE v;
  capacity ← reads (λ m, array_capacity ARRAY_TYPE m new_objects);
  old_capacity ← reads (λ m, array_capacity ARRAY_TYPE m old_objects);
  _ ← (if capacity =? old_capacity then mret () else raise CRITICAL_ERROR);
  become_map ← reads (λ m, become_entries m old_objects new_objects (seqZ 0 capacity) ∅);
  let V := slot_become_fixup become_map in
  _ ← with_heaps (λ parent,
        _ ← collect (visit_all_roots (H := V) parent);
        _ ← vm_each_object (visit_slots (H := V));
        _ ← collect (each_code_block (λ compiled _, code_block_become_func V compiled));
        modify_vm (λ g, with_heap g (mark_all_cards (heap_of g))));
  mret ().
End primitives.

(** * Copies *)

(** [memcpy] of bytes between blocks that do not overlap. *)
Lemma copy_bytes_spec n m dest src :
  bytes_mapped m src (src + Z.of_nat n) → bytes_mapped m dest (dest + Z.of_nat n) →
  (dest + Z.of_nat n ≤ src ∨ src + Z.of_nat n ≤ dest) →
  ∃ m', copy_bytes m dest src n = Ok m' ∧
    (∀ i, 0 ≤ i < Z.of_nat n → load_byte m' (dest + i) = load_byte m (src + i)) ∧
    same_bytes_outside m m' dest (dest + Z.of_nat n) ∧ same_words_outside m m' dest (dest + Z.of_nat n).
Proof.
  revert m dest src. induction n as [|n IH]; intros m dest src Hs Hd Hap; cbn [copy_bytes].
  { exists m. split; [done|]. split; [lia|]. split; [apply same_bytes_refl|done]. }
  destruct (load_byte_Ok m src) as [c Ec]; [apply Hs; lia|]. pose proof (load_byte_range _ _ _ Ec) as Hc.
  rewrite Ec, result_bind_ok. destruct (fill_bytes_spec 1 m dest c) as (m1 & E1 & L1 & S1 & W1);
    [intros x Hx; apply Hd; lia|done|]. cbn [fill_bytes] in E1.
  apply result_bind_inv in E1 as (m1' & E1 & E1'). apply Ok_inj in E1'. subst m1'. rewrite E1, result_bind_ok.
  change (Z.of_nat 1) with 1 in *.
  destruct (IH m1 (dest + 1) (src + 1)) as (m2 & -> & L2 & S2 & W2); [| |lia|].
  { eapply same_bytes_mapped; [exact S1|]. intros x Hx. apply Hs. lia. }
  { eapply same_bytes_mapped; [exact S1|]. intros x Hx. apply Hd. lia. }
  exists m2. split; [done|]. split; [|split].
  - intros i Hi. destruct (decide (i = 0)) as [->|].
    + rewrite !Z.add_0_r, Ec, (proj2 S2) by lia. apply L1. lia.
    + replace (dest + i) with (dest + 1 + (i - 1)) by lia. rewrite L2 by lia.
      replace (src + 1 + (i - 1)) with (src + i) by lia. apply (proj2 S1). lia.
  - eapply same_bytes_trans; [|exact S1|eapply same_bytes_weaken; [| |exact S2]]; lia.
  - eapply same_words_trans; eapply same_words_weaken; [| |exact W1| | |exact W2]; lia.
Qed.

(** A word of 64 bits is its bytes. *)
Lemma same_bytes_word w w' :
  is_cell w → is_cell w' → (∀ k, 0 ≤ k < 8 → byte_of w k = byte_of w' k) → w = w'.
Proof.
  intros Hw Hw' Hb. apply Z.bits_inj'. intros i Hi. destruct (decide (i < 64)).
  2:{ by rewrite !(testbit_small _ 64) by (done || lia). }
  specialize (Hb (i / 8) ltac:(dlia)). unfold byte_of in Hb. apply (f_equal (λ z, Z.testbit z (i mod 8))) in Hb.
  change 256 with (2 ^ 8) in Hb. rewrite !Z.mod_pow2_bits_low, !Z.shiftr_spec in Hb by dlia.
  by replace (i mod 8 + 8 * (i / 8)) with i in Hb by dlia.
Qed.

Lemma with_byte_cell w k b : is_cell w → 0 ≤ k < 8 → 0 ≤ b < 256 → is_cell (with_byte w k b).
Proof.
  intros Hw Hk Hb. unfold with_byte, byte_of, is_cell in *. rewrite Z.shiftl_mul_pow2, Z.shiftr_div_pow2 by lia.
  pose proof (Z.pow_pos_nonneg 2 (8 * k) ltac:(lia) ltac:(lia)) as Hp.
  assert (2 ^ 64 = 2 ^ (8 * k) * (256 * 2 ^ (56 - 8 * k))) as E64.
  { change 256 with (2 ^ 8). rewrite <- !Z.pow_add_r by lia. f_equal. lia. }
  assert (0 < 2 ^ (56 - 8 * k)) by (apply Z.pow_pos_nonneg; lia).
  set (N := 2 ^ (8 * k)) in *. set (M := 2 ^ (56 - 8 * k)) in *. clearbody N M. rewrite E64 in *.
  pose proof (Z.div_mod w N ltac:(lia)) as Ew. pose proof (Z.mod_pos_bound w N ltac:(lia)).
  set (q := w / N) in *. set (r := w mod N) in *. clearbody q r.
  pose proof (Z.div_mod q 256 ltac:(lia)) as Eq. pose proof (Z.mod_pos_bound q 256 ltac:(lia)).
  set (q1 := q / 256) in *. set (q0 := q mod 256) in *. clearbody q1 q0. subst w q.
  assert (0 ≤ q1 < M) by nia. nia.
Qed.

Lemma copy_bytes_cell n m dest src m' a w :
  copy_bytes m dest src n = Ok m' → m !! a = Some w → is_cell w → ∃ w', m' !! a = Some w' ∧ is_cell w'.
Proof.
  revert m dest src w. induction n as [|n IH]; intros m dest src w; cbn [copy_bytes].
  { intros E%Ok_inj. subst. eauto. }
  intros (c & Ec & (m1 & E1 & E)%result_bind_inv)%result_bind_inv Hw Hc. pose proof (load_byte_range _ _ _ Ec) as Hcr.
  unfold store_byte in E1. apply result_bind_inv in E1 as (w1 & L1 & E1). unfold store in E1. apply load_Ok in L1. rewrite L1 in E1.
  apply Ok_inj in E1. subst m1. destruct (decide (word_address dest = a)) as [<-|Hne].
  - apply (IH _ _ _ (with_byte w1 (dest mod 8) c) E); [apply lookup_insert_eq|].
    apply with_byte_cell; [congruence|dlia|done].
  - apply (IH _ _ _ w E); [by rewrite lookup_insert_ne|done].
Qed.

(** The words of blocks with the same bytes. *)
Lemma same_bytes_cell m m' a b w w' :
  a mod 8 = 0 → b mod 8 = 0 → (∀ i, 0 ≤ i < 8 → load_byte m' (a + i) = load_byte m (b + i)) →
  m' !! a = Some w' → m !! b = Some w → is_cell w → is_cell w' → w' = w.
Proof.
  intros Ha Hb Hbytes Hw' Hw Hc Hc'. apply same_bytes_word; [done|done|]. intros k Hk. specialize (Hbytes k Hk).
  unfold load_byte, word_address in Hbytes.
  replace (a + k - (a + k) mod 8) with a in Hbytes by dlia. replace (b + k - (b + k) mod 8) with b in Hbytes by dlia.
  unfold load in Hbytes. rewrite Hw, Hw' in Hbytes. cbn in Hbytes. apply Ok_inj in Hbytes.
  by replace ((a + k) mod 8) with k in Hbytes by dlia; replace ((b + k) mod 8) with k in Hbytes by dlia.
Qed.

(** ** Clones *)

Lemma untag_any value : untag TYPE_COUNT value = Ok (UNTAG value).
Proof. reflexivity. Qed.

(** The top of the stack is replaced. *)
Lemma replaced_top m' v' c l x y :
  data_stack m' v' c (l ++ [x]) → data_stack (<[stack_word c (length l) := y]> m') v' c (l ++ [y]).
Proof.
  intros [D1 D2 D3 D4]. rewrite length_app in D2, D3.
  split; rewrite ?length_app; [done|done|done|]. intros i z [[Hi Hx]|[-> ->]]%lookup_snoc_Some; [|apply lookup_insert_eq].
  rewrite lookup_insert_ne by (unfold stack_word; lia). apply D4. by apply lookup_app_l_Some.
Qed.

Section clone.
Context `{!linkage, !os_memory}.
Context (m : memory) (v : vm) (c : context) (l : list Z) (type old h s : Z).
Let t := here (vm_nursery v).
Let k := next_handle v.
Let value := tag type old.

(** The object is in memory, away from the nursery, the handles and the
    stack. *)
Record clonable : Prop := {
  cl_type : 1 < type < 16;
  cl_address : 0 ≤ old < 2 ^ 47 ∧ old mod 16 = 0;
  cl_header : m !! old = Some h ∧ is_cell h ∧ header_type h = type;
  cl_size : object_size (<[k := value]> m) value = Ok s ∧ 8 ≤ s;
  cl_mapped : mapped m old (old + s);
  cl_apart : old + s ≤ t ∨ t + s ≤ old;
  cl_handle : k mod 8 = 0 ∧ (k < old ∨ old + s ≤ k);
  cl_stack : ∀ i, (i ≤ length l)%nat →
    let x := stack_word c i in x ≠ k ∧ (x < t ∨ t + s ≤ x) ∧ (x < old ∨ old + s ≤ x)
}.

Let m1 := <[k := value]> m.
Let m2 := <[t := initialize type]> m1.

(** The copy of the object has its bytes. *)
Lemma clone_copy : ready m v 1 s → clonable →
  ∃ m3, copy_bytes m2 t old (Z.to_nat s) = Ok m3 ∧ m3 !! t = Some h ∧
    (∀ i, 8 ≤ i < s → load_byte m3 (t + i) = load_byte m (old + i)) ∧
    ∀ x, x mod 8 = 0 → (x < t ∨ t + s ≤ x) → x ≠ k → m3 !! x = m !! x.
Proof.
  intros Hr [Hty [Ho Ho16] (Hh & Hhc & Hht) [Hsize Hs8] Hmap Hap [Hk8 Hko] _].
  pose proof (proj1 Hr) as Hhr. pose proof (heap_ready_here _ _ _ Hhr) as [Ht Ht16]. fold t in Ht, Ht16.
  pose proof (hr_room _ _ _ Hhr) as Hroom. fold t in Hroom. pose proof (hr_mapped _ _ _ Hhr) as Hmt. fold t in Hmt.
  assert (k < t ∨ t + s ≤ k) as Hkt by (destruct Hr as (_ & _ & Ha); unfold handles_apart in Ha; fold t k in Ha; lia).
  assert (∀ a, is_Some (m !! a) → is_Some (m2 !! a)) as Hd2.
  { intros a Hs. unfold m2, m1. do 2 (apply lookup_insert_is_Some'; right). done. }
  destruct (copy_bytes_spec (Z.to_nat s) m2 t old) as (m3 & E3 & L3 & S3 & W3).
  { rewrite Z2Nat.id by lia. intros a Ha. apply Hd2. unfold word_address. apply Hmap; dlia. }
  { rewrite Z2Nat.id by lia. intros a Ha. apply Hd2. unfold word_address. apply Hmt; dlia. }
  { lia. }
  rewrite Z2Nat.id in L3, S3, W3 by lia.
  assert (m2 !! old = Some h) as Hold by (unfold m2, m1; rewrite !lookup_insert_ne by lia; done).
  assert (is_cell (initialize type)) as Hic by (unfold initialize; apply u64_range).
  destruct (copy_bytes_cell _ _ _ _ _ t _ E3 (lookup_insert_eq _ _ _) Hic) as (w & Hw & Hwc).
  assert (w = h) as ->.
  { apply (same_bytes_cell m2 m3 t old h w); [dlia|dlia| |done..]. intros i Hi. apply L3. lia. }
  exists m3. split_and!; [done|done| |].
  - intros i Hi. rewrite L3 by lia. unfold load_byte, load, m2, m1.
    rewrite !lookup_insert_ne; [done|..]; unfold word_address; dlia.
  - intros x Hx8 Hx Hxk. rewrite W3 by (done || dlia). unfold m2, m1. by rewrite !lookup_insert_ne by lia.
Qed.

(** The steps of the primitive, for a copy that has been made. *)
Lemma clone_run g' m3 :
  let v1 := with_roots v (k :: vm_data_roots v) in let m4 := <[t := set_hashcode h 0]> m3 in
  data_stack m v c (l ++ [value]) → ready m v 1 s → 1 < type < 16 → 0 ≤ old < 2 ^ 47 → old mod 16 = 0 →
  object_size m1 value = Ok s ∧ 8 ≤ s → vm_allot type s (m1, v1) = Done (m2, with_gc v1 g') t →
  copy_bytes m2 t old (Z.to_nat s) = Ok m3 → m3 !! t = Some h → header_type h = type → is_cell h →
  data_stack m4 (with_gc v1 g') c (l ++ [value]) → (k < t ∨ t + s ≤ k) →
  primitive_clone (m, v) = Done (<[stack_word c (length l) := tag type t]> m4, with_gc v g') ().
Proof.
  intros v1 m4 Hst Hr Hty Ho Ho16 [Hsize Hs8] E2 E3 Hw Hht Hhc Hst4 Hkt.
  destruct (tag_object type old Hty Ho Ho16) as (_ & Htag & Hun & _). fold value in Htag, Hun.
  pose proof (at_depth_id _ _ _ _ Hst) as Ev. pose proof (at_depth_id _ _ _ _ Hst4) as Ev4.
  rewrite length_app, Nat.add_1_r in Ev, Ev4.
  pose proof (data_stack_above _ _ _ _ _ 0%nat _ Hst eq_refl) as Htop0.
  pose proof (data_stack_above _ _ _ _ _ 0%nat _ Hst4 eq_refl) as Htop. cbn [Nat.add] in Htop, Htop0.
  unfold primitive_clone. rewrite <- Ev at 1. step (ctx_peek_eq v c m (length l) _ Htop0). rewrite Ev.
  rewrite (rooted_Done _ _ _ _ (<[stack_word c (length l) := tag type t]> m4) (with_gc v1 g') ());
    [by destruct v|apply (handles_mapped_root m v 0 0), Hr|]. fold k m1 v1.
  step (root_value_eq m1 v1 k value (lookup_insert_eq _ _ _)).
  unfold immediate_p. rewrite Htag, (proj2 (Z.leb_gt _ _)) by (change F_TYPE with 1; lia).
  rewrite (bind_reads _ _ _ _ s) by done. step E2.
  unfold root_untagged. rewrite (bind_reads _ _ _ _ old).
  2:{ unfold load, m2, m1. rewrite lookup_insert_ne, lookup_insert_eq by lia. cbn [mbind result_bind]. by rewrite untag_any, Hun. }
  rewrite (bind_writes _ _ _ _ m3) by done. rewrite (bind_writes _ _ _ _ m4).
  2:{ unfold load. rewrite Hw. cbn [mbind result_bind]. apply store_Ok. eauto. }
  rewrite (bind_reads _ _ _ _ (tag type t)).
  2:{ unfold tag_dynamic, load, m4. rewrite lookup_insert_eq. cbn [mbind result_bind]. do 2 f_equal.
      rewrite set_hashcode_eq by (done || lia). rewrite header_type_eq in *. dlia. }
  rewrite <- Ev4. apply ctx_replace_eq. eauto.
Qed.

(** C22. [primitive_clone] of an object, with room in the nursery: the top of the
    data stack becomes a new object of the same type with the same bytes, but
    for the identity hashcode in its header, which is 0.  Nothing else
    changes. *)
Theorem primitive_clone_spec :
  data_stack m v c (l ++ [value]) → ready m v 1 s → clonable →
  ∃ m' g', primitive_clone (m, v) = Done (m', with_gc v g') () ∧
    data_stack m' (with_gc v g') c (l ++ [tag type t]) ∧
    m' !! t = Some (set_hashcode h 0) ∧ (∀ i, 8 ≤ i < s → load_byte m' (t + i) = load_byte m (old + i)) ∧
    ∀ x, x mod 8 = 0 → (x < t ∨ t + s ≤ x) → x ≠ k → x ≠ stack_word c (length l) → m' !! x = m !! x.
Proof.
  intros Hst Hr Hcl. destruct (clone_copy Hr Hcl) as (m3 & E3 & Hw & L3 & W3).
  destruct Hcl as [Hty [Ho Ho16] (Hh & Hhc & Hht) [Hsize Hs8] Hmap Hap [Hk8 Hko] Hstk].
  destruct (tag_object type old Hty Ho Ho16) as (_ & Htag & Hun & _). fold value in Htag, Hun.
  pose proof (proj1 Hr) as Hhr. pose proof (heap_ready_here _ _ _ Hhr) as [Ht Ht16]. fold t in Ht, Ht16.
  assert (k < t ∨ t + s ≤ k) as Hkt by (destruct Hr as (_ & _ & Ha); unfold handles_apart in Ha; fold t k in Ha; lia).
  set (v1 := with_roots v (k :: vm_data_roots v)).
  pose proof (ready_root m v 0 s value Hr : ready m1 v1 0 s) as (Hr1 & _).
  destruct (vm_allot_ready type s m1 v1 Hr1) as (g' & E2 & Hho & _). change (here (vm_nursery v1)) with t in E2.
  fold m2 in E2. set (m4 := <[t := set_hashcode h 0]> m3).
  assert (∀ x, x mod 8 = 0 → (x < t ∨ t + s ≤ x) → x ≠ k → m4 !! x = m !! x) as Hm4.
  { intros x Hx8 Hx Hxk. unfold m4. rewrite lookup_insert_ne by dlia. by apply W3. }
  pose proof (ds_fits _ _ _ _ Hst) as [[_ Hal _] _].
  assert (∀ i, stack_word c i mod 8 = 0) as Hst8 by (intros i; unfold stack_word, stack_base; dlia).
  assert (data_stack m4 (with_gc v1 g') c (l ++ [value])) as Hst4.
  { destruct Hst as [D1 D2 D3 D4]. split; [done|done|done|]. intros i x Hi. pose proof (lookup_lt_Some _ _ _ Hi) as Hlt.
    rewrite length_app in Hlt. cbn in Hlt. destruct (Hstk i ltac:(lia)) as (? & ? & _). rewrite Hm4 by (done || apply Hst8).
    by apply D4. }
  destruct (Hstk (length l) ltac:(lia)) as (_ & Htop & _).
  exists (<[stack_word c (length l) := tag type t]> m4), g'. split_and!.
  - apply (clone_run g' m3 Hst Hr Hty Ho Ho16 (conj Hsize Hs8) E2 E3 Hw Hht Hhc Hst4 Hkt).
  - apply (replaced_top m4 (with_gc v g') c l value). destruct Hst4. by split.
  - rewrite lookup_insert_ne by lia. apply lookup_insert_eq.
  - intros i Hi. rewrite <- L3 by done. transitivity (load_byte m4 (t + i)); unfold load_byte, load.
    + specialize (Hst8 (length l)). rewrite lookup_insert_ne; [done|]. unfold word_address. dlia.
    + unfold m4. rewrite lookup_insert_ne; [done|]. unfold word_address. dlia.
  - intros x Hx8 Hx Hxk Hxs. rewrite lookup_insert_ne by done. by apply Hm4.
Qed.
End clone.

(** ** An example: a wrapper with an identity hashcode *)

Definition wrapper_header : Z := set_hashcode (initialize WRAPPER_TYPE) 77.

Definition clone_memory : memory :=
  <[12288 := wrapper_header]> (<[12296 := tag_fixnum 5]> (stack_memory [tag WRAPPER_TYPE 12288])) ∪
    zeroed_region 98304 1 ∪ zeroed_region 2621456 2.

Lemma primitive_clone_spec_witness :
  ∃ m' g', @primitive_clone sample_linkage no_memory (clone_memory, example_vm 1) = Done (m', with_gc (example_vm 1) g') () ∧
    data_stack m' (with_gc (example_vm 1) g') (small_context 1) [tag WRAPPER_TYPE 2621456] ∧
    m' !! 2621456 = Some (initialize WRAPPER_TYPE).
Proof.
  destruct (@primitive_clone_spec sample_linkage no_memory clone_memory (example_vm 1) (small_context 1) []
    WRAPPER_TYPE 12288 wrapper_header 16) as (m' & g' & E & Hst & Hh & _).
  - split; [vm_compute; reflexivity|vm_compute; reflexivity|apply small_stack_fits; cbn; lia|].
    intros [|i] x Hx; [|destruct i; discriminate Hx]. injection Hx as <-. vm_compute. reflexivity.
  - unfold clone_memory. apply example_ready; [| |lia|lia].
    + intros a Ha H8. apply lookup_union_is_Some. right. apply (mapped_zeroed_region 2621456); [reflexivity|lia|exact H8].
    + intros i Hi. assert (i = 0%nat) as -> by lia. apply lookup_union_is_Some. left. apply lookup_union_is_Some. right.
      apply (mapped_zeroed_region 98304); [reflexivity|lia|reflexivity].
  - split.
    + vm_compute. split; reflexivity.
    + vm_compute. split; [split; [discriminate|reflexivity]|reflexivity].
    + split; [vm_compute; reflexivity|]. split; [vm_compute; split; [discriminate|reflexivity]|reflexivity].
    + split; [vm_compute; reflexivity|lia].
    + intros a Ha H8. assert (a = 12288 ∨ a = 12296) as [->| ->] by dlia; vm_compute; eauto.
    + left. vm_compute. discriminate.
    + vm_compute. split; [reflexivity|]. right. discriminate.
    + intros i Hi. destruct i; [|cbn in Hi; lia]. vm_compute. split; [discriminate|]. split; left; reflexivity.
  - exists m', g'. split; [exact E|]. split; [exact Hst|]. exact Hh.
Defined.
