(* ===== verification/Jit.v ===== *)
(** The code generator: vm/jit.cpp, with the growable vectors in memory that it
    is made of (vm/arrays.cpp and vm/byte_arrays.cpp).

    A growable vector is a count and the handle of a data root; [with_jit] is
    the scope of a [jit], whose data roots and count of jits it gives back at
    the end.  The operations take the fields of the [jit] and return them
    changed. *)

From S2P Require Import Prelude.
From S2P Require Import Layouts.
From S2P Require Import Memory.
From S2P Require Import Bytes.
From S2P Require Import Effects.
From S2P Require Import InstructionOperands.
From S2P Require Import Objects.
From S2P Require Import CodeBlocks.
From S2P Require Import Relocation.
From S2P Require Import Callbacks.
From S2P Require Import SlotVisitor.
From S2P Require Import GC.
From S2P Require Import VM.
From S2P Require Import Room.
From S2P Require Import HeapArrays.
Local Open Scope Z_scope.
Local Open Scope cell_scope.

(** * Growable vectors in memory *)

(** src/vm/arrays.hpp:17-30 [growable_array] (part), and
    src/vm/byte_arrays.hpp [growable_byte_array]: the fields. *)
Record growable := mk_growable_at { g_count : Z; g_elements : Z }.

Definition with_count (g : growable) (n : Z) : growable := mk_growable_at n (g_elements g).

Section growables.
Context `{!linkage, !os_memory}.

(** src/vm/arrays.hpp:22-24 [growable_array::growable_array]: with its scope. *)
Definition with_growable_array {A} (capacity : Z) (body : growable → eff vm A) : eff vm A :=
  a ← vm_allot_filled_array capacity false_object;
  rooted (tag ARRAY_TYPE a) (λ h, body (mk_growable_at 0 h)).

(** src/vm/byte_arrays.hpp:8-9 [growable_byte_array::growable_byte_array]:
    with its scope. *)
Definition with_growable_byte_array {A} (capacity : Z) (body : growable → eff vm A) : eff vm A :=
  a ← vm_allot_byte_array capacity;
  rooted (tag BYTE_ARRAY_TYPE a) (λ h, body (mk_growable_at 0 h)).

Definition set_elements (type : Z) (g : growable) (a : Z) : eff vm () :=
  writes (λ m, store m (g_elements g) (tag type a)).

(** The capacity of the array of a vector. *)
Definition growable_capacity (type : Z) (g : growable) : eff vm Z :=
  a ← root_untagged type (g_elements g);
  reads (λ m, array_capacity type m a).

(** src/vm/arrays.cpp:61-65 [growable_array::reallot_array] *)
Definition reallot_elements (g : growable) (count : Z) : eff vm () :=
  a_old ← root_untagged ARRAY_TYPE (g_elements g);
  a_new ← vm_reallot_array ARRAY_TYPE sizeof_array 8 a_old count;
  set_elements ARRAY_TYPE g a_new.

(** src/vm/arrays.cpp:68-75 [growable_array::add] *)
Definition vm_growable_add (g : growable) (elt_ : Z) : eff vm growable :=
  rooted elt_ (λ elt,
    capacity ← growable_capacity ARRAY_TYPE g;
    _ ← (if g_count g =? capacity then reallot_elements g (2 *& g_count g) else mret ());
    a ← root_untagged ARRAY_TYPE (g_elements g);
    value ← root_value TYPE_COUNT elt;
    _ ← vm_set_array_nth a (g_count g) value;
    mret (with_count g (g_count g +& 1))).

(** src/vm/arrays.cpp:86-88 [growable_array::append] (part): The loop. *)
Fixpoint append_elements (g : growable) (elts : Z) (indices : list Z) : eff vm growable :=
  match indices with
  | [] => mret g
  | index :: indices =>
      e ← root_untagged ARRAY_TYPE elts;
      value ← reads (λ m, heap_array_nth m e index);
      a ← root_untagged ARRAY_TYPE (g_elements g);
      _ ← vm_set_array_nth a (g_count g) value;
      append_elements (with_count g (g_count g +& 1)) elts indices
  end.

(** src/vm/arrays.cpp:78-89 [growable_array::append] *)
Definition vm_growable_append (g : growable) (elts_ : Z) : eff vm growable :=
  rooted (tag ARRAY_TYPE elts_) (λ elts,
    e ← root_untagged ARRAY_TYPE elts;
    capacity ← reads (λ m, array_capacity ARRAY_TYPE m e);
    n ← growable_capacity ARRAY_TYPE g;
    _ ← (if n <? (g_count g +& capacity) then reallot_elements g (2 *& (g_count g +& capacity)) else mret ());
    append_elements g elts (seqZ 0 capacity)).

(** src/vm/arrays.cpp:92-94 [growable_array::trim] *)
Definition vm_growable_trim (g : growable) : eff vm () := reallot_elements g (g_count g).

(** src/vm/byte_arrays.cpp:33-37 [growable_byte_array::reallot_array] *)
Definition reallot_bytes (g : growable) (count : Z) : eff vm () :=
  ba_old ← root_untagged BYTE_ARRAY_TYPE (g_elements g);
  ba_new ← vm_reallot_array BYTE_ARRAY_TYPE sizeof_byte_array 1 ba_old count;
  set_elements BYTE_ARRAY_TYPE g ba_new.

(** src/vm/byte_arrays.cpp:40-45 [growable_byte_array::grow_bytes] *)
Definition vm_grow_bytes (g : growable) (len : Z) : eff vm growable :=
  let g := with_count g (g_count g +& len) in
  n ← growable_capacity BYTE_ARRAY_TYPE g;
  _ ← (if n <=? g_count g then reallot_bytes g (2 *& g_count g) else mret ());
  mret g.

(** src/vm/byte_arrays.cpp:48-52 [growable_byte_array::append_bytes]: of a
    local variable of [len] bytes that holds [value]. *)
Definition vm_append_bytes (g : growable) (value : Z) (len : nat) : eff vm growable :=
  let old_count := g_count g in
  g ← vm_grow_bytes g (Z.of_nat len);
  a ← root_untagged BYTE_ARRAY_TYPE (g_elements g);
  _ ← writes (λ m, store_bytes len m ((a +& sizeof_byte_array) +& old_count) value);
  mret g.

(** src/vm/byte_arrays.cpp:55-67 [growable_byte_array::append_byte_array] *)
Definition vm_append_byte_array (g : growable) (byte_array_ : Z) : eff vm growable :=
  rooted byte_array_ (λ h,
    b ← root_untagged BYTE_ARRAY_TYPE h;
    len ← reads (λ m, array_capacity BYTE_ARRAY_TYPE m b);
    let new_size := g_count g +& len in
    n ← growable_capacity BYTE_ARRAY_TYPE g;
    _ ← (if n <=? new_size then reallot_bytes g (2 *& new_size) else mret ());
    a ← root_untagged BYTE_ARRAY_TYPE (g_elements g);
    b ← root_untagged BYTE_ARRAY_TYPE h;
    _ ← writes (λ m, copy_bytes m ((a +& sizeof_byte_array) +& g_count g) (b +& sizeof_byte_array) (Z.to_nat len));
    mret (with_count g (g_count g +& len))).

(** src/vm/byte_arrays.cpp:70-72 [growable_byte_array::trim] *)
Definition vm_trim_bytes (g : growable) : eff vm () := reallot_bytes g (g_count g).
End growables.

(** * The code generator *)

(** src/vm/jit.hpp:3-12 [jit] (part) *)
Record jit := mk_jit {
  jit_owner : Z;
  jit_code : growable;
  jit_relocation : growable;
  jit_parameters : growable;
  jit_literals : growable;
  computing_offset_p : bool;
  position : Z;
  offset : Z
}.

Definition with_jit_code (j : jit) (g : growable) : jit :=
  mk_jit (jit_owner j) g (jit_relocation j) (jit_parameters j) (jit_literals j)
    (computing_offset_p j) (position j) (offset j).
Definition with_jit_relocation (j : jit) (g : growable) : jit :=
  mk_jit (jit_owner j) (jit_code j) g (jit_parameters j) (jit_literals j)
    (computing_offset_p j) (position j) (offset j).
Definition with_jit_parameters (j : jit) (g : growable) : jit :=
  mk_jit (jit_owner j) (jit_code j) (jit_relocation j) g (jit_literals j)
    (computing_offset_p j) (position j) (offset j).
Definition with_jit_literals (j : jit) (g : growable) : jit :=
  mk_jit (jit_owner j) (jit_code j) (jit_relocation j) (jit_parameters j) g
    (computing_offset_p j) (position j) (offset j).
Definition with_scan (j : jit) (computing : bool) (p o : Z) : jit :=
  mk_jit (jit_owner j) (jit_code j) (jit_relocation j) (jit_parameters j) (jit_literals j) computing p o.

(** src/vm/jit.cpp:110-114 [jit::compute_position] *)
Definition compute_position (j : jit) (offset_ : Z) : jit := with_scan j true 0 offset_.

(** src/vm/jit.hpp:39-46 [jit::get_position] *)
Definition get_position (j : jit) : Z := if computing_offset_p j then -1 else position j.

(** src/vm/jit.hpp:48-51 [jit::set_position] *)
Definition set_position (j : jit) (position_ : Z) : jit :=
  if computing_offset_p j then with_scan j true position_ (offset j) else j.

(** src/vm/jit.cpp:55-66 [jit::emit] (part): What a template of [size] bytes
    does to the search for an offset. *)
Definition advance (j : jit) (size : Z) : jit :=
  if computing_offset_p j then
    if offset j =? 0 then with_scan j false (s64 (position j - 1)) (offset j)
    else if offset j <? size then with_scan j false (s64 (position j + 1)) (offset j)
    else with_scan j true (position j) (offset j -& size)
  else j.

(** src/vm/objects.hpp:36-55 [special_object] (part) *)
Definition JIT_PROLOG : Z := 23.
Definition JIT_PRIMITIVE_WORD : Z := 24.
Definition JIT_PRIMITIVE : Z := 25.
Definition JIT_WORD_JUMP : Z := 26.
Definition JIT_WORD_CALL : Z := 27.
Definition JIT_IF_WORD : Z := 28.
Definition JIT_IF : Z := 29.
Definition JIT_SAFEPOINT : Z := 30.
Definition JIT_EPILOG : Z := 31.
Definition JIT_RETURN : Z := 32.
Definition JIT_PUSH_LITERAL : Z := 34.
Definition JIT_DIP_WORD : Z := 35.
Definition JIT_DIP : Z := 36.
Definition JIT_2DIP_WORD : Z := 37.
Definition JIT_2DIP : Z := 38.
Definition JIT_3DIP_WORD : Z := 39.
Definition JIT_3DIP : Z := 40.
Definition JIT_EXECUTE : Z := 41.
Definition JIT_DECLARE_WORD : Z := 42.

(** The field [subprimitive] of a word. *)
Definition word_subprimitive : Z := 64.

(** An element of the array in a handle. *)
Definition root_nth (h i : Z) : eff vm Z :=
  a ← root_untagged ARRAY_TYPE h;
  reads (λ m, heap_array_nth m a i).

Section jit.
Context `{!linkage, !os_memory}.

(** The counter [current_jit_count]. *)
Definition count_jit (least change_by : Z) : eff vm () :=
  t ← ask tally;
  _ ← reads (λ _, check (least <=? current_jit_count t));
  change (λ v, with_tally v (mk_counters (s64 (current_jit_count t + change_by)) (dispatch_stats t))).

(** src/vm/jit.cpp:12-31 [jit::jit]: and [jit::~jit], the scope of a [jit]. *)
Definition with_jit {A} (owner : Z) (body : jit → eff vm A) : eff vm A :=
  rooted owner (λ o,
    with_growable_byte_array 40 (λ code,
      with_growable_byte_array 40 (λ relocation,
        with_growable_array 10 (λ parameters,
          with_growable_array 10 (λ literals,
            _ ← count_jit 0 1;
            a ← body (mk_jit o code relocation parameters literals false 0 0);
            _ ← count_jit 1 (-1);
            mret a))))).

(** src/vm/jit.cpp:40-42 [jit::emit_relocation] (part): The entry of a template
    for the place the template is copied to. *)
Definition moved_entry (entry count : Z) : result Z :=
  match rel_type entry, klass entry with
  | Some t, Some c => Ok (relocation_entry t c (rel_offset entry +& count))
  | _, _ => Err BAD_ACCESS
  end.

(** src/vm/jit.cpp:39-44 [jit::emit_relocation] (part): The loop. *)
Fixpoint emit_entries (j : jit) (relocations : Z) (indices : list Z) : eff vm jit :=
  match indices with
  | [] => mret j
  | i :: indices =>
      new_entry ← reads (λ m, entry ← load_bytes 4 m (relocations +& (4 *& i));
                              moved_entry entry (g_count (jit_code j)));
      g ← vm_append_bytes (jit_relocation j) new_entry 4;
      emit_entries (with_jit_relocation j g) relocations indices
  end.

(** src/vm/jit.cpp:34-45 [jit::emit_relocation]: [relocations] is a pointer into
    the template, computed once. *)
Definition emit_relocation (j : jit) (relocation_template_ : Z) : eff vm jit :=
  rooted relocation_template_ (λ relocation_template,
    t ← root_untagged BYTE_ARRAY_TYPE relocation_template;
    n ← reads (λ m, array_capacity BYTE_ARRAY_TYPE m t);
    let capacity := n / 4 in
    let relocations := t +& sizeof_byte_array in
    emit_entries j relocations (seqZ 0 capacity)).

(** src/vm/jit.cpp:48-69 [jit::emit] *)
Definition emit (j : jit) (code_template_ : Z) : eff vm jit :=
  rooted code_template_ (λ code_template,
    relocation_template ← root_nth code_template 0;
    j ← emit_relocation j relocation_template;
    insns_ ← root_nth code_template 1;
    rooted insns_ (λ insns,
      b ← root_untagged BYTE_ARRAY_TYPE insns;
      size ← reads (λ m, array_capacity BYTE_ARRAY_TYPE m b);
      let j := advance j size in
      value ← root_value BYTE_ARRAY_TYPE insns;
      g ← vm_append_byte_array (jit_code j) value;
      mret (with_jit_code j g))).

(** src/vm/jit.hpp:23-23 [jit::parameter] *)
Definition parameter (j : jit) (value : Z) : eff vm jit :=
  g ← vm_growable_add (jit_parameters j) value;
  mret (with_jit_parameters j g).

(** src/vm/jit.hpp:28-28 [jit::literal] *)
Definition literal (j : jit) (value : Z) : eff vm jit :=
  g ← vm_growable_add (jit_literals j) value;
  mret (with_jit_literals j g).

(** src/vm/jit.cpp:72-77 [jit::emit_with_literal] *)
Definition emit_with_literal (j : jit) (code_template_ argument_ : Z) : eff vm jit :=
  rooted code_template_ (λ code_template, rooted argument_ (λ argument,
    value ← root_value TYPE_COUNT argument;
    j ← literal j value;
    template ← root_value ARRAY_TYPE code_template;
    emit j template)).

(** src/vm/jit.cpp:80-85 [jit::emit_with_parameter] *)
Definition emit_with_parameter (j : jit) (code_template_ argument_ : Z) : eff vm jit :=
  rooted code_template_ (λ code_template, rooted argument_ (λ argument,
    value ← root_value TYPE_COUNT argument;
    j ← parameter j value;
    template ← root_value ARRAY_TYPE code_template;
    emit j template)).

(** [emit(parent->special_objects[i])] *)
Definition emit_special (j : jit) (i : Z) : eff vm jit := template ← vm_special i; emit j template.

(** src/vm/jit.hpp:33-35 [jit::push] *)
Definition push (j : jit) (value : Z) : eff vm jit :=
  template ← vm_special JIT_PUSH_LITERAL;
  emit_with_literal j template value.

(** src/vm/jit.cpp:88-105 [jit::emit_subprimitive] *)
Definition emit_subprimitive (j : jit) (word_ : Z) (tail_call_p stack_frame_p : bool) : eff vm (jit * bool) :=
  rooted word_ (λ word,
    w ← root_untagged WORD_TYPE word;
    template ← reads (λ m, field m w word_subprimitive);
    rooted template (λ code_template,
      v ← root_nth code_template 0;
      elts ← reads (λ _, untag ARRAY_TYPE v);
      g ← vm_growable_append (jit_parameters j) elts;
      let j := with_jit_parameters j g in
      v ← root_nth code_template 1;
      elts ← reads (λ _, untag ARRAY_TYPE v);
      g ← vm_growable_append (jit_literals j) elts;
      let j := with_jit_literals j g in
      v ← root_nth code_template 2;
      j ← emit j v;
      a ← root_untagged ARRAY_TYPE code_template;
      n ← reads (λ m, array_capacity ARRAY_TYPE m a);
      if n =? 5 then
        if tail_call_p then
          j ← (if stack_frame_p then emit_special j JIT_EPILOG else mret j);
          v ← root_nth code_template 4;
          j ← emit j v;
          mret (j, true)
        else
          v ← root_nth code_template 3;
          j ← emit j v;
          mret (j, false)
      else mret (j, false))).

(** src/vm/jit.cpp:117-132 [jit::to_code_block]: [add_code_block] makes data
    roots of its arguments. *)
Definition to_code_block (j : jit) (type : code_block_type) (frame_size : Z) : eff vm Z :=
  code ← vm_grow_bytes (jit_code j) (alignment_for (g_count (jit_code j) +& 4) data_alignment);
  code ← vm_append_bytes code 0 4;
  _ ← vm_trim_bytes code;
  _ ← vm_trim_bytes (jit_relocation j);
  _ ← vm_growable_trim (jit_parameters j);
  _ ← vm_growable_trim (jit_literals j);
  c ← root_value BYTE_ARRAY_TYPE (g_elements code);
  o ← root_value TYPE_COUNT (jit_owner j);
  r ← root_value BYTE_ARRAY_TYPE (g_elements (jit_relocation j));
  p ← root_value ARRAY_TYPE (g_elements (jit_parameters j));
  l ← root_value ARRAY_TYPE (g_elements (jit_literals j));
  rooted c (λ c, rooted false_object (λ labels, rooted o (λ o, rooted r (λ r, rooted p (λ p, rooted l (λ l,
    with_heaps (λ parent, add_code_block parent type (mk_code_block_roots c labels o r p l) frame_size))))))).
End jit.
