(* ===== verification/Quotations.v ===== *)
(** The compiler of quotations and words: vm/quotations.cpp and vm/words.cpp,
    for x86-64.

    Compiling a quotation compiles the quotations in it, so the definitions
    take the number of nested calls that the stack of C has room for; with none
    left the call faults. *)

From S2P Require Import Prelude.
From S2P Require Import Layouts.
From S2P Require Import Memory.
From S2P Require Import Bytes.
From S2P Require Import Effects.
From S2P Require Import DataHeap.
From S2P Require Import Objects.
From S2P Require Import CodeBlocks.
From S2P Require Import Relocation.
From S2P Require Import SlotVisitor.
From S2P Require Import GC.
From S2P Require Import VM.
From S2P Require Import Room.
From S2P Require Import HeapArrays.
From S2P Require Import Jit.
Local Open Scope Z_scope.
Local Open Scope cell_scope.

(** src/vm/objects.hpp:61-65 [special_object] (part) *)
Definition UNWIND_NATIVE_FRAMES_WORD : Z := 45.
Definition SIGNAL_HANDLER_WORD : Z := 48.
Definition LEAF_SIGNAL_HANDLER_WORD : Z := 49.
(** src/vm/objects.hpp:80-94 [special_object] (part) *)
Definition PIC_LOAD : Z := 54.
Definition MEGA_LOOKUP : Z := 62.
Definition MEGA_LOOKUP_WORD : Z := 63.
Definition MEGA_MISS_WORD : Z := 64.
Definition OBJ_UNDEFINED : Z := 65.

(** src/vm/os-linux-x86.64.hpp:29-29 [JIT_FRAME_SIZE] *)
Definition JIT_FRAME_SIZE : Z := 32.
(** src/vm/cpu-x86.64.hpp:7-7 [SIGNAL_HANDLER_STACK_FRAME_SIZE] *)
Definition SIGNAL_HANDLER_STACK_FRAME_SIZE : Z := 192.

(** The code heap of the vm. *)
Definition on_code {A} (c : barrier → eff code_heap A) : eff vm A := λ s,
  let g := vm_gc s.2 in
  match c (gc_barrier g) (s.1, code (collection g)) with
  | Done s' a => Done (s'.1, with_gc s.2 (with_collection g (with_code (collection g) s'.2))) a
  | Again s' => Again (s'.1, with_gc s.2 (with_collection g (with_code (collection g) s'.2)))
  | Fatal e => Fatal e
  end.

Section quotations.
Context `{!linkage, !os_memory}.

(** * What the compiler recognizes *)

Section elements.
(** The handle of [elements]. *)
Context (elements : Z).

(** src/vm/quotations.cpp:41-43 [quotation_jit::nth] *)
Definition nth (index : Z) : eff vm Z := root_nth elements index.

(** The element after the first one is [special_objects[word]]. *)
Definition followed_by (word i length : Z) : eff vm bool :=
  w ← vm_special word;
  if (i +& 2) <=? length then x ← nth (i +& 1); mret (x =? w) else mret false.

(** src/vm/quotations.cpp:49-53 [quotation_jit::fast_if_p] *)
Definition fast_if_p (i length : Z) : eff vm bool :=
  if (i +& 3) =? length then
    x ← nth (i +& 1);
    if TAG x =? QUOTATION_TYPE then
      y ← nth (i +& 2);
      w ← vm_special JIT_IF_WORD;
      mret (y =? w)
    else mret false
  else mret false.

(** src/vm/quotations.cpp:55-58 [quotation_jit::primitive_call_p] *)
Definition primitive_call_p : Z → Z → eff vm bool := followed_by JIT_PRIMITIVE_WORD.
(** src/vm/quotations.cpp:60-63 [quotation_jit::fast_dip_p] *)
Definition fast_dip_p : Z → Z → eff vm bool := followed_by JIT_DIP_WORD.
(** src/vm/quotations.cpp:65-68 [quotation_jit::fast_2dip_p] *)
Definition fast_2dip_p : Z → Z → eff vm bool := followed_by JIT_2DIP_WORD.
(** src/vm/quotations.cpp:70-73 [quotation_jit::fast_3dip_p] *)
Definition fast_3dip_p : Z → Z → eff vm bool := followed_by JIT_3DIP_WORD.
(** src/vm/quotations.cpp:75-78 [quotation_jit::declare_p] *)
Definition declare_p : Z → Z → eff vm bool := followed_by JIT_DECLARE_WORD.

(** src/vm/quotations.cpp:80-85 [quotation_jit::mega_lookup_p] *)
Definition mega_lookup_p (i length : Z) : eff vm bool :=
  if (i +& 4) <=? length then
    x ← nth (i +& 1);
    if TAG x =? FIXNUM_TYPE then
      y ← nth (i +& 2);
      if TAG y =? ARRAY_TYPE then
        z ← nth (i +& 3);
        w ← vm_special MEGA_LOOKUP_WORD;
        mret (z =? w)
      else mret false
    else mret false
  else mret false.

(** src/vm/quotations.cpp:89-93 [quotation_jit::special_subprimitive_p] *)
Definition special_subprimitive_p (obj : Z) : eff vm bool :=
  a ← vm_special SIGNAL_HANDLER_WORD;
  b ← vm_special LEAF_SIGNAL_HANDLER_WORD;
  c ← vm_special UNWIND_NATIVE_FRAMES_WORD;
  mret ((obj =? a) || (obj =? b) || (obj =? c)).

(** src/vm/quotations.cpp:100-106 [quotation_jit::stack_frame_p] (part): The
    loop. *)
Fixpoint frame_wanted (length : Z) (indices : list Z) : eff vm bool :=
  match indices with
  | [] => mret true
  | i :: indices =>
      obj ← nth i;
      special ← (if TAG obj =? WORD_TYPE then special_subprimitive_p obj else mret false);
      mega ← (if TAG obj =? ARRAY_TYPE then mega_lookup_p i length else mret false);
      if special || mega then mret false else frame_wanted length indices
  end.

(** src/vm/quotations.cpp:98-108 [quotation_jit::stack_frame_p] *)
Definition stack_frame_p : eff vm bool :=
  length ← growable_capacity ARRAY_TYPE (mk_growable_at 0 elements);
  frame_wanted length (seqZ 0 length).

(** src/vm/quotations.cpp:110-113 [trivial_quotation_p] *)
Definition trivial_quotation_p (m : memory) (elements : Z) : result bool :=
  n ← array_capacity ARRAY_TYPE m elements;
  if n =? 1 then x ← heap_array_nth m elements 0; Ok (TAG x =? WORD_TYPE) else Ok false.

(** * Emitting *)

(** src/vm/quotations.hpp:35-37 [quotation_jit::word_call] *)
Definition word_call (j : jit) (word : Z) : eff vm jit :=
  template ← vm_special JIT_WORD_CALL;
  emit_with_literal j template word.

(** src/vm/quotations.hpp:40-47 [quotation_jit::word_jump] *)
Definition word_jump (j : jit) (word_ : Z) : eff vm jit :=
  rooted word_ (λ word,
    w ← root_value WORD_TYPE word;
    j ← literal j w;
    emit_special j JIT_WORD_JUMP).

(** src/vm/quotations.cpp:116-121 [quotation_jit::emit_epilog] *)
Definition emit_epilog (j : jit) (needed : bool) : eff vm jit :=
  if needed then
    j ← emit_special j JIT_SAFEPOINT;
    emit_special j JIT_EPILOG
  else mret j.

(** src/vm/quotations.cpp:257-282 [quotation_jit::emit_mega_cache_lookup] *)
Definition emit_mega_cache_lookup (j : jit) (methods_ index cache_ : Z) : eff vm jit :=
  rooted methods_ (λ methods, rooted cache_ (λ cache,
    template ← vm_special PIC_LOAD;
    j ← emit_with_literal j template (tag_fixnum (u64 (- index) *& 8));
    template ← vm_special MEGA_LOOKUP;
    c ← root_value ARRAY_TYPE cache;
    j ← emit_with_literal j template c;
    j ← emit_special j JIT_PROLOG;
    m ← root_value ARRAY_TYPE methods;
    j ← push j m;
    j ← push j (tag_fixnum index);
    c ← root_value ARRAY_TYPE cache;
    j ← push j c;
    w ← vm_special MEGA_MISS_WORD;
    j ← word_call j w;
    j ← emit_special j JIT_EPILOG;
    emit_special j JIT_EXECUTE)).

(** ** Quotations in quotations *)

(** [jit_compile_quotation] of the vm, and the fields of [quotation_jit]. *)
Context (compile : Z → bool → eff vm ()) (compiling relocate : bool).

(** src/vm/quotations.cpp:124-138 [quotation_jit::emit_quotation] *)
Definition emit_quotation (j : jit) (quot_ : Z) : eff vm jit :=
  rooted quot_ (λ quot,
    q ← root_untagged QUOTATION_TYPE quot;
    v ← reads (λ m, field m q quotation_array);
    a ← reads (λ _, untag ARRAY_TYPE v);
    trivial ← reads (λ m, trivial_quotation_p m a);
    if (trivial : bool) then
      w ← reads (λ m, heap_array_nth m a 0);
      literal j w
    else
      _ ← (if compiling then q ← root_value QUOTATION_TYPE quot; compile q relocate else mret ());
      q ← root_value QUOTATION_TYPE quot;
      literal j q).

(** The element [i], in the handle [obj], with the next index and whether the
    code ends in a tail call. *)
Definition emitted : Type := jit * Z * bool.

(** src/vm/quotations.cpp:159-172 [quotation_jit::iterate_quotation] (part):
    [case WORD_TYPE]. *)
Definition emit_word (j : jit) (stack_frame : bool) (obj i length : Z) (tail_call : bool) : eff vm emitted :=
  w ← root_untagged WORD_TYPE obj;
  sub ← reads (λ m, field m w word_subprimitive);
  value ← root_value TYPE_COUNT obj;
  if to_boolean sub then
    '(j, tail_call) ← emit_subprimitive j value (i =? (length -& 1)) stack_frame;
    mret (j, i, tail_call)
  else if i =? (length -& 1) then
    j ← emit_epilog j stack_frame;
    value ← root_value TYPE_COUNT obj;
    j ← word_jump j value;
    mret (j, i, true)
  else
    j ← word_call j value;
    mret (j, i, tail_call).

(** src/vm/quotations.cpp:176-196 [quotation_jit::iterate_quotation] (part):
    [case BYTE_ARRAY_TYPE]. *)
Definition emit_primitive (j : jit) (obj i length : Z) (tail_call : bool) : eff vm emitted :=
  call ← primitive_call_p i length;
  value ← root_value TYPE_COUNT obj;
  if (call : bool) then
    j ← parameter j value;
    j ← parameter j false_object;
    j ← emit_special j JIT_PRIMITIVE;
    mret (j, i +& 1, tail_call)
  else
    j ← push j value;
    mret (j, i, tail_call).

(** A quotation before [dip], [2dip] or [3dip]. *)
Definition emit_dip (j : jit) (template obj i : Z) (tail_call : bool) : eff vm emitted :=
  value ← root_value TYPE_COUNT obj;
  j ← emit_quotation j value;
  j ← emit_special j template;
  mret (j, i +& 1, tail_call).

(** src/vm/quotations.cpp:197-224 [quotation_jit::iterate_quotation] (part):
    [case QUOTATION_TYPE]. *)
Definition emit_combinator (j : jit) (stack_frame : bool) (obj i length : Z) (tail_call : bool) : eff vm emitted :=
  fast_if ← fast_if_p i length;
  if (fast_if : bool) then
    j ← emit_epilog j stack_frame;
    q ← nth i;
    j ← emit_quotation j q;
    q ← nth (i +& 1);
    j ← emit_quotation j q;
    j ← emit_special j JIT_IF;
    mret (j, i +& 2, true)
  else
    dip ← fast_dip_p i length;
    if (dip : bool) then emit_dip j JIT_DIP obj i tail_call
    else
      dip2 ← fast_2dip_p i length;
      if (dip2 : bool) then emit_dip j JIT_2DIP obj i tail_call
      else
        dip3 ← fast_3dip_p i length;
        if (dip3 : bool) then emit_dip j JIT_3DIP obj i tail_call
        else
          value ← root_value TYPE_COUNT obj;
          j ← push j value;
          mret (j, i, tail_call).

(** src/vm/quotations.cpp:225-236 [quotation_jit::iterate_quotation] (part):
    [case ARRAY_TYPE]. *)
Definition emit_array (j : jit) (obj i length : Z) (tail_call : bool) : eff vm emitted :=
  mega ← mega_lookup_p i length;
  if (mega : bool) then
    methods ← nth i;
    w ← nth (i +& 1);
    index ← fixnum_of w;
    cache ← nth (i +& 2);
    j ← emit_mega_cache_lookup j methods index cache;
    mret (j, i +& 3, true)
  else
    declare ← declare_p i length;
    if (declare : bool) then mret (j, i +& 1, tail_call)
    else
      value ← root_value TYPE_COUNT obj;
      j ← push j value;
      mret (j, i, tail_call).

(** src/vm/quotations.cpp:158-240 [quotation_jit::iterate_quotation] (part):
    The switch. *)
Definition emit_element (j : jit) (stack_frame : bool) (obj i length : Z) (tail_call : bool) : eff vm emitted :=
  value ← root_value TYPE_COUNT obj;
  if TAG value =? WORD_TYPE then emit_word j stack_frame obj i length tail_call
  else if TAG value =? WRAPPER_TYPE then
    w ← root_untagged WRAPPER_TYPE obj;
    x ← reads (λ m, field m w wrapper_object);
    j ← push j x;
    mret (j, i, tail_call)
  else if TAG value =? BYTE_ARRAY_TYPE then emit_primitive j obj i length tail_call
  else if TAG value =? QUOTATION_TYPE then emit_combinator j stack_frame obj i length tail_call
  else if TAG value =? ARRAY_TYPE then emit_array j obj i length tail_call
  else
    j ← push j value;
    mret (j, i, tail_call).

(** src/vm/quotations.cpp:154-241 [quotation_jit::iterate_quotation] (part):
    One turn of the loop. *)
Definition iterate_body (stack_frame : bool) (length : Z) (st : emitted) : eff vm (emitted + jit * bool) :=
  let '(j, i, tail_call) := st in
  if i <? length then
    let j := set_position j i in
    v ← nth i;
    '(j, i, tail_call) ← rooted v (λ obj, emit_element j stack_frame obj i length tail_call);
    mret (inl (j, i +& 1, tail_call))
  else mret (inr (j, tail_call)).

(** src/vm/quotations.cpp:141-248 [quotation_jit::iterate_quotation] *)
Definition iterate_quotation (j : jit) : eff vm jit :=
  stack_frame ← stack_frame_p;
  let j := set_position j 0 in
  j ← (if (stack_frame : bool) then
         j ← emit_special j JIT_SAFEPOINT;
         emit_special j JIT_PROLOG
       else mret j);
  length ← growable_capacity ARRAY_TYPE (mk_growable_at 0 elements);
  '(j, tail_call) ← loop (iterate_body stack_frame length) (j, 0, false);
  if (tail_call : bool) then mret j
  else
    let j := set_position j length in
    j ← emit_epilog j stack_frame;
    emit_special j JIT_RETURN.
End elements.

(** src/vm/quotations.cpp:250-254 [quotation_jit::word_stack_frame_size] *)
Definition word_stack_frame_size (obj : Z) : eff vm Z :=
  special ← special_subprimitive_p obj;
  mret (if (special : bool) then SIGNAL_HANDLER_STACK_FRAME_SIZE else JIT_FRAME_SIZE).

(** src/vm/quotations.cpp:45-47 [quotation_jit::init_quotation]: and
    src/vm/quotations.hpp:8-12 [quotation_jit::quotation_jit], the scope of a
    [quotation_jit], whose elements are those of the quotation in the handle
    [quot]. *)
Definition with_quotation_jit {A} (owner quot : Z) (body : jit → Z → eff vm A) : eff vm A :=
  with_jit owner (λ j,
    rooted false_object (λ elements,
      q ← root_untagged QUOTATION_TYPE quot;
      _ ← writes (λ m, a ← field m q quotation_array; store m elements a);
      body j elements)).

(** * Compiling *)

Section compile.
(** The function that compiles the quotations inside. *)
Context (compile : Z → bool → eff vm ()).

(** src/vm/quotations.cpp:285-302 [jit_compile_quotation]: the frame size is
    that for the argument [owner_], not for the data root. *)
Definition compile_code_block (owner_ quot_ : Z) (relocating : bool) : eff vm Z :=
  rooted owner_ (λ owner, rooted quot_ (λ quot,
    o ← root_value TYPE_COUNT owner;
    with_quotation_jit o quot (λ j elements,
      j ← iterate_quotation elements compile true relocating j;
      frame_size ← word_stack_frame_size owner_;
      compiled ← to_code_block j CODE_BLOCK_UNOPTIMIZED frame_size;
      _ ← (if relocating then on_code (λ b, initialize_code_block b compiled) else mret ());
      mret compiled))).
End compile.

(** src/vm/quotations.cpp:305-312 [jit_compile_quotation]: with [depth] nested
    calls. *)
Fixpoint jit_compile_quotation (depth : nat) (quot_ : Z) (relocating : bool) : eff vm () :=
  match depth with
  | 0%nat => raise BAD_ACCESS
  | S depth =>
      rooted quot_ (λ quot,
        q ← root_untagged QUOTATION_TYPE quot;
        done ← reads (λ m, quotation_compiled_p m q);
        if (done : bool) then mret ()
        else
          q ← root_value QUOTATION_TYPE quot;
          compiled ← compile_code_block (jit_compile_quotation depth) q q relocating;
          q ← root_untagged QUOTATION_TYPE quot;
          writes (λ m, put_field m q quotation_entry_point (entry_point compiled)))
  end.

(** The fields of [word] and [quotation] that are not used elsewhere. *)
Definition word_hashcode : Z := 8.
Definition word_name : Z := 16.
Definition word_vocabulary : Z := 24.
Definition word_props : Z := 40.
Definition quotation_cached_effect : Z := 16.
Definition quotation_cache_counter : Z := 24.

(** The nested calls that the stack of C has room for. *)
Context (depth : nat).

(** src/vm/quotations.cpp:315-317 [primitive_jit_compile] *)
Definition primitive_jit_compile : eff vm () :=
  quot ← ctx_pop;
  jit_compile_quotation depth quot true.

(** src/vm/quotations.cpp:325-334 [primitive_array_to_quotation] *)
Definition primitive_array_to_quotation : eff vm () :=
  quot ← vm_allot QUOTATION_TYPE sizeof_quotation;
  array ← ctx_peek;
  _ ← writes (λ m, put_field m quot quotation_array array);
  _ ← writes (λ m, put_field m quot quotation_cached_effect false_object);
  _ ← writes (λ m, put_field m quot quotation_cache_counter false_object);
  _ ← writes (λ m, entry ← lazy_jit_compile_entry_point m; put_field m quot quotation_entry_point entry);
  ctx_replace (tag QUOTATION_TYPE quot).

(** src/vm/quotations.cpp:337-342 [primitive_quotation_code] *)
Definition primitive_quotation_code : eff vm () :=
  v ← ctx_pop;
  rooted v (λ quot,
    q ← root_untagged QUOTATION_TYPE quot;
    entry ← reads (λ m, field m q quotation_entry_point);
    a ← box_unsigned_cell entry;
    _ ← ctx_push a;
    q ← root_untagged QUOTATION_TYPE quot;
    code ← reads (λ m, quotation_code m q);
    size ← reads (λ m, code_size m code);
    b ← box_unsigned_cell (code +& size);
    ctx_push b).

(** src/vm/quotations.cpp:345-355 [quot_code_offset_to_scan]: nothing is
    compiled. *)
Definition quot_code_offset_to_scan (quot_ offset : Z) : eff vm Z :=
  rooted quot_ (λ quot,
    q ← root_untagged QUOTATION_TYPE quot;
    array_ ← reads (λ m, field m q quotation_array);
    rooted array_ (λ array,
      o ← root_value QUOTATION_TYPE quot;
      with_quotation_jit o quot (λ j elements,
        j ← iterate_quotation elements (jit_compile_quotation depth) false false (compute_position j offset);
        mret (get_position j)))).

(** src/vm/quotations.cpp:358-368 [lazy_jit_compile] *)
Definition lazy_jit_compile (quot_ : Z) : eff vm Z :=
  rooted quot_ (λ quot,
    q ← root_untagged QUOTATION_TYPE quot;
    done ← reads (λ m, quotation_compiled_p m q);
    _ ← reads (λ _, check (negb done));
    q ← root_value QUOTATION_TYPE quot;
    compiled ← compile_code_block (jit_compile_quotation depth) q q true;
    q ← root_untagged QUOTATION_TYPE quot;
    _ ← writes (λ m, put_field m q quotation_entry_point (entry_point compiled));
    root_value QUOTATION_TYPE quot).

(** src/vm/quotations.cpp:380-383 [primitive_quotation_compiled_p] *)
Definition primitive_quotation_compiled_p : eff vm () :=
  v ← ctx_pop;
  quot ← untag_check QUOTATION_TYPE v;
  done ← reads (λ m, quotation_compiled_p m quot);
  b ← vm_tag_boolean done;
  ctx_push b.

(** src/vm/code_blocks.cpp:49-61 [code_block::scan] *)
Definition scan (compiled addr : Z) : eff vm Z :=
  header ← reads (λ m, load m compiled);
  if negb (code_type header =? code_block_type_value CODE_BLOCK_UNOPTIMIZED) then mret (tag_fixnum (-1))
  else
    ptr ← reads (λ m, field m compiled 8);
    ptr ← (if TAG ptr =? WORD_TYPE then reads (λ m, w ← untag WORD_TYPE ptr; field m w word_def) else mret ptr);
    if negb (TAG ptr =? QUOTATION_TYPE) then mret (tag_fixnum (-1))
    else
      n ← quot_code_offset_to_scan ptr (code_offset compiled addr);
      mret (tag_fixnum n).

(** * Words *)

(** The definition of an inline cache, unless it is [f]. *)
Definition compile_pic_def (word field_offset : Z) (relocating : bool) : eff vm () :=
  w ← root_untagged WORD_TYPE word;
  def ← reads (λ m, field m w field_offset);
  if to_boolean def then jit_compile_quotation depth def relocating else mret ().

(** src/vm/words.cpp:7-25 [jit_compile_word] *)
Definition jit_compile_word (word_ def_ : Z) (relocating : bool) : eff vm () :=
  rooted word_ (λ word, rooted def_ (λ def,
    w ← root_untagged WORD_TYPE word;
    entry ← reads (λ m, field m w word_entry_point);
    value ← root_value WORD_TYPE word;
    lazy ← vm_special LAZY_JIT_COMPILE_WORD;
    if negb (entry =? 0) && (value =? lazy) then mret ()
    else
      d ← root_value QUOTATION_TYPE def;
      compiled ← compile_code_block (jit_compile_quotation depth) value d relocating;
      w ← root_untagged WORD_TYPE word;
      _ ← writes (λ m, put_field m w word_entry_point (entry_point compiled));
      _ ← compile_pic_def word word_pic_def relocating;
      compile_pic_def word word_pic_tail_def relocating)).

(** src/vm/words.cpp:28-47 [allot_word]: [hashcode_] is no data root. *)
Definition allot_word (name_ vocab_ hashcode_ : Z) : eff vm Z :=
  rooted vocab_ (λ vocab, rooted name_ (λ name,
    w ← vm_allot WORD_TYPE sizeof_word;
    rooted (tag WORD_TYPE w) (λ new_word,
      let set (offset : Z) (value : eff vm Z) : eff vm () :=
        x ← value; w ← root_untagged WORD_TYPE new_word; writes (λ m, put_field m w offset x) in
      _ ← set word_hashcode (mret hashcode_);
      _ ← set word_vocabulary (root_value TYPE_COUNT vocab);
      _ ← set word_name (root_value TYPE_COUNT name);
      _ ← set word_def (vm_special OBJ_UNDEFINED);
      _ ← set word_props (mret false_object);
      _ ← set word_pic_def (mret false_object);
      _ ← set word_pic_tail_def (mret false_object);
      _ ← set word_subprimitive (mret false_object);
      _ ← set word_entry_point (mret 0);
      value ← root_value WORD_TYPE new_word;
      w ← root_untagged WORD_TYPE new_word;
      def ← reads (λ m, field m w word_def);
      _ ← jit_compile_word value def true;
      root_untagged WORD_TYPE new_word))).

(** src/vm/words.cpp:51-56 [primitive_word] *)
Definition primitive_word : eff vm () :=
  hashcode ← ctx_pop;
  vocab ← ctx_pop;
  name ← ctx_pop;
  w ← allot_word name vocab hashcode;
  ctx_push (tag WORD_TYPE w).
End quotations.
