(* ===== verification/InlineCache.v ===== *)
(** Polymorphic inline caches: vm/inline_cache.cpp, with the call sites of
    vm/cpu-x86.hpp and the counters of vm/dispatch.cpp.

    A call site of a generic word first calls a stub for a cold site; a miss
    compiles a cache with one more entry and makes the call site call that,
    until it has [max_pic_size] entries and the generic word is called. *)

From S2P Require Import Prelude.
From S2P Require Import Layouts.
From S2P Require Import Memory.
From S2P Require Import Bytes.
From S2P Require Import Effects.
From S2P Require Import DataHeap.
From S2P Require Import Objects.
From S2P Require Import CodeBlocks.
From S2P Require Import Relocation.
From S2P Require Import SlotVisitor.
From S2P Require Import GC.
From S2P Require Import Dispatch.
From S2P Require Import VM.
From S2P Require Import Room.
From S2P Require Import HeapArrays.
From S2P Require Import Jit.
From S2P Require Import Quotations.
Local Open Scope Z_scope.
Local Open Scope cell_scope.

(** * Call sites *)

(** src/vm/cpu-x86.hpp:18-18 [call_opcode] *)
Definition call_opcode : Z := 0xe8.
(** src/vm/cpu-x86.hpp:19-19 [jmp_opcode] *)
Definition jmp_opcode : Z := 0xe9.

(** src/vm/cpu-x86.hpp:21-23 [call_site_opcode] *)
Definition call_site_opcode (m : memory) (return_address : Z) : result Z := load_byte m (return_address -& 5).

(** src/vm/cpu-x86.hpp:25-29 [check_call_site] *)
Definition check_call_site (m : memory) (return_address : Z) : result () :=
  opcode ← call_site_opcode m return_address;
  check ((opcode =? call_opcode) || (opcode =? jmp_opcode)).

(** src/vm/cpu-x86.hpp:31-34 [get_call_target] *)
Definition get_call_target (m : memory) (return_address : Z) : result Z :=
  _ ← check_call_site m return_address;
  d ← load_bytes 4 m (return_address -& 4);
  Ok (u64 (s32 d + return_address)).

(** src/vm/cpu-x86.hpp:36-39 [set_call_target] *)
Definition set_call_target (m : memory) (return_address target : Z) : result memory :=
  _ ← check_call_site m return_address;
  store_bytes 4 m (return_address -& 4) (target -& return_address).

(** src/vm/cpu-x86.hpp:41-51 [tail_call_site_p] *)
Definition tail_call_site_p (m : memory) (return_address : Z) : result bool :=
  opcode ← call_site_opcode m return_address;
  if opcode =? jmp_opcode then Ok true
  else if opcode =? call_opcode then Ok false
  else Err FATAL_ERROR.

(** * Counters *)

(** src/vm/objects.hpp:81-87 [special_object] (part) *)
Definition PIC_TAG : Z := 55.
Definition PIC_TUPLE : Z := 56.
Definition PIC_CHECK_TAG : Z := 57.
Definition PIC_CHECK_TUPLE : Z := 58.
Definition PIC_HIT : Z := 59.
Definition PIC_MISS_WORD : Z := 60.
Definition PIC_MISS_TAIL_WORD : Z := 61.

Definition change_stats (f : dispatch_statistics → dispatch_statistics) : eff vm () :=
  change (λ v, with_tally v (mk_counters (current_jit_count (tally v)) (f (dispatch_stats (tally v))))).

(** src/vm/inline_cache.cpp:27-32 [update_pic_count] *)
Definition count_pic (type : Z) (s : dispatch_statistics) : dispatch_statistics :=
  let 'mk_statistics hits misses cold ic mega tags tuples := s in
  if type =? PIC_TAG then mk_statistics hits misses cold ic mega (tags +& 1) tuples
  else mk_statistics hits misses cold ic mega tags (tuples +& 1).

(** src/vm/inline_cache.cpp:125-132 [update_pic_transitions] *)
Definition count_transition `{!linkage} (pic_size : Z) (s : dispatch_statistics) : dispatch_statistics :=
  let 'mk_statistics hits misses cold ic mega tags tuples := s in
  if pic_size =? max_pic_size then mk_statistics hits misses cold ic (mega +& 1) tags tuples
  else if pic_size =? 0 then mk_statistics hits misses (cold +& 1) ic mega tags tuples
  else if pic_size =? 1 then mk_statistics hits misses cold (ic +& 1) mega tags tuples
  else s.

(** src/vm/dispatch.cpp:113-115 [primitive_reset_dispatch_stats] *)
Definition primitive_reset_dispatch_stats : eff vm () := change_stats (λ _, mk_statistics 0 0 0 0 0 0 0).

Section inline_cache.
Context `{!linkage, !os_memory}.

(** src/vm/byte_arrays.hpp:20-25 [byte_array_from_value]: of a struct of
    cells. *)
Definition byte_array_from_cells (cells : list Z) : eff vm Z :=
  data ← vm_allot_array BYTE_ARRAY_TYPE sizeof_byte_array 1 (8 * Z.of_nat (length cells));
  _ ← writes (λ m, store_words m (data +& sizeof_byte_array) cells);
  mret data.

(** src/vm/dispatch.cpp:118-120 [primitive_dispatch_stats] *)
Definition primitive_dispatch_stats : eff vm () :=
  t ← ask tally;
  let 'mk_statistics hits misses cold ic mega tags tuples := dispatch_stats t in
  data ← byte_array_from_cells [hits; misses; cold; ic; mega; tags; tuples];
  ctx_push (tag BYTE_ARRAY_TYPE data).

(** * Compiling a cache *)

(** src/vm/inline_cache.cpp:5-13 [deallocate_inline_cache] *)
Definition deallocate_inline_cache (return_address : Z) : eff vm () :=
  old_entry_point ← reads (λ m, get_call_target m return_address);
  let old_block := old_entry_point -& sizeof_code_block in
  header ← reads (λ m, load m old_block);
  if pic_p header then
    on_code (λ _,
      code ← get_state;
      '(m, code) ← reads (λ m, code_free m code old_block);
      _ ← writes (λ _, Ok m);
      put_state code)
  else mret ().

(** src/vm/inline_cache.cpp:18-23 [determine_inline_cache_type] (part): The
    loop; the next class is at index [i]. *)
Fixpoint any_layout (m : memory) (cache_entries : Z) (pairs : nat) (i : Z) : result bool :=
  match pairs with
  | 0%nat => Ok false
  | S pairs =>
      klass ← heap_array_nth m cache_entries i;
      if TAG klass =? ARRAY_TYPE then Ok true else any_layout m cache_entries pairs (i +& 2)
  end.

(** src/vm/inline_cache.cpp:17-25 [determine_inline_cache_type] *)
Definition determine_inline_cache_type (m : memory) (cache_entries : Z) : result Z :=
  n ← array_capacity ARRAY_TYPE m cache_entries;
  layout ← any_layout m cache_entries (Z.to_nat ((n + 1) / 2)) 0;
  Ok (if (layout : bool) then PIC_TUPLE else PIC_TAG).

(** src/vm/inline_cache.cpp:42-59 [inline_cache_jit::emit_check_and_jump]:
    neither [klass] nor [method] is a data root. *)
Definition emit_check_and_jump (j : jit) (ic_type i klass method : Z) : eff vm jit :=
  let check_type := if negb (TAG klass =? FIXNUM_TYPE) then PIC_CHECK_TUPLE else PIC_CHECK_TAG in
  j ← (if negb ((i =? 0) && (ic_type =? PIC_TAG) && (klass =? 0)) then
         template ← vm_special check_type;
         emit_with_literal j template klass
       else mret j);
  template ← vm_special PIC_HIT;
  emit_with_literal j template method.

(** src/vm/inline_cache.cpp:83-88 [inline_cache_jit::emit_inline_cache] (part):
    One turn of the loop. *)
Definition cache_entry_body (cache_entries ic_type : Z) (st : jit * Z) : eff vm (jit * Z + jit) :=
  let '(j, i) := st in
  e ← root_untagged ARRAY_TYPE cache_entries;
  n ← reads (λ m, array_capacity ARRAY_TYPE m e);
  if i <? n then
    klass ← reads (λ m, heap_array_nth m e i);
    method ← reads (λ m, heap_array_nth m e (i +& 1));
    j ← emit_check_and_jump j ic_type i klass method;
    mret (inl (j, i +& 2))
  else mret (inr j).

(** src/vm/inline_cache.cpp:64-108 [inline_cache_jit::emit_inline_cache] *)
Definition emit_inline_cache (j : jit) (index generic_word_ methods_ cache_entries_ : Z) (tail_call_p : bool)
    : eff vm jit :=
  rooted generic_word_ (λ generic_word, rooted methods_ (λ methods, rooted cache_entries_ (λ cache_entries,
    e ← root_untagged ARRAY_TYPE cache_entries;
    ic_type ← reads (λ m, determine_inline_cache_type m e);
    _ ← change_stats (count_pic ic_type);
    template ← vm_special PIC_LOAD;
    j ← emit_with_literal j template (tag_fixnum (u64 (- index) *& 8));
    j ← emit_special j ic_type;
    j ← loop (cache_entry_body cache_entries ic_type) (j, 0);
    j ← emit_special j JIT_PROLOG;
    w ← root_value WORD_TYPE generic_word;
    j ← push j w;
    m ← root_value ARRAY_TYPE methods;
    j ← push j m;
    j ← push j (tag_fixnum index);
    c ← root_value ARRAY_TYPE cache_entries;
    j ← push j c;
    w ← vm_special (if tail_call_p then PIC_MISS_TAIL_WORD else PIC_MISS_WORD);
    '(j, _) ← emit_subprimitive j w true true;
    mret j))).

(** src/vm/inline_cache.cpp:111-123 [add_inline_cache_entry] *)
Definition add_inline_cache_entry (cache_entries_ klass_ method_ : Z) : eff vm Z :=
  rooted cache_entries_ (λ cache_entries, rooted klass_ (λ klass, rooted method_ (λ method,
    e ← root_untagged ARRAY_TYPE cache_entries;
    pic_size ← reads (λ m, array_capacity ARRAY_TYPE m e);
    n ← vm_reallot_array ARRAY_TYPE sizeof_array 8 e (pic_size +& 2);
    rooted (tag ARRAY_TYPE n) (λ new_cache_entries,
      a ← root_untagged ARRAY_TYPE new_cache_entries;
      k ← root_value TYPE_COUNT klass;
      _ ← vm_set_array_nth a pic_size k;
      a ← root_untagged ARRAY_TYPE new_cache_entries;
      w ← root_value WORD_TYPE method;
      _ ← vm_set_array_nth a (pic_size +& 1) w;
      root_value ARRAY_TYPE new_cache_entries)))).

(** * A miss *)

(** src/vm/code_roots.hpp:15-18 [code_root]: [body] is the scope of the code
    root, and is given its index. *)
Definition code_rooted {A} (value : Z) (body : nat → eff vm A) : eff vm A :=
  g ← ask vm_gc;
  _ ← change (λ v, with_gc v (with_code_roots (vm_gc v) (code_roots (vm_gc v) ++ [mk_code_root value true])));
  a ← body (length (code_roots g));
  _ ← change (λ v, with_gc v (with_code_roots (vm_gc v) (removelast (code_roots (vm_gc v)))));
  mret a.

Definition code_root_at (n : nat) : eff vm code_root :=
  g ← ask vm_gc;
  reads (λ _, match code_roots g !! n with Some r => Ok r | None => Err BAD_ACCESS end).

(** src/vm/inline_cache.cpp:165-176 [inline_cache_miss] (part): The entry point
    of a cache with one more entry. *)
Definition compile_inline_cache (tail_call_site : bool) (index object methods generic_word cache_entries : Z)
    : eff vm Z :=
  o ← root_value TYPE_COUNT object;
  ms ← root_value ARRAY_TYPE methods;
  klass ← reads (λ m, object_class m o);
  method ← reads (λ m, lookup_method m o ms);
  c ← root_value ARRAY_TYPE cache_entries;
  n ← add_inline_cache_entry c klass method;
  rooted n (λ new_cache_entries,
    w ← root_value WORD_TYPE generic_word;
    with_jit w (λ j,
      w ← root_value WORD_TYPE generic_word;
      ms ← root_value ARRAY_TYPE methods;
      n ← root_value ARRAY_TYPE new_cache_entries;
      j ← emit_inline_cache j index w ms n tail_call_site;
      code ← to_code_block j CODE_BLOCK_PIC JIT_FRAME_SIZE;
      _ ← on_code (λ b, initialize_code_block b code);
      mret (entry_point code))).

(** src/vm/inline_cache.cpp:141-196 [inline_cache_miss] *)
Definition inline_cache_miss (return_address_ : Z) : eff vm Z :=
  code_rooted return_address_ (λ return_address,
    r ← code_root_at return_address;
    tail_call_site ← reads (λ m, tail_call_site_p m (CodeBlocks.root_value r));
    v ← ctx_pop;
    rooted v (λ cache_entries,
      w ← ctx_pop;
      index ← fixnum_of w;
      v ← ctx_pop;
      rooted v (λ methods,
        v ← ctx_pop;
        rooted v (λ generic_word,
          c ← current_context;
          v ← reads (λ m, load m (datastack c +& (8 *& u64 (- index))));
          rooted v (λ object,
            e ← root_untagged ARRAY_TYPE cache_entries;
            n ← reads (λ m, array_capacity ARRAY_TYPE m e);
            let pic_size := n / 2 in
            _ ← change_stats (count_transition pic_size);
            g ← root_untagged WORD_TYPE generic_word;
            xt ← reads (λ m, field m g word_entry_point);
            xt ← (if pic_size <? max_pic_size
                  then compile_inline_cache tail_call_site index object methods generic_word cache_entries
                  else mret xt);
            r ← code_root_at return_address;
            _ ← (if root_valid r then
                   _ ← deallocate_inline_cache (CodeBlocks.root_value r);
                   writes (λ m, set_call_target m (CodeBlocks.root_value r) xt)
                 else mret ());
            mret xt))))).
End inline_cache.
