(* ===== verification/Callstacks.v ===== *)
(** Captured call stacks, vm/callstack.cpp, and the primitives on the code heap,
    vm/code_heap.cpp. *)

From S2P Require Import Prelude.
From S2P Require Import Layouts.
From S2P Require Import Memory.
From S2P Require Import Bytes.
From S2P Require Import Effects.
From S2P Require Import FreeList.
From S2P Require Import Spaces.
From S2P Require Import DataHeap.
From S2P Require Import Objects.
From S2P Require Import CodeBlocks.
From S2P Require Import Relocation.
From S2P Require Import Callbacks.
From S2P Require Import SlotVisitor.
From S2P Require Import GC.
From S2P Require Import VM.
From S2P Require Import Room.
From S2P Require Import Aliens.
From S2P Require Import Contexts.
From S2P Require Import HeapArrays.
From S2P Require Import ObjectPrimitives.
From S2P Require Import Jit.
From S2P Require Import Quotations.
From S2P Require Import InlineCache.
Local Open Scope Z_scope.
Local Open Scope cell_scope.

Section callstacks.
Context `{!linkage, !os_memory}.

(** * Capture *)

(** src/vm/callstack.cpp:6-10 [allot_callstack] *)
Definition allot_callstack (size : Z) : eff vm Z :=
  stack ← vm_allot CALLSTACK_TYPE (callstack_object_size size);
  _ ← writes (λ m, put_field m stack 8 (tag_fixnum size));
  mret stack.

(** src/vm/callstack.cpp:22-28 [second_from_top_stack_frame] (part): [turns]
    turns of the loop. *)
Fixpoint skip_frames (m : memory) (code : code_heap) (bottom : Z) (turns : nat) (frame_top : Z) : result Z :=
  match turns with
  | 0%nat => Ok frame_top
  | S turns =>
      pred ← frame_predecessor m code frame_top;
      if bottom <=? pred then Ok frame_top else skip_frames m code bottom turns pred
  end.

(** src/vm/callstack.cpp:20-29 [second_from_top_stack_frame] *)
Definition second_from_top_stack_frame (c : context) : eff vm Z :=
  g ← ask vm_gc;
  reads (λ m, skip_frames m (code (collection g)) (callstack_bottom c) 2 (callstack_top c)).

(** src/vm/callstack.cpp:32-41 [capture_callstack]: the difference of two cells
    is never less than 0. *)
Definition capture_callstack (c : context) : eff vm Z :=
  top ← second_from_top_stack_frame c;
  let bottom := callstack_bottom c in
  let size := Z.max 0 (bottom -& top) in
  stack ← allot_callstack size;
  _ ← writes (λ m, copy_bytes m (stack +& sizeof_callstack) top (Z.to_nat size));
  mret (tag CALLSTACK_TYPE stack).

(** src/vm/callstack.cpp:44-47 [primitive_callstack_for] *)
Definition primitive_callstack_for : eff vm () :=
  v ← ctx_peek;
  p ← pinned_alien_offset v;
  other_ctx ← context_at p;
  stack ← capture_callstack other_ctx;
  ctx_replace stack.

(** * Walks that allocate *)

(** src/vm/callstack.hpp:18-30 [iterate_callstack_object] (part): One turn of
    the loop; the stack is in a data root, because the iterator may move it,
    and the iterator has a value [A] of its own. *)
Definition frames_body {A} (iterator : A → Z → Z → Z → Z → eff vm A) (stack frame_length : Z) (st : Z * A)
    : eff vm (Z * A + A) :=
  let '(frame_offset, a) := st in
  if frame_offset <? frame_length then
    s ← root_untagged CALLSTACK_TYPE stack;
    let frame_top := (s +& sizeof_callstack) +& frame_offset in
    addr ← reads (λ m, load m frame_top);
    g ← ask vm_gc;
    owner ← reads (λ _, code_block_for_address (code (collection g)) addr);
    frame_size ← reads (λ m, stack_frame_size_for_address m owner addr);
    a ← iterator a frame_top frame_size owner addr;
    mret (inl (s64 (frame_offset + frame_size), a))
  else
    _ ← reads (λ _, check (frame_offset =? frame_length));
    mret (inr a).

(** src/vm/callstack.hpp:10-32 [iterate_callstack_object] *)
Definition iterate_frames {A} (iterator : A → Z → Z → Z → Z → eff vm A) (stack_ : Z) (a : A) : eff vm A :=
  rooted (tag CALLSTACK_TYPE stack_) (λ stack,
    s ← root_untagged CALLSTACK_TYPE stack;
    frame_length ← reads (λ m, l ← field m s 8; untag_fixnum l);
    loop (frames_body iterator stack frame_length) (0, a)).

(** The nested calls that the stack of C has room for. *)
Context (depth : nat).

(** src/vm/callstack.cpp:55-69 [primitive_callstack_to_array] (part):
    [stack_frame_accumulator]. *)
Definition stack_frame_accumulator (frames : growable) (frame_top size owner addr : Z) : eff vm growable :=
  q ← reads (λ m, owner_quot m owner);
  rooted q (λ executing_quot,
    o ← reads (λ m, field m owner 8);
    rooted o (λ executing,
      n ← scan depth owner addr;
      rooted n (λ scan,
        x ← root_value TYPE_COUNT executing;
        frames ← vm_growable_add frames x;
        x ← root_value TYPE_COUNT executing_quot;
        frames ← vm_growable_add frames x;
        x ← root_value TYPE_COUNT scan;
        vm_growable_add frames x))).

(** src/vm/callstack.cpp:50-74 [primitive_callstack_to_array] *)
Definition primitive_callstack_to_array : eff vm () :=
  v ← ctx_peek;
  rooted v (λ callstack,
    with_growable_array 10 (λ frames,
      s ← root_untagged CALLSTACK_TYPE callstack;
      frames ← iterate_frames stack_frame_accumulator s frames;
      _ ← vm_growable_trim frames;
      x ← root_value ARRAY_TYPE (g_elements frames);
      ctx_replace x)).

(** * The innermost frame *)

(** The return address of the innermost frame, and the block it is in. *)
Definition innermost_frame (stack : Z) : eff vm (Z * Z) :=
  addr ← reads (λ m, load m (stack +& sizeof_callstack));
  g ← ask vm_gc;
  block ← reads (λ _, code_block_for_address (code (collection g)) addr);
  mret (addr, block).

(** src/vm/callstack.cpp:78-83 [primitive_innermost_stack_frame_executing] *)
Definition primitive_innermost_stack_frame_executing : eff vm () :=
  v ← ctx_peek;
  stack ← untag_check CALLSTACK_TYPE v;
  '(_, block) ← innermost_frame stack;
  q ← reads (λ m, owner_quot m block);
  ctx_replace q.

(** src/vm/callstack.cpp:85-90 [primitive_innermost_stack_frame_scan] *)
Definition primitive_innermost_stack_frame_scan : eff vm () :=
  v ← ctx_peek;
  stack ← untag_check CALLSTACK_TYPE v;
  '(addr, block) ← innermost_frame stack;
  n ← scan depth block addr;
  ctx_replace n.

(** src/vm/callstack.cpp:93-107 [primitive_set_innermost_stack_frame_quotation] *)
Definition primitive_set_innermost_stack_frame_quotation : eff vm () :=
  v ← ctx_pop;
  rooted v (λ stack,
    v ← ctx_pop;
    rooted v (λ quot,
      _ ← check_tagged CALLSTACK_TYPE stack;
      _ ← check_tagged QUOTATION_TYPE quot;
      q ← root_value QUOTATION_TYPE quot;
      _ ← jit_compile_quotation depth q true;
      s ← root_untagged CALLSTACK_TYPE stack;
      '(addr, block) ← innermost_frame s;
      let offset := code_offset block addr in
      q ← root_untagged QUOTATION_TYPE quot;
      entry ← reads (λ m, field m q quotation_entry_point);
      writes (λ m, store m (s +& sizeof_callstack) (entry +& offset)))).

(** src/vm/callstack.cpp:110-113 [primitive_callstack_bounds] *)
Definition primitive_callstack_bounds : eff vm () :=
  c ← current_context;
  a ← allot_alien (seg_start (callstack_seg c));
  _ ← ctx_push a;
  c ← current_context;
  a ← allot_alien (seg_end (callstack_seg c));
  ctx_push a.

(** * Installing code *)

(** A computation on the code heap for a block. *)
Definition with_code_heap {A} (c : eff code_heap A) : eff collector A := λ s,
  match c (s.1, code s.2) with
  | Done s' a => Done (s'.1, with_code s.2 s'.2) a
  | Again s' => Again (s'.1, with_code s.2 s'.2)
  | Fatal e => Fatal e
  end.

(** src/vm/code_heap.cpp:119-125 [update_code_heap_words] *)
Definition update_code_heap_words (reset_inline_caches : bool) : eff vm () :=
  with_heaps (λ _,
    b ← get_vm gc_barrier;
    collect (each_code_block (λ block _, with_code_heap (update_word_references b block reset_inline_caches)))).

(** src/vm/code_heap.cpp:148-162 [primitive_modify_code_heap] (part):
    [case ARRAY_TYPE]; [add_code_block] makes data roots of its arguments. *)
Definition install_compiled (word data : Z) : eff vm () :=
  compiled_data ← root_untagged ARRAY_TYPE data;
  parameters ← reads (λ m, heap_array_nth m compiled_data 0);
  literals ← reads (λ m, heap_array_nth m compiled_data 1);
  relocation ← reads (λ m, heap_array_nth m compiled_data 2);
  labels ← reads (λ m, heap_array_nth m compiled_data 3);
  code ← reads (λ m, heap_array_nth m compiled_data 4);
  w ← reads (λ m, heap_array_nth m compiled_data 5);
  frame_size ← fixnum_of w;
  owner ← root_value WORD_TYPE word;
  compiled ← rooted code (λ c, rooted labels (λ ls, rooted owner (λ o, rooted relocation (λ r,
    rooted parameters (λ p, rooted literals (λ l,
      with_heaps (λ parent, add_code_block parent CODE_BLOCK_OPTIMIZED (mk_code_block_roots c ls o r p l)
                              (u64 frame_size))))))));
  w ← root_untagged WORD_TYPE word;
  writes (λ m, put_field m w word_entry_point (entry_point compiled)).

(** src/vm/code_heap.cpp:138-167 [primitive_modify_code_heap] (part): One turn
    of the loop. *)
Definition install_definition (alist i : Z) : eff vm () :=
  p ← root_nth alist i;
  rooted p (λ pair,
    w ← root_nth pair 0;
    rooted w (λ word,
      d ← root_nth pair 1;
      rooted d (λ data,
        value ← root_value TYPE_COUNT data;
        if TAG value =? QUOTATION_TYPE then
          w ← root_value WORD_TYPE word;
          jit_compile_word depth w value false
        else if TAG value =? ARRAY_TYPE then install_compiled word data
        else raise CRITICAL_ERROR))).

(** src/vm/code_heap.cpp:173-176 [primitive_modify_code_heap] (part): The blocks
    that are not initialized, in the order of their addresses. *)
Definition initialize_new_blocks (b : barrier) : eff code_heap () :=
  code ← get_state;
  _ ← for_each (map_entries (uninitialized_blocks code)) (λ e, initialize_with b e.1 e.2);
  code ← get_state;
  put_state (set_uninitialized code ∅).

(** src/vm/code_heap.cpp:128-179 [primitive_modify_code_heap] *)
Definition primitive_modify_code_heap : eff vm () :=
  v ← ctx_pop;
  let reset_inline_caches := to_boolean v in
  v ← ctx_pop;
  let update_existing_words := to_boolean v in
  v ← ctx_pop;
  rooted v (λ alist,
    count ← growable_capacity ARRAY_TYPE (mk_growable_at 0 alist);
    if count =? 0 then mret ()
    else
      _ ← for_each (seqZ 0 count) (install_definition alist);
      _ ← (if update_existing_words then update_code_heap_words reset_inline_caches
           else on_code initialize_new_blocks);
      g ← ask vm_gc;
      reads (λ _, check (bool_decide (uninitialized_blocks (code (collection g)) = ∅)))).

(** src/vm/code_heap.cpp:182-185 [primitive_code_room] *)
Definition primitive_code_room : eff vm () :=
  g ← ask vm_gc;
  r ← reads (λ m, as_allocator_room m (allocator (code (collection g))));
  data ← byte_array_from_cells
    [room_size r; room_occupied_space r; room_total_free r; room_contiguous_free r; room_free_block_count r];
  ctx_push (tag BYTE_ARRAY_TYPE data).

(** src/vm/code_heap.cpp:187-193 [primitive_strip_stack_traces] *)
Definition primitive_strip_stack_traces : eff vm () :=
  with_heaps (λ _, collect (each_code_block (λ block _, writes (λ m, put_field m block 8 false_object)))).

(** src/vm/code_heap.cpp:198-217 [primitive_code_blocks] (part): What is
    recorded of a block. *)
Definition code_block_facts (m : memory) (block : Z) : result (list Z) :=
  owner ← field m block 8;
  parameters ← field m block 16;
  relocation ← field m block 24;
  header ← load m block;
  size ← code_size m block;
  let entry := entry_point block in
  _ ← check (Z.land entry (data_alignment - 1) =? 0);
  _ ← check (Z.land entry TAG_MASK =? FIXNUM_TYPE);
  Ok [owner; parameters; relocation; tag_fixnum (code_type header); tag_fixnum size; entry].

(** src/vm/code_heap.cpp:196-220 [primitive_code_blocks]: [vector] is the
    address of the elements of the vector [objects], memory that [malloc] has
    mapped. *)
Definition primitive_code_blocks (vector : Z) : eff vm () :=
  g ← ask vm_gc;
  objects ← reads (λ m, iterate (λ _, code_size)
    (λ block _ st, facts ← code_block_facts st.1 block; Ok (st.1, st.2 ++ facts))
    (allocator (code (collection g))) m []);
  _ ← writes (λ m, store_words m vector objects.2);
  array ← std_vector_to_array vector (Z.of_nat (length objects.2));
  ctx_push array.
End callstacks.

(** * Frames

    A walk over frames that records them shows which frames a walk visits. *)

(** The frames from [top] to [bottom], innermost first: the size of a frame, the
    block that it belongs to and the return address. *)
Inductive call_stack (m : memory) (ch : code_heap) (bottom : Z) : Z → list (Z * Z * Z) → Prop :=
  | call_stack_nil : call_stack m ch bottom bottom []
  | call_stack_cons top size owner addr frames :
      m !! top = Some addr → addr ≠ 0 → in_segment_p (ch_seg ch) addr = true →
      code_block_for_address ch addr = Ok owner → 0 ≤ owner → owner + sizeof_code_block ≤ addr < 2 ^ 64 →
      stack_frame_size_for_address m owner addr = Ok size →
      call_stack m ch bottom (top + size) frames →
      call_stack m ch bottom top ((size, owner, addr) :: frames).

Definition record_frame (_ size owner addr : Z) : eff (list (Z * Z * Z)) () :=
  frames ← get_state; put_state (frames ++ [(size, owner, addr)]).

Lemma natural_frame_size m owner natural :
  stack_frame_size m owner = Ok natural → 0 ≤ natural ≤ 4080 ∧ natural mod 16 = 0.
Proof.
  unfold stack_frame_size. intros (h & _ & E)%result_bind_inv. apply Ok_inj in E. subst natural.
  destruct (code_free_p h); [done|]. set (x := Z.shiftr h 20). clearbody x.
  assert (Z.land x 0xFF0 = 16 * ((x / 16) mod 256)) as ->; [|dlia]. change 0xFF0 with (Z.shiftl (Z.ones 8) 4).
  apply Z.bits_inj'. intros i Hi. change 16 with (2 ^ 4). change 256 with (2 ^ 8).
  rewrite Z.land_spec, (Z.mul_comm (2 ^ 4)), <- Z.shiftl_mul_pow2, <- Z.shiftr_div_pow2, <- Z.land_ones by lia.
  destruct (decide (i < 4)).
  - rewrite !(Z.shiftl_spec_low _ 4 i) by lia. apply andb_false_r.
  - rewrite !Z.shiftl_spec, Z.land_spec, Z.shiftr_spec by lia. by replace (i - 4 + 4) with i by lia.
Qed.

Lemma frame_size_bounds m owner addr size :
  stack_frame_size_for_address m owner addr = Ok size → 16 ≤ size ≤ 4080 ∧ size mod 16 = 0.
Proof.
  unfold stack_frame_size_for_address. intros (natural & E & Es)%result_bind_inv. apply Ok_inj in Es. subst size.
  apply natural_frame_size in E as [Hn H16]. unfold LEAF_FRAME_SIZE.
  destruct (Z.eqb_spec natural 0); cbn [orb]; [done|]. destruct (addr =? entry_point owner); [done|]. split; [dlia|done].
Qed.

Lemma call_stack_bounds m ch bottom top frames :
  call_stack m ch bottom top frames → top + 16 * Z.of_nat (length frames) ≤ bottom ∧ (bottom - top) mod 16 = 0.
Proof.
  induction 1 as [|top size owner addr frames _ _ _ _ _ _ Hs _ [IH H16]]; cbn [length]; [split; [lia|by rewrite Z.sub_diag]|].
  apply frame_size_bounds in Hs. dlia.
Qed.

(** The walk over the stack of a context. *)
Lemma walk_context m ch bottom top frames :
  call_stack m ch bottom top frames → 0 ≤ top → bottom < 2 ^ 64 → ∀ acc,
  iter_nat (loop_body (callstack_body ch Ok record_frame bottom)) (S (length frames)) ((m, acc), top) =
    inr (Done (m, acc ++ frames) ()).
Proof.
  induction 1 as [|top size owner addr frames Ha Hz _ Hb Ho Hc Hs Hrest IH]; intros Ht Hbt acc.
  { cbn [length iter_nat]. unfold loop_body, callstack_body. cbn [fst snd]. rewrite Z.ltb_irrefl.
    rewrite (bind_reads _ _ _ _ ()) by by rewrite Z.eqb_refl. by rewrite app_nil_r. }
  pose proof (call_stack_bounds _ _ _ _ _ Hrest) as [Hlen _]. pose proof (frame_size_bounds _ _ _ _ Hs) as [Hsz _].
  cbn [length]. rewrite (eq_refl : S (S (length frames)) = S (length ((size, owner, addr) :: frames))).
  cbn [length iter_nat]. unfold loop_body at 1, callstack_body at 1. cbn [fst snd].
  rewrite (proj2 (Z.ltb_lt top bottom)) by lia.
  rewrite (bind_reads _ _ _ _ addr) by by apply load_Ok.
  rewrite (bind_reads _ _ _ _ ()) by by rewrite (proj2 (Z.eqb_neq addr 0) Hz).
  rewrite (bind_reads _ _ _ _ owner), (bind_reads _ _ _ _ owner) by done.
  unfold stack_frame_size_for_address in Hs. apply result_bind_inv in Hs as (natural & En & Es). apply Ok_inj in Es.
  apply natural_frame_size in En as Hn. rewrite (bind_reads _ _ _ _ natural) by done.
  unfold entry_point, sizeof_code_block in *. rewrite (u64_id (owner + 32)) in Es by (unfold is_cell; lia).
  rewrite (u64_id (addr - owner)), (u64_id (addr - owner - 32)) by (unfold is_cell; lia).
  assert ((if (0 <? natural) && (0 <? addr - owner - 32) then natural else LEAF_FRAME_SIZE) = size) as ->.
  { rewrite <- Es. destruct (Z.eqb_spec natural 0), (Z.eqb_spec addr (owner + 32)), (Z.ltb_spec 0 natural),
      (Z.ltb_spec 0 (addr - owner - 32)); cbn; (done || lia). }
  rewrite (bind_Done _ _ _ (m, acc ++ [(size, owner, addr)]) ()) by done. rewrite u64_id by (unfold is_cell; lia).
  specialize (IH ltac:(lia) Hbt (acc ++ [(size, owner, addr)])). rewrite <- app_assoc in IH. exact IH.
Qed.

(** The walk over a captured stack. *)
Lemma walk_object m ch bottom top frames stack len :
  call_stack m ch bottom top frames → 0 ≤ stack → bottom = stack + sizeof_callstack + len → bottom < 2 ^ 62 →
  ∀ offset acc, 0 ≤ offset → top = stack + sizeof_callstack + offset →
  iter_nat (loop_body (callstack_object_body ch false Ok record_frame stack len)) (S (length frames)) ((m, acc), offset) =
    inr (Done (m, acc ++ frames) ()).
Proof.
  intros Hcs Hst Hbt Hhi. unfold sizeof_callstack in *.
  induction Hcs as [|top size owner addr frames Ha Hz _ Hb Ho Hc Hs Hrest IH]; intros offset acc H0 Ht.
  { replace offset with len by lia. cbn [length iter_nat]. unfold loop_body, callstack_object_body. cbn [fst snd].
    rewrite Z.ltb_irrefl. rewrite (bind_reads _ _ _ _ ()) by by rewrite Z.eqb_refl. by rewrite app_nil_r. }
  pose proof (call_stack_bounds _ _ _ _ _ Hrest) as [Hlen _]. pose proof (frame_size_bounds _ _ _ _ Hs) as [Hsz _].
  cbn [length]. rewrite (eq_refl : S (S (length frames)) = S (length ((size, owner, addr) :: frames))).
  cbn [length iter_nat]. unfold loop_body at 1, callstack_object_body at 1, sizeof_callstack. cbn [fst snd].
  rewrite (proj2 (Z.ltb_lt offset len)) by lia. rewrite (u64_id (stack + 16)), u64_id by (unfold is_cell; lia).
  rewrite (bind_reads _ _ _ _ addr) by (apply load_Ok; by rewrite <- Ht).
  rewrite (bind_reads _ _ _ _ addr), (bind_reads _ _ _ _ owner), (bind_reads _ _ _ _ size) by done.
  rewrite (bind_Done _ _ _ (m, acc ++ [(size, owner, addr)]) ()) by done. rewrite s64_id by (unfold is_fixnum; lia).
  specialize (IH (offset + size) (acc ++ [(size, owner, addr)]) ltac:(lia) ltac:(lia)). rewrite <- app_assoc in IH. exact IH.
Qed.

(** A stack whose words have been copied. *)
Lemma call_stack_copy m m' ch bottom top frames d :
  call_stack m ch bottom top frames → top mod 8 = 0 →
  (∀ x w, top ≤ x < bottom → x mod 8 = 0 → m !! x = Some w → is_cell w → m' !! (x + d) = Some w) →
  (∀ f, f ∈ frames → m' !! f.1.2 = m !! f.1.2) →
  call_stack m' ch (bottom + d) (top + d) frames.
Proof.
  intros Hcs. induction Hcs as [|top size owner addr frames Ha Hz Hseg Hb Ho Hc Hs Hrest IH]; intros H8 Hw Hown; [constructor|].
  pose proof (call_stack_bounds _ _ _ _ _ Hrest) as [Hlen _]. pose proof (frame_size_bounds _ _ _ _ Hs) as [Hsz H16].
  unfold sizeof_code_block in *.
  apply (call_stack_cons _ _ _ _ size owner addr); try done.
  - apply Hw; [lia|done|done|unfold is_cell; lia].
  - rewrite <- Hs. unfold stack_frame_size_for_address, stack_frame_size, load.
    pose proof (Hown (size, owner, addr) ltac:(left)) as E. cbn in E. by rewrite E.
  - replace (top + d + size) with (top + size + d) by lia. apply IH; [dlia| |].
    + intros x w Hx. apply Hw. lia.
    + intros f Hf. apply Hown. by right.
Qed.

(** Up to [turns] frames are skipped, but not the last one. *)
Lemma skip_frames_spec m ch bottom turns : ∀ top frames,
  call_stack m ch bottom top frames → frames ≠ [] → 0 ≤ top → bottom < 2 ^ 64 →
  ∃ top', skip_frames m ch bottom turns top = Ok top' ∧ top ≤ top' ∧
    call_stack m ch bottom top' (drop (min turns (length frames - 1)) frames).
Proof.
  induction turns as [|turns IH]; intros top frames Hcs Hne Ht Hb; cbn [skip_frames].
  { exists top. split; [done|]. split; [lia|done]. }
  inversion Hcs as [|top1 size owner addr rest Ha Hz Hseg Hbl Ho Hc Hs Hrest]; subst; [done|].
  pose proof (call_stack_bounds _ _ _ _ _ Hrest) as [Hlen _]. pose proof (frame_size_bounds _ _ _ _ Hs) as [Hsz _].
  assert (frame_predecessor m ch top = Ok (top + size)) as ->.
  { unfold frame_predecessor. rewrite (proj2 (load_Ok m top addr) Ha), result_bind_ok, Hseg, check_true, result_bind_ok.
    rewrite Hbl, result_bind_ok, Hs, result_bind_ok. by rewrite u64_id by (unfold is_cell; lia). }
  rewrite result_bind_ok. destruct (Z.leb_spec bottom (top + size)) as [Hle|Hlt].
  - assert (rest = []) as -> by (destruct rest; [done|cbn in Hlen; lia]). exists top. split; [done|]. split; [lia|].
    by rewrite Nat.min_0_r.
  - assert (rest ≠ []) as Hr by (intros ->; inversion Hrest; lia).
    destruct (IH (top + size) rest Hrest Hr ltac:(lia) Hb) as (top' & -> & Hle' & Hcs'). exists top'. split; [done|].
    split; [lia|]. destruct rest as [|f rest]; [done|]. cbn [length] in *.
    replace (S (S (length rest)) - 1)%nat with (S (S (length rest) - 1)) by lia. by rewrite <- Nat.succ_min_distr.
Qed.

(** [memcpy] of words. *)
Lemma copy_bytes_words m dest src n :
  dest mod 8 = 0 → src mod 8 = 0 → Z.of_nat n mod 8 = 0 →
  mapped m src (src + Z.of_nat n) → mapped m dest (dest + Z.of_nat n) →
  dest + Z.of_nat n ≤ src ∨ src + Z.of_nat n ≤ dest →
  (∀ x w, dest ≤ x < dest + Z.of_nat n → m !! x = Some w → is_cell w) →
  ∃ m', copy_bytes m dest src n = Ok m' ∧ same_words_outside m m' dest (dest + Z.of_nat n) ∧
  ∀ x w, src ≤ x < src + Z.of_nat n → x mod 8 = 0 → m !! x = Some w → is_cell w → m' !! (x + (dest - src)) = Some w.
Proof.
  intros Hd Hs Hn Hms Hmd Hap Hcells.
  destruct (copy_bytes_spec n m dest src) as (m' & E & L & _ & W);
    [intros a Ha; apply Hms; unfold word_address; dlia|intros a Ha; apply Hmd; unfold word_address; dlia|done|].
  exists m'. split; [done|]. split; [done|]. intros x w Hx H8 Hw Hc.
  set (y := x + (dest - src)). destruct (Hmd y) as [w0 Hw0]; [subst y; lia|subst y; dlia|].
  destruct (copy_bytes_cell n m dest src m' y w0 E Hw0) as (w' & Hw' & Hc'); [eapply Hcells; [|done]; subst y; lia|].
  rewrite Hw'. f_equal. apply (same_bytes_cell m m' y x w w'); [subst y; dlia|done| |done..]. intros i Hi.
  replace (y + i) with (dest + (x - src + i)) by (subst y; lia). rewrite L by dlia. f_equal. lia.
Qed.

#[local] Opaque while_loop.

Lemma iterate_callstack_eq m ch bottom top frames :
  call_stack m ch bottom top frames → 0 ≤ top → bottom < 2 ^ 64 →
  iterate_callstack ch false Ok record_frame top bottom (m, []) = Done (m, frames) ().
Proof.
  intros Hcs Ht Hb. pose proof (call_stack_bounds _ _ _ _ _ Hcs) as [Hlen _].
  unfold iterate_callstack. rewrite (bind_reads _ _ _ _ ()) by done. unfold loop.
  by rewrite (while_loop_iter _ (S (length frames)) _ (Done (m, frames) ())) by
    (lia || by apply (walk_context _ _ _ _ _ Hcs)).
Qed.

Lemma iterate_callstack_object_eq m ch stack len frames :
  call_stack m ch (stack + 16 + len) (stack + 16) frames → 0 ≤ stack → stack + 16 + len < 2 ^ 59 →
  m !! (stack + 8) = Some (tag_fixnum len) →
  iterate_callstack_object ch false Ok record_frame stack (m, []) = Done (m, frames) ().
Proof.
  intros Hcs Hs Hhi Hl. pose proof (call_stack_bounds _ _ _ _ _ Hcs) as [Hlen _].
  unfold iterate_callstack_object. rewrite (bind_reads _ _ _ _ len).
  2:{ unfold field. rewrite u64_id by (unfold is_cell; lia). rewrite (proj2 (load_Ok _ _ _) Hl), result_bind_ok.
      rewrite untag_tag_fixnum, s60_id; [done|]. apply fixnum_range_eq. lia. }
  unfold loop. rewrite (while_loop_iter _ (S (length frames)) _ (Done (m, frames) ())); [done|lia|].
  apply (walk_object m ch (stack + 16 + len) (stack + 16) frames stack len Hcs); unfold sizeof_callstack; lia.
Qed.

Section capture.
Context `{!linkage, !os_memory}.

End capture.

(** ** An example

    A word with frames of 32 bytes at 4194304 and a word whose frames are leaf
    frames at 4194560; a stack with four frames of theirs. *)

Definition walked_code : code_heap :=
  mk_code_heap (new_segment 4194304 65536) 4194304 (no_blocks 4194304 65536) {[ 4194304; 4194560 ]} ∅ ∅ ∅.

Definition walked_gc : gc_vm :=
  mk_gc_vm (mk_collector (small_heap 2621456) walked_code [] 0 0) (set_data_heap (small_heap 2621456) 0 0) []
    true None false (Some true).

Definition walked_vm : vm := with_gc (example_vm 0) walked_gc.

Definition walked_context : context :=
  mk_context 24992 25088 8184 16376 0 (mk_segment 8192 512 8704) (mk_segment 16384 512 16896)
    (mk_segment 24576 512 25088) 90176.

Definition walked_memory : memory :=
  <[4194304 := Z.shiftl 32 20 + 256]> (<[4194560 := 256]>
    (with_words (zeroed_region 2621456 14) 24992 [4194600; 0; 4194400; 0; 0; 0; 4194408; 0; 0; 0; 4194604; 0])).

Definition walked_frames : list (Z * Z * Z) :=
  [(16, 4194560, 4194600); (32, 4194304, 4194400); (32, 4194304, 4194408); (16, 4194560, 4194604)].

Lemma mapped_words m a n :
  a mod 8 = 0 → forallb (λ i, bool_decide (is_Some (m !! (a + 8 * i)))) (seqZ 0 n) = true → mapped m a (a + 8 * n).
Proof.
  intros Ha Hf x Hx H8. rewrite forallb_forall in Hf. specialize (Hf ((x - a) / 8)).
  rewrite bool_decide_eq_true, <- list_elem_of_In, elem_of_seqZ in Hf.
  replace x with (a + 8 * ((x - a) / 8)) by dlia. apply Hf. dlia.
Qed.

Lemma all_cells (m : memory) x w :
  forallb (λ p, (0 <=? p.2) && (p.2 <? 2 ^ 64)) (map_to_list m) = true → m !! x = Some w → is_cell w.
Proof.
  intros Hf Hx. rewrite forallb_forall in Hf. specialize (Hf (x, w)).
  rewrite <- list_elem_of_In, elem_of_map_to_list in Hf. specialize (Hf Hx). cbn [snd] in Hf. unfold is_cell. lia.
Qed.

