(* ===== verification/Io.v ===== *)
(** The wrappers of the C library's streams: vm/io.cpp.

    The library and what it reads and writes are the class [stdio]: the state
    of the streams is [world], and each function returns a new one.  The
    computations here have the vm and the world as their state. *)

From S2P Require Import Prelude.
From S2P Require Import Layouts.
From S2P Require Import Memory.
From S2P Require Import Bytes.
From S2P Require Import Effects.
From S2P Require Import Objects.
From S2P Require Import Relocation.
From S2P Require Import SlotVisitor.
From S2P Require Import GC.
From S2P Require Import VM.
From S2P Require Import Room.
From S2P Require Import Aliens.
From S2P Require Import HeapArrays.
Local Open Scope Z_scope.
Local Open Scope cell_scope.

(** * The C library *)

(** A stream is the value of its pointer.  [fread] is given the size of an item
    and the number of items, and returns the bytes that it puts into the
    buffer; [fwrite] is given the size of an item and the bytes of the items,
    and returns the number of items written; the calls that return [EOF], [-1]
    or [NULL] for a failure return [None]. *)
Class stdio := {
  world : Type;
  errno : world → Z;
  feof : world → Z → bool;
  clearerr : world → Z → world;
  fopen : world → list Z → list Z → world * option Z;
  fclose : world → Z → world * option ();
  getc : world → Z → world * option Z;
  putc : world → Z → Z → world * option ();
  fread : world → Z → Z → Z → world * list Z;
  fwrite : world → Z → Z → list Z → world * Z;
  ftell : world → Z → world * option Z;
  fseek : world → Z → Z → Z → world * option ();
  fflush : world → Z → world * option ()
}.

(** [errno] for a call that a signal interrupted, and for a bad argument. *)
Definition EINTR : Z := 4.
Definition EINVAL : Z := 22.

(** [memcpy] of bytes from outside the memory that is modelled. *)
Fixpoint put_bytes (m : memory) (a : Z) (bytes : list Z) : result memory :=
  match bytes with
  | [] => Ok m
  | b :: bytes => m ← store_byte m a b; put_bytes m (a + 1) bytes
  end.

Fixpoint get_bytes (m : memory) (a : Z) (n : nat) : result (list Z) :=
  match n with
  | 0%nat => Ok []
  | S n => b ← load_byte m a; bytes ← get_bytes m (a + 1) n; Ok (b :: bytes)
  end.

Section io.
Context `{!linkage, !os_memory, !stdio}.

Definition io (A : Type) : Type := eff (vm * world) A.

(** A computation of the vm. *)
Definition vm_io {A} (c : eff vm A) : io A := λ s,
  match c (s.1, s.2.1) with
  | Done s' a => Done (s'.1, (s'.2, s.2.2)) a
  | Again s' => Again (s'.1, (s'.2, s.2.2))
  | Fatal e => Fatal e
  end.

(** A call of the library. *)
Definition call {A} (f : world → world * A) : io A := λ s,
  let '(w, a) := f s.2.2 in Done (s.1, (s.2.1, w)) a.

Definition query {A} (f : world → A) : io A := λ s, Done s (f s.2.2).

(** * Reading and writing *)

(** src/vm/io.cpp:20-31 [raw_fread] (part): One turn of the loop.  [ptr] is
    cast to [int*], so [items_read * size] counts words of four bytes. *)
Definition fread_body (ptr size nitems stream items_read : Z) : io (Z + Z) :=
  bytes ← call (λ w, fread w stream size (nitems -& items_read));
  _ ← writes (λ m, put_bytes m (ptr +& (4 *& (items_read *& size))) bytes);
  let ret := Z.of_nat (length bytes) / size in
  at_end ← query (λ w, feof w stream);
  e ← query errno;
  if (ret =? 0) && at_end then mret (inr items_read)
  else if (ret =? 0) && negb (e =? EINTR) then mret (inr 0)
  else
    let items_read := items_read +& ret in
    mret (if items_read =? nitems then inr items_read else inl items_read).

(** src/vm/io.cpp:16-35 [raw_fread] *)
Definition raw_fread (ptr size nitems stream : Z) : io Z :=
  _ ← reads (λ _, check (0 <? nitems));
  loop (fread_body ptr size nitems stream) 0.

(** src/vm/io.cpp:38-42 [raw_fclose] *)
Definition raw_fclose (stream : Z) : io Z :=
  r ← call (λ w, fclose w stream);
  e ← query errno;
  mret (if bool_decide (r = None) && negb (e =? EINTR) then -1 else 0).

(** src/vm/io.cpp:45-50 [io_error_if_not_EINTR] *)
Definition io_error_if_not_EINTR : io () :=
  e ← query errno;
  if e =? EINTR then mret () else vm_io (raise ERROR_IO).

(** A call that is made again after a signal. *)
Definition retry {A} (f : world → world * option A) : io A :=
  loop (λ _ : (),
    r ← call f;
    match r with
    | None => _ ← io_error_if_not_EINTR; mret (inl ())
    | Some a => mret (inr a)
    end) ().

(** src/vm/io.cpp:52-62 [safe_fopen] *)
Definition safe_fopen (filename mode : list Z) : io Z := retry (λ w, fopen w filename mode).

(** src/vm/io.cpp:64-77 [safe_fgetc]: [-1] is [EOF]. *)
Definition safe_fgetc (stream : Z) : io Z :=
  loop (λ _ : (),
    c ← call (λ w, getc w stream);
    match c with
    | None =>
        at_end ← query (λ w, feof w stream);
        if (at_end : bool) then mret (inr (-1)) else _ ← io_error_if_not_EINTR; mret (inl ())
    | Some c => mret (inr c)
    end) ().

(** src/vm/io.cpp:79-85 [safe_fread] *)
Definition safe_fread (ptr size nitems stream : Z) : io Z :=
  ret ← raw_fread ptr size nitems stream;
  at_end ← query (λ w, feof w stream);
  _ ← (if (ret =? 0) && negb at_end then io_error_if_not_EINTR else mret ());
  mret ret.

(** src/vm/io.cpp:87-94 [safe_fputc] *)
Definition safe_fputc (c stream : Z) : io () := retry (λ w, putc w stream c).

(** src/vm/io.cpp:101-107 [safe_fwrite] (part): One turn of the loop, with the
    same cast. *)
Definition fwrite_body (ptr size nitems stream items_written : Z) : io (Z + Z) :=
  bytes ← reads (λ m, get_bytes m (ptr +& (4 *& (items_written *& size)))
                        (Z.to_nat ((nitems -& items_written) *& size)));
  ret ← call (λ w, fwrite w stream size bytes);
  _ ← (if ret =? 0 then io_error_if_not_EINTR else mret ());
  let items_written := items_written +& ret in
  mret (if items_written =? nitems then inr items_written else inl items_written).

(** src/vm/io.cpp:96-110 [safe_fwrite] *)
Definition safe_fwrite (ptr size nitems stream : Z) : io Z :=
  loop (fwrite_body ptr size nitems stream) 0.

(** src/vm/io.cpp:112-121 [safe_ftell]: the offset is returned as an [int]. *)
Definition safe_ftell (stream : Z) : io Z :=
  offset ← retry (λ w, ftell w stream);
  mret (s32 offset).

(** src/vm/io.cpp:123-144 [safe_fseek]: [SEEK_SET], [SEEK_CUR] and [SEEK_END]
    are 0, 1 and 2. *)
Definition safe_fseek (stream offset whence : Z) : io () :=
  _ ← (if (whence =? 0) || (whence =? 1) || (whence =? 2) then mret () else vm_io (raise ERROR_IO));
  retry (λ w, fseek w stream offset whence).

(** src/vm/io.cpp:146-153 [safe_fflush] *)
Definition safe_fflush (stream : Z) : io () := retry (λ w, fflush w stream).

(** * The primitives *)

(** src/vm/io.cpp:155-161 [primitive_fopen] *)
Definition primitive_fopen : io () :=
  v ← vm_io ctx_pop;
  mode ← vm_io (untag_check BYTE_ARRAY_TYPE v);
  v ← vm_io ctx_pop;
  path ← vm_io (untag_check BYTE_ARRAY_TYPE v);
  filename ← reads (λ m, c_string m (path +& sizeof_byte_array));
  mode ← reads (λ m, c_string m (mode +& sizeof_byte_array));
  file ← safe_fopen filename mode;
  a ← vm_io (allot_alien file);
  vm_io (ctx_push a).

(** src/vm/io.cpp:163-165 [pop_file_handle] *)
Definition pop_file_handle : io Z :=
  v ← vm_io ctx_pop;
  reads (λ m, alien_offset m v).

(** src/vm/io.cpp:167-169 [peek_file_handle] *)
Definition peek_file_handle : io Z :=
  v ← vm_io ctx_peek;
  reads (λ m, alien_offset m v).

(** src/vm/io.cpp:171-180 [primitive_fgetc] *)
Definition primitive_fgetc : io () :=
  file ← peek_file_handle;
  c ← safe_fgetc file;
  at_end ← query (λ w, feof w file);
  if (c =? -1) && at_end then
    _ ← call (λ w, (clearerr w file, ()));
    vm_io (ctx_replace false_object)
  else vm_io (ctx_replace (tag_fixnum c)).

(** src/vm/io.cpp:183-196 [primitive_fread] *)
Definition primitive_fread : io () :=
  file ← pop_file_handle;
  v ← vm_io ctx_pop;
  buf ← reads (λ m, alien_offset m v);
  size ← vm_io pop_array_size;
  if size =? 0 then
    n ← vm_io (box_unsigned_cell 0);
    vm_io (ctx_push n)
  else
    c ← safe_fread buf 1 size file;
    at_end ← query (λ w, feof w file);
    _ ← (if (c =? 0) || at_end then call (λ w, (clearerr w file, ())) else mret ());
    n ← vm_io (box_unsigned_cell c);
    vm_io (ctx_push n).

(** src/vm/io.cpp:198-202 [primitive_fputc] *)
Definition primitive_fputc : io () :=
  file ← pop_file_handle;
  v ← vm_io ctx_pop;
  ch ← vm_io (cell_to_fixnum v);
  safe_fputc (s32 ch) file.

(** src/vm/io.cpp:204-215 [primitive_fwrite] *)
Definition primitive_fwrite : io () :=
  file ← pop_file_handle;
  v ← vm_io ctx_pop;
  length ← vm_io (cell_to_cell v);
  v ← vm_io ctx_pop;
  text ← reads (λ m, alien_offset m v);
  if length =? 0 then mret ()
  else
    written ← safe_fwrite text 1 length file;
    if negb (written =? length) then io_error_if_not_EINTR else mret ().

(** src/vm/io.cpp:217-220 [primitive_ftell] *)
Definition primitive_ftell : io () :=
  file ← peek_file_handle;
  offset ← safe_ftell file;
  n ← vm_io (box_signed_cell offset);
  vm_io (ctx_replace n).

(** src/vm/io.cpp:222-227 [primitive_fseek] *)
Definition primitive_fseek : io () :=
  file ← pop_file_handle;
  v ← vm_io ctx_pop;
  whence ← vm_io (cell_to_fixnum v);
  v ← vm_io ctx_pop;
  offset ← vm_io (cell_to_fixnum v);
  safe_fseek file offset (s32 whence).

(** src/vm/io.cpp:229-232 [primitive_fflush] *)
Definition primitive_fflush : io () :=
  file ← pop_file_handle;
  safe_fflush file.

(** src/vm/io.cpp:234-238 [primitive_fclose] *)
Definition primitive_fclose : io () :=
  file ← pop_file_handle;
  r ← raw_fclose file;
  if r =? -1 then io_error_if_not_EINTR else mret ().
End io.

(** * Reading in pieces *)

Lemma get_bytes_ext m m' a n :
  (∀ x, a ≤ x < a + Z.of_nat n → load_byte m' x = load_byte m x) → get_bytes m' a n = get_bytes m a n.
Proof.
  revert a. induction n as [|n IH]; intros a H; cbn [get_bytes]; [done|]. rewrite H by lia.
  destruct (load_byte m a); [|done]. rewrite !result_bind_ok, IH; [done|]. intros x Hx. apply H. lia.
Qed.

Definition are_bytes (l : list Z) : Prop := Forall (λ b, 0 ≤ b < 256) l.

Lemma put_bytes_spec bytes : ∀ m a,
  bytes_mapped m a (a + Z.of_nat (length bytes)) → are_bytes bytes →
  ∃ m', put_bytes m a bytes = Ok m' ∧ get_bytes m' a (length bytes) = Ok bytes ∧
    same_bytes_outside m m' a (a + Z.of_nat (length bytes)).
Proof.
  induction bytes as [|b bytes IH]; intros m a Hm Hb; cbn [put_bytes].
  { exists m. split; [done|]. split; [done|apply same_bytes_refl]. }
  apply Forall_cons in Hb as [Hb Hbs]. cbn [length] in Hm |- *.
  destruct (store_byte_spec m a b) as (m1 & -> & L1 & S1); [apply Hm; lia|done|]. rewrite result_bind_ok.
  destruct (IH m1 (a + 1)) as (m2 & -> & G2 & S2); [|done|].
  { eapply same_bytes_mapped; [done|]. intros x Hx. apply Hm. lia. }
  exists m2. split; [done|]. split.
  - cbn [get_bytes]. by rewrite (proj2 S2), L1, result_bind_ok, G2 by lia.
  - apply (same_bytes_trans m m1 m2 a (a + 1)); [lia|done|]. by replace (a + Z.of_nat (S (length bytes))) with (a + 1 + Z.of_nat (length bytes)) by lia.
Qed.

Section pieces.
Context `{!stdio} (stream size nitems : Z).

(** [fread] delivers the items from the [n]th on in the pieces [chunks], one
    for each call, each with at least one item. *)
Inductive delivered (w : world) (n : Z) : list (list Z) → world → Prop :=
  | delivered_last bytes w' :
      fread w stream size (nitems - n) = (w', bytes) → n < nitems → are_bytes bytes →
      Z.of_nat (length bytes) = size * (nitems - n) →
      delivered w n [bytes] w'
  | delivered_more bytes k w1 chunks w' :
      fread w stream size (nitems - n) = (w1, bytes) → 0 < k → n + k < nitems → are_bytes bytes →
      Z.of_nat (length bytes) = size * k →
      delivered w1 (n + k) chunks w' →
      delivered w n (bytes :: chunks) w'.

Context (ptr : Z).
Hypothesis Hsize : 0 < size.
Hypothesis Hptr : 0 ≤ ptr ∧ ptr + 4 * (size * nitems) < 2 ^ 64.

(** Each piece is four times as far from the buffer as the bytes before it. *)
Fixpoint scattered (m : memory) (a : Z) (chunks : list (list Z)) : Prop :=
  match chunks with
  | [] => True
  | c :: chunks => get_bytes m a (length c) = Ok c ∧ scattered m (a + 4 * Z.of_nat (length c)) chunks
  end.

Lemma fread_turn m v w n k w' bytes :
  fread w stream size (nitems - n) = (w', bytes) → 0 ≤ n → 0 < k → n + k ≤ nitems → are_bytes bytes →
  Z.of_nat (length bytes) = size * k →
  bytes_mapped m (ptr + 4 * (size * n)) (ptr + 4 * (size * nitems)) →
  ∃ m', fread_body ptr size nitems stream n (m, (v, w)) =
      Done (m', (v, w')) (if n + k =? nitems then inr nitems else inl (n + k)) ∧
    get_bytes m' (ptr + 4 * (size * n)) (length bytes) = Ok bytes ∧
    same_bytes_outside m m' (ptr + 4 * (size * n)) (ptr + 4 * (size * n) + Z.of_nat (length bytes)).
Proof using Hsize Hptr.
  intros E Hn Hk Hnk Hb Hl Hm. assert (size * nitems < 2 ^ 64) by lia. assert (nitems ≤ size * nitems) by nia.
  assert (size * n ≤ size * nitems) by nia. assert (size * (n + k) ≤ size * nitems) by nia.
  assert (n ≤ size * n) by nia.
  destruct (put_bytes_spec bytes m (ptr + 4 * (size * n))) as (m' & Ep & G & S);
    [intros x Hx; apply Hm; lia|done|].
  exists m'. split; [|done]. unfold fread_body.
  rewrite (u64_id (nitems - n)), (u64_id (n * size)), (Z.mul_comm n size), (u64_id (4 * (size * n))), (u64_id (ptr + _))
    by (unfold is_cell; nia).
  rewrite (bind_Done _ _ _ (m, (v, w')) bytes) by (unfold call; cbn; by rewrite E).
  rewrite (bind_Done _ _ _ (m', (v, w')) ()) by by apply writes_Ok.
  rewrite (bind_Done _ _ _ (m', (v, w')) (feof w' stream)), (bind_Done _ _ _ (m', (v, w')) (errno w')) by done.
  rewrite Hl, (Z.mul_comm size k), Z.div_mul by lia.
  replace (k =? 0) with false by (symmetry; apply Z.eqb_neq; lia). cbn [andb].
  rewrite (u64_id (n + k)) by (unfold is_cell; lia).
  destruct (Z.eqb_spec (n + k) nitems) as [<-|]; done.
Qed.

Lemma fread_loop v w n chunks w' :
  delivered w n chunks w' → 0 ≤ n → ∀ m,
  bytes_mapped m (ptr + 4 * (size * n)) (ptr + 4 * (size * nitems)) →
  Z.of_nat (length chunks) ≤ nitems - n ∧
  ∃ m', iter_nat (loop_body (fread_body ptr size nitems stream)) (length chunks) ((m, (v, w)), n) =
      inr (Done (m', (v, w')) nitems) ∧
    scattered m' (ptr + 4 * (size * n)) chunks ∧
    ∀ x, x < ptr + 4 * (size * n) → load_byte m' x = load_byte m x.
Proof using Hsize Hptr.
  induction 1 as [w n bytes w' E Hn Hb Hl|w n bytes k w1 chunks w' E Hk Hnk Hb Hl Hd IH]; intros H0 m Hm.
  - destruct (fread_turn m v w n (nitems - n) w' bytes) as (m' & Et & G & S); [done|lia|lia|lia|done|done|done|].
    split; [cbn; lia|]. exists m'. cbn [length iter_nat]. unfold loop_body at 1. cbn [fst snd].
    rewrite Et. replace (n + (nitems - n)) with nitems by lia. rewrite Z.eqb_refl. split; [done|]. split; [by split|].
    intros x Hx. apply (proj2 S). lia.
  - destruct (fread_turn m v w n k w1 bytes) as (m1 & Et & G & S); [done|lia|lia|lia|done|done|done|].
    destruct (IH ltac:(lia) m1) as (Hlen & m' & Ei & Hs & Hun).
    { eapply same_bytes_mapped; [done|]. intros x Hx. apply Hm. nia. }
    split; [cbn [length]; lia|]. exists m'. cbn [length iter_nat]. unfold loop_body at 1. cbn [fst snd].
    rewrite Et. replace (n + k =? nitems) with false by (symmetry; apply Z.eqb_neq; lia). split; [done|].
    replace (ptr + 4 * (size * (n + k))) with (ptr + 4 * (size * n) + 4 * Z.of_nat (length bytes)) in * by (rewrite Hl; lia).
    split; [split|].
    + rewrite <- G. apply get_bytes_ext. intros x Hx. apply Hun. lia.
    + done.
    + intros x Hx. rewrite Hun by lia. apply (proj2 S). lia.
Qed.
End pieces.

(** C25. [raw_fread] reads all items when the library delivers them in several
    calls, but does not put them together: each piece is stored four times as
    far from the buffer as the bytes before it, because the pointer is cast to
    [int*].  The buffer must be four times as large as the items. *)
Theorem raw_fread_spec `{!stdio} m v w w' ptr size nitems stream chunks :
  delivered stream size nitems w 0 chunks w' →
  0 < size → 0 ≤ ptr → ptr + 4 * (size * nitems) < 2 ^ 64 →
  bytes_mapped m ptr (ptr + 4 * (size * nitems)) →
  ∃ m', raw_fread ptr size nitems stream (m, (v, w)) = Done (m', (v, w')) nitems ∧ scattered m' ptr chunks.
Proof.
  intros Hd Hs Hp Hp' Hm. replace ptr with (ptr + 4 * (size * 0)) in Hm at 1 by lia.
  destruct (fread_loop stream size nitems ptr Hs (conj Hp Hp') v w 0 chunks w' Hd ltac:(lia) m Hm)
    as (Hlen & m' & Ei & Hsc & _).
  assert (0 < nitems) by (inversion Hd; lia). assert (nitems ≤ size * nitems) by nia.
  exists m'. split; [|by replace ptr with (ptr + 4 * (size * 0)) by lia].
  unfold raw_fread. rewrite (bind_Done _ _ _ (m, (v, w)) ()).
  2:{ apply reads_Ok. by rewrite (proj2 (Z.ltb_lt 0 nitems)). }
  assert (Z.of_nat (length chunks) < 2 ^ 64) as Hn by lia. unfold loop. by rewrite (while_loop_iter _ _ _ _ Hn Ei).
Qed.

(** A library that has the bytes of one file, and delivers two at a time. *)
Definition slow_file : stdio := {|
  world := list Z;
  errno := λ _, 0;
  feof := λ w _, bool_decide (w = []);
  clearerr := λ w _, w;
  fopen := λ w _ _, (w, Some 1);
  fclose := λ w _, (w, Some ());
  getc := λ w _, (tail w, head w);
  putc := λ w _ _, (w, None);
  fread := λ w _ size n, let k := Z.to_nat (Z.min 2 (size * n)) in (drop k w, take k w);
  fwrite := λ w _ _ _, (w, 0);
  ftell := λ w _, (w, Some 0);
  fseek := λ w _ _ _, (w, Some ());
  fflush := λ w _, (w, Some ())
|}.

(** The third byte is at 8 from the buffer instead of 2. *)
Lemma raw_fread_spec_witness :
  ∃ v m', @raw_fread slow_file 4096 1 4 1 (with_words ∅ 4096 [0; 0], (v, [10; 20; 30; 40])) = Done (m', (v, [])) 4 ∧
    load_byte m' 4097 = Ok 20 ∧ load_byte m' 4104 = Ok 30.
Proof.
  exists (example_vm 0).
  destruct (@raw_fread_spec slow_file (with_words ∅ 4096 [0; 0]) (example_vm 0) [10; 20; 30; 40] [] 4096 1 4 1 [[10; 20]; [30; 40]])
    as (m' & E & G1 & G2 & _).
  - apply (delivered_more 1 1 4 (H := slow_file) [10; 20; 30; 40] 0 [10; 20] 2 [30; 40]); try done.
    { repeat constructor; lia. }
    apply (delivered_last 1 1 4 (H := slow_file) [30; 40] 2 [30; 40] []); try done. repeat constructor; lia.
  - lia.
  - lia.
  - lia.
  - intros a Ha. assert (word_address a = 4096 ∨ word_address a = 4104) as [-> | ->] by (unfold word_address; dlia); by eexists.
  - exists m'. split; [exact E|]. clear E. cbn [get_bytes length] in G1, G2.
    destruct (load_byte m' 4096), (load_byte m' (4096 + 1)) eqn:E1, (load_byte m' (4096 + 4 * Z.of_nat 2)) eqn:E2; cbn in *; try done.
    change (4096 + 4 * Z.of_nat 2) with 4104 in *. destruct (load_byte m' (4104 + 1)); cbn in *; [|done].
    change (4096 + 1) with 4097 in E1. simplify_eq. done.
Defined.
