(* ===== verification/Image.v ===== *)
(** Image files: vm/image.cpp, with the parameters of the vm.

    An image is a header, the bytes of tenured space and the bytes of the code
    heap.  Loading maps new heaps, reads the bytes into them and adds to every
    pointer how far its target has moved: [startup_fixup] is an instance of
    [Fixup].  The header is a local variable, at an address that the functions
    take as an argument. *)

From Stdlib Require Import String Ascii.
From S2P Require Import Prelude.
From S2P Require Import Layouts.
From S2P Require Import Memory.
From S2P Require Import Bytes.
From S2P Require Import Effects.
From S2P Require Import FreeList.
From S2P Require Import ObjectStartMap.
From S2P Require Import Spaces.
From S2P Require Import DataHeap.
From S2P Require Import Objects.
From S2P Require Import CodeBlocks.
From S2P Require Import Relocation.
From S2P Require Import Callbacks.
From S2P Require Import SlotVisitor.
From S2P Require Import Collectors.
From S2P Require Import Compaction.
From S2P Require Import GC.
From S2P Require Import VM.
From S2P Require Import Room.
From S2P Require Import Aliens.
From S2P Require Import HeapArrays.
From S2P Require Import ObjectPrimitives.
From S2P Require Import Io.
Local Open Scope Z_scope.
Local Open Scope cell_scope.

(** * The command line *)

(** The bytes of a string. *)
Definition text (s : string) : list Z := (λ c, Z.of_N (N_of_ascii c)) <$> list_ascii_of_string s.

(** [strtol] of decimal digits: the value of the digits at the front of a
    list. *)
Fixpoint scan_digits (s : list Z) (acc : option Z) : option Z :=
  match s with
  | c :: s => if (48 <=? c) && (c <=? 57) then scan_digits s (Some (default 0 acc * 10 + (c - 48))) else acc
  | [] => acc
  end.

Fixpoint skip_spaces (s : list Z) : list Z :=
  match s with
  | c :: rest => if (c =? 32) || ((9 <=? c) && (c <=? 13)) then skip_spaces rest else s
  | [] => []
  end.

(** The conversion [%d] of [sscanf] into an [int]. *)
Definition scan_int (s : list Z) : option Z :=
  match skip_spaces s with
  | 45 :: s => (λ n, s32 (- n)) <$> scan_digits s None
  | 43 :: s => s32 <$> scan_digits s None
  | s => s32 <$> scan_digits s None
  end.

(** The rest of [s] after [prefix]. *)
Fixpoint after_prefix (prefix s : list Z) : option (list Z) :=
  match prefix, s with
  | [], _ => Some s
  | p :: prefix, c :: s => if p =? c then after_prefix prefix s else None
  | _, [] => None
  end.

(** src/vm/image.cpp:5-12 [factor_arg]: [arg] is the format without its [%d]. *)
Definition factor_arg (str arg : list Z) : option Z := n ← after_prefix arg str; u64 <$> scan_int n.

(** src/vm/image.hpp:36-47 [vm_parameters] (part): The fields that the command
    line sets. *)
Record vm_parameters := mk_parameters {
  image_path : option (list Z);
  p_datastack_size : Z;
  p_retainstack_size : Z;
  p_callstack_size : Z;
  p_young_size : Z;
  p_aging_size : Z;
  p_tenured_size : Z;
  p_code_size : Z;
  p_max_pic_size : Z;
  p_callback_size : Z;
  fep : bool;
  console : bool;
  signals : bool
}.

(** src/vm/image.cpp:14-45 [vm_parameters] *)
Definition default_parameters : vm_parameters :=
  mk_parameters None (32 * 8) (32 * 8) (128 * 8) (8 / 4) (8 / 2) (24 * 8) 64 3 256 false true true.

(** src/vm/image.cpp:59-98 [init_from_args] (part): One argument. *)
Definition init_from_arg (p : vm_parameters) (arg : list Z) : vm_parameters :=
  let 'mk_parameters path ds rs cs young aging tenured code pic callbacks f c s := p in
  match factor_arg arg (text "-datastack=") with Some n => mk_parameters path n rs cs young aging tenured code pic callbacks f c s | None =>
  match factor_arg arg (text "-retainstack=") with Some n => mk_parameters path ds n cs young aging tenured code pic callbacks f c s | None =>
  match factor_arg arg (text "-callstack=") with Some n => mk_parameters path ds rs n young aging tenured code pic callbacks f c s | None =>
  match factor_arg arg (text "-young=") with Some n => mk_parameters path ds rs cs n aging tenured code pic callbacks f c s | None =>
  match factor_arg arg (text "-aging=") with Some n => mk_parameters path ds rs cs young n tenured code pic callbacks f c s | None =>
  match factor_arg arg (text "-tenured=") with Some n => mk_parameters path ds rs cs young aging n code pic callbacks f c s | None =>
  match factor_arg arg (text "-codeheap=") with Some n => mk_parameters path ds rs cs young aging tenured n pic callbacks f c s | None =>
  match factor_arg arg (text "-pic=") with Some n => mk_parameters path ds rs cs young aging tenured code n callbacks f c s | None =>
  match factor_arg arg (text "-callbacks=") with Some n => mk_parameters path ds rs cs young aging tenured code pic n f c s | None =>
  match after_prefix (text "-i=") arg with Some i => mk_parameters (Some i) ds rs cs young aging tenured code pic callbacks f c s | None =>
  if bool_decide (arg = text "-fep") then mk_parameters path ds rs cs young aging tenured code pic callbacks true c s
  else if bool_decide (arg = text "-no-signals") then mk_parameters path ds rs cs young aging tenured code pic callbacks f c false
  else if bool_decide (arg = text "-console") then mk_parameters path ds rs cs young aging tenured code pic callbacks f true s
  else p
  end end end end end end end end end end.

(** src/vm/image.cpp:52-100 [init_from_args]: [argv] without the name of the
    program. *)
Fixpoint init_from_args (p : vm_parameters) (argv : list (list Z)) : vm_parameters :=
  match argv with
  | [] => p
  | arg :: argv => if bool_decide (arg = text "--") then p else init_from_args (init_from_arg p arg) argv
  end.

(** * The header *)

(** src/vm/image.hpp:3-3 [image_magic] *)
Definition image_magic : Z := 0x0f0e0d0c.
(** src/vm/image.hpp:4-4 [image_version] *)
Definition image_version : Z := 4.

(** src/vm/image.hpp:13-31 [image_header]: the offsets of the fields. *)
Definition h_magic : Z := 0.
Definition h_version : Z := 8.
Definition h_data_relocation_base : Z := 16.
Definition h_data_size : Z := 24.
Definition h_code_relocation_base : Z := 32.
Definition h_code_size : Z := 40.
Definition h_special_objects : Z := 80.
Definition sizeof_image_header : Z := 80 + 8 * special_object_count.

(** src/vm/image.hpp:8-11 [embedded_image_footer] *)
Definition sizeof_footer : Z := 16.

(** src/vm/objects.hpp:128-134 [save_special_p] *)
Definition save_special_p (i : Z) : bool :=
  ((20 <=? i) && (i <=? 49)) || ((52 <=? i) && (i <=? 65)) || (i =? 67) || ((78 <=? i) && (i <=? 81)).

(** What the operating system does for images: the size of a page, [dlopen],
    which returns 0 when there is no such library, and [rename]. *)
Class image_os `{!stdio} := {
  getpagesize : Z;
  dlopen : list Z → Z;
  rename : world → list Z → list Z → world * option ()
}.

(** * The fixup *)

Section fixup.
Context (data_offset code_offset : Z).

(** src/vm/image.cpp:140-172 [startup_fixup] *)
Definition startup_fixup : Fixup := {|
  translated_code_block_map := true;
  fixup_data := λ obj, mret (obj +& data_offset);
  fixup_code := λ obj, mret (obj +& code_offset);
  translate_data := λ obj, Ok (obj +& data_offset);
  translate_code := λ compiled, Ok (compiled +& code_offset)
|}.

Section updaters.
Context `{!linkage, !stdio, !image_os}.

(** The fields of [dll]. *)
Definition dll_path : Z := 8.

(** src/vm/os-unix.cpp:44-46 [ffi_dlopen] *)
Definition ffi_dlopen (m : memory) (d : Z) : result memory :=
  path ← field m d dll_path;
  a ← alien_offset m path;
  name ← c_string m a;
  put_field m d dll_handle (dlopen name).

(** src/vm/image.cpp:183-200 [fixup_heaps] (part): What depends on the type of
    an object. *)
Definition update_by_type (obj : Z) : eff collector () :=
  header ← reads (λ m, load m obj);
  if header_type header =? ALIEN_TYPE then
    base ← reads (λ m, field m obj alien_base);
    if to_boolean base then writes (λ m, update_address m obj)
    else writes (λ m, t ← special_object m special_objects_address OBJ_CANONICAL_TRUE;
                      put_field m obj alien_expired t)
  else if header_type header =? DLL_TYPE then writes (λ m, ffi_dlopen m obj)
  else visit_object_code_block (H := startup_fixup) obj.

(** src/vm/image.cpp:179-201 [fixup_heaps] (part): [start_object_updater]. *)
Definition start_object_updater (obj : Z) : eff collector () :=
  c ← get_state;
  starts ← reads (λ _, record_object_start_offset (tn_starts (tenured (data c))) obj);
  _ ← put_state (with_starts c starts);
  _ ← visit_slots (H := startup_fixup) obj;
  update_by_type obj.

(** src/vm/image.cpp:204-209 [fixup_heaps] (part): [updater]. *)
Definition code_block_updater (b : barrier) (compiled : Z) : eff collector () :=
  _ ← visit_code_block_objects (H := startup_fixup) compiled;
  visit_instruction_operands (H := startup_fixup) b compiled (entry_point compiled -& code_offset).

Definition iterate_with (fixup_size : memory → Z → result Z) (fl : collector → free_list_allocator)
    (iter : Z → eff collector ()) : eff collector () := λ st,
  match iterate (λ _, fixup_size) (λ block _, as_iterator (iter block)) (fl st.2) st.1 st.2 with
  | Ok st => Done st ()
  | Err e => Fatal e
  end.

(** src/vm/image.cpp:179-202 [fixup_heaps] (part): Tenured space. *)
Definition fixup_data_heap : eff collector () :=
  iterate_with (size_with (translate_data (Fixup := startup_fixup))) (λ c, tn_alloc (tenured (data c)))
    start_object_updater.

(** src/vm/image.cpp:174-211 [fixup_heaps] *)
Definition fixup_heaps (b : barrier) (parent : vm_roots) : eff collector () :=
  _ ← visit_all_roots (H := startup_fixup) parent;
  _ ← fixup_data_heap;
  iterate_with code_size (λ c, allocator (code c)) (code_block_updater b).
End updaters.
End fixup.

(** * Loading *)

Section image.
Context `{!linkage, !os_memory, !stdio, !image_os}.

Definition exit {A} (status : Z) : io A := vm_io (raise (PROCESS_EXIT status)).

Definition with_tenured_size (p : vm_parameters) (n : Z) : vm_parameters :=
  let 'mk_parameters path ds rs cs young aging _ code pic callbacks f c s := p in
  mk_parameters path ds rs cs young aging n code pic callbacks f c s.

Definition change_collection (f : collector → collector) : io () :=
  vm_io (change (λ v, with_gc v (with_collection (vm_gc v) (f (collection (vm_gc v)))))).

(** src/vm/image.cpp:105-107 [load_data_heap] (part): The new heap. *)
Definition map_data_heap (p : vm_parameters) : io data_heap :=
  let bytes := heap_bytes (p_young_size p) (p_aging_size p) (p_tenured_size p) in
  '(m, address) ← reads (λ m, match map_segment m bytes with Some r => Ok r | None => Err FATAL_ERROR end);
  '(m, d) ← reads (λ _, new_data_heap m address (p_young_size p) (p_aging_size p) (p_tenured_size p));
  _ ← writes (λ _, Ok m);
  _ ← change_collection (λ c, with_data c d);
  _ ← vm_io (change (λ v, with_gc v (with_barrier (vm_gc v) (set_data_heap d (cards_array d) (decks_array d)))));
  mret d.

(** src/vm/image.cpp:102-118 [load_data_heap]: [h] is the address of the
    header. *)
Definition load_data_heap (file h : Z) (p : vm_parameters) : io () :=
  data_size ← reads (λ m, field m h h_data_size);
  let p := with_tenured_size p (Z.max ((data_size *& 3) / 2) (p_tenured_size p)) in
  d ← map_data_heap p;
  bytes_read ← raw_fread (fl_start (tn_alloc (tenured d))) 1 data_size file;
  if negb (bytes_read =? data_size) then vm_io (raise FATAL_ERROR)
  else
    '(m, fl) ← reads (λ m, initial_free_list m (tn_alloc (tenured d)) data_size);
    _ ← writes (λ _, Ok m);
    change_collection (λ c, with_tenured_alloc c fl).

(** src/vm/image.cpp:120-138 [load_code_heap] *)
Definition load_code_heap (file h : Z) (p : vm_parameters) : io () :=
  code_size ← reads (λ m, field m h h_code_size);
  if p_code_size p <? code_size then vm_io (raise FATAL_ERROR)
  else
    '(m, address) ← reads (λ m, match map_segment m (align (p_code_size p) getpagesize) with
                                | Some r => Ok r | None => Err FATAL_ERROR end);
    '(m, ch) ← reads (λ _, new_code_heap m address getpagesize (p_code_size p));
    _ ← writes (λ _, Ok m);
    _ ← (if code_size =? 0 then mret ()
         else
           bytes_read ← raw_fread (fl_start (allocator ch)) 1 code_size file;
           if bytes_read =? code_size then mret () else vm_io (raise FATAL_ERROR));
    '(m, fl) ← reads (λ m, initial_free_list m (allocator ch) code_size);
    _ ← writes (λ _, Ok m);
    ch ← reads (λ m, initialize_all_blocks_set m (set_all_blocks ch fl (all_blocks ch)));
    change_collection (λ c, with_code c ch).

(** src/vm/image.cpp:213-218 [read_embedded_image_footer]: [footer] is the
    address of the footer. *)
Definition read_embedded_image_footer (file footer : Z) : io bool :=
  _ ← safe_fseek file (- sizeof_footer) 2;
  _ ← safe_fread footer sizeof_footer 1 file;
  magic ← reads (λ m, load m footer);
  mret (magic =? image_magic).

(** src/vm/image.cpp:266-270 [load_image] (part): The special objects are those
    of the header, and the heaps are fixed up. *)
Definition install_image (h : Z) : eff vm () :=
  _ ← writes (λ m, move_words m special_objects_address (h +& h_special_objects) (Z.to_nat special_object_count));
  g ← ask vm_gc;
  data_base ← reads (λ m, field m h h_data_relocation_base);
  code_base ← reads (λ m, field m h h_code_relocation_base);
  let data_offset := fl_start (tn_alloc (tenured (heap_of g))) -& data_base in
  let code_offset := fl_start (allocator (code (collection g))) -& code_base in
  with_heaps (λ parent, collect (fixup_heaps data_offset code_offset (gc_barrier g) parent)).

(** src/vm/image.cpp:231-271 [load_image]: [path] is the path of the image;
    [h] and [footer] are the addresses of the local variables; without the
    messages. *)
Definition load_image (p : vm_parameters) (path : list Z) (embedded_image : bool) (h footer : Z) : io () :=
  file ← call (λ w, fopen w path (text "rb"));
  match file with
  | None => exit 1
  | Some file =>
      _ ← (if embedded_image then
             found ← read_embedded_image_footer file footer;
             if (found : bool) then
               image_offset ← reads (λ m, field m footer 8);
               safe_fseek file image_offset 0
             else exit 1
           else mret ());
      n ← raw_fread h sizeof_image_header 1 file;
      if negb (n =? 1) then vm_io (raise FATAL_ERROR)
      else
        magic ← reads (λ m, field m h h_magic);
        version ← reads (λ m, field m h h_version);
        if negb (magic =? image_magic) then vm_io (raise FATAL_ERROR)
        else if negb (version =? image_version) then vm_io (raise FATAL_ERROR)
        else
          _ ← load_data_heap file h p;
          _ ← load_code_heap file h p;
          _ ← raw_fclose file;
          vm_io (install_image h)
  end.

(** src/vm/image.cpp:354-366 [embedded_image_p]: of the path of the
    executable. *)
Definition embedded_image_p (vm_path : list Z) (footer : Z) : io bool :=
  file ← call (λ w, fopen w vm_path (text "rb"));
  match file with
  | None => mret false
  | Some file =>
      embedded_p ← read_embedded_image_footer file footer;
      _ ← call (λ w, fclose w file);
      mret embedded_p
  end.

(** * Saving *)

(** src/vm/image.cpp:280-289 [save_image] (part): The header; the fields that
    are reserved are not written. *)
Definition write_header (h : Z) : eff vm () :=
  g ← ask vm_gc;
  let tn := tn_alloc (tenured (heap_of g)) in
  let ch := allocator (code (collection g)) in
  _ ← writes (λ m,
    m ← put_field m h h_magic image_magic;
    m ← put_field m h h_version image_version;
    m ← put_field m h h_data_relocation_base (fl_start tn);
    m ← put_field m h h_data_size (occupied_space tn);
    m ← put_field m h h_code_relocation_base (fl_start ch);
    put_field m h h_code_size (occupied_space ch));
  for_each (seqZ 0 special_object_count) (λ i,
    x ← vm_special i;
    writes (λ m, put_field m (h +& h_special_objects) (8 *& i) (if save_special_p i then x else false_object))).

(** src/vm/os-unix.cpp:68-75 [move_file] *)
Definition move_file (path1 path2 : list Z) : io bool :=
  loop (λ _ : (),
    r ← call (λ w, rename w path1 path2);
    e ← query errno;
    match r with
    | Some _ => mret (inr true)
    | None => mret (if e =? EINTR then inl () else inr false)
    end) ().

(** A block of memory that is written unless it is empty. *)
Definition write_block (start size file : Z) : io bool :=
  if 0 <? size then n ← safe_fwrite start size 1 file; mret (n =? 1) else mret true.

(** src/vm/image.cpp:276-307 [save_image] *)
Definition save_image (saving_filename filename : list Z) (h : Z) : io bool :=
  _ ← vm_io (write_header h);
  data_start ← reads (λ m, field m h h_data_relocation_base);
  data_size ← reads (λ m, field m h h_data_size);
  code_start ← reads (λ m, field m h h_code_relocation_base);
  code_size ← reads (λ m, field m h h_code_size);
  file ← call (λ w, fopen w saving_filename (text "wb"));
  match file with
  | None => mret false
  | Some file =>
      n ← safe_fwrite h sizeof_image_header 1 file;
      if negb (n =? 1) then mret false
      else
        data_written ← write_block data_start data_size file;
        if negb data_written then mret false
        else
          code_written ← write_block code_start code_size file;
          if negb code_written then mret false
          else
            r ← raw_fclose file;
            if r =? -1 then mret false else move_file saving_filename filename
  end.

Definition with_callbacks_heap (v : vm) (fl : free_list_allocator) : vm :=
  let c := config v in
  mk_vm (vm_gc v) (ctx v) (spare_ctx v) (contexts v) (unused_contexts v) (active_set v) (callback_ids v)
    (callback_id v) (vm_data_roots v) (faulting_p v) (object_counter v) (tally v)
    (mk_vm_config (datastack_size c) (retainstack_size c) (callstack_size c) fl (samples c) (handles c)).

(** src/vm/image.cpp:325-335 [primitive_save_image] (part): What is not to be
    saved is dropped. *)
Definition strip_image : eff vm () :=
  _ ← for_each (seqZ 0 special_object_count) (λ i,
        if save_special_p i then mret ()
        else writes (λ m, store m (special_slot i) false_object));
  _ ← change (λ v, with_pool v (unused_contexts v) ∅);
  _ ← change (λ v, with_gc v (with_collection (vm_gc v) (with_uninitialized (collection (vm_gc v)) ∅)));
  v ← get_state;
  '(m, fl) ← reads (λ m, initial_free_list m (callbacks_heap (config v)) 0);
  _ ← writes (λ _, Ok m);
  change (λ v, with_callbacks_heap v fl).

(** src/vm/image.cpp:310-352 [primitive_save_image]: [h] is the address of the
    header. *)
Definition primitive_save_image (h : Z) : io () :=
  v ← vm_io ctx_pop;
  let then_die := to_boolean v in
  v ← vm_io ctx_pop;
  path2 ← vm_io (untag_check BYTE_ARRAY_TYPE v);
  v ← vm_io ctx_pop;
  path1 ← vm_io (untag_check BYTE_ARRAY_TYPE v);
  path1_saved ← reads (λ m, c_string m (path1 +& sizeof_byte_array));
  path2_saved ← reads (λ m, c_string m (path2 +& sizeof_byte_array));
  _ ← (if then_die then vm_io strip_image else mret ());
  _ ← vm_io (with_heaps (λ parent, primitive_compact_gc parent));
  ret ← save_image path1_saved path2_saved h;
  if then_die then exit (if (ret : bool) then 0 else 1)
  else if (ret : bool) then mret () else vm_io (raise ERROR_IO).
End image.
