(* ===== verification/ImageFixup.v ===== *)
(** A loaded image is moved: what [fixup_heaps] does to tenured space.

    The objects of an image lie one after the other from the start of tenured
    space, and their slots hold the addresses that the objects had when the
    image was saved.  The theorem is that every slot is adjusted, once, that
    the entry points of words and quotations move with the code heap, and that
    nothing else changes; the order of the objects does not matter, although
    the size of a tuple is read from its layout, which may or may not have been
    adjusted. *)

From S2P Require Import Prelude.
From S2P Require Import Layouts.
From S2P Require Import Memory.
From S2P Require Import Effects.
From S2P Require Import FreeList.
From S2P Require Import ObjectStartMap.
From S2P Require Import Spaces.
From S2P Require Import DataHeap.
From S2P Require Import Objects.
From S2P Require Import CodeBlocks.
From S2P Require Import Relocation.
From S2P Require Import SlotVisitor.
From S2P Require Import Collectors.
From S2P Require Import Compaction.
From S2P Require Import Cheney.
From S2P Require Import GC.
From S2P Require Import Dispatch.
From S2P Require Import VM.
From S2P Require Import Io.
From S2P Require Import Image.
Local Open Scope Z_scope.
Local Open Scope cell_scope.

#[local] Opaque while_loop.

(** An object: its address, type, size in bytes and number of slots. *)
Record image_object := mk_image_object { o_addr : Z; o_type : Z; o_size : Z; o_slots : Z }.

#[export] Instance image_object_eq_dec : EqDecision image_object.
Proof. solve_decision. Defined.

Section fixup.
Context (data_offset code_offset : Z).
Notation V := (startup_fixup data_offset code_offset).
Notation tr := (translate_data (Fixup := V)).

(** The value a slot gets. *)
Definition relocated (w : Z) : Z :=
  if immediate_p w then w else RETAG (UNTAG w +& data_offset) (TAG w).

(** The value an entry point gets. *)
Definition moved_entry_point (w : Z) : Z := if w =? 0 then 0 else w +& code_offset.

(** The offset of the entry point of a word or quotation. *)
Definition entry_field (type : Z) : option Z :=
  if type =? WORD_TYPE then Some 72 else if type =? QUOTATION_TYPE then Some 32 else None.

Definition slot_of (o : image_object) (x : Z) : Prop := ∃ i, 0 ≤ i < o_slots o ∧ x = o_addr o + 8 + 8 * i.
Definition entry_of (o : image_object) (x : Z) : Prop := ∃ e, entry_field (o_type o) = Some e ∧ x = o_addr o + e.

(** [m'] is [m] with the objects [objs] moved. *)
Record moved (objs : list image_object) (m m' : memory) : Prop := {
  moved_slots : ∀ o x, o ∈ objs → slot_of o x → m' !! x = relocated <$> m !! x;
  moved_entries : ∀ o x, o ∈ objs → entry_of o x → m' !! x = moved_entry_point <$> m !! x;
  moved_rest : ∀ x, (∀ o, o ∈ objs → ¬ slot_of o x ∧ ¬ entry_of o x) → m' !! x = m !! x
}.

(** An object of the image in memory.  It is no alien, library or call stack;
    its layout, if it is a tuple, is an array in the image. *)
Record object_in (objs : list image_object) (m : memory) (o : image_object) : Prop := {
  in_header : ∃ h, m !! o_addr o = Some h ∧ free_p h = false ∧ header_type h = o_type o;
  in_type : o_type o ≠ ALIEN_TYPE ∧ o_type o ≠ DLL_TYPE ∧ o_type o ≠ CALLSTACK_TYPE;
  in_size : size_with tr m (o_addr o) = Ok (o_size o);
  in_slots : slot_count_with tr m (o_addr o) = Ok (o_slots o);
  in_bounds : 0 ≤ o_slots o ∧ 16 ≤ o_size o ∧ 8 + 8 * o_slots o ≤ o_size o ∧
    (∀ e, entry_field (o_type o) = Some e → 8 + 8 * o_slots o ≤ e < o_size o);
  in_mapped : ∀ i, 0 ≤ i → 8 * i < o_size o → is_Some (m !! (o_addr o + 8 * i));
  in_layout : o_type o = TUPLE_TYPE → ∀ layout a, m !! (o_addr o + 8) = Some layout →
    tr (UNTAG layout) = Ok a → ∃ l, l ∈ objs ∧ slot_of l (a +& layout_size)
}.

(** The objects lie one after the other from [start] to [end_]. *)
Fixpoint in_sequence (start : Z) (objs : list image_object) (end_ : Z) : Prop :=
  match objs with
  | [] => start = end_
  | o :: objs => o_addr o = start ∧ in_sequence (start + o_size o) objs end_
  end.

(** ** Reading an object that has not been moved *)

Lemma relocated_fixnum w : TAG w = FIXNUM_TYPE → relocated w = w.
Proof. intros E. unfold relocated, immediate_p. by rewrite E. Qed.

(** What the size of an object depends on. *)
Lemma object_words objs m mc o :
  object_in objs m o → mc !! o_addr o = m !! o_addr o → mc !! (o_addr o + 8) = m !! (o_addr o + 8) →
  is_cell (o_addr o + 8) →
  (∀ l x w, l ∈ objs → slot_of l x → m !! x = Some w → TAG w = FIXNUM_TYPE → mc !! x = Some w) →
  size_with tr mc (o_addr o) = Ok (o_size o) ∧ slot_count_with tr mc (o_addr o) = Ok (o_slots o).
Proof.
  intros [(h & Hh & Hf & Ht) _ Hs Hn _ _ Hlay] E0 E1 Hc Hkeep.
  assert (load mc (o_addr o) = load m (o_addr o)) as L0 by (unfold load; by rewrite E0).
  assert (field mc (o_addr o) 8 = field m (o_addr o) 8) as L1.
  { unfold field, load. rewrite u64_id by done. by rewrite E1. }
  assert (∀ t, array_capacity t mc (o_addr o) = array_capacity t m (o_addr o)) as LA
    by (intros t; unfold array_capacity; by rewrite L0, L1).
  assert (load m (o_addr o) = Ok h) as Lh by by apply load_Ok.
  unfold size_with, base_size, slot_count_with, string_capacity in *. rewrite !L0, ?LA, ?L1, Lh in *.
  cbn [mbind result_bind] in *. rewrite Hf, Ht in *.
  destruct (Z.eqb_spec (o_type o) TUPLE_TYPE) as [E|]; [|done]. rewrite E in *. cbn [Z.eqb] in Hs, Hn |- *.
  assert (field m (o_addr o) 8 = load m (o_addr o + 8)) as LF by (unfold field; by rewrite u64_id).
  rewrite LF in *. apply result_bind_inv in Hn as (layout & Hn & En).
  pose proof (proj1 (load_Ok _ _ _) Hn) as Hw. rewrite Hn in *.
  unfold untag in En |- *. unfold untag in Hs.
  cbn [mbind result_bind translate_data startup_fixup] in En. rewrite Z.eqb_refl in *.
  cbn [orb check mbind result_bind] in En, Hs |- *.
  apply result_bind_inv in En as (k & Ek & En).
  assert (tuple_capacity mc (UNTAG layout +& data_offset) = Ok k) as Ek'.
  { unfold tuple_capacity, field in *. apply result_bind_inv in Ek as (w & Hl & Ew).
    apply result_bind_inv in Ew as (z & Hz & Ew).
    destruct (Hlay eq_refl layout _ Hw eq_refl) as (l & Hin & Hsl).
    rewrite (proj2 (load_Ok mc _ w)); [rewrite result_bind_ok; by rewrite Hz|].
    eapply Hkeep; [done|done|by apply load_Ok|]. unfold untag_fixnum in Hz.
    destruct (Z.eqb_spec (TAG w) FIXNUM_TYPE); [done|]. by cbn in Hz. }
  unfold tuple_size in *. cbn [mbind result_bind translate_data startup_fixup] in *. rewrite Ek, Ek' in *. done.
Qed.
(** ** Moving an object *)

Lemma visit_handle_moved m c x w :
  m !! x = Some w → visit_handle (H := V) x (m, c) = Done (<[x := relocated w]> m, c) ().
Proof.
  intros Hx. unfold visit_handle, relocated. rewrite (bind_reads _ _ _ _ w) by by apply load_Ok.
  destruct (immediate_p w); cbn [negb]; [by rewrite insert_id by done|].
  rewrite (bind_Done _ _ _ (m, c) (RETAG (UNTAG w +& data_offset) (TAG w))) by done.
  apply writes_Ok. unfold store. cbn. by rewrite Hx.
Qed.

Lemma visit_handles_moved c l : ∀ m,
  NoDup l → (∀ x, x ∈ l → is_Some (m !! x)) →
  ∃ m', for_each l (visit_handle (H := V)) (m, c) = Done (m', c) () ∧
    (∀ x, x ∈ l → m' !! x = relocated <$> m !! x) ∧ ∀ x, x ∉ l → m' !! x = m !! x.
Proof.
  induction l as [|y l IH]; intros m Hnd Hm; cbn [for_each].
  { exists m. split; [done|]. split; [by intros x ?%not_elem_of_nil|done]. }
  apply NoDup_cons in Hnd as [Hy Hnd]. destruct (Hm y) as [w Hw]; [apply elem_of_cons; by left|].
  rewrite (bind_Done _ _ _ _ _ (visit_handle_moved m c y w Hw)).
  destruct (IH (<[y := relocated w]> m)) as (m' & E & Hin & Hout); [done| |].
  { intros x Hx. rewrite lookup_insert_is_Some'. right. apply Hm. apply elem_of_cons. by right. }
  exists m'. split; [done|]. split.
  - intros x [->|Hx]%elem_of_cons.
    + by rewrite Hout, lookup_insert_eq, Hw by done.
    + rewrite Hin by done. rewrite lookup_insert_ne; [done|]. by intros ->.
  - intros x [Hne Hx]%not_elem_of_cons. rewrite Hout by done. by rewrite lookup_insert_ne.
Qed.

(** A word at an offset of an object. *)
Definition object_word (o : image_object) (x : Z) : Prop := o_addr o ≤ x < o_addr o + o_size o.

Lemma image_slot_in_object objs m o x : object_in objs m o → slot_of o x ∨ entry_of o x → object_word o x ∧ o_addr o < x.
Proof.
  intros Ho H. destruct (in_bounds _ _ _ Ho) as (Hn & Hs & Hb & He). unfold object_word.
  destruct H as [(i & Hi & ->)|(e & E & ->)]; [lia|]. specialize (He e E). lia.
Qed.

(** The entry point, [e] bytes into a word or quotation. *)
Lemma visit_entry_moved objs m mc c o e code_of :
  object_in objs m o → 0 ≤ o_addr o → o_addr o + o_size o < 2 ^ 64 →
  (∀ x, entry_of o x → mc !! x = m !! x) → entry_field (o_type o) = Some e → e mod 8 = 0 →
  (∀ m obj, code_of m obj = (entry ← field m obj e; _ ← check (negb (entry =? 0)); Ok (entry -& sizeof_code_block))) →
  ∃ m', visit_entry_point (H := V) code_of (o_addr o) e (mc, c) = Done (m', c) () ∧
    (∀ x, entry_of o x → m' !! x = moved_entry_point <$> m !! x) ∧ ∀ x, ¬ entry_of o x → m' !! x = mc !! x.
Proof.
  intros Ho Hlo Hhi Ee E H8 Hcode. destruct (in_bounds _ _ _ Ho) as (Hn & Hs & Hb & He). destruct (He e E) as [He1 He2].
  destruct (in_mapped _ _ _ Ho (e / 8)) as [w Hw]; [dlia|dlia|]. replace (8 * (e / 8)) with e in Hw by dlia.
  assert (∀ x, entry_of o x ↔ x = o_addr o + e) as Hx.
  { intros x. unfold entry_of. rewrite E. split; [by intros (? & [= <-] & ->)|intros ->; by exists e]. }
  assert (u64 (o_addr o + e) = o_addr o + e) as Hu by (apply u64_id; unfold is_cell; lia).
  assert (load mc (o_addr o + e) = Ok w) as Lw by (apply load_Ok; rewrite Ee; [done|by apply Hx]).
  unfold visit_entry_point, moved_entry_point, field. rewrite (bind_reads _ _ _ _ w) by by rewrite Hu.
  destruct (Z.eqb_spec w 0) as [->|Hw0].
  { exists mc. split; [done|]. split; [|done]. intros x Hx'. rewrite Ee by done. apply Hx in Hx' as ->. by rewrite Hw. }
  rewrite (bind_reads _ _ _ _ (w -& sizeof_code_block)).
  2:{ unfold field in Hcode. by rewrite Hcode, Hu, Lw, result_bind_ok, (proj2 (Z.eqb_neq w 0) Hw0). }
  rewrite (bind_Done _ _ _ (mc, c) ((w -& sizeof_code_block) +& code_offset)) by done.
  exists (<[o_addr o + e := w +& code_offset]> mc). split.
  - apply writes_Ok. unfold put_field, store. rewrite Hu. cbn [fst]. apply load_Ok in Lw. rewrite Lw. do 3 f_equal.
    unfold entry_point, sizeof_code_block, u64. dlia.
  - split; intros x Hx'.
    + apply Hx in Hx' as ->. rewrite lookup_insert_eq, Hw. cbn. by rewrite (proj2 (Z.eqb_neq w 0) Hw0).
    + apply lookup_insert_ne. intros <-. by apply Hx', Hx.
Qed.

Context `{!linkage, !stdio, !image_os}.

Lemma update_by_type_moved objs m mc c o :
  object_in objs m o → 0 ≤ o_addr o → o_addr o + o_size o < 2 ^ 64 →
  mc !! o_addr o = m !! o_addr o → (∀ x, entry_of o x → mc !! x = m !! x) →
  ∃ m', update_by_type data_offset code_offset (o_addr o) (mc, c) = Done (m', c) () ∧
    (∀ x, entry_of o x → m' !! x = moved_entry_point <$> m !! x) ∧ ∀ x, ¬ entry_of o x → m' !! x = mc !! x.
Proof.
  intros Ho Hlo Hhi E0 Ee. destruct (in_header _ _ _ Ho) as (h & Hh & _ & Ht).
  destruct (in_type _ _ _ Ho) as (Ha & Hd & Hk).
  assert (load mc (o_addr o) = Ok h) as Lh by (apply load_Ok; by rewrite E0).
  unfold update_by_type. rewrite (bind_reads _ _ _ _ h Lh), Ht.
  rewrite (proj2 (Z.eqb_neq _ _) Ha), (proj2 (Z.eqb_neq _ _) Hd).
  unfold visit_object_code_block. rewrite (bind_reads _ _ _ _ h Lh), Ht.
  pose proof (λ e code_of, visit_entry_moved objs m mc c o e code_of Ho Hlo Hhi Ee) as Hentry. unfold entry_field in Hentry.
  destruct (Z.eqb_spec (o_type o) WORD_TYPE) as [_|Hw]; [by apply Hentry|].
  destruct (Z.eqb_spec (o_type o) QUOTATION_TYPE) as [_|Hq]; [by apply Hentry|].
  rewrite (proj2 (Z.eqb_neq _ _) Hk). exists mc. split; [done|]. split; [|done].
  intros x (e & E & _). unfold entry_field in E. by rewrite (proj2 (Z.eqb_neq _ _) Hw), (proj2 (Z.eqb_neq _ _) Hq) in E.
Qed.
(** ** One object after the other *)

(** The objects of the image do not overlap, and have addresses. *)
Record image_ok (objs : list image_object) (m : memory) : Prop := {
  ok_object : ∀ o, o ∈ objs → object_in objs m o;
  ok_apart : ∀ o o', o ∈ objs → o' ∈ objs → o = o' ∨ o_addr o + o_size o ≤ o_addr o' ∨ o_addr o' + o_size o' ≤ o_addr o;
  ok_range : ∀ o, o ∈ objs → 0 ≤ o_addr o ∧ o_addr o + o_size o < 2 ^ 64
}.

Section objects.
Context (objs : list image_object) (m : memory) (Hok : image_ok objs m).

(** A word of one object is no slot or entry point of another. *)
Lemma other_object o o' x :
  o ∈ objs → o' ∈ objs → o ≠ o' → object_word o x → ¬ slot_of o' x ∧ ¬ entry_of o' x.
Proof using Hok.
  intros Ho Ho' Hne Hx. assert (slot_of o' x ∨ entry_of o' x → False) as Hno; [|tauto].
  intros [Hw _]%(image_slot_in_object objs m); [|by apply ok_object]. unfold object_word in *.
  destruct (ok_apart _ _ Hok o o' Ho Ho') as [?|?]; [done|lia].
Qed.

Lemma unmoved_object done mc o x :
  done ⊆ objs → o ∈ objs → o ∉ done → moved done m mc → object_word o x → mc !! x = m !! x.
Proof using Hok.
  intros Hd Ho Hnd Hm Hx. apply (moved_rest _ _ _ Hm). intros o' Ho'.
  apply (other_object o o'); [done|by apply Hd|by intros ->|done].
Qed.

Lemma moved_fixnums done mc l x w :
  done ⊆ objs → moved done m mc → l ∈ objs → slot_of l x → m !! x = Some w → TAG w = FIXNUM_TYPE → mc !! x = Some w.
Proof using Hok.
  intros Hd Hm Hl Hx Hw Ht. destruct (decide (l ∈ done)) as [Hin|Hout].
  - rewrite (moved_slots _ _ _ Hm l x Hin Hx), Hw. cbn. by rewrite relocated_fixnum.
  - rewrite <- Hw. apply (unmoved_object done mc l); [done|done|done|done|].
    apply (image_slot_in_object objs m l x); [by apply ok_object|by left].
Qed.

Lemma unmoved_sizes done mc o :
  done ⊆ objs → o ∈ objs → o ∉ done → moved done m mc →
  size_with tr mc (o_addr o) = Ok (o_size o) ∧ slot_count_with tr mc (o_addr o) = Ok (o_slots o).
Proof using Hok.
  intros Hd Ho Hnd Hm. pose proof (ok_object _ _ Hok o Ho) as Hob. pose proof (ok_range _ _ Hok o Ho) as Hr.
  destruct (in_bounds _ _ _ Hob) as (Hn & Hs & _).
  apply (object_words objs m); [done| | |unfold is_cell; lia|intros l x w; by apply (moved_fixnums done)].
  all: apply (unmoved_object done mc o); try done; unfold object_word; lia.
Qed.

Lemma visit_slots_moved done mc c o :
  done ⊆ objs → o ∈ objs → o ∉ done → moved done m mc →
  ∃ m', visit_slots (H := V) (o_addr o) (mc, c) = Done (m', c) () ∧
    (∀ x, slot_of o x → m' !! x = relocated <$> m !! x) ∧ ∀ x, ¬ slot_of o x → m' !! x = mc !! x.
Proof using Hok.
  intros Hd Ho Hnd Hm. pose proof (ok_object _ _ Hok o Ho) as Hob. pose proof (ok_range _ _ Hok o Ho) as Hr.
  destruct (in_bounds _ _ _ Hob) as (Hn & Hs & Hb & _). destruct (in_header _ _ _ Hob) as (h & Hh & _ & Ht).
  destruct (in_type _ _ _ Hob) as (_ & _ & Hk).
  assert (∀ x, object_word o x → mc !! x = m !! x) as Hun by (intros x; by apply (unmoved_object done)).
  unfold visit_slots. rewrite (bind_reads _ _ _ _ h) by (apply load_Ok; rewrite Hun; [done|unfold object_word; lia]).
  rewrite Ht, (proj2 (Z.eqb_neq _ _) Hk), (bind_reads _ _ _ _ (o_slots o)) by by apply (unmoved_sizes done).
  rewrite (u64_id (o_addr o + 8)), (u64_id (8 * _)), u64_id by (unfold is_cell; lia).
  unfold visit_object_array.
  assert (∀ x, x ∈ word_range (o_addr o + 8) (o_addr o + 8 + 8 * o_slots o) ↔ slot_of o x) as Hsl
    by (intros x; by rewrite word_range_spec by lia).
  assert (∀ x, slot_of o x → object_word o x) as Hin by (intros x Hx; apply (image_slot_in_object objs m o x); [done|by left]).
  destruct (visit_handles_moved c (word_range (o_addr o + 8) (o_addr o + 8 + 8 * o_slots o)) mc) as (m' & -> & M1 & M2).
  - apply NoDup_word_range.
  - intros x Hx%Hsl. rewrite Hun by by apply Hin. destruct Hx as (i & Hi & ->).
    replace (o_addr o + 8 + 8 * i) with (o_addr o + 8 * (i + 1)) by lia. apply (in_mapped _ _ _ Hob); lia.
  - exists m'. split; [done|]. split; intros x Hx.
    + rewrite M1 by by apply Hsl. by rewrite Hun by by apply Hin.
    + apply M2. by rewrite Hsl.
Qed.

Lemma object_updater_moved done mc c o starts :
  done ⊆ objs → o ∈ objs → o ∉ done → moved done m mc →
  record_object_start_offset (tn_starts (tenured (data c))) (o_addr o) = Ok starts →
  ∃ m', start_object_updater data_offset code_offset (o_addr o) (mc, c) = Done (m', with_starts c starts) () ∧
    moved (done ++ [o]) m m'.
Proof using Hok.
  intros Hd Ho Hnd Hm Er. unfold start_object_updater. rewrite (bind_Done _ _ _ (mc, c) c) by done.
  rewrite (bind_reads _ _ _ _ starts Er). rewrite (bind_Done _ _ _ (mc, with_starts c starts) ()) by done.
  destruct (visit_slots_moved done mc (with_starts c starts) o Hd Ho Hnd Hm) as (m1 & E1 & M1 & R1).
  rewrite (bind_Done _ _ _ _ _ E1). pose proof (ok_object _ _ Hok o Ho) as Hob.
  destruct (in_bounds _ _ _ Hob) as (Hn & Hs & Hb & He).
  assert (∀ x, entry_of o x → ¬ slot_of o x) as Hapart.
  { intros x (e & E & ->) (i & Hi & Hx). specialize (He e E). lia. }
  destruct (update_by_type_moved objs m m1 (with_starts c starts) o) as (m' & E2 & M2 & R2);
    [done|by apply (ok_range _ _ Hok)|by apply (ok_range _ _ Hok)| | |].
  - rewrite R1; [apply (unmoved_object done mc o); try done; unfold object_word; lia|]. intros (i & Hi & Hx). lia.
  - intros x Hx. rewrite R1 by by apply Hapart. apply (unmoved_object done mc o); try done.
    apply (image_slot_in_object objs m o x); [done|by right].
  - exists m'. split; [done|]. split.
    + intros o' x [Hin| ->%list_elem_of_singleton]%elem_of_app Hx.
      * destruct (other_object o' o x) as [N1 N2]; [by apply Hd|done|by intros ->| |].
        { apply (image_slot_in_object objs m o' x); [by apply ok_object, Hd|by left]. }
        rewrite R2, R1 by done. by apply (moved_slots _ _ _ Hm o').
      * rewrite R2; [by apply M1|]. intros Hx'. by apply (Hapart x).
    + intros o' x [Hin| ->%list_elem_of_singleton]%elem_of_app Hx; [|by apply M2].
      destruct (other_object o' o x) as [N1 N2]; [by apply Hd|done|by intros ->| |].
      { apply (image_slot_in_object objs m o' x); [by apply ok_object, Hd|by right]. }
      rewrite R2, R1 by done. by apply (moved_entries _ _ _ Hm o').
    + intros x Hx. destruct (Hx o) as [N1 N2]; [apply elem_of_app; right; by apply list_elem_of_singleton|].
      rewrite R2, R1 by done. apply (moved_rest _ _ _ Hm). intros o' Ho'. apply Hx. apply elem_of_app. by left.
Qed.
End objects.

(** ** The whole image *)

Lemma in_sequence_bounds objs : ∀ s e,
  in_sequence s objs e → (∀ o, o ∈ objs → 16 ≤ o_size o) →
  s + 16 * Z.of_nat (length objs) ≤ e ∧ ∀ o, o ∈ objs → s ≤ o_addr o ∧ o_addr o + o_size o ≤ e.
Proof.
  induction objs as [|o objs IH]; intros s e; cbn [in_sequence length].
  { intros -> _. split; [lia|]. by intros o ?%not_elem_of_nil. }
  intros [Ho Hs] Hsize. assert (16 ≤ o_size o) by (apply Hsize; left).
  destruct (IH _ _ Hs) as [Hlen Hb]; [intros o' Ho'; apply Hsize; by right|]. split; [lia|].
  intros o' [->|Ho']%elem_of_cons; [lia|]. specialize (Hb o' Ho'). lia.
Qed.

Lemma in_sequence_apart objs : ∀ s e,
  in_sequence s objs e → (∀ o, o ∈ objs → 16 ≤ o_size o) →
  NoDup objs ∧ ∀ o o', o ∈ objs → o' ∈ objs →
    o = o' ∨ o_addr o + o_size o ≤ o_addr o' ∨ o_addr o' + o_size o' ≤ o_addr o.
Proof.
  induction objs as [|o objs IH]; intros s e; cbn [in_sequence].
  { intros _ _. split; [constructor|]. by intros o o' ?%not_elem_of_nil. }
  intros [Ho Hs] Hsize. assert (16 ≤ o_size o) by (apply Hsize; left).
  assert (∀ o', o' ∈ objs → 16 ≤ o_size o') as Hsize' by (intros o' Ho'; apply Hsize; by right).
  destruct (IH _ _ Hs Hsize') as [Hnd Hap]. destruct (in_sequence_bounds objs _ _ Hs Hsize') as [_ Hb].
  split; [constructor; [|done]; intros Hin; specialize (Hb o Hin); lia|].
  intros o1 o2 [->|Hi1]%elem_of_cons [->|Hi2]%elem_of_cons; [by left| | |by apply Hap].
  - specialize (Hb o2 Hi2). lia.
  - specialize (Hb o1 Hi1). lia.
Qed.

(** The object-start map has a card for every object. *)
Definition starts_cover (osm : object_start_map) (objs : list image_object) : Prop :=
  ∀ o, o ∈ objs → (Z.to_nat (addr_to_card (o_addr o -& osm_start osm)) < length (object_start_offsets osm))%nat.

Lemma record_covered osm objs o :
  starts_cover osm objs → o ∈ objs →
  ∃ osm', record_object_start_offset osm (o_addr o) = Ok osm' ∧ starts_cover osm' objs.
Proof.
  intros Hc Ho. pose proof (Hc o Ho) as Hi. unfold record_object_start_offset.
  destruct (lookup_lt_is_Some_2 _ _ Hi) as [old Hold].
  rewrite (proj2 (read_Ok _ _ _) Hold), result_bind_ok.
  rewrite (write_Ok _ _ _ Hi), result_bind_ok. eexists. split; [done|].
  intros o' Ho'. cbn. rewrite length_insert. by apply Hc.
Qed.

(** The free block after the objects. *)
Definition free_rest (m : memory) (start end_ : Z) : Prop :=
  start = end_ ∨ ∃ h, m !! start = Some h ∧ free_p h = true ∧ free_block_size m start = Ok (end_ - start).

Notation body fl := (iterate_body (λ _ : collector, size_with tr)
  (λ block _, as_iterator (start_object_updater data_offset code_offset block)) (fl_end fl)).

Lemma iterate_objects objs m fl e :
  image_ok objs m → NoDup objs → e ≤ fl_end fl → fl_end fl < 2 ^ 64 →
  ∀ rest done mc c pos, objs = done ++ rest → in_sequence pos rest e → 0 ≤ pos →
  moved done m mc → starts_cover (tn_starts (tenured (data c))) objs →
  ∃ mc' c', iter_nat (body fl) (length rest) (mc, c, pos) = inl (mc', c', e) ∧ moved objs m mc' ∧
    ∃ starts, c' = with_starts c starts.
Proof.
  intros Hok Hnd He Hf. induction rest as [|o rest IH]; intros done mc c pos E Hs Hp Hm Hc; cbn [length iter_nat].
  { cbn in Hs. subst pos. rewrite app_nil_r in E. subst done. exists mc, c. split; [done|]. split; [done|].
    exists (tn_starts (tenured (data c))). by destruct c as [[? ? ? ? ? ? ? ? [] ? ?] ? ? ? ?]. }
  destruct Hs as [Ha Hs]. assert (o ∈ objs) as Ho by (rewrite E; apply elem_of_app; right; left).
  assert (done ⊆ objs) as Hd by (intros x Hx; rewrite E; apply elem_of_app; by left).
  assert (o ∉ done) as Hno.
  { intros Hin. rewrite E in Hnd. apply NoDup_app in Hnd as (_ & Hdis & _). apply (Hdis o Hin). left. }
  pose proof (ok_object _ _ Hok o Ho) as Hob. destruct (in_bounds _ _ _ Hob) as (Hn & Hsz & _).
  destruct (in_sequence_bounds rest _ _ Hs) as [Hlen _].
  { intros o' Ho'. apply (in_bounds _ _ _ (ok_object _ _ Hok o' ltac:(rewrite E; apply elem_of_app; right; by right))). }
  destruct (record_covered _ objs o Hc Ho) as (starts & Er & Hc').
  destruct (object_updater_moved objs m Hok done mc c o starts Hd Ho Hno Hm Er) as (m' & Eu & Hm').
  destruct (unmoved_sizes objs m Hok done mc o Hd Ho Hno Hm) as [Es _].
  destruct (in_header _ _ _ Hob) as (h & Hh & Hfr & _).
  assert (load mc (o_addr o) = Ok h) as Lh.
  { apply load_Ok. rewrite <- Hh. apply (unmoved_object objs m Hok done mc o); try done. unfold object_word; lia. }
  unfold iterate_body at 1. rewrite Ha in *. rewrite (proj2 (Z.eqb_neq pos (fl_end fl))) by lia.
  rewrite Es, result_bind_ok, Lh, result_bind_ok, Hfr. cbn [negb]. unfold as_iterator. rewrite Eu, result_bind_ok.
  rewrite u64_id by (unfold is_cell; lia).
  destruct (IH (done ++ [o]) m' (with_starts c starts) (pos + o_size o)) as (mc' & c' & Ei & Hmv & st & ->);
    [by rewrite <- app_assoc|done|lia|done|done|].
  exists mc', (with_starts (with_starts c starts) st). split; [done|]. split; [done|]. exists st. done.
Qed.
(** The free block is passed over. *)
Lemma iterate_free_rest fl m m' c end_ :
  free_rest m end_ (fl_end fl) → m' !! end_ = m !! end_ → 0 ≤ end_ → end_ ≤ fl_end fl < 2 ^ 64 →
  ∃ n, (n ≤ 2)%nat ∧ iter_nat (body fl) n (m', c, end_) = inr (Ok (m', c)).
Proof.
  intros Hfree Hend Hlo He.
  assert (body fl (m', c, fl_end fl) = inr (Ok (m', c))) as Hstop by (unfold iterate_body; by rewrite Z.eqb_refl).
  destruct (decide (end_ = fl_end fl)) as [->|Hne]; [exists 1%nat; split; [lia|]; cbn [iter_nat]; by rewrite Hstop|].
  destruct Hfree as [?|(h & Hh & Hf & Hs)]; [done|]. exists 2%nat. split; [done|]. cbn [iter_nat].
  assert (load m' end_ = Ok h) as Lh by (apply load_Ok; by rewrite Hend).
  assert (size_with tr m' end_ = Ok (fl_end fl - end_)) as Es.
  { unfold size_with. rewrite Lh, result_bind_ok, Hf. unfold free_block_size in *. rewrite Lh.
    by rewrite (proj2 (load_Ok m end_ h) Hh) in Hs. }
  unfold iterate_body at 1. rewrite (proj2 (Z.eqb_neq end_ (fl_end fl))) by done.
  rewrite Es, result_bind_ok, Lh, result_bind_ok, Hf. cbn [negb]. rewrite result_bind_ok.
  replace (end_ + (fl_end fl - end_)) with (fl_end fl) by lia. rewrite u64_id by (unfold is_cell; lia).
  by rewrite Hstop.
Qed.
End fixup.


(** A tuple and its layout, which comes after it, from an image that was saved
    at 1044480. *)
Definition tuple_image : memory := list_to_map (
  array_words 1048608 [tag WORD_TYPE 1044992; tag_fixnum 1; tag_fixnum 0; false_object] ++
  [(1048576, initialize TUPLE_TYPE); (1048584, tag ARRAY_TYPE 1044512); (1048592, tag TUPLE_TYPE 1044480);
   (1048600, 0); (1048656, 1048496 + 1)]).

Definition tuple_objects : list image_object :=
  [mk_image_object 1048576 TUPLE_TYPE 32 2; mk_image_object 1048608 ARRAY_TYPE 48 5].

Definition image_collector : collector := collection (small_vm 2621440).

Definition plain_os : @image_os slow_file :=
  {| getpagesize := 4096; dlopen := λ _, 0; rename := λ w _ _, (w, Some ()) |}.

Lemma tuple_objects_in o : o ∈ tuple_objects → object_in 4096 0 tuple_objects tuple_image o.
Proof.
  unfold tuple_objects. rewrite !elem_of_cons, elem_of_nil. intros [-> | [-> |[]]]; split.
  1,8: eexists; vm_compute; done.
  1,7: done.
  1,2,6,7: vm_compute; reflexivity.
  1,4: cbn; split_and!; [lia..|]; intros e; vm_compute; done.
  1,3: cbn [o_addr o_size]; intros i Hi Hs.
  - assert (i = 0 ∨ i = 1 ∨ i = 2 ∨ i = 3) as Hc by lia. destruct_or! Hc; subst i; vm_compute; eauto.
  - assert (i = 0 ∨ i = 1 ∨ i = 2 ∨ i = 3 ∨ i = 4 ∨ i = 5) as Hc by lia. destruct_or! Hc; subst i; vm_compute; eauto.
  - intros _ layout a Hl Ea. assert (tuple_image !! 1048584 = Some (tag ARRAY_TYPE 1044512)) as Hl' by (vm_compute; done).
    change (tuple_image !! 1048584 = Some layout) in Hl. rewrite Hl' in Hl. injection Hl as <-. injection Ea as <-.
    exists (mk_image_object 1048608 ARRAY_TYPE 48 5). split; [right; left|by exists 2].
  - done.
Qed.

