(* ===== verification/Profiler.v ===== *)
(** The sampling profiler and safepoints: vm/sampling_profiler.cpp and
    vm/safepoints.cpp.

    A timer signal adds to the counters of the current sample and protects the
    safepoint page; at the next safepoint the vm's thread takes the counters
    and records the call stack with them.  The counters are changed by atomic
    operations, because the signal may be delivered to another thread. *)

From S2P Require Import Prelude.
From S2P Require Import Layouts.
From S2P Require Import Memory.
From S2P Require Import Effects.
From S2P Require Import DataHeap.
From S2P Require Import Objects.
From S2P Require Import CodeBlocks.
From S2P Require Import Relocation.
From S2P Require Import SlotVisitor.
From S2P Require Import GC.
From S2P Require Import VM.
From S2P Require Import Room.
From S2P Require Import Contexts.
From S2P Require Import HeapArrays.
From S2P Require Import Errors.
Local Open Scope Z_scope.
Local Open Scope cell_scope.

(** * State *)

(** src/vm/sampling_profiler.hpp:10-19 [profiling_sample] (part): The five
    counters. *)
Record sample_counts := mk_counts {
  sample_count : Z;
  gc_sample_count : Z;
  jit_sample_count : Z;
  foreign_sample_count : Z;
  foreign_thread_sample_count : Z
}.

(** src/vm/sampling_profiler.hpp:3-40 [profiling_sample]: The field [thread] is
    a root of collections, so it is a word of memory, see [sample_thread]. *)
Record profiling_sample := mk_sample {
  counts : sample_counts;
  callstack_begin : Z;
  callstack_end : Z
}.

(** src/vm/sampling_profiler.hpp:35-39 [profiling_sample::empty] *)
Definition empty_counts (c : sample_counts) : bool :=
  s64 (sample_count c + gc_sample_count c + jit_sample_count c + foreign_sample_count c +
       foreign_thread_sample_count c) =? 0.

(** src/vm/vm.hpp:68-88 [factor_vm] (part): The profiler's fields, with those
    of safepoints from below.  [samples_data] is where the vector [samples] has
    its elements; [safepoint_guard] tells whether the safepoint page is
    protected; [timer] is the period of the interval timer in microseconds, 0
    when it is disarmed. *)
Record profiler := mk_profiler {
  sampling_profiler_p : bool;
  samples_per_second : Z;
  vm_samples : list profiling_sample;
  samples_data : Z;
  current_sample : sample_counts;
  safepoint_fep_p : bool;
  fep_p : bool;
  stop_on_ctrl_break : bool;
  safepoint_guard : bool;
  timer : Z
}.

Definition with_running (p : profiler) (b : bool) : profiler :=
  mk_profiler b (samples_per_second p) (vm_samples p) (samples_data p) (current_sample p) (safepoint_fep_p p)
    (fep_p p) (stop_on_ctrl_break p) (safepoint_guard p) (timer p).
Definition with_rate (p : profiler) (rate : Z) : profiler :=
  mk_profiler (sampling_profiler_p p) rate (vm_samples p) (samples_data p) (current_sample p) (safepoint_fep_p p)
    (fep_p p) (stop_on_ctrl_break p) (safepoint_guard p) (timer p).
Definition with_samples (p : profiler) (l : list profiling_sample) : profiler :=
  mk_profiler (sampling_profiler_p p) (samples_per_second p) l (samples_data p) (current_sample p) (safepoint_fep_p p)
    (fep_p p) (stop_on_ctrl_break p) (safepoint_guard p) (timer p).
Definition with_current (p : profiler) (c : sample_counts) : profiler :=
  mk_profiler (sampling_profiler_p p) (samples_per_second p) (vm_samples p) (samples_data p) c (safepoint_fep_p p)
    (fep_p p) (stop_on_ctrl_break p) (safepoint_guard p) (timer p).
Definition with_fep (p : profiler) (b : bool) : profiler :=
  mk_profiler (sampling_profiler_p p) (samples_per_second p) (vm_samples p) (samples_data p) (current_sample p) b
    (fep_p p) (stop_on_ctrl_break p) (safepoint_guard p) (timer p).
Definition with_ctrl_break (p : profiler) (b : bool) : profiler :=
  mk_profiler (sampling_profiler_p p) (samples_per_second p) (vm_samples p) (samples_data p) (current_sample p)
    (safepoint_fep_p p) (fep_p p) b (safepoint_guard p) (timer p).
Definition with_guard (p : profiler) (b : bool) : profiler :=
  mk_profiler (sampling_profiler_p p) (samples_per_second p) (vm_samples p) (samples_data p) (current_sample p)
    (safepoint_fep_p p) (fep_p p) (stop_on_ctrl_break p) b (timer p).
Definition with_timer (p : profiler) (t : Z) : profiler :=
  mk_profiler (sampling_profiler_p p) (samples_per_second p) (vm_samples p) (samples_data p) (current_sample p)
    (safepoint_fep_p p) (fep_p p) (stop_on_ctrl_break p) (safepoint_guard p) t.

(** The vm with its profiler. *)
Definition prof (A : Type) : Type := eff (vm * profiler) A.

Definition vm_prof {A} (c : eff vm A) : prof A := λ s,
  match c (s.1, s.2.1) with
  | Done s' a => Done (s'.1, (s'.2, s.2.2)) a
  | Again s' => Again (s'.1, (s'.2, s.2.2))
  | Fatal e => Fatal e
  end.

Definition prof_ask {A} (f : profiler → A) : prof A := λ s, Done s (f s.2.2).
Definition prof_change (f : profiler → profiler) : prof () := λ s, Done (s.1, (s.2.1, f s.2.2)) ().

(** The threads of the samples are roots. *)
Definition with_sample_roots (v : vm) (handles_ : list Z) : vm :=
  let c := config v in
  mk_vm (vm_gc v) (ctx v) (spare_ctx v) (contexts v) (unused_contexts v) (active_set v) (callback_ids v)
    (callback_id v) (vm_data_roots v) (faulting_p v) (object_counter v) (tally v)
    (mk_vm_config (datastack_size c) (retainstack_size c) (callstack_size c) (callbacks_heap c) handles_ (handles c)).

(** The address of the first field of the sample with index [i]. *)
Definition sizeof_profiling_sample : Z := 64.
Definition sample_thread (p : profiler) (i : nat) : Z := samples_data p + sizeof_profiling_sample * Z.of_nat i.

(** * Counters *)

(** src/vm/sampling_profiler.cpp:39-51 [profiling_sample::record_counts]: when
    no signal comes in between; see [sampler_step] below for the signals. *)
Definition record_counts (current : sample_counts) : sample_counts * sample_counts :=
  let returned := current in
  (mk_counts (s64 (sample_count current - sample_count returned))
             (s64 (gc_sample_count current - gc_sample_count returned))
             (s64 (jit_sample_count current - jit_sample_count returned))
             (s64 (foreign_sample_count current - foreign_sample_count returned))
             (s64 (foreign_thread_sample_count current - foreign_thread_sample_count returned)), returned).

(** src/vm/sampling_profiler.cpp:53-60 [profiling_sample::clear_counts] *)
Definition clear_counts : sample_counts := mk_counts 0 0 0 0 0.

(** src/vm/safepoints.cpp:16-28 [enqueue_samples] (part): What a signal adds to
    the counters. *)
Definition sample_increments (n : Z) (foreign_thread in_gc in_jit in_code : bool) : sample_counts :=
  let when (b : bool) := if b then n else 0 in
  mk_counts n (when (negb foreign_thread && in_gc)) (when (negb foreign_thread && in_jit))
    (when (negb foreign_thread && negb in_code)) (when foreign_thread).

Definition add_counts (a b : sample_counts) : sample_counts :=
  mk_counts (s64 (sample_count a + sample_count b)) (s64 (gc_sample_count a + gc_sample_count b))
    (s64 (jit_sample_count a + jit_sample_count b)) (s64 (foreign_sample_count a + foreign_sample_count b))
    (s64 (foreign_thread_sample_count a + foreign_thread_sample_count b)).

(** src/vm/objects.hpp:70-100 [special_object] (part) *)
Definition OBJ_SAMPLE_CALLSTACKS : Z := 51.
Definition OBJ_CURRENT_THREAD : Z := 68.

(** The address of an element of [special_objects]. *)
Definition special_place `{!linkage} (i : Z) : Z := special_objects_address +& (8 *& i).

Section profiler.
Context `{!linkage, !os_memory}.

(** * Growable arrays on the heap *)

(** src/vm/sampling_profiler.cpp:7-9 [growarr_capacity] *)
Definition growarr_capacity (m : memory) (growarr : Z) : result Z :=
  w ← load m (growarr +& sizeof_array); n ← untag_fixnum w; Ok (u64 n).

(** src/vm/sampling_profiler.cpp:11-13 [growarr_nth] *)
Definition growarr_nth (m : memory) (growarr slot : Z) : result Z :=
  w ← load m ((growarr +& sizeof_array) +& 8);
  contents ← untag ARRAY_TYPE w;
  heap_array_nth m contents slot.

(** src/vm/sampling_profiler.cpp:16-22 [allot_growarr] *)
Definition allot_growarr : eff vm Z :=
  a ← vm_allot_filled_array 10 false_object;
  rooted (tag ARRAY_TYPE a) (λ contents,
    growarr ← vm_allot_array ARRAY_TYPE sizeof_array 8 2;
    _ ← vm_set_array_nth growarr 0 (tag_fixnum 0);
    c ← root_value ARRAY_TYPE contents;
    _ ← vm_set_array_nth growarr 1 c;
    mret growarr).

(** src/vm/sampling_profiler.cpp:25-37 [growarr_add] *)
Definition growarr_add (growarr_ elt_ : Z) : eff vm () :=
  rooted (tag ARRAY_TYPE growarr_) (λ growarr, rooted elt_ (λ elt,
    g ← root_untagged ARRAY_TYPE growarr;
    c ← reads (λ m, load m ((g +& sizeof_array) +& 8));
    rooted c (λ contents,
      g ← root_untagged ARRAY_TYPE growarr;
      count ← reads (λ m, growarr_capacity m g);
      a ← root_untagged ARRAY_TYPE contents;
      capacity ← reads (λ m, array_capacity ARRAY_TYPE m a);
      _ ← (if count =? capacity then
             a ← root_untagged ARRAY_TYPE contents;
             a ← vm_reallot_array ARRAY_TYPE sizeof_array 8 a (2 *& count);
             _ ← writes (λ m, store m contents (tag ARRAY_TYPE a));
             g ← root_untagged ARRAY_TYPE growarr;
             c ← root_value ARRAY_TYPE contents;
             vm_set_array_nth g 1 c
           else mret ());
      a ← root_untagged ARRAY_TYPE contents;
      x ← root_value TYPE_COUNT elt;
      _ ← vm_set_array_nth a count x;
      g ← root_untagged ARRAY_TYPE growarr;
      vm_set_array_nth g 0 (tag_fixnum (count +& 1))))).

(** * Samples *)

(** src/vm/callstack.hpp:54-71 [iterate_callstack] (part): One turn of the
    loop, with an iterator that allocates: the code heap is the current one. *)
Definition stack_body {A} (iterator : A → Z → Z → Z → Z → eff vm A) (bottom : Z) (st : Z * A)
    : eff vm (Z * A + A) :=
  let '(top, a) := st in
  if top <? bottom then
    addr ← reads (λ m, load m top);
    _ ← reads (λ _, check (negb (addr =? 0)));
    g ← ask vm_gc;
    owner ← reads (λ _, code_block_for_address (code (collection g)) addr);
    let delta := (addr -& owner) -& sizeof_code_block in
    natural_frame_size ← reads (λ m, stack_frame_size m owner);
    let size := if (0 <? natural_frame_size) && (0 <? delta) then natural_frame_size else LEAF_FRAME_SIZE in
    a ← iterator a top size owner addr;
    mret (inl (top +& size, a))
  else
    _ ← reads (λ _, check (top =? bottom));
    mret (inr a).

(** src/vm/sampling_profiler.cpp:74-83 [record_sample] (part): [recorder]; its
    value is [skip_p]. *)
Definition recorder (callstacks : Z) (skip_p : bool) (frame_top size owner addr : Z) : eff vm bool :=
  if skip_p then mret false
  else
    g ← root_untagged ARRAY_TYPE callstacks;
    w ← reads (λ m, field m owner 8);
    _ ← growarr_add g w;
    mret false.

(** src/vm/sampling_profiler.cpp:69-85 [record_sample] (part): The call stack is
    appended; the indices of its first entry and of the one after its last. *)
Definition record_callstack (prolog_p : bool) : eff vm (Z * Z) :=
  callstacks_cell ← vm_special OBJ_SAMPLE_CALLSTACKS;
  rooted callstacks_cell (λ callstacks,
    g ← root_untagged ARRAY_TYPE callstacks;
    begin ← reads (λ m, growarr_capacity m g);
    c ← current_context;
    _ ← loop (stack_body (recorder callstacks) (callstack_bottom c)) (callstack_top c, prolog_p);
    g ← root_untagged ARRAY_TYPE callstacks;
    end_ ← reads (λ m, growarr_capacity m g);
    mret (begin, end_)).

(** [samples.push_back] of a sample, with the root of its thread. *)
Definition push_sample (s : profiling_sample) (thread : Z) : prof () :=
  p ← prof_ask id;
  let slot := sample_thread p (length (vm_samples p)) in
  _ ← writes (λ m, store m slot thread);
  _ ← prof_change (λ p, with_samples p (vm_samples p ++ [s]));
  vm_prof (change (λ v, with_sample_roots v (samples (config v) ++ [slot]))).

(** src/vm/sampling_profiler.cpp:63-93 [record_sample] *)
Definition record_sample (prolog_p : bool) : prof () :=
  current ← prof_ask current_sample;
  let '(rest, result) := record_counts current in
  _ ← prof_change (λ p, with_current p rest);
  if empty_counts result then mret ()
  else
    '(begin, end_) ← vm_prof (record_callstack prolog_p);
    thread ← vm_prof (vm_special OBJ_CURRENT_THREAD);
    push_sample (mk_sample result begin end_) thread.

(** src/vm/os-unix.cpp:108-114 [start_sampling_profiler_timer]: [tv_usec] of
    one second or more is refused by [setitimer], whose result is not looked
    at, and 0 disarms the timer. *)
Definition start_sampling_profiler_timer : prof () :=
  rate ← prof_ask samples_per_second;
  let usec := 1000000 / rate in
  if usec <? 1000000 then prof_change (λ p, with_timer p usec) else mret ().

(** src/vm/os-unix.cpp:116-120 [end_sampling_profiler_timer] *)
Definition end_sampling_profiler_timer : prof () := prof_change (λ p, with_timer p 0).

(** src/vm/sampling_profiler.cpp:103-113 [start_sampling_profiler] *)
Definition start_sampling_profiler (rate : Z) : prof () :=
  a ← vm_prof allot_growarr;
  _ ← writes (λ m, store m (special_place OBJ_SAMPLE_CALLSTACKS) (tag ARRAY_TYPE a));
  _ ← prof_change (λ p, with_current (with_rate p rate) clear_counts);
  _ ← prof_change (λ p, with_samples p []);
  _ ← vm_prof (change (λ v, with_sample_roots v []));
  _ ← prof_change (λ p, with_running p true);
  start_sampling_profiler_timer.

(** src/vm/sampling_profiler.cpp:115-119 [end_sampling_profiler] *)
Definition end_sampling_profiler : prof () :=
  _ ← prof_change (λ p, with_running p false);
  _ ← end_sampling_profiler_timer;
  record_sample false.

(** src/vm/sampling_profiler.cpp:95-101 [set_sampling_profiler] *)
Definition set_sampling_profiler (rate : Z) : prof () :=
  running_p ← prof_ask sampling_profiler_p;
  if (0 <? rate) && negb running_p then start_sampling_profiler rate
  else if (rate =? 0) && running_p then end_sampling_profiler
  else mret ().

(** src/vm/sampling_profiler.cpp:121-123 [primitive_sampling_profiler] *)
Definition primitive_sampling_profiler : prof () :=
  w ← vm_prof ctx_pop;
  rate ← vm_prof (cell_to_fixnum w);
  set_sampling_profiler rate.

(** src/vm/sampling_profiler.cpp:157-161 [primitive_get_samples] (part): The
    loop over the frames of a sample. *)
Definition copy_frames (callstacks callstack first : Z) (indices : list Z) : eff vm () :=
  for_each indices (λ i,
    g ← root_untagged ARRAY_TYPE callstacks;
    block_owner ← reads (λ m, growarr_nth m g (first +& i));
    c ← root_untagged ARRAY_TYPE callstack;
    vm_set_array_nth c i block_owner).

(** src/vm/sampling_profiler.cpp:137-165 [primitive_get_samples] (part): One
    turn of the loop over the samples; [slot] is the place of the thread. *)
Definition copy_sample (samples_array callstacks to_i slot : Z) (s : profiling_sample) : eff vm () :=
  a ← vm_allot_filled_array 7 false_object;
  rooted (tag ARRAY_TYPE a) (λ sample,
    let set i value := a ← root_untagged ARRAY_TYPE sample; vm_set_array_nth a i value in
    _ ← set 0 (tag_fixnum (sample_count (counts s)));
    _ ← set 1 (tag_fixnum (gc_sample_count (counts s)));
    _ ← set 2 (tag_fixnum (jit_sample_count (counts s)));
    _ ← set 3 (tag_fixnum (foreign_sample_count (counts s)));
    _ ← set 4 (tag_fixnum (foreign_thread_sample_count (counts s)));
    thread ← reads (λ m, load m slot);
    _ ← set 5 thread;
    let callstack_size := callstack_end s -& callstack_begin s in
    c ← vm_allot_filled_array callstack_size false_object;
    rooted (tag ARRAY_TYPE c) (λ callstack,
      _ ← copy_frames callstacks callstack (callstack_begin s) (seqZ 0 callstack_size);
      c ← root_value ARRAY_TYPE callstack;
      _ ← set 6 c;
      a ← root_untagged ARRAY_TYPE samples_array;
      x ← root_value ARRAY_TYPE sample;
      vm_set_array_nth a to_i x)).

Fixpoint copy_samples (p : profiler) (samples_array callstacks : Z) (to_i : nat) (l : list profiling_sample)
    : eff vm () :=
  match l with
  | [] => mret ()
  | s :: l =>
      _ ← copy_sample samples_array callstacks (Z.of_nat to_i) (sample_thread p to_i) s;
      copy_samples p samples_array callstacks (S to_i) l
  end.

(** src/vm/sampling_profiler.cpp:126-169 [primitive_get_samples] *)
Definition primitive_get_samples : prof () :=
  p ← prof_ask id;
  if sampling_profiler_p p || bool_decide (vm_samples p = []) then vm_prof (ctx_push false_object)
  else vm_prof (
    a ← vm_allot_filled_array (Z.of_nat (length (vm_samples p))) false_object;
    rooted (tag ARRAY_TYPE a) (λ samples_array,
      callstacks_cell ← vm_special OBJ_SAMPLE_CALLSTACKS;
      rooted callstacks_cell (λ callstacks,
        _ ← copy_samples p samples_array callstacks 0 (vm_samples p);
        x ← root_value ARRAY_TYPE samples_array;
        ctx_push x))).

(** * Safepoints *)

(** src/vm/safepoints.cpp:5-10 [enqueue_fep] *)
Definition enqueue_fep : prof () :=
  fep ← prof_ask fep_p;
  if (fep : bool) then vm_prof (raise FATAL_ERROR)
  else
    _ ← prof_change (λ p, with_fep p true);
    prof_change (λ p, with_guard p true).

(** src/vm/safepoints.cpp:12-31 [enqueue_samples] *)
Definition enqueue_samples (n pc : Z) (foreign_thread_p : bool) : prof () :=
  running ← prof_ask sampling_profiler_p;
  if negb (running : bool) then mret ()
  else
    g ← vm_prof (ask vm_gc);
    t ← vm_prof (ask tally);
    let added := sample_increments n foreign_thread_p (current_gc_p g) (0 <? current_jit_count t)
                   (in_segment_p (ch_seg (code (collection g))) pc) in
    _ ← prof_change (λ p, with_current p (add_counts (current_sample p) added));
    prof_change (λ p, with_guard p true).

(** The low-level debugger, which a user talks to. *)
Context (factorbug : eff vm ()).

(** src/vm/safepoints.cpp:34-59 [handle_safepoint]: with the call of the error
    handler, when there is one. *)
Definition handle_safepoint (pc : Z) : prof (option handler_call) :=
  _ ← prof_change (λ p, with_guard p false);
  _ ← vm_prof (change (λ v, with_faulting v false));
  fep ← prof_ask safepoint_fep_p;
  running ← prof_ask sampling_profiler_p;
  if (fep : bool) then
    _ ← (if (running : bool) then end_sampling_profiler else mret ());
    stop ← prof_ask stop_on_ctrl_break;
    if (stop : bool) then
      _ ← prof_change (λ p, with_fep p false);
      call ← vm_prof (general_error 18 false_object false_object);
      mret (Some call)
    else
      _ ← vm_prof factorbug;
      _ ← prof_change (λ p, with_fep p false);
      mret None
  else if (running : bool) then
    g ← vm_prof (ask vm_gc);
    _ ← reads (λ _, check (in_segment_p (ch_seg (code (collection g))) pc));
    block ← reads (λ _, code_block_for_address (code (collection g)) pc);
    _ ← record_sample (entry_point block =? pc);
    mret None
  else mret None.

(** src/vm/os-unix.cpp:477-479 [primitive_disable_ctrl_break] *)
Definition primitive_disable_ctrl_break : prof () := prof_change (λ p, with_ctrl_break p false).
(** src/vm/os-unix.cpp:481-483 [primitive_enable_ctrl_break] *)
Definition primitive_enable_ctrl_break : prof () := prof_change (λ p, with_ctrl_break p true).
End profiler.

(** * Signals while the counters are taken

    The atomic operations of [record_counts] on the vm's thread and those of
    [enqueue_samples] in signal handlers, on any thread, in any order. *)

Inductive sample_event :=
  | Add (i : nat) (n : Z)     (* [fetch_add] of a handler *)
  | Load (i : nat)            (* a counter is read for [returned] *)
  | Subtract (i : nat)        (* [fetch_subtract] of what was read *)
  | Return.                   (* [record_counts] returns *)

(** The counters; what the call of [record_counts] that is under way has read
    and which counters it has subtracted from; what earlier calls returned. *)
Record sampler := mk_sampler {
  live : list Z;
  loaded : list (option Z);
  subtracted : list bool;
  recorded : list (list Z)
}.

Definition counter_list (c : sample_counts) : list Z :=
  [sample_count c; gc_sample_count c; jit_sample_count c; foreign_sample_count c; foreign_thread_sample_count c].

Definition idle (l : list Z) (r : list (list Z)) : sampler :=
  mk_sampler l (replicate (length l) None) (replicate (length l) false) r.

(** src/vm/sampling_profiler.cpp:39-51 [profiling_sample::record_counts], and
    the atomic additions of src/vm/safepoints.cpp:12-31 [enqueue_samples]. *)
Definition sampler_step (st : sampler) (e : sample_event) : option sampler :=
  match e with
  | Add i n =>
      x ← live st !! i;
      Some (mk_sampler (<[i := s64 (x + n)]> (live st)) (loaded st) (subtracted st) (recorded st))
  | Load i =>
      x ← live st !! i;
      o ← loaded st !! i;
      if bool_decide (o = None)
      then Some (mk_sampler (live st) (<[i := Some x]> (loaded st)) (subtracted st) (recorded st))
      else None
  | Subtract i =>
      returned ← mapM id (loaded st);
      y ← returned !! i;
      x ← live st !! i;
      b ← subtracted st !! i;
      if (b : bool) then None
      else Some (mk_sampler (<[i := s64 (x - y)]> (live st)) (loaded st) (<[i := true]> (subtracted st)) (recorded st))
  | Return =>
      returned ← mapM id (loaded st);
      if forallb id (subtracted st) then Some (idle (live st) (recorded st ++ [returned])) else None
  end.

Definition run_sampler (trace : list sample_event) (st : sampler) : option sampler :=
  foldl (λ st e, s ← st; sampler_step s e) (Some st) trace.

(** What was added to a counter. *)
Definition added (i : nat) (e : sample_event) : Z :=
  match e with Add j n => if decide (i = j) then n else 0 | _ => 0 end.
Definition total (i : nat) (trace : list sample_event) : Z := foldr (λ e s, added i e + s) 0 trace.
Definition recorded_total (i : nat) (l : list (list Z)) : Z := foldr (λ r s, default 0 (r !! i) + s) 0 l.

(** The traces of [record_counts] and of [enqueue_samples] on their own. *)
Definition record_trace : list sample_event := (Load <$> seq 0 5) ++ (Subtract <$> seq 0 5) ++ [Return].
Definition enqueue_trace (c : sample_counts) : list sample_event := imap Add (counter_list c).

Lemma total_app i t u : total i (t ++ u) = total i t + total i u.
Proof. induction t as [|e t IH]; cbn [total foldr app]; [done|]. unfold total in *. rewrite IH. lia. Qed.

Lemma recorded_total_app i t u : recorded_total i (t ++ u) = recorded_total i t + recorded_total i u.
Proof. induction t as [|e t IH]; cbn [recorded_total foldr app]; [done|]. unfold recorded_total in *. rewrite IH. lia. Qed.

Lemma run_sampler_snoc t e st : run_sampler (t ++ [e]) st = s ← run_sampler t st; sampler_step s e.
Proof. unfold run_sampler. by rewrite foldl_app. Qed.

(** The part of the sampler that belongs to one counter, after a trace that
    has added [n] to it. *)
Definition counter_ok (n : Z) (st : sampler) (i : nat) : Prop :=
  ∃ x o b, live st !! i = Some x ∧ loaded st !! i = Some o ∧ subtracted st !! i = Some b ∧
    Forall (λ r, 0 ≤ default 0 (r !! i)) (recorded st) ∧ 0 ≤ x ∧ (b = true → is_Some o) ∧
    x + recorded_total i (recorded st) + (if b then default 0 o else 0) = n ∧
    0 ≤ default 0 o ∧ (b = false → default 0 o ≤ x).

Lemma recorded_total_nonneg i l : Forall (λ r, 0 ≤ default 0 (r !! i)) l → 0 ≤ recorded_total i l.
Proof. induction 1; cbn [recorded_total foldr]; [lia|]. unfold recorded_total in *. lia. Qed.

(** A counter that an event does not concern. *)
Lemma lookup_insert_at {A} (l : list A) i j x y :
  l !! i = Some x → <[j := y]> l !! i = Some (if decide (j = i) then y else x).
Proof.
  intros H. case_decide as E; [subst j|by rewrite list_lookup_insert_ne].
  apply list_lookup_insert_eq. by eapply lookup_lt_Some.
Qed.

Lemma counter_step n st e st' i :
  counter_ok n st i → sampler_step st e = Some st' → 0 ≤ added i e → n + added i e < 2 ^ 63 →
  counter_ok (n + added i e) st' i.
Proof.
  intros (x & o & b & Hx & Ho & Hb & Hr & H0 & Hs & Hsum & Ho0 & Hle) E Hn Hlt. unfold is_fixnum in *.
  pose proof (recorded_total_nonneg _ _ Hr) as Hrt.
  destruct e as [j k|j|j|]; cbn [sampler_step added] in *.
  - apply bind_Some in E as (x' & Hx' & [= <-]). exists (if decide (j = i) then s64 (x' + k) else x), o, b.
    split; [by apply lookup_insert_at|]. cbn [loaded subtracted recorded live]. do 3 (split; [done|]).
    destruct (decide (j = i)) as [->|Hne].
    + rewrite decide_True in * by done. rewrite Hx in Hx'. simplify_eq. assert (s64 (x' + k) = x' + k) as ->.
      { apply s64_id. unfold is_fixnum. destruct b; lia. }
      split_and!; [lia|done|lia|done|intros Hb'; specialize (Hle Hb'); lia].
    + rewrite decide_False in * by congruence. split_and!; [done|done|lia|done|done].
  - apply bind_Some in E as (x' & Hx' & (o' & Ho' & E)%bind_Some). case_bool_decide as Hnone; [|done]. injection E as <-.
    exists x, (if decide (j = i) then Some x' else o), b. cbn [loaded subtracted recorded live]. split; [done|].
    split; [by apply lookup_insert_at|]. do 2 (split; [done|]). rewrite Z.add_0_r.
    destruct (decide (j = i)) as [->|]; [|done]. rewrite Hx in Hx'. rewrite Ho in Ho'. simplify_eq. cbn in *.
    split_and!; [done|eauto|destruct b; [destruct (Hs eq_refl) as [? [=]]|done]|done|done].
  - apply bind_Some in E as (l & Hl & (y & Hy & (x' & Hx' & (b' & Hb' & E)%bind_Some)%bind_Some)%bind_Some).
    destruct b'; [done|]. injection E as <-. rewrite Z.add_0_r. unfold counter_ok. cbn [loaded subtracted recorded live].
    exists (if decide (j = i) then s64 (x' - y) else x), o, (if decide (j = i) then true else b).
    split; [by apply lookup_insert_at|]. split; [done|]. split; [by apply lookup_insert_at|]. split; [done|].
    destruct (decide (j = i)) as [->|]; [|done]. rewrite Hx in Hx'. rewrite Hb in Hb'. simplify_eq.
    apply mapM_Some_1 in Hl. destruct (Forall2_lookup_r _ _ _ _ _ Hl Hy) as (o' & Ho' & E).
    rewrite Ho in Ho'. cbn in E. simplify_eq. cbn in *. specialize (Hle eq_refl).
    assert (s64 (x' - y) = x' - y) as -> by (apply s64_id; unfold is_fixnum; lia).
    split_and!; [lia|eauto|lia|done|done].
  - apply bind_Some in E as (l & Hl & E). destruct (forallb id (subtracted st)) eqn:Hall; [|done]. injection E as <-.
    rewrite Z.add_0_r. unfold counter_ok, idle. cbn [loaded subtracted recorded live].
    assert (b = true) as ->.
    { rewrite forallb_forall in Hall. apply (Hall b), list_elem_of_In. by eapply list_elem_of_lookup_2. }
    apply mapM_Some_1 in Hl. destruct (Forall2_lookup_l _ _ _ _ _ Hl Ho) as (y & Hy & E). cbn in E. subst o. cbn in *.
    pose proof (lookup_lt_Some _ _ _ Hx). exists x, None, false. rewrite !lookup_replicate_2 by done.
    split_and!; try done.
    + apply Forall_app. split; [done|]. apply Forall_singleton. by rewrite Hy.
    + rewrite recorded_total_app. cbn [recorded_total foldr]. rewrite Hy. cbn. lia.
Qed.

Lemma run_counter l i trace st :
  l !! i = Some 0 → run_sampler trace (idle l []) = Some st → Forall (λ e, 0 ≤ added i e) trace →
  total i trace < 2 ^ 63 → counter_ok (total i trace) st i.
Proof.
  intros Hl. revert st. induction trace as [|e trace IH] using rev_ind; intros st E Hp Ht.
  - injection E as <-. exists 0, None, false. pose proof (lookup_lt_Some _ _ _ Hl).
    cbn [idle live loaded subtracted recorded]. rewrite !lookup_replicate_2 by done. done.
  - rewrite run_sampler_snoc in E. apply bind_Some in E as (s & Es & E). apply Forall_app in Hp as [Hp He].
    apply Forall_cons_1 in He as [He _].
    rewrite total_app in *. cbn [total foldr] in *. rewrite Z.add_0_r in *.
    apply (counter_step _ s); [apply IH; (done || lia)|done|done|done].
Qed.

Lemma enqueue_trace_eq (c d : sample_counts) :
  run_sampler (enqueue_trace d) (idle (counter_list c) []) = Some (idle (counter_list (add_counts c d)) []).
Proof. reflexivity. Qed.

(** C28. No sample is lost or counted twice.  Signals may add to the counters of
    the current sample before, between and after the atomic reads and
    subtractions with which [record_counts] takes them.  When no call is under
    way, what the calls have returned for a counter and what it still holds add
    up to what the signals have added to it, and no call has returned less than
    zero.  [record_counts] and [add_counts], with no signal in between, are runs
    of these operations. *)
Theorem samples_conserved trace i l rs :
  (i < 5)%nat → run_sampler trace (idle (counter_list clear_counts) []) = Some (idle l rs) →
  Forall (λ e, 0 ≤ added i e) trace → total i trace < 2 ^ 63 →
  (∃ x, l !! i = Some x ∧ recorded_total i rs + x = total i trace ∧ 0 ≤ x) ∧
  Forall (λ r, 0 ≤ default 0 (r !! i)) rs ∧
  (∀ c, run_sampler record_trace (idle (counter_list c) []) =
     Some (idle (counter_list (record_counts c).1) [counter_list (record_counts c).2])) ∧
  (∀ c d, run_sampler (enqueue_trace d) (idle (counter_list c) []) = Some (idle (counter_list (add_counts c d)) [])).
Proof.
  intros Hi E Hp Ht. split; [|split; [|split; [done|apply enqueue_trace_eq]]].
  - destruct (run_counter _ i trace _ (lookup_replicate_2 5 0 i Hi) E Hp Ht) as (x & o & b & Hx & Ho & Hb & Hr & H0 & _ & Hsum & _).
    cbn [idle live loaded subtracted recorded] in *. exists x. split; [done|].
    apply lookup_replicate_1 in Hb as [-> _]. lia.
  - by destruct (run_counter _ i trace _ (lookup_replicate_2 5 0 i Hi) E Hp Ht) as (x & o & b & _ & _ & _ & Hr & _).
Qed.

(** Two signals: one between two reads, one between a read and its
    subtraction. *)
Definition sample_trace : list sample_event :=
  [Add 0 1; Load 0; Add 0 1; Load 1; Load 2; Load 3; Load 4; Add 0 1; Subtract 0; Subtract 1; Subtract 2;
   Subtract 3; Subtract 4; Return].

Lemma samples_conserved_witness :
  ∃ x, [2; 0; 0; 0; 0] !! 0%nat = Some x ∧ recorded_total 0 [[1; 0; 0; 0; 0]] + x = total 0 sample_trace ∧ 0 ≤ x.
Proof.
  apply (samples_conserved sample_trace 0 [2; 0; 0; 0; 0] [[1; 0; 0; 0; 0]]).
  - lia.
  - reflexivity.
  - repeat constructor; vm_compute; discriminate.
  - reflexivity.
Defined.
