(* ===== verification/Signals.v ===== *)
(** Signals: vm/cpu-x86.cpp, the handlers of vm/errors.cpp and of
    vm/os-unix.cpp.

    The operating system calls the top half of a handler with the registers of
    the program that was interrupted.  The top half does not run Factor code: it
    changes the registers so that the program continues in the bottom half, on
    the call stack of Factor. *)

From S2P Require Import Prelude.
From S2P Require Import Layouts.
From S2P Require Import Memory.
From S2P Require Import Effects.
From S2P Require Import DataHeap.
From S2P Require Import Objects.
From S2P Require Import CodeBlocks.
From S2P Require Import Relocation.
From S2P Require Import SlotVisitor.
From S2P Require Import GC.
From S2P Require Import VM.
From S2P Require Import Room.
From S2P Require Import Contexts.
From S2P Require Import HeapArrays.
From S2P Require Import Errors.
From S2P Require Import Quotations.
From S2P Require Import Callstacks.
From S2P Require Import Profiler.
Local Open Scope Z_scope.
Local Open Scope cell_scope.

(** * State *)

(** The registers of the interrupted program that a handler changes. *)
Record registers := mk_registers { sp : Z; pc : Z }.

(** src/vm/vm.hpp:35-82 [factor_vm] (part): What the handlers tell the rest of
    the vm.  [signal_pipe] is what has been written to the pipe
    [signal_pipe_output] and [pipe_writes] the number of calls of [write];
    [fatal_erroring_p] is a global variable. *)
Record signal_state := mk_signals {
  signal_handler_addr : Z;
  signal_resumable : bool;
  signal_number : Z;
  signal_fault_addr : Z;
  signal_fault_pc : Z;
  signal_fpu_status : Z;
  signal_pipe_output : Z;
  signal_pipe : list Z;
  pipe_writes : nat;
  fatal_erroring_p : bool
}.

Definition with_handler_addr (s : signal_state) (a : Z) : signal_state :=
  mk_signals a (signal_resumable s) (signal_number s) (signal_fault_addr s) (signal_fault_pc s) (signal_fpu_status s)
    (signal_pipe_output s) (signal_pipe s) (pipe_writes s) (fatal_erroring_p s).
Definition with_resumable (s : signal_state) (b : bool) : signal_state :=
  mk_signals (signal_handler_addr s) b (signal_number s) (signal_fault_addr s) (signal_fault_pc s) (signal_fpu_status s)
    (signal_pipe_output s) (signal_pipe s) (pipe_writes s) (fatal_erroring_p s).
Definition with_number (s : signal_state) (n : Z) : signal_state :=
  mk_signals (signal_handler_addr s) (signal_resumable s) n (signal_fault_addr s) (signal_fault_pc s) (signal_fpu_status s)
    (signal_pipe_output s) (signal_pipe s) (pipe_writes s) (fatal_erroring_p s).
Definition with_fault (s : signal_state) (a p : Z) : signal_state :=
  mk_signals (signal_handler_addr s) (signal_resumable s) (signal_number s) a p (signal_fpu_status s)
    (signal_pipe_output s) (signal_pipe s) (pipe_writes s) (fatal_erroring_p s).
Definition with_fpu_status (s : signal_state) (f : Z) : signal_state :=
  mk_signals (signal_handler_addr s) (signal_resumable s) (signal_number s) (signal_fault_addr s) (signal_fault_pc s) f
    (signal_pipe_output s) (signal_pipe s) (pipe_writes s) (fatal_erroring_p s).
Definition with_pipe (s : signal_state) (l : list Z) (n : nat) : signal_state :=
  mk_signals (signal_handler_addr s) (signal_resumable s) (signal_number s) (signal_fault_addr s) (signal_fault_pc s)
    (signal_fpu_status s) (signal_pipe_output s) l n (fatal_erroring_p s).

(** The vm, its profiler and what the handlers keep. *)
Definition sig (A : Type) : Type := eff (vm * profiler * signal_state) A.

Definition prof_sig {A} (c : prof A) : sig A := λ s,
  match c (s.1, s.2.1) with
  | Done s' a => Done (s'.1, (s'.2, s.2.2)) a
  | Again s' => Again (s'.1, (s'.2, s.2.2))
  | Fatal e => Fatal e
  end.
Definition vm_sig {A} (c : eff vm A) : sig A := prof_sig (vm_prof c).
Definition sig_ask {A} (f : signal_state → A) : sig A := λ s, Done s (f s.2.2).
Definition sig_change (f : signal_state → signal_state) : sig () := λ s, Done (s.1, (s.2.1, f s.2.2)) ().

(** * Launching the bottom half *)

(** The code that the program continues with: the machine code of a function of
    the vm. *)
Inductive bottom_half := MEMORY_SIGNAL | SYNCHRONOUS_SIGNAL | FP_SIGNAL.

(** src/vm/cpu-x86.cpp:31-33 [dispatch_non_resumable_signal] (part): One turn of
    the loop. *)
Definition unwind_body (code : code_heap) (bottom limit : Z) (m : memory) (frame_top : Z) : Z + result Z :=
  if (frame_top <? bottom) && (frame_top <? limit) then
    match frame_predecessor m code frame_top with
    | Ok frame_top => inl frame_top
    | Err e => inr (Err e)
    end
  else inr (Ok frame_top).

(** * Which handler a signal has *)

Inductive signal_handler :=
  | MEMORY_HANDLER | FPE_HANDLER | SYNCHRONOUS_HANDLER | ENQUEUE_HANDLER | FEP_HANDLER | SAMPLE_HANDLER | IGNORE_HANDLER.

(** The numbers of the signals on Linux. *)
Definition SIGINT : Z := 2.
Definition SIGILL : Z := 4.
Definition SIGTRAP : Z := 5.
Definition SIGABRT : Z := 6.
Definition SIGBUS : Z := 7.
Definition SIGFPE : Z := 8.
Definition SIGUSR1 : Z := 10.
Definition SIGSEGV : Z := 11.
Definition SIGUSR2 : Z := 12.
Definition SIGPIPE : Z := 13.
Definition SIGALRM : Z := 14.
Definition SIGCONT : Z := 18.
Definition SIGURG : Z := 23.
Definition SIGVTALRM : Z := 26.
Definition SIGPROF : Z := 27.
Definition SIGWINCH : Z := 28.
Definition SIGIO : Z := 29.

(** src/vm/os-unix.cpp:261-315 [unix_init_signals] (part): The handlers that are
    installed, in order; Linux has no [SIGINFO]. *)
Definition unix_init_signals : list (Z * signal_handler) :=
  [(SIGBUS, MEMORY_HANDLER); (SIGSEGV, MEMORY_HANDLER); (SIGTRAP, MEMORY_HANDLER); (SIGFPE, FPE_HANDLER);
   (SIGILL, SYNCHRONOUS_HANDLER); (SIGABRT, SYNCHRONOUS_HANDLER); (SIGWINCH, ENQUEUE_HANDLER);
   (SIGUSR1, ENQUEUE_HANDLER); (SIGCONT, ENQUEUE_HANDLER); (SIGURG, ENQUEUE_HANDLER); (SIGIO, ENQUEUE_HANDLER);
   (SIGPROF, ENQUEUE_HANDLER); (SIGVTALRM, ENQUEUE_HANDLER); (SIGINT, FEP_HANDLER); (SIGALRM, SAMPLE_HANDLER);
   (SIGPIPE, IGNORE_HANDLER); (SIGUSR2, IGNORE_HANDLER)].

(** The handler of a signal after that, and after the debugger has called
    [ignore_ctrl_c]; [None] is the default of the system. *)
Definition signal_action (ctrl_c_ignored : bool) (signal : Z) : option signal_handler :=
  if ctrl_c_ignored && (signal =? SIGINT) then None
  else snd <$> List.find (λ '(n, _), n =? signal) unix_init_signals.

Section dispatch.
Context `{!linkage, !os_memory, !c_heap}.

(** src/vm/cpu-x86.cpp:5-37 [dispatch_non_resumable_signal] *)
Definition dispatch_non_resumable_signal (r : registers) (handler limit : Z) : sig registers :=
  c ← vm_sig current_context;
  g ← vm_sig (ask vm_gc);
  let code := code (collection g) in
  let frame_top := callstack_top c in
  let seg_start := seg_start (callstack_seg c) in
  frame_top ← (if frame_top <? seg_start then
                 block ← reads (λ _, code_block_for_address code (pc r));
                 frame_size ← reads (λ m, stack_frame_size_for_address m block (pc r));
                 mret (frame_top +& frame_size)
               else mret frame_top);
  _ ← reads (λ _, check (seg_start <=? frame_top));
  frame_top ← reads (λ m, t ← while_loop (unwind_body code (callstack_bottom c) limit m) frame_top; t);
  _ ← vm_sig (set_current_context (with_callstack c frame_top (callstack_bottom c)));
  mret (mk_registers frame_top handler).

(** src/vm/cpu-x86.cpp:39-74 [dispatch_resumable_signal] *)
Definition dispatch_resumable_signal (r : registers) (handler : Z) : sig registers :=
  let offset := sp r mod 16 in
  _ ← sig_change (λ s, with_handler_addr s handler);
  g ← vm_sig (ask vm_gc);
  '(delta, index) ←
    (if offset =? 0 then mret (8, SIGNAL_HANDLER_WORD)
     else if offset =? 8 then
       _ ← reads (λ _, code_block_for_address (code (collection g)) (pc r));
       mret (LEAF_FRAME_SIZE, LEAF_SIGNAL_HANDLER_WORD)
     else vm_sig (raise ASSERTION_FAILED));
  let new_sp := sp r -& delta in
  _ ← writes (λ m, store m new_sp (pc r));
  w ← vm_sig (vm_special index);
  entry ← reads (λ m, a ← untag WORD_TYPE w; field m a word_entry_point);
  mret (mk_registers new_sp entry).

(** src/vm/cpu-x86.cpp:76-94 [dispatch_signal_handler]: [handler] is the address
    of the bottom half. *)
Definition dispatch_signal_handler (r : registers) (handler : Z) : sig registers :=
  c ← vm_sig current_context;
  g ← vm_sig (ask vm_gc);
  let in_code_seg := in_segment_p (ch_seg (code (collection g))) (pc r) in
  let cs_limit := seg_start (callstack_seg c) +& stack_reserved in
  let resumable := in_code_seg && (cs_limit <=? sp r) in
  _ ← sig_change (λ s, with_resumable s resumable);
  r ← (if resumable then dispatch_resumable_signal r handler
       else dispatch_non_resumable_signal r handler cs_limit);
  _ ← vm_sig (change (λ v, with_roots v []));
  _ ← vm_sig (change (λ v, with_gc v (with_code_roots (vm_gc v) [])));
  mret r.

(** * Top halves *)

(** The outcome of a [write] to the signal pipe, and the addresses of the
    bottom halves. *)
Inductive pipe_outcome := WRITTEN | INTERRUPTED | WOULD_BLOCK | WRITE_FAILED.

Context (write_outcome : nat → pipe_outcome) (handler_address : bottom_half → Z).

(** src/vm/os-unix.cpp:346-363 [check_write, safe_write_nonblock] (part): One
    call of [write], which is atomic for the four bytes of a signal. *)
Definition write_signal_body (signal : Z) (_ : ()) : sig (() + ()) :=
  n ← sig_ask pipe_writes;
  l ← sig_ask signal_pipe;
  match write_outcome n with
  | WRITTEN => _ ← sig_change (λ s, with_pipe s (l ++ [signal]) (S n)); mret (inr ())
  | INTERRUPTED => _ ← sig_change (λ s, with_pipe s l (S n)); mret (inl ())
  | WOULD_BLOCK => _ ← sig_change (λ s, with_pipe s l (S n)); mret (inr ())
  | WRITE_FAILED => vm_sig (raise FATAL_ERROR)
  end.

(** src/vm/os-unix.cpp:150-153 [enqueue_signal] *)
Definition enqueue_signal (signal : Z) : sig () :=
  out ← sig_ask signal_pipe_output;
  if out =? 0 then mret () else loop (write_signal_body signal) ().

(** src/vm/errors.cpp:96-109 [set_memory_protection_error] *)
Definition note_memory_protection_error (fault_addr fault_pc : Z) : sig () :=
  fatal ← sig_ask fatal_erroring_p;
  fep ← prof_sig (prof_ask fep_p);
  v ← vm_sig (ask id);
  _ ← reads (λ _, set_memory_protection_error fatal fep v fault_addr);
  sig_change (λ s, with_fault s fault_addr fault_pc).

(** src/vm/os-unix.cpp:128-135 [memory_signal_handler] *)
Definition memory_signal_handler (si_addr : Z) (uap : registers) : sig registers :=
  _ ← note_memory_protection_error si_addr (pc uap);
  dispatch_signal_handler uap (handler_address MEMORY_SIGNAL).

(** src/vm/os-unix.cpp:137-146 [synchronous_signal_handler]: [foreign_thread]
    tells whether the thread has no vm. *)
Definition synchronous_signal_handler (foreign_thread : bool) (signal : Z) (uap : registers) : sig registers :=
  fatal ← sig_ask fatal_erroring_p;
  if (fatal : bool) then mret uap
  else if foreign_thread then vm_sig (raise FATAL_ERROR)
  else
    _ ← sig_change (λ s, with_number s signal);
    dispatch_signal_handler uap (handler_address SYNCHRONOUS_SIGNAL).

(** src/vm/os-unix.cpp:155-162 [enqueue_signal_handler] *)
Definition enqueue_signal_handler (foreign_thread : bool) (signal : Z) : sig () :=
  fatal ← sig_ask fatal_erroring_p;
  if (fatal : bool) || foreign_thread then mret () else enqueue_signal signal.

(** src/vm/os-unix.cpp:164-174 [fep_signal_handler] *)
Definition fep_signal_handler (foreign_thread : bool) (signal : Z) : sig () :=
  fatal ← sig_ask fatal_erroring_p;
  if (fatal : bool) then mret ()
  else if foreign_thread then vm_sig (raise FATAL_ERROR)
  else
    _ ← prof_sig enqueue_fep;
    enqueue_signal signal.

(** src/vm/os-unix.cpp:176-187 [sample_signal_handler] *)
Definition sample_signal_handler (foreign_thread : bool) (signal : Z) (uap : registers) : sig () :=
  running ← prof_sig (prof_ask sampling_profiler_p);
  if (running : bool) then prof_sig (enqueue_samples 1 (pc uap) foreign_thread)
  else if foreign_thread then mret () else enqueue_signal signal.

(** src/vm/layouts.hpp:85-91 [FP_TRAP_INVALID_OPERATION] *)
Definition FP_TRAP_INVALID_OPERATION : Z := 1.
Definition FP_TRAP_OVERFLOW : Z := 2.
Definition FP_TRAP_UNDERFLOW : Z := 4.
Definition FP_TRAP_ZERO_DIVIDE : Z := 8.
Definition FP_TRAP_INEXACT : Z := 16.

(** src/vm/cpu-x86.hpp:53-68 [fpu_status] *)
Definition fpu_status (status : Z) : Z :=
  let bit (mask trap r : Z) := if Z.land status mask =? 0 then r else Z.lor r trap in
  bit 0x20 FP_TRAP_INEXACT (bit 0x10 FP_TRAP_UNDERFLOW (bit 0x08 FP_TRAP_OVERFLOW
    (bit 0x04 FP_TRAP_ZERO_DIVIDE (bit 0x01 FP_TRAP_INVALID_OPERATION 0)))).

(** src/vm/os-linux-x86.64.hpp:5-9 [uap_fpu_status]: of the two status words of
    the floating point unit. *)
Definition uap_fpu_status (swd mxcsr : Z) : Z := Z.lor swd mxcsr.

(** src/vm/os-linux-x86.64.hpp:11-15 [uap_clear_fpu_status] *)
Definition uap_clear_fpu_status (swd mxcsr : Z) : Z * Z := (0, Z.land mxcsr 0xffffffc0).

(** src/vm/os-unix.cpp:191-201 [fpe_signal_handler]: [integer_fault] is that
    [si_code] is [FPE_INTDIV] or [FPE_INTOVF]; the registers come with the
    status words. *)
Definition fpe_signal_handler (signal : Z) (integer_fault : bool) (uap : registers) (swd mxcsr : Z)
    : sig (registers * (Z * Z)) :=
  _ ← sig_change (λ s, with_number s signal);
  _ ← sig_change (λ s, with_fpu_status s (fpu_status (uap_fpu_status swd mxcsr)));
  r ← dispatch_signal_handler uap (handler_address (if integer_fault then SYNCHRONOUS_SIGNAL else FP_SIGNAL));
  mret (r, uap_clear_fpu_status swd mxcsr).

(** * Bottom halves *)

Context (factorbug : eff vm ()).

(** src/vm/errors.cpp:117-132 [memory_signal_handler_impl]: with the calls of
    the error handler; [general_error] does not return. *)
Definition memory_signal_handler_impl : sig (option handler_call) :=
  addr ← sig_ask signal_fault_addr;
  g ← vm_sig (ask vm_gc);
  resumable ← sig_ask signal_resumable;
  if safepoint_p (code (collection g)) addr then
    fault_pc ← sig_ask signal_fault_pc;
    call ← prof_sig (handle_safepoint factorbug fault_pc);
    if bool_decide (call = None) && negb resumable then
      call ← vm_sig (general_error 15 false_object false_object);
      mret (Some call)
    else mret call
  else
    call ← vm_sig (memory_fault addr);
    mret (Some call).

(** src/vm/errors.cpp:135-140 [synchronous_signal_handler_impl] *)
Definition synchronous_signal_handler_impl : sig handler_call :=
  signal ← sig_ask signal_number;
  number ← vm_sig (box_unsigned_cell signal);
  vm_sig (general_error 5 number false_object).

(** src/vm/errors.cpp:143-152 [fp_signal_handler_impl]: setting the state of the
    floating point unit is a machine code routine of the image. *)
Definition fp_signal_handler_impl : sig handler_call :=
  status ← sig_ask signal_fpu_status;
  vm_sig (general_error 17 (tag_fixnum status) false_object).
End dispatch.

(** * What is launched *)

(** A stack does not depend on the rest of memory. *)
Lemma call_stack_agree m m' ch bottom top frames :
  call_stack m ch bottom top frames → (∀ x, top ≤ x < bottom → m' !! x = m !! x) →
  (∀ f, f ∈ frames → m' !! f.1.2 = m !! f.1.2) → call_stack m' ch bottom top frames.
Proof.
  induction 1 as [|top size owner addr frames Ha Hz Hseg Hb Ho Hc Hs Hrest IH]; intros Hm Hown; [constructor|].
  pose proof (call_stack_bounds _ _ _ _ _ Hrest) as [Hlen _]. pose proof (frame_size_bounds _ _ _ _ Hs) as [Hsz _].
  apply (call_stack_cons _ _ _ _ size owner addr); try done; [by rewrite Hm by lia| |].
  - rewrite <- Hs. unfold stack_frame_size_for_address, stack_frame_size, load.
    pose proof (Hown (size, owner, addr) ltac:(left)) as E. cbn in E. by rewrite E.
  - apply IH; [intros x Hx; apply Hm; lia|]. intros f Hf. apply Hown. by right.
Qed.

Lemma call_stack_predecessor m ch bottom top size owner addr frames :
  call_stack m ch bottom top ((size, owner, addr) :: frames) → 0 ≤ top → bottom < 2 ^ 64 →
  frame_predecessor m ch top = Ok (top + size) ∧ call_stack m ch bottom (top + size) frames ∧ top + 16 ≤ top + size ≤ bottom.
Proof.
  intros Hcs Ht Hb. inversion Hcs as [|? ? ? ? ? Ha Hz Hseg Hbl Ho Hc Hs Hrest]; subst.
  pose proof (call_stack_bounds _ _ _ _ _ Hrest) as [Hlen _]. pose proof (frame_size_bounds _ _ _ _ Hs) as [Hsz _].
  split; [|split; [done|lia]]. unfold frame_predecessor.
  rewrite (proj2 (load_Ok m top addr) Ha), result_bind_ok, Hseg, check_true, result_bind_ok.
  rewrite Hbl, result_bind_ok, Hs, result_bind_ok. by rewrite u64_id by (unfold is_cell; lia).
Qed.

Lemma call_stack_top m ch bottom top frames :
  call_stack m ch bottom top frames → top = bottom - foldr (λ f s, f.1.1 + s) 0 frames.
Proof. induction 1; cbn [foldr fst]; lia. Qed.

(** Frames are cut off until there is room. *)
Lemma unwind_frames m ch bottom limit frames : ∀ top,
  call_stack m ch bottom top frames → 0 ≤ top → bottom < 2 ^ 64 →
  ∃ top' k, iter_nat (unwind_body ch bottom limit m) (S (length frames)) top = inr (Ok top') ∧
    call_stack m ch bottom top' (drop k frames) ∧ top ≤ top' ∧ (top' = bottom ∨ limit ≤ top') ∧
    (∀ j f, k = S j → frames !! j = Some f → top' - f.1.1 < limit) ∧ (k ≤ length frames)%nat.
Proof.
  induction frames as [|[[size owner] addr] frames IH]; intros top Hcs Ht Hb.
  { inversion Hcs; subst. exists top, 0%nat. cbn [length iter_nat]. unfold unwind_body. rewrite Z.ltb_irrefl.
    cbn [andb]. split_and!; [done|constructor|lia|by left|done|lia]. }
  destruct (call_stack_predecessor _ _ _ _ _ _ _ _ Hcs Ht Hb) as (Ep & Hrest & Hsz).
  rewrite (eq_refl : length ((size, owner, addr) :: frames) = S (length frames)).
  rewrite (eq_refl : iter_nat (unwind_body ch bottom limit m) (S (S (length frames))) top =
    match unwind_body ch bottom limit m top with
    | inl x => iter_nat (unwind_body ch bottom limit m) (S (length frames)) x | inr b => inr b end).
  unfold unwind_body at 1. rewrite (proj2 (Z.ltb_lt top bottom)) by lia. cbn [andb].
  destruct (Z.ltb_spec top limit) as [Hlt|Hge].
  - rewrite Ep. destruct (IH (top + size) Hrest ltac:(lia) Hb) as (top' & k & E & Hcs' & Hle & Hend & Hmin & Hk).
    exists top', (S k). split; [done|]. cbn [drop]. split_and!; [done|lia|done| |lia].
    intros [|j] f [= Ek] Hf; [|by eapply Hmin]. injection Hf as <-. cbn [fst]. subst k. rewrite drop_0 in Hcs'.
    assert (top' = top + size) as ->; [|lia].
    rewrite (call_stack_top _ _ _ _ _ Hcs'), (call_stack_top _ _ _ _ _ Hrest). done.
  - exists top, 0%nat. rewrite drop_0. split_and!; [done|done|lia|by right|done|lia].
Qed.

#[local] Opaque while_loop.

Section dispatched.
Context `{!linkage, !os_memory, !c_heap}.

Lemma vm_sig_Done {A} (c : eff vm A) m v p s m' v' a :
  c (m, v) = Done (m', v') a → vm_sig c (m, (v, p, s)) = Done (m', (v', p, s)) a.
Proof. intros E. unfold vm_sig, prof_sig, vm_prof. cbn [fst snd]. by rewrite E. Qed.

Lemma current_context_sig m v p s c :
  contexts v !! ctx v = Some c → vm_sig current_context (m, (v, p, s)) = Done (m, (v, p, s)) c.
Proof. intros Hc. apply vm_sig_Done. exact (context_at_eq m v (ctx v) c Hc). Qed.

Lemma dispatch_non_resumable_eq m v p s c r handler limit frames :
  let ch := code (collection (vm_gc v)) in
  contexts v !! ctx v = Some c → call_stack m ch (callstack_bottom c) (callstack_top c) frames →
  0 ≤ seg_start (callstack_seg c) ≤ callstack_top c → callstack_bottom c < 2 ^ 64 →
  ∃ top' k, dispatch_non_resumable_signal r handler limit (m, (v, p, s)) =
    Done (m, (with_contexts v (<[ctx v := with_callstack c top' (callstack_bottom c)]> (contexts v)), p, s))
      (mk_registers top' handler) ∧
    call_stack m ch (callstack_bottom c) top' (drop k frames) ∧ (top' = callstack_bottom c ∨ limit ≤ top') ∧
    (∀ j f, k = S j → frames !! j = Some f → top' - f.1.1 < limit).
Proof.
  intros ch Hc Hcs Hlo Hb. pose proof (call_stack_bounds _ _ _ _ _ Hcs) as [Hlen _].
  destruct (unwind_frames m ch (callstack_bottom c) limit frames _ Hcs ltac:(lia) Hb)
    as (top' & k & E & Hcs' & Hle & Hend & Hmin & Hk).
  exists top', k. split; [|done]. unfold dispatch_non_resumable_signal.
  rewrite (bind_Done _ _ _ _ _ (current_context_sig m v p s c Hc)).
  rewrite (bind_Done _ _ _ (m, (v, p, s)) (vm_gc v)) by done. fold ch.
  rewrite (proj2 (Z.ltb_ge _ _)) by lia. rewrite (bind_Done _ _ _ (m, (v, p, s)) (callstack_top c)) by done.
  rewrite (bind_reads (X := vm * profiler * signal_state) _ _ _ _ ()) by by rewrite (proj2 (Z.leb_le _ _)) by lia.
  rewrite (bind_reads (X := vm * profiler * signal_state) _ _ _ _ top').
  2:{ by rewrite (while_loop_iter _ (S (length frames)) _ (Ok top')) by (done || lia). }
  by rewrite (bind_Done _ _ _ (m,
    (with_contexts v (<[ctx v := with_callstack c top' (callstack_bottom c)]> (contexts v)), p, s)) ()).
Qed.

Lemma dispatch_resumable_eq m v p s r handler owner w a entry :
  let delta := if sp r mod 16 =? 0 then 8 else LEAF_FRAME_SIZE in
  let word := special_objects_address +&
    (8 *& (if sp r mod 16 =? 0 then SIGNAL_HANDLER_WORD else LEAF_SIGNAL_HANDLER_WORD)) in
  16 ≤ sp r < 2 ^ 64 → sp r mod 16 = 0 ∨ sp r mod 16 = 8 →
  code_block_for_address (code (collection (vm_gc v))) (pc r) = Ok owner →
  is_Some (m !! (sp r - delta)) → m !! word = Some w → untag WORD_TYPE w = Ok a →
  m !! (a +& word_entry_point) = Some entry → sp r - delta ≠ word → sp r - delta ≠ a +& word_entry_point →
  dispatch_resumable_signal r handler (m, (v, p, s)) =
    Done (<[sp r - delta := pc r]> m, (v, p, with_handler_addr s handler)) (mk_registers (sp r - delta) entry).
Proof.
  intros delta word Hsp Hal Hbl Hmap Hw Ha He Hne1 Hne2. unfold dispatch_resumable_signal.
  rewrite (bind_Done _ _ _ (m, (v, p, with_handler_addr s handler)) ()) by done.
  rewrite (bind_Done _ _ _ (m, (v, p, with_handler_addr s handler)) (vm_gc v)) by done.
  rewrite (bind_Done _ _ _ (m, (v, p, with_handler_addr s handler))
    (delta, if sp r mod 16 =? 0 then SIGNAL_HANDLER_WORD else LEAF_SIGNAL_HANDLER_WORD)).
  2:{ unfold delta. destruct Hal as [->| ->]; cbn [Z.eqb]; [done|]. change (8 =? 0) with false. change (8 =? 8) with true.
      cbn iota. by rewrite (bind_reads (X := vm * profiler * signal_state) _ _ _ _ owner). }
  rewrite u64_id by (unfold is_cell, delta, LEAF_FRAME_SIZE; destruct (_ =? _); lia).
  rewrite (bind_writes (X := vm * profiler * signal_state) _ _ _ _ (<[sp r - delta := pc r]> m)) by by apply store_Ok.
  rewrite (bind_Done _ _ _ (<[sp r - delta := pc r]> m, (v, p, with_handler_addr s handler)) w).
  2:{ apply vm_sig_Done. apply reads_Ok, load_Ok. cbn [fst]. by rewrite lookup_insert_ne. }
  rewrite (bind_reads (X := vm * profiler * signal_state) _ _ _ _ entry); [done|]. rewrite Ha, result_bind_ok. apply load_Ok. by rewrite lookup_insert_ne.
Qed.

(** The vm after a signal has been dispatched: no roots of native frames. *)
Definition unwound (v : vm) : vm := with_roots (with_gc v (with_code_roots (vm_gc v) [])) [].

End dispatched.

(** ** An example

    Four frames from 24984 on, as in [walked_frames]; a signal at 4194416 in the
    first word, whose frame of 32 bytes begins at 24952. *)

Definition signal_context : context :=
  mk_context 24984 25080 8184 16376 0 (mk_segment 8192 512 8704) (mk_segment 16384 512 16896)
    (mk_segment 4096 20992 25088) 90176.

Definition signal_vm : vm := with_contexts walked_vm {[ 90112 := signal_context ]}.

Definition signal_memory : memory :=
  <[4194304 := Z.shiftl 32 20 + 256]> (<[4194560 := 256]> (<[66048 := tag WORD_TYPE 12288]>
    (<[12288 + word_entry_point := 4194500]>
      (with_words ∅ 24952 [0; 0; 0; 0; 4194600; 0; 4194400; 0; 0; 0; 4194408; 0; 0; 0; 4194604; 0])))).

Definition no_profile : profiler := mk_profiler false 0 [] 0 clear_counts false false false false 0.
Definition no_signals : signal_state := mk_signals 0 false 0 0 0 0 0 [] 0 false.

