(* ===== verification/HeapChecker.v ===== *)
(** The check of the write barrier: vm/data_heap_checker.cpp.

    A slot of an old object that refers to a younger one must be in a card with
    the mark for the younger generation, because a collection of the younger
    generation only looks at the objects of marked cards. *)

From S2P Require Import Prelude.
From S2P Require Import Layouts.
From S2P Require Import Memory.
From S2P Require Import Effects.
From S2P Require Import FreeList.
From S2P Require Import ObjectStartMap.
From S2P Require Import Spaces.
From S2P Require Import DataHeap.
From S2P Require Import Objects.
From S2P Require Import SlotVisitor.
From S2P Require Import Collectors.
From S2P Require Import GC.
Local Open Scope Z_scope.
Local Open Scope cell_scope.

(** * The checker *)

(** src/vm/data_heap_checker.cpp:8-12 [generation] *)
Inductive generation := NURSERY_GENERATION | AGING_GENERATION | TENURED_GENERATION.

#[export] Instance generation_eq_dec : EqDecision generation.
Proof. solve_decision. Defined.

(** src/vm/data_heap_checker.cpp:14-25 [generation_of] *)
Definition generation_of (dh : data_heap) (obj : Z) : result generation :=
  if bump_contains_p (nursery dh) obj then Ok NURSERY_GENERATION
  else if bump_contains_p (ag_bump (aging dh)) obj then Ok AGING_GENERATION
  else if contains_p (tn_alloc (tenured dh)) obj then Ok TENURED_GENERATION
  else Err CRITICAL_ERROR.

(** What is printed of a slot whose card is not marked. *)
Record report := mk_report {
  source_generation : generation;
  target_generation : generation;
  reported_object : Z;
  slot_pointer : Z;
  slot_value : Z
}.

(** src/vm/data_heap_checker.cpp:32-33 [slot_checker]: The parts of the vm, the
    object and its generation. *)
Record slot_checker := mk_slot_checker { sc_barrier : barrier; sc_heap : data_heap; sc_obj : Z; sc_gen : generation }.

(** src/vm/data_heap_checker.cpp:35-58 [slot_checker::check_write_barrier] *)
Definition check_write_barrier (s : slot_checker) (m : memory) (slot_ptr : Z) (target : generation) (mask : Z)
    : result (list report) :=
  slot_card_value ← read (cards (sc_heap s))
    (Z.to_nat ((cards_offset (sc_barrier s) +& Z.shiftr slot_ptr card_bits) -& cards_address (sc_barrier s)));
  value ← load m slot_ptr;
  Ok (if Z.land slot_card_value mask =? mask then []
      else [mk_report (sc_gen s) target (sc_obj s) slot_ptr value]).

(** src/vm/data_heap_checker.cpp:60-74 [slot_checker::operator()] *)
Definition check_slot (s : slot_checker) (m : memory) (slot_ptr : Z) : result (list report) :=
  w ← load m slot_ptr;
  if immediate_p w then Ok []
  else
    target ← generation_of (sc_heap s) (UNTAG w);
    match sc_gen s, target with
    | AGING_GENERATION, NURSERY_GENERATION => check_write_barrier s m slot_ptr target card_points_to_nursery
    | TENURED_GENERATION, NURSERY_GENERATION => check_write_barrier s m slot_ptr target card_points_to_nursery
    | TENURED_GENERATION, AGING_GENERATION => check_write_barrier s m slot_ptr target card_points_to_aging
    | _, _ => Ok []
    end.

(** src/vm/objects.hpp:136-144 [each_slot]: the reports of [count] slots from
    [start] on. *)
Fixpoint each_slot (iter : Z → result (list report)) (start : Z) (count : nat) : result (list report) :=
  match count with
  | 0%nat => Ok []
  | S count => r ← iter start; rs ← each_slot iter (start +& 8) count; Ok (r ++ rs)
  end.

(** src/vm/data_heap_checker.cpp:79-83 [check_data_heap] (part): [checker] *)
Definition check_object (b : barrier) (dh : data_heap) (m : memory) (obj : Z) : result (list report) :=
  obj_gen ← generation_of dh obj;
  count ← slot_count m obj;
  each_slot (check_slot (mk_slot_checker b dh obj obj_gen) m) (obj +& 8) (Z.to_nat count).

(** The reports of the objects of a generation. *)
Definition check_generation (b : barrier) (dh : data_heap) (m : memory) (first : result Z) (next : Z → result Z)
    : result (list report) :=
  r ← each_object first next (λ obj acc, rs ← acc; o ← check_object b dh m obj; Ok (rs ++ o)) (Ok []);
  r.

(** src/vm/data_heap_checker.cpp:77-84 [check_data_heap]: [each_object] turns
    collections off for the walk, and on after it. *)
Definition check_data_heap : eff gc_vm (list report) :=
  v ← get_state;
  let dh := heap_of v in
  reports ← reads (λ m,
    _ ← check (bump_occupied_space (nursery dh) =? 0);
    t ← check_generation (gc_barrier v) dh m (tenured_first_object m (tenured dh))
          (tenured_next_object_after object_size m (tenured dh));
    a ← check_generation (gc_barrier v) dh m (Ok (aging_first_object (aging dh)))
          (aging_next_object_after object_size m (aging dh));
    Ok (t ++ a));
  _ ← put_state (mk_gc_vm (collection v) (gc_barrier v) (code_roots v) false (current_gc v) (current_gc_p v) (border_locked v));
  mret reports.

(** * What an empty report means *)

(** The mark that a card must have for a slot of an object of a generation that
    refers to another generation. *)
Definition needed_mark (source target : generation) : option Z :=
  match source, target with
  | AGING_GENERATION, NURSERY_GENERATION | TENURED_GENERATION, NURSERY_GENERATION => Some card_points_to_nursery
  | TENURED_GENERATION, AGING_GENERATION => Some card_points_to_aging
  | _, _ => None
  end.

Definition remembered (dh : data_heap) (m : memory) (source : generation) (slot : Z) : Prop :=
  ∀ w target mask card, m !! slot = Some w → immediate_p w = false → generation_of dh (UNTAG w) = Ok target →
    needed_mark source target = Some mask → cards dh !! card_of dh slot = Some card → Z.land card mask = mask.

(** The value of a slot: an immediate or a reference into the heap. *)
Definition heap_value (dh : data_heap) (w : Z) : Prop :=
  immediate_p w = true ∨ ∃ target, generation_of dh (UNTAG w) = Ok target.

Lemma check_slot_eq dh ca da m obj gen slot w :
  cards_ok dh → dh_start dh ≤ slot < heap_end dh → m !! slot = Some w → heap_value dh w →
  ∃ rs, check_slot (mk_slot_checker (set_data_heap dh ca da) dh obj gen) m slot = Ok rs ∧
    (rs = [] ↔ remembered dh m gen slot).
Proof.
  intros [[Hs Hal] He Hc Hd] Hslot Hw Hv. unfold check_slot. rewrite (proj2 (load_Ok _ _ _) Hw), result_bind_ok.
  destruct (immediate_p w) eqn:Hi.
  { exists []. split; [done|]. split; [|done]. intros _ w' target mask card Hw' Hi'. congruence. }
  destruct Hv as [|[target Ht]]; [congruence|]. cbn [sc_heap sc_gen]. rewrite Ht, result_bind_ok.
  destruct (lookup_lt_is_Some_2 (cards dh) (card_of dh slot)) as [card Hcard]; [by apply Hc|].
  assert (∀ mask, check_write_barrier (mk_slot_checker (set_data_heap dh ca da) dh obj gen) m slot target mask =
    Ok (if Z.land card mask =? mask then [] else [mk_report gen target obj slot w])) as Hcheck.
  { intros mask. unfold check_write_barrier, set_data_heap, addr_to_card. cbn [sc_heap sc_barrier sc_gen sc_obj cards_offset cards_address].
    rewrite barrier_index by first [done | lia | (unfold card_bits; lia) | (change card_bits with 8; dlia)].
    change (2 ^ card_bits) with 256. fold (card_of dh slot). rewrite (proj2 (read_Ok _ _ _) Hcard), result_bind_ok.
    by rewrite (proj2 (load_Ok _ _ _) Hw). }
  assert (∀ mask, needed_mark gen target = Some mask →
    ((if Z.land card mask =? mask then [] else [mk_report gen target obj slot w]) = [] ↔ remembered dh m gen slot)) as Hiff.
  { intros mask Hm. split.
    - intros E w' target' mask' card' Hw' _ Ht' Hm' Hcard'. assert (w' = w) as -> by congruence.
      assert (target' = target) as -> by congruence. assert (mask' = mask) as -> by congruence.
      assert (card' = card) as -> by congruence.
      destruct (Z.eqb_spec (Z.land card mask) mask); [done|discriminate E].
    - intros Hr. by rewrite (proj2 (Z.eqb_eq _ _) (Hr w target mask card Hw Hi Ht Hm Hcard)). }
  destruct gen, target; rewrite ?Hcheck; eexists; (split; [reflexivity|]); try (by apply Hiff);
    (split; [|done]); intros _ w' target' mask' card' Hw' _ Ht' Hm' _; assert (w' = w) as -> by congruence;
    rewrite Ht in Ht'; apply Ok_inj in Ht'; subst target'; done.
Qed.

Lemma each_slot_eq iter (P : Z → Prop) n : ∀ start,
  0 ≤ start → start + 8 * Z.of_nat n < 2 ^ 64 →
  (∀ k, 0 ≤ k < Z.of_nat n → ∃ rs, iter (start + 8 * k) = Ok rs ∧ (rs = [] ↔ P (start + 8 * k))) →
  ∃ rs, each_slot iter start n = Ok rs ∧ (rs = [] ↔ ∀ k, 0 ≤ k < Z.of_nat n → P (start + 8 * k)).
Proof.
  induction n as [|n IH]; intros start Hs Hb Hiter; cbn [each_slot].
  { exists []. split; [done|]. split; [|done]. intros _ k Hk. lia. }
  destruct (Hiter 0) as (r & Er & Hr); [lia|]. rewrite Z.mul_0_r, Z.add_0_r in Er, Hr. rewrite Er, result_bind_ok.
  rewrite u64_id by (unfold is_cell; lia). destruct (IH (start + 8)) as (rs & Ers & Hrs); [lia|lia| |].
  { intros k Hk. replace (start + 8 + 8 * k) with (start + 8 * (k + 1)) by lia. apply Hiter. lia. }
  rewrite Ers, result_bind_ok. exists (r ++ rs). split; [done|]. split.
  - intros [H1 H2]%app_nil k Hk. destruct (decide (k = 0)) as [->|].
    + rewrite Z.mul_0_r, Z.add_0_r. by apply Hr.
    + replace (start + 8 * k) with (start + 8 + 8 * (k - 1)) by lia. apply Hrs; [done|lia].
  - intros H. rewrite (proj2 Hr), (proj2 Hrs); [done| |].
    + intros k Hk. replace (start + 8 + 8 * k) with (start + 8 * (k + 1)) by lia. apply H. lia.
    + specialize (H 0). rewrite Z.mul_0_r, Z.add_0_r in H. apply H. lia.
Qed.

(** An object of the heap with [n] slots. *)
Record object_slots (dh : data_heap) (m : memory) (obj : Z) (n : nat) (gen : generation) : Prop := {
  os_gen : generation_of dh obj = Ok gen;
  os_count : slot_count m obj = Ok (Z.of_nat n);
  os_inside : dh_start dh ≤ obj ∧ obj + 8 + 8 * Z.of_nat n ≤ heap_end dh;
  os_slots : ∀ k, 0 ≤ k < Z.of_nat n → ∃ w, m !! (obj + 8 + 8 * k) = Some w ∧ heap_value dh w
}.

Lemma check_object_eq dh ca da m obj n gen :
  cards_ok dh → object_slots dh m obj n gen →
  ∃ rs, check_object (set_data_heap dh ca da) dh m obj = Ok rs ∧
    (rs = [] ↔ ∀ k, 0 ≤ k < Z.of_nat n → remembered dh m gen (obj + 8 + 8 * k)).
Proof.
  intros Hok [Hg Hn Hin Hs]. pose proof Hok as [[Hs0 _] He _ _]. unfold check_object.
  rewrite Hg, result_bind_ok, Hn, result_bind_ok, Nat2Z.id, u64_id by (unfold is_cell; lia).
  apply (each_slot_eq _ (remembered dh m gen)); [lia|lia|]. intros k Hk. destruct (Hs k Hk) as (w & Hw & Hv).
  apply (check_slot_eq _ _ _ _ _ _ _ w); [done|lia|done|done].
Qed.

(** The object after a word of the heap has been written. *)
Lemma object_slots_insert dh m obj n gen slot value :
  object_slots dh m obj n gen → heap_value dh value → slot_count (<[slot := value]> m) obj = Ok (Z.of_nat n) →
  object_slots dh (<[slot := value]> m) obj n gen.
Proof.
  intros [Hg Hn Hin Hs] Hv Hc. split; [done|done|done|]. intros k Hk.
  destruct (decide (slot = obj + 8 + 8 * k)) as [->|]; [exists value; by rewrite lookup_insert_eq|].
  rewrite lookup_insert_ne by done. by apply Hs.
Qed.

(** Marking a card makes its slots remembered and does not make others less
    so. *)
Lemma remembered_barrier dh m gen slot value s d :
  (card_of dh slot < length (cards dh))%nat → (s ≠ slot → remembered dh m gen s) →
  remembered (set_cards dh (<[card_of dh slot := card_mark_mask]> (cards dh)) d) (<[slot := value]> m) gen s.
Proof.
  intros Hlen Hr w target mask card Hw Hi Ht Hm Hcard.
  change (cards (set_cards dh (<[card_of dh slot := card_mark_mask]> (cards dh)) d))
    with (<[card_of dh slot := card_mark_mask]> (cards dh)) in Hcard.
  change (card_of (set_cards _ _ _) s) with (card_of dh s) in Hcard.
  destruct (decide (card_of dh slot = card_of dh s)) as [E|E].
  - rewrite E, list_lookup_insert_eq in Hcard by (rewrite <- E; done). injection Hcard as <-.
    destruct gen, target; try done; injection Hm as <-; reflexivity.
  - rewrite list_lookup_insert_ne in Hcard by done. assert (s ≠ slot) as Hne by congruence.
    rewrite lookup_insert_ne in Hw by done. by apply (Hr Hne w target mask card).
Qed.


(** ** An example

    An array with two elements at the start of tenured space; a reference to the
    nursery is written into it. *)

Definition checked_memory : memory :=
  list_to_map [(1048576, initialize ARRAY_TYPE); (1048584, tag_fixnum 2); (1048592, tag_fixnum 7); (1048600, false_object)].

Lemma checked_heap_ok : cards_ok (small_heap 2621440).
Proof.
  split; [done|unfold heap_end; cbn; lia|..]; intros a Ha; unfold card_of, deck_of, heap_end in *; cbn in *;
    rewrite ?length_replicate; dlia.
Qed.

