(* ===== verification/Doubles.v ===== *)
(** Floating point numbers: the arithmetic of C's [double], and
    [double_to_bignum] of vm/bignum.cpp.

    A [double] is a [spec_float] of the Standard Library, with 53 bits of
    precision: a sign, a mantissa and an exponent.  Its operations round to
    nearest, ties to even; the conversion to a bignum never needs to round,
    which is what the lemmas below show. *)

From Stdlib Require Import SpecFloat.
From S2P Require Import Prelude.
From S2P Require Import Layouts.
From S2P Require Import Arrays.
From S2P Require Import Bignum.
Local Open Scope Z_scope.

(** * Arithmetic *)

Definition double : Type := spec_float.

Definition prec : Z := 53.
Definition emax : Z := 1024.

Definition double_mul : double → double → double := SFmul prec emax.
Definition double_sub : double → double → double := SFsub prec emax.
Definition double_add : double → double → double := SFadd prec emax.
Definition double_div : double → double → double := SFdiv prec emax.
Definition double_opp : double → double := SFopp.

(** The conversion of an integer. *)
Definition double_of_Z (n : Z) : double := binary_normalize prec emax n 0 false.

(** The integer part of a number, towards zero; 0 for what is not a number. *)
Definition truncate (x : double) : Z :=
  match x with
  | S754_finite s m e => with_sign s (Z.shiftl (Zpos m) e)
  | _ => 0
  end.

(** The conversion to a [fixnum]; the machine's instruction yields the least
    integer for a number that does not fit. *)
Definition double_to_fixnum (x : double) : Z :=
  match x with
  | S754_infinity _ | S754_nan => - 2 ^ 63
  | _ => if decide (- 2 ^ 63 ≤ truncate x < 2 ^ 63) then truncate x else - 2 ^ 63
  end.

Definition finite_p (x : double) : bool :=
  match x with S754_infinity _ | S754_nan => false | _ => true end.

Definition negative_p (x : double) : bool := SFltb x (S754_zero false).

(** * Conversion to a bignum *)

(** src/vm/bignum.cpp:416-422 [DTB_WRITE_DIGIT]: the digit and the rest of the
    significand. *)
Definition dtb_digit (significand : double) (factor : Z) : Z * double :=
  let significand := double_mul significand (double_of_Z factor) in
  let digit := double_to_fixnum significand in
  (digit, double_sub significand (double_of_Z digit)).

Section conversion.
Context `{!alloc_env Z}.

(** src/vm/bignum.cpp:448-455 [double_to_bignum] (part): The loop; [scan] counts
    the digits that are still to be written. *)
Fixpoint dtb_loop (significand : double) (scan : nat) (digits : list Z) : result (list Z) :=
  match scan with
  | 0%nat => Ok digits
  | S scan =>
      if SFeqb significand (S754_zero false) then Ok (list_inserts 0 (replicate (S scan) 0) digits)
      else
        let '(digit, significand) := dtb_digit significand BIGNUM_RADIX in
        digits ← write digits scan digit;
        dtb_loop significand scan digits
  end.

(** src/vm/bignum.cpp:427-457 [double_to_bignum] *)
Definition double_to_bignum (x : double) : result bignum :=
  if negb (finite_p x) then Ok BIGNUM_ZERO
  else
    let '(significand, exponent) := SFfrexp prec emax x in
    if exponent <=? 0 then Ok BIGNUM_ZERO
    else if exponent =? 1 then Ok (BIGNUM_ONE (negative_p x))
    else
      let significand := if negative_p significand then double_opp significand else significand in
      let length := Z.to_nat (BIGNUM_BITS_TO_DIGITS exponent) in
      let result := allot_bignum length (negative_p x) in
      let odd_bits := exponent `rem` BIGNUM_DIGIT_LENGTH in
      if 0 <? odd_bits then
        let '(digit, significand) := dtb_digit significand (Z.shiftl 1 odd_bits) in
        digits ← write (bn_digits result) (length - 1) digit;
        digits ← dtb_loop significand (length - 1) digits;
        Ok (mk_bignum (negative_p x) digits)
      else
        digits ← dtb_loop significand length (bn_digits result);
        Ok (mk_bignum (negative_p x) digits).
End conversion.

(** * Rounding is exact *)

Lemma digits2_log2 p : Zpos (digits2_pos p) = Z.log2 (Zpos p) + 1.
Proof.
  induction p as [p IH|p IH|]; cbn [digits2_pos]; [| |done]; rewrite Pos2Z.inj_succ, IH.
  - rewrite Pos2Z.inj_xI, Z.log2_succ_double by lia. lia.
  - rewrite Pos2Z.inj_xO, Z.log2_double by lia. lia.
Qed.

Lemma Zdigits2_log2 z : 0 < z → Zdigits2 z = Z.log2 z + 1.
Proof. destruct z; [lia|intros _; apply digits2_log2|lia]. Qed.

Lemma shift_digits p d : Zpos (Pos.iter xO p d) = Zpos p * 2 ^ Zpos d.
Proof.
  induction d as [|d IH] using Pos.peano_ind; [cbn; lia|].
  rewrite Pos.iter_succ, Pos2Z.inj_xO, IH, Pos2Z.inj_succ, Z.pow_succ_r by lia. lia.
Qed.

(** An exact shift to the right. *)
Lemma shr_1_exact z : 0 < z → shr_1 (Build_shr_record (2 * z) false false) = Build_shr_record z false false.
Proof. destruct z; [lia|done|lia]. Qed.

Lemma iter_shr_exact p : ∀ z, 0 < z →
  SpecFloat.iter_pos shr_1 p (Build_shr_record (z * 2 ^ Zpos p) false false) = Build_shr_record z false false.
Proof.
  induction p as [p IH|p IH|]; intros z Hz; cbn [SpecFloat.iter_pos].
  - rewrite Pos2Z.inj_xI. replace (z * 2 ^ (2 * Zpos p + 1)) with (2 * (z * 2 ^ Zpos p * 2 ^ Zpos p)).
    2:{ replace (2 * Zpos p + 1) with (Zpos p + Zpos p + 1) by lia. rewrite !Z.pow_add_r by lia. lia. }
    pose proof (Z.pow_pos_nonneg 2 (Zpos p) ltac:(lia) ltac:(lia)).
    rewrite shr_1_exact by nia. by rewrite !IH by nia.
  - replace (Zpos (xO p)) with (Zpos p + Zpos p) by lia. rewrite Z.pow_add_r, Z.mul_assoc by lia.
    pose proof (Z.pow_pos_nonneg 2 (Zpos p) ltac:(lia) ltac:(lia)). by rewrite !IH by nia.
  - rewrite Z.mul_comm. by apply shr_1_exact.
Qed.

Lemma shr_exact z e n : 0 < z → 0 ≤ n →
  shr (Build_shr_record (z * 2 ^ n) false false) e n = (Build_shr_record z false false, e + n).
Proof.
  intros Hz Hn. destruct n as [|p|p]; [by rewrite Z.mul_1_r, Z.add_0_r| |lia].
  cbn [shr]. by rewrite iter_shr_exact.
Qed.

Lemma fexp_eq e : fexp prec emax e = Z.max (e - 53) (-1074).
Proof. reflexivity. Qed.

(** Rounding a number whose mantissa ends in enough zeros. *)
Lemma round_aux_exact s z e n :
  0 < z → 0 ≤ n → fexp prec emax (Z.log2 z + 1 + (e + n)) = e + n → e + n ≤ 971 →
  binary_round_aux prec emax s (z * 2 ^ n) e loc_Exact = S754_finite s (Z.to_pos z) (e + n).
Proof.
  intros Hz Hn Hf He. unfold binary_round_aux, shr_fexp. pose proof (Z.pow_pos_nonneg 2 n ltac:(lia) ltac:(lia)).
  cbn [shr_record_of_loc]. rewrite Zdigits2_log2, Z.log2_mul_pow2 by nia.
  replace (n + Z.log2 z + 1 + e) with (Z.log2 z + 1 + (e + n)) by lia. rewrite Hf.
  replace (e + n - e) with n by lia. rewrite shr_exact by done. cbn [shr_m loc_of_shr_record shr_r shr_s round_nearest_even].
  rewrite Zdigits2_log2, Hf, Z.sub_diag by done. cbn [shr shr_m]. destruct z; [lia| |lia]. cbn [shr_m].
  by rewrite (proj2 (Z.leb_le (e + n) (emax - prec))) by (unfold emax, prec; lia).
Qed.

(** The number with mantissa [z] and exponent [e], when it has at most 53
    significant bits. *)
Definition canonical (s : bool) (z e : Z) : double :=
  let e' := Z.log2 z + 1 + e - 53 in
  S754_finite s (Z.to_pos (Z.shiftl z (e - e'))) e'.

Lemma shl_align_eq p e e' : shl_align p e e' = (Z.to_pos (Zpos p * 2 ^ Z.max 0 (e - e')), Z.min e e').
Proof.
  unfold shl_align. destruct (e' - e) as [|d|d] eqn:E.
  - rewrite Z.max_l, Z.mul_1_r, Z.min_l by lia. done.
  - rewrite Z.max_l, Z.mul_1_r, Z.min_l by lia. done.
  - rewrite Z.max_r, Z.min_r by lia. replace (e - e') with (Zpos d) by lia. by rewrite <- shift_digits.
Qed.

Lemma round_exact s p e c k :
  Zpos p = c * 2 ^ k → 0 ≤ k → 0 < c < 2 ^ 53 → -1000 ≤ Z.log2 (Zpos p) + e ≤ 1000 →
  binary_round prec emax s p e = canonical s (Zpos p) e.
Proof.
  intros Hp Hk Hc Hr. unfold binary_round, canonical. rewrite digits2_log2, shl_align_eq, fexp_eq.
  set (L := Z.log2 (Zpos p)) in *. set (e' := L + 1 + e - 53).
  rewrite (Z.max_l e' (-1074)) by lia.
  assert (L = k + Z.log2 c) as HL by (unfold L; rewrite Hp, Z.log2_mul_pow2 by lia; lia).
  assert (Z.log2 c < 53) by (apply Z.log2_lt_pow2; lia).
  destruct (decide (e' ≤ e)) as [Hle|Hgt].
  - rewrite Z.max_r, Z.min_r, Z.shiftl_mul_pow2 by lia. pose proof (Z.pow_pos_nonneg 2 (e - e') ltac:(lia) ltac:(lia)).
    rewrite Z2Pos.id by nia.
    pose proof (round_aux_exact s (Zpos p * 2 ^ (e - e')) e' 0) as E. rewrite Z.mul_1_r, Z.add_0_r in E. apply E; [nia|lia| |].
    + rewrite Z.log2_mul_pow2, fexp_eq by lia. fold L. lia.
    + lia.
  - rewrite Z.max_l, Z.min_l, Z.mul_1_r by lia. rewrite Z2Pos.id by lia.
    assert (Zpos p = c * 2 ^ (k - (e' - e)) * 2 ^ (e' - e)) as Hp'.
    { rewrite Hp, <- Z.mul_assoc, <- Z.pow_add_r by lia. do 2 f_equal. lia. }
    pose proof (Z.pow_pos_nonneg 2 (k - (e' - e)) ltac:(lia) ltac:(lia)).
    replace (Z.shiftl (Zpos p) (e - e')) with (c * 2 ^ (k - (e' - e))).
    2:{ rewrite <- (Z.opp_involutive (e - e')), Z.shiftl_opp_r, Z.shiftr_div_pow2 by lia.
        replace (- (e - e')) with (e' - e) by lia. rewrite Hp' at 1. by rewrite Z.div_mul by lia. }
    rewrite Hp' at 1. rewrite round_aux_exact; [f_equal; lia|nia|lia| |lia].
    rewrite Z.log2_mul_pow2, fexp_eq by lia. lia.
Qed.

(** A shift as a division. *)
Lemma shiftl_floor z e n : 0 ≤ n → 0 ≤ e + n → Z.shiftl z e = z * 2 ^ (e + n) / 2 ^ n.
Proof.
  intros Hn He. pose proof (Z.pow_pos_nonneg 2 n ltac:(lia) ltac:(lia)). destruct (decide (0 ≤ e)).
  - rewrite Z.shiftl_mul_pow2, Z.pow_add_r, Z.mul_assoc, Z.div_mul by lia. done.
  - rewrite <- (Z.opp_involutive e) at 1. rewrite Z.shiftl_opp_r, Z.shiftr_div_pow2 by lia.
    replace (2 ^ n) with (2 ^ (- e) * 2 ^ (e + n)) by (rewrite <- Z.pow_add_r by lia; f_equal; lia).
    pose proof (Z.pow_pos_nonneg 2 (e + n) ltac:(lia) ltac:(lia)). pose proof (Z.pow_pos_nonneg 2 (- e) ltac:(lia) ltac:(lia)).
    by rewrite Z.div_mul_cancel_r by lia.
Qed.

(** The parts of a canonical number, and its value in units of [2^-n]. *)
Lemma canonical_value s z e c k :
  z = c * 2 ^ k → 0 ≤ k → 0 < c < 2 ^ 53 →
  ∃ p, canonical s z e = S754_finite s p (Z.log2 z + 1 + e - 53) ∧
    ∀ n, 0 ≤ e + n → 0 ≤ Z.log2 z + 1 + e - 53 + n → Zpos p * 2 ^ (Z.log2 z + 1 + e - 53 + n) = z * 2 ^ (e + n).
Proof.
  intros Hz Hk Hc. unfold canonical. set (L := Z.log2 z). set (e' := L + 1 + e - 53).
  assert (L = k + Z.log2 c) as HL by (unfold L; rewrite Hz, Z.log2_mul_pow2 by lia; lia).
  assert (Z.log2 c < 53) by (apply Z.log2_lt_pow2; lia). pose proof (Z.log2_nonneg c).
  pose proof (Z.pow_pos_nonneg 2 k ltac:(lia) ltac:(lia)).
  eexists. split; [reflexivity|]. intros n Hn1 Hn2.
  assert (Z.shiftl z (e - e') * 2 ^ (e' + n) = z * 2 ^ (e + n) ∧ 0 < Z.shiftl z (e - e')) as [Hv Hpos].
  { destruct (decide (e' ≤ e)) as [Hle|Hgt].
    - pose proof (Z.pow_pos_nonneg 2 (e - e') ltac:(lia) ltac:(lia)). rewrite Z.shiftl_mul_pow2 by lia.
      split; [rewrite <- Z.mul_assoc, <- Z.pow_add_r by lia; do 2 f_equal; lia|nia].
    - pose proof (Z.pow_pos_nonneg 2 (k - (e' - e)) ltac:(lia) ltac:(lia)).
      assert (Z.shiftl z (e - e') = c * 2 ^ (k - (e' - e))) as ->.
      { rewrite <- (Z.opp_involutive (e - e')), Z.shiftl_opp_r, Z.shiftr_div_pow2 by lia.
        replace (- (e - e')) with (e' - e) by lia. pose proof (Z.pow_pos_nonneg 2 (e' - e) ltac:(lia) ltac:(lia)).
        rewrite Hz. replace (2 ^ k) with (2 ^ (k - (e' - e)) * 2 ^ (e' - e)) by (rewrite <- Z.pow_add_r by lia; f_equal; lia).
        by rewrite Z.mul_assoc, Z.div_mul by lia. }
      split; [|nia]. rewrite Hz, <- !Z.mul_assoc, <- !Z.pow_add_r by lia. do 2 f_equal. lia. }
  by rewrite Z2Pos.id.
Qed.

(** The number [k / 2^53]. *)
Definition frac_float (k : Z) : double := if k =? 0 then S754_zero false else canonical false k (-53).

Lemma double_of_Z_eq q c k :
  q = c * 2 ^ k → 0 ≤ k ≤ 900 → 0 < c < 2 ^ 53 → double_of_Z q = canonical false q 0.
Proof.
  intros Hq Hk Hc. pose proof (Z.pow_pos_nonneg 2 k ltac:(lia) ltac:(lia)).
  destruct q as [|p|p]; [nia| |nia]. apply (round_exact _ _ _ c k); [done|lia|done|].
  rewrite Hq, Z.log2_mul_pow2 by lia. pose proof (Z.log2_nonneg c). assert (Z.log2 c < 53) by (apply Z.log2_lt_pow2; lia). lia.
Qed.

Lemma mul_frac k j :
  0 < k < 2 ^ 53 → 0 < j ≤ 62 → double_mul (frac_float k) (double_of_Z (2 ^ j)) = canonical false k (j - 53).
Proof.
  intros Hk Hj. rewrite (double_of_Z_eq _ 1 j) by lia. unfold frac_float, double_mul.
  rewrite (proj2 (Z.eqb_neq k 0)) by lia.
  destruct (canonical_value false k (-53) k 0) as (p & Ep & Vp); [lia|lia|lia|].
  destruct (canonical_value false (2 ^ j) 0 1 j) as (q & Eq & Vq); [lia|lia|lia|].
  destruct (canonical_value false k (j - 53) k 0) as (r & Er & Vr); [lia|lia|lia|].
  pose proof (Z.log2_nonneg k). assert (Z.log2 k < 53) by (apply Z.log2_lt_pow2; lia).
  rewrite Ep, Eq, Er. rewrite Z.log2_pow2 in * by lia. cbn [SFmul xorb].
  assert (Zpos q = 2 ^ 52) as Hq.
  { specialize (Vq 52 ltac:(lia) ltac:(lia)). replace (j + 1 + 0 - 53 + 52) with j in Vq by lia.
    pose proof (Z.pow_pos_nonneg 2 j ltac:(lia) ltac:(lia)). nia. }
  assert (Zpos r = Zpos p) as Hr.
  { specialize (Vp 200 ltac:(lia) ltac:(lia)). specialize (Vr (200 - j) ltac:(lia) ltac:(lia)).
    replace (Z.log2 k + 1 + (j - 53) - 53 + (200 - j)) with (Z.log2 k + 1 + -53 - 53 + 200) in Vr by lia.
    replace (j - 53 + (200 - j)) with (-53 + 200) in Vr by lia.
    pose proof (Z.pow_pos_nonneg 2 (Z.log2 k + 1 + -53 - 53 + 200) ltac:(lia) ltac:(lia)). nia. }
  assert (Z.log2 (Zpos p) = 52) as Hlp.
  { specialize (Vp 200 ltac:(lia) ltac:(lia)). apply (f_equal Z.log2) in Vp. rewrite !Z.log2_mul_pow2 in Vp by lia. lia. }
  rewrite Pos2Z.inj_mul, Hq. rewrite round_aux_exact; [|lia|lia|rewrite fexp_eq, Hlp; lia|lia].
  cbn [Z.to_pos]. injection Hr as ->. f_equal. lia.
Qed.

Lemma truncate_frac k j :
  0 < k < 2 ^ 53 → 0 < j ≤ 62 → truncate (canonical false k (j - 53)) = k * 2 ^ j / 2 ^ 53.
Proof.
  intros Hk Hj. destruct (canonical_value false k (j - 53) k 0) as (p & -> & Vp); [lia|lia|lia|].
  pose proof (Z.log2_nonneg k). assert (Z.log2 k < 53) by (apply Z.log2_lt_pow2; lia). cbn [truncate with_sign].
  rewrite (shiftl_floor _ _ 200) by lia. rewrite (Vp 200) by lia.
  replace (j - 53 + 200) with (j + 147) by lia. rewrite Z.pow_add_r, Z.mul_assoc by lia.
  change (2 ^ 200) with (2 ^ 53 * 2 ^ 147). by rewrite Z.div_mul_cancel_r by lia.
Qed.

(** The canonical form of a fraction. *)
Lemma normalize_frac D e r :
  -200 ≤ e → 0 ≤ r < 2 ^ 53 → D * 2 ^ (e + 200) = r * 2 ^ 147 → binary_normalize prec emax D e false = frac_float r.
Proof.
  intros He Hr HD. pose proof (Z.pow_pos_nonneg 2 (e + 200) ltac:(lia) ltac:(lia)) as He2. unfold frac_float.
  destruct (Z.eqb_spec r 0) as [->|Hr0]; [assert (D = 0) as -> by nia; done|].
  destruct D as [|p|p]; [nia| |nia]. cbn [binary_normalize].
  assert (∃ c k, Zpos p = c * 2 ^ k ∧ 0 ≤ k ∧ 0 < c < 2 ^ 53) as (c & k & Hp & Hk & Hc).
  { destruct (decide (e ≤ -53)).
    - exists r, (-53 - e). split_and!; [|lia..].
      replace (2 ^ 147) with (2 ^ (-53 - e) * 2 ^ (e + 200)) in HD by (rewrite <- Z.pow_add_r by lia; f_equal; lia). nia.
    - exists (Zpos p), 0. split_and!; [lia|lia|lia|].
      replace (e + 200) with (e + 53 + 147) in HD by lia. rewrite Z.pow_add_r in HD by lia.
      pose proof (Z.pow_pos_nonneg 2 (e + 53) ltac:(lia) ltac:(lia)). nia. }
  assert (Z.log2 (Zpos p) + e = Z.log2 r - 53) as HL.
  { apply (f_equal Z.log2) in HD. rewrite !Z.log2_mul_pow2 in HD by lia. lia. }
  pose proof (Z.log2_nonneg r). assert (Z.log2 r < 53) by (apply Z.log2_lt_pow2; lia).
  rewrite (round_exact _ _ _ c k) by (done || lia). unfold canonical. rewrite <- (Z.add_assoc _ 1 e), (Z.add_comm 1 e), Z.add_assoc, HL.
  replace (Z.log2 r + 1 + -53 - 53) with (Z.log2 r - 53 + 1 - 53) by lia. set (e' := Z.log2 r - 53 + 1 - 53).
  do 2 f_equal. rewrite (shiftl_floor _ (e - e') 300), (shiftl_floor _ (-53 - e') 300) by lia. f_equal.
  replace (e - e' + 300) with (e + 200 + (100 - e')) by lia. replace (-53 - e' + 300) with (147 + (100 - e')) by lia.
  rewrite (Z.pow_add_r 2 (e + 200)), (Z.pow_add_r 2 147) by lia. rewrite !Z.mul_assoc. by rewrite HD.
Qed.

(** What is left of the significand when its integer part is taken away. *)
Lemma sub_frac k j :
  0 < k < 2 ^ 53 → 0 < j ≤ 62 →
  double_sub (canonical false k (j - 53)) (double_of_Z (k * 2 ^ j / 2 ^ 53)) = frac_float (k * 2 ^ j mod 2 ^ 53).
Proof.
  intros Hk Hj. set (q := k * 2 ^ j / 2 ^ 53). set (r := k * 2 ^ j mod 2 ^ 53).
  pose proof (Z.pow_pos_nonneg 2 j ltac:(lia) ltac:(lia)) as Hj2.
  assert (k * 2 ^ j = q * 2 ^ 53 + r ∧ 0 ≤ r < 2 ^ 53 ∧ 0 ≤ q) as (Hqr & Hr & Hq0) by (unfold q, r; split_and!; dlia).
  pose proof (Z.log2_nonneg k). assert (Z.log2 k < 53) as HLk by (apply Z.log2_lt_pow2; lia).
  destruct (canonical_value false k (j - 53) k 0) as (p & Ep & Vp); [lia|lia|lia|].
  destruct (decide (q = 0)) as [Eq|Hq].
  { rewrite Eq. unfold frac_float. assert (r = k * 2 ^ j) as -> by lia. rewrite (proj2 (Z.eqb_neq _ 0)) by nia.
    rewrite Ep. cbn [double_sub SFsub double_of_Z binary_normalize]. rewrite <- Ep. unfold canonical.
    rewrite Z.log2_mul_pow2, <- (Z.shiftl_mul_pow2 k j), Z.shiftl_shiftl by lia.
    replace (j + Z.log2 k + 1 + -53 - 53) with (Z.log2 k + 1 + (j - 53) - 53) by lia. do 3 f_equal. lia. }
  assert (∃ c z, q = c * 2 ^ z ∧ 0 ≤ z ≤ 900 ∧ 0 < c < 2 ^ 53) as (c & z & Hqc & Hz & Hc).
  { destruct (decide (j ≤ 53)).
    - exists q, 0. split_and!; [lia|lia|lia|lia|]. assert (2 ^ j ≤ 2 ^ 53) by (apply Z.pow_le_mono_r; lia). nia.
    - exists k, (j - 53). split_and!; [|lia..]. unfold q.
      replace (2 ^ j) with (2 ^ (j - 53) * 2 ^ 53) by (rewrite <- Z.pow_add_r by lia; f_equal; lia).
      by rewrite Z.mul_assoc, Z.div_mul by lia. }
  rewrite (double_of_Z_eq q c z) by lia.
  destruct (canonical_value false q 0 c z) as (w & Ew & Vw); [done|lia|lia|].
  assert (0 ≤ Z.log2 q < 63) as HLq.
  { split; [apply Z.log2_nonneg|]. apply Z.log2_lt_pow2; [lia|]. assert (2 ^ j ≤ 2 ^ 62) by (apply Z.pow_le_mono_r; lia). nia. }
  rewrite Ep, Ew. unfold double_sub. cbn [SFsub cond_Zopp]. rewrite !shl_align_eq. cbn [fst].
  set (ex := Z.log2 k + 1 + (j - 53) - 53) in *. set (ey := Z.log2 q + 1 + 0 - 53) in *. set (ez := Z.min ex ey).
  rewrite (Z.max_r 0 (ex - ez)), (Z.max_r 0 (ey - ez)) by lia.
  pose proof (Z.pow_pos_nonneg 2 (ex - ez) ltac:(lia) ltac:(lia)). pose proof (Z.pow_pos_nonneg 2 (ey - ez) ltac:(lia) ltac:(lia)).
  rewrite !Z2Pos.id by nia. set (D := Zpos p * 2 ^ (ex - ez) - Zpos w * 2 ^ (ey - ez)).
  assert (D * 2 ^ (ez + 200) = r * 2 ^ 147) as HD.
  { unfold D. rewrite Z.mul_sub_distr_r, <- !Z.mul_assoc, <- !Z.pow_add_r by lia.
    replace (ex - ez + (ez + 200)) with (ex + 200) by lia. replace (ey - ez + (ez + 200)) with (ey + 200) by lia.
    rewrite (Vp 200), (Vw 200) by lia. replace (j - 53 + 200) with (j + 147) by lia. rewrite Z.pow_add_r by lia.
    change (2 ^ (0 + 200)) with (2 ^ 53 * 2 ^ 147). nia. }
  apply (normalize_frac D ez r); [lia|done|done].
Qed.

(** A digit is the integer part of the scaled significand; the rest is kept. *)
Lemma dtb_digit_eq k j :
  0 < k < 2 ^ 53 → 0 < j ≤ 62 →
  dtb_digit (frac_float k) (2 ^ j) = (k * 2 ^ j / 2 ^ 53, frac_float (k * 2 ^ j mod 2 ^ 53)).
Proof.
  intros Hk Hj. unfold dtb_digit. rewrite mul_frac by done.
  assert (double_to_fixnum (canonical false k (j - 53)) = k * 2 ^ j / 2 ^ 53) as ->.
  { unfold double_to_fixnum. rewrite truncate_frac by done. unfold canonical. rewrite decide_True; [done|].
    assert (2 ^ j ≤ 2 ^ 62) by (apply Z.pow_le_mono_r; lia). pose proof (Z.pow_pos_nonneg 2 j ltac:(lia) ltac:(lia)).
    split; [transitivity 0; [lia|apply Z.div_pos; nia]|apply Z.div_lt_upper_bound; nia]. }
  by rewrite sub_frac.
Qed.

(** The integer part of [k 2^(j + n) / 2^53], from its first digit and the
    rest. *)
Lemma digit_split k j n : 0 ≤ k → 0 ≤ j → 0 ≤ n →
  k * 2 ^ j / 2 ^ 53 * 2 ^ n + (k * 2 ^ j mod 2 ^ 53) * 2 ^ n / 2 ^ 53 = k * 2 ^ (j + n) / 2 ^ 53.
Proof.
  intros Hk Hj Hn. rewrite Z.pow_add_r, Z.mul_assoc by lia. set (a := k * 2 ^ j).
  rewrite (Z.div_mod a (2 ^ 53)) at 3 by lia. rewrite Z.mul_add_distr_r.
  rewrite (Z.mul_comm (2 ^ 53)), <- Z.mul_assoc, (Z.mul_comm (2 ^ 53)), Z.mul_assoc, Z.div_add_l by lia. done.
Qed.

Lemma dtb_loop_eq n : ∀ k ds, 0 ≤ k < 2 ^ 53 → (n ≤ length ds)%nat →
  ∃ out, dtb_loop (frac_float k) n ds = Ok (out ++ drop n ds) ∧ length out = n ∧ digits_ok out ∧
    digits_value out = k * 2 ^ (62 * Z.of_nat n) / 2 ^ 53.
Proof.
  induction n as [|n IH]; intros k ds Hk Hlen; cbn [dtb_loop].
  { exists []. rewrite Z.mul_0_r, Z.mul_1_r, Z.div_small by lia. done. }
  destruct (decide (k = 0)) as [->|Hk0].
  { exists (replicate (S n) 0). split; [|split; [apply length_replicate|]].
    - change (SFeqb (frac_float 0) (S754_zero false)) with true. cbv iota. f_equal.
      rewrite <- (take_drop (S n) ds) at 1. by rewrite list_inserts_0_r by (rewrite length_replicate, length_take; lia).
    - rewrite digits_value_replicate_0. split; [|done]. apply Forall_replicate. done. }
  assert (SFeqb (frac_float k) (S754_zero false) = false) as ->.
  { unfold frac_float, canonical. by rewrite (proj2 (Z.eqb_neq k 0)). }
  change BIGNUM_RADIX with (2 ^ 62). rewrite dtb_digit_eq by lia. rewrite write_Ok, result_bind_ok by lia.
  set (q := k * 2 ^ 62 / 2 ^ 53). set (r := k * 2 ^ 62 mod 2 ^ 53).
  destruct (IH r (<[n := q]> ds)) as (out & -> & Hl & Hok & Hv); [unfold r; dlia|rewrite length_insert; lia|].
  exists (out ++ [q]). split; [|split; [rewrite length_app; cbn; lia|split]].
  - rewrite (drop_S _ q n) by (apply list_lookup_insert_eq; lia). rewrite drop_insert_lt by lia. by rewrite <- app_assoc.
  - apply Forall_app. split; [done|]. apply Forall_singleton. unfold digit_ok, q. rewrite radix_eq. dlia.
  - rewrite digits_value_app, Hl, Hv. cbn [digits_value]. rewrite Z.mul_0_r, Z.add_0_r.
    replace (62 * Z.of_nat (S n)) with (62 + 62 * Z.of_nat n) by lia. rewrite <- digit_split by lia. fold q r.
    rewrite radix_eq, <- Z.pow_mul_r by lia. lia.
Qed.

(** [frexp] of a number that is not zero. *)
Lemma frexp_eq s m e :
  bounded prec emax m e = true →
  ∃ k, SFfrexp prec emax (S754_finite s m e) = (S754_finite s k (-53), Z.log2 (Zpos m) + 1 + e) ∧
    frac_float (Zpos k) = S754_finite false k (-53) ∧ 2 ^ 52 ≤ Zpos k < 2 ^ 53 ∧
    Zpos k = Zpos m * 2 ^ (52 - Z.log2 (Zpos m)).
Proof.
  intros Hb. apply andb_prop in Hb as [Hc _]. apply Z.eqb_eq in Hc. rewrite fexp_eq, digits2_log2 in Hc.
  pose proof (Z.log2_nonneg (Zpos m)). assert (Z.log2 (Zpos m) ≤ 52) as HL by lia.
  pose proof (Z.log2_spec (Zpos m) ltac:(lia)) as [Hlo Hhi]. set (L := Z.log2 (Zpos m)) in *.
  pose proof (Z.pow_pos_nonneg 2 (52 - L) ltac:(lia) ltac:(lia)) as Hp.
  set (z := Zpos m * 2 ^ (52 - L)).
  assert (2 ^ 52 ≤ z < 2 ^ 53) as Hz.
  { unfold z. assert (2 ^ 52 = 2 ^ L * 2 ^ (52 - L)) as E by (rewrite <- Z.pow_add_r by lia; f_equal; lia).
    change (2 ^ 53) with (2 * 2 ^ 52). rewrite E. rewrite Z.pow_succ_r in Hhi by lia. nia. }
  exists (Z.to_pos z). rewrite Z2Pos.id by lia. split_and!; [|  |lia|lia|done].
  - cbn [SFfrexp]. rewrite digits2_log2. fold L. destruct (Z.leb_spec prec (L + 1)) as [Hd|Hd]; unfold prec in *.
    + assert (L = 52) as E by lia. unfold z. rewrite E, Z.mul_1_r. cbn [Z.to_pos]. f_equal. lia.
    + f_equal; [|lia]. f_equal. apply Pos2Z.inj. rewrite shift_digits, !Z2Pos.id by lia.
      unfold z. do 2 f_equal. lia.
  - unfold frac_float, canonical. rewrite (proj2 (Z.eqb_neq z 0)) by lia. rewrite (Z.log2_unique z 52) by lia.
    reflexivity.
Qed.

Section double_to_bignum.
Context `{!alloc_env Z}.

(** The digits of the integer part [v] make up its bignum. *)
Lemma digits_bignum neg ds v :
  digits_ok ds → normalized ds → digits_value ds = v → 0 < v → mk_bignum neg ds = bignum_of_Z (with_sign neg v).
Proof.
  intros Hok Hn Hv Hpos. apply denotes_of_Z. split; [split; [done|done|]|].
  - cbn. intros ->. cbn in Hv. lia.
  - unfold bignum_value, with_sign. cbn [bn_digits bn_negative]. by rewrite Hv.
Qed.

(** Both ways in which the digits are written. *)
Lemma dtb_digits_eq k E n odd (init : list Z) :
  2 ^ 52 ≤ k < 2 ^ 53 → 0 ≤ odd < 62 → E = odd + 62 * n → 0 ≤ n → 0 < E →
  length init = Z.to_nat (if 0 <? odd then n + 1 else n) →
  ∃ ds, (if 0 <? odd then
           let '(digit, significand) := dtb_digit (frac_float k) (Z.shiftl 1 odd) in
           digits ← write init (length init - 1) digit;
           dtb_loop significand (length init - 1) digits
         else dtb_loop (frac_float k) (length init) init) = Ok ds ∧
    digits_ok ds ∧ normalized ds ∧ digits_value ds = k * 2 ^ E / 2 ^ 53.
Proof.
  intros Hk Ho HE Hn HE0 Hl. destruct (Z.ltb_spec 0 odd) as [Hodd|Hodd].
  - rewrite Z.shiftl_1_l, dtb_digit_eq by lia. rewrite write_Ok, result_bind_ok by lia.
    set (q := k * 2 ^ odd / 2 ^ 53). set (r := k * 2 ^ odd mod 2 ^ 53).
    assert (0 < 2 ^ odd < BIGNUM_RADIX ∧ 2 ≤ 2 ^ odd) as [Hp Hp2].
    { rewrite radix_eq. split; [split; [apply Z.pow_pos_nonneg; lia|apply Z.pow_lt_mono_r; lia]|].
      change 2 with (2 ^ 1) at 1. apply Z.pow_le_mono_r; lia. }
    destruct (dtb_loop_eq (length init - 1) r (<[(length init - 1)%nat := q]> init)) as (out & -> & Hlo & Hok & Hv);
      [unfold r; dlia|rewrite length_insert; lia|].
    rewrite (drop_S _ q) by (apply list_lookup_insert_eq; lia). rewrite drop_ge by (rewrite length_insert; lia).
    exists (out ++ [q]). split; [done|]. assert (1 ≤ q < BIGNUM_RADIX) as Hq.
    { unfold q. split; [apply Z.div_le_lower_bound; nia|apply Z.div_lt_upper_bound; nia]. }
    split; [apply Forall_app; split; [done|apply Forall_singleton; unfold digit_ok; lia]|]. split; [apply normalized_snoc; lia|].
    rewrite digits_value_app, Hlo, Hv. cbn [digits_value]. rewrite Z.mul_0_r, Z.add_0_r, radix_eq, <- Z.pow_mul_r by lia.
    replace (Z.of_nat (length init - 1)) with n by lia. rewrite HE, <- digit_split by lia. fold q r. lia.
  - assert (odd = 0) as -> by lia.
    destruct (dtb_loop_eq (length init) k init) as (out & -> & Hlo & Hok & Hv); [lia|lia|].
    rewrite drop_ge, app_nil_r by lia. exists out. split; [done|]. split; [done|].
    rewrite Hv, Hl. replace (62 * Z.of_nat (Z.to_nat n)) with E by lia. split; [|done].
    destruct (digits_snoc_inv out) as [->|(ds & d & ->)]; [done|]. apply normalized_snoc. intros ->.
    rewrite digits_value_app in Hv. cbn [digits_value] in Hv. apply Forall_app in Hok as [Hok _].
    pose proof (digits_value_range _ Hok) as [_ Hr]. rewrite length_app in Hlo. cbn in Hlo.
    rewrite radix_eq, <- Z.pow_mul_r in Hr by lia.
    assert (2 ^ (62 * Z.of_nat (length ds)) ≤ k * 2 ^ (62 * Z.of_nat (length init)) / 2 ^ 53); [|lia].
    replace (62 * Z.of_nat (length init)) with (62 + 62 * Z.of_nat (length ds)) by lia. rewrite Z.pow_add_r by lia.
    apply Z.div_le_lower_bound; [lia|]. nia.
Qed.

(** C32. [double_to_bignum] truncates towards zero: the bignum of every
    representable number is the bignum of its integer part, no matter how large
    the number is and with none of the arithmetic on the way rounding; what is
    not a finite number gives zero. *)
Theorem double_to_bignum_spec x :
  valid_binary prec emax x = true → double_to_bignum x = Ok (bignum_of_Z (truncate x)).
Proof.
  destruct x as [s|s| |s m e]; try done. intros Hb. cbn [valid_binary] in Hb. unfold double_to_bignum. cbn [finite_p negb].
  destruct (frexp_eq s m e Hb) as (k & -> & Hf & Hk & Ek). set (L := Z.log2 (Zpos m)) in *. set (E := L + 1 + e).
  pose proof (Z.log2_spec (Zpos m) ltac:(lia)) as [Hlo Hhi]. fold L in Hlo, Hhi.
  pose proof (Z.log2_nonneg (Zpos m)) as HL0. fold L in HL0.
  assert (0 ≤ 52 - L) as HL. { apply andb_prop in Hb as [Hc _]. apply Z.eqb_eq in Hc. rewrite fexp_eq, digits2_log2 in Hc. fold L in Hc. lia. }
  assert (negative_p (S754_finite s m e) = s) as -> by (by destruct s).
  change (truncate (S754_finite s m e)) with (with_sign s (Z.shiftl (Zpos m) e)).
  destruct (Z.leb_spec E 0) as [HE|HE]; [|destruct (Z.eqb_spec E 1) as [HE1|HE1]].
  - rewrite (shiftl_floor _ e (- e)), Z.add_opp_diag_r, Z.mul_1_r, Z.div_small by (lia ||
      (split; [lia|]; eapply Z.lt_le_trans; [exact Hhi|apply Z.pow_le_mono_r; lia])). by destruct s.
  - rewrite (shiftl_floor _ e (- e)), Z.add_opp_diag_r, Z.mul_1_r by lia. replace (- e) with L by lia.
    rewrite Z.pow_succ_r in Hhi by lia. rewrite <- (Z.div_unique (Zpos m) (2 ^ L) 1 (Zpos m - 2 ^ L)) by lia. by destruct s.
  - assert ((if negative_p (S754_finite s k (-53)) then double_opp (S754_finite s k (-53)) else S754_finite s k (-53)) =
      frac_float (Zpos k)) as -> by (rewrite Hf; by destruct s).
    set (n := E / 62). set (odd := E mod 62). change BIGNUM_DIGIT_LENGTH with 62. rewrite Z.rem_mod_nonneg by lia. fold odd.
    set (init := allot_bignum _ s).
    assert (length (bn_digits init) = Z.to_nat (BIGNUM_BITS_TO_DIGITS E)) as Hlen by apply allot_bignum_length.
    assert (BIGNUM_BITS_TO_DIGITS E = if 0 <? odd then n + 1 else n) as Hbits.
    { unfold BIGNUM_BITS_TO_DIGITS. change BIGNUM_DIGIT_LENGTH with 62. rewrite Z.quot_div_nonneg by lia.
      destruct (Z.ltb_spec 0 odd); unfold n, odd in *; dlia. }
    destruct (dtb_digits_eq (Zpos k) E n odd (bn_digits init)) as (ds & Eds & Hok & Hn & Hv);
      [done|unfold odd; dlia|unfold n, odd; dlia|unfold n; dlia|lia|by rewrite Hlen, Hbits|].
    rewrite <- Hlen.
    assert (digits_value ds = Z.shiftl (Zpos m) e) as Hv'.
    { rewrite Hv, Ek, <- Z.mul_assoc, <- Z.pow_add_r, (shiftl_floor _ e 53) by lia. do 3 f_equal. unfold E. lia. }
    assert (0 < Z.shiftl (Zpos m) e) as Hpos.
    { rewrite <- Hv', Hv. apply Z.lt_le_trans with 1; [lia|]. apply Z.div_le_lower_bound; [lia|].
      assert (2 ^ 1 ≤ 2 ^ E) by (apply Z.pow_le_mono_r; lia). nia. }
    rewrite <- (digits_bignum s ds _ Hok Hn Hv' Hpos).
    destruct (0 <? odd); [|by rewrite Eds]. destruct (dtb_digit _ _) as [digit significand].
    destruct (write _ _ digit) as [w|]; [|done]. cbn [mbind result_bind] in *. by rewrite Eds.
Qed.

End double_to_bignum.

(** The number [-(2^100 + 2^60)], which has two digits. *)
Lemma double_to_bignum_spec_witness :
  @double_to_bignum plain_alloc (S754_finite true 4503599627374592 48) = Ok (bignum_of_Z (- (2 ^ 100 + 2 ^ 60))).
Proof. apply (@double_to_bignum_spec plain_alloc (S754_finite true 4503599627374592 48)). vm_compute. reflexivity. Defined.
