(* ===== verification/Floats.v ===== *)
(** Boxed floating point numbers: the float primitives of vm/math.cpp and
    vm/math.hpp, and vm/float_bits.hpp.

    The word of a boxed float is the encoding of its value in 64 bits, as IEEE
    754 has it.  The machine's default for an operation with no result is the
    quiet NaN with the sign set. *)

From Stdlib Require Import SpecFloat.
From S2P Require Import Prelude.
From S2P Require Import Layouts.
From S2P Require Import Memory.
From S2P Require Import Effects.
From S2P Require Import Spaces.
From S2P Require Import DataHeap.
From S2P Require Import Objects.
From S2P Require Import Relocation.
From S2P Require Import SlotVisitor.
From S2P Require Import GC.
From S2P Require Import Arrays.
From S2P Require Import Bignum.
From S2P Require Import VM.
From S2P Require Import Room.
From S2P Require Import Contexts.
From S2P Require Import HeapArrays.
From S2P Require Import Doubles.
Local Open Scope Z_scope.
Local Open Scope cell_scope.

(** * Encoding *)

(** The encoding with [mbits] bits of mantissa and [ebits] bits of exponent. *)
Section encoding.
Context (mbits ebits : Z).

Definition bias : Z := 2 ^ (ebits - 1) - 1.
Definition special_exponent : Z := 2 ^ ebits - 1.

Definition encode (x : spec_float) : Z :=
  let word (s : bool) (e m : Z) := (if s then 2 ^ (mbits + ebits) else 0) + e * 2 ^ mbits + m in
  match x with
  | S754_zero s => word s 0 0
  | S754_infinity s => word s special_exponent 0
  | S754_nan => word true special_exponent (2 ^ (mbits - 1))
  | S754_finite s m e =>
      if Zpos m <? 2 ^ mbits then word s 0 (Zpos m) else word s (e + bias + mbits) (Zpos m - 2 ^ mbits)
  end.

Definition decode (w : Z) : spec_float :=
  let s := negb (w / 2 ^ (mbits + ebits) mod 2 =? 0) in
  let e := w / 2 ^ mbits mod 2 ^ ebits in
  let m := w mod 2 ^ mbits in
  if e =? special_exponent then if m =? 0 then S754_infinity s else S754_nan
  else if e =? 0 then if m =? 0 then S754_zero s else S754_finite s (Z.to_pos m) (1 - bias - mbits)
  else S754_finite s (Z.to_pos (m + 2 ^ mbits)) (e - bias - mbits).
End encoding.

(** The types [double] and [float]; the conversion between them rounds. *)
Definition encode_double : double → Z := encode 52 11.
Definition decode_double : Z → double := decode 52 11.
Definition encode_float : spec_float → Z := encode 23 8.
Definition decode_float : Z → spec_float := decode 23 8.

Definition float_of_double (x : double) : spec_float :=
  match x with
  | S754_finite s m e => binary_round 24 128 s m e
  | _ => x
  end.

Definition double_of_float (x : spec_float) : double :=
  match x with
  | S754_finite s m e => binary_round prec emax s m e
  | _ => x
  end.

(** src/vm/float_bits.hpp:11-15 [double_bits] *)
Definition double_bits (x : double) : Z := encode_double x.
(** src/vm/float_bits.hpp:17-21 [bits_double] *)
Definition bits_double (y : Z) : double := decode_double y.
(** src/vm/float_bits.hpp:28-32 [float_bits] *)
Definition float_bits (x : spec_float) : Z := encode_float x.
(** src/vm/float_bits.hpp:34-38 [bits_float] *)
Definition bits_float (y : Z) : spec_float := decode_float y.

(** * Boxes *)

(** The field [n] of [boxed_float]. *)
Definition float_n : Z := 8.

Section floats.
Context `{!linkage, !os_memory}.

(** src/vm/math.hpp:23-27 [allot_float] *)
Definition allot_float (n : double) : eff vm Z :=
  flo ← vm_allot FLOAT_TYPE sizeof_boxed_float;
  _ ← writes (λ m, put_field m flo float_n (encode_double n));
  mret (tag FLOAT_TYPE flo).

(** src/vm/math.hpp:34-36 [untag_float] *)
Definition untag_float (tagged : Z) : eff vm double :=
  reads (λ m, a ← untag FLOAT_TYPE tagged; w ← field m a float_n; Ok (decode_double w)).

(** src/vm/math.hpp:38-40 [untag_float_check] *)
Definition untag_float_check (tagged : Z) : eff vm double :=
  a ← untag_check FLOAT_TYPE tagged;
  reads (λ m, w ← field m a float_n; Ok (decode_double w)).

(** src/vm/math.hpp:42-44 [float_to_fixnum] *)
Definition float_to_fixnum (tagged : Z) : eff vm Z :=
  x ← untag_float tagged; mret (double_to_fixnum x).

(** src/vm/math.hpp:46-48 [fixnum_to_float] *)
Definition fixnum_to_float (tagged : Z) : eff vm double :=
  n ← fixnum_of tagged; mret (double_of_Z n).

(** src/vm/math.hpp:30-32 [float_to_bignum] *)
Definition float_to_bignum (tagged : Z) : eff vm Z :=
  x ← untag_float tagged;
  b ← reads (λ _, @double_to_bignum plain_alloc x);
  vm_allot_bignum b.

(** src/vm/math.cpp:16-18 [primitive_float_to_fixnum] *)
Definition primitive_float_to_fixnum : eff vm () :=
  w ← ctx_peek; n ← float_to_fixnum w; ctx_replace (tag_fixnum n).

(** src/vm/math.cpp:93-95 [primitive_float_to_bignum] *)
Definition primitive_float_to_bignum : eff vm () :=
  w ← ctx_peek; b ← float_to_bignum w; ctx_replace b.

(** src/vm/math.cpp:210-212 [primitive_fixnum_to_float] *)
Definition primitive_fixnum_to_float : eff vm () :=
  w ← ctx_peek; x ← fixnum_to_float w; f ← allot_float x; ctx_replace f.

(** src/vm/math.cpp:255-257 [POP_FLOATS] *)
Definition POP_FLOATS : eff vm (double * double) :=
  w ← ctx_pop; y ← untag_float w;
  w ← ctx_peek; x ← untag_float w;
  mret (x, y).

(** The primitives that yield a float, and those that yield a boolean. *)
Definition float_operation (op : double → double → double) : eff vm () :=
  '(x, y) ← POP_FLOATS; f ← allot_float (op x y); ctx_replace f.

Definition float_test (op : double → double → bool) : eff vm () :=
  '(x, y) ← POP_FLOATS; b ← vm_tag_boolean (op x y); ctx_replace b.

(** src/vm/math.cpp:259-262 [primitive_float_eq] *)
Definition primitive_float_eq : eff vm () := float_test SFeqb.
(** src/vm/math.cpp:265-268 [primitive_float_add] *)
Definition primitive_float_add : eff vm () := float_operation double_add.
(** src/vm/math.cpp:271-274 [primitive_float_subtract] *)
Definition primitive_float_subtract : eff vm () := float_operation double_sub.
(** src/vm/math.cpp:277-280 [primitive_float_multiply] *)
Definition primitive_float_multiply : eff vm () := float_operation double_mul.
(** src/vm/math.cpp:283-286 [primitive_float_divfloat] *)
Definition primitive_float_divfloat : eff vm () := float_operation double_div.
(** src/vm/math.cpp:288-291 [primitive_float_less] *)
Definition primitive_float_less : eff vm () := float_test SFltb.
(** src/vm/math.cpp:293-296 [primitive_float_lesseq] *)
Definition primitive_float_lesseq : eff vm () := float_test SFleb.
(** src/vm/math.cpp:298-301 [primitive_float_greater] *)
Definition primitive_float_greater : eff vm () := float_test (λ x y, SFltb y x).
(** src/vm/math.cpp:303-306 [primitive_float_greatereq] *)
Definition primitive_float_greatereq : eff vm () := float_test (λ x y, SFleb y x).

(** src/vm/math.cpp:309-312 [primitive_float_bits] *)
Definition primitive_float_bits : eff vm () :=
  w ← ctx_peek; x ← untag_float_check w;
  n ← box_unsigned_cell (float_bits (float_of_double x)); ctx_replace n.

(** src/vm/math.cpp:315-317 [primitive_bits_float] *)
Definition primitive_bits_float : eff vm () :=
  w ← ctx_peek; y ← cell_to_cell w;
  f ← allot_float (double_of_float (bits_float (y mod 2 ^ 32))); ctx_replace f.

(** src/vm/math.cpp:319-321 [primitive_double_bits]: the bits of a NaN are kept
    too. *)
Definition primitive_double_bits : eff vm () :=
  w ← ctx_peek; a ← untag_check FLOAT_TYPE w;
  y ← reads (λ m, field m a float_n);
  n ← box_unsigned_cell y; ctx_replace n.

(** src/vm/math.cpp:324-326 [primitive_bits_double] *)
Definition primitive_bits_double : eff vm () :=
  w ← ctx_peek; y ← cell_to_cell w;
  flo ← vm_allot FLOAT_TYPE sizeof_boxed_float;
  _ ← writes (λ m, put_field m flo float_n y);
  ctx_replace (tag FLOAT_TYPE flo).

(** src/vm/math.cpp:386-388 [to_float] *)
Definition to_float (value : Z) : eff vm spec_float := x ← untag_float_check value; mret (float_of_double x).
(** src/vm/math.cpp:391-391 [to_double] *)
Definition to_double (value : Z) : eff vm double := untag_float_check value.
End floats.

(** * Encoding loses nothing *)

(** The fields of a word. *)
Lemma word_fields (s : bool) e m :
  0 ≤ e < 2 ^ 11 → 0 ≤ m < 2 ^ 52 → let w := (if s then 2 ^ (52 + 11) else 0) + e * 2 ^ 52 + m in
  negb (w / 2 ^ (52 + 11) mod 2 =? 0) = s ∧ w / 2 ^ 52 mod 2 ^ 11 = e ∧ w mod 2 ^ 52 = m ∧ is_cell w.
Proof.
  intros He Hm w. change (2 ^ (52 + 11)) with (2 ^ 63) in *. unfold is_cell.
  assert (w / 2 ^ 63 mod 2 = if s then 1 else 0) as ->; [destruct s; unfold w; dlia|].
  destruct s; unfold w; (split; [done|]); split_and!; dlia.
Qed.

Lemma decode_word (s : bool) e m :
  0 ≤ e < 2 ^ 11 → 0 ≤ m < 2 ^ 52 →
  decode_double ((if s then 2 ^ (52 + 11) else 0) + e * 2 ^ 52 + m) =
    if e =? 2047 then if m =? 0 then S754_infinity s else S754_nan
    else if e =? 0 then if m =? 0 then S754_zero s else S754_finite s (Z.to_pos m) (-1074)
    else S754_finite s (Z.to_pos (m + 2 ^ 52)) (e - 1075).
Proof.
  intros He Hm. unfold decode_double, decode. destruct (word_fields s e m He Hm) as (-> & -> & -> & _).
  change (special_exponent 11) with 2047. change (1 - bias 11 - 52) with (-1074). 
  replace (e - bias 11 - 52) with (e - 1075); [done|]. change (bias 11) with 1023. lia.
Qed.

(** A representable number is subnormal, with the least exponent, or its
    mantissa has 53 bits. *)
Lemma representable m e :
  bounded prec emax m e = true →
  (Zpos m < 2 ^ 52 ∧ e = -1074) ∨ (2 ^ 52 ≤ Zpos m < 2 ^ 53 ∧ -1074 ≤ e ≤ 971).
Proof.
  intros [Hc He]%andb_prop. apply Z.eqb_eq in Hc. apply Z.leb_le in He. unfold prec, emax in He.
  rewrite fexp_eq, digits2_log2 in Hc. pose proof (Z.log2_spec (Zpos m) ltac:(lia)) as [Hlo Hhi].
  pose proof (Z.log2_nonneg (Zpos m)). set (L := Z.log2 (Zpos m)) in *. assert (L ≤ 52) by lia.
  destruct (decide (L = 52)) as [E|E].
  - right. rewrite E in *. change (2 ^ Z.succ 52) with (2 ^ 53) in Hhi. lia.
  - left. split; [|lia]. assert (2 ^ Z.succ L ≤ 2 ^ 52) by (apply Z.pow_le_mono_r; lia). lia.
Qed.

Lemma decode_encode x :
  valid_binary prec emax x = true → x ≠ S754_nan → decode_double (encode_double x) = x ∧ is_cell (encode_double x).
Proof.
  intros Hv Hn.
  assert (∃ s e m, encode_double x = (if s : bool then 2 ^ (52 + 11) else 0) + e * 2 ^ 52 + m ∧ 0 ≤ e < 2 ^ 11 ∧ 0 ≤ m < 2 ^ 52 ∧
    (if e =? 2047 then if m =? 0 then S754_infinity s else S754_nan
     else if e =? 0 then if m =? 0 then S754_zero s else S754_finite s (Z.to_pos m) (-1074)
     else S754_finite s (Z.to_pos (m + 2 ^ 52)) (e - 1075)) = x) as (s & e & m & E & He & Hm & Hx).
  { destruct x as [s|s| |s m e]; [exists s, 0, 0|exists s, 2047, 0|done|].
    - split; [reflexivity|]. split_and!; (lia || done).
    - split; [reflexivity|]. split_and!; (lia || done).
    - unfold encode_double, encode. destruct (representable m e Hv) as [[Hm ->]|[Hm He]].
      + exists s, 0, (Zpos m). rewrite (proj2 (Z.ltb_lt _ _) Hm). split; [done|]. split_and!; try lia. done.
      + exists s, (e + 1075), (Zpos m - 2 ^ 52). rewrite (proj2 (Z.ltb_ge _ _)) by lia. change (bias 11) with 1023.
        split; [f_equal; f_equal; lia|]. split_and!; try lia. rewrite !(proj2 (Z.eqb_neq _ _)) by lia.
        rewrite Z.sub_add, Z.add_simpl_r. done. }
  rewrite E, decode_word by done. split; [done|]. by apply word_fields.
Qed.

Lemma encode_decode w : is_cell w → decode_double w ≠ S754_nan → encode_double (decode_double w) = w.
Proof.
  unfold is_cell. intros Hw. set (s := negb (w / 2 ^ 63 =? 0)). set (e := w / 2 ^ 52 mod 2 ^ 11). set (m := w mod 2 ^ 52).
  assert (0 ≤ e < 2 ^ 11 ∧ 0 ≤ m < 2 ^ 52) as [He Hm] by (unfold e, m; split; dlia).
  assert (w = (if s then 2 ^ (52 + 11) else 0) + e * 2 ^ 52 + m) as Ew.
  { change (2 ^ (52 + 11)) with (2 ^ 63). unfold s. destruct (Z.eqb_spec (w / 2 ^ 63) 0); unfold e, m; cbn [negb]; dlia. }
  clearbody s e m. subst w. rewrite decode_word by done. unfold encode_double, encode. change (bias 11) with 1023.
  destruct (Z.eqb_spec e 2047) as [->|]; [destruct (Z.eqb_spec m 0) as [->|]; done|].
  destruct (Z.eqb_spec e 0) as [->|]; [destruct (Z.eqb_spec m 0) as [->|]; [done|]|]; intros _.
  - rewrite Z2Pos.id, (proj2 (Z.ltb_lt _ _)) by lia. done.
  - rewrite Z2Pos.id, (proj2 (Z.ltb_ge _ _)) by lia. f_equal; [|lia]. f_equal. f_equal. lia.
Qed.

Section boxes.
Context `{!linkage, !os_memory}.

End boxes.

