(* ===== verification/Startup.v ===== *)
(** Starting the vm, vm/factor.cpp, vm/run.cpp and vm/entry_points.cpp, with the primitives that the
    other files leave out: callbacks (vm/callbacks.cpp), the instances of a type
    and the room statistics (vm/data_heap.cpp), and the events of collections
    (vm/gc.cpp). *)

From S2P Require Import Prelude.
From S2P Require Import Layouts.
From S2P Require Import Memory.
From S2P Require Import Effects.
From S2P Require Import FreeList.
From S2P Require Import Spaces.
From S2P Require Import DataHeap.
From S2P Require Import Objects.
From S2P Require Import CodeBlocks.
From S2P Require Import Relocation.
From S2P Require Import Callbacks.
From S2P Require Import SlotVisitor.
From S2P Require Import GC.
From S2P Require Import VM.
From S2P Require Import Room.
From S2P Require Import Aliens.
From S2P Require Import Contexts.
From S2P Require Import HeapArrays.
From S2P Require Import ObjectPrimitives.
From S2P Require Import Jit.
From S2P Require Import Quotations.
From S2P Require Import InlineCache.
From S2P Require Import Callstacks.
From S2P Require Import Io.
From S2P Require Import Image.
Local Open Scope Z_scope.
Local Open Scope cell_scope.

Section primitives.
Context `{!linkage, !os_memory}.

(** * Callbacks *)

(** The heap of callback stubs of the vm; its segment is what the allocator
    spans. *)
Definition vm_callback_heap (v : vm) : callback_heap :=
  let fl := callbacks_heap (config v) in mk_callback_heap (new_segment (fl_start fl) (fl_size fl)) fl.

(** src/vm/callbacks.cpp:88-96 [primitive_callback] *)
Definition primitive_callback : eff vm () :=
  w ← ctx_pop;
  return_rewind ← cell_to_cell w;
  w ← ctx_pop;
  _ ← untag_check WORD_TYPE w;
  v ← get_state;
  '(m, cb, stub) ← reads (λ m, callback_add m (vm_callback_heap v) w return_rewind);
  _ ← writes (λ _, Ok m);
  _ ← change (λ v, with_callbacks_heap v (callback_allocator cb));
  a ← allot_alien (entry_point stub);
  ctx_push a.

(** src/vm/callbacks.cpp:98-102 [primitive_free_callback] *)
Definition vm_primitive_free_callback : eff vm () :=
  obj ← ctx_pop;
  v ← get_state;
  '(m, cb) ← reads (λ m, primitive_free_callback m (vm_callback_heap v) obj);
  _ ← writes (λ _, Ok m);
  change (λ v, with_callbacks_heap v (callback_allocator cb)).

Definition allocator_room_cells (r : allocator_room) : list Z :=
  [room_size r; room_occupied_space r; room_total_free r; room_contiguous_free r; room_free_block_count r].

(** src/vm/callbacks.cpp:105-108 [primitive_callback_room] *)
Definition primitive_callback_room : eff vm () :=
  v ← get_state;
  r ← reads (λ m, as_allocator_room m (callbacks_heap (config v)));
  data ← byte_array_from_cells (allocator_room_cells r);
  ctx_push (tag BYTE_ARRAY_TYPE data).

(** * The data heap *)

Definition data_room_cells (r : data_heap_room) : list Z :=
  [room_nursery_size r; room_nursery_occupied r; room_nursery_free r; room_aging_size r; room_aging_occupied r;
   room_aging_free r; room_tenured_size r; room_tenured_occupied r; room_tenured_total_free r;
   room_tenured_contiguous_free r; room_tenured_free_block_count r; room_cards r; room_decks r; room_mark_stack r].

(** src/vm/data_heap.cpp:132-135 [primitive_data_room] *)
Definition primitive_data_room (mark_stack_capacity : Z) : eff vm () :=
  g ← ask vm_gc;
  r ← reads (λ m, data_room m (heap_of g) mark_stack_capacity);
  data ← byte_array_from_cells (data_room_cells r);
  ctx_push (tag BYTE_ARRAY_TYPE data).

(** src/vm/data_heap.cpp:142-146 [instances] (part): [object_accumulator] over a
    generation. *)
Definition accumulate (m : memory) (type : Z) (first : result Z) (next : Z → result Z) (objects : list Z)
    : result (list Z) :=
  r ← each_object first next (λ obj acc,
    l ← acc;
    header ← load m obj;
    Ok (if (type =? TYPE_COUNT) || (header_type header =? type) then l ++ [tag (header_type header) obj] else l)) (Ok objects);
  r.

(** src/vm/data_heap.cpp:138-148 [instances]: [vector] is the address of the
    elements of the vector [objects], memory that [malloc] has mapped. *)
Definition instances (type vector : Z) : eff vm Z :=
  _ ← with_heaps (λ parent, primitive_full_gc parent);
  g ← ask vm_gc;
  let dh := heap_of g in
  objects ← reads (λ m,
    _ ← check (bump_occupied_space (nursery dh) =? 0);
    l ← accumulate m type (tenured_first_object m (tenured dh)) (tenured_next_object_after object_size m (tenured dh)) [];
    accumulate m type (Ok (aging_first_object (aging dh))) (aging_next_object_after object_size m (aging dh)) l);
  _ ← writes (λ m, store_words m vector objects);
  std_vector_to_array vector (Z.of_nat (length objects)).

(** src/vm/data_heap.cpp:151-153 [primitive_all_instances] *)
Definition primitive_all_instances (vector : Z) : eff vm () :=
  a ← instances TYPE_COUNT vector;
  ctx_push a.

(** * The boot image *)

(** src/vm/objects.hpp:15-98 [special_object] (part) *)
Definition OBJ_CELL_SIZE : Z := 7.
Definition OBJ_ARGS : Z := 10.
Definition OBJ_EMBEDDED : Z := 15.
Definition OBJ_STAGE2 : Z := 67.

Definition set_special (i value : Z) : eff vm () := writes (λ m, store m (special_slot i) value).

Context (depth : nat) (vector : Z).

(** src/vm/factor.cpp:13-19 [prepare_boot_image] (part): The words are
    compiled. *)
Definition compile_words (words : Z) : eff vm () :=
  n_words ← growable_capacity ARRAY_TYPE (mk_growable_at 0 words);
  for_each (seqZ 0 n_words) (λ i,
    w ← root_nth words i;
    rooted w (λ word,
      a ← root_untagged WORD_TYPE word;
      entry ← reads (λ m, field m a word_entry_point);
      _ ← reads (λ _, check (entry =? 0));
      def ← reads (λ m, field m a word_def);
      w ← root_value WORD_TYPE word;
      jit_compile_word depth w def false)).

(** src/vm/factor.cpp:25-31 [prepare_boot_image] (part): The quotations are to
    be compiled when they are called. *)
Definition initialize_quotations (quotations : Z) : eff vm () :=
  n_quots ← growable_capacity ARRAY_TYPE (mk_growable_at 0 quotations);
  for_each (seqZ 0 n_quots) (λ i,
    q ← root_nth quotations i;
    rooted q (λ quot,
      a ← root_untagged QUOTATION_TYPE quot;
      entry ← reads (λ m, field m a quotation_entry_point);
      if entry =? 0 then
        writes (λ m, lazy ← lazy_jit_compile_entry_point m; put_field m a quotation_entry_point lazy)
      else mret ())).

(** src/vm/factor.cpp:7-36 [prepare_boot_image] *)
Definition prepare_boot_image : eff vm () :=
  ws ← instances WORD_TYPE vector;
  rooted ws (λ words,
    _ ← compile_words words;
    _ ← update_code_heap_words true;
    qs ← instances QUOTATION_TYPE vector;
    rooted qs (λ quotations,
      _ ← initialize_quotations quotations;
      t ← vm_special OBJ_CANONICAL_TRUE;
      set_special OBJ_STAGE2 t)).

(** * Start *)

(** src/vm/factor.cpp:39-50 [init_factor] (part): Sizes in kilobytes and in
    megabytes become sizes in bytes. *)
Definition scale_parameters (pagesize : Z) (p : vm_parameters) : vm_parameters :=
  let kilobytes n := align (u64 (Z.shiftl n 10)) pagesize in
  let megabytes n := u64 (Z.shiftl n 20) in
  mk_parameters (image_path p) (kilobytes (p_datastack_size p)) (kilobytes (p_retainstack_size p))
    (kilobytes (p_callstack_size p)) (megabytes (p_young_size p)) (megabytes (p_aging_size p))
    (megabytes (p_tenured_size p)) (megabytes (p_code_size p)) (p_max_pic_size p) (kilobytes (p_callback_size p))
    (fep p) (console p) (signals p).

Definition set_gc_off (b : bool) : eff vm () :=
  change (λ v, let g := vm_gc v in
    with_gc v (mk_gc_vm (collection g) (gc_barrier g) (code_roots g) b (current_gc g) (current_gc_p g) (border_locked g))).

(** src/vm/factor.cpp:80-105 [init_factor] (part): After the image has been
    loaded: the special objects that describe the process; [aliens] is the table
    of their indices and addresses. *)
Definition set_process_objects (aliens : list (Z * Z)) : eff vm () :=
  _ ← set_special OBJ_CELL_SIZE (tag_fixnum 8);
  _ ← set_special OBJ_ARGS false_object;
  _ ← set_special OBJ_EMBEDDED false_object;
  for_each aliens (λ '(idx, address), a ← allot_alien address; set_special idx a).

(** src/vm/factor.cpp:107-111 [init_factor] (part): Collections are possible,
    and a boot image is prepared. *)
Definition finish_boot : eff vm () :=
  _ ← set_gc_off false;
  stage2 ← vm_special OBJ_STAGE2;
  if to_boolean stage2 then mret () else prepare_boot_image.

(** src/vm/factor.cpp:121-129 [pass_args_to_factor]: [argv] is the list of the
    addresses of the arguments. *)
Definition pass_args_to_factor (argv : list Z) : eff vm () :=
  with_growable_array 10 (λ args,
    args ← foldl (λ c arg, args ← c; a ← allot_alien arg; vm_growable_add args a) (mret args) argv;
    _ ← vm_growable_trim args;
    x ← root_value ARRAY_TYPE (g_elements args);
    set_special OBJ_ARGS x).

(** * Entry points

    The vm runs compiled code by calling the address of a stub or of a word.
    What is called, and with which arguments, is the result of these
    operations; on x86 the address of a function is that of its code. *)

(** src/vm/objects.hpp:26-63 [special_object] (part) *)
Definition OBJ_EVAL_CALLBACK : Z := 16.
Definition OBJ_YIELD_CALLBACK : Z := 17.
Definition OBJ_SLEEP_CALLBACK : Z := 18.
Definition OBJ_STARTUP_QUOT : Z := 20.
Definition OBJ_SHUTDOWN_QUOT : Z := 22.
Definition C_TO_FACTOR_WORD : Z := 43.
Definition UNWIND_NATIVE_FRAMES_WORD : Z := 45.
Definition GET_FPU_STATE_WORD : Z := 46.
Definition SET_FPU_STATE_WORD : Z := 47.

Record native_call := mk_native_call { callee : Z; arguments : list Z }.

(** src/vm/entry_points.cpp:5-18 [c_to_factor]: [func] is [c_to_factor_func], the
    stub of an earlier call, and 0 before the first; its new value is part of
    the result. *)
Definition c_to_factor (func quot : Z) : eff vm (Z * native_call) :=
  func ←
    (if func =? 0 then
       word ← vm_special C_TO_FACTOR_WORD;
       _ ← reads (λ _, check (TAG word =? WORD_TYPE));
       v ← get_state;
       '(m, cb, stub) ← reads (λ m, callback_add m (vm_callback_heap v) word 0);
       _ ← writes (λ _, Ok m);
       _ ← change (λ v, with_callbacks_heap v (callback_allocator cb));
       mret (entry_point stub)
     else mret func);
  mret (func, mk_native_call func [quot]).

(** The entry point of a special word. *)
Definition entry_of (index : Z) : eff vm Z :=
  word ← vm_special index;
  reads (λ m, w ← untag WORD_TYPE word; field m w word_entry_point).

(** src/vm/entry_points.cpp:20-25 [unwind_native_frames] *)
Definition unwind_native_frames (quot to : Z) : eff vm native_call :=
  func ← entry_of UNWIND_NATIVE_FRAMES_WORD; mret (mk_native_call func [quot; to]).

(** src/vm/entry_points.cpp:27-32 [get_fpu_state] *)
Definition get_fpu_state : eff vm native_call :=
  func ← entry_of GET_FPU_STATE_WORD; mret (mk_native_call func []).

(** src/vm/entry_points.cpp:34-39 [set_fpu_state] *)
Definition set_fpu_state (state : Z) : eff vm native_call :=
  func ← entry_of SET_FPU_STATE_WORD; mret (mk_native_call func [state]).

(** src/vm/factor.cpp:131-133 [stop_factor]: [c_to_factor_toplevel] is
    [c_to_factor] on Unix. *)
Definition stop_factor (func : Z) : eff vm (Z * native_call) :=
  quot ← vm_special OBJ_SHUTDOWN_QUOT; c_to_factor func quot.

(** The address in an alien among the special objects. *)
Definition callback_of (index : Z) : eff vm Z :=
  alien ← vm_special index; reads (λ m, alien_offset m alien).

(** src/vm/factor.cpp:135-139 [factor_eval_string] *)
Definition factor_eval_string (text : Z) : eff vm native_call :=
  func ← callback_of OBJ_EVAL_CALLBACK; mret (mk_native_call func [text]).

(** src/vm/factor.cpp:143-147 [factor_yield] *)
Definition factor_yield : eff vm native_call :=
  func ← callback_of OBJ_YIELD_CALLBACK; mret (mk_native_call func []).

(** src/vm/factor.cpp:149-153 [factor_sleep] *)
Definition factor_sleep (us : Z) : eff vm native_call :=
  func ← callback_of OBJ_SLEEP_CALLBACK; mret (mk_native_call func [us]).

(** src/vm/factor.cpp:159-164 [start_standalone_factor] (part): After
    [init_factor]; [factorbug] is the debugger. *)
Definition enter_factor (p : vm_parameters) (factorbug : eff vm ()) (argv : list Z) : eff vm (Z * native_call) :=
  _ ← pass_args_to_factor argv;
  _ ← (if fep p then factorbug else mret ());
  quot ← vm_special OBJ_STARTUP_QUOT;
  c_to_factor 0 quot.

(** * The clock and the end *)

(** src/vm/run.cpp:5-5 [primitive_exit]: the status is an [int]. *)
Definition primitive_exit : eff vm () :=
  w ← ctx_pop;
  n ← cell_to_fixnum w;
  raise (PROCESS_EXIT ((n + 2 ^ 31) mod 2 ^ 32 - 2 ^ 31)).

(** src/vm/run.cpp:12-23 [primitive_nano_count]: [nanos] is what the clock
    shows and [last_nano_count] what it has shown before; the new value of that
    field is returned.  A clock that goes back starts the debugger. *)
Definition primitive_nano_count (factorbug : eff vm ()) (nanos last_nano_count : Z) : eff vm Z :=
  _ ← (if nanos <? last_nano_count then factorbug else mret ());
  n ← box_unsigned_cell nanos;
  _ ← ctx_push n;
  mret nanos.

(** * Events of collections *)

(** src/vm/gc.hpp:17-24 [gc_phase] *)
Inductive gc_phase :=
  PHASE_CARD_SCAN | PHASE_CODE_SCAN | PHASE_DATA_SWEEP | PHASE_CODE_SWEEP | PHASE_DATA_COMPACTION | PHASE_MARKING.

Definition phase_index (p : gc_phase) : nat :=
  match p with
  | PHASE_CARD_SCAN => 0 | PHASE_CODE_SCAN => 1 | PHASE_DATA_SWEEP => 2 | PHASE_CODE_SWEEP => 3
  | PHASE_DATA_COMPACTION => 4 | PHASE_MARKING => 5
  end.

(** src/vm/gc.hpp:26-44 [gc_event]: the room statistics as lists of cells. *)
Record gc_event := mk_gc_event {
  ev_op : gc_op;
  data_heap_before : list Z;
  code_heap_before : list Z;
  data_heap_after : list Z;
  code_heap_after : list Z;
  cards_scanned : Z;
  decks_scanned : Z;
  code_blocks_scanned : Z;
  start_time : Z;
  total_time : Z;
  times : list Z;
  temp_time : Z
}.

(** The room statistics of both heaps. *)
Definition rooms (m : memory) (g : gc_vm) (mark_stack_capacity : Z) : result (list Z * list Z) :=
  d ← data_room m (heap_of g) mark_stack_capacity;
  c ← as_allocator_room m (allocator (code (collection g)));
  Ok (data_room_cells d, allocator_room_cells c).

(** src/vm/gc.cpp:5-15 [gc_event::gc_event]: at the time [now]; the fields that
    are not set are 0 here. *)
Definition new_gc_event (op : gc_op) (m : memory) (g : gc_vm) (mark_stack_capacity now : Z) : result gc_event :=
  '(d, c) ← rooms m g mark_stack_capacity;
  Ok (mk_gc_event op d c (replicate 14 0) (replicate 5 0) 0 0 0 now 0 (replicate 6 0) 0).

(** src/vm/gc.cpp:17-17 [gc_event::reset_timer] *)
Definition reset_timer (ev : gc_event) (now : Z) : gc_event :=
  mk_gc_event (ev_op ev) (data_heap_before ev) (code_heap_before ev) (data_heap_after ev) (code_heap_after ev)
    (cards_scanned ev) (decks_scanned ev) (code_blocks_scanned ev) (start_time ev) (total_time ev) (times ev) now.

(** src/vm/gc.cpp:19-21 [gc_event::ended_phase] *)
Definition ended_phase (ev : gc_event) (phase : gc_phase) (now : Z) : gc_event :=
  mk_gc_event (ev_op ev) (data_heap_before ev) (code_heap_before ev) (data_heap_after ev) (code_heap_after ev)
    (cards_scanned ev) (decks_scanned ev) (code_blocks_scanned ev) (start_time ev) (total_time ev)
    (<[phase_index phase := now -& temp_time ev]> (times ev)) (temp_time ev).

(** src/vm/gc.cpp:23-27 [gc_event::ended_gc] *)
Definition ended_gc (ev : gc_event) (m : memory) (g : gc_vm) (mark_stack_capacity now : Z) : result gc_event :=
  '(d, c) ← rooms m g mark_stack_capacity;
  Ok (mk_gc_event (ev_op ev) (data_heap_before ev) (code_heap_before ev) d c
        (cards_scanned ev) (decks_scanned ev) (code_blocks_scanned ev) (start_time ev) (now -& start_time ev) (times ev)
        (temp_time ev)).

(** src/vm/gc.cpp:29-35 [gc_state::gc_state]: the event of a collection, when
    events are recorded. *)
Definition new_gc_state_event (gc_events : option (list gc_event)) (op : gc_op) (m : memory) (g : gc_vm)
    (mark_stack_capacity now : Z) : result (option gc_event) :=
  match gc_events with
  | None => Ok None
  | Some _ => ev ← new_gc_event op m g mark_stack_capacity now; Ok (Some ev)
  end.

(** src/vm/gc.hpp:8-15 [gc_op] (part): The numbers of the operations. *)
Definition gc_op_number (op : gc_op) : Z :=
  match op with
  | COLLECT_NURSERY_OP => 0 | COLLECT_AGING_OP => 1 | COLLECT_TO_TENURED_OP => 2 | COLLECT_FULL_OP => 3
  | COLLECT_COMPACT_OP => 4 | COLLECT_GROWING_DATA_HEAP_OP => 5
  end.

Definition gc_event_cells (ev : gc_event) : list Z :=
  [gc_op_number (ev_op ev)] ++ data_heap_before ev ++ code_heap_before ev ++ data_heap_after ev ++ code_heap_after ev ++
  [cards_scanned ev; decks_scanned ev; code_blocks_scanned ev; start_time ev; total_time ev] ++ times ev ++ [temp_time ev].

(** src/vm/gc.cpp:160-162 [primitive_enable_gc_events]: the new value of
    [gc_events]. *)
Definition primitive_enable_gc_events : option (list gc_event) := Some [].

(** src/vm/gc.cpp:166-185 [primitive_disable_gc_events]: [gc_events] is [NULL]
    afterwards. *)
Definition primitive_disable_gc_events (gc_events : option (list gc_event)) : eff vm () :=
  match gc_events with
  | None => ctx_push false_object
  | Some events =>
      with_growable_array 10 (λ result,
        result ← foldl (λ c ev, result ← c; obj ← byte_array_from_cells (gc_event_cells ev);
                          vm_growable_add result (tag BYTE_ARRAY_TYPE obj)) (mret result) events;
        _ ← vm_growable_trim result;
        x ← root_value ARRAY_TYPE (g_elements result);
        ctx_push x)
  end.
End primitives.
