(* ===== verification/Console.v ===== *)
(** The console thread: vm/os-unix.cpp.

    Standard input is shared with other processes and cannot be read without
    blocking, so a thread of its own reads it: for each byte that the vm writes
    to the control pipe the thread reads one block of input, writes its size to
    the size pipe and its bytes to the data pipe.  While the low-level debugger
    reads standard input itself, it holds a mutex and interrupts the thread by a
    signal.  The state of the two threads and of the pipes between them changes
    by the events below, in any order that the code of each thread allows. *)

From S2P Require Import Prelude.
Local Open Scope Z_scope.

(** * State *)

(** Where [stdin_loop] is. *)
Inductive loop_pc :=
  | WaitControl      (* in [safe_read] of the control pipe *)
  | Locking          (* in [pthread_mutex_lock] *)
  | Unlocking        (* before [pthread_mutex_unlock] *)
  | BeforeRead       (* after it, [read] not yet called *)
  | Reading          (* in [read] *)
  | WriteSize        (* in [safe_write] of the size *)
  | WriteData        (* in [check_write] of the data *)
  | Closing          (* after the loop *)
  | Finished.

Inductive owner := PARENT | THREAD.

#[export] Instance loop_pc_eq_dec : EqDecision loop_pc.
Proof. solve_decision. Defined.
#[export] Instance owner_eq_dec : EqDecision owner.
Proof. solve_decision. Defined.

(** src/vm/os-unix.cpp:323-336 [stdin_thread_initialized_p] (part): The thread,
    the block in its buffer that it has not written yet, the mutex and the pipes; [input] is what standard input has to
    offer. *)
Record console := mk_console {
  initialized : bool;
  loop_at : loop_pc;
  buf : list Z;
  mutex : option owner;
  input : list Z;
  control : list Z;
  sizes : list Z;
  data_pipe : list Z
}.

Definition with_loop (c : console) (p : loop_pc) : console :=
  mk_console (initialized c) p (buf c) (mutex c) (input c) (control c) (sizes c) (data_pipe c).
Definition with_mutex (c : console) (o : option owner) : console :=
  mk_console (initialized c) (loop_at c) (buf c) o (input c) (control c) (sizes c) (data_pipe c).

(** [sizeof(buf)] *)
Definition buf_size : nat := 4096.

(** ['X'] *)
Definition control_byte : Z := 88.

(** What can happen.  The events of the parent thread are the calls of the vm,
    those of the loop are its system calls and their outcomes; a system call
    that a signal interrupts is called again at once by [safe_read] and
    [check_write], which changes nothing. *)
Inductive console_event :=
  | Arrives (bytes : list Z)     (* a user types *)
  | RequestBlock                 (* the vm writes to the control pipe *)
  | ParentLock                   (* the first half of [lock_console] *)
  | ParentKill                   (* the second half *)
  | ParentUnlock                 (* [unlock_console] *)
  | ParentClose                  (* [close_console] *)
  | LoopControl                  (* the thread receives a byte from the control pipe *)
  | LoopControlEnd               (* the control pipe has been closed *)
  | LoopLock
  | LoopUnlock
  | LoopCallRead
  | LoopRead (n : nat)           (* [read] returns [n] bytes *)
  | LoopReadFails                (* with an [errno] that is not [EINTR] *)
  | LoopWriteSize
  | LoopWriteData
  | LoopWriteFails               (* the data pipe has been closed *)
  | LoopClose.

(** * Operations *)

(** src/vm/os-unix.cpp:430-438 [open_console]: the pipes are empty and the
    thread is about to read from the control pipe. *)
Definition open_console (typed : list Z) (was_initialized : bool) : result console :=
  _ ← check (negb was_initialized);
  Ok (mk_console true WaitControl [] None typed [] [] []).

(** src/vm/os-unix.cpp:449-456 [lock_console] (part): [pthread_mutex_lock] *)
Definition lock_mutex (c : console) : option console :=
  if initialized c && bool_decide (mutex c = None) then Some (with_mutex c (Some PARENT)) else None.

(** src/vm/os-unix.cpp:449-456 [lock_console] (part): [pthread_kill]; the signal
    makes a [read] of the thread return with [EINTR], after which it goes back
    to the start of its inner loop, and has no effect elsewhere. *)
Definition interrupt_thread (c : console) : option console :=
  if bool_decide (mutex c = Some PARENT) then
    Some (if bool_decide (loop_at c = Reading) then with_loop c Locking else c)
  else None.

(** src/vm/os-unix.cpp:459-462 [unlock_console] *)
Definition unlock_console (c : console) : option console :=
  if initialized c && bool_decide (mutex c = Some PARENT) then Some (with_mutex c None) else None.

(** src/vm/os-unix.cpp:443-448 [close_console]: the thread can be cancelled at
    any point; the pipes and the mutex stay as they are. *)
Definition close_console (c : console) : console :=
  if initialized c then with_loop c Finished else c.

(** src/vm/os-unix.cpp:378-428 [stdin_loop]: one event of the thread, and those
    of the world around it. *)
Definition console_step (c : console) (e : console_event) : option console :=
  match e with
  | Arrives bytes =>
      Some (mk_console (initialized c) (loop_at c) (buf c) (mutex c) (input c ++ bytes) (control c) (sizes c) (data_pipe c))
  | RequestBlock =>
      Some (mk_console (initialized c) (loop_at c) (buf c) (mutex c) (input c) (control c ++ [control_byte]) (sizes c) (data_pipe c))
  | ParentLock => lock_mutex c
  | ParentKill => interrupt_thread c
  | ParentUnlock => unlock_console c
  | ParentClose => Some (close_console c)
  | LoopControl =>
      match loop_at c, control c with
      | WaitControl, b :: rest =>
          if b =? control_byte then
            Some (mk_console (initialized c) Locking (buf c) (mutex c) (input c) rest (sizes c) (data_pipe c))
          else None
      | _, _ => None
      end
  | LoopControlEnd =>
      if bool_decide (loop_at c = WaitControl) then Some (with_loop c Closing) else None
  | LoopLock =>
      if bool_decide (loop_at c = Locking) && bool_decide (mutex c = None) then
        Some (with_mutex (with_loop c Unlocking) (Some THREAD))
      else None
  | LoopUnlock =>
      if bool_decide (loop_at c = Unlocking) then Some (with_mutex (with_loop c BeforeRead) None) else None
  | LoopCallRead =>
      if bool_decide (loop_at c = BeforeRead) then Some (with_loop c Reading) else None
  | LoopRead n =>
      if bool_decide (loop_at c = Reading) && (n <=? buf_size)%nat && (n <=? length (input c))%nat then
        Some (mk_console (initialized c) WriteSize (take n (input c)) (mutex c) (drop n (input c)) (control c) (sizes c) (data_pipe c))
      else None
  | LoopReadFails =>
      if bool_decide (loop_at c = Reading) then Some (with_loop c Closing) else None
  | LoopWriteSize =>
      if bool_decide (loop_at c = WriteSize) then
        Some (mk_console (initialized c) WriteData (buf c) (mutex c) (input c) (control c)
                (sizes c ++ [Z.of_nat (length (buf c))]) (data_pipe c))
      else None
  | LoopWriteData =>
      if bool_decide (loop_at c = WriteData) then
        Some (mk_console (initialized c) WaitControl [] (mutex c) (input c) (control c) (sizes c) (data_pipe c ++ buf c))
      else None
  | LoopWriteFails =>
      if bool_decide (loop_at c = WriteData) then Some (with_loop c Closing) else None
  | LoopClose =>
      if bool_decide (loop_at c = Closing) then Some (with_loop c Finished) else None
  end.

Definition run_console (trace : list console_event) (c : console) : option console :=
  foldl (λ c e, s ← c; console_step s e) (Some c) trace.

(** * What the thread does *)

(** What has been typed, and how often the vm has asked for a block. *)
Definition arrived (trace : list console_event) : list Z :=
  mjoin ((λ e, match e with Arrives bytes => bytes | _ => [] end) <$> trace).
Definition requests (trace : list console_event) : nat :=
  sum_list ((λ e, match e with RequestBlock => 1%nat | _ => 0%nat end) <$> trace).

Definition sum_sizes (l : list Z) : Z := foldr Z.add 0 l.

Lemma sum_sizes_app (l1 l2 : list Z) : sum_sizes (l1 ++ l2) = sum_sizes l1 + sum_sizes l2.
Proof. induction l1 as [|x l1 IH]; simpl; [lia | rewrite IH; lia]. Qed.

Lemma arrived_app (t1 t2 : list console_event) : arrived (t1 ++ t2) = arrived t1 ++ arrived t2.
Proof. unfold arrived. by rewrite fmap_app, join_app. Qed.

Lemma requests_app (t1 t2 : list console_event) : requests (t1 ++ t2) = (requests t1 + requests t2)%nat.
Proof. unfold requests. by rewrite fmap_app, sum_list_with_app. Qed.

(** A request that the thread has taken from the control pipe and not answered
    yet, and the places where the block in [buf] has been announced or the
    thread has given up. *)
Definition in_request (p : loop_pc) : nat :=
  match p with Locking | Unlocking | BeforeRead | Reading | WriteSize => 1 | _ => 0 end.
Definition announced (p : loop_pc) : bool :=
  match p with WriteData | Closing | Finished => true | _ => false end.

(** The state after a trace from the opening of the console on. *)
Record console_inv (typed : list Z) (trace : list console_event) (c : console) : Prop := {
  ci_bytes : data_pipe c ++ buf c ++ input c = typed ++ arrived trace;
  ci_requests : (length (sizes c) + in_request (loop_at c) + length (control c) ≤ requests trace)%nat;
  ci_sizes : Forall (λ n, 0 ≤ n ≤ Z.of_nat buf_size) (sizes c);
  ci_buf : (length (buf c) ≤ buf_size)%nat;
  ci_empty : announced (loop_at c) = false → loop_at c ≠ WriteSize → buf c = [];
  ci_written : Z.of_nat (length (data_pipe c)) ≤ sum_sizes (sizes c)
               ≤ Z.of_nat (length (data_pipe c)) + Z.of_nat (length (buf c));
  ci_exact : announced (loop_at c) = false → sum_sizes (sizes c) = Z.of_nat (length (data_pipe c));
  ci_announced : loop_at c = WriteData →
                 sum_sizes (sizes c) = Z.of_nat (length (data_pipe c)) + Z.of_nat (length (buf c));
  ci_control : Forall (λ b, b = control_byte) (control c);
  ci_mutex : loop_at c = Unlocking → mutex c = Some THREAD;
  ci_initialized : initialized c = true
}.

Ltac console_cases e c :=
  destruct c as [i [] b m inp ctl sz dp], e; simpl in *;
  unfold lock_mutex, interrupt_thread, unlock_console, close_console, with_loop, with_mutex in *; simpl in *;
  repeat (case_match; simpl in *; try discriminate); simplify_eq; simpl in *;
  repeat match goal with
    | H : _ && _ = true |- _ => apply andb_true_iff in H as [? ?]
    | H : bool_decide _ = true |- _ => apply bool_decide_eq_true in H
    | H : (_ <=? _)%nat = true |- _ => apply Nat.leb_le in H
    end.

Lemma console_step_inv typed trace c e c' :
  console_inv typed trace c → console_step c e = Some c' → console_inv typed (trace ++ [e]) c'.
Proof.
  intros [Hb Hr Hs Hl He Hw Hx Ha Hc Hm Hi] Hstep.
  unfold console_step in Hstep.
  console_cases e c.
  all: constructor; rewrite ?arrived_app, ?requests_app; cbn [initialized loop_at buf mutex input control sizes data_pipe];
    intros; rewrite ?app_nil_r, ?length_app, ?sum_sizes_app, ?take_drop, ?length_take in *.
  all: change (arrived [Arrives ?l]) with (l ++ []); change (requests [RequestBlock]) with 1%nat; simpl in *.
  all: try done; try lia; try congruence; try (by auto).
  all: rewrite ?(He eq_refl) in * by done.
  all: try (rewrite app_nil_r, (app_assoc typed), <- Hb, <- !app_assoc; done).
  all: try match goal with |- Forall _ _ => rewrite ?Forall_app, ?Forall_singleton; try (inversion Hc; subst) end.
  all: try specialize (Ha eq_refl); try specialize (Hx eq_refl); try specialize (Hm eq_refl).
  all: rewrite <- ?app_assoc; simpl; try (by auto); try (split; [done | lia]); try lia; try congruence.
  all: congruence.
Qed.

Lemma run_console_snoc trace e c : run_console (trace ++ [e]) c = (s ← run_console trace c; console_step s e).
Proof. unfold run_console. by rewrite foldl_app. Qed.

Lemma run_console_app t1 t2 c c' :
  run_console (t1 ++ t2) c = Some c' → ∃ m, run_console t1 c = Some m ∧ run_console t2 m = Some c'.
Proof.
  unfold run_console. rewrite foldl_app. destruct (foldl _ (Some c) t1) as [m|] eqn:E; [eauto |].
  intros Hrun. exfalso. clear E. induction t2 as [|e t2 IH]; simpl in Hrun; [done | auto].
Qed.

Lemma run_console_inv typed trace c0 c :
  open_console typed false = Ok c0 → run_console trace c0 = Some c → console_inv typed trace c.
Proof.
  intros [= <-]. revert c. induction trace as [|e trace IH] using rev_ind; intros c.
  - intros [= <-]. constructor; simpl; rewrite ?app_nil_r; try done; try lia; by constructor.
  - rewrite run_console_snoc. intros (m & Hm & He)%bind_Some. eauto using console_step_inv.
Qed.

(** C31. No input is lost or reordered on its way through the console thread, in
    any interleaving of the thread with the vm and the user: what has been
    typed is what the data pipe got, followed by the block that the thread
    holds and by what it has not read; each request of the vm is answered at
    most once, each answer is the size of one block of at most 4096 bytes, and
    whenever the thread waits for the next request the sizes that it wrote add
    up to the bytes in the data pipe. *)
Theorem console_forwards typed trace c0 c
    (Hopen : open_console typed false = Ok c0) (Hrun : run_console trace c0 = Some c) :
  data_pipe c ++ buf c ++ input c = typed ++ arrived trace ∧
  (length (sizes c) ≤ requests trace)%nat ∧
  Forall (λ n, 0 ≤ n ≤ 4096) (sizes c) ∧
  (loop_at c = WaitControl →
     buf c = [] ∧ sum_sizes (sizes c) = Z.of_nat (length (data_pipe c))).
Proof.
  destruct (run_console_inv _ _ _ _ Hopen Hrun) as [Hb Hr Hs Hl He Hw Hx Ha Hc Hm Hi].
  split_and!; [done | lia | done |].
  intros Hp. rewrite Hp in *. auto.
Qed.

(** A session in which the vm asks for a block and gets one. *)
Definition one_block (n : nat) : list console_event :=
  [RequestBlock; LoopControl; LoopLock; LoopUnlock; LoopCallRead; LoopRead n; LoopWriteSize; LoopWriteData].

Lemma console_forwards_witness :
  ∃ c0 c, open_console [65; 66; 10] false = Ok c0 ∧
    run_console (one_block 3 ++ Arrives [67] :: one_block 1) c0 = Some c ∧
    data_pipe c = [65; 66; 10; 67] ∧ sizes c = [3; 1] ∧
    data_pipe c ++ buf c ++ input c = [65; 66; 10] ++ arrived (one_block 3 ++ Arrives [67] :: one_block 1).
Proof.
  eexists _, _. split; [reflexivity |]. split; [vm_compute; reflexivity |].
  do 2 (split; [reflexivity |]).
  apply (console_forwards [65; 66; 10] (one_block 3 ++ Arrives [67] :: one_block 1) _ _ eq_refl).
  vm_compute; reflexivity.
Defined.

(** While the parent holds the mutex and the thread is neither in [read] nor
    about to call it, the thread stays away from standard input. *)
Lemma locked_step c e c' :
  mutex c = Some PARENT → loop_at c ∉ [Unlocking; BeforeRead; Reading] → e ≠ ParentUnlock →
  console_step c e = Some c' →
  mutex c' = Some PARENT ∧ loop_at c' ∉ [Unlocking; BeforeRead; Reading] ∧ input c' = input c ++ arrived [e].
Proof.
  intros Hm Hp He Hstep. unfold console_step in Hstep.
  console_cases e c; rewrite ?not_elem_of_cons in *; unfold arrived; simpl; rewrite ?app_nil_r;
    repeat split; try done; try tauto; try set_solver.
Qed.

Lemma locked_run trace c c' :
  mutex c = Some PARENT → loop_at c ∉ [Unlocking; BeforeRead; Reading] → ParentUnlock ∉ trace →
  run_console trace c = Some c' → mutex c' = Some PARENT ∧ input c' = input c ++ arrived trace.
Proof.
  revert c'. intros c' Hm Hp. revert c'.
  enough (∀ c', ParentUnlock ∉ trace → run_console trace c = Some c' →
     mutex c' = Some PARENT ∧ loop_at c' ∉ [Unlocking; BeforeRead; Reading] ∧ input c' = input c ++ arrived trace)
    as Hall by (intros c' Hn Hr; destruct (Hall c' Hn Hr) as (? & ? & ?); done).
  induction trace as [|e trace IH] using rev_ind; intros c' Hn.
  - intros [= <-]. rewrite app_nil_r. done.
  - rewrite run_console_snoc. intros (m & Hrun & He)%bind_Some.
    apply not_elem_of_app in Hn as [Hn1 Hn2]. destruct (IH m Hn1 Hrun) as (Hm1 & Hp1 & Hi1).
    assert (e ≠ ParentUnlock) as Hne by set_solver.
    destruct (locked_step _ _ _ Hm1 Hp1 Hne He) as (? & ? & Hi).
    rewrite arrived_app, Hi, Hi1, app_assoc. done.
Qed.

(** Between the two halves of [lock_console] the mutex stays locked. *)
Lemma lock_held trace c c' :
  mutex c = Some PARENT → loop_at c ≠ Unlocking → ParentUnlock ∉ trace → run_console trace c = Some c' →
  mutex c' = Some PARENT ∧ loop_at c' ≠ Unlocking.
Proof.
  intros Hm Hp. revert c'. induction trace as [|e trace IH] using rev_ind; intros c' Hn.
  - intros [= <-]. done.
  - rewrite run_console_snoc. intros (m & Hrun & He)%bind_Some.
    apply not_elem_of_app in Hn as [Hn1 Hn2]. destruct (IH m Hn1 Hrun) as [Hm1 Hp1].
    assert (e ≠ ParentUnlock) as Hne by set_solver. clear IH Hrun Hn1 Hn2 Hm Hp.
    unfold console_step in He. console_cases e m; done.
Qed.

(** C30. What [lock_console] achieves.  From the signal on, and until the console
    is unlocked, the thread takes nothing from standard input, whatever the
    order of events, provided that the thread is not just between releasing
    the mutex and calling [read] when the signal comes.  There it is lost: the
    thread then enters [read] with the console locked and takes input that
    was meant for the debugger. *)
Theorem lock_console_spec typed before c0 c between m after c'
    (Hopen : open_console typed false = Ok c0) (Hbefore : run_console before c0 = Some c)
    (Hbetween : run_console (ParentLock :: between) c = Some m)
    (Hafter : run_console (ParentKill :: after) m = Some c')
    (Hkept1 : ParentUnlock ∉ between) (Hkept2 : ParentUnlock ∉ after) :
  mutex m = Some PARENT ∧
  (loop_at m ≠ BeforeRead → mutex c' = Some PARENT ∧ input c' = input m ++ arrived after) ∧
  (loop_at m = BeforeRead → input m ≠ [] →
     ∃ stolen, run_console [ParentKill; LoopCallRead; LoopRead 1] m = Some stolen ∧
       mutex stolen = Some PARENT ∧ input stolen = drop 1 (input m)).
Proof.
  destruct (run_console_inv _ _ _ _ Hopen Hbefore) as [_ _ _ _ _ _ _ _ _ Hmx _].
  apply (run_console_app [ParentLock]) in Hbetween as (c1 & Hlock & Hbetween).
  apply (run_console_app [ParentKill]) in Hafter as (m1 & Hkill & Hafter).
  assert (mutex c1 = Some PARENT ∧ loop_at c1 ≠ Unlocking) as [Hm1 Hp1].
  { clear - Hlock Hmx. unfold run_console in Hlock. simpl in Hlock. unfold lock_mutex in Hlock.
    case_match eqn:E; [|done]. simplify_eq. apply andb_true_iff in E as [_ E].
    apply bool_decide_eq_true in E. split; [done |]. intros Hp. apply Hmx in Hp. congruence. }
  destruct (lock_held _ _ _ Hm1 Hp1 Hkept1 Hbetween) as [Hm Hp].
  assert (m1 = if bool_decide (loop_at m = Reading) then with_loop m Locking else m) as ->.
  { clear - Hkill Hm. unfold run_console in Hkill. simpl in Hkill. unfold interrupt_thread in Hkill.
    rewrite bool_decide_eq_true_2 in Hkill by done. congruence. }
  split_and!; [done | intros Hread | intros Hread Hin].
  - eapply locked_run in Hafter as [? Hi]; [ | | | done].
    + split; [done |]. rewrite Hi. by case_bool_decide.
    + by case_bool_decide.
    + case_bool_decide; simpl; set_solver.
  - destruct m as [i p b mx inp ctl sz dp]. simpl in *. subst. destruct inp as [|x inp]; [done |].
    eexists. split; [vm_compute; reflexivity | done].
Qed.

(** The thread has just released the mutex when the debugger locks the console:
    it takes the first byte of the answer to the debugger's prompt. *)
Lemma lock_console_spec_witness :
  ∃ c0 c m stolen, open_console [120] false = Ok c0 ∧
    run_console [RequestBlock; LoopControl; LoopLock; LoopUnlock] c0 = Some c ∧
    run_console [ParentLock] c = Some m ∧
    run_console [ParentKill; LoopCallRead; LoopRead 1] m = Some stolen ∧
    mutex stolen = Some PARENT ∧ input stolen = [] ∧ buf stolen = [120].
Proof.
  eexists _, _, _, _. split; [reflexivity |]. do 2 (split; [vm_compute; reflexivity |]).
  pose proof (lock_console_spec [120] [RequestBlock; LoopControl; LoopLock; LoopUnlock] _ _ [] _ [] _
    eq_refl eq_refl eq_refl eq_refl (not_elem_of_nil _) (not_elem_of_nil _)) as (_ & _ & Hrace).
  destruct (Hrace eq_refl) as (stolen & Hrun & Hm & Hi); [done |].
  vm_compute in Hrun. simplify_eq. split; [vm_compute; reflexivity |]. done.
Defined.
