(* ===== verification/Printing.v ===== *)
(** Printing objects and memory: the first half of vm/debug.cpp.

    The debugger prints an object by what its tag says it is, with the objects
    it refers to down to a depth; long arrays are cut off unless the user has
    asked for all of the output.  A stream is the text written to it.  How the
    C++ library formats a double is the class [iostream]. *)

From stdpp Require Import strings pretty.
From S2P Require Import Prelude.
From S2P Require Import Layouts.
From S2P Require Import Memory.
From S2P Require Import Bytes.
From S2P Require Import Objects.
From S2P Require Import Relocation.
From S2P Require Import Bignum.
From S2P Require Import BignumConv.
From S2P Require Import VM.
From S2P Require Import Aliens.
From S2P Require Import Quotations.
From S2P Require Import ObjectPrimitives.
From S2P Require Import Doubles.
From S2P Require Import Floats.
Local Open Scope Z_scope.
Local Open Scope cell_scope.

(** * Streams *)

Class iostream := { show_double : double → string }.

Definition endl : string := String (Ascii.ascii_of_nat 10) EmptyString.
Definition quote : string := String (Ascii.ascii_of_nat 34) EmptyString.

(** A character of a [char]. *)
Definition char_text (c : Z) : string := String (Ascii.ascii_of_nat (Z.to_nat c)) EmptyString.

(** An integer with [std::hex]; a cell has at most 16 digits. *)
Definition hex_digit (d : Z) : string := char_text (if d <? 10 then 48 + d else 87 + d).
Fixpoint hex_digits (n : nat) (z : Z) (rest : string) : string :=
  match n with
  | 0%nat => rest
  | S n => let rest := hex_digit (z mod 16) +:+ rest in
           if z / 16 =? 0 then rest else hex_digits n (z / 16) rest
  end.
Definition hex (z : Z) : string := hex_digits 16 z "".

(** A [void*]. *)
Definition pointer (p : Z) : string := if p =? 0 then "0" else "0x" +:+ hex p.

Fixpoint fill (c : string) (n : nat) : string :=
  match n with 0%nat => "" | S n => c +:+ fill c n end.
Definition setw_right (c : string) (w : nat) (s : string) : string := fill c (w - String.length s) +:+ s.
Definition setw_left (w : nat) (s : string) : string := s +:+ fill " " (w - String.length s).

(** The texts of the elements of a list, one after the other. *)
Fixpoint concat_text {A} (f : A → result string) (l : list A) : result string :=
  match l with
  | [] => Ok ""
  | a :: l => t ← f a; ts ← concat_text f l; Ok (t +:+ ts)
  end.

(** * Objects *)

(** src/vm/layouts.hpp:42-76 [type_name] *)
Definition type_name (type : Z) : result string :=
  if type =? FIXNUM_TYPE then Ok "fixnum"
  else if type =? F_TYPE then Ok "f"
  else if type =? ARRAY_TYPE then Ok "array"
  else if type =? FLOAT_TYPE then Ok "float"
  else if type =? QUOTATION_TYPE then Ok "quotation"
  else if type =? BIGNUM_TYPE then Ok "bignum"
  else if type =? ALIEN_TYPE then Ok "alien"
  else if type =? TUPLE_TYPE then Ok "tuple"
  else if type =? WRAPPER_TYPE then Ok "wrapper"
  else if type =? BYTE_ARRAY_TYPE then Ok "byte-array"
  else if type =? CALLSTACK_TYPE then Ok "callstack"
  else if type =? STRING_TYPE then Ok "string"
  else if type =? WORD_TYPE then Ok "word"
  else if type =? DLL_TYPE then Ok "dll"
  else Err ASSERTION_FAILED.

(** src/vm/debug.cpp:9-13 [operator<<]: of a string. *)
Definition string_text (m : memory) (str : Z) : result string :=
  n ← string_capacity m str;
  concat_text (λ i, c ← load_byte m ((str +& sizeof_string) +& i); Ok (char_text c)) (seqZ 0 n).

Section printing.
Context (full_output : bool).

(** The number of elements printed of [length], and what is printed after
    them. *)
Definition trim (limit length : Z) : Z * string :=
  if (limit <? length) && negb full_output then (limit, "...") else (length, "").

Section nested.
(** [print_nested_obj] of an object with a nesting. *)
Context (nested : Z → Z → result string).

(** src/vm/debug.cpp:15-26 [print_word] *)
Definition print_word (m : memory) (word nesting : Z) : result string :=
  vocabulary ← field m word word_vocabulary;
  prefix ← (if TAG vocabulary =? STRING_TYPE
            then s ← untag STRING_TYPE vocabulary; t ← string_text m s; Ok (t +:+ ":")
            else Ok "");
  name ← field m word word_name;
  text ← (if TAG name =? STRING_TYPE then s ← untag STRING_TYPE name; string_text m s
          else t ← nested name nesting; Ok ("#<not a string: " +:+ t +:+ ">"));
  Ok (prefix +:+ text).

(** src/vm/debug.cpp:32-50 [print_array] *)
Definition print_array (m : memory) (array nesting : Z) : result string :=
  length ← array_capacity ARRAY_TYPE m array;
  let '(shown, rest) := trim 10 length in
  elements ← concat_text (λ i, e ← heap_array_nth m array i; t ← nested e nesting; Ok (" " +:+ t)) (seqZ 0 shown);
  Ok (elements +:+ rest).

(** src/vm/debug.cpp:52-62 [print_alien] *)
Definition print_alien (m : memory) (alien nesting : Z) : result string :=
  expired ← field m alien alien_expired;
  if to_boolean expired then Ok "#<expired alien>"
  else
    base ← field m alien alien_base;
    if to_boolean base then
      displacement ← field m alien alien_displacement;
      t ← nested base nesting;
      Ok ("#<displaced alien " +:+ pretty displacement +:+ "+" +:+ t +:+ ">")
    else
      address ← field m alien alien_address_field;
      Ok ("#<alien " +:+ pointer address +:+ ">").

(** src/vm/math.cpp:347-347 [to_cell]: for printing, without the data stack. *)
Definition layout_to_cell (m : memory) (tagged : Z) : result Z :=
  if TAG tagged =? FIXNUM_TYPE then n ← untag_fixnum tagged; Ok (u64 n)
  else if TAG tagged =? BIGNUM_TYPE then a ← untag BIGNUM_TYPE tagged; b ← heap_bignum m a; Ok (bignum_to_cell b)
  else Err (ERROR_TYPE FIXNUM_TYPE).

(** src/vm/debug.cpp:85-106 [print_tuple] *)
Definition print_tuple (m : memory) (tuple nesting : Z) : result string :=
  layout_cell ← field m tuple 8;
  layout ← untag ARRAY_TYPE layout_cell;
  size ← field m layout layout_size;
  length ← layout_to_cell m size;
  klass ← field m layout layout_klass;
  class_text ← nested klass nesting;
  let '(shown, rest) := trim 10 length in
  slots ← concat_text (λ i, e ← load m ((tuple +& sizeof_tuple) +& (8 *& i)); t ← nested e nesting; Ok (" " +:+ t))
    (seqZ 0 shown);
  Ok (" " +:+ class_text +:+ slots +:+ rest).
End nested.

(** src/vm/debug.cpp:28-30 [print_factor_string] *)
Definition print_factor_string (m : memory) (str : Z) : result string :=
  t ← string_text m str; Ok (quote +:+ t +:+ quote).

(** src/vm/debug.cpp:64-83 [print_byte_array]: the length is the field
    [capacity] as it is, a tagged integer. *)
Definition print_byte_array (m : memory) (array : Z) : result string :=
  length ← field m array 8;
  let '(shown, rest) := trim 16 length in
  bytes ← concat_text (λ i, b ← load_byte m ((array +& sizeof_byte_array) +& i); Ok (" " +:+ pretty b)) (seqZ 0 shown);
  Ok (bytes +:+ rest).

Context `{!iostream}.

(** src/vm/debug.cpp:115-165 [print_nested_obj] (part): The cases of the
    switch. *)
Definition print_by_type (nested : Z → Z → result string) (m : memory) (obj nesting : Z) : result string :=
  let nesting := s64 (nesting - 1) in
  let wrapped left right t := t ← t; Ok (left +:+ t +:+ right) in
  let t := TAG obj in
  if t =? FIXNUM_TYPE then n ← untag_fixnum obj; Ok (pretty n)
  else if t =? FLOAT_TYPE then a ← untag FLOAT_TYPE obj; w ← field m a float_n; Ok (show_double (decode_double w))
  else if t =? WORD_TYPE then a ← untag WORD_TYPE obj; print_word nested m a nesting
  else if t =? STRING_TYPE then a ← untag STRING_TYPE obj; print_factor_string m a
  else if t =? F_TYPE then Ok "f"
  else if t =? TUPLE_TYPE then a ← untag TUPLE_TYPE obj; wrapped "T{" " }" (print_tuple nested m a nesting)
  else if t =? WRAPPER_TYPE then
    a ← untag WRAPPER_TYPE obj; o ← field m a wrapper_object; wrapped "W{ " " }" (nested o nesting)
  else if t =? BYTE_ARRAY_TYPE then a ← untag BYTE_ARRAY_TYPE obj; wrapped "B{" " }" (print_byte_array m a)
  else if t =? ARRAY_TYPE then a ← untag ARRAY_TYPE obj; wrapped "{" " }" (print_array nested m a nesting)
  else if t =? QUOTATION_TYPE then
    quot ← untag QUOTATION_TYPE obj;
    elements ← field m quot quotation_array;
    a ← untag ARRAY_TYPE elements;
    wrapped "[" " ]" (print_array nested m a nesting)
  else if t =? ALIEN_TYPE then a ← untag ALIEN_TYPE obj; print_alien nested m a nesting
  else name ← type_name t; Ok ("#<" +:+ name +:+ " @ " +:+ pointer obj +:+ ">").

(** src/vm/debug.cpp:108-167 [print_nested_obj]: [depth] is the number of nested
    calls that the stack of C has room for. *)
Fixpoint print_nested_obj (depth : nat) (m : memory) (obj nesting : Z) : result string :=
  match depth with
  | 0%nat => Err LOOP_BOUND
  | S depth =>
      if (nesting <=? 0) && negb full_output then Ok " ... "
      else print_by_type (print_nested_obj depth m) m obj nesting
  end.

(** src/vm/debug.cpp:169-171 [print_obj] *)
Definition print_obj (depth : nat) (m : memory) (obj : Z) : result string := print_nested_obj depth m obj 10.

(** src/vm/debug.cpp:173-178 [print_objects] *)
Definition print_objects (depth : nat) (m : memory) (start end_ : Z) : result string :=
  r ← while_loop (λ '(out, start),
    if start <=? end_ then
      match (w ← load m start; print_obj depth m w) with
      | Ok t => inl (out +:+ t +:+ endl, start +& 8)
      | Err e => inr (Err e)
      end
    else inr (Ok out)) ("", start);
  r.
End printing.

(** * Memory *)

(** src/vm/debug.cpp:247-254 [operator<<]: of a padded address. *)
Definition padded_address (value : Z) : string := setw_right "0" 16 (hex value).

(** src/vm/debug.cpp:255-259 [dump_cell] *)
Definition dump_cell (m : memory) (x : Z) : result string :=
  w ← load m x;
  Ok (padded_address x +:+ ": " +:+ padded_address w +:+ " tag " +:+ pretty (TAG w) +:+ endl).

(** src/vm/debug.cpp:265-266 [dump_memory] (part): One turn of the loop. *)
Definition dump_body (m : memory) (to : Z) (st : string * Z) : string * Z + result string :=
  let '(out, from) := st in
  if from <=? to then
    match dump_cell m from with
    | Ok t => inl (out +:+ t, from +& 8)
    | Err e => inr (Err e)
    end
  else inr (Ok out).

(** src/vm/debug.cpp:261-266 [dump_memory] *)
Definition dump_memory (m : memory) (from to : Z) : result string :=
  r ← while_loop (dump_body m to) ("", UNTAG from);
  r.

(** * Termination *)

(** A result that no exhausted bound has led to. *)
Definition bounded {A} (r : result A) : Prop := r ≠ Err LOOP_BOUND.

Lemma bounded_Ok {A} (a : A) : bounded (Ok a).
Proof. done. Qed.
Lemma bounded_Err {A} e : e ≠ LOOP_BOUND → bounded (@Err A e).
Proof. intros H [= E]. done. Qed.
Lemma bounded_bind {A B} (r : result A) (f : A → result B) :
  bounded r → (∀ a, r = Ok a → bounded (f a)) → bounded (a ← r; f a).
Proof. intros Hr Hf. destruct r as [a|e]; [by apply Hf|]. intros [= E]. apply Hr. by f_equal. Qed.
Lemma bounded_load m a : bounded (load m a).
Proof. unfold load. by destruct (m !! a). Qed.
Lemma bounded_check b : bounded (check b).
Proof. by destruct b. Qed.
Lemma bounded_if {A} (b : bool) (x y : result A) : bounded x → bounded y → bounded (if b then x else y).
Proof. by destruct b. Qed.

Create HintDb printing.
#[export] Hint Resolve bounded_Ok bounded_load bounded_check : printing.
#[export] Hint Extern 1 (bounded (Err _)) => apply bounded_Err; discriminate : printing.
#[export] Hint Extern 2 (bounded (mbind _ _)) => apply bounded_bind; [| intros ? _; cbv beta] : printing.
#[export] Hint Extern 2 (bounded (match trim ?f ?l ?n with _ => _ end)) => destruct (trim f l n) : printing.
#[export] Hint Extern 2 (bounded (if _ then _ else _)) => apply bounded_if : printing.

Lemma bounded_field m a o : bounded (field m a o).
Proof. apply bounded_load. Qed.
Lemma bounded_load_byte m a : bounded (load_byte m a).
Proof. unfold load_byte. auto with printing. Qed.
Lemma bounded_untag t v : bounded (untag t v).
Proof. unfold untag. auto with printing. Qed.
Lemma bounded_untag_fixnum v : bounded (untag_fixnum v).
Proof. unfold untag_fixnum. auto with printing. Qed.
#[export] Hint Resolve bounded_field bounded_load_byte bounded_untag bounded_untag_fixnum : printing.
Lemma bounded_words m a n : bounded (words_at m a n).
Proof. revert a. induction n as [|n IH]; intros a; cbn [words_at]; auto with printing. Qed.
#[export] Hint Resolve bounded_words : printing.
Lemma bounded_capacity t m a : bounded (array_capacity t m a).
Proof. unfold array_capacity. auto with printing. Qed.
Lemma bounded_string_capacity m a : bounded (string_capacity m a).
Proof. unfold string_capacity. auto with printing. Qed.
#[export] Hint Resolve bounded_capacity bounded_string_capacity : printing.
Lemma bounded_array_nth m a i : bounded (heap_array_nth m a i).
Proof. unfold heap_array_nth. auto with printing. Qed.
Lemma bounded_type_name t : bounded (type_name t).
Proof. unfold type_name. auto 20 with printing. Qed.
Lemma bounded_layout_to_cell m t : bounded (layout_to_cell m t).
Proof. unfold layout_to_cell, heap_bignum. auto 10 with printing. Qed.
#[export] Hint Resolve bounded_array_nth bounded_type_name bounded_layout_to_cell : printing.

Lemma bounded_concat {A} (f : A → result string) l : (∀ a, bounded (f a)) → bounded (concat_text f l).
Proof. intros Hf. induction l; cbn [concat_text]; auto with printing. Qed.
#[export] Hint Extern 2 (bounded (concat_text _ _)) => apply bounded_concat; intros ?; cbv beta : printing.

Lemma bounded_string_text m s : bounded (string_text m s).
Proof. unfold string_text. auto with printing. Qed.
#[export] Hint Resolve bounded_string_text : printing.

Lemma concat_text_ext {A} (f g : A → result string) l : (∀ a, f a = g a) → concat_text f l = concat_text g l.
Proof. intros H. induction l as [|a l IH]; cbn [concat_text]; [done|]. by rewrite H, IH. Qed.

Section termination.
Context (full_output : bool) `{!iostream}.

(** The cases of [print_nested_obj] use nested calls only with the next
    nesting. *)
Lemma print_by_type_bounded nested m obj nesting :
  (∀ o, bounded (nested o (s64 (nesting - 1)))) → bounded (print_by_type full_output nested m obj nesting).
Proof.
  intros Hn. unfold print_by_type, print_word, print_tuple, print_array, print_alien, print_factor_string, print_byte_array.
  repeat case_match; simplify_eq; auto 20 with printing.
Qed.

Lemma result_bind_ext {A B} (r r' : result A) (f g : A → result B) :
  r = r' → (∀ a, f a = g a) → (r ≫= f) = (r' ≫= g).
Proof. intros -> Hfg. destruct r'; cbn; auto. Qed.

Lemma print_by_type_ext nested nested' m obj nesting :
  (∀ o, nested o (s64 (nesting - 1)) = nested' o (s64 (nesting - 1))) →
  print_by_type full_output nested m obj nesting = print_by_type full_output nested' m obj nesting.
Proof.
  intros Hn. unfold print_by_type, print_word, print_tuple, print_array, print_alien.
  repeat (case_match; try done);
    repeat first [done | apply Hn | apply concat_text_ext; intros ? | apply result_bind_ext; [|intros ?] | case_match].
Qed.

(** More depth than the nesting asks for changes nothing. *)
Lemma print_nested_obj_depth m n : full_output = false → ∀ obj nesting, nesting ≤ Z.of_nat n → nesting < 2 ^ 63 →
  bounded (print_nested_obj full_output (S n) m obj nesting) ∧
  ∀ depth, (n < depth)%nat →
    print_nested_obj full_output depth m obj nesting = print_nested_obj full_output (S n) m obj nesting.
Proof.
  intros Hfull. induction n as [|n IH]; intros obj nesting Hle Hmax.
  - assert ((nesting <=? 0) && negb full_output = true) as E by (rewrite Hfull; lia).
    cbn [print_nested_obj]. rewrite E. split; [done|]. intros [|depth] Hd; [lia|]. cbn [print_nested_obj]. by rewrite E.
  - cbn [print_nested_obj]. destruct ((nesting <=? 0) && negb full_output) eqn:E.
    + split; [done|]. intros [|depth] Hd; [lia|]. cbn [print_nested_obj]. by rewrite E.
    + assert (0 < nesting) by (rewrite Hfull in E; lia).
      assert (s64 (nesting - 1) = nesting - 1) as Es by (apply s64_id; unfold is_fixnum; lia).
      split.
      * apply print_by_type_bounded. intros o. apply IH; lia.
      * intros [|depth] Hd; [lia|]. cbn [print_nested_obj]. rewrite E.
        apply print_by_type_ext. intros o. apply IH; lia.
Qed.
End termination.

(** An array with itself as its element. *)
Definition circular_array : Z := tag ARRAY_TYPE 4096.
Definition circular_memory : memory :=
  list_to_map [(4096, Z.shiftl ARRAY_TYPE 2); (4104, tag_fixnum 1); (4112, circular_array)].

Lemma print_circular `{!iostream} depth nesting :
  print_nested_obj true depth circular_memory circular_array nesting = Err LOOP_BOUND.
Proof.
  revert nesting. induction depth as [|depth IH]; intros nesting; [done|].
  cbn [print_nested_obj]. rewrite andb_false_r.
  unfold print_by_type. change (TAG circular_array) with ARRAY_TYPE.
  rewrite !(proj2 (Z.eqb_neq _ _)) by done. rewrite Z.eqb_refl.
  change (untag ARRAY_TYPE circular_array) with (Ok 4096). rewrite result_bind_ok.
  unfold print_array. change (array_capacity ARRAY_TYPE circular_memory 4096) with (Ok 1). rewrite result_bind_ok.
  change (trim true 10 1) with (1, "").
  cbv beta iota. rewrite seqZ_cons, (seqZ_nil _ (Z.pred 1)) by lia. cbn [concat_text].
  assert (heap_array_nth circular_memory 4096 0 = Ok circular_array) as -> by (vm_compute; reflexivity).
  rewrite result_bind_ok. by rewrite IH.
Qed.

(** C35. Printing an object ends, on any memory, circular structures included:
    with trimmed output a call with nesting [n] makes at most [n + 1] nested
    calls, so that more room on the stack of C changes nothing.  With full
    output the nesting is ignored, and an array that contains itself needs
    more room than any stack has. *)
Theorem print_nested_obj_terminates `{!iostream} m obj nesting depth (Hnesting : nesting < 2 ^ 63)
    (Hdepth : (Z.to_nat nesting < depth)%nat) :
  (print_nested_obj false depth m obj nesting ≠ Err LOOP_BOUND ∧
   print_nested_obj false depth m obj nesting = print_nested_obj false (S (Z.to_nat nesting)) m obj nesting) ∧
  print_nested_obj true depth circular_memory circular_array nesting = Err LOOP_BOUND.
Proof.
  split; [|apply print_circular].
  destruct (print_nested_obj_depth false m (Z.to_nat nesting) eq_refl obj nesting ltac:(lia) Hnesting) as [Hb He].
  rewrite (He depth Hdepth). done.
Qed.

Definition plain_iostream : iostream := {| show_double _ := "0" |}.

Lemma print_nested_obj_terminates_witness :
  @print_obj false plain_iostream 20 circular_memory circular_array = Ok "{ { { { { { { { { {  ...  } } } } } } } } } }" ∧
  @print_nested_obj false plain_iostream 20 circular_memory circular_array 10 =
  @print_nested_obj false plain_iostream 11 circular_memory circular_array 10.
Proof.
  split; [vm_compute; reflexivity|].
  apply (@print_nested_obj_terminates plain_iostream circular_memory circular_array 10 20); [vm_compute; reflexivity|lia].
Defined.

(** * Byte arrays *)

(** The bytes of a list, as they are printed. *)
Definition bytes_text (bytes : list Z) : string := foldr (λ b t, (" " +:+ pretty b) +:+ t) "" bytes.

Lemma concat_text_bytes m a bytes i :
  0 ≤ a → 0 ≤ i → a + i + Z.of_nat (length bytes) < 2 ^ 64 →
  (∀ k b, bytes !! k = Some b → load_byte m (a + i + Z.of_nat k) = Ok b) →
  concat_text (λ i, b ← load_byte m (a +& i); Ok (" " +:+ pretty b)) (seqZ i (Z.of_nat (length bytes))) =
    Ok (bytes_text bytes).
Proof.
  intros Ha. revert i. induction bytes as [|b bytes IH]; intros i Hi Hmax Hb; [done|].
  rewrite length_cons, seqZ_cons by lia. cbn [concat_text]. rewrite length_cons in Hmax.
  rewrite u64_id by (unfold is_cell; lia). pose proof (Hb 0%nat b eq_refl) as Hb0. rewrite Z.add_0_r in Hb0. rewrite Hb0.
  rewrite !result_bind_ok. replace (Z.pred (Z.of_nat (S (length bytes)))) with (Z.of_nat (length bytes)) by lia.
  rewrite IH; [done|lia|lia|].
  intros k x Hk. rewrite <- (Hb (S k) x Hk). f_equal. lia.
Qed.

(** C36. What [print_byte_array] prints of a byte array of [n] bytes: it takes
    the tagged capacity for the length, so with full output it prints [16 n]
    bytes from the start of the data on, most of them behind the array, and
    with trimmed output it prints 16 bytes of every array that is not
    empty, and dots after them when the array has more than one byte. *)
Theorem print_byte_array_spec (full_output : bool) (m : memory) (a n : Z) (bytes : list Z)
    (Ha : 0 ≤ a < 2 ^ 62) (Hn : 0 ≤ n < 2 ^ 57) (Hcapacity : load m (a + 8) = Ok (tag_fixnum n))
    (Hlength : Z.of_nat (List.length bytes) = if full_output then 16 * n else 16 * Z.min n 1)
    (Hbytes : ∀ k b, bytes !! k = Some b → load_byte m (a + sizeof_byte_array + Z.of_nat k) = Ok b) :
  print_byte_array full_output m a =
    Ok (bytes_text bytes +:+ if negb full_output && (1 <? n) then "..." else "").
Proof.
  unfold print_byte_array. rewrite field_eq, Hcapacity, result_bind_ok by lia.
  rewrite tag_fixnum_eq, Z.mod_small by lia.
  assert (trim full_output 16 (16 * n) =
    (Z.of_nat (length bytes), if negb full_output && (1 <? n) then "..." else "")) as ->.
  { rewrite Hlength. unfold trim. destruct full_output; simpl; rewrite ?andb_false_r, ?andb_true_r; [done|].
    destruct (Z.ltb_spec 16 (16 * n)), (Z.ltb_spec 1 n); try lia; f_equal; lia. }
  rewrite (u64_id (a + _)) by (unfold is_cell, sizeof_byte_array; lia).
  rewrite concat_text_bytes; [done|unfold sizeof_byte_array; lia|lia| |].
  - unfold sizeof_byte_array. destruct full_output; lia.
  - intros k b Hk. by rewrite Z.add_0_r, (Hbytes k b Hk).
Qed.

(** The byte array with the bytes 1, 2 and 3: 16 bytes are printed. *)
Definition three_bytes : memory :=
  list_to_map [(4096, Z.shiftl BYTE_ARRAY_TYPE 2); (4104, tag_fixnum 3); (4112, 1 + 256 * 2 + 65536 * 3); (4120, 0)].

Lemma print_byte_array_spec_witness :
  print_byte_array false three_bytes 4096 =
    Ok (bytes_text [1; 2; 3; 0; 0; 0; 0; 0; 0; 0; 0; 0; 0; 0; 0; 0] +:+ "...").
Proof.
  apply (print_byte_array_spec false three_bytes 4096 3 [1; 2; 3; 0; 0; 0; 0; 0; 0; 0; 0; 0; 0; 0; 0; 0]);
    [lia|lia|vm_compute; reflexivity|reflexivity|].
  intros k b Hk. do 16 (destruct k as [|k]; [injection Hk as <-; vm_compute; reflexivity|]). done.
Defined.

(** * Dumps *)

(** The words from an address on, as [dump_memory] prints them. *)
Definition words_text (m : memory) (from : Z) (n : nat) : result string :=
  concat_text (dump_cell m) ((λ i, from + 8 * Z.of_nat i) <$> seq 0 n).

Lemma text_app_nil_r (s : string) : s +:+ "" = s.
Proof. induction s as [|c s IH]; [done|]. exact (f_equal (String c) IH). Qed.
Lemma text_app_assoc (s t u : string) : s +:+ (t +:+ u) = (s +:+ t) +:+ u.
Proof. induction s as [|c s IH]; [done|]. exact (f_equal (String c) IH). Qed.

Lemma words_text_S m from n :
  words_text m from (S n) = (t ← dump_cell m from; ts ← words_text m (from + 8) n; Ok (t +:+ ts)).
Proof.
  unfold words_text. cbn [seq fmap list_fmap concat_text]. rewrite Z.mul_0_r, Z.add_0_r, <- fmap_S_seq, <- list_fmap_compose.
  apply result_bind_ext; [done|]. intros t. apply result_bind_ext; [|done]. f_equal. apply list_fmap_ext.
  intros _ x _. simpl. lia.
Qed.

Lemma dump_iter m to n : to + 8 < 2 ^ 64 → ∀ out from, 0 ≤ from → from + 8 * Z.of_nat n - 8 ≤ to < from + 8 * Z.of_nat n →
  iter_nat (dump_body m to) (S n) (out, from) = inr (t ← words_text m from n; Ok (out +:+ t)).
Proof.
  intros Hto. induction n as [|n IH]; intros out from Hf Hn.
  - cbn [iter_nat]. unfold dump_body. rewrite (proj2 (Z.leb_gt _ _)) by lia.
    unfold words_text. cbn. by rewrite text_app_nil_r.
  - rewrite words_text_S. cbn [iter_nat] in *. unfold dump_body at 1. rewrite (proj2 (Z.leb_le _ _)) by lia.
    destruct (dump_cell m from) as [t|e]; [|done]. rewrite result_bind_ok, u64_id by (unfold is_cell; lia).
    rewrite IH by lia. f_equal. destruct (words_text m (from + 8) n); cbn; [|done]. by rewrite text_app_assoc.
Qed.

(** [dump_memory] prints the words from the untagged start to the end, the
    word at the end included. *)
Lemma dump_memory_eq m from to :
  is_cell from → UNTAG from ≤ to → to + 8 < 2 ^ 64 →
  dump_memory m from to = words_text m (UNTAG from) (Z.to_nat ((to - UNTAG from) / 8 + 1)).
Proof.
  intros Hf Hle Hto. pose proof (UNTAG_range _ Hf) as [Hu _].
  set (n := Z.to_nat ((to - UNTAG from) / 8 + 1)).
  assert (UNTAG from + 8 * Z.of_nat n - 8 ≤ to < UNTAG from + 8 * Z.of_nat n) as Hn by (unfold n; dlia).
  unfold dump_memory. erewrite while_loop_iter; [| |apply (dump_iter m to n); [done|lia|done]]; [|lia].
  rewrite result_bind_ok. by destruct (words_text m (UNTAG from) n).
Qed.

(** The dump of an object, as the debugger's command [u] asks for it with the
    tagged address: one word behind the object is printed too, and a second
    one when the tag is 8 or more. *)
Lemma dump_object_words m obj type size :
  0 ≤ obj < 2 ^ 62 → obj mod 16 = 0 → 0 ≤ type < 16 → 0 ≤ size < 2 ^ 62 → size mod 16 = 0 →
  dump_memory m (obj + type) (obj + type +& size) = words_text m obj (Z.to_nat (size / 8 + 1 + type / 8)).
Proof.
  intros Ho Ha Ht Hs Hm. rewrite (u64_id (obj + type + size)) by (unfold is_cell; lia).
  assert (UNTAG (obj + type) = obj) as Hu by (rewrite UNTAG_sub by (unfold is_cell; lia); dlia).
  rewrite dump_memory_eq, Hu by (rewrite ?Hu; unfold is_cell; lia). do 2 f_equal. dlia.
Qed.
