(* ===== verification/Debugger.v ===== *)
(** The low-level debugger: the second half of vm/debug.cpp, with
    [read_cell_hex] of vm/utilities.cpp.

    The debugger reads commands from standard input while the console thread is
    kept away from it (file Console), and prints the heaps and the stacks. *)

From stdpp Require Import strings pretty sorting.
From S2P Require Import Prelude.
From S2P Require Import Layouts.
From S2P Require Import MarkBits.
From S2P Require Import Memory.
From S2P Require Import Effects.
From S2P Require Import FreeList.
From S2P Require Import Spaces.
From S2P Require Import DataHeap.
From S2P Require Import Objects.
From S2P Require Import CodeBlocks.
From S2P Require Import Relocation.
From S2P Require Import SlotVisitor.
From S2P Require Import Collectors.
From S2P Require Import GC.
From S2P Require Import VM.
From S2P Require Import Contexts.
From S2P Require Import Errors.
From S2P Require Import ObjectPrimitives.
From S2P Require Import Quotations.
From S2P Require Import Callstacks.
From S2P Require Import ContextPool.
From S2P Require Import HeapArrays.
From S2P Require Import Profiler.
From S2P Require Import Printing.
Local Open Scope Z_scope.
Local Open Scope cell_scope.

(** * State *)

(** src/vm/vm.hpp:124-128 [factor_vm] (part): The debugger's fields, with the
    text written to standard output, what standard input has to offer, whether
    the console is locked and whether an interrupt from the keyboard has its
    default effect. *)
Record debugger := mk_debugger {
  cout : string;
  cin : string;
  full_output : bool;
  fep_disabled : bool;
  fep_help_was_shown : bool;
  console_locked : bool;
  ctrl_c_ignored : bool
}.

Definition with_cout (d : debugger) (t : string) : debugger :=
  mk_debugger (cout d +:+ t) (cin d) (full_output d) (fep_disabled d) (fep_help_was_shown d) (console_locked d) (ctrl_c_ignored d).
Definition with_cin (d : debugger) (t : string) : debugger :=
  mk_debugger (cout d) t (full_output d) (fep_disabled d) (fep_help_was_shown d) (console_locked d) (ctrl_c_ignored d).
Definition with_full_output (d : debugger) (b : bool) : debugger :=
  mk_debugger (cout d) (cin d) b (fep_disabled d) (fep_help_was_shown d) (console_locked d) (ctrl_c_ignored d).
Definition with_disabled (d : debugger) (b : bool) : debugger :=
  mk_debugger (cout d) (cin d) (full_output d) b (fep_help_was_shown d) (console_locked d) (ctrl_c_ignored d).
Definition with_help_shown (d : debugger) : debugger :=
  mk_debugger (cout d) (cin d) (full_output d) (fep_disabled d) true (console_locked d) (ctrl_c_ignored d).
Definition with_console (d : debugger) (locked : bool) : debugger :=
  mk_debugger (cout d) (cin d) (full_output d) (fep_disabled d) (fep_help_was_shown d) locked locked.

(** The vm with its profiler and its debugger. *)
Definition dbg (A : Type) : Type := eff (vm * profiler * debugger) A.

Definition prof_dbg {A} (c : prof A) : dbg A := λ s,
  match c (s.1, s.2.1) with
  | Done s' a => Done (s'.1, (s'.2, s.2.2)) a
  | Again s' => Again (s'.1, (s'.2, s.2.2))
  | Fatal e => Fatal e
  end.
Definition vm_dbg {A} (c : eff vm A) : dbg A := prof_dbg (vm_prof c).

Definition dbg_ask {A} (f : debugger → A) : dbg A := λ s, Done s (f s.2.2).
Definition dbg_change (f : debugger → debugger) : dbg () := λ s, Done (s.1, (s.2.1, f s.2.2)) ().

(** Text written to standard output. *)
Definition say (t : string) : dbg () := dbg_change (λ d, with_cout d t).
Definition line (t : string) : dbg () := say (t +:+ endl).

(** A text that depends on memory and on whether output is trimmed. *)
Definition show (f : bool → memory → result string) : dbg () :=
  full ← dbg_ask full_output;
  t ← (reads (f full) : dbg string);
  say t.

(** * Input *)

Definition code_of (c : Ascii.ascii) : Z := Z.of_nat (Ascii.nat_of_ascii c).

(** [isspace] *)
Definition space_p (c : Ascii.ascii) : bool := (code_of c =? 32) || ((9 <=? code_of c) && (code_of c <=? 13)).

Fixpoint skip_space (s : string) : string :=
  match s with String c rest => if space_p c then skip_space rest else s | EmptyString => s end.

(** The characters before the next white space, at most [n] of them. *)
Fixpoint take_word (n : nat) (s : string) : string * string :=
  match n, s with
  | S n, String c rest =>
      if space_p c then (EmptyString, s) else let '(w, r) := take_word n rest in (String c w, r)
  | _, _ => (EmptyString, s)
  end.

(** src/vm/debug.cpp:461-461 [factorbug] (part): A word of at most 1024
    characters; none when the stream is not good after it, at its end. *)
Definition read_command (s : string) : option (string * string) :=
  let '(w, rest) := take_word 1024 (skip_space s) in
  if (rest =? "")%string && (Nat.ltb (String.length w) 1024) then None else Some (w, rest).

Definition hex_value (c : Ascii.ascii) : option Z :=
  let n := code_of c in
  if (48 <=? n) && (n <=? 57) then Some (n - 48)
  else if (97 <=? n) && (n <=? 102) then Some (n - 87)
  else if (65 <=? n) && (n <=? 70) then Some (n - 55)
  else None.

(** The value of the digits, and how many there are. *)
Fixpoint take_hex (s : string) (value : Z) (count : nat) : Z * nat * string :=
  match s with
  | String c rest =>
      match hex_value c with
      | Some d => take_hex rest (16 * value + d) (S count)
      | None => (value, count, s)
      end
  | EmptyString => (value, count, s)
  end.

Definition drop_sign (s : string) : bool * string :=
  match s with
  | String c rest => if code_of c =? 45 then (true, rest) else if code_of c =? 43 then (false, rest) else (false, s)
  | EmptyString => (false, s)
  end.
Definition drop_0x (s : string) : string :=
  match s with
  | String z (String x rest) =>
      if (code_of z =? 48) && ((code_of x =? 120) || (code_of x =? 88)) then rest else s
  | _ => s
  end.

(** src/vm/utilities.cpp:27-33 [read_cell_hex]: a number without digits, one
    that a cell cannot hold, and one that the input ends with leave the stream
    not good, and the process exits. *)
Definition read_cell_hex (s : string) : option (Z * string) :=
  let '(negative, s) := drop_sign (skip_space s) in
  let '(value, count, rest) := take_hex (drop_0x s) 0 0 in
  if (Nat.eqb count 0) || (2 ^ 64 <=? value) || (rest =? "")%string then None
  else Some (if negative then u64 (- value) else value, rest).

(** * The heaps *)

(** How the debugger is left. *)
Inductive fep_end :=
  | Continue                     (* [return] *)
  | Throw (h : handler_call)     (* [general_error] *)
  | Exit (status : Z)            (* [exit] *)
  | AbortProcess                 (* [abort] *)
  | Trap.                        (* [breakpoint], which stops the process *)

Section debugger.
Context `{!linkage, !os_memory, !c_heap, !iostream}.

(** The nested calls that the stack of C has room for. *)
Context (depth : nat).

(** src/vm/vm.hpp:295-306 [each_object]: the texts of the objects of both
    generations, while collections are off. *)
Definition each_object_text (f : bool → memory → Z → result string) : dbg () :=
  g ← vm_dbg (ask vm_gc);
  let dh := heap_of g in
  let texts (full : bool) (m : memory) (first : result Z) (next : Z → result Z) :=
    r ← each_object first next (λ obj acc, t ← acc; o ← f full m obj; Ok (t +:+ o)) (Ok ""); r in
  _ ← show (λ full m,
    _ ← check (bump_occupied_space (nursery dh) =? 0);
    t ← texts full m (tenured_first_object m (tenured dh)) (tenured_next_object_after object_size m (tenured dh));
    a ← texts full m (Ok (aging_first_object (aging dh))) (aging_next_object_after object_size m (aging dh));
    Ok (t +:+ a));
  vm_dbg (change (λ v, with_gc v (with_gc_off (vm_gc v) false))).

(** src/vm/vm.hpp:309-317 [each_object_each_slot] *)
Definition each_slot_text (f : bool → memory → Z → Z → result string) : dbg () :=
  each_object_text (λ full m obj,
    n ← slot_count m obj;
    concat_text (λ i, f full m obj ((obj +& 8) +& (8 *& i))) (seqZ 0 n)).

Definition full_collection : dbg () := vm_dbg (with_heaps (λ parent, primitive_full_gc parent)).

(** An object with its address, as [dump_objects] and [find_data_references]
    print it. *)
Definition object_line (full : bool) (m : memory) (obj : Z) : result string :=
  o ← tag_dynamic m obj;
  t ← print_nested_obj full depth m o 2;
  Ok (padded_address obj +:+ " " +:+ t +:+ endl).

(** src/vm/debug.cpp:303-313 [dump_objects] *)
Definition dump_objects (type : Z) : dbg () :=
  _ ← full_collection;
  each_object_text (λ full m obj,
    header ← load m obj;
    if (type =? TYPE_COUNT) || (header_type header =? type) then object_line full m obj else Ok "").

(** src/vm/debug.cpp:315-325 [find_data_references] *)
Definition find_data_references (look_for : Z) : dbg () :=
  _ ← full_collection;
  each_slot_text (λ full m obj slot,
    w ← load m slot;
    if look_for =? w then object_line full m obj else Ok "").

(** src/vm/debug.cpp:327-337 [dump_edges] *)
Definition dump_edges : dbg () :=
  _ ← full_collection;
  each_slot_text (λ _ m obj slot,
    w ← load m slot;
    if F_TYPE <? TAG w then o ← tag_dynamic m obj; Ok (pointer o +:+ " ==> " +:+ pointer w +:+ endl) else Ok "").

(** src/vm/debug.cpp:347-366 [code_block_printer::operator()]: the text with
    the sizes of the tables; [iterate] leaves out the free blocks. *)
Definition code_block_printer (fl : free_list_allocator) (scan size : Z) (st : memory * (string * Z * Z))
    : result (memory * (string * Z * Z)) :=
  let '(m, (out, reloc_size, parameter_size)) := st in
  relocation ← field m scan 24;
  r ← object_size m relocation;
  parameters ← field m scan 16;
  p ← object_size m parameters;
  marked ← marked_p (fl_state fl) scan;
  frame ← stack_frame_size m scan;
  let status := if marked : bool then "marked" else "allocated" in
  Ok (m, (out +:+ hex scan +:+ " " +:+ hex size +:+ " " +:+ status +:+ " stack frame " +:+ pretty frame +:+ endl,
          reloc_size +& r, parameter_size +& p)).

(** src/vm/debug.cpp:370-375 [dump_code_heap] *)
Definition dump_code_heap : dbg () :=
  g ← vm_dbg (ask vm_gc);
  let fl := allocator (code (collection g)) in
  show (λ _ m,
    '(_, (out, reloc_size, parameter_size)) ← iterate (λ _, code_size) (code_block_printer fl) fl m ("", 0, 0);
    Ok (out +:+ pretty reloc_size +:+ " bytes used by relocation tables" +:+ endl
            +:+ pretty parameter_size +:+ " bytes used by parameter tables" +:+ endl)).

(** src/vm/debug.cpp:268-274 [dump_memory_range] *)
Definition dump_memory_range (name : string) (name_w : nat) (start end_ : Z) : string :=
  setw_left name_w name +:+ ": [" +:+ pointer start +:+ " -> " +:+ pointer end_ +:+ "] " +:+
  setw_right " " 10 (pretty (end_ -& start)) +:+ " bytes" +:+ endl.

(** src/vm/debug.cpp:290-303 [dump_memory_layout] (part): The stacks of a
    context. *)
Definition dump_context (current : Z) (p : Z) : eff vm string :=
  c ← context_at p;
  mret ((if p =? current then "  Active:" +:+ endl else "") +:+
    dump_memory_range "  Datastack" 14 (seg_start (datastack_seg c)) (seg_end (datastack_seg c)) +:+
    dump_memory_range "  Retainstack" 14 (seg_start (retainstack_seg c)) (seg_end (retainstack_seg c)) +:+
    dump_memory_range "  Callstack" 14 (seg_start (callstack_seg c)) (seg_end (callstack_seg c)) +:+ endl).

(** src/vm/debug.cpp:281-301 [dump_memory_layout] *)
Definition dump_memory_layout : dbg () :=
  v ← vm_dbg get_state;
  let dh := heap_of (vm_gc v) in
  let first := cards_address (gc_barrier (vm_gc v)) in
  _ ← say (dump_memory_range "Nursery" 10 (ba_start (nursery dh)) (ba_end (nursery dh)));
  _ ← say (dump_memory_range "Aging" 10 (ba_start (ag_bump (aging dh))) (ba_end (ag_bump (aging dh))));
  _ ← say (dump_memory_range "Tenured" 10 (fl_start (tn_alloc (tenured dh))) (fl_end (tn_alloc (tenured dh))));
  _ ← say (dump_memory_range "Cards" 10 first (first +& Z.of_nat (List.length (cards dh))));
  _ ← say (endl +:+ "Contexts:" +:+ endl +:+ endl);
  for_each (merge_sort Z.le (base.elements (active_set v))) (λ p,
    t ← vm_dbg (dump_context (ctx v) p);
    say t).

(** * The stacks *)

(** src/vm/debug.cpp:206-224 [stack_frame_printer::operator()]: [scan] may
    allocate, so the objects are read when they are printed. *)
Definition stack_frame_printer (full : bool) (out : string) (frame_top size owner addr : Z) : eff vm string :=
  let text obj := reads (λ m, print_obj full depth m obj) in
  o ← reads (λ m, field m owner 8);
  executing ← text o;
  n ← scan depth owner addr;
  scanned ← text n;
  o ← reads (λ m, field m owner 8);
  mret (out +:+ endl +:+ "frame: " +:+ pointer frame_top +:+ " size " +:+ pretty size +:+ endl
    +:+ "executing: " +:+ executing +:+ endl +:+ "scan: " +:+ scanned +:+ endl
    +:+ "word/quot addr: " +:+ hex o +:+ endl +:+ "word/quot xt: " +:+ hex (entry_point owner) +:+ endl
    +:+ "return address: " +:+ hex addr +:+ endl).

(** The current context, unless there is none. *)
Definition on_context (f : context → dbg ()) : dbg () :=
  p ← vm_dbg (ask ctx);
  if p =? 0 then line "*** Context not initialized" else c ← vm_dbg current_context; f c.

(** src/vm/debug.cpp:180-188 [print_datastack] *)
Definition print_datastack : dbg () :=
  _ ← line "==== DATA STACK:";
  on_context (λ c, show (λ full m, print_objects full depth m (seg_start (datastack_seg c)) (datastack c))).

(** src/vm/debug.cpp:190-198 [print_retainstack] *)
Definition print_retainstack : dbg () :=
  _ ← line "==== RETAIN STACK:";
  on_context (λ c, show (λ full m, print_objects full depth m (seg_start (retainstack_seg c)) (retainstack c))).

(** src/vm/debug.cpp:227-234 [print_callstack] *)
Definition print_callstack : dbg () :=
  _ ← line "==== CALL STACK:";
  on_context (λ c,
    full ← dbg_ask full_output;
    t ← vm_dbg (loop (stack_body (stack_frame_printer full) (callstack_bottom c)) (callstack_top c, ""));
    say t).

(** src/vm/debug.cpp:236-239 [print_callstack_object] *)
Definition print_callstack_object (obj : Z) : dbg () :=
  full ← dbg_ask full_output;
  t ← vm_dbg (iterate_frames (stack_frame_printer full) obj "");
  say t.

(** * Commands *)

(** src/vm/debug.cpp:377-423 [factorbug_usage] *)
Definition factorbug_usage (advanced_p : bool) : dbg () :=
  _ ← line "Basic commands:";
  _ ← line "  q ^D             -- quit Factor";
  _ ← line "  c                -- continue executing Factor - NOT SAFE";
  _ ← line "  t                -- throw exception in Factor - NOT SAFE";
  _ ← line "  .s .r .c         -- print data, retain, call stacks";
  _ ← (if advanced_p then
    _ ← line "  help             -- reprint this message";
    _ ← line "Advanced commands:";
    _ ← line "  e                -- dump environment";
    _ ← line "  d <addr> <count> -- dump memory";
    _ ← line "  u <addr>         -- dump object at tagged <addr>";
    _ ← line "  . <addr>         -- print object at tagged <addr>";
    _ ← line "  g                -- dump memory layout";
    _ ← line "  ds dr            -- dump data, retain stacks";
    _ ← line "  trim             -- toggle output trimming";
    _ ← line "  data             -- data heap dump";
    _ ← line "  words            -- words dump";
    _ ← line "  tuples           -- tuples dump";
    _ ← line "  edges            -- print all object-to-object references";
    _ ← line "  refs <addr>      -- find data heap references to object";
    _ ← line "  push <addr>      -- push object on data stack - NOT SAFE";
    _ ← line "  gc               -- trigger full GC - NOT SAFE";
    _ ← line "  compact-gc       -- trigger compacting GC - NOT SAFE";
    _ ← line "  code             -- code heap dump";
    _ ← line "  abort            -- call abort()";
    line "  breakpoint       -- trigger system breakpoint"
  else line "  help             -- full help, including advanced commands");
  line "".

(** src/vm/debug.cpp:425-429 [exit_fep] *)
Definition exit_fep : dbg () :=
  _ ← dbg_change (λ d, with_console d false);
  prof_dbg (prof_change (λ p, mk_profiler (sampling_profiler_p p) (samples_per_second p) (vm_samples p) (samples_data p)
    (current_sample p) (safepoint_fep_p p) false (stop_on_ctrl_break p) (safepoint_guard p) (timer p))).

(** A command goes on to the next one, or the debugger is left. *)
Definition stay (c : dbg ()) : dbg (option fep_end) := _ ← c; mret None.
Definition leave (e : fep_end) : dbg (option fep_end) := mret (Some e).

(** The address that follows a command. *)
Definition with_address (f : Z → dbg (option fep_end)) : dbg (option fep_end) :=
  s ← dbg_ask cin;
  match read_cell_hex s with
  | None => leave (Exit 1)
  | Some (addr, rest) => _ ← dbg_change (λ d, with_cin d rest); f addr
  end.

(** src/vm/debug.cpp:482-490 [factorbug] (part): [d]; the number is followed by
    a character, so [peek] leaves the stream good. *)
Definition command_d : dbg (option fep_end) :=
  with_address (λ addr,
    _ ← dbg_change (λ d, with_cin d (match cin d with
                                     | String c rest => if code_of c =? 32 then rest else cin d
                                     | s => s end));
    with_address (λ count, stay (show (λ _ m, dump_memory m addr (addr +& count))))).

(** src/vm/debug.cpp:491-494 [factorbug] (part): [u] *)
Definition command_u : dbg (option fep_end) :=
  with_address (λ addr,
    stay (show (λ _ m, count ← object_size m addr; dump_memory m addr (addr +& count)))).

(** src/vm/debug.cpp:519-522 [factorbug] (part): [t]; [general_error] does not
    return. *)
Definition command_t : dbg (option fep_end) :=
  _ ← exit_fep;
  h ← vm_dbg (general_error 18 false_object false_object);
  leave (Throw h).

(** src/vm/debug.cpp:480-552 [factorbug] (part): A command. *)
Definition command (cmd : string) : dbg (option fep_end) :=
  if (cmd =? "q")%string then leave (Exit 1)
  else if (cmd =? "d")%string then command_d
  else if (cmd =? "u")%string then command_u
  else if (cmd =? ".")%string then
    with_address (λ addr, stay (_ ← show (λ full m, print_obj full depth m addr); say endl))
  else if (cmd =? "trim")%string then stay (dbg_change (λ d, with_full_output d (negb (full_output d))))
  else if (cmd =? "ds")%string then
    c ← vm_dbg current_context; stay (show (λ _ m, dump_memory m (seg_start (datastack_seg c)) (datastack c)))
  else if (cmd =? "dr")%string then
    c ← vm_dbg current_context; stay (show (λ _ m, dump_memory m (seg_start (retainstack_seg c)) (retainstack c)))
  else if (cmd =? ".s")%string then stay print_datastack
  else if (cmd =? ".r")%string then stay print_retainstack
  else if (cmd =? ".c")%string then stay print_callstack
  else if (cmd =? "e")%string then
    stay (show (λ _ m, concat_text (λ i, dump_cell m (special_slot i)) (seqZ 0 special_object_count)))
  else if (cmd =? "g")%string then stay dump_memory_layout
  else if (cmd =? "c")%string then _ ← exit_fep; leave Continue
  else if (cmd =? "t")%string then command_t
  else if (cmd =? "data")%string then stay (dump_objects TYPE_COUNT)
  else if (cmd =? "edges")%string then stay dump_edges
  else if (cmd =? "refs")%string then
    with_address (λ addr, stay (_ ← line "Data heap references:"; _ ← find_data_references addr; say endl))
  else if (cmd =? "words")%string then stay (dump_objects WORD_TYPE)
  else if (cmd =? "tuples")%string then stay (dump_objects TUPLE_TYPE)
  else if (cmd =? "push")%string then with_address (λ addr, stay (vm_dbg (ctx_push addr)))
  else if (cmd =? "code")%string then stay dump_code_heap
  else if (cmd =? "gc")%string then stay full_collection
  else if (cmd =? "compact-gc")%string then stay (vm_dbg (with_heaps (λ parent, primitive_compact_gc parent)))
  else if (cmd =? "help")%string then stay (factorbug_usage true)
  else if (cmd =? "abort")%string then leave AbortProcess
  else if (cmd =? "breakpoint")%string then leave Trap
  else stay (line "unknown command").

(** src/vm/debug.cpp:462-476 [factorbug] (part): The input has ended. *)
Definition input_ended (seen_command : bool) : dbg fep_end :=
  _ ← (if seen_command then mret ()
       else
         _ ← dbg_change (λ d, with_disabled d true);
         _ ← print_datastack;
         _ ← print_retainstack;
         print_callstack);
  mret (Exit 1).

(** src/vm/debug.cpp:456-553 [factorbug] (part): One turn of the loop. *)
Definition factorbug_body (seen_command : bool) : dbg (bool + fep_end) :=
  _ ← say "> ";
  s ← dbg_ask cin;
  match read_command s with
  | None => e ← input_ended seen_command; mret (inr e)
  | Some (cmd, rest) =>
      _ ← dbg_change (λ d, with_cin d rest);
      e ← command cmd;
      match e with None => mret (inl true) | Some e => mret (inr e) end
  end.

(** src/vm/debug.cpp:431-554 [factorbug] *)
Definition factorbug : dbg fep_end :=
  disabled ← dbg_ask fep_disabled;
  if disabled : bool then _ ← line "Low level debugger disabled"; mret (Exit 1)
  else
    running ← prof_dbg (prof_ask sampling_profiler_p);
    _ ← (if running : bool then prof_dbg end_sampling_profiler else mret ());
    _ ← prof_dbg (prof_change (λ p, mk_profiler (sampling_profiler_p p) (samples_per_second p) (vm_samples p)
          (samples_data p) (current_sample p) (safepoint_fep_p p) true (stop_on_ctrl_break p) (safepoint_guard p) (timer p)));
    _ ← line "Starting low level debugger...";
    _ ← dbg_change (λ d, with_console d true);
    shown ← dbg_ask fep_help_was_shown;
    _ ← (if shown : bool then mret () else _ ← factorbug_usage false; dbg_change with_help_shown);
    loop factorbug_body false.

(** src/vm/errors.cpp:29-35 [critical_error] *)
Definition critical_error (msg : string) (tagged : Z) : dbg fep_end :=
  _ ← say ("You have triggered a bug in Factor. Please report." +:+ endl);
  _ ← say ("critical_error: " +:+ msg +:+ ": " +:+ hex tagged +:+ endl);
  factorbug.

(** src/vm/errors.cpp:13-27 [fatal_error]: [fatal_erroring_p] is a global
    variable; an error within it ends the process at once. *)
Definition fatal_error (fatal_erroring_p data_exists : bool) (msg : string) (tagged : Z) : dbg fep_end :=
  if fatal_erroring_p then _ ← line "fatal_error in fatal_error!"; mret (Exit 86)
  else
    _ ← say ("fatal_error: " +:+ msg +:+ ": " +:+ pointer tagged +:+ endl +:+ endl);
    _ ← (if data_exists then dump_memory_layout else mret ());
    mret AbortProcess.

(** src/vm/debug.cpp:556-558 [primitive_die] *)
Definition primitive_die : dbg fep_end := critical_error "The die word was called by the library." 0.
End debugger.

(** * How the debugger ends *)

(** Input is only ever consumed. *)
Definition quiet {A} (c : dbg A) : Prop :=
  ∀ s s' a, c s = Done s' a → (String.length (cin s'.2.2) ≤ String.length (cin s.2.2))%nat.

Lemma bind_Done_inv {X A B} (c : eff X A) (f : A → eff X B) s s' b :
  (a ← c; f a) s = Done s' b → ∃ s1 a, c s = Done s1 a ∧ f a s1 = Done s' b.
Proof. unfold mbind, eff_bind. destruct (c s) as [s1 a| |]; [eauto|done|done]. Qed.

Lemma quiet_bind {A B} (c : dbg A) (f : A → dbg B) : quiet c → (∀ a, quiet (f a)) → quiet (a ← c; f a).
Proof.
  intros Hc Hf s s' b (s1 & a & E1 & E2)%bind_Done_inv. apply Hc in E1. apply Hf in E2. lia.
Qed.
Lemma quiet_ret {A} (a : A) : quiet (mret a).
Proof. intros s s' b [= <- <-]. lia. Qed.
Lemma quiet_prof {A} (c : prof A) : quiet (prof_dbg c).
Proof. intros s s' a. unfold prof_dbg. destruct (c _); intros [= <- <-]; simpl; lia. Qed.
Lemma quiet_vm {A} (c : eff vm A) : quiet (vm_dbg c).
Proof. apply quiet_prof. Qed.
Lemma quiet_ask {A} (f : debugger → A) : quiet (dbg_ask f).
Proof. intros s s' a [= <- <-]. lia. Qed.
Lemma quiet_change f : (∀ d, (String.length (cin (f d)) ≤ String.length (cin d))%nat) → quiet (dbg_change f).
Proof. intros Hf s s' a [= <- <-]. simpl. auto. Qed.
Lemma quiet_reads {A} (f : memory → result A) : quiet (reads f).
Proof. intros s s' a. unfold reads. destruct (f _); intros [= <- <-]; lia. Qed.
Lemma quiet_if {A} (b : bool) (x y : dbg A) : quiet x → quiet y → quiet (if b then x else y).
Proof. by destruct b. Qed.
Lemma quiet_for_each {A} (l : list A) (f : A → dbg ()) : (∀ a, quiet (f a)) → quiet (for_each l f).
Proof. intros Hf. induction l; cbn [for_each]; [apply quiet_ret|]. apply quiet_bind; auto. Qed.

Create HintDb quiet.
#[export] Hint Resolve quiet_ret quiet_prof quiet_vm quiet_ask quiet_reads : quiet.
#[export] Hint Extern 1 (quiet (dbg_change _)) => apply quiet_change; intros ?; simpl; lia : quiet.
#[export] Hint Extern 2 (quiet (mbind _ _)) => apply quiet_bind; [|intros ?; cbv beta] : quiet.
#[export] Hint Extern 2 (quiet (if _ then _ else _)) => apply quiet_if : quiet.
#[export] Hint Extern 2 (quiet (for_each _ _)) => apply quiet_for_each; intros ?; cbv beta : quiet.

Lemma quiet_say t : quiet (say t).
Proof. unfold say. auto with quiet. Qed.
Lemma quiet_line t : quiet (line t).
Proof. apply quiet_say. Qed.
#[export] Hint Resolve quiet_say quiet_line : quiet.
Lemma quiet_show f : quiet (show f).
Proof. unfold show. auto with quiet. Qed.
Lemma quiet_stay c : quiet c → quiet (stay c).
Proof. unfold stay. auto with quiet. Qed.
Lemma quiet_leave e : quiet (leave e).
Proof. apply quiet_ret. Qed.
#[export] Hint Resolve quiet_show quiet_stay quiet_leave : quiet.

(** Reading a number or a command shortens the input. *)
Lemma skip_space_length s : (String.length (skip_space s) ≤ String.length s)%nat.
Proof. induction s as [|c s IH]; simpl; [lia|]. destruct (space_p c); simpl; lia. Qed.
Lemma take_hex_length s v n : (String.length (take_hex s v n).2 ≤ String.length s)%nat.
Proof.
  revert v n. induction s as [|c s IH]; intros v n; simpl; [lia|].
  destruct (hex_value c); simpl; [|lia]. etransitivity; [apply IH|lia].
Qed.
Lemma drop_sign_length s : (String.length (drop_sign s).2 ≤ String.length s)%nat.
Proof. destruct s; simpl; [lia|]. repeat case_match; simpl; lia. Qed.
Lemma drop_0x_length s : (String.length (drop_0x s) ≤ String.length s)%nat.
Proof. destruct s as [|z [|x s]]; simpl; try lia. case_match; simpl; lia. Qed.

Lemma read_cell_hex_length s v rest : read_cell_hex s = Some (v, rest) → (String.length rest ≤ String.length s)%nat.
Proof.
  unfold read_cell_hex. pose proof (skip_space_length s) as H1.
  pose proof (drop_sign_length (skip_space s)) as H2. destruct (drop_sign (skip_space s)) as [neg s1].
  pose proof (drop_0x_length s1) as H3. pose proof (take_hex_length (drop_0x s1) 0 0) as H4.
  destruct (take_hex (drop_0x s1) 0 0) as [[value count] s2]. simpl in *.
  case_match; intros [= _ <-]. lia.
Qed.

Lemma take_word_length n s : (String.length (take_word n s).1 + String.length (take_word n s).2 = String.length s)%nat.
Proof.
  revert s. induction n as [|n IH]; intros [|c s]; simpl; try lia. destruct (space_p c); simpl; [lia|].
  specialize (IH s). destruct (take_word n s). simpl in *. lia.
Qed.
Lemma skip_space_head s c rest : skip_space s = String c rest → space_p c = false.
Proof. induction s as [|a s IH]; simpl; [done|]. destruct (space_p a) eqn:E; [auto|]. by intros [= <- _]. Qed.

Lemma read_command_length s cmd rest :
  read_command s = Some (cmd, rest) → (String.length rest < String.length s)%nat.
Proof.
  unfold read_command. pose proof (skip_space_length s) as H1.
  pose proof (take_word_length 1024 (skip_space s)) as H2.
  destruct (skip_space s) as [|c s1] eqn:E; [done|].
  pose proof (skip_space_head _ _ _ E) as Hc. change (take_word 1024 (String c s1)) with
    (if space_p c then (EmptyString, String c s1) else let '(w, r) := take_word 1023 s1 in (String c w, r)) in *.
  rewrite Hc in *. destruct (take_word 1023 s1) as [w r]. simpl in H1, H2. case_match; intros [= <- <-]. lia.
Qed.

Section ending.
Context `{!linkage, !os_memory, !c_heap, !iostream} (depth : nat).

Lemma quiet_address f : (∀ a, quiet (f a)) → quiet (with_address f).
Proof.
  intros Hf s s' e. unfold with_address, dbg_ask. rewrite (bind_Done _ _ _ s (cin s.2.2)) by done.
  destruct (read_cell_hex (cin s.2.2)) as [[addr rest]|] eqn:E.
  - intros (s1 & [] & E1 & E2)%bind_Done_inv. injection E1 as <-. apply Hf in E2. simpl in E2.
    apply read_cell_hex_length in E. lia.
  - intros [= <- <-]. lia.
Qed.
#[local] Hint Extern 2 (quiet (with_address _)) => apply quiet_address; intros ?; cbv beta : quiet.

Lemma quiet_walk f : quiet (each_object_text f).
Proof. unfold each_object_text. auto 10 with quiet. Qed.
#[local] Hint Resolve quiet_walk : quiet.
Lemma quiet_context f : (∀ c, quiet (f c)) → quiet (on_context f).
Proof. unfold on_context. auto with quiet. Qed.
#[local] Hint Extern 2 (quiet (on_context _)) => apply quiet_context; intros ?; cbv beta : quiet.
Lemma quiet_exit_fep : quiet exit_fep.
Proof. unfold exit_fep. auto with quiet. Qed.
Lemma quiet_usage b : quiet (factorbug_usage b).
Proof. unfold factorbug_usage. auto 40 with quiet. Qed.
#[local] Hint Resolve quiet_exit_fep quiet_usage : quiet.

Lemma quiet_command cmd : quiet (command depth cmd).
Proof.
  unfold command, command_d, command_u, command_t, print_datastack, print_retainstack, print_callstack, dump_memory_layout,
    dump_objects, dump_edges, find_data_references, each_slot_text, dump_code_heap, full_collection.
  repeat (apply quiet_if; [auto 12 with quiet|]); auto with quiet.
  apply quiet_address. intros addr. apply quiet_bind; [|auto with quiet].
  apply quiet_change. intros d. destruct (cin d); simpl; [lia|]. case_match; simpl; lia.
Qed.

(** When the debugger returns to the program, the console is unlocked, an
    interrupt is handled by the vm again and [fep_p] is off. *)
Definition left_to_factor (e : fep_end) (s : memory * (vm * profiler * debugger)) : Prop :=
  match e with
  | Continue | Throw _ =>
      console_locked s.2.2 = false ∧ ctrl_c_ignored s.2.2 = false ∧ fep_p s.2.1.2 = false
  | _ => True
  end.

Definition leaves (c : dbg (option fep_end)) : Prop :=
  ∀ s s' e, c s = Done s' (Some e) → left_to_factor e s'.

Lemma leaves_stay c : leaves (stay c).
Proof. intros s s' e. unfold stay. by intros (s1 & a & _ & [=])%bind_Done_inv. Qed.
Lemma leaves_bind {A} (c : dbg A) f : (∀ a, leaves (f a)) → leaves (a ← c; f a).
Proof. intros Hf s s' e (s1 & a & _ & E)%bind_Done_inv. by eapply Hf. Qed.
Lemma leaves_if (b : bool) x y : leaves x → leaves y → leaves (if b then x else y).
Proof. by destruct b. Qed.
Lemma leaves_process e : match e with Continue | Throw _ => False | _ => True end → leaves (leave e).
Proof. intros He s s' e' [= <- <-]. by destruct e. Qed.
Lemma leaves_address f : (∀ a, leaves (f a)) → leaves (with_address f).
Proof.
  intros Hf. unfold with_address. apply leaves_bind. intros s.
  destruct (read_cell_hex s) as [[a rest]|]; [|by apply leaves_process]. apply leaves_bind. auto.
Qed.

Lemma exit_fep_eq s : ∃ p d, exit_fep s = Done (s.1, (s.2.1.1, p, d)) () ∧
  console_locked d = false ∧ ctrl_c_ignored d = false ∧ fep_p p = false.
Proof. destruct s as [m [[v p] d]]. eexists _, _. split; [reflexivity|done]. Qed.

Lemma leaves_command cmd : leaves (command depth cmd).
Proof.
  unfold command, command_d, command_u, command_t.
  repeat (apply leaves_if); repeat first
    [apply leaves_stay | by apply leaves_process | apply leaves_address; intros ? | fail].
  1-3: apply leaves_bind; intros ?; try apply leaves_stay; apply leaves_address; intros ?; apply leaves_stay.
  - intros s s' e (s1 & [] & E1 & E2)%bind_Done_inv. destruct (exit_fep_eq s) as (p & d & Ex & Hl & Hc & Hf).
    rewrite Ex in E1. injection E1 as <-. injection E2 as <- <-. done.
  - intros s s' e (s1 & [] & E1 & (s2 & h & E2 & E3)%bind_Done_inv)%bind_Done_inv.
    destruct (exit_fep_eq s) as (p & d & Ex & Hl & Hc & Hf). rewrite Ex in E1. injection E1 as <-.
    unfold vm_dbg, prof_dbg, vm_prof in E2. simpl in E2. destruct (general_error _ _ _ _); [|done|done].
    injection E2 as <- <-. injection E3 as <- <-. done.
Qed.

(** A turn of the loop. *)
Lemma factorbug_turn seen s :
  match factorbug_body depth seen s with
  | Done s' (inl _) => (String.length (cin s'.2.2) < String.length (cin s.2.2))%nat
  | Done s' (inr e) => left_to_factor e s'
  | _ => True
  end.
Proof.
  destruct (factorbug_body depth seen s) as [s' [b|e]| |] eqn:E; [| |done|done]; unfold factorbug_body in E;
    apply bind_Done_inv in E as (s1 & [] & E1 & E); injection E1 as <-;
    apply bind_Done_inv in E as (s1 & text & E1 & E); injection E1 as <- <-; simpl in E;
    destruct (read_command (cin s.2.2)) as [[cmd rest]|] eqn:Er.
  - apply bind_Done_inv in E as (s2 & [] & E2 & E). injection E2 as <-.
    apply bind_Done_inv in E as (s3 & o & E3 & E4). destruct o; [done|]. injection E4 as <- _.
    apply quiet_command in E3. simpl in E3. apply read_command_length in Er. lia.
  - by apply bind_Done_inv in E as (s2 & o & _ & [=]).
  - apply bind_Done_inv in E as (s2 & [] & E2 & E). apply bind_Done_inv in E as (s3 & o & E3 & E4).
    destruct o as [e'|]; [|done]. injection E4 as <- <-. by apply leaves_command in E3.
  - apply bind_Done_inv in E as (s2 & o & E2 & E3). injection E3 as <- <-. unfold input_ended in E2.
    apply bind_Done_inv in E2 as (s3 & u & _ & [= _ <-]). done.
Qed.

Lemma factorbug_loop s s' e : loop (factorbug_body depth) false s = Done s' e → left_to_factor e s'.
Proof.
  unfold loop. destruct (while_loop _ _) as [o|] eqn:Ew; [|done]. intros ->.
  refine (while_loop_inv _ (λ _, True) (λ o, ∀ s' e, o = Done s' e → left_to_factor e s') _ _ _ I Ew s' e eq_refl).
  intros [s3 seen] _. unfold loop_body. simpl. pose proof (factorbug_turn seen s3) as Ht.
  destruct (factorbug_body depth seen s3) as [s4 [b|e4]| |]; simpl; [done| |done|done].
  by intros s5 e5 [= <- <-].
Qed.

End ending.

(** A session: a number is printed, and the program goes on. *)
Definition session : string := ". 30" +:+ endl +:+ "c" +:+ endl.
Definition session_state : memory * (vm * profiler * debugger) :=
  (∅, (example_vm 0, mk_profiler false 0 [] 0 clear_counts false false false false 0,
       mk_debugger "" session false false true false false)).

